(* ===== verification/_CoqProject ===== *)
-Q . S2P
Prelude.v
GoStrings.v
GoErrors.v
GoBase64.v
JobState.v
Planner.v
Retry.v
Crypto.v
Store.v
Migrate.v
StoreDownloads.v
StoreAccounts.v
Paths.v
FsRoot.v
FsRootOps.v
Worker.v
IdleBody.v
SegmentRetry.v
FileTransfer.v
Heap.v
Queue.v
QueueSpec.v
Secrets.v
SecretKey.v
Auth.v
Lifecycle.v
LifecycleStates.v
LifecycleRun.v
Finalize.v
QuotaTimers.v
Events.v
MegaValues.v
Links.v
Hashcash.v
MegaClient.v
Folder.v
MegaAccounts.v
Settings.v
Runtime.v
Network.v
Socks.v
Float64.v
Limiter.v
Speed.v
Api.v
Destinations.v
ApiServer.v
ApiDownloads.v
ApiAccounts.v
ApiSession.v
JobClient.v
ManagerStart.v
EventStream.v
Progress.v
App.v
Redact.v
ApiControl.v
