(* ===== verification/Prelude.v ===== *)
(** * megadw: a verified model of the download manager

    The Go program under src/ downloads public MEGA links: it keeps jobs and
    files in SQLite, queues jobs, fetches encrypted ranges with several workers
    into a partial file, decrypts them, checkpoints a segment bitmap, verifies
    the MEGA MAC and moves the finished file to its destination.  This library
    models that core and proves what makes it correct.

    ** Parts and files

    - Prelude.v: results, the state-and-error monad [cmd], field assignment
      [r <| f := v |>], machine integers, durations, automation, run lemmas.
    - GoStrings.v, GoErrors.v, GoBase64.v: the parts of the Go standard library
      the source uses: strings and strconv, error values with wrapping and
      errors.Is/As, encoding/base64.
    - JobState.v (internal/download/state.go): job and file life cycles.
    - Planner.v (planner.go, bitmap functions of manager.go): segments, bitmaps.
    - Retry.v (retry.go): error classes, Retry-After, backoff.
    - Crypto.v (internal/mega/crypto.go, integrity.go, download/integrity.go):
      key folding, AES-CTR over ranges, chunk MAC; AES is an argument.
    - Store.v, StoreDownloads.v, StoreAccounts.v (internal/store): the SQLite
      tables with their constraints, statements that may each fail,
      transactions, and the repositories for downloads, accounts and proxies.
    - Secrets.v (store/secrets.go): sealing over AES-GCM given by its laws.
    - Auth.v (internal/auth, store/auth.go): the administrator and sessions.
    - Paths.v, FsRoot.v, FsRootOps.v (internal/fsroot): path cleaning, and the
      directory-descriptor operations as sequences of system calls on a tree
      with symbolic links, each of which may fail.
    - Worker.v (worker.go, writer.go): one range download.
    - SegmentRetry.v (manager.go, downloadSegmentWithRetry): the retry loop.
    - FileTransfer.v (manager.go, processFileWithTransfer; checkpoint.go): the
      workers, the collector and checkpoints of one file as a step relation
      with crashes.
    - Heap.v, Queue.v, QueueSpec.v (manager.go): the pending heap, the queue's
      critical sections with dispatcher, callers and job goroutines
      interleaved, and its abstract specification.
    - Lifecycle.v, LifecycleStates.v, LifecycleRun.v, Finalize.v (manager.go):
      running, pausing, resuming, cancelling, failing, deleting, finalizing and
      recovering jobs over the database, the file tree and the queue.
    - Events.v (internal/events): coalescer, subscribers and bus.
    - MegaValues.v, Links.v, Hashcash.v, MegaClient.v, Folder.v, MegaAccounts.v
      (internal/mega): JSON accessors and encrypted metadata, public links, the
      proof of work, API commands with their retries, the listing of folders,
      and account sessions.
    - Settings.v (internal/settings, store/settings.go), Runtime.v (manager.go,
      NewManager and ApplySettings): the settings, their rules and rows, and
      what a manager runs with.
    - Network.v, Socks.v (internal/network): proxy profiles, clients and their
      pool; the SOCKS5 handshake.
    - Float64.v, Limiter.v, Speed.v, Progress.v (limiter.go, speed.go, the
      publishing functions of manager.go): float64 arithmetic, the token bucket,
      the speed meter, and the events about progress.
    - IdleBody.v (worker.go): the idle timeout of a response body over time.
    - QuotaTimers.v, JobClient.v, ManagerStart.v (manager.go): the retry timers
      with the shutdown, the clients of jobs, and Start and Recover.
    - SecretKey.v (store/secrets.go), Migrate.v (store/db.go, migrations.go):
      the key file and the opening of the database, one fallible call after the
      other.
    - Api.v, Destinations.v, ApiServer.v, ApiDownloads.v, ApiAccounts.v,
      ApiSession.v, ApiControl.v, EventStream.v (internal/api): the guard and
      the routes, destinations of a download, and every handler.
    - App.v (internal/app, cmd/megadw), Redact.v (internal/logging): opening and
      closing the application, main, the hosts requests may name; log redaction.

    Go names are kept where Rocq allows it ([Coalescer_Add] is the method Add of
    Coalescer).  A file of this library models the Go file named in its header.

    ** How the parts interact

    Repositories run in [store_cmd] over [DB]; the life cycle runs in a command
    monad over [World], which holds the database, the file tree and the queue
    and lifts each component's operations ([on], [on_db]).  FileTransfer uses
    Worker through SegmentRetry; the life cycle sees a whole transfer only
    through the class [TransferSpec] of LifecycleStates.v, which says what a
    transfer may change.  Finalize.v composes the file tree of FsRoot.v with
    the statements of StoreDownloads.v.

    ** What the theorems show

    - No data loss: [checkpoint_order_safe] (a persisted bit implies durable
      bytes, whatever crashes), [transfer_complete], [finalize_keeps_content],
      [recovery_never_loses], [RenameFrom_moves], [DownloadRange_exact].
    - States: [job_states_follow_table] (each database call along a history
      keeps to the table), [states_stay_typed],
      [runJob_completes_files], [file_completion_path], [job_completion_path].
    - Queue: [queue_refines] (the same events as a priority queue), [queue_progress]
      (no lost wake-up), [queue_bounds].
    - Store: [history_integrity], [CheckpointDownloadFiles_atomic],
      [MarkDownloadsForRecovery_spec], [InsertDownloadJob_roundtrip].
    - Arithmetic and bytes: [PlanSegments_partition], [Segment_bounds],
      [committedBytes_spec], [DecryptAt_ranges], [VerifyIntegrity_spec].
    - Confinement: [SanitizeRelativePath_contained], [RemoveAll_confined],
      [PartialRelativePath_scoped].
    - Events: [coalescer_delivers], [coalescer_keeps_durable],
      [bus_stays_bounded].
    - Sessions: [single_administrator], [session_lifetime],
      [password_record_roundtrip].
    - Start-up and shutdown: [start_forgets_nothing], [close_stops_retries],
      [store_Open_consistent], [secret_key_kept], [app_starts_and_stops].
    - Requests: [requests_guarded] (every outcome, with its status),
      [create_download_sound] (one job stored whole, or none),
      [put_settings_sound], [delete_download_sound],
      [account_credentials_sealed], [settings_replaced_whole].
    - Routes: [proxy_carries_everything], [job_traffic_routed],
      [changed_clients_dropped], [dialSOCKS5_protocol].
    - Rates and streams: [bandwidth_bounded] (with the rounding of float64),
      [event_stream_delivers], [idle_timeout_exact], [speed_window].
    - MEGA: [account_session_persists], [resolveFolder_lists_selection],
      [ParseLink_accepts_only], [hashcash_search], [doCommand_exchange].

    ** Modelling choices, bounds and fuel

    - An int64 is a [Z] with its wrap-around written out ([wrap64]); a byte is a
      [Z] below 256; a time is the nanoseconds since Go's zero time.
    - Every database statement and system call consumes one entry of a schedule
      of failures, so theorems quantify over every pattern of failures.  A crash
      of the process is a step of the transfer machine.
    - Loops with a Go bound use that bound: the retry loop by its attempt limit,
      finalization by [finalize_attempts] = 100001 names, copy loops by the
      number of bytes left plus one; each has a theorem that the fuel suffices
      or that the function is total.
    - A float64 is a value of the Standard Library's SpecFloat, with its rounding;
      a goroutine that runs until its context ends is a fold over the finite list
      of what its select saw.
    - In LifecycleRun.v the operations of the manager are atomic steps of a
      history and the files of a job are processed by one worker; interleaving
      is modelled where it matters: in the queue, in the transfer of a file and
      in the bus.
    - The world keeps, for the theorems only, the tables before each database
      call of an operation ([w_trail]), so that they speak of every write and not
      of the end of a run.
    - Foreign keys are enforced as on the connection that [Open] configured, a nil
      slice is bound as an empty BLOB, and closing the bus is one step although
      the code stops each subscriber after it released the lock.
    - [workerForJob] and the API handlers are atomic to each other; JobClient.v
      shows the race of a proxy update with a worker that is logging in.
    - Cryptography (AES, AES-GCM, SHA-256, Argon2id) is an argument with its
      documented laws, each with a concrete instance in a witness.

    ** Not modelled, and why

    - internal/webui and internal/buildinfo serve embedded files and constants;
      cmd/megadw-benchmark and cmd/megadw-bench-fixture measure a running
      program.
    - Of cmd/megadw: flags, environment, the client side of the health check and
      the headers of the HTTP server, which is glue of flag and net/http.
    - net/http, encoding/json, net/url, database/sql and go-mega are arguments
      with the behaviour the code relies on; what net/http does with a finished
      client is not modelled.
    - Password work slots and mutexes appear as the outcome of waiting and as
      atomic steps; contexts as a step after which they are found cancelled. *)

From Stdlib Require Import ZArith Lia.
From stdpp Require Import base list gmap strings numbers pretty.

#[global] Open Scope Z_scope.
#[export] Set Warnings "-clear-no-such-hyp".

(** ** Fallible results

    [result E A] is Go's [(A, error)] return pair where the value is only
    meaningful when the error is nil. *)

Inductive result (E A : Type) : Type :=
| Ok (a : A)
| Err (e : E).
Arguments Ok {E A} a.
Arguments Err {E A} e.

#[export] Instance result_ret E : MRet (result E) := λ A a, Ok a.
#[export] Instance result_bind E : MBind (result E) := λ A B k m,
  match m with Ok a => k a | Err e => Err e end.

Definition is_ok {E A} (r : result E A) : bool :=
  match r with Ok _ => true | Err _ => false end.

(** A Go method that reads and writes shared state and returns [(A, error)].
    State written before an error return stays written, so the state is
    threaded outside the result. *)
Definition cmd (E S A : Type) : Type := S → S * result E A.

#[export] Instance cmd_ret E S : MRet (cmd E S) := λ A a s, (s, Ok a).
#[export] Instance cmd_bind E S : MBind (cmd E S) := λ A B k m s,
  match m s with
  | (s', Ok a) => k a s'
  | (s', Err e) => (s', Err e)
  end.

(** [throw]: an early error return; [ignore]: a call whose error is dropped
    ([_ = f()]); [catch]: a call whose outcome is inspected. *)
Definition throw {E S A} (e : E) : cmd E S A := λ s, (s, Err e).
Definition ignore {E S A} (m : cmd E S A) : cmd E S () := λ s, ((m s).1, Ok ()).
Definition catch {E S A} (m : cmd E S A) : cmd E S (result E A) :=
  λ s, ((m s).1, Ok (m s).2).
Definition get {E S} : cmd E S S := λ s, (s, Ok s).
Definition modify {E S} (f : S → S) : cmd E S () := λ s, (f s, Ok ()).
Definition guard_err {E S} (b : bool) (e : E) : cmd E S () :=
  if b then throw e else mret ().

(** A pure call that may fail, as a step of an effectful function. *)
Definition lift_result {E S A} (r : result E A) : cmd E S A := λ s, (s, r).

(** A [for range] loop whose body may return early with an error. *)
Fixpoint for_each {E S A} (l : list A) (f : A → cmd E S ()) : cmd E S () :=
  match l with
  | [] => mret ()
  | x :: l => _ ← f x; for_each l f
  end.

(** ** Field assignment

    [r <| f := v |>] is the Go assignment [r.f = v] on a record value.  The
    updater is found by abstracting the field out of the record's eta
    expansion, which each record declares as an [Eta] instance. *)

Class Eta (R : Type) := eta : R → R.
Class Updater {R T} (proj : R → T) := update_field : T → R → R.
Arguments update_field {R T} proj {_} _ _.

Ltac solve_updater R proj :=
  let r := fresh "r" in let v := fresh "v" in
  intros v r;
  let e := constr:(eta r) in
  let e := eval hnf in e in
  lazymatch eval pattern (proj r) in e with
  | ?g _ => let b := eval cbn beta in (g v) in
            lazymatch b with context [v] => exact b end
  end.

#[export] Hint Extern 1 (@Updater ?R ?T ?proj) =>
  (solve_updater R proj) : typeclass_instances.

Notation "r <| f := v |>" := (update_field f v r)
  (at level 12, f at level 9, v at level 200, left associativity,
   format "r  <| f  :=  v |>").

(** ** Machine integers

    A Go [int64] is a [Z] inside [int64_min, int64_max]; arithmetic that can
    leave the range is written with [wrap64], the two's-complement
    truncation. *)

Definition int64_min : Z := - 2 ^ 63.
Definition int64_max : Z := 2 ^ 63 - 1.
Definition int64_ok (x : Z) : Prop := int64_min ≤ x ≤ int64_max.
Definition wrap64 (x : Z) : Z := (x + 2 ^ 63) `mod` 2 ^ 64 - 2 ^ 63.
Definition wrap8 (x : Z) : Z := x `mod` 256.
Definition wrap32u (x : Z) : Z := x `mod` 2 ^ 32.
Definition byte_ok (b : Z) : Prop := 0 ≤ b < 256.

#[export] Instance int64_ok_dec x : Decision (int64_ok x).
Proof. unfold int64_ok. apply _. Defined.
#[export] Instance byte_ok_dec x : Decision (byte_ok x).
Proof. unfold byte_ok. apply _. Defined.

(** ** Time

    [time.Duration] is an int64 count of nanoseconds; [time.Time] is the
    count of nanoseconds since the zero time, so [IsZero] is [= 0]. *)

Definition Nanosecond : Z := 1.
Definition Microsecond : Z := 1000 * Nanosecond.
Definition Millisecond : Z := 1000 * Microsecond.
Definition Second : Z := 1000 * Millisecond.
Definition Minute : Z := 60 * Second.
Definition Hour : Z := 60 * Minute.

(** ** Automation

    [go_unfold] exposes the machine-integer predicates and closes linear
    goals; [case_ifs] splits every boolean conditional of the goal and
    hypotheses, turning the boolean tests into arithmetic facts. *)

Create HintDb megadw discriminated.

Ltac bool_to_prop :=
  repeat match goal with
  | H : _ && _ = true |- _ => apply andb_true_iff in H; destruct H
  | H : _ || _ = false |- _ => apply orb_false_iff in H; destruct H
  | H : negb _ = true |- _ => apply negb_true_iff in H
  | H : negb _ = false |- _ => apply negb_false_iff in H
  | H : (_ <? _) = true |- _ => apply Z.ltb_lt in H
  | H : (_ <? _) = false |- _ => apply Z.ltb_ge in H
  | H : (_ <=? _) = true |- _ => apply Z.leb_le in H
  | H : (_ <=? _) = false |- _ => apply Z.leb_gt in H
  | H : (_ =? _) = true |- _ => apply Z.eqb_eq in H
  | H : (_ =? _) = false |- _ => apply Z.eqb_neq in H
  | H : bool_decide _ = true |- _ => apply bool_decide_eq_true in H
  | H : bool_decide _ = false |- _ => apply bool_decide_eq_false in H
  end.

Ltac case_ifs :=
  repeat match goal with
  | |- context [if ?b then _ else _] => destruct b eqn:?
  | H : context [if ?b then _ else _] |- _ => destruct b eqn:?
  end; bool_to_prop; simplify_eq/=.

Ltac int_lia :=
  unfold int64_ok, byte_ok, wrap8, int64_min, int64_max in *; lia.

(** ** Lemmas on machine integers *)

Lemma wrap64_id x : int64_ok x → wrap64 x = x.
Proof.
  unfold int64_ok, int64_min, int64_max, wrap64. intros ?.
  rewrite Z.mod_small; lia.
Qed.

Lemma wrap64_ok x : int64_ok (wrap64 x).
Proof.
  unfold int64_ok, int64_min, int64_max, wrap64.
  pose proof (Z.mod_pos_bound (x + 2 ^ 63) (2 ^ 64) ltac:(lia)). lia.
Qed.

Lemma wrap8_ok x : byte_ok (wrap8 x).
Proof. unfold byte_ok, wrap8. apply Z.mod_pos_bound. lia. Qed.

#[export] Hint Resolve wrap64_ok wrap8_ok : megadw.

(** Go's integer division truncates; on the non-negative operands the
    program divides it is the Euclidean one. *)
Lemma quot_div_nonneg x y : 0 ≤ x → 0 < y → x `quot` y = x `div` y.
Proof. intros. apply Z.quot_div_nonneg; lia. Qed.

(** ** Lemmas on the effect monad *)

Section cmd_lemmas.
Context {E S A B : Type}.

Lemma cmd_bind_ok (m : cmd E S A) (k : A → cmd E S B) s s' a :
  m s = (s', Ok a) → (m ≫= k) s = k a s'.
Proof. intros H. unfold mbind, cmd_bind. by rewrite H. Qed.

Lemma cmd_bind_err (m : cmd E S A) (k : A → cmd E S B) s s' e :
  m s = (s', Err e) → (m ≫= k) s = (s', Err e).
Proof. intros H. unfold mbind, cmd_bind. by rewrite H. Qed.

(** Inversion of a bind that produced a value. *)
Lemma get_bind (k : S → cmd E S B) s : (get ≫= k) s = k s s.
Proof. done. Qed.

Lemma modify_bind (f : S → S) (k : () → cmd E S B) s : (modify f ≫= k) s = k () (f s).
Proof. done. Qed.

Lemma cmd_bind_inv (m : cmd E S A) (k : A → cmd E S B) s s'' b :
  (x ← m; k x) s = (s'', Ok b) →
  ∃ a s', m s = (s', Ok a) ∧ k a s' = (s'', Ok b).
Proof.
  unfold mbind, cmd_bind. destruct (m s) as [s' [a|e]]; [eauto|done].
Qed.
End cmd_lemmas.

(** A state predicate kept by every outcome of a command, errors
    included: the partial-correctness judgement used for invariants. *)
Definition preserves {E S A} (I : S → Prop) (m : cmd E S A) : Prop :=
  ∀ s, I s → I (m s).1.

Section preserves.
Context {E S : Type} (I : S → Prop).

Lemma preserves_ret {A} (a : A) : preserves (E:=E) I (mret a).
Proof. by intros s. Qed.
Lemma preserves_throw {A} (e : E) : preserves I (throw (A:=A) e).
Proof. by intros s. Qed.
Lemma preserves_get : preserves (E:=E) I get.
Proof. by intros s. Qed.
Lemma preserves_bind {A B} (m : cmd E S A) (k : A → cmd E S B) :
  preserves I m → (∀ a, preserves I (k a)) → preserves I (x ← m; k x).
Proof.
  intros Hm Hk s Hs. unfold mbind, cmd_bind. specialize (Hm s Hs).
  destruct (m s) as [s' [a|e]]; simpl in *; [by apply Hk|done].
Qed.
Lemma preserves_ignore {A} (m : cmd E S A) : preserves I m → preserves I (ignore m).
Proof. intros Hm s Hs. by apply Hm. Qed.
Lemma preserves_catch {A} (m : cmd E S A) : preserves I m → preserves I (catch m).
Proof. intros Hm s Hs. by apply Hm. Qed.
Lemma preserves_modify (f : S → S) :
  (∀ s, I s → I (f s)) → preserves (E:=E) I (modify f).
Proof. intros Hf s Hs. by apply Hf. Qed.
End preserves.

#[export] Hint Resolve preserves_ret preserves_throw preserves_get
  preserves_bind preserves_ignore preserves_catch preserves_modify : megadw.

(** ** Runs of a step relation *)

(** An invariant of a step relation holds along every run. *)
Lemma rtc_step_eq {A} (R : A → A → Prop) x y y' z : R x y → y = y' → rtc R y' z → rtc R x z.
Proof. intros ? <- ?. by eapply rtc_l. Qed.

Lemma rtc_invariant {A} (R : relation A) (I : A → Prop) x y :
  (∀ a b, R a b → I a → I b) → rtc R x y → I x → I y.
Proof. intros HR. induction 1; eauto. Qed.

(** ** Lists *)

Section filter_lemmas.
Context {A : Type} (P : A → Prop) `{!∀ x, Decision (P x)}.

Lemma filter_none (l : list A) : (∀ x, x ∈ l → ¬ P x) → filter P l = [].
Proof.
  induction l as [|x l IH]; intros Hl; [done|].
  rewrite filter_cons_False by set_solver. apply IH. set_solver.
Qed.

Lemma filter_all (l : list A) : (∀ x, x ∈ l → P x) → filter P l = l.
Proof.
  induction l as [|x l IH]; intros Hl; [done|].
  rewrite filter_cons_True by set_solver. f_equal. apply IH. set_solver.
Qed.
End filter_lemmas.

Lemma length_filter_fmap {A B} (f : A → B) (P : B → Prop) (Q : A → Prop)
    `{!∀ x, Decision (P x)} `{!∀ x, Decision (Q x)} (l : list A) :
  (∀ x, x ∈ l → (P (f x) ↔ Q x)) →
  length (filter P (f <$> l)) = length (filter Q l).
Proof.
  induction l as [|x l IH]; intros Hf; [done|]. rewrite fmap_cons, !filter_cons.
  pose proof (Hf x ltac:(set_solver)).
  repeat case_decide; simpl; rewrite IH by set_solver; done || tauto.
Qed.

Lemma length_filter_ext {A} (P Q : A → Prop)
    `{!∀ x, Decision (P x)} `{!∀ x, Decision (Q x)} (l : list A) :
  (∀ x, x ∈ l → (P x ↔ Q x)) → length (filter P l) = length (filter Q l).
Proof. intros Hf. rewrite <- (list_fmap_id l) at 1. by apply length_filter_fmap. Qed.

Lemma seqZ_split m n : 0 ≤ m → 0 ≤ n → seqZ 0 (m + n) = seqZ 0 m ++ seqZ m n.
Proof. intros. rewrite seqZ_app by done. f_equal. Qed.

