(* ===== verification/GoStrings.v ===== *)
(** * Go strings and numerals

    The functions of Go's [strings] and [strconv] packages the program calls,
    on byte strings: a Rocq [ascii] is one byte of a Go string. *)

From Stdlib Require Import ZArith Lia Ascii.
From stdpp Require Import base list gmap strings numbers pretty.
From S2P Require Import Prelude.

(** ** Definitions *)

(** A string from its byte values, for separators that are not printable. *)
Definition bytes (l : list nat) : string :=
  fold_right (λ n s, String (ascii_of_nat n) s) "" l.

Fixpoint HasPrefix (s p : string) : bool :=
  match p, s with
  | EmptyString, _ => true
  | String a p', String b s' => bool_decide (a = b) && HasPrefix s' p'
  | _, _ => false
  end.

Fixpoint drop_str (n : nat) (s : string) : string :=
  match n, s with
  | S n', String _ s' => drop_str n' s'
  | _, _ => s
  end.

Definition TrimPrefix (s p : string) : string :=
  if HasPrefix s p then drop_str (String.length p) s else s.

Definition rev_str (s : string) : string := String.rev s.

Definition HasSuffix (s p : string) : bool := HasPrefix (rev_str s) (rev_str p).

Definition TrimSuffix (s p : string) : string :=
  if HasSuffix s p
  then rev_str (drop_str (String.length p) (rev_str s)) else s.

(** [strings.Cut]: the parts around the first occurrence of [sep]. *)
Fixpoint Cut (s sep : string) : string * string * bool :=
  if HasPrefix s sep then ("", drop_str (String.length sep) s, true)
  else match s with
       | EmptyString => ("", "", false)
       | String c s' =>
         match Cut s' sep with
         | (before, after, true) => (String c before, after, true)
         | (before, after, false) => (s, "", false)
         end
       end.

(** [strings.Contains]. *)
Fixpoint Contains (s sub : string) : bool :=
  HasPrefix s sub ||
  match s with EmptyString => false | String _ s' => Contains s' sub end.

(** [strings.Split] by a one-byte separator. *)
Fixpoint Split (s : string) (sep : ascii) : list string :=
  match s with
  | EmptyString => [""]
  | String c s' =>
    if bool_decide (c = sep) then "" :: Split s' sep
    else match Split s' sep with
         | part :: rest => String c part :: rest
         | [] => [String c ""]
         end
  end.

Fixpoint Join (l : list string) (sep : string) : string :=
  match l with
  | [] => ""
  | [x] => x
  | x :: l' => x +:+ sep +:+ Join l' sep
  end.

(** [strings.IndexByte(s, c) >= 0] and [strings.ContainsAny(s, chars)]. *)
Fixpoint str_elem (c : ascii) (s : string) : bool :=
  match s with
  | EmptyString => false
  | String a s' => bool_decide (a = c) || str_elem c s'
  end.
Fixpoint ContainsAny (s chars : string) : bool :=
  match s with
  | EmptyString => false
  | String a s' => str_elem a chars || ContainsAny s' chars
  end.

(** [strings.ToLower] on the ASCII letters. *)
Definition lower_ascii (c : ascii) : ascii :=
  let n := nat_of_ascii c in
  if (Nat.leb 65 n && Nat.leb n 90)%bool then ascii_of_nat (n + 32) else c.
Fixpoint ToLower (s : string) : string :=
  match s with
  | EmptyString => ""
  | String c s' => String (lower_ascii c) (ToLower s')
  end.

(** The UTF-8 encodings of the code points [unicode.IsSpace] accepts. *)
Definition space_encodings : list string :=
  map bytes
    ([[9]; [10]; [11]; [12]; [13]; [32]; [194; 133]; [194; 160];
      [225; 154; 128]] ++
     map (λ n, [226; 128; n]) (seq 128 11) ++
     [[226; 128; 168]; [226; 128; 169]; [226; 128; 175];
      [226; 129; 159]; [227; 128; 128]])%nat.

Fixpoint trim_left_go (fuel : nat) (encs : list string) (s : string) : string :=
  match fuel with
  | O => s
  | S fuel' =>
    match List.find (HasPrefix s) encs with
    | Some e => trim_left_go fuel' encs (drop_str (String.length e) s)
    | None => s
    end
  end.
Definition trim_left (encs : list string) (s : string) : string :=
  trim_left_go (String.length s) encs s.

(** [strings.TrimSpace]. *)
Definition TrimSpace (s : string) : string :=
  rev_str (trim_left (map rev_str space_encodings)
             (rev_str (trim_left space_encodings s))).

(** [strconv.FormatInt(x, 10)] and [strconv.Itoa]. *)
Definition FormatInt (x : Z) : string := pretty x.

Definition quote (s : string) : string :=
  bytes [34%nat] +:+ s +:+ bytes [34%nat].

Definition digit_val (c : ascii) : option Z :=
  let n := Z.of_nat (nat_of_ascii c) in
  if (48 <=? n) && (n <=? 57) then Some (n - 48) else None.

Fixpoint parse_digits (acc : Z) (s : string) : option Z :=
  match s with
  | EmptyString => Some acc
  | String c s' =>
    match digit_val c with
    | Some d => parse_digits (acc * 10 + d) s'
    | None => None
    end
  end.
Definition parse_nat (s : string) : option Z :=
  match s with EmptyString => None | _ => parse_digits 0 s end.

(** [strconv.ParseInt(s, 10, 64)]; [None] is a syntax or range error. *)
Definition ParseInt (s : string) : option Z :=
  let signed :=
    match s with
    | String "-"%char s' => Z.opp <$> parse_nat s'
    | String "+"%char s' => parse_nat s'
    | _ => parse_nat s
    end in
  x ← signed; if bool_decide (int64_ok x) then Some x else None.

(** ** Lemmas *)

Lemma HasPrefix_app p s : HasPrefix (p +:+ s) p = true.
Proof.
  induction p as [|a p IH]; simpl; [by destruct s|].
  by rewrite bool_decide_eq_true_2, IH.
Qed.

Lemma drop_str_app p s : drop_str (String.length p) (p +:+ s) = s.
Proof. induction p; [done|assumption]. Qed.

Lemma TrimPrefix_app p s : TrimPrefix (p +:+ s) p = s.
Proof. unfold TrimPrefix. by rewrite HasPrefix_app, drop_str_app. Qed.

Lemma HasPrefix_true s p :
  HasPrefix s p = true → s = p +:+ drop_str (String.length p) s.
Proof.
  revert s. induction p as [|a p IH]; intros s H; [done|].
  destruct s as [|b s]; simpl in *; [done|].
  apply andb_true_iff in H as [->%bool_decide_eq_true ?].
  change (String b s = String b (p +:+ drop_str (String.length p) s)).
  f_equal. by apply IH.
Qed.

Lemma str_app_assoc (a b c : string) : (a +:+ b) +:+ c = a +:+ (b +:+ c).
Proof.
  induction a as [|x a IH]; [done|].
  change (String x ((a +:+ b) +:+ c) = String x (a +:+ (b +:+ c))). by rewrite IH.
Qed.

Lemma str_app_nil_r (a : string) : a +:+ "" = a.
Proof.
  induction a as [|x a IH]; [done|].
  change (String x (a +:+ "") = String x a). by rewrite IH.
Qed.

(** Cutting at a one-byte separator that the first part does not contain. *)
Lemma Cut_char_app c a b :
  str_elem c a = false → Cut (a +:+ String c b) (String c "") = (a, b, true).
Proof.
  induction a as [|x a IH]; simpl; intros H.
  - change (Cut (String c b) (String c "") = ("", b, true)). simpl.
    rewrite bool_decide_eq_true_2 by done. by destruct b.
  - apply orb_false_iff in H as [Hx Ha].
    change (Cut (String x (a +:+ String c b)) (String c "") = (String x a, b, true)).
    simpl. apply bool_decide_eq_false in Hx.
    rewrite bool_decide_eq_false_2 by congruence. simpl. by rewrite IH.
Qed.

(** What [Cut] reports is what it was given. *)
Lemma Cut_found s sep a b : Cut s sep = (a, b, true) → s = a +:+ sep +:+ b.
Proof.
  revert a b. induction s as [|c s IH]; intros a b; cbn [Cut].
  - destruct sep; simpl; intros [=]. by subst.
  - destruct (HasPrefix (String c s) sep) eqn:Hp.
    + intros [= <- <-]. by apply HasPrefix_true.
    + destruct (Cut s sep) as [[x y] []] eqn:Hc; [|done].
      intros [= <- <-]. change (String c s = String c (x +:+ sep +:+ y)).
      f_equal. by apply IH.
Qed.

Lemma Split_nonempty s sep : Split s sep ≠ [].
Proof. destruct s; simpl; [done|]. repeat case_match; done. Qed.

Lemma Join_cons x l sep :
  l ≠ [] → Join (x :: l) sep = x +:+ sep +:+ Join l sep.
Proof. by destruct l. Qed.

(** Joining the parts of a split restores the string. *)
Lemma Join_Split s sep : Join (Split s sep) (String sep "") = s.
Proof.
  induction s as [|c s IH]; [done|]. simpl.
  pose proof (Split_nonempty s sep) as Hne. case_bool_decide as Hc.
  - rewrite Join_cons by done. rewrite IH. by subst.
  - destruct (Split s sep) as [|part rest] eqn:Hs; [done|].
    destruct rest as [|r rest].
    + simpl in *. by rewrite IH.
    + rewrite Join_cons in IH |- * by done. rewrite <- IH. done.
Qed.

Lemma Split_parts_no_sep s sep : Forall (λ p, str_elem sep p = false) (Split s sep).
Proof.
  induction s as [|c s IH]; simpl; [by constructor|].
  case_bool_decide as Hc; [by constructor|].
  destruct (Split s sep) as [|part rest]; inversion IH; subst.
  - repeat constructor. simpl. by rewrite bool_decide_eq_false_2.
  - constructor; [|done]. simpl. by rewrite bool_decide_eq_false_2, H1.
Qed.

Lemma Split_no_sep a sep : str_elem sep a = false → Split a sep = [a].
Proof.
  induction a as [|c a IH]; simpl; [done|]. intros H.
  apply orb_false_iff in H as [Hc Ha]. rewrite Hc. by rewrite IH.
Qed.

Lemma Split_app_sep a b sep :
  str_elem sep a = false →
  Split (a +:+ String sep b) sep = a :: Split b sep.
Proof.
  induction a as [|c a IH]; simpl; intros H.
  - change (Split (String sep b) sep = "" :: Split b sep). simpl.
    by rewrite bool_decide_eq_true_2.
  - apply orb_false_iff in H as [Hc Ha].
    change (Split (String c (a +:+ String sep b)) sep = String c a :: Split b sep).
    simpl. rewrite Hc. by rewrite IH.
Qed.

(** Splitting what was joined restores the parts. *)
Lemma Split_Join l sep :
  l ≠ [] → Forall (λ p, str_elem sep p = false) l →
  Split (Join l (String sep "")) sep = l.
Proof.
  induction l as [|x l IH]; [done|]. intros _ Hl.
  inversion Hl as [|?? Hx Hl']; subst. destruct l as [|y l].
  - by apply Split_no_sep.
  - rewrite Join_cons by done.
    change (String sep "" +:+ Join (y :: l) (String sep ""))
      with (String sep (Join (y :: l) (String sep ""))).
    rewrite Split_app_sep by done. by rewrite IH.
Qed.

(** *** Decimal numerals *)

Lemma digit_val_pretty n :
  (n < 10)%N → digit_val (pretty_N_char n) = Some (Z.of_N n).
Proof.
  intros Hn.
  assert (n ∈ [0; 1; 2; 3; 4; 5; 6; 7; 8; 9]%N) as Hd.
  { rewrite !elem_of_cons. lia. }
  repeat (apply elem_of_cons in Hd as [->|Hd]; [done|]).
  by apply not_elem_of_nil in Hd.
Qed.

Lemma parse_digits_pretty n s :
  parse_digits 0 (pretty_N_go n s) = parse_digits (Z.of_N n) s.
Proof.
  revert s. induction (N.lt_wf_0 n) as [n _ IH]; intros s.
  destruct (decide (n = 0)%N) as [->|Hn]; [by rewrite pretty_N_go_0|].
  rewrite pretty_N_go_step by lia.
  rewrite IH by (apply N.div_lt; lia). simpl.
  rewrite digit_val_pretty by (apply N.mod_lt; lia). f_equal.
  pose proof (N.div_mod n 10 ltac:(lia)). lia.
Qed.

Lemma pretty_N_go_nonempty n s : s ≠ "" → pretty_N_go n s ≠ "".
Proof.
  revert s. induction (N.lt_wf_0 n) as [n _ IH]; intros s Hs.
  destruct (decide (n = 0)%N) as [->|Hn]; [by rewrite pretty_N_go_0|].
  rewrite pretty_N_go_step by lia. apply IH; [apply N.div_lt; lia|done].
Qed.

Lemma pretty_N_nonempty n : pretty (A:=N) n ≠ "".
Proof.
  unfold pretty, pretty_N. case_decide; [done|].
  rewrite pretty_N_go_step by lia. by apply pretty_N_go_nonempty.
Qed.

Lemma parse_nat_pretty n : parse_nat (pretty (A:=N) n) = Some (Z.of_N n).
Proof.
  unfold parse_nat. pose proof (pretty_N_nonempty n) as Hne.
  destruct (pretty n) as [|c s] eqn:Hp; [done|]. rewrite <- Hp.
  unfold pretty, pretty_N. case_decide as Hn; [by subst|].
  by rewrite parse_digits_pretty.
Qed.

(** A string whose bytes all are digits, as every numeral of [FormatInt]
    of a non-negative number is. *)
Fixpoint all_digits (s : string) : bool :=
  match s with
  | EmptyString => true
  | String c s' => bool_decide (is_Some (digit_val c)) && all_digits s'
  end.

Lemma parse_digits_all acc s v : parse_digits acc s = Some v → all_digits s = true.
Proof.
  revert acc. induction s as [|c s IH]; intros acc; simpl; [done|].
  destruct (digit_val c) eqn:Hd; [|done]. intros H.
  rewrite bool_decide_eq_true_2 by eauto. by apply IH in H.
Qed.

Lemma pretty_N_digits n : all_digits (pretty (A:=N) n) = true.
Proof.
  pose proof (parse_nat_pretty n) as H. unfold parse_nat in H.
  destruct (pretty n) as [|c s] eqn:Hp; [done|]. by eapply parse_digits_all.
Qed.

Lemma all_digits_no_elem c s :
  digit_val c = None → all_digits s = true → str_elem c s = false.
Proof.
  intros Hc. induction s as [|a s IH]; simpl; [done|]. intros H.
  apply andb_true_iff in H as [[v Ha]%bool_decide_eq_true Hs].
  rewrite IH by done. rewrite bool_decide_eq_false_2; [done|congruence].
Qed.

Lemma FormatInt_nonneg x : 0 ≤ x → FormatInt x = pretty (Z.to_N x).
Proof. unfold FormatInt, pretty, pretty_Z. destruct x; simpl; done || lia. Qed.

Lemma FormatInt_digits x : 0 ≤ x → all_digits (FormatInt x) = true.
Proof. intros. rewrite FormatInt_nonneg by done. apply pretty_N_digits. Qed.

(** Every int64 survives formatting and parsing. *)
Lemma ParseInt_FormatInt x : int64_ok x → ParseInt (FormatInt x) = Some x.
Proof.
  intros Hx. destruct (decide (0 ≤ x)) as [Hpos|Hneg].
  - rewrite FormatInt_nonneg by done. unfold ParseInt.
    pose proof (pretty_N_digits (Z.to_N x)) as Hd.
    pose proof (parse_nat_pretty (Z.to_N x)) as Hp.
    rewrite Z2N.id in Hp by done.
    destruct (pretty (Z.to_N x)) as [|c s]; [done|].
    assert (c ≠ "-"%char ∧ c ≠ "+"%char) as [Hm Hq].
    { simpl in Hd. apply andb_true_iff in Hd as [[v Hv]%bool_decide_eq_true _].
      split; intros ->; vm_compute in Hv; done. }
    transitivity ((x0 ← Some x; if bool_decide (int64_ok x0) then Some x0 else None)).
    { rewrite <- Hp. destruct c as [[] [] [] [] [] [] [] []]; done. }
    simpl. by rewrite bool_decide_eq_true_2.
  - destruct x as [|p|p]; [lia|lia|].
    change (FormatInt (Z.neg p)) with (String "-" (pretty (A:=N) (N.pos p))).
    unfold ParseInt. rewrite parse_nat_pretty. simpl.
    by rewrite bool_decide_eq_true_2.
Qed.

Lemma str_elem_rev c s : str_elem c (rev_str s) = str_elem c s.
Proof.
  assert (∀ t, str_elem c (String.rev_app s t) = str_elem c s || str_elem c t) as H.
  { induction s as [|a s IH]; intros t; [done|]. cbn. rewrite IH. cbn. by destruct (bool_decide (a = c)), (str_elem c s). }
  unfold rev_str, String.rev. rewrite H. apply orb_false_r.
Qed.
