(* ===== verification/GoErrors.v ===== *)
(** * Go error values

    The error values the program builds, tests and wraps: sentinels made with
    [errors.New], [fmt.Errorf] with and without [%w], and the typed errors of
    [internal/mega/errors.go], [internal/download/retry.go] and
    [internal/download/worker.go].  [errors_is] and the [errors_as_*]
    functions follow the unwrap chain as the [errors] package does. *)

From Stdlib Require Import ZArith Lia.
From stdpp Require Import base list gmap strings numbers pretty.
From S2P Require Import Prelude GoStrings.

(** ** Definitions *)

(** Package-level error values, compared by identity. *)
Inductive sentinel :=
| ErrInvalidStateTransition
| ErrInvalidSegmentPlan | ErrBitmapTooLarge | ErrSegmentIndex
| ErrQuota
| ErrTransferRootsNotConfigured | ErrCrossDevice | ErrFinalizationPending
| ErrInvalidLink | ErrInvalidKey | ErrInvalidAttributes | ErrIntegrityMismatch
| ErrSessionRejected | ErrReauthRequired | ErrMFAUnsupported
| ErrAuthenticationFailed
| ErrPathEscape | ErrSymlink | ErrInvalidPath | ErrConflict | ErrClosed
| ErrAdminExists | ErrNotFound | ErrRecordInUse
| Canceled | DeadlineExceeded
| EOF | ErrUnexpectedEOF | ErrShortWrite
| ErrNotExist | ErrExist
| ECONNRESET | EPIPE | ECONNREFUSED | EXDEV | ELOOP | ENOENT | ENOTDIR
| EEXIST | ENOTEMPTY | EISDIR.

#[export] Instance sentinel_eq_dec : EqDecision sentinel.
Proof. solve_decision. Defined.

Definition sentinel_text (s : sentinel) : string :=
  match s with
  | ErrInvalidStateTransition => "invalid download state transition"
  | ErrInvalidSegmentPlan => "invalid segment plan"
  | ErrBitmapTooLarge => "resume bitmap is too large"
  | ErrSegmentIndex => "segment index is out of range"
  | ErrQuota => "MEGA transfer quota is exhausted"
  | ErrTransferRootsNotConfigured => "transfer roots are not configured"
  | ErrCrossDevice => "incomplete and complete roots must share a filesystem"
  | ErrFinalizationPending =>
      "atomic rename succeeded but completion persistence is pending"
  | ErrInvalidLink => "invalid MEGA public link"
  | ErrInvalidKey => "invalid MEGA key"
  | ErrInvalidAttributes => "invalid MEGA attributes"
  | ErrIntegrityMismatch => "MEGA file integrity check failed"
  | ErrSessionRejected => "MEGA session rejected"
  | ErrReauthRequired => "MEGA account requires authentication"
  | ErrMFAUnsupported =>
      "MFA-enabled MEGA accounts are not supported in this version"
  | ErrAuthenticationFailed => "MEGA account authentication failed"
  | ErrPathEscape => "path escapes configured root"
  | ErrSymlink => "symlink in controlled path"
  | ErrInvalidPath => "invalid relative path"
  | ErrConflict => "destination already exists"
  | ErrClosed => "root is closed"
  | ErrAdminExists => "administrator already exists"
  | ErrNotFound => "record not found"
  | ErrRecordInUse => "record is selected by a download"
  | Canceled => "context canceled"
  | DeadlineExceeded => "context deadline exceeded"
  | EOF => "EOF"
  | ErrUnexpectedEOF => "unexpected EOF"
  | ErrShortWrite => "short write"
  | ErrNotExist => "file does not exist"
  | ErrExist => "file already exists"
  | ECONNRESET => "connection reset by peer"
  | EPIPE => "broken pipe"
  | ECONNREFUSED => "connection refused"
  | EXDEV => "invalid cross-device link"
  | ELOOP => "too many levels of symbolic links"
  | ENOENT => "no such file or directory"
  | ENOTDIR => "not a directory"
  | EEXIST => "file exists"
  | ENOTEMPTY => "directory not empty"
  | EISDIR => "is a directory"
  end.

(** Error values.  [Errorf text w] is [fmt.Errorf] with its formatted text
    and the operand of [%w], if any; [NetError] is a [net.Error]. *)
#[warnings="-register-all"]
Inductive error :=
| Sentinel (s : sentinel)
| Errorf (text : string) (wrapped : option error)
| APIError (code : Z)
| APIHTTPError (status : Z)
| QuotaError (cause : option error) (retry_after : Z)
| HTTPStatusError (status : Z) (text : string) (retry_after : string)
| NetError (text : string) (timeout temporary : bool)
| PathError (op path : string) (err : error).

#[global] Coercion Sentinel : sentinel >-> error.

(** The [Error() string] methods. *)
Fixpoint Error (e : error) : string :=
  match e with
  | Sentinel s => sentinel_text s
  | Errorf text _ => text
  | APIError code => "MEGA API error " +:+ FormatInt code
  | APIHTTPError status => "MEGA API HTTP status " +:+ FormatInt status
  | QuotaError (Some cause) _ => sentinel_text ErrQuota +:+ ": " +:+ Error cause
  | QuotaError None _ => sentinel_text ErrQuota
  | HTTPStatusError _ text _ => "payload HTTP status " +:+ text
  | NetError text _ _ => text
  | PathError op path err => op +:+ " " +:+ path +:+ ": " +:+ Error err
  end.

(** The constructors used at the call sites: [errors.New(t)],
    [fmt.Errorf("%w<t>", s)] and [fmt.Errorf("<t>: %w", e)]. *)
Definition New (text : string) : error := Errorf text None.
Definition Wrap (s : sentinel) (tail : string) : error :=
  Errorf (sentinel_text s +:+ tail) (Some (Sentinel s)).
Definition Wrapf (head : string) (e : error) : error :=
  Errorf (head +:+ ": " +:+ Error e) (Some e).

(** The [Is] methods: [syscall.Errno] answers for the [os] sentinels and
    [APIError] for a rejected session. *)
Definition sentinel_is (s target : sentinel) : bool :=
  bool_decide (s = target) ||
  match s, target with
  | ENOENT, ErrNotExist | EEXIST, ErrExist | ENOTEMPTY, ErrExist => true
  | _, _ => false
  end.

(** [errors.Is(e, target)]. *)
Fixpoint errors_is (e : error) (target : sentinel) : bool :=
  match e with
  | Sentinel s => sentinel_is s target
  | Errorf _ (Some w) => errors_is w target
  | Errorf _ None => false
  | APIError code => bool_decide (code = -15 ∧ target = ErrSessionRejected)
  | APIHTTPError _ => false
  | QuotaError (Some cause) _ => errors_is cause target
  | QuotaError None _ => sentinel_is ErrQuota target
  | HTTPStatusError _ _ _ => false
  | NetError _ _ _ => false
  | PathError _ _ err => errors_is err target
  end.

(** [errors.As] at a type: the first error of the unwrap chain that [pick]
    accepts. *)
Fixpoint errors_as {A} (pick : error → option A) (e : error) : option A :=
  match pick e with
  | Some a => Some a
  | None =>
    match e with
    | Errorf _ (Some w) => errors_as pick w
    | QuotaError (Some cause) _ => errors_as pick cause
    | QuotaError None _ => pick (Sentinel ErrQuota)
    | PathError _ _ err => errors_as pick err
    | _ => None
    end
  end.

Definition as_api_error : error → option Z :=
  errors_as (λ e, match e with APIError code => Some code | _ => None end).
Definition as_quota_error : error → option (option error * Z) :=
  errors_as (λ e, match e with QuotaError c r => Some (c, r) | _ => None end).
Definition as_http_status : error → option (Z * string) :=
  errors_as (λ e, match e with
                  | HTTPStatusError status _ retry => Some (status, retry)
                  | _ => None end).
(** [net.Error] is an interface: [syscall.Errno] and the context deadline
    error implement it too. *)
Definition sentinel_net (s : sentinel) : option (bool * bool) :=
  match s with
  | ECONNRESET => Some (false, true)
  | EPIPE | ECONNREFUSED | EXDEV | ELOOP | ENOENT | ENOTDIR | EEXIST
  | ENOTEMPTY | EISDIR => Some (false, false)
  | DeadlineExceeded => Some (true, true)
  | _ => None
  end.
Definition as_net_error : error → option (bool * bool) :=
  errors_as (λ e, match e with
                  | NetError _ timeout temporary => Some (timeout, temporary)
                  | Sentinel s => sentinel_net s
                  | _ => None end).

(** ** Lemmas *)

Lemma errors_is_sentinel s : errors_is (Sentinel s) s = true.
Proof. simpl. unfold sentinel_is. by rewrite bool_decide_eq_true_2. Qed.

Lemma errors_is_Wrap s tail : errors_is (Wrap s tail) s = true.
Proof. apply errors_is_sentinel. Qed.

Lemma errors_is_Wrapf head e t : errors_is (Wrapf head e) t = errors_is e t.
Proof. done. Qed.

#[export] Hint Resolve errors_is_sentinel errors_is_Wrap : megadw.
