(* ===== verification/GoBase64.v ===== *)
(** * Base64 (encoding/base64)

    The unpadded standard and URL encodings the program uses.  Decoding skips
    carriage returns and newlines and does not look at the unused bits of the
    last character, as the Go decoder without [Strict] does. *)

From Stdlib Require Import ZArith Lia Ascii.
From stdpp Require Import base list strings.
From S2P Require Import Prelude.

(** ** Strings as bytes *)

Definition byte_char (b : Z) : ascii := ascii_of_nat (Z.to_nat b).
Definition char_byte (c : ascii) : Z := Z.of_nat (nat_of_ascii c).

(** [[]byte(s)] and [string(b)]. *)
Fixpoint to_bytes (s : string) : list Z :=
  match s with
  | EmptyString => []
  | String c s => char_byte c :: to_bytes s
  end.

Fixpoint of_bytes (l : list Z) : string :=
  match l with
  | [] => ""
  | b :: l => String (byte_char b) (of_bytes l)
  end.

(** ** The alphabets: the last two characters differ *)

Record encoding := mkEncoding { char62 : ascii; char63 : ascii }.
Definition RawStdEncoding : encoding := mkEncoding "+" "/".
Definition RawURLEncoding : encoding := mkEncoding "-" "_".

Definition encode_digit (enc : encoding) (v : Z) : ascii :=
  if v <? 26 then byte_char (65 + v)
  else if v <? 52 then byte_char (97 + (v - 26))
  else if v <? 62 then byte_char (48 + (v - 52))
  else if v =? 62 then char62 enc else char63 enc.

Definition decode_digit (enc : encoding) (c : ascii) : option Z :=
  let n := char_byte c in
  if (65 <=? n) && (n <=? 90) then Some (n - 65)
  else if (97 <=? n) && (n <=? 122) then Some (n - 97 + 26)
  else if (48 <=? n) && (n <=? 57) then Some (n - 48 + 52)
  else if bool_decide (c = char62 enc) then Some 62
  else if bool_decide (c = char63 enc) then Some 63
  else None.

(** ** Encoding *)

Fixpoint encode_groups (l : list Z) : list Z :=
  match l with
  | x :: y :: z :: l =>
      x `div` 4 :: (x `mod` 4) * 16 + y `div` 16 :: (y `mod` 16) * 4 + z `div` 64 :: z `mod` 64
        :: encode_groups l
  | [x; y] => [x `div` 4; (x `mod` 4) * 16 + y `div` 16; (y `mod` 16) * 4]
  | [x] => [x `div` 4; (x `mod` 4) * 16]
  | [] => []
  end.

Fixpoint chars (enc : encoding) (l : list Z) : string :=
  match l with
  | [] => ""
  | v :: l => String (encode_digit enc v) (chars enc l)
  end.

Definition EncodeToString (enc : encoding) (src : list Z) : string := chars enc (encode_groups src).

(** ** Decoding *)

Fixpoint digits (enc : encoding) (s : string) : option (list Z) :=
  match s with
  | EmptyString => Some []
  | String c s =>
      if bool_decide (char_byte c = 10) || bool_decide (char_byte c = 13) then digits enc s
      else v ← decode_digit enc c; l ← digits enc s; Some (v :: l)
  end.

Fixpoint decode_groups (l : list Z) : option (list Z) :=
  match l with
  | a :: b :: c :: d :: l =>
      rest ← decode_groups l;
      Some (a * 4 + b `div` 16 :: (b `mod` 16) * 16 + c `div` 4 :: (c `mod` 4) * 64 + d :: rest)
  | [a; b; c] => Some [a * 4 + b `div` 16; (b `mod` 16) * 16 + c `div` 4]
  | [a; b] => Some [a * 4 + b `div` 16]
  | [_] => None
  | [] => Some []
  end.

Definition DecodeString (enc : encoding) (s : string) : option (list Z) :=
  l ← digits enc s; decode_groups l.

(** ** Round trip *)

Class AlphabetOk (enc : encoding) := alphabet_ok :
  Forall (λ v, decode_digit enc (encode_digit enc v) = Some v
               ∧ char_byte (encode_digit enc v) ≠ 10 ∧ char_byte (encode_digit enc v) ≠ 13)
         (seqZ 0 64).

#[export] Instance RawStdEncoding_ok : AlphabetOk RawStdEncoding.
Proof. unfold AlphabetOk. apply (bool_decide_unpack _). by vm_compute. Qed.
#[export] Instance RawURLEncoding_ok : AlphabetOk RawURLEncoding.
Proof. unfold AlphabetOk. apply (bool_decide_unpack _). by vm_compute. Qed.

Definition sextet (v : Z) : Prop := 0 ≤ v < 64.

Lemma encode_digit_spec enc `{!AlphabetOk enc} v : sextet v →
  decode_digit enc (encode_digit enc v) = Some v
  ∧ char_byte (encode_digit enc v) ≠ 10 ∧ char_byte (encode_digit enc v) ≠ 13.
Proof.
  intros Hv. pose proof (alphabet_ok (enc:=enc)) as H. rewrite Forall_forall in H.
  apply H, elem_of_seqZ. unfold sextet in Hv. lia.
Qed.

Lemma digits_chars enc `{!AlphabetOk enc} l : Forall sextet l → digits enc (chars enc l) = Some l.
Proof.
  induction 1 as [|v l Hv _ IH]; [done|]. cbn.
  destruct (encode_digit_spec enc v Hv) as (Hd & Hn & Hr).
  rewrite !bool_decide_eq_false_2 by done. cbn. by rewrite Hd, IH.
Qed.

(** Induction three bytes at a time. *)
Lemma triple_ind {A} (P : list A → Prop) :
  P [] → (∀ x, P [x]) → (∀ x y, P [x; y]) → (∀ x y z l, P l → P (x :: y :: z :: l)) → ∀ l, P l.
Proof.
  intros H0 H1 H2 H3. fix IH 1. intros [|x [|y [|z l]]]; [done..|]. apply H3, IH.
Qed.

Ltac byte_arith := unfold byte_ok, sextet in *; Z.to_euclidean_division_equations; lia.

Lemma encode_groups_sextets l : Forall byte_ok l → Forall sextet (encode_groups l).
Proof.
  induction l as [|x|x y|x y z l IH] using triple_ind; cbn; intros H;
    repeat (apply Forall_cons in H as [? H]); repeat (constructor; [byte_arith|]); auto.
Qed.

Lemma decode_encode_groups l : Forall byte_ok l → decode_groups (encode_groups l) = Some l.
Proof.
  induction l as [|x|x y|x y z l IH] using triple_ind; cbn; intros H;
    repeat (apply Forall_cons in H as [? H]); [done| | |rewrite IH by done; cbn];
    repeat f_equal; byte_arith.
Qed.

Lemma DecodeString_EncodeToString enc `{!AlphabetOk enc} l : Forall byte_ok l →
  DecodeString enc (EncodeToString enc l) = Some l.
Proof.
  intros H. unfold DecodeString, EncodeToString. rewrite (digits_chars enc) by (by apply encode_groups_sextets).
  by apply decode_encode_groups.
Qed.

(** ** What decoding yields *)

Lemma decode_digit_sextet enc c v : decode_digit enc c = Some v → sextet v.
Proof. unfold decode_digit, sextet. repeat case_match; intros [= <-]; bool_to_prop; lia. Qed.

Lemma digits_sextets enc s l : digits enc s = Some l → Forall sextet l.
Proof.
  revert l. induction s as [|c s IH]; cbn; [intros l [= <-]; constructor|]. intros l. case_match; [apply IH|].
  intros (v & Hv & (l' & Hl' & [= <-])%bind_Some)%bind_Some. constructor; [by eapply decode_digit_sextet|by apply IH].
Qed.

Lemma char_byte_char b : byte_ok b → char_byte (byte_char b) = b.
Proof.
  intros [H1 H2]. unfold char_byte, byte_char. rewrite nat_ascii_embedding by lia. lia.
Qed.

Lemma to_of_bytes l : Forall byte_ok l → to_bytes (of_bytes l) = l.
Proof. induction 1 as [|b l Hb _ IH]; cbn; [done|]. by rewrite char_byte_char, IH. Qed.

Lemma length_to_bytes s : length (to_bytes s) = String.length s.
Proof. induction s; cbn; congruence. Qed.

Lemma to_bytes_ok s : Forall byte_ok (to_bytes s).
Proof.
  induction s as [|c s IH]; constructor; [|done]. unfold byte_ok, char_byte.
  pose proof (nat_ascii_bounded c). lia.
Qed.
