(* ===== verification/JobState.v ===== *)
(** * Download life cycles (internal/download/state.go)

    The states of a job and of a file, the transition tables every life-cycle
    change of the transfer manager consults, and what the tables imply for
    whole runs. *)

From Stdlib Require Import ZArith Lia.
From stdpp Require Import base list gmap strings numbers pretty.
From S2P Require Import Prelude GoStrings GoErrors.

(** ** Definitions *)

Inductive JobState :=
| JobQueued | JobResolving | JobReady | JobDownloading | JobPaused
| JobPausedRecovery | JobWaitingQuota | JobFinalizing | JobCompleted
| JobFailed | JobCancelled.

Inductive FileState :=
| FilePending | FileDownloading | FilePaused | FileWaiting | FileVerifying
| FileMoving | FileCompleted | FileFailed | FileCancelled.

#[export] Instance JobState_eq_dec : EqDecision JobState.
Proof. solve_decision. Defined.
#[export] Instance FileState_eq_dec : EqDecision FileState.
Proof. solve_decision. Defined.

(** The persisted text of each state. *)
Definition JobState_text (s : JobState) : string :=
  match s with
  | JobQueued => "queued"
  | JobResolving => "resolving"
  | JobReady => "ready"
  | JobDownloading => "downloading"
  | JobPaused => "paused"
  | JobPausedRecovery => "paused_recovery"
  | JobWaitingQuota => "waiting_quota"
  | JobFinalizing => "finalizing"
  | JobCompleted => "completed"
  | JobFailed => "failed"
  | JobCancelled => "cancelled"
  end.

Definition FileState_text (s : FileState) : string :=
  match s with
  | FilePending => "pending"
  | FileDownloading => "downloading"
  | FilePaused => "paused"
  | FileWaiting => "waiting_quota"
  | FileVerifying => "verifying"
  | FileMoving => "moving"
  | FileCompleted => "completed"
  | FileFailed => "failed"
  | FileCancelled => "cancelled"
  end.

(** The rows of the [allowed] table of [TransitionJobState]. *)
Definition job_row (from : JobState) : list JobState :=
  match from with
  | JobQueued => [JobResolving; JobDownloading; JobPaused; JobCancelled]
  | JobResolving => [JobReady; JobQueued; JobPausedRecovery; JobFailed; JobCancelled]
  | JobReady => [JobQueued; JobDownloading; JobPaused; JobCancelled]
  | JobDownloading => [JobPaused; JobPausedRecovery; JobWaitingQuota;
                       JobFinalizing; JobFailed; JobCancelled]
  | JobPaused => [JobQueued; JobDownloading; JobCancelled]
  | JobPausedRecovery => [JobQueued; JobDownloading; JobCancelled]
  | JobWaitingQuota => [JobQueued; JobDownloading; JobPaused; JobCancelled; JobFailed]
  | JobFinalizing => [JobCompleted; JobFailed; JobPausedRecovery; JobCancelled]
  | JobCompleted => []
  | JobFailed => [JobQueued; JobCancelled]
  | JobCancelled => []
  end.

(** The rows of the [allowed] table of [TransitionFileState]. *)
Definition file_row (from : FileState) : list FileState :=
  match from with
  | FilePending => [FileDownloading; FilePaused; FileCancelled]
  | FileDownloading => [FilePaused; FileWaiting; FileVerifying; FileFailed; FileCancelled]
  | FilePaused => [FileDownloading; FileCancelled]
  | FileWaiting => [FileDownloading; FilePaused; FileFailed; FileCancelled]
  | FileVerifying => [FileMoving; FileFailed; FilePaused]
  | FileMoving => [FileDownloading; FileCompleted; FileFailed; FilePaused]
  | FileCompleted => []
  | FileFailed => [FileDownloading; FileCancelled]
  | FileCancelled => []
  end.

Definition job_allowed (from to : JobState) : bool := bool_decide (to ∈ job_row from).
Definition file_allowed (from to : FileState) : bool := bool_decide (to ∈ file_row from).

Definition TransitionJobState (from to : JobState) : result error () :=
  if bool_decide (from = to) then Ok ()
  else if job_allowed from to then Ok ()
  else Err (Wrap ErrInvalidStateTransition
    (": job " +:+ quote (JobState_text from) +:+ " -> " +:+ quote (JobState_text to))).

Definition TransitionFileState (from to : FileState) : result error () :=
  if bool_decide (from = to) then Ok ()
  else if file_allowed from to then Ok ()
  else Err (Wrap ErrInvalidStateTransition
    (": file " +:+ quote (FileState_text from) +:+ " -> " +:+ quote (FileState_text to))).

Definition IsTerminalJobState (s : JobState) : bool :=
  bool_decide (s = JobCompleted) || bool_decide (s = JobFailed)
  || bool_decide (s = JobCancelled).

Definition IsActiveJobState (s : JobState) : bool :=
  match s with
  | JobResolving | JobDownloading | JobFinalizing => true
  | _ => false
  end.

Definition IsTerminalFileState (s : FileState) : bool :=
  bool_decide (s = FileCompleted) || bool_decide (s = FileFailed)
  || bool_decide (s = FileCancelled).

(** One accepted life-cycle change. *)
Definition job_step (from to : JobState) : Prop := TransitionJobState from to = Ok ().
Definition file_step (from to : FileState) : Prop := TransitionFileState from to = Ok ().

(** ** Lemmas *)

Lemma TransitionJobState_ok from to :
  TransitionJobState from to = Ok () ↔ from = to ∨ to ∈ job_row from.
Proof.
  unfold TransitionJobState, job_allowed. repeat case_bool_decide; naive_solver.
Qed.

Lemma TransitionFileState_ok from to :
  TransitionFileState from to = Ok () ↔ from = to ∨ to ∈ file_row from.
Proof.
  unfold TransitionFileState, file_allowed. repeat case_bool_decide; naive_solver.
Qed.

(** A rejected transition reports the transition sentinel. *)
Lemma TransitionJobState_err from to e :
  TransitionJobState from to = Err e → errors_is e ErrInvalidStateTransition = true.
Proof.
  unfold TransitionJobState. repeat case_match; intros; simplify_eq.
  apply errors_is_Wrap.
Qed.

#[export] Instance JobState_text_inj : Inj (=) (=) JobState_text.
Proof. by intros [] []. Qed.
#[export] Instance FileState_text_inj : Inj (=) (=) FileState_text.
Proof. by intros [] []. Qed.

Ltac transition_cases :=
  repeat match goal with
  | H : job_step ?a ?b |- _ =>
      apply TransitionJobState_ok in H as [<-|H]; [|destruct a; simpl in H]
  | H : file_step ?a ?b |- _ =>
      apply TransitionFileState_ok in H as [<-|H]; [|destruct a; simpl in H]
  end.

(** ** Paths: the successive persisted states of a job or a file *)

Section paths.
Context {A : Type} `{!EqDecision A} (R : relation A).

(** [path s l]: from [s], the states of [l] are taken on one by one. *)
Fixpoint path (s : A) (l : list A) : Prop :=
  match l with
  | [] => True
  | t :: l' => R s t ∧ path t l'
  end.

Lemma path_app_l s l1 l2 : path s (l1 ++ l2) → path s l1.
Proof. revert s. induction l1 as [|t l1 IH]; simpl; naive_solver. Qed.

(** If [target] is entered only from [p], a path reaches [target] only after
    it visited [p]. *)
Lemma path_through p target s l :
  (∀ a, R a target → a = target ∨ a = p) →
  path s l → s ≠ target → target ∈ l →
  ∃ l1 l2, s :: l = l1 ++ p :: l2 ∧ target ∈ l2.
Proof.
  intros Hpred. revert s. induction l as [|t l IH]; simpl; intros s; [set_solver|].
  intros [Hst Hpath] Hs Hin. destruct (decide (t = target)) as [->|Ht].
  - destruct (Hpred s Hst) as [->| ->]; [done|]. exists [], (target :: l). set_solver.
  - apply elem_of_cons in Hin as [->|Hin]; [done|].
    destruct (IH t Hpath Ht Hin) as (l1 & l2 & -> & Hl2).
    by exists (s :: l1), l2.
Qed.

(** Two milestones in order. *)
Lemma path_through_two p q target s l :
  (∀ a, R a target → a = target ∨ a = q) →
  (∀ a, R a q → a = q ∨ a = p) →
  path s l → s ≠ target → s ≠ q → target ∈ l →
  ∃ l1 l2 l3, s :: l = l1 ++ p :: l2 ++ q :: l3 ∧ target ∈ l3.
Proof.
  intros Ht Hq Hpath Hst Hsq Hin.
  destruct (path_through q target s l) as (l1 & l3 & Heq & Hl3); [done..|].
  destruct l1 as [|x l1]; injection Heq as <- ->; [done|].
  destruct (path_through p q s (l1 ++ [q])) as (k1 & k2 & Hk & Hk2);
    [done| |done|set_solver|].
  { apply (path_app_l _ _ l3). by rewrite <- app_assoc. }
  destruct k2 as [|k k2 _] using rev_ind; [set_solver|].
  assert ((s :: l1) ++ [q] = (k1 ++ p :: k2) ++ [k]) as Hk'
    by (by rewrite <- app_assoc).
  apply app_inj_tail in Hk' as [Hk' ->].
  exists k1, k2, l3. split; [|done].
  change (s :: l1 ++ k :: l3) with ((s :: l1) ++ k :: l3).
  by rewrite Hk', <- app_assoc.
Qed.
End paths.

Lemma job_entered_completed a :
  job_step a JobCompleted → a = JobCompleted ∨ a = JobFinalizing.
Proof. intros H. transition_cases; set_solver. Qed.
Lemma job_entered_finalizing a :
  job_step a JobFinalizing → a = JobFinalizing ∨ a = JobDownloading.
Proof. intros H. transition_cases; set_solver. Qed.
Lemma file_entered_completed a :
  file_step a FileCompleted → a = FileCompleted ∨ a = FileMoving.
Proof. intros H. transition_cases; set_solver. Qed.
Lemma file_entered_moving a :
  file_step a FileMoving → a = FileMoving ∨ a = FileVerifying.
Proof. intros H. transition_cases; set_solver. Qed.

(** ** Properties *)

(** along any sequence of accepted job transitions, a job that was
    neither finalizing nor completed reaches [completed] only after it was
    [downloading] and then [finalizing], in that order. *)
Theorem job_completion_path s l :
  path job_step s l → s ≠ JobCompleted → s ≠ JobFinalizing → JobCompleted ∈ l →
  ∃ l1 l2 l3, s :: l = l1 ++ JobDownloading :: l2 ++ JobFinalizing :: l3
    ∧ JobCompleted ∈ l3.
Proof.
  intros. eapply path_through_two; eauto using job_entered_completed,
    job_entered_finalizing.
Qed.

Definition sample_job_path : list JobState :=
  [JobResolving; JobReady; JobQueued; JobDownloading; JobWaitingQuota;
   JobDownloading; JobFinalizing; JobCompleted].

Lemma job_completion_path_witness :
  path job_step JobQueued sample_job_path ∧ ∃ l1 l2 l3,
  JobQueued :: sample_job_path = l1 ++ JobDownloading :: l2 ++ JobFinalizing :: l3
    ∧ JobCompleted ∈ l3.
Proof.
  split; [vm_compute; repeat split|].
  apply (job_completion_path JobQueued sample_job_path);
    [vm_compute; repeat split|done|done|].
  unfold sample_job_path. set_solver.
Defined.

(** a file is marked [completed] only after it went through
    [verifying] and then [moving]: no accepted sequence of file transitions
    publishes a file whose content was not verified first. *)
Theorem file_completion_path s l :
  path file_step s l → s ≠ FileCompleted → s ≠ FileMoving → FileCompleted ∈ l →
  ∃ l1 l2 l3, s :: l = l1 ++ FileVerifying :: l2 ++ FileMoving :: l3
    ∧ FileCompleted ∈ l3.
Proof.
  intros. eapply path_through_two; eauto using file_entered_completed,
    file_entered_moving.
Qed.

Definition sample_file_path : list FileState :=
  [FileDownloading; FileWaiting; FileDownloading; FileVerifying; FileMoving;
   FileCompleted].

Lemma file_completion_path_witness :
  path file_step FilePending sample_file_path ∧ ∃ l1 l2 l3,
  FilePending :: sample_file_path = l1 ++ FileVerifying :: l2 ++ FileMoving :: l3
    ∧ FileCompleted ∈ l3.
Proof.
  split; [vm_compute; repeat split|].
  apply (file_completion_path FilePending sample_file_path);
    [vm_compute; repeat split|done|done|].
  unfold sample_file_path. set_solver.
Defined.

(** the terminal states. A completed or cancelled job never changes
    state again, along any run; a failed job can only be queued again or
    cancelled; and every job that is not completed can be cancelled. *)
Theorem job_terminal_states s t :
  (IsTerminalJobState s = true → s ≠ JobFailed → rtc job_step s t → t = s)
  ∧ (job_step JobFailed t → t ∈ [JobFailed; JobQueued; JobCancelled])
  ∧ (job_step s JobCancelled ↔ s ≠ JobCompleted).
Proof.
  split_and!.
  - intros Hterm Hf Hrun. induction Hrun as [|x y z Hxy _ IH]; [done|].
    assert (y = x) as ->; [|by auto].
    destruct x; try done; transition_cases; set_solver.
  - intros [<-|H]%TransitionJobState_ok; simpl in *; set_solver.
  - unfold job_step. rewrite TransitionJobState_ok.
    destruct s; simpl; set_solver.
Qed.

Lemma job_terminal_states_witness :
  (IsTerminalJobState JobCancelled = true ∧ JobCancelled ≠ JobFailed)
  ∧ rtc job_step JobCancelled JobCancelled ∧ JobCancelled = JobCancelled.
Proof.
  split; [done|]. split; [by apply rtc_refl|].
  apply (job_terminal_states JobCancelled JobCancelled); [done|done|by apply rtc_refl].
Defined.
