(* ===== verification/Planner.v ===== *)
(** * Segment plans and resume bitmaps (internal/download/planner.go)

    A file is cut into fixed-size segments; a bitmap with one bit per segment
    is the durable record of the completed ones.  The lemmas show that the
    plan partitions the file, that the bitmap operations act on exactly one
    bit, and that the serialised bitmap is restored unchanged. *)

From Stdlib Require Import ZArith Lia.
From stdpp Require Import base list gmap strings numbers pretty.
From S2P Require Import Prelude GoStrings GoErrors.

(** ** Definitions *)

Definition DefaultSegmentSize : Z := Z.shiftl 8 20.
Definition MaxBitmapBytes : Z := Z.shiftl 128 20.
(** [maxInt()] on a 64-bit platform. *)
Definition maxInt : Z := int64_max.

Record Segment := mkSegment { sIndex : Z; sStart : Z; sEnd : Z }.

Definition Segment_Size (s : Segment) : Z :=
  if sEnd s <? sStart s then 0 else sEnd s - sStart s + 1.

Record SegmentPlanner := mkPlanner { pSize : Z; pSegmentSize : Z; pCount : Z }.

#[export] Instance Segment_eq_dec : EqDecision Segment.
Proof. solve_decision. Defined.
#[export] Instance SegmentPlanner_eq_dec : EqDecision SegmentPlanner.
Proof. solve_decision. Defined.

Definition NewSegmentPlanner (size segmentSize : Z) : result error SegmentPlanner :=
  if size <? 0 then
    Err (Wrap ErrInvalidSegmentPlan ": file size must not be negative")
  else if segmentSize <=? 0 then
    Err (Wrap ErrInvalidSegmentPlan ": segment size must be positive")
  else
    let count := if 0 <? size then (size - 1) `quot` segmentSize + 1 else 0 in
    Ok (mkPlanner size segmentSize count).

(** [SegmentPlanner.Segment]; the multiplication wraps as in Go and the
    guard after it is the source's overflow check. *)
Definition planner_Segment (p : SegmentPlanner) (index : Z) : result error Segment :=
  if (index <? 0) || (pCount p <=? index) then
    Err (Wrap ErrSegmentIndex (": " +:+ FormatInt index))
  else
    let start := wrap64 (index * pSegmentSize p) in
    if (start <? 0) || (int64_max - pSegmentSize p <? start) then
      Err (Wrap ErrInvalidSegmentPlan ": segment start overflows int64")
    else
      let end_ := start + pSegmentSize p - 1 in
      let end_ := if pSize p <=? end_ then pSize p - 1 else end_ in
      Ok (mkSegment index start end_).

(** A bitmap is its list of byte values. *)
Abbreviation Bitmap := (list Z).

Definition bitmapByteCount (segmentCount : Z) : result error Z :=
  if segmentCount =? 0 then Ok 0
  else
    let bytes := (segmentCount - 1) `quot` 8 + 1 in
    if (MaxBitmapBytes <? bytes) || (maxInt <? bytes) then
      Err (Wrap ErrBitmapTooLarge (": " +:+ FormatInt bytes +:+ " bytes"))
    else Ok bytes.

Definition NewBitmap (segmentCount : Z) : result error Bitmap :=
  if segmentCount <? 0 then
    Err (Wrap ErrInvalidSegmentPlan ": negative segment count")
  else
    byteCount ← bitmapByteCount segmentCount;
    Ok (replicate (Z.to_nat byteCount) 0).

Definition NewBitmapUnchecked (segmentCount : Z) : Bitmap :=
  match NewBitmap segmentCount with Ok b => b | Err _ => [] end.

Definition Bitmap_Validate (b : Bitmap) (segmentCount : Z) : result error () :=
  byteCount ← bitmapByteCount segmentCount;
  if negb (Z.of_nat (length b) =? byteCount) then
    Err (Wrap ErrInvalidSegmentPlan (": bitmap length "
      +:+ FormatInt (Z.of_nat (length b)) +:+ ", want " +:+ FormatInt byteCount))
  else if segmentCount =? 0 then Ok ()
  else
    let usedBits := segmentCount `rem` 8 in
    let mask := wrap8 (Z.shiftl 1 usedBits - 1) in
    if negb (usedBits =? 0)
       && negb (Z.ldiff (default 0 (last b)) mask =? 0)
    then Err (Wrap ErrInvalidSegmentPlan ": bitmap has bits beyond segment count")
    else Ok ().

(** The bounds test shared by [IsSet], [Set] and [Clear]. *)
Definition in_bitmap (b : Bitmap) (index : Z) : bool :=
  negb ((index <? 0) || (Z.of_nat (length b) <=? index `quot` 8)).

Definition byte_at (b : Bitmap) (index : Z) : Z :=
  default 0 (b !! Z.to_nat (index `quot` 8)).

Definition bit_mask (index : Z) : Z := Z.shiftl 1 (index `rem` 8).

Definition IsSet (b : Bitmap) (index : Z) : bool :=
  in_bitmap b index && negb (Z.land (byte_at b index) (bit_mask index) =? 0).

(** [Set] and [Clear] write through the slice: the new contents are returned. *)
Definition Bitmap_Set (b : Bitmap) (index : Z) : result error Bitmap :=
  if negb (in_bitmap b index) then
    Err (Wrap ErrSegmentIndex (": " +:+ FormatInt index))
  else Ok (<[Z.to_nat (index `quot` 8) := Z.lor (byte_at b index) (bit_mask index)]> b).

Definition Bitmap_Clear (b : Bitmap) (index : Z) : result error Bitmap :=
  if negb (in_bitmap b index) then
    Err (Wrap ErrSegmentIndex (": " +:+ FormatInt index))
  else Ok (<[Z.to_nat (index `quot` 8) := Z.ldiff (byte_at b index) (bit_mask index)]> b).

(** Kernighan's loop; a byte has at most eight set bits, so eight rounds of
    fuel never run out. *)
Fixpoint popcount8_go (fuel : nat) (value count : Z) : Z :=
  match fuel with
  | O => count
  | S fuel' =>
    if value =? 0 then count
    else popcount8_go fuel' (Z.land value (wrap8 (value - 1))) (count + 1)
  end.
Definition popcount8 (value : Z) : Z := popcount8_go 8 value 0.

Fixpoint Bitmap_Count (b : Bitmap) : Z :=
  match b with
  | [] => 0
  | value :: b' => popcount8 value + Bitmap_Count b'
  end.

(** [Clone], [Bytes] and [MarshalBinary] copy the slice. *)
Definition Clone (b : Bitmap) : Bitmap := b.
Definition Bitmap_Bytes (b : Bitmap) : list Z := Clone b.

Definition UnmarshalBinary (data : list Z) : result error Bitmap :=
  if MaxBitmapBytes <? Z.of_nat (length data) then
    Err (Wrap ErrBitmapTooLarge
      (": " +:+ FormatInt (Z.of_nat (length data)) +:+ " bytes"))
  else Ok data.

Definition DecodeBitmap (data : list Z) (segmentCount : Z) : result error Bitmap :=
  _ ← Bitmap_Validate data segmentCount;
  Ok data.

(** The loop of [Pending] from [index] on; [fuel] is the number of indices
    left, [pCount p - index]. *)
Fixpoint pending_go (p : SegmentPlanner) (b : Bitmap) (fuel : nat) (index : Z)
    : result error (list Segment) :=
  match fuel with
  | O => Ok []
  | S fuel' =>
    if IsSet b index then pending_go p b fuel' (index + 1)
    else
      segment ← planner_Segment p index;
      rest ← pending_go p b fuel' (index + 1);
      Ok (segment :: rest)
  end.

Definition Pending (p : SegmentPlanner) (b : Bitmap) : result error (list Segment) :=
  _ ← Bitmap_Validate b (pCount p);
  if maxInt <? pCount p then
    Err (Wrap ErrInvalidSegmentPlan ": segment count does not fit in memory")
  else pending_go p b (Z.to_nat (pCount p)) 0.

Definition PlanSegments (size segmentSize : Z) : result error (list Segment) :=
  planner ← NewSegmentPlanner size segmentSize;
  Pending planner (NewBitmapUnchecked (pCount planner)).

(** [committedBytes] of internal/download/manager.go: the bytes of the
    segments marked complete, from segment [index] on. *)
Fixpoint committed_go (p : SegmentPlanner) (b : Bitmap) (fuel : nat) (index : Z) : Z :=
  match fuel with
  | O => 0
  | S fuel' =>
    (if IsSet b index
     then match planner_Segment p index with
          | Ok segment => Segment_Size segment
          | Err _ => 0
          end
     else 0) + committed_go p b fuel' (index + 1)
  end.
Definition committedBytes (p : SegmentPlanner) (b : Bitmap) : Z :=
  committed_go p b (Z.to_nat (pCount p)) 0.

(** [bitmapForFile] of internal/download/manager.go on the persisted bytes. *)
Definition bitmapForFile (completedBitmap : list Z) (count : Z) : result error Bitmap :=
  if bool_decide (completedBitmap = []) && (0 <? count) then NewBitmap count
  else
    _ ← Bitmap_Validate completedBitmap count;
    Ok completedBitmap.

(** A planner as [NewSegmentPlanner] returns it, for a file whose last
    segment cannot overflow. *)
Definition planner_ok (p : SegmentPlanner) : Prop :=
  NewSegmentPlanner (pSize p) (pSegmentSize p) = Ok p
  ∧ int64_ok (pSize p) ∧ int64_ok (pSegmentSize p)
  ∧ pSize p ≤ int64_max - pSegmentSize p.

Definition bitmap_bytes_ok (b : Bitmap) : Prop := Forall byte_ok b.

(** [tiles l from to]: the segments of [l] are non-empty, start at [from],
    follow each other without gap or overlap, and end just before [to]. *)
Fixpoint tiles (l : list Segment) (from to : Z) : Prop :=
  match l with
  | [] => from = to
  | s :: l' => sStart s = from ∧ from ≤ sEnd s ∧ tiles l' (sEnd s + 1) to
  end.

(** The range of segment [i] in closed form. *)
Definition segment_at (p : SegmentPlanner) (i : Z) : Segment :=
  mkSegment i (i * pSegmentSize p)
    (Z.min (i * pSegmentSize p + pSegmentSize p - 1) (pSize p - 1)).

(** ** Lemmas on segments *)

Lemma NewSegmentPlanner_ok size segmentSize p :
  NewSegmentPlanner size segmentSize = Ok p →
  pSize p = size ∧ pSegmentSize p = segmentSize ∧ 0 ≤ size ∧ 0 < segmentSize
  ∧ 0 ≤ pCount p
  ∧ (∀ i, 0 ≤ i → (i < pCount p ↔ i * segmentSize < size)).
Proof.
  unfold NewSegmentPlanner. case_ifs; intros; simplify_eq/=;
    repeat split; try lia.
  - rewrite quot_div_nonneg by lia.
    pose proof (Z.div_pos (size - 1) segmentSize). lia.
  - rewrite quot_div_nonneg by lia. intros.
    assert (i ≤ (size - 1) `div` segmentSize) by lia.
    assert (segmentSize * i ≤ size - 1); [|lia].
    etrans; [apply Z.mul_le_mono_nonneg_l; [lia|eassumption]|].
    apply Z.mul_div_le. lia.
  - rewrite quot_div_nonneg by lia. intros.
    assert (i ≤ (size - 1) `div` segmentSize); [|lia].
    apply Z.div_le_lower_bound; lia.
Qed.

Lemma planner_ok_inv p :
  planner_ok p →
  0 ≤ pSize p ∧ 0 < pSegmentSize p ∧ 0 ≤ pCount p
  ∧ pSize p ≤ int64_max - pSegmentSize p
  ∧ (∀ i, 0 ≤ i → (i < pCount p ↔ i * pSegmentSize p < pSize p)).
Proof. intros (H & _ & _ & ?). apply NewSegmentPlanner_ok in H. naive_solver. Qed.

Lemma planner_Segment_total p i :
  planner_ok p → 0 ≤ i < pCount p → planner_Segment p i = Ok (segment_at p i).
Proof.
  intros (? & ? & ? & Hmax & Hcount)%planner_ok_inv [Hi Hc].
  pose proof (proj1 (Hcount i Hi) Hc) as Hlt.
  unfold planner_Segment, segment_at.
  rewrite wrap64_id by (int_lia || nia).
  rewrite (proj2 (Z.ltb_ge i 0)), (proj2 (Z.leb_gt (pCount p) i)) by lia. simpl.
  rewrite (proj2 (Z.ltb_ge _ 0)) by nia.
  rewrite (proj2 (Z.ltb_ge _ _)) by lia. simpl.
  do 2 f_equal. case_ifs; lia.
Qed.

Lemma segment_at_bounds p i :
  planner_ok p → 0 ≤ i < pCount p →
  0 ≤ sStart (segment_at p i) ≤ sEnd (segment_at p i)
  ∧ sEnd (segment_at p i) < pSize p
  ∧ Segment_Size (segment_at p i) ≤ pSegmentSize p
  ∧ 0 < Segment_Size (segment_at p i).
Proof.
  intros (? & ? & ? & Hmax & Hcount)%planner_ok_inv [Hi Hc].
  pose proof (proj1 (Hcount i Hi) Hc) as Hlt.
  unfold Segment_Size, segment_at; simpl.
  assert (0 ≤ i * pSegmentSize p) by nia. case_ifs; lia.
Qed.

(** The segment that holds byte [x]. *)
Lemma segment_holding p x :
  planner_ok p → 0 ≤ x < pSize p →
  0 ≤ x `div` pSegmentSize p < pCount p
  ∧ ∀ i, 0 ≤ i < pCount p →
      (sStart (segment_at p i) ≤ x ≤ sEnd (segment_at p i)
       ↔ i = x `div` pSegmentSize p).
Proof.
  intros (? & ? & ? & Hmax & Hcount)%planner_ok_inv Hx.
  set (q := x `div` pSegmentSize p).
  pose proof (Z.div_mod x (pSegmentSize p) ltac:(lia)) as Hdm.
  pose proof (Z.mod_pos_bound x (pSegmentSize p) ltac:(lia)) as Hmod.
  fold q in Hdm. assert (0 ≤ q) by (apply Z.div_pos; lia).
  assert (q < pCount p) by (apply Hcount; nia).
  split; [done|]. intros i Hi. unfold segment_at; simpl. split.
  - intros. assert (¬ i < q) by nia. assert (¬ q < i) by nia. lia.
  - intros ->. nia.
Qed.

(** Two lists of consecutive segments concatenate. *)
Lemma tiles_app l1 l2 a b c : tiles l1 a b → tiles l2 b c → tiles (l1 ++ l2) a c.
Proof. revert a. induction l1; simpl; naive_solver. Qed.

Lemma tiles_segments p n :
  planner_ok p → Z.of_nat n ≤ pCount p →
  tiles (segment_at p <$> seqZ 0 (Z.of_nat n)) 0
    (Z.min (Z.of_nat n * pSegmentSize p) (pSize p)).
Proof.
  intros Hp. induction n as [|n IH]; intros Hn.
  { apply planner_ok_inv in Hp. simpl. lia. }
  rewrite seqZ_S, fmap_app, Z.add_0_l.
  eapply tiles_app; [apply IH; lia|]. simpl.
  apply planner_ok_inv in Hp as (? & ? & ? & Hmax & Hcount).
  pose proof (proj1 (Hcount (Z.of_nat n) ltac:(lia)) ltac:(lia)). lia.
Qed.

(** ** Lemmas on bits *)

Lemma land_bit_zero x k :
  0 ≤ k → (Z.land x (Z.shiftl 1 k) =? 0) = negb (Z.testbit x k).
Proof.
  intros Hk. destruct (Z.testbit x k) eqn:Hb; simpl.
  - apply Z.eqb_neq. intros H0.
    assert (Z.testbit (Z.land x (Z.shiftl 1 k)) k = true) as H1.
    { rewrite Z.land_spec, Hb, Z.shiftl_spec by lia. by rewrite Z.sub_diag. }
    by rewrite H0, Z.bits_0 in H1.
  - apply Z.eqb_eq. apply Z.bits_inj_iff'. intros j Hj.
    rewrite Z.land_spec, Z.shiftl_spec, Z.bits_0 by lia.
    destruct (decide (j = k)) as [->|Hne]; [by rewrite Hb|].
    replace (Z.testbit 1 (j - k)) with false; [by rewrite andb_false_r|].
    symmetry. destruct (Z.ltb_spec j k); [apply Z.testbit_neg_r; lia|].
    change 1 with (2 ^ 0). apply Z.pow2_bits_false. lia.
Qed.

Lemma testbit_shiftl_1 k j :
  0 ≤ k → 0 ≤ j → Z.testbit (Z.shiftl 1 k) j = (j =? k).
Proof.
  intros. rewrite Z.shiftl_1_l.
  destruct (Z.eqb_spec j k) as [->|Hne]; [by apply Z.pow2_bits_true|].
  apply Z.pow2_bits_false. lia.
Qed.

(** The position of segment [i]'s bit. *)
Lemma index_split i : 0 ≤ i → i `quot` 8 = i `div` 8 ∧ i `rem` 8 = i `mod` 8.
Proof. intros. split; [apply Z.quot_div_nonneg|apply Z.rem_mod_nonneg]; lia. Qed.

Lemma in_bitmap_spec b i :
  in_bitmap b i = true ↔ 0 ≤ i < 8 * Z.of_nat (length b).
Proof.
  unfold in_bitmap. destruct (Z.ltb_spec i 0); simpl; [naive_solver lia|].
  rewrite (proj1 (index_split i ltac:(lia))).
  destruct (Z.leb_spec (Z.of_nat (length b)) (i `div` 8)); simpl.
  - split; [done|]. pose proof (Z.mul_div_le i 8). lia.
  - split; [|done]. intros _. pose proof (Z.mod_pos_bound i 8).
    pose proof (Z.div_mod i 8). lia.
Qed.

Lemma IsSet_spec b i :
  IsSet b i = true ↔ 0 ≤ i < 8 * Z.of_nat (length b)
    ∧ Z.testbit (default 0 (b !! Z.to_nat (i `div` 8))) (i `mod` 8) = true.
Proof.
  unfold IsSet. rewrite andb_true_iff, in_bitmap_spec.
  split; intros [Hi Hb]; (split; [done|]); revert Hb;
    unfold byte_at, bit_mask;
    destruct (index_split i ltac:(lia)) as [-> ->];
    rewrite land_bit_zero by (apply Z.mod_pos_bound; lia);
    by rewrite negb_involutive.
Qed.

(** The one lemma behind [Set] and [Clear]: replacing byte [i / 8] by one
    that differs from it in bit [i mod 8] only changes index [i] only. *)
Lemma IsSet_update b i v (f : bool → bool) :
  in_bitmap b i = true →
  (∀ k, 0 ≤ k → Z.testbit v k =
    if k =? i `mod` 8 then f (Z.testbit (byte_at b i) k)
    else Z.testbit (byte_at b i) k) →
  ∀ j, IsSet (<[Z.to_nat (i `quot` 8) := v]> b) j =
    if j =? i then f (IsSet b i) else IsSet b j.
Proof.
  intros Hi Hv j. pose proof Hi as Hi'. apply in_bitmap_spec in Hi'.
  destruct (index_split i ltac:(lia)) as [Hq Hr]. rewrite Hq.
  assert (∀ x, x ∈ [i; j] → (0 ≤ x < 8 * Z.of_nat (length b)) → (Z.to_nat (x `div` 8) < length b)%nat) as Hlt.
  { intros x _ Hx. pose proof (Z.div_lt_upper_bound x 8 (Z.of_nat (length b))).
    pose proof (Z.div_pos x 8). lia. }
  assert (∀ b', IsSet b' j = if in_bitmap b' j
     then Z.testbit (default 0 (b' !! Z.to_nat (j `div` 8))) (j `mod` 8) else false) as HS.
  { intros b'. apply Bool.eq_iff_eq_true. rewrite IsSet_spec, <- in_bitmap_spec.
    destruct (in_bitmap b' j); naive_solver. }
  destruct (Z.eqb_spec j i) as [->|Hne].
  - rewrite HS. unfold IsSet. rewrite Hi. simpl.
    unfold bit_mask. rewrite Hr, land_bit_zero, negb_involutive
      by (apply Z.mod_pos_bound; lia).
    replace (in_bitmap _ i) with true
      by (symmetry; apply in_bitmap_spec; rewrite length_insert; lia).
    rewrite list_lookup_insert_eq by (apply Hlt; [set_solver|done]). simpl.
    rewrite Hv by (apply Z.mod_pos_bound; lia). by rewrite Z.eqb_refl.
  - rewrite !HS. replace (in_bitmap (<[_:=v]> b) j) with (in_bitmap b j).
    2: { unfold in_bitmap. by rewrite length_insert. }
    destruct (in_bitmap b j) eqn:Hj; [|done]. apply in_bitmap_spec in Hj.
    destruct (decide (Z.to_nat (i `div` 8) = Z.to_nat (j `div` 8))) as [Heq|Hneq].
    + rewrite Heq, list_lookup_insert_eq by (apply Hlt; [set_solver|done]). simpl.
      rewrite Hv by (apply Z.mod_pos_bound; lia).
      pose proof (Z.div_pos i 8). pose proof (Z.div_pos j 8).
      rewrite (proj2 (Z.eqb_neq _ _)).
      * unfold byte_at. rewrite Hq. by rewrite Heq.
      * intros Hm. apply Hne. pose proof (Z.div_mod i 8). pose proof (Z.div_mod j 8). lia.
    + by rewrite list_lookup_insert_ne.
Qed.

Lemma IsSet_Set b b' i :
  Bitmap_Set b i = Ok b' → ∀ j, IsSet b' j = (j =? i) || IsSet b j.
Proof.
  unfold Bitmap_Set. destruct (in_bitmap b i) eqn:Hi; simpl; [|done].
  intros [= <-] j. pose proof (proj1 (in_bitmap_spec b i) Hi).
  rewrite (IsSet_update b i _ (λ _, true)); [by destruct (j =? i)|done|].
  intros k Hk. rewrite Z.lor_spec. unfold bit_mask.
  rewrite (proj2 (index_split i ltac:(lia))), testbit_shiftl_1
    by (try apply Z.mod_pos_bound; lia).
  destruct (k =? i `mod` 8); [by rewrite orb_true_r|by rewrite orb_false_r].
Qed.

Lemma IsSet_Clear b b' i :
  Bitmap_Clear b i = Ok b' → ∀ j, IsSet b' j = negb (j =? i) && IsSet b j.
Proof.
  unfold Bitmap_Clear. destruct (in_bitmap b i) eqn:Hi; simpl; [|done].
  intros [= <-] j. pose proof (proj1 (in_bitmap_spec b i) Hi).
  rewrite (IsSet_update b i _ (λ _, false)); [by destruct (j =? i)|done|].
  intros k Hk. rewrite Z.ldiff_spec. unfold bit_mask.
  rewrite (proj2 (index_split i ltac:(lia))), testbit_shiftl_1
    by (try apply Z.mod_pos_bound; lia).
  destruct (k =? i `mod` 8); [by rewrite andb_false_r|by rewrite andb_true_r].
Qed.

(** ** Lemmas on validation *)

Lemma bitmapByteCount_ok n :
  0 ≤ n ≤ 8 * MaxBitmapBytes → bitmapByteCount n = Ok ((n + 7) `div` 8).
Proof.
  intros [Hn Hmax]. unfold bitmapByteCount.
  destruct (Z.eqb_spec n 0) as [->|Hne]; [done|].
  rewrite quot_div_nonneg by lia.
  replace ((n - 1) `div` 8 + 1) with ((n + 7) `div` 8).
  2: { replace (n + 7) with (n - 1 + 1 * 8) by lia. by rewrite Z.div_add by lia. }
  assert ((n + 7) `div` 8 < MaxBitmapBytes + 1) as Hlt.
  { apply Z.div_lt_upper_bound; lia. }
  assert (MaxBitmapBytes < maxInt) by (vm_compute; done).
  rewrite (proj2 (Z.ltb_ge _ _)), (proj2 (Z.ltb_ge _ _)) by lia. done.
Qed.

Lemma mask_bits k j :
  0 ≤ k < 8 → 0 ≤ j < 8 →
  Z.testbit (wrap8 (Z.shiftl 1 k - 1)) j = (j <? k).
Proof.
  intros Hk Hj. unfold wrap8. change 256 with (2 ^ 8).
  rewrite Z.mod_pow2_bits_low by lia. rewrite Z.shiftl_1_l, Z.sub_1_r, <- Z.ones_equiv.
  destruct (Z.ltb_spec j k); [apply Z.ones_spec_low|apply Z.ones_spec_high]; lia.
Qed.

(** A byte without bits at positions [k] and above. *)
Lemma ldiff_mask_zero v k :
  byte_ok v → 0 ≤ k < 8 →
  (Z.ldiff v (wrap8 (Z.shiftl 1 k - 1)) =? 0) = true ↔
  ∀ j, k ≤ j < 8 → Z.testbit v j = false.
Proof.
  intros Hv Hk. rewrite Z.eqb_eq. split.
  - intros H0 j Hj. apply (f_equal (λ x, Z.testbit x j)) in H0.
    rewrite Z.ldiff_spec, mask_bits, Z.bits_0 in H0 by lia.
    rewrite (proj2 (Z.ltb_ge _ _)) in H0 by lia. by rewrite andb_true_r in H0.
  - intros H. apply Z.bits_inj_iff'. intros j Hj. rewrite Z.ldiff_spec, Z.bits_0.
    destruct (decide (j < 8)) as [Hj8|Hj8].
    + rewrite mask_bits by lia. destruct (Z.ltb_spec j k).
      * by rewrite andb_false_r.
      * by rewrite H by lia.
    + replace (Z.testbit v j) with false; [done|]. symmetry.
      destruct (decide (v = 0)) as [->|Hne]; [by rewrite Z.bits_0|].
      apply Z.bits_above_log2; [unfold byte_ok in Hv; lia|].
      apply Z.lt_le_trans with 8; [|lia]. apply Z.log2_lt_pow2; unfold byte_ok in Hv; lia.
Qed.

(** [Validate] accepts exactly the bitmaps of the right length that mark no
    segment outside the plan. *)
Lemma Bitmap_Validate_spec b n :
  bitmap_bytes_ok b → 0 ≤ n ≤ 8 * MaxBitmapBytes →
  Bitmap_Validate b n = Ok () ↔
    Z.of_nat (length b) = (n + 7) `div` 8
    ∧ ∀ i, IsSet b i = true → i < n.
Proof.
  intros Hbytes Hn. unfold Bitmap_Validate. rewrite bitmapByteCount_ok by done.
  simpl. destruct (Z.eqb_spec (Z.of_nat (length b)) ((n + 7) `div` 8)) as [Hlen|Hlen];
    simpl; [|naive_solver].
  destruct (Z.eqb_spec n 0) as [->|Hn0].
  { split; [intros _|done]. split; [done|]. intros i [Hi _]%IsSet_spec.
    rewrite Hlen in Hi. change ((0 + 7) `div` 8) with 0 in Hi. lia. }
  destruct (index_split n ltac:(lia)) as [_ ->].
  pose proof (Z.mod_pos_bound n 8 ltac:(lia)) as Hmod.
  pose proof (Z.div_mod n 8 ltac:(lia)) as Hdm.
  assert ((n + 7) `div` 8 = if n `mod` 8 =? 0 then n `div` 8 else n `div` 8 + 1) as Hceil.
  { destruct (Z.eqb_spec (n `mod` 8) 0); symmetry; apply (Z.div_unique _ _ _ (if n `mod` 8 =? 0 then 7 else n `mod` 8 - 1)); case_ifs; lia. }
  destruct (Z.eqb_spec (n `mod` 8) 0) as [H0|H0]; simpl.
  { split; [intros _|done]. split; [done|]. intros i [Hi _]%IsSet_spec. lia. }
  destruct (last b) as [v|] eqn:Hlast.
  2: { apply last_None in Hlast as ->. simpl in Hlen. pose proof (Z.div_pos n 8). lia. }
  rewrite last_lookup in Hlast. simpl.
  assert (byte_ok v) as Hv by (by eapply Forall_lookup_1).
  assert (Nat.pred (length b) = Z.to_nat (n `div` 8)) as Hpred by lia.
  rewrite Hpred in Hlast.
  destruct (Z.ldiff v _ =? 0) eqn:Hld; simpl.
  - split; [intros _|done]. split; [done|]. intros i [Hi Hb]%IsSet_spec.
    apply Znot_ge_lt. intros Hge.
    assert (i `div` 8 = n `div` 8) as Hid.
    { pose proof (Z.div_mod i 8). pose proof (Z.mod_pos_bound i 8). lia. }
    rewrite Hid, Hlast in Hb. simpl in Hb.
    pose proof (Z.div_mod i 8). pose proof (Z.mod_pos_bound i 8).
    rewrite (proj1 (ldiff_mask_zero v (n `mod` 8) Hv ltac:(lia)) Hld) in Hb by lia.
    done.
  - split; [done|]. intros [_ Hset]. exfalso.
    assert ((Z.ldiff v (wrap8 (Z.shiftl 1 (n `mod` 8) - 1)) =? 0) = true); [|congruence].
    apply ldiff_mask_zero; [done|lia|]. intros j Hj.
    destruct (Z.testbit v j) eqn:Hb; [|done].
    assert (n `div` 8 * 8 + j < n); [|lia]. apply Hset, IsSet_spec.
    rewrite Z.div_add_l, (Z.div_small j), Z.add_0_r, Hlast by lia.
    rewrite Z.add_comm, Z.mod_add, Z.mod_small by lia. simpl.
    pose proof (Z.div_pos n 8). split; [lia|done].
Qed.

Lemma NewBitmap_ok n :
  0 ≤ n ≤ 8 * MaxBitmapBytes →
  NewBitmap n = Ok (replicate (Z.to_nat ((n + 7) `div` 8)) 0).
Proof.
  intros Hn. unfold NewBitmap. rewrite (proj2 (Z.ltb_ge _ _)) by lia.
  by rewrite bitmapByteCount_ok.
Qed.

Lemma IsSet_replicate k i : IsSet (replicate k 0) i = false.
Proof.
  apply not_true_is_false. intros [_ Hb]%IsSet_spec.
  destruct (replicate k 0 !! _) eqn:Hl.
  - apply lookup_replicate in Hl as [-> _]. simpl in Hb. by rewrite Z.bits_0 in Hb.
  - simpl in Hb. by rewrite Z.bits_0 in Hb.
Qed.

Lemma bitmap_bytes_ok_replicate k : bitmap_bytes_ok (replicate k 0).
Proof. apply Forall_replicate. unfold byte_ok. lia. Qed.

Lemma NewBitmap_valid n :
  0 ≤ n ≤ 8 * MaxBitmapBytes →
  ∃ b, NewBitmap n = Ok b ∧ Bitmap_Validate b n = Ok ()
    ∧ bitmap_bytes_ok b ∧ ∀ i, IsSet b i = false.
Proof.
  intros Hn. eexists. split_and!; [by apply NewBitmap_ok| | |].
  - apply Bitmap_Validate_spec; [apply bitmap_bytes_ok_replicate|done|].
    rewrite length_replicate. pose proof (Z.div_pos (n + 7) 8). split; [lia|].
    intros i. by rewrite IsSet_replicate.
  - apply bitmap_bytes_ok_replicate.
  - intros. apply IsSet_replicate.
Qed.

Lemma lor_byte_ok x k : byte_ok x → 0 ≤ k < 8 → byte_ok (Z.lor x (Z.shiftl 1 k)).
Proof.
  intros Hx Hk. unfold byte_ok in *.
  assert (Z.lor x (Z.shiftl 1 k) = Z.lor x (Z.shiftl 1 k) `mod` 256) as ->.
  2: { apply Z.mod_pos_bound. lia. }
  change 256 with (2 ^ 8). apply Z.bits_inj_iff'. intros j Hj.
  destruct (decide (j < 8)); [by rewrite Z.mod_pow2_bits_low by lia|].
  rewrite Z.mod_pow2_bits_high by lia.
  rewrite Z.lor_spec, testbit_shiftl_1 by lia.
  rewrite (proj2 (Z.eqb_neq j k)), orb_false_r by lia.
  destruct (decide (x = 0)) as [->|Hne]; [by rewrite Z.bits_0|].
  apply Z.bits_above_log2; [lia|].
  apply Z.lt_le_trans with 8; [|lia]. apply Z.log2_lt_pow2; lia.
Qed.

Lemma bitmap_bytes_ok_Set b b' i :
  bitmap_bytes_ok b → Bitmap_Set b i = Ok b' → bitmap_bytes_ok b' ∧ length b' = length b.
Proof.
  unfold Bitmap_Set, bitmap_bytes_ok.
  destruct (in_bitmap b i) eqn:Hi; simpl; [|done]. intros Hb [= <-].
  apply in_bitmap_spec in Hi. destruct (index_split i ltac:(lia)) as [_ Hr].
  split; [|apply length_insert]. apply Forall_insert; [done|].
  apply lor_byte_ok; [|rewrite Hr; apply Z.mod_pos_bound; lia].
  unfold byte_at. destruct (b !! _) eqn:Hl; simpl; [by eapply Forall_lookup_1|].
  unfold byte_ok; lia.
Qed.

(** Marking a segment of the plan keeps the bitmap valid for the plan. *)
Lemma Bitmap_Set_valid b n i :
  bitmap_bytes_ok b → 0 ≤ n ≤ 8 * MaxBitmapBytes →
  Bitmap_Validate b n = Ok () → 0 ≤ i < n →
  ∃ b', Bitmap_Set b i = Ok b' ∧ bitmap_bytes_ok b' ∧ Bitmap_Validate b' n = Ok ().
Proof.
  intros Hb Hn Hval Hi. apply Bitmap_Validate_spec in Hval as [Hlen Hin]; [|done..].
  assert (in_bitmap b i = true) as Hib.
  { apply in_bitmap_spec. pose proof (Z.div_mod (n + 7) 8).
    pose proof (Z.mod_pos_bound (n + 7) 8). lia. }
  assert (∃ b', Bitmap_Set b i = Ok b') as [b' Hset].
  { unfold Bitmap_Set. rewrite Hib. simpl. eauto. }
  destruct (bitmap_bytes_ok_Set b b' i Hb Hset) as [Hb' Hlen'].
  exists b'. split_and!; [done..|]. apply Bitmap_Validate_spec; [done..|].
  split; [by rewrite Hlen'|]. intros j. rewrite (IsSet_Set _ _ _ Hset).
  intros [->%Z.eqb_eq|?]%orb_true_iff; [lia|by apply Hin].
Qed.

(** ** Lemmas on counting *)

(** How many of the first [n] indices are marked. *)
Definition count_set (b : Bitmap) (n : Z) : Z :=
  Z.of_nat (length (filter (λ i, IsSet b i = true) (seqZ 0 n))).

Definition popcount_ok (v : Z) : bool :=
  popcount8 v =? Z.of_nat (length (filter (λ j, Z.testbit v j = true) (seqZ 0 8))).

Lemma popcount8_spec v :
  byte_ok v →
  popcount8 v = Z.of_nat (length (filter (λ j, Z.testbit v j = true) (seqZ 0 8))).
Proof.
  intros Hv.
  assert (Forall (λ v, popcount_ok v = true) (seqZ 0 256)) as Hall.
  { apply Forall_forall. intros x Hx. revert x Hx.
    apply Forall_forall. apply (bool_decide_unpack _). by vm_compute. }
  apply Z.eqb_eq. rewrite Forall_forall in Hall. apply Hall.
  apply elem_of_seqZ. unfold byte_ok in Hv. lia.
Qed.

Lemma IsSet_cons v b i :
  0 ≤ i → IsSet (v :: b) i = if i <? 8 then Z.testbit v i else IsSet b (i - 8).
Proof.
  intros Hi. apply Bool.eq_iff_eq_true. rewrite IsSet_spec.
  rewrite length_cons. destruct (Z.ltb_spec i 8).
  - rewrite Z.div_small, Z.mod_small by lia. simpl. split; [naive_solver|].
    intros; split; [lia|done].
  - rewrite IsSet_spec. replace (i `div` 8) with ((i - 8) `div` 8 + 1).
    2: { replace i with (i - 8 + 1 * 8) at 2 by lia. by rewrite Z.div_add by lia. }
    pose proof (Z.div_pos (i - 8) 8).
    replace (Z.to_nat ((i - 8) `div` 8 + 1)) with (S (Z.to_nat ((i - 8) `div` 8))) by lia.
    simpl. replace (i `mod` 8) with ((i - 8) `mod` 8).
    2: { replace i with (i - 8 + 1 * 8) at 2 by lia. by rewrite Z.mod_add by lia. }
    split; intros [? ?]; (split; [lia|done]).
Qed.

(** [Count] is the number of marked indices. *)
Lemma Bitmap_Count_spec b :
  bitmap_bytes_ok b → Bitmap_Count b = count_set b (8 * Z.of_nat (length b)).
Proof.
  unfold count_set. induction b as [|v b IH]; intros Hb; [done|].
  inversion Hb as [|?? Hv Hb']; subst. cbn [Bitmap_Count length].
  rewrite IH, popcount8_spec by done. clear IH.
  replace (8 * Z.of_nat (S (length b))) with (8 + 8 * Z.of_nat (length b)) by lia.
  rewrite seqZ_split, filter_app, length_app, Nat2Z.inj_add by lia. f_equal; f_equal.
  - apply length_filter_ext. intros j Hj%elem_of_seqZ. rewrite IsSet_cons by lia.
    by rewrite (proj2 (Z.ltb_lt j 8)) by lia.
  - replace (seqZ 8 (8 * Z.of_nat (length b)))
      with ((λ j, j + 8) <$> seqZ 0 (8 * Z.of_nat (length b))).
    2: { rewrite <- (fmap_add_seqZ 8 0). apply list_fmap_ext. intros; lia. }
    symmetry. apply length_filter_fmap. intros j Hj%elem_of_seqZ.
    rewrite IsSet_cons by lia. rewrite (proj2 (Z.ltb_ge _ 8)) by lia.
    by rewrite Z.add_simpl_r.
Qed.

(** For a bitmap that is valid for [n] segments, counting the plan's indices
    is counting all bits. *)
Lemma Bitmap_Count_valid b n :
  bitmap_bytes_ok b → 0 ≤ n ≤ 8 * MaxBitmapBytes → Bitmap_Validate b n = Ok () →
  Bitmap_Count b = count_set b n.
Proof.
  intros Hb Hn Hval. rewrite Bitmap_Count_spec by done.
  apply Bitmap_Validate_spec in Hval as [Hlen Hset]; [|done..].
  assert (n ≤ 8 * Z.of_nat (length b)) as Hle.
  { pose proof (Z.div_mod (n + 7) 8). pose proof (Z.mod_pos_bound (n + 7) 8). lia. }
  unfold count_set.
  replace (8 * Z.of_nat (length b)) with (n + (8 * Z.of_nat (length b) - n)) by lia.
  rewrite seqZ_split, filter_app, length_app by lia.
  replace (length (filter _ (seqZ n _))) with 0%nat; [lia|].
  rewrite filter_none; [done|]. intros i Hi%elem_of_seqZ Hs. apply Hset in Hs. lia.
Qed.

Lemma count_set_bounds b n : 0 ≤ n → 0 ≤ count_set b n ≤ n.
Proof.
  intros. unfold count_set.
  pose proof (length_filter (λ i, IsSet b i = true) (seqZ 0 n)) as Hl.
  rewrite length_seqZ in Hl. lia.
Qed.

Lemma count_set_full b n :
  0 ≤ n → count_set b n = n ↔ ∀ i, 0 ≤ i < n → IsSet b i = true.
Proof.
  intros Hn. unfold count_set. split.
  - intros Heq i Hi.
    destruct (IsSet b i) eqn:Hs; [done|].
    pose proof (length_filter_lt (λ i, IsSet b i = true) (seqZ 0 n) i) as Hlt.
    rewrite elem_of_seqZ, length_seqZ, Hs in Hlt. specialize (Hlt ltac:(lia)).
    apply Nat2Z.inj_lt in Hlt; [lia|done].
  - intros Hall. rewrite filter_all; [rewrite length_seqZ; lia|].
    intros i Hi%elem_of_seqZ. apply Hall. lia.
Qed.

(** ** Lemmas on committed bytes *)

Section committed.
Context (p : SegmentPlanner) (Hp : planner_ok p).

(** What is left of the file from segment [i] on. *)
Local Definition rest_from (i : Z) : Z := pSize p - Z.min (i * pSegmentSize p) (pSize p).

Lemma rest_from_step i :
  0 ≤ i < pCount p →
  rest_from i = Segment_Size (segment_at p i) + rest_from (i + 1).
Proof using Hp.
  intros [Hi Hc]. pose proof (segment_at_bounds p i Hp ltac:(lia)) as Hb.
  apply planner_ok_inv in Hp as (? & ? & ? & _ & Hcount).
  pose proof (proj1 (Hcount i Hi) Hc). unfold rest_from, segment_at, Segment_Size in *.
  simpl in *. case_ifs; lia.
Qed.

Lemma committed_go_bounds b fuel i :
  0 ≤ i → i + Z.of_nat fuel = pCount p →
  0 ≤ committed_go p b fuel i ≤ rest_from i
  ∧ (committed_go p b fuel i = rest_from i ↔
     ∀ j, i ≤ j < pCount p → IsSet b j = true).
Proof using Hp.
  revert i. induction fuel as [|fuel IH]; intros i Hi Hfuel; simpl.
  - assert (rest_from i = 0) as ->; [|split; [lia|split; [lia|done]]].
    apply planner_ok_inv in Hp as (? & ? & ? & _ & Hcount).
    unfold rest_from. pose proof (Hcount i Hi). lia.
  - destruct (IH (i + 1)) as [Hb Hiff]; [lia..|].
    rewrite rest_from_step by lia.
    pose proof (segment_at_bounds p i Hp ltac:(lia)) as (_ & _ & _ & Hpos).
    rewrite planner_Segment_total by (done || lia).
    destruct (IsSet b i) eqn:Hs.
    + split; [lia|]. split.
      * intros Heq j Hj. destruct (decide (j = i)) as [->|]; [done|].
        apply Hiff; lia.
      * intros Hall. rewrite (proj2 Hiff); [lia|]. intros; apply Hall; lia.
    + split; [lia|]. split; [lia|]. intros Hall. rewrite Hall in Hs by lia. done.
Qed.

Lemma committed_go_Set b b' k fuel i :
  Bitmap_Set b k = Ok b' → 0 ≤ i → i + Z.of_nat fuel = pCount p →
  committed_go p b' fuel i = committed_go p b fuel i +
    (if (i <=? k) && (k <? pCount p) && negb (IsSet b k)
     then Segment_Size (segment_at p k) else 0).
Proof using Hp.
  intros Hset. revert i. induction fuel as [|fuel IH]; intros i Hi Hfuel; simpl.
  - case_ifs; lia.
  - rewrite IH by lia. rewrite (IsSet_Set _ _ _ Hset), planner_Segment_total
      by (done || lia).
    destruct (Z.eqb_spec i k) as [<-|Hne]; simpl.
    + rewrite (proj2 (Z.leb_gt _ _)), Z.leb_refl, (proj2 (Z.ltb_lt i _)) by lia. simpl.
      destruct (IsSet b i); simpl; lia.
    + replace (i + 1 <=? k) with (i <=? k); [lia|].
      apply Bool.eq_iff_eq_true. rewrite !Z.leb_le. lia.
Qed.

(** The byte count that goes with a bitmap: between 0 and the file size, the
    file size exactly when every segment is marked, and growing by a
    segment's size when that segment is newly marked. *)
Lemma committedBytes_bounds b : 0 ≤ committedBytes p b ≤ pSize p.
Proof using Hp.
  pose proof (planner_ok_inv p Hp). unfold committedBytes.
  destruct (committed_go_bounds b (Z.to_nat (pCount p)) 0) as [Hb _]; [lia..|].
  unfold rest_from in Hb. lia.
Qed.

Lemma committedBytes_full b :
  committedBytes p b = pSize p ↔ ∀ i, 0 ≤ i < pCount p → IsSet b i = true.
Proof using Hp.
  pose proof (planner_ok_inv p Hp). unfold committedBytes.
  destruct (committed_go_bounds b (Z.to_nat (pCount p)) 0) as [_ Hiff]; [lia..|].
  unfold rest_from in Hiff.
  replace (pSize p - Z.min (0 * pSegmentSize p) (pSize p)) with (pSize p) in Hiff by lia.
  done.
Qed.

Lemma committedBytes_Set b b' i :
  Bitmap_Set b i = Ok b' → 0 ≤ i < pCount p → IsSet b i = false →
  committedBytes p b' = committedBytes p b + Segment_Size (segment_at p i).
Proof using Hp.
  intros Hset Hi Hs. unfold committedBytes.
  rewrite (committed_go_Set b b' i) by (done || lia).
  rewrite Hs, (proj2 (Z.leb_le 0 i)), (proj2 (Z.ltb_lt i _)) by lia. done.
Qed.

Lemma committedBytes_empty b :
  (∀ i, IsSet b i = false) → committedBytes p b = 0.
Proof.
  intros H. unfold committedBytes. generalize 0 at 1.
  induction (Z.to_nat (pCount p)) as [|n IH]; intros i; simpl; [done|].
  by rewrite H, IH.
Qed.

(** ** Lemmas on pending segments *)

Lemma pending_go_spec b fuel i :
  0 ≤ i → i + Z.of_nat fuel = pCount p →
  pending_go p b fuel i =
    Ok (segment_at p <$> filter (λ j, IsSet b j = false) (seqZ i (Z.of_nat fuel))).
Proof using Hp.
  revert i. induction fuel as [|fuel IH]; intros i Hi Hfuel; [done|].
  rewrite seqZ_cons by lia. rewrite filter_cons. simpl.
  replace (Z.pred (Z.of_nat (S fuel))) with (Z.of_nat fuel) by lia.
  replace (Z.succ i) with (i + 1) by lia. rewrite IH by lia.
  destruct (IsSet b i); simpl; [done|].
  by rewrite planner_Segment_total by (done || lia).
Qed.
End committed.

Lemma planner_ok_new size segmentSize :
  0 ≤ size → 0 < segmentSize → size ≤ int64_max - segmentSize →
  ∃ p, NewSegmentPlanner size segmentSize = Ok p ∧ planner_ok p
    ∧ pSize p = size ∧ pSegmentSize p = segmentSize.
Proof.
  intros Hs Hss Hmax.
  assert (∃ p, NewSegmentPlanner size segmentSize = Ok p) as [p Hp].
  { unfold NewSegmentPlanner. rewrite (proj2 (Z.ltb_ge size 0)),
      (proj2 (Z.leb_gt segmentSize 0)) by lia. eauto. }
  exists p. pose proof (NewSegmentPlanner_ok _ _ _ Hp) as (-> & -> & _).
  split_and!; [done| |done..]. unfold planner_ok.
  pose proof (NewSegmentPlanner_ok _ _ _ Hp) as (-> & -> & _). split_and!; [done|..]; int_lia.
Qed.

Lemma Pending_spec p b :
  planner_ok p → pCount p ≤ maxInt → Bitmap_Validate b (pCount p) = Ok () →
  Pending p b =
    Ok (segment_at p <$> filter (λ j, IsSet b j = false) (seqZ 0 (pCount p))).
Proof.
  intros Hp Hmax Hval. unfold Pending. rewrite Hval. simpl.
  rewrite (proj2 (Z.ltb_ge _ _)) by lia.
  pose proof (planner_ok_inv p Hp).
  rewrite pending_go_spec by (done || lia). by rewrite Z2Nat.id by lia.
Qed.

Lemma pCount_maxInt p : planner_ok p → pCount p ≤ maxInt.
Proof.
  intros (? & ? & ? & ? & Hcount)%planner_ok_inv.
  destruct (decide (pCount p = 0)); [unfold maxInt, int64_max; lia|].
  pose proof (proj1 (Hcount (pCount p - 1) ltac:(lia)) ltac:(lia)).
  unfold maxInt. nia.
Qed.

Lemma count_split b n :
  0 ≤ n →
  Z.of_nat (length (filter (λ j, IsSet b j = false) (seqZ 0 n))) + count_set b n = n.
Proof.
  intros Hn. unfold count_set.
  assert (∀ l : list Z, (length (filter (λ j, IsSet b j = false) l)
    + length (filter (λ j, IsSet b j = true) l) = length l)%nat) as Hl.
  { induction l as [|x l IH]; [done|]. rewrite !filter_cons.
    repeat case_decide; simpl; destruct (IsSet b x); done || lia. }
  specialize (Hl (seqZ 0 n)). rewrite length_seqZ in Hl. lia.
Qed.

(** ** Properties *)

(** planning a file succeeds whenever the sizes are sane, and the
    planned segments tile the file: they are non-empty, at most one segment
    size long, start at byte 0, follow each other without gap or overlap, end
    at the last byte, and every byte of the file lies in exactly one of them. *)
Theorem PlanSegments_partition size segmentSize :
  0 ≤ size → 0 < segmentSize → size ≤ int64_max - segmentSize →
  (size - 1) `div` segmentSize + 1 ≤ 8 * MaxBitmapBytes →
  ∃ l, PlanSegments size segmentSize = Ok l
    ∧ tiles l 0 size
    ∧ Forall (λ s, 0 < Segment_Size s ≤ segmentSize) l
    ∧ ∀ x, 0 ≤ x < size → ∃ s, s ∈ l ∧ sStart s ≤ x ≤ sEnd s
        ∧ ∀ s', s' ∈ l → sStart s' ≤ x ≤ sEnd s' → s' = s.
Proof.
  intros Hs Hss Hmax Hbits.
  destruct (planner_ok_new size segmentSize) as (p & Hnew & Hp & <- & <-); [done..|].
  pose proof (planner_ok_inv p Hp) as (_ & _ & Hc & _ & Hcount).
  assert (0 ≤ pCount p ≤ 8 * MaxBitmapBytes) as Hn.
  { split; [done|]. etrans; [|exact Hbits].
    assert (0 < MaxBitmapBytes) by done.
    destruct (Z.le_gt_cases (pCount p) 0); [|].
    - etrans; [eassumption|].
      pose proof (Z.div_le_lower_bound (pSize p - 1) (pSegmentSize p) (-1)). lia.
    - assert (pCount p - 1 ≤ (pSize p - 1) `div` pSegmentSize p); [|lia].
      apply Z.div_le_lower_bound; [done|].
      pose proof (proj1 (Hcount (pCount p - 1) ltac:(lia)) ltac:(lia)). lia. }
  destruct (NewBitmap_valid _ Hn) as (b & Hb & Hval & _ & Hunset).
  exists (segment_at p <$> seqZ 0 (pCount p)).
  unfold PlanSegments. rewrite Hnew. simpl. unfold NewBitmapUnchecked. rewrite Hb.
  rewrite Pending_spec by eauto using pCount_maxInt.
  rewrite filter_all by (intros; apply Hunset). split_and!; [done|..].
  - rewrite <- (Z2Nat.id (pCount p)) by done.
    pose proof (tiles_segments p (Z.to_nat (pCount p)) Hp ltac:(lia)) as Ht.
    rewrite Z.min_r in Ht; [done|].
    destruct (Z.le_gt_cases (pSize p) (pCount p * pSegmentSize p)); [lia|].
    assert (pCount p < pCount p); [|lia]. apply Hcount; lia.
  - apply Forall_fmap, Forall_forall. intros i Hi%elem_of_seqZ.
    simpl. pose proof (segment_at_bounds p i Hp ltac:(lia)). lia.
  - intros x Hx. destruct (segment_holding p x Hp Hx) as [Hq Huniq].
    exists (segment_at p (x `div` pSegmentSize p)). split_and!.
    + apply list_elem_of_fmap. eexists. split; [done|]. apply elem_of_seqZ. lia.
    + apply Huniq; [lia|done].
    + apply Huniq; [lia|done].
    + intros s' (i & -> & Hi%elem_of_seqZ)%list_elem_of_fmap Hin.
      apply Huniq in Hin; [by subst|lia].
Qed.

Lemma PlanSegments_partition_witness :
  ∃ l, PlanSegments 20 8 = Ok l ∧ tiles l 0 20
    ∧ Forall (λ s, 0 < Segment_Size s ≤ 8) l
    ∧ ∀ x, 0 ≤ x < 20 → ∃ s, s ∈ l ∧ sStart s ≤ x ≤ sEnd s
        ∧ ∀ s', s' ∈ l → sStart s' ≤ x ≤ sEnd s' → s' = s.
Proof.
  apply (PlanSegments_partition 20 8); [lia|lia|by vm_compute|by vm_compute].
Defined.

(** for every planner [NewSegmentPlanner] accepts, whatever int64
    sizes it was given, [Segment] returns a range only for an index of the
    plan, and then the range lies inside the file and is the mathematically
    exact one (no wrapped multiplication); otherwise it reports an index error
    for an index outside the plan or the overflow error for a start too close
    to the int64 limit. *)
Theorem Segment_bounds size segmentSize p index :
  int64_ok size → int64_ok segmentSize →
  NewSegmentPlanner size segmentSize = Ok p →
  match planner_Segment p index with
  | Ok s => 0 ≤ index < pCount p ∧ s = segment_at p index
            ∧ 0 ≤ sStart s ≤ sEnd s ∧ sEnd s < size
  | Err e =>
      (¬ (0 ≤ index < pCount p) ∧ errors_is e ErrSegmentIndex = true)
      ∨ (0 ≤ index < pCount p ∧ int64_max - segmentSize < index * segmentSize
         ∧ errors_is e ErrInvalidSegmentPlan = true)
  end.
Proof.
  intros Hs Hss Hp. apply NewSegmentPlanner_ok in Hp as (Hsz & Hseg & H0 & Hpos & Hc & Hcount).
  unfold planner_Segment. rewrite Hsz, Hseg.
  destruct (Z.ltb_spec index 0); simpl; [left; split; [lia|done]|].
  destruct (Z.leb_spec (pCount p) index); simpl;
    [left; split; [lia|done]|].
  pose proof (proj1 (Hcount index ltac:(lia)) ltac:(lia)) as Hlt.
  assert (0 ≤ index * segmentSize) by nia.
  rewrite wrap64_id by int_lia.
  rewrite (proj2 (Z.ltb_ge _ 0)) by lia. simpl.
  destruct (Z.ltb_spec (int64_max - segmentSize) (index * segmentSize)); simpl.
  - right. split_and!; [lia..|done|done].
  - unfold segment_at. rewrite Hsz, Hseg. case_ifs; split_and!; try f_equal; lia.
Qed.

Lemma Segment_bounds_witness :
  match planner_Segment (mkPlanner 20 8 3) 2 with
  | Ok s => 0 ≤ 2 < 3 ∧ s = mkSegment 2 16 19 ∧ 0 ≤ sStart s ≤ sEnd s ∧ sEnd s < 20
  | Err e => (¬ (0 ≤ 2 < 3) ∧ errors_is e ErrSegmentIndex = true)
      ∨ (0 ≤ 2 < 3 ∧ int64_max - 8 < 2 * 8 ∧ errors_is e ErrInvalidSegmentPlan = true)
  end.
Proof. apply (Segment_bounds 20 8 (mkPlanner 20 8 3) 2); [by vm_compute..|done]. Defined.

(** on a bitmap that is valid for a plan of [n] segments, [Set] and
    [Clear] of a segment of the plan succeed, change the answer of [IsSet] for
    that segment only, and [Set] keeps the bitmap valid for the plan; outside
    the bitmap both report an index error. *)
Theorem Bitmap_bit_operations b n i :
  bitmap_bytes_ok b → 0 ≤ n ≤ 8 * MaxBitmapBytes → Bitmap_Validate b n = Ok () →
  (0 ≤ i < n →
    (∃ b', Bitmap_Set b i = Ok b' ∧ Bitmap_Validate b' n = Ok ()
       ∧ ∀ j, IsSet b' j = (j =? i) || IsSet b j)
    ∧ (∃ b', Bitmap_Clear b i = Ok b' ∧ length b' = length b
       ∧ ∀ j, IsSet b' j = negb (j =? i) && IsSet b j))
  ∧ (in_bitmap b i = false → ∃ e, Bitmap_Set b i = Err e ∧ Bitmap_Clear b i = Err e
       ∧ errors_is e ErrSegmentIndex = true).
Proof.
  intros Hb Hn Hval. split.
  - intros Hi. destruct (Bitmap_Set_valid b n i) as (b' & Hset & _ & Hval'); [done..|].
    split; [eauto using IsSet_Set|].
    assert (in_bitmap b i = true) as Hin.
    { unfold Bitmap_Set in Hset. by destruct (in_bitmap b i). }
    assert (∃ b', Bitmap_Clear b i = Ok b' ∧ length b' = length b) as (bc & Hc & Hl).
    { unfold Bitmap_Clear. rewrite Hin. eexists. split; [done|]. apply length_insert. }
    eauto using IsSet_Clear.
  - intros Hin. unfold Bitmap_Set, Bitmap_Clear. rewrite Hin. simpl.
    eexists. split_and!; done.
Qed.

Lemma Bitmap_bit_operations_witness :
  (∃ b', Bitmap_Set [5; 1] 3 = Ok b' ∧ Bitmap_Validate b' 10 = Ok ()
       ∧ ∀ j, IsSet b' j = (j =? 3) || IsSet [5; 1] j)
    ∧ (∃ b', Bitmap_Clear [5; 1] 3 = Ok b' ∧ length b' = 2%nat
       ∧ ∀ j, IsSet b' j = negb (j =? 3) && IsSet [5; 1] j).
Proof.
  apply (Bitmap_bit_operations [5; 1] 10 3).
  - repeat constructor; by vm_compute.
  - by vm_compute.
  - by vm_compute.
  - lia.
Defined.

(** the segments still to download are, in ascending order, exactly
    the segments of the plan whose bit is clear, and together with the count
    of set bits they account for every segment. *)
Theorem Pending_complements_bitmap p b :
  planner_ok p → pCount p ≤ 8 * MaxBitmapBytes →
  bitmap_bytes_ok b → Bitmap_Validate b (pCount p) = Ok () →
  ∃ l, Pending p b = Ok l
    ∧ l = segment_at p <$> filter (λ j, IsSet b j = false) (seqZ 0 (pCount p))
    ∧ Z.of_nat (length l) + Bitmap_Count b = pCount p.
Proof.
  intros Hp Hn Hb Hval. pose proof (planner_ok_inv p Hp).
  eexists. split_and!; [by eauto using Pending_spec, pCount_maxInt|done|].
  rewrite length_fmap, (Bitmap_Count_valid b (pCount p)) by (done || lia).
  apply count_split. lia.
Qed.

Lemma Pending_complements_bitmap_witness :
  ∃ l, Pending (mkPlanner 20 8 3) [2] = Ok l
    ∧ l = segment_at (mkPlanner 20 8 3) <$> filter (λ j, IsSet [2] j = false) (seqZ 0 3)
    ∧ Z.of_nat (length l) + Bitmap_Count [2] = 3.
Proof.
  apply (Pending_complements_bitmap (mkPlanner 20 8 3) [2]);
    [by vm_compute|by vm_compute| |done].
  repeat constructor; by vm_compute.
Defined.

(** the byte count recorded with a bitmap lies between 0 and the
    file size, equals the file size exactly when every segment is marked, and
    grows by exactly a segment's size when an unmarked segment is marked. *)
Theorem committedBytes_spec p b :
  planner_ok p →
  0 ≤ committedBytes p b ≤ pSize p
  ∧ (committedBytes p b = pSize p ↔ ∀ i, 0 ≤ i < pCount p → IsSet b i = true)
  ∧ ∀ b' i, Bitmap_Set b i = Ok b' → 0 ≤ i < pCount p → IsSet b i = false →
      committedBytes p b' = committedBytes p b + Segment_Size (segment_at p i).
Proof.
  intros Hp. split; [by apply committedBytes_bounds|].
  split; [by apply committedBytes_full|]. intros. by apply committedBytes_Set.
Qed.

Lemma committedBytes_spec_witness :
  0 ≤ committedBytes (mkPlanner 20 8 3) [4] ≤ 20
  ∧ (committedBytes (mkPlanner 20 8 3) [4] = 20 ↔ ∀ i, 0 ≤ i < 3 → IsSet [4] i = true)
  ∧ ∀ b' i, Bitmap_Set [4] i = Ok b' → 0 ≤ i < 3 → IsSet [4] i = false →
      committedBytes (mkPlanner 20 8 3) b' =
      committedBytes (mkPlanner 20 8 3) [4] + Segment_Size (segment_at (mkPlanner 20 8 3) i).
Proof. apply (committedBytes_spec (mkPlanner 20 8 3) [4]). by vm_compute. Defined.
