(* ===== verification/Retry.v ===== *)
(** * Retry classification and backoff (internal/download/retry.go)

    How an error of a range download is classified, and how long the retry
    loop waits.  [http.ParseTime] and the random source are arguments. *)

From Stdlib Require Import ZArith Lia.
From stdpp Require Import base list gmap strings numbers pretty.
From S2P Require Import Prelude GoStrings GoErrors.

(** ** Definitions *)

Inductive RetryClass :=
| RetryNone | RetryTransport | RetryRateLimit | RetryServer
| RetryRefreshURL | RetryQuota.

#[export] Instance RetryClass_eq_dec : EqDecision RetryClass.
Proof. solve_decision. Defined.

Definition IsQuotaError (err : error) : bool :=
  bool_decide (is_Some (as_quota_error err)) || errors_is err ErrQuota.

(** The [switch status.StatusCode] of [ClassifyRetry] and the range test
    after it. *)
Definition classify_status (code : Z) : RetryClass :=
  if code =? 429 then RetryRateLimit
  else if bool_decide (code ∈ [401; 403; 404; 410]) then RetryRefreshURL
  else if bool_decide (code ∈ [500; 501; 502; 503; 504]) then RetryServer
  else if code =? 509 then RetryQuota
  else if (500 <=? code) && (code <=? 599) then RetryServer
  else RetryNone.

(** The substrings of an error text taken as transport failures. *)
Definition transport_texts : list string :=
  ["unexpected eof"; "connection reset"; "payload ended"; "temporary"; "timeout"].

Definition ClassifyRetry (err : option error) : RetryClass :=
  match err with
  | None => RetryNone
  | Some err =>
    if match as_api_error err with
       | Some code => (code =? -17) || (code =? -24)
       | None => false
       end
    then RetryQuota
    else if IsQuotaError err then RetryQuota
    else match as_http_status err with
    | Some (code, _) => classify_status code
    | None =>
      if errors_is err ECONNRESET || errors_is err EPIPE
         || errors_is err ECONNREFUSED
      then RetryTransport
      else if match as_net_error err with
              | Some (timeout, temporary) => timeout || temporary
              | None => false
              end
      then RetryTransport
      else
        let text := ToLower (Error err) in
        if existsb (Contains text) transport_texts then RetryTransport
        else RetryNone
    end
  end.

Definition IsRetryableHTTPStatus (status : Z) : bool :=
  (status =? 429) || (status =? 509) || ((500 <=? status) && (status <=? 599)).

(** [Time.Sub] saturates at the Duration limits. *)
Definition time_Sub (t u : Z) : Z := Z.max int64_min (Z.min int64_max (t - u)).

Section backoff.
(** [http.ParseTime] and [rand.Int63n]. *)
Context (ParseTime : string → option Z) (Int63n : Z → Z).

Definition ParseRetryAfter (value : string) (now : Z) : option Z :=
  let value := TrimSpace value in
  if bool_decide (value = "") then None
  else match ParseInt value with
  | Some seconds =>
    let seconds := if seconds <? 0 then 0 else seconds in
    let seconds := if (24 * Hour) `quot` Second <? seconds
                   then (24 * Hour) `quot` Second else seconds in
    Some (wrap64 (seconds * Second))
  | None =>
    match ParseTime value with
    | None => None
    | Some when_ =>
      let delay := time_Sub when_ now in
      let delay := if delay <? 0 then 0 else delay in
      let delay := if 24 * Hour <? delay then 24 * Hour else delay in
      Some delay
    end
  end.

Definition clamp_attempt (attempt : Z) : Z :=
  let attempt := if attempt <? 1 then 1 else attempt in
  if 9 <? attempt then 9 else attempt.

Definition base_delay (attempt : Z) : Z :=
  let delay := wrap64 (Second * Z.shiftl 1 (clamp_attempt attempt - 1)) in
  if 5 * Minute <? delay then 5 * Minute else delay.

Definition ExponentialBackoff (attempt : Z) (retryAfter : string) (now : Z) : Z :=
  match (if bool_decide (retryAfter = "") then None
         else ParseRetryAfter retryAfter now) with
  | Some delay => delay
  | None =>
    let delay := base_delay attempt in
    let result := wrap64 (delay + Int63n (delay `quot` 4 + 1)) in
    if 5 * Minute <? result then 5 * Minute else result
  end.
End backoff.

(** ** Lemmas *)

Lemma base_delay_bounds attempt :
  Second ≤ base_delay attempt ≤ 256 * Second
  ∧ (∀ n, attempt ≤ n → base_delay attempt ≤ base_delay n).
Proof.
  assert (∀ a, base_delay a = Second * Z.shiftl 1 (clamp_attempt a - 1)) as Heq.
  { intros a. unfold base_delay.
    assert (clamp_attempt a ∈ seqZ 1 9) as Hin.
    { apply elem_of_seqZ. unfold clamp_attempt. case_ifs; lia. }
    revert Hin. generalize (clamp_attempt a). apply Forall_forall.
    repeat constructor. }
  rewrite Heq. split.
  - assert (1 ≤ clamp_attempt attempt ≤ 9) by (unfold clamp_attempt; case_ifs; lia).
    rewrite Z.shiftl_1_l.
    pose proof (Z.pow_le_mono_r 2 0 (clamp_attempt attempt - 1) ltac:(lia) ltac:(lia)).
    pose proof (Z.pow_le_mono_r 2 (clamp_attempt attempt - 1) 8 ltac:(lia) ltac:(lia)).
    unfold Second, Millisecond, Microsecond, Nanosecond. lia.
  - intros n Hn. rewrite Heq, !Z.shiftl_1_l.
    apply Z.mul_le_mono_nonneg_l; [done|].
    apply Z.pow_le_mono_r; [lia|]. unfold clamp_attempt. case_ifs; lia.
Qed.

Lemma ParseRetryAfter_bounds ParseTime value now delay :
  ParseRetryAfter ParseTime value now = Some delay → 0 ≤ delay ≤ 24 * Hour.
Proof.
  assert ((24 * Hour) `quot` Second = 86400) as Hq by done.
  assert (24 * Hour = 86400 * Second) as Hd by done.
  assert (Second = 1000000000) as HS by done.
  unfold ParseRetryAfter. rewrite Hq, Hd. clear Hq Hd.
  destruct (bool_decide _); [done|]. destruct (ParseInt _) as [seconds|].
  - intros [= <-]. set (s := if 86400 <? _ then _ else _).
    assert (0 ≤ s ≤ 86400) by (subst s; repeat case_match; bool_to_prop; lia).
    rewrite wrap64_id by (rewrite HS; int_lia). rewrite HS. lia.
  - destruct (ParseTime _); [|done]. intros [= <-].
    rewrite HS. repeat case_match; bool_to_prop; lia.
Qed.

(** ** Properties *)

(** the class of an HTTP failure is decided by its status code
    alone, however deeply the error is wrapped, and a status is retryable in
    the sense of [IsRetryableHTTPStatus] exactly when its class is rate limit,
    server or quota; a quota error is classified as quota whatever it wraps. *)
Theorem ClassifyRetry_http_status status text retry heads cause after :
  let wrapped := foldr Wrapf (HTTPStatusError status text retry) heads in
  ClassifyRetry (Some wrapped) = classify_status status
  ∧ (IsRetryableHTTPStatus status = true ↔
     classify_status status ∈ [RetryRateLimit; RetryServer; RetryQuota])
  ∧ ClassifyRetry (Some (foldr Wrapf (QuotaError cause after) heads)) = RetryQuota.
Proof.
  simpl. split_and!.
  - set (w := foldr _ _ heads).
    assert (as_api_error w = None ∧ as_quota_error w = None
      ∧ errors_is w ErrQuota = false ∧ as_http_status w = Some (status, retry))
      as (Ha & Hq & Hi & Hs).
    { subst w. induction heads; naive_solver. }
    unfold ClassifyRetry, IsQuotaError. by rewrite Ha, Hq, Hi, Hs.
  - unfold IsRetryableHTTPStatus, classify_status.
    rewrite !orb_true_iff, andb_true_iff, !Z.eqb_eq, !Z.leb_le.
    repeat case_match; bool_to_prop;
      repeat match goal with
      | H : status ∈ _ |- _ => rewrite !elem_of_cons, elem_of_nil in H
      | H : status ∉ _ |- _ => rewrite !elem_of_cons, elem_of_nil in H
      end;
      (split; [intros ?; first [by repeat constructor|exfalso; lia]
              |intros Hin; first [lia|exfalso; clear -Hin; set_solver]]).
  - set (w := foldr _ _ heads).
    assert (as_quota_error w = Some (cause, after)) as Hq.
    { subst w. induction heads; naive_solver. }
    unfold ClassifyRetry, IsQuotaError. rewrite Hq.
    destruct (match as_api_error w with Some _ => _ | None => _ end); [done|].
    by rewrite bool_decide_eq_true_2 by eauto.
Qed.

(** without a usable Retry-After the wait before a retry is between
    the base delay of the attempt (one second, doubled per attempt, at most
    256 seconds) and five minutes, and exceeds the base by at most a quarter;
    with one it is the server's delay, clamped to between zero and a day.  No
    wait is negative and none overflows. *)
Theorem ExponentialBackoff_bounds ParseTime Int63n attempt retryAfter now :
  (∀ n, 0 < n → 0 ≤ Int63n n < n) →
  let wait := ExponentialBackoff ParseTime Int63n attempt retryAfter now in
  (ParseRetryAfter ParseTime retryAfter now = None ∨ retryAfter = "" →
     base_delay attempt ≤ wait ≤ 5 * Minute
     ∧ wait ≤ base_delay attempt + base_delay attempt `div` 4
     ∧ Second ≤ base_delay attempt ≤ 256 * Second)
  ∧ (∀ delay, retryAfter ≠ "" → ParseRetryAfter ParseTime retryAfter now = Some delay →
     wait = delay ∧ 0 ≤ delay ≤ 24 * Hour).
Proof.
  intros Hrand wait. subst wait. unfold ExponentialBackoff. split.
  - intros Hnone. destruct (base_delay_bounds attempt) as [Hb _].
    assert ((if bool_decide (retryAfter = "") then None
             else ParseRetryAfter ParseTime retryAfter now) = None) as ->.
    { case_bool_decide; naive_solver. }
    set (d := base_delay attempt) in *.
    assert (0 < Second) by done. assert (256 * Second < 5 * Minute) by done.
    assert (5 * Minute < 2 ^ 62) by done.
    rewrite quot_div_nonneg by lia. pose proof (Z.div_pos d 4 ltac:(lia) ltac:(lia)).
    pose proof (Hrand (d `div` 4 + 1) ltac:(lia)).
    pose proof (Z.div_le_upper_bound d 4 d ltac:(lia) ltac:(lia)).
    rewrite wrap64_id by int_lia. case_ifs; lia.
  - intros delay Hne Hsome. rewrite bool_decide_eq_false_2 by done. rewrite Hsome.
    split; [done|]. by eapply ParseRetryAfter_bounds.
Qed.

Lemma ExponentialBackoff_bounds_witness :
  (ParseRetryAfter (λ _, None) "soon" 0 = None ∨ "soon" = "" →
     base_delay 3 ≤ ExponentialBackoff (λ _, None) (λ n, n - 1) 3 "soon" 0 ≤ 5 * Minute
     ∧ ExponentialBackoff (λ _, None) (λ n, n - 1) 3 "soon" 0
       ≤ base_delay 3 + base_delay 3 `div` 4
     ∧ Second ≤ base_delay 3 ≤ 256 * Second)
  ∧ (∀ delay, "soon" ≠ "" → ParseRetryAfter (λ _, None) "soon" 0 = Some delay →
     ExponentialBackoff (λ _, None) (λ n, n - 1) 3 "soon" 0 = delay ∧ 0 ≤ delay ≤ 24 * Hour).
Proof.
  apply (ExponentialBackoff_bounds (λ _, None) (λ n, n - 1) 3 "soon" 0). lia.
Defined.
