(* ===== verification/Crypto.v ===== *)
(** * MEGA content cryptography (internal/mega/crypto.go, integrity.go)

    Key derivation, the AES-CTR stream that can be opened at any plaintext
    offset, and the chunked CBC-MAC that verifies a finished file.  The block
    cipher itself ([crypto/aes]) is an argument: the theorems hold for every
    function from 16-byte blocks to 16-byte blocks. *)

From Stdlib Require Import ZArith Lia.
From stdpp Require Import base list gmap strings numbers pretty.
From S2P Require Import Prelude GoStrings GoErrors.

(** ** Definitions: bytes and words *)

Definition BlockSize : Z := 16.

(** [binary.BigEndian.PutUint*]: the low [n] bytes of [x], most significant
    first. *)
Fixpoint be_bytes (n : nat) (x : Z) : list Z :=
  match n with
  | O => []
  | S n' => (Z.shiftr x (8 * Z.of_nat n')) `mod` 256 :: be_bytes n' x
  end.

(** [binary.BigEndian.Uint*]. *)
Definition be_value (l : list Z) : Z := foldl (λ acc b, acc * 256 + b) 0 l.

Definition xor_bytes (a b : list Z) : list Z := zip_with Z.lxor a b.

(** [l[from:to]]. *)
Definition slice (l : list Z) (from to : nat) : list Z := take (to - from) (drop from l).

(** ** Definitions: keys *)

Record FileKey := mkFileKey {
  Raw : list Z; AESKey : list Z; Nonce : list Z; MetaMAC : list Z
}.

Record NodeKey := mkNodeKey { nRaw : list Z; nAESKey : list Z }.

(** The loop that folds the eight words of a 256-bit key into four. *)
Definition fold_key (decoded : list Z) : list Z :=
  flat_map (λ index,
    let left := be_value (slice decoded (index * 4) (index * 4 + 4)) in
    let right := be_value (slice decoded ((index + 4) * 4) ((index + 4) * 4 + 4)) in
    be_bytes 4 (Z.lxor left right)) (seq 0 4).

Definition decodeFileKeyBytes (decoded : list Z) : result error FileKey :=
  if negb (Z.of_nat (length decoded) =? 32) then
    Err (Wrap ErrInvalidKey (": file key must contain 32 bytes, got "
      +:+ FormatInt (Z.of_nat (length decoded))))
  else Ok (mkFileKey decoded (fold_key decoded)
             (slice decoded 16 24) (slice decoded 24 32)).

Definition decodeNodeKeyBytes (decoded : list Z) : result error NodeKey :=
  let n := Z.of_nat (length decoded) in
  if negb (n =? 16) && negb (n =? 32) then
    Err (Wrap ErrInvalidKey (": node key must contain 16 or 32 bytes, got "
      +:+ FormatInt n))
  else if n =? 16 then Ok (mkNodeKey decoded decoded)
  else Ok (mkNodeKey decoded (fold_key decoded)).

Section cipher.
(** [block.Encrypt] of the AES cipher made from a key. *)
Context (E : list Z → list Z → list Z).

(** ** Definitions: AES-CTR *)

(** A [cipher.Stream] made by [cipher.NewCTR]: the counter block it started
    from, as a 128-bit number, and the key-stream bytes already used. *)
Record Stream := mkStream { s_key : list Z; s_iv : Z; s_pos : Z }.

(** The standard library increments the whole 16-byte counter block. *)
Definition counter_block (iv j : Z) : list Z := be_bytes 16 ((iv + j) `mod` 2 ^ 128).

Definition keystream_byte (key : list Z) (iv n : Z) : Z :=
  default 0 (E key (counter_block iv (n `div` 16)) !! Z.to_nat (n `mod` 16)).

Definition XORKeyStream (s : Stream) (data : list Z) : list Z * Stream :=
  (zip_with (λ b n, Z.lxor b (keystream_byte (s_key s) (s_iv s) n))
     data (seqZ (s_pos s) (Z.of_nat (length data))),
   mkStream (s_key s) (s_iv s) (s_pos s + Z.of_nat (length data))).

Definition NewCTR (key : FileKey) (offset : Z) : result error Stream :=
  if offset <? 0 then Err (Wrap ErrInvalidKey ": negative AES-CTR offset")
  else
    let counter := Nonce key ++ be_bytes 8 (offset `quot` BlockSize) in
    let stream := mkStream (AESKey key) (be_value counter) 0 in
    let remainder := offset `rem` BlockSize in
    Ok (if negb (remainder =? 0)
        then (XORKeyStream stream (replicate (Z.to_nat remainder) 0)).2
        else stream).

Definition DecryptAt (ciphertext : list Z) (key : FileKey) (offset : Z)
    : result error (list Z) :=
  stream ← NewCTR key offset;
  Ok (XORKeyStream stream ciphertext).1.

Definition CryptAt (plaintext : list Z) (key : FileKey) (offset : Z)
    : result error (list Z) := DecryptAt plaintext key offset.

(** ** Definitions: integrity *)

Definition firstMegaChunkSize : Z := 128 * 1024.
Definition steadyMegaChunk : Z := 1024 * 1024.

Definition megaChunkSize (number : Z) : Z :=
  if number <=? 8 then number * firstMegaChunkSize else steadyMegaChunk.

(** One [CryptBlocks] call of a CBC encrypter on one block: the state is the
    previous ciphertext block. *)
Definition cbc_step (key : list Z) (state block : list Z) : list Z :=
  E key (xor_bytes state block).

(** [make([]byte, paddedSize)] and [copy]. *)
Definition pad_block (plain : list Z) : list Z :=
  let n := Z.of_nat (length plain) in
  let paddedSize := (n + BlockSize - 1) `quot` BlockSize * BlockSize in
  plain ++ replicate (Z.to_nat (paddedSize - n)) 0.

(** The inner loop over the blocks of a padded chunk; [fuel] is the number of
    blocks. *)
Fixpoint chunk_mac_go (key : list Z) (fuel : nat) (padded state : list Z) : list Z :=
  match fuel with
  | O => state
  | S fuel' =>
    chunk_mac_go key fuel' (drop 16 padded) (cbc_step key state (take 16 padded))
  end.
Definition chunk_mac (key macIV plain : list Z) : list Z :=
  let padded := pad_block plain in
  chunk_mac_go key (Nat.div (length padded) 16) padded macIV.

(** The outer loop: [None] only when [fuel] runs out. *)
Fixpoint integrity_loop (key macIV : list Z) (fuel : nat) (reader : list Z)
    (remaining chunkNumber : Z) (finalMAC : list Z) : option (result error (list Z)) :=
  if remaining <=? 0 then Some (Ok finalMAC)
  else match fuel with
  | O => None
  | S fuel' =>
    let chunkSize := megaChunkSize chunkNumber in
    let chunkSize := if remaining <? chunkSize then remaining else chunkSize in
    if Z.of_nat (length reader) <? chunkSize then
      Some (Err (Wrap ErrIntegrityMismatch (": read integrity data: "
        +:+ sentinel_text (if bool_decide (reader = []) then EOF else ErrUnexpectedEOF))))
    else
      let plain := take (Z.to_nat chunkSize) reader in
      integrity_loop key macIV fuel' (drop (Z.to_nat chunkSize) reader)
        (remaining - chunkSize) (chunkNumber + 1)
        (cbc_step key finalMAC (chunk_mac key macIV plain))
  end.

Definition condense (finalMAC : list Z) : list Z :=
  let word i := be_value (slice finalMAC (i * 4) (i * 4 + 4)) in
  be_bytes 4 (Z.lxor (word 0%nat) (word 1%nat))
  ++ be_bytes 4 (Z.lxor (word 2%nat) (word 3%nat)).

(** Chunks are at least [firstMegaChunkSize] long except the last one. *)
Definition integrity_fuel (size : Z) : nat := S (Z.to_nat (size `div` firstMegaChunkSize)).

(** [reader] is the bytes the reader delivers before its end. *)
Definition VerifyIntegrity (reader : list Z) (size : Z) (key : FileKey)
    : option (result error ()) :=
  if size <? 0 then
    Some (Err (Wrap ErrIntegrityMismatch ": negative file size"))
  else if size =? 0 then
    Some (if bool_decide (replicate 8 0 = MetaMAC key) then Ok ()
          else Err (Sentinel ErrIntegrityMismatch))
  else
    let macIV := Nonce key ++ Nonce key in
    match integrity_loop (AESKey key) macIV (integrity_fuel size) reader size 1
            (replicate 16 0) with
    | None => None
    | Some (Err e) => Some (Err e)
    | Some (Ok finalMAC) =>
      Some (if bool_decide (condense finalMAC = MetaMAC key) then Ok ()
            else Err (Sentinel ErrIntegrityMismatch))
    end.

(** The reference: the chunk boundaries of a file, and the MAC as a fold over
    the chunks of the content. *)
Fixpoint chunk_list (fuel : nat) (number : Z) (data : list Z) : list (list Z) :=
  match fuel, data with
  | O, _ | _, [] => []
  | S fuel', _ =>
    let n := Z.to_nat (megaChunkSize number) in
    take n data :: chunk_list fuel' (number + 1) (drop n data)
  end.

Definition file_mac (key macIV data : list Z) : list Z :=
  foldl (λ state chunk, cbc_step key state (chunk_mac key macIV chunk))
    (replicate 16 0)
    (chunk_list (integrity_fuel (Z.of_nat (length data))) 1 data).
End cipher.

(** The key stream as a function of the absolute plaintext position. *)
Definition absolute_keystream (E : list Z → list Z → list Z) (key : FileKey) (x : Z) : Z :=
  default 0 (E (AESKey key) (Nonce key ++ be_bytes 8 (x `div` 16)) !! Z.to_nat (x `mod` 16)).

Definition file_key_ok (key : FileKey) : Prop :=
  length (Raw key) = 32%nat ∧ Forall byte_ok (Raw key)
  ∧ decodeFileKeyBytes (Raw key) = Ok key.

(** ** Lemmas *)

Lemma length_be_bytes n x : length (be_bytes n x) = n.
Proof. induction n; simpl; auto. Qed.

Lemma be_bytes_ok n x : Forall byte_ok (be_bytes n x).
Proof.
  induction n; simpl; constructor; [|done].
  unfold byte_ok. apply Z.mod_pos_bound. lia.
Qed.

Lemma be_bytes_mod n x y :
  x `mod` 2 ^ (8 * Z.of_nat n) = y `mod` 2 ^ (8 * Z.of_nat n) → be_bytes n x = be_bytes n y.
Proof.
  intros Hxy.
  assert (∀ k, (k ≤ n)%nat → be_bytes k x = be_bytes k y) as Hk; [|by apply Hk].
  induction k as [|k IH]; intros Hk; simpl; [done|]. f_equal; [|apply IH; lia].
  change 256 with (2 ^ 8). apply Z.bits_inj_iff'. intros i Hi.
  destruct (decide (i < 8)); [|by rewrite !Z.mod_pow2_bits_high by lia].
  rewrite !Z.mod_pow2_bits_low, !Z.shiftr_spec by lia.
  rewrite <- (Z.mod_pow2_bits_low x (8 * Z.of_nat n)),
    <- (Z.mod_pow2_bits_low y (8 * Z.of_nat n)) by lia.
  by rewrite Hxy.
Qed.

Lemma be_bytes_app m n x :
  be_bytes (m + n) x = be_bytes m (Z.shiftr x (8 * Z.of_nat n)) ++ be_bytes n x.
Proof.
  induction m as [|m IH]; simpl; [done|]. rewrite IH. f_equal.
  rewrite Z.shiftr_shiftr by lia. do 2 f_equal. lia.
Qed.

Lemma be_value_app_acc l acc :
  foldl (λ acc b, acc * 256 + b) acc l = acc * 256 ^ Z.of_nat (length l) + be_value l.
Proof.
  unfold be_value. revert acc.
  induction l as [|b l IH]; intros acc; cbn [foldl length]; [rewrite Z.pow_0_r; lia|].
  rewrite (IH (acc * 256 + b)), (IH (0 * 256 + b)).
  rewrite Nat2Z.inj_succ, Z.pow_succ_r by lia. lia.
Qed.

Lemma be_value_app l1 l2 :
  be_value (l1 ++ l2) = be_value l1 * 256 ^ Z.of_nat (length l2) + be_value l2.
Proof. unfold be_value at 1. rewrite foldl_app. apply be_value_app_acc. Qed.

Lemma be_value_bound l :
  Forall byte_ok l → 0 ≤ be_value l < 256 ^ Z.of_nat (length l).
Proof.
  induction l as [|b l IH] using rev_ind; [done|].
  intros [Hl Hb]%Forall_app. inversion Hb as [|?? Hb' _]; subst.
  specialize (IH Hl). rewrite be_value_app, length_app. simpl.
  rewrite Nat2Z.inj_add, Z.pow_add_r by lia. simpl.
  unfold byte_ok, be_value in *. simpl. lia.
Qed.

Lemma be_bytes_value l : Forall byte_ok l → be_bytes (length l) (be_value l) = l.
Proof.
  induction l as [|b l IH] using rev_ind; [done|].
  intros [Hl Hb]%Forall_app. inversion Hb as [|?? Hb' _]; subst.
  rewrite length_app. simpl. rewrite be_bytes_app, be_value_app. simpl.
  change (be_value [b]) with b. unfold byte_ok in Hb'.
  rewrite Z.shiftr_div_pow2 by lia. change (2 ^ 8) with 256.
  rewrite Z.pow_1_r || idtac. rewrite Z.div_add_l by lia.
  rewrite Z.div_small, Z.add_0_r by lia. rewrite IH by done. do 2 f_equal.
  rewrite Z.shiftr_0_r. rewrite Z.add_comm, Z.mod_add, Z.mod_small by lia. done.
Qed.

Lemma be_value_bytes n x :
  be_value (be_bytes n x) = x `mod` 2 ^ (8 * Z.of_nat n).
Proof.
  induction n as [|n IH].
  - simpl. by rewrite Z.mod_1_r.
  - change (be_bytes (S n) x)
      with ([(Z.shiftr x (8 * Z.of_nat n)) `mod` 256] ++ be_bytes n x).
    rewrite be_value_app, IH, length_be_bytes.
    replace (be_value [_]) with ((Z.shiftr x (8 * Z.of_nat n)) `mod` 256) by done.
    rewrite Z.shiftr_div_pow2 by lia.
    change 256 with (2 ^ 8) at 2. rewrite <- Z.pow_mul_r by lia.
    replace (8 * Z.of_nat (S n)) with (8 * Z.of_nat n + 8) by lia.
    rewrite Z.pow_add_r, Z.rem_mul_r by lia. change (2 ^ 8) with 256. lia.
Qed.

Lemma length_slice l a b : (b ≤ length l)%nat → length (slice l a b) = (b - a)%nat.
Proof. intros. unfold slice. rewrite length_take, length_drop. lia. Qed.

Lemma slice_ok l a b : Forall byte_ok l → Forall byte_ok (slice l a b).
Proof. intros. unfold slice. by apply Forall_take, Forall_drop. Qed.

(** *** Words and bytes *)

Lemma testbit_byte_step x u i :
  byte_ok u → 0 ≤ i →
  Z.testbit (x * 256 + u) i = if i <? 8 then Z.testbit u i else Z.testbit x (i - 8).
Proof.
  intros Hu Hi. unfold byte_ok in Hu. change 256 with (2 ^ 8) in *.
  destruct (Z.ltb_spec i 8).
  - rewrite <- (Z.mod_pow2_bits_low _ 8) by lia.
    by rewrite Z.add_comm, Z.mod_add, Z.mod_small by lia.
  - replace i with (i - 8 + 8) at 1 by lia. rewrite <- Z.div_pow2_bits by lia.
    by rewrite Z.div_add_l, Z.div_small, Z.add_0_r by lia.
Qed.

Lemma lxor_byte_ok a b : byte_ok a → byte_ok b → byte_ok (Z.lxor a b).
Proof.
  intros Ha Hb.
  assert (Z.lxor a b = Z.lxor a b `mod` 2 ^ 8) as ->;
    [|unfold byte_ok; apply Z.mod_pos_bound; lia].
  apply Z.bits_inj_iff'. intros i Hi. destruct (decide (i < 8)).
  { by rewrite Z.mod_pow2_bits_low by lia. }
  rewrite Z.mod_pow2_bits_high, Z.lxor_spec by lia.
  pose proof (testbit_byte_step 0 a i Ha Hi) as Ea.
  pose proof (testbit_byte_step 0 b i Hb Hi) as Eb.
  rewrite (proj2 (Z.ltb_ge i 8)), Z.bits_0 in Ea, Eb by lia.
  change (0 * 256 + a) with a in Ea. change (0 * 256 + b) with b in Eb.
  by rewrite Ea, Eb.
Qed.

Lemma lxor_step x y u v :
  byte_ok u → byte_ok v →
  Z.lxor (x * 256 + u) (y * 256 + v) = Z.lxor x y * 256 + Z.lxor u v.
Proof.
  intros Hu Hv. apply Z.bits_inj_iff'. intros i Hi.
  rewrite Z.lxor_spec, !testbit_byte_step by (done || by apply lxor_byte_ok).
  destruct (i <? 8); by rewrite Z.lxor_spec.
Qed.

Lemma be_value_xor a b :
  length a = length b → Forall byte_ok a → Forall byte_ok b →
  be_value (xor_bytes a b) = Z.lxor (be_value a) (be_value b).
Proof.
  revert b. induction a as [|u a IH] using rev_ind; intros b Hlen Ha Hb.
  { by destruct b. }
  destruct b as [|v b _] using rev_ind; [rewrite length_app in Hlen; simpl in *; lia|].
  rewrite !length_app in Hlen. simpl in Hlen.
  apply Forall_app in Ha as [Ha Hu]. apply Forall_app in Hb as [Hb Hv].
  inversion Hu; inversion Hv; subst.
  unfold xor_bytes in *. rewrite zip_with_app by lia. simpl.
  rewrite !be_value_app, IH by (done || lia). simpl. rewrite !Z.pow_1_r || idtac.
  change (256 ^ 1) with 256. rewrite lxor_step by done. done.
Qed.

Lemma xor_bytes_ok a b :
  Forall byte_ok a → Forall byte_ok b → Forall byte_ok (xor_bytes a b).
Proof.
  intros Ha. revert b. unfold xor_bytes.
  induction Ha as [|x a Hx Ha IH]; intros [|y b] Hb; simpl; try constructor.
  - inversion Hb; subst. by apply lxor_byte_ok.
  - inversion Hb; subst. by apply IH.
Qed.

Lemma be_bytes_xor n a b :
  length a = n → length b = n → Forall byte_ok a → Forall byte_ok b →
  be_bytes n (Z.lxor (be_value a) (be_value b)) = xor_bytes a b.
Proof.
  intros Hla Hlb Ha Hb. rewrite <- be_value_xor by (done || lia).
  assert (length (xor_bytes a b) = n) as <-.
  { unfold xor_bytes. rewrite length_zip_with. lia. }
  by apply be_bytes_value, xor_bytes_ok.
Qed.

(** Folding a 256-bit key is the byte-wise xor of its halves. *)
Lemma fold_key_xor l :
  length l = 32%nat → Forall byte_ok l → fold_key l = xor_bytes (take 16 l) (drop 16 l).
Proof.
  intros Hl Hok. unfold fold_key. cbn [seq flat_map].
  rewrite !be_bytes_xor
    by (rewrite ?length_slice by lia; done || by apply slice_ok).
  do 32 (destruct l as [|? l]; [done|]). destruct l; [done|done].
Qed.

(** ** The counter block at a given offset *)

Lemma counter_block_offset nonce q j :
  length nonce = 8%nat → Forall byte_ok nonce → 0 ≤ q → 0 ≤ j → q + j < 2 ^ 64 →
  counter_block (be_value (nonce ++ be_bytes 8 q)) j = nonce ++ be_bytes 8 (q + j).
Proof.
  intros Hlen Hok Hq Hj Hlt. unfold counter_block.
  rewrite be_value_app, be_value_bytes, length_be_bytes.
  change (8 * Z.of_nat 8) with 64. change (256 ^ Z.of_nat 8) with (2 ^ 64).
  rewrite (Z.mod_small q) by lia.
  pose proof (be_value_bound nonce Hok) as Hb. rewrite Hlen in Hb.
  change (256 ^ Z.of_nat 8) with (2 ^ 64) in Hb.
  replace (be_value nonce * 2 ^ 64 + q + j) with (be_value nonce * 2 ^ 64 + (q + j)) by lia.
  rewrite Z.mod_small by lia.
  rewrite (be_bytes_app 8 8). f_equal.
  - change (8 * Z.of_nat 8) with 64. rewrite Z.shiftr_div_pow2 by lia.
    rewrite Z.div_add_l, Z.div_small, Z.add_0_r by lia.
    rewrite <- Hlen at 1. by apply be_bytes_value.
  - apply be_bytes_mod. change (8 * Z.of_nat 8) with 64.
    by rewrite Z.add_comm, Z.mod_add by lia.
Qed.

Section ctr.
Context (E : list Z → list Z → list Z) (key : FileKey).
Context (Hlen : length (Nonce key) = 8%nat) (Hok : Forall byte_ok (Nonce key)).

Lemma NewCTR_stream off :
  0 ≤ off →
  NewCTR E key off =
    Ok (mkStream (AESKey key) (be_value (Nonce key ++ be_bytes 8 (off `div` 16)))
          (off `mod` 16)).
Proof using Hlen Hok.
  intros Hoff. unfold NewCTR, BlockSize. rewrite (proj2 (Z.ltb_ge off 0)) by lia.
  rewrite Z.quot_div_nonneg, Z.rem_mod_nonneg by lia.
  pose proof (Z.mod_pos_bound off 16 ltac:(lia)).
  destruct (Z.eqb_spec (off `mod` 16) 0) as [H0|H0]; simpl.
  - by rewrite H0.
  - rewrite length_replicate, Z2Nat.id by lia. done.
Qed.

Lemma keystream_absolute off n :
  0 ≤ off → 0 ≤ n → off + n < 2 ^ 63 →
  keystream_byte E (AESKey key) (be_value (Nonce key ++ be_bytes 8 (off `div` 16)))
    (off `mod` 16 + n) = absolute_keystream E key (off + n).
Proof using Hlen Hok.
  intros Hoff Hn Hmax. unfold keystream_byte, absolute_keystream.
  pose proof (Z.div_mod off 16 ltac:(lia)) as Hdm.
  pose proof (Z.mod_pos_bound off 16 ltac:(lia)).
  assert ((off + n) `div` 16 = off `div` 16 + (off `mod` 16 + n) `div` 16) as Hd.
  { rewrite <- Z.div_add_l by lia. f_equal. lia. }
  assert ((off + n) `mod` 16 = (off `mod` 16 + n) `mod` 16) as Hm.
  { by rewrite <- Z.add_mod_idemp_l by lia. }
  pose proof (Z.div_pos off 16). pose proof (Z.div_pos (off `mod` 16 + n) 16).
  assert ((off + n) `div` 16 < 2 ^ 64) by (apply Z.div_lt_upper_bound; lia).
  rewrite counter_block_offset by (done || lia). by rewrite <- Hd, <- Hm.
Qed.

(** Decryption at an offset in closed form: every byte is masked with the key
    stream byte of its absolute position. *)
Lemma DecryptAt_closed data off :
  0 ≤ off → off + Z.of_nat (length data) ≤ 2 ^ 63 →
  DecryptAt E data key off =
    Ok (zip_with (λ b x, Z.lxor b (absolute_keystream E key x))
          data (seqZ off (Z.of_nat (length data)))).
Proof using Hlen Hok.
  intros Hoff Hmax. unfold DecryptAt. rewrite NewCTR_stream by done. simpl. f_equal.
  apply list_eq. intros i. rewrite !lookup_zip_with.
  destruct (data !! i) as [b|] eqn:Hb; [|done]. simpl.
  apply lookup_lt_Some in Hb.
  rewrite !lookup_seqZ_lt by lia. simpl. do 2 f_equal.
  rewrite <- keystream_absolute by lia. done.
Qed.
End ctr.

(** ** The verification loop *)

Section integrity.
Context (E : list Z → list Z → list Z) (key macIV : list Z).

Lemma megaChunkSize_bounds number :
  1 ≤ number → firstMegaChunkSize ≤ megaChunkSize number ≤ steadyMegaChunk.
Proof using.
  intros. unfold megaChunkSize, steadyMegaChunk, firstMegaChunkSize. case_ifs; lia.
Qed.

(** Fuel that covers the remaining bytes with first-size chunks never runs
    out, and the loop is the fold of the reference over the chunk list. *)
Lemma integrity_loop_spec fuel reader remaining number mac :
  1 ≤ number → 0 ≤ remaining → remaining < Z.of_nat fuel * firstMegaChunkSize ∨ remaining = 0 →
  (remaining ≤ Z.of_nat (length reader) →
   integrity_loop E key macIV fuel reader remaining number mac =
     Some (Ok (foldl (λ state chunk, cbc_step E key state (chunk_mac E key macIV chunk))
       mac (chunk_list fuel number (take (Z.to_nat remaining) reader)))))
  ∧ (Z.of_nat (length reader) < remaining →
     ∃ e, integrity_loop E key macIV fuel reader remaining number mac = Some (Err e)
       ∧ errors_is e ErrIntegrityMismatch = true).
Proof using.
  revert reader remaining number mac.
  induction fuel as [|fuel IH]; intros reader remaining number mac Hn Hr Hfuel.
  { assert (remaining = 0) as -> by lia. simpl. split; [done|lia]. }
  pose proof (megaChunkSize_bounds number Hn) as Hsz.
  assert (0 < firstMegaChunkSize) by done.
  cbn [integrity_loop]. destruct (Z.leb_spec remaining 0).
  { assert (remaining = 0) as -> by lia. simpl. split; [|lia]. by destruct reader. }
  set (c := if remaining <? megaChunkSize number then remaining else megaChunkSize number).
  assert (c = Z.min remaining (megaChunkSize number)) as Hc by (subst c; case_ifs; lia).
  clearbody c.
  destruct (Z.ltb_spec (Z.of_nat (length reader)) c) as [Hshort|Hlong].
  { split; [lia|]. intros _. eexists. split; [done|done]. }
  edestruct (IH (drop (Z.to_nat c) reader) (remaining - c) (number + 1)) as [IH1 IH2];
    [lia|lia|lia|].
  rewrite length_drop in IH1, IH2. split; intros Hlen.
  - rewrite IH1 by lia. do 2 f_equal.
    assert (take (Z.to_nat remaining) reader ≠ []) as Hne.
    { intros Heq. apply (f_equal length) in Heq. rewrite length_take in Heq.
      simpl in Heq. lia. }
    cbn [chunk_list]. destruct (take (Z.to_nat remaining) reader) as [|b l] eqn:Ht; [done|].
    rewrite <- Ht. cbn [foldl].
    assert (take (Z.to_nat (megaChunkSize number)) (take (Z.to_nat remaining) reader)
      = take (Z.to_nat c) reader) as Htk.
    { rewrite take_take. f_equal. lia. }
    assert (drop (Z.to_nat (megaChunkSize number)) (take (Z.to_nat remaining) reader)
      = take (Z.to_nat (remaining - c)) (drop (Z.to_nat c) reader)) as Hdr.
    { destruct (Z.min_spec remaining (megaChunkSize number)) as [[? Hm]|[? Hm]].
      - rewrite drop_ge by (rewrite length_take; lia).
        replace (remaining - c) with 0 by lia. done.
      - rewrite skipn_firstn_comm, Hc, Hm. f_equal. lia. }
    by rewrite Htk, Hdr.
  - apply IH2. lia.
Qed.

Lemma integrity_fuel_enough size :
  0 ≤ size → size < Z.of_nat (integrity_fuel size) * firstMegaChunkSize.
Proof using.
  intros. unfold integrity_fuel. assert (0 < firstMegaChunkSize) by done.
  pose proof (Z.div_pos size firstMegaChunkSize).
  pose proof (Z.mul_succ_div_gt size firstMegaChunkSize ltac:(done)).
  rewrite Nat2Z.inj_succ, Z2Nat.id by lia. lia.
Qed.
End integrity.

Lemma decoded_key_nonce raw key :
  decodeFileKeyBytes raw = Ok key → Forall byte_ok raw →
  length (Nonce key) = 8%nat ∧ Forall byte_ok (Nonce key).
Proof.
  unfold decodeFileKeyBytes.
  destruct (Z.eqb_spec (Z.of_nat (length raw)) 32) as [Hl|]; simpl; [|done].
  intros [= <-] Hok. simpl. split; [rewrite length_slice; lia|by apply slice_ok].
Qed.

(** ** Properties *)

(** decrypting a file in consecutive ranges, each with its own
    stream opened at the range's offset, gives the same bytes as decrypting
    the whole: cutting the ciphertext anywhere, aligned or not, changes
    nothing. *)
Theorem DecryptAt_ranges E raw key a b off :
  decodeFileKeyBytes raw = Ok key → Forall byte_ok raw →
  0 ≤ off → off + Z.of_nat (length a) + Z.of_nat (length b) ≤ 2 ^ 63 →
  DecryptAt E (a ++ b) key off =
    (x ← DecryptAt E a key off;
     y ← DecryptAt E b key (off + Z.of_nat (length a));
     Ok (x ++ y)).
Proof.
  intros Hdec Hraw Hoff Hmax. destruct (decoded_key_nonce raw key) as [Hl Hok]; [done..|].
  rewrite !DecryptAt_closed by (rewrite ?length_app; done || lia). simpl. f_equal.
  rewrite length_app, Nat2Z.inj_add, seqZ_app by lia.
  rewrite zip_with_app by (rewrite length_seqZ; lia). done.
Qed.

Definition sample_raw : list Z := seqZ 3 32.
Definition sample_key : FileKey :=
  mkFileKey sample_raw (fold_key sample_raw) (slice sample_raw 16 24) (slice sample_raw 24 32).

Lemma DecryptAt_ranges_witness :
  DecryptAt xor_bytes ([1; 2; 3] ++ [4; 5]) sample_key 15 =
    (x ← DecryptAt xor_bytes [1; 2; 3] sample_key 15;
     y ← DecryptAt xor_bytes [4; 5] sample_key (15 + 3);
     Ok (x ++ y)).
Proof.
  apply (DecryptAt_ranges xor_bytes sample_raw sample_key [1; 2; 3] [4; 5] 15);
    [done|by apply (bool_decide_unpack _); vm_compute|lia|by vm_compute].
Defined.

(** what was encrypted at an offset is decrypted at the same
    offset. *)
Theorem DecryptAt_CryptAt E raw key data off :
  decodeFileKeyBytes raw = Ok key → Forall byte_ok raw →
  0 ≤ off → off + Z.of_nat (length data) ≤ 2 ^ 63 →
  (c ← CryptAt E data key off; DecryptAt E c key off) = Ok data.
Proof.
  intros Hdec Hraw Hoff Hmax. destruct (decoded_key_nonce raw key) as [Hl Hok]; [done..|].
  unfold CryptAt. rewrite DecryptAt_closed by done. simpl.
  rewrite DecryptAt_closed by (rewrite ?length_zip_with, ?length_seqZ; done || lia).
  f_equal. rewrite length_zip_with, length_seqZ.
  replace (Z.of_nat (Nat.min _ _)) with (Z.of_nat (length data)) by lia.
  apply list_eq. intros i. rewrite !lookup_zip_with.
  destruct (data !! i) as [b|] eqn:Hb; [|done]. simpl.
  apply lookup_lt_Some in Hb. rewrite lookup_seqZ_lt by lia. simpl.
  by rewrite Z.lxor_assoc, Z.lxor_nilpotent, Z.lxor_0_r.
Qed.

Lemma DecryptAt_CryptAt_witness :
  (c ← CryptAt xor_bytes [200; 2; 3; 77] sample_key 31;
   DecryptAt xor_bytes c sample_key 31) = Ok [200; 2; 3; 77].
Proof.
  apply (DecryptAt_CryptAt xor_bytes sample_raw sample_key [200; 2; 3; 77] 31);
    [done|by apply (bool_decide_unpack _); vm_compute|lia|by vm_compute].
Defined.

(** a file key decodes exactly when it has 32 bytes, and then its AES
    key is the xor of the two halves, its nonce the third quarter and its
    expected MAC the last; a node key of 16 bytes is its own AES key, and one
    of 32 bytes gets the same AES key as a file key. *)
Theorem decode_keys raw :
  Forall byte_ok raw →
  match decodeFileKeyBytes raw with
  | Ok key => length raw = 32%nat
      ∧ AESKey key = xor_bytes (take 16 raw) (drop 16 raw)
      ∧ raw = take 16 raw ++ Nonce key ++ MetaMAC key
      ∧ (∃ node, decodeNodeKeyBytes raw = Ok node ∧ nAESKey node = AESKey key)
  | Err e => length raw ≠ 32%nat ∧ errors_is e ErrInvalidKey = true
      ∧ (length raw = 16%nat → decodeNodeKeyBytes raw = Ok (mkNodeKey raw raw))
  end.
Proof.
  intros Hok. unfold decodeFileKeyBytes, decodeNodeKeyBytes.
  destruct (Z.eqb_spec (Z.of_nat (length raw)) 32) as [Hl|Hl]; simpl.
  - assert (length raw = 32%nat) as Hn by lia. rewrite Hl. simpl.
    split_and!; [done|by apply fold_key_xor| |eauto].
    unfold slice. simpl. rewrite <- (take_drop 16 raw) at 1. f_equal.
    rewrite <- (take_drop 8 (drop 16 raw)) at 1. rewrite drop_drop. f_equal.
    rewrite take_ge; [done|]. rewrite length_drop. lia.
  - split_and!; [lia|done|]. intros H16. by rewrite H16.
Qed.

Lemma decode_keys_witness :
  match decodeFileKeyBytes sample_raw with
  | Ok key => length sample_raw = 32%nat
      ∧ AESKey key = xor_bytes (take 16 sample_raw) (drop 16 sample_raw)
      ∧ sample_raw = take 16 sample_raw ++ Nonce key ++ MetaMAC key
      ∧ (∃ node, decodeNodeKeyBytes sample_raw = Ok node ∧ nAESKey node = AESKey key)
  | Err e => length sample_raw ≠ 32%nat ∧ errors_is e ErrInvalidKey = true
      ∧ (length sample_raw = 16%nat →
         decodeNodeKeyBytes sample_raw = Ok (mkNodeKey sample_raw sample_raw))
  end.
Proof.
  apply (decode_keys sample_raw). by apply (bool_decide_unpack _); vm_compute.
Defined.

(** C25: verification always terminates with an answer, and the answer
    is right: for a reader that delivers at least [size] bytes it accepts
    exactly when the condensed chunked MAC of the first [size] bytes (the
    reference fold over the 128 KiB to 1 MiB chunks) is the one in the key;
    for a reader that ends early, or a negative size, it fails with the
    integrity error; and every rejection is that error. *)
Theorem VerifyIntegrity_spec E reader size key :
  ∃ r, VerifyIntegrity E reader size key = Some r
    ∧ (∀ e, r = Err e → errors_is e ErrIntegrityMismatch = true)
    ∧ (r = Ok () ↔ 0 ≤ size ≤ Z.of_nat (length reader)
         ∧ MetaMAC key =
             (if size =? 0 then replicate 8 0
              else condense (file_mac E (AESKey key) (Nonce key ++ Nonce key)
                (take (Z.to_nat size) reader)))).
Proof.
  unfold VerifyIntegrity. destruct (Z.ltb_spec size 0).
  { eexists. split_and!; [done|by intros ? [= <-]|]. split; [done|lia]. }
  destruct (Z.eqb_spec size 0) as [->|Hne].
  { eexists. split_and!; [done| |]; case_bool_decide; try done.
    - by intros ? [= <-].
    - split; [|done]. split; [lia|done].
    - split; [done|]. naive_solver. }
  destruct (integrity_loop_spec E (AESKey key) (Nonce key ++ Nonce key)
    (integrity_fuel size) reader size 1 (replicate 16 0)) as [Hlong Hshort];
    [lia|lia|left; by apply integrity_fuel_enough|].
  destruct (Z.le_gt_cases size (Z.of_nat (length reader))) as [Hle|Hgt].
  - rewrite Hlong by done. eexists. split_and!; [done| |]; case_bool_decide as Heq; try done.
    + by intros ? [= <-].
    + split; [|done]. intros _. split; [lia|]. rewrite <- Heq. unfold file_mac.
      rewrite length_take_le by lia. by rewrite Z2Nat.id by lia.
    + split; [done|]. intros [_ Hm]. destruct Heq. rewrite Hm. unfold file_mac.
      rewrite length_take_le by lia. by rewrite Z2Nat.id by lia.
  - destruct (Hshort ltac:(lia)) as (e & -> & He). eexists. split_and!; [done| |].
    + by intros ? [= <-].
    + split; [done|lia].
Qed.
