(* ===== verification/Store.v ===== *)
(** * The SQLite handle (internal/store/db.go, migrations.go, ids.go)

    The tables the program declares, one statement at a time.  [DB] carries
    the tables and the environment the handle depends on: the driver's
    scheduled failures, the identifiers [newID] will draw and the wall clock.
    Every call into the driver consumes one entry of [faults]; an entry
    [Some e] makes that call fail with [e] before it has an effect, which
    covers I/O errors, a busy database and a cancelled context. *)

From Stdlib Require Import ZArith Lia.
From stdpp Require Import base list gmap strings numbers pretty sorting.
From S2P Require Import Prelude GoStrings GoErrors.

(** ** Rows *)

(** [download_jobs]; a NULL [account_id] or [proxy_id] reads as the empty
    string ([COALESCE]). *)
Record JobRow := mkJobRow {
  jID : string;
  jSourceKind : string;
  jSourceHandle : string;
  jSourceKey : list Z;
  jSelectedPath : string;
  jSelectedNode : string;
  jDisplayName : string;
  jTotalBytes : Z;
  jAccountID : string;
  jProxyID : string;
  jDestinationSubdir : string;
  jCompleteRoot : string;
  jIncompleteRoot : string;
  jState : string;
  jCreatedAt : Z;
  jUpdatedAt : Z;
  jQuotaNextRetryAt : option Z;
  jQuotaRetryIndex : Z;
  jLastErrorCode : string;
  jLastErrorMessage : string }.

(** [download_files]. *)
Record FileRow := mkFileRow {
  fID : string;
  fJobID : string;
  fRemoteNodeID : string;
  fRemotePath : string;
  fFinalPath : string;
  fSizeBytes : Z;
  fSegmentSize : Z;
  fSegmentCount : Z;
  fBitmap : list Z;
  fBytesCommitted : Z;
  fKey : list Z;
  fPayloadURL : list Z;
  fPayloadContext : string;
  fState : string;
  fLastErrorCode : string;
  fLastErrorMessage : string;
  fCreatedAt : Z;
  fUpdatedAt : Z;
  fCompletedAt : option Z }.

(** [download_events]. *)
Record EventRow := mkEventRow {
  eID : Z;
  eJobID : string;
  eFileID : string;
  eKind : string;
  eMessage : string;
  eCreatedAt : Z }.

(** [mega_accounts]. *)
Record AccountRow := mkAccountRow {
  aID : string;
  aLabel : string;
  aEmail : string;
  aCredential : list Z;
  aSession : list Z;
  aStatus : string;
  aDefault : bool;
  aLastChecked : option Z;
  aCreatedAt : Z;
  aUpdatedAt : Z }.

(** [proxy_profiles]. *)
Record ProxyRow := mkProxyRow {
  pID : string;
  pName : string;
  pType : string;
  pHost : string;
  pPort : Z;
  pUsername : string;
  pPassword : list Z;
  pTimeout : Z;
  pEnabled : bool;
  pDefault : bool;
  pCreatedAt : Z;
  pUpdatedAt : Z }.

(** [users]. *)
Record UserRow := mkUserRow {
  uID : string;
  uUsername : string;
  uPasswordHash : list Z;
  uCreatedAt : Z;
  uUpdatedAt : Z }.

(** [sessions], keyed by their token digest. *)
Record SessionRow := mkSessionRow {
  sUserID : string;
  sExpiresAt : Z;
  sCreatedAt : Z }.

(** [settings], keyed by section name. *)
Record SettingRow := mkSettingRow {
  svJSON : list Z;
  svUpdatedAt : Z }.

(** The tables, keyed by their primary keys; [download_events] is kept in
    the order of its AUTOINCREMENT id, [event_seq] being the last one used. *)
Record Tables := mkTables {
  jobs : gmap string JobRow;
  files : gmap string FileRow;
  events : list EventRow;
  event_seq : Z;
  accounts : gmap string AccountRow;
  proxies : gmap string ProxyRow;
  users : gmap string UserRow;
  sessions : gmap (list Z) SessionRow;
  settings : gmap string SettingRow }.

(** The handle and its environment.  [constraint_failed] is the error the
    driver reports for a violated constraint. *)
Record DB := mkDB {
  tables : Tables;
  writeTransactions : Z;
  checkpointTransactions : Z;
  faults : list (option error);
  ids : list string;
  wall : Z;
  constraint_failed : error }.

#[export] Instance JobRow_eta : Eta JobRow := λ r,
  mkJobRow (jID r) (jSourceKind r) (jSourceHandle r) (jSourceKey r)
    (jSelectedPath r) (jSelectedNode r) (jDisplayName r) (jTotalBytes r)
    (jAccountID r) (jProxyID r) (jDestinationSubdir r) (jCompleteRoot r)
    (jIncompleteRoot r) (jState r) (jCreatedAt r) (jUpdatedAt r)
    (jQuotaNextRetryAt r) (jQuotaRetryIndex r) (jLastErrorCode r)
    (jLastErrorMessage r).
#[export] Instance FileRow_eta : Eta FileRow := λ r,
  mkFileRow (fID r) (fJobID r) (fRemoteNodeID r) (fRemotePath r) (fFinalPath r)
    (fSizeBytes r) (fSegmentSize r) (fSegmentCount r) (fBitmap r)
    (fBytesCommitted r) (fKey r) (fPayloadURL r) (fPayloadContext r) (fState r)
    (fLastErrorCode r) (fLastErrorMessage r) (fCreatedAt r) (fUpdatedAt r)
    (fCompletedAt r).
#[export] Instance AccountRow_eta : Eta AccountRow := λ r,
  mkAccountRow (aID r) (aLabel r) (aEmail r) (aCredential r) (aSession r)
    (aStatus r) (aDefault r) (aLastChecked r) (aCreatedAt r) (aUpdatedAt r).
#[export] Instance ProxyRow_eta : Eta ProxyRow := λ r,
  mkProxyRow (pID r) (pName r) (pType r) (pHost r) (pPort r) (pUsername r)
    (pPassword r) (pTimeout r) (pEnabled r) (pDefault r) (pCreatedAt r)
    (pUpdatedAt r).
#[export] Instance Tables_eta : Eta Tables := λ t,
  mkTables (jobs t) (files t) (events t) (event_seq t) (accounts t) (proxies t)
    (users t) (sessions t) (settings t).
#[export] Instance DB_eta : Eta DB := λ d,
  mkDB (tables d) (writeTransactions d) (checkpointTransactions d) (faults d)
    (ids d) (wall d) (constraint_failed d).

(** ** Statements and transactions *)

Abbreviation store_cmd := (cmd error DB).

(** One call into the driver: it fails as scheduled, or runs. *)
Definition driver {A} (run : DB → DB * result error A) : store_cmd A := λ d,
  match faults d with
  | Some e :: rest => (d <| faults := rest |>, Err e)
  | None :: rest => run (d <| faults := rest |>)
  | [] => run d
  end.

(** A statement reads and writes the tables, or violates a constraint. *)
Definition exec {A} (f : Tables → option (Tables * A)) : store_cmd A :=
  driver (λ d, match f (tables d) with
               | Some (t, a) => (d <| tables := t |>, Ok a)
               | None => (d, Err (constraint_failed d))
               end).

Definition query {A} (f : Tables → A) : store_cmd A :=
  exec (λ t, Some (t, f t)).

(** [result.RowsAffected()], itself a driver call. *)
Definition RowsAffected (n : Z) : store_cmd Z := driver (λ d, (d, Ok n)).

(** [n, _ := result.RowsAffected()]: a failing call reads as zero. *)
Definition rows_affected_or_zero (n : Z) : store_cmd Z :=
  r ← catch (RowsAffected n); mret (match r with Ok n => n | Err _ => 0 end).

(** A call whose error is wrapped with [fmt.Errorf("<head>: %w", err)]. *)
Definition wrapped {A} (head : string) (m : store_cmd A) : store_cmd A :=
  r ← catch m; match r with Ok a => mret a | Err e => throw (Wrapf head e) end.

Definition BeginTx : store_cmd () := driver (λ d, (d, Ok ())).
Definition Commit : store_cmd () := driver (λ d, (d, Ok ())).
Definition Rollback (t : Tables) : store_cmd () := modify (λ d, d <| tables := t |>).

(** [DB.WithTx]. *)
Definition WithTx (fn : store_cmd ()) : store_cmd () :=
  d ← get;
  let before := tables d in
  _ ← BeginTx;
  r ← catch fn;
  match r with
  | Err e => _ ← Rollback before; throw e
  | Ok _ =>
    c ← catch Commit;
    match c with
    | Err e => _ ← Rollback before; throw (Wrapf "commit transaction" e)
    | Ok _ => modify (λ d, d <| writeTransactions := writeTransactions d + 1 |>)
    end
  end.

(** [newID], drawing from the process's random source. *)
Definition newID : store_cmd string := λ d,
  match ids d with
  | id :: rest => (d <| ids := rest |>, Ok id)
  | [] => (d, Err (New "generate identifier"))
  end.

(** [when = when.UTC(); if when.IsZero() { when = time.Now().UTC() }]. *)
Definition or_now (when : Z) : store_cmd Z :=
  d ← get; mret (if when =? 0 then wall d else when).

(** ** Persisted timestamps

    A column holds [time.RFC3339Nano] text: the seconds have a fixed width
    (for the years 0 to 9999) and order as the instants do, but trailing
    zeros of the fraction are dropped, so SQL text comparison is the
    lexicographic one on [rfc3339_key]. *)

Fixpoint pad_digits (width : nat) (x : Z) : string :=
  match width with
  | O => ""
  | S w => pad_digits w (x `div` 10) +:+ FormatInt (x `mod` 10)
  end.

Fixpoint trim_zeros (fuel : nat) (s : string) : string :=
  match fuel with
  | O => s
  | S n => if HasSuffix s "0" then trim_zeros n (TrimSuffix s "0") else s
  end.

Definition rfc3339_key (t : Z) : Z * string :=
  let ns := t `mod` Second in
  (t `div` Second,
   if ns =? 0 then "Z" else "." +:+ trim_zeros 9 (pad_digits 9 ns) +:+ "Z").

Definition text_le (a b : string) : bool := String.leb a b.

Definition time_text_lt (a b : Z) : bool :=
  let (sa, fa) := rfc3339_key a in
  let (sb, fb) := rfc3339_key b in
  (sa <? sb) || ((sa =? sb) && String.ltb fa fb).

(** ** The integrity of the tables

    What the schema declares: primary keys, NOT NULL and CHECK constraints
    and foreign keys. *)

Definition job_row_ok (t : Tables) (id : string) (j : JobRow) : Prop :=
  jID j = id ∧ 0 ≤ jTotalBytes j ∧
  (jAccountID j ≠ "" → is_Some (accounts t !! jAccountID j)) ∧
  (jProxyID j ≠ "" → is_Some (proxies t !! jProxyID j)).

Definition file_row_ok (t : Tables) (id : string) (f : FileRow) : Prop :=
  fID f = id ∧ 0 ≤ fSizeBytes f ∧ 0 ≤ fSegmentCount f ∧
  0 ≤ fBytesCommitted f ∧ is_Some (jobs t !! fJobID f).

Definition event_row_ok (t : Tables) (e : EventRow) : Prop :=
  0 < eID e ≤ event_seq t ∧ is_Some (jobs t !! eJobID e) ∧
  (eFileID e ≠ "" → is_Some (files t !! eFileID e)).

Definition at_most_one {V} (def : V → bool) (m : gmap string V) : Prop :=
  ∀ i j x y, m !! i = Some x → m !! j = Some y → def x → def y → i = j.

Record tables_ok (t : Tables) : Prop := {
  ok_jobs : map_Forall (job_row_ok t) (jobs t);
  ok_files : map_Forall (file_row_ok t) (files t);
  ok_events : Forall (event_row_ok t) (events t);
  ok_event_order : StronglySorted (λ a b, eID a < eID b) (events t);
  ok_event_seq : 0 ≤ event_seq t;
  ok_accounts : map_Forall (λ id a, aID a = id) (accounts t);
  ok_proxies : map_Forall (λ id p, pID p = id) (proxies t);
  ok_default_account : at_most_one aDefault (accounts t);
  ok_default_proxy : at_most_one pDefault (proxies t) }.

Definition db_ok (d : DB) : Prop := tables_ok (tables d).

Definition empty_tables : Tables := mkTables ∅ ∅ [] 0 ∅ ∅ ∅ ∅ ∅.

(** ** Lemmas on statements and transactions *)

Lemma tables_ok_empty : tables_ok empty_tables.
Proof.
  split; simpl; [apply map_Forall_empty|apply map_Forall_empty|constructor|constructor|done
    |apply map_Forall_empty|apply map_Forall_empty| |]; intros i j x y; set_solver.
Qed.

(** [keeps I m]: every outcome of [m], failures included, keeps the table
    invariant [I]. *)
Definition keeps {A} (I : Tables → Prop) (m : store_cmd A) : Prop :=
  preserves (λ d, I (tables d)) m.

Section keeps.
Context (I : Tables → Prop).

Lemma keeps_driver {A} (run : DB → DB * result error A) :
  (∀ d, I (tables d) → I (tables (run d).1)) → keeps I (driver run).
Proof.
  intros Hrun d Hd. unfold driver.
  destruct (faults d) as [|[e|] rest]; solve [done | by apply Hrun].
Qed.

Lemma keeps_exec {A} (f : Tables → option (Tables * A)) :
  (∀ t t' a, I t → f t = Some (t', a) → I t') → keeps I (exec f).
Proof.
  intros Hf. apply keeps_driver. intros d Hd.
  destruct (f (tables d)) as [[t a]|] eqn:E; simpl; eauto.
Qed.

Lemma keeps_query {A} (f : Tables → A) : keeps I (query f).
Proof. apply keeps_exec. naive_solver. Qed.

Lemma keeps_rows n : keeps I (RowsAffected n).
Proof. by apply keeps_driver. Qed.

Lemma keeps_wrapped {A} head (m : store_cmd A) : keeps I m → keeps I (wrapped head m).
Proof.
  intros Hm. apply preserves_bind; [by apply preserves_catch|].
  intros [a|e]; [apply preserves_ret|apply preserves_throw].
Qed.

Lemma keeps_rows_or_zero n : keeps I (rows_affected_or_zero n).
Proof.
  apply preserves_bind; [apply preserves_catch, keeps_rows|].
  intros ?; apply preserves_ret.
Qed.

Lemma keeps_or_now when : keeps I (or_now when).
Proof. apply preserves_bind; [apply preserves_get|intros; apply preserves_ret]. Qed.

Lemma keeps_newID : keeps I newID.
Proof. intros d Hd. unfold newID. by destruct (ids d). Qed.

Lemma keeps_WithTx fn : keeps I fn → keeps I (WithTx fn).
Proof.
  intros Hfn d Hd. unfold WithTx, keeps, preserves, mbind, cmd_bind, catch, get in *.
  destruct (BeginTx d) as [d1 [[]|e]] eqn:E1; simpl.
  2:{ assert (tables d1 = tables d) as ->; [|done].
      unfold BeginTx, driver in E1. destruct (faults d) as [|[]]; by simplify_eq/=. }
  assert (tables d1 = tables d) as Ht.
  { unfold BeginTx, driver in E1. destruct (faults d) as [|[]]; by simplify_eq/=. }
  specialize (Hfn d1). rewrite Ht in Hfn. destruct (fn d1) as [d2 [[]|e]]; simpl in *.
  - destruct (Commit d2) as [d3 [[]|e]] eqn:E3; simpl; [|done].
    assert (tables d3 = tables d2) as ->; [|by auto].
    unfold Commit, driver in E3. destruct (faults d2) as [|[]]; by simplify_eq/=.
  - done.
Qed.
End keeps.

#[export] Hint Resolve keeps_query keeps_rows keeps_wrapped keeps_rows_or_zero
  keeps_or_now keeps_newID keeps_WithTx : megadw.

(** A transaction that fails leaves the tables as they were, whatever
    failed. *)
Lemma WithTx_err fn d d' e : WithTx fn d = (d', Err e) → tables d' = tables d.
Proof.
  unfold WithTx, mbind, cmd_bind, catch, get, Rollback, modify, throw.
  destruct (BeginTx d) as [d1 [[]|e1]] eqn:E1; intros Htx.
  - destruct (fn d1) as [d2 [[]|e2]]; simpl in Htx; [|by simplify_eq/=].
    destruct (Commit d2) as [d3 [[]|e3]]; by simplify_eq/=.
  - simplify_eq/=. unfold BeginTx, driver in E1.
    destruct (faults d) as [|[]]; by simplify_eq/=.
Qed.

(** A transaction that succeeds has run its body to success. *)
Lemma WithTx_ok fn d d' x :
  WithTx fn d = (d', Ok x) →
  ∃ d1 d2, fn d1 = (d2, Ok x) ∧ tables d1 = tables d ∧ wall d1 = wall d ∧
    ids d1 = ids d ∧ tables d' = tables d2 ∧
    writeTransactions d' = writeTransactions d2 + 1.
Proof.
  unfold WithTx, mbind, cmd_bind, catch, get, Rollback, modify, throw.
  destruct (BeginTx d) as [d1 [[]|e1]] eqn:E1; intros Htx; [|done].
  destruct x, (fn d1) as [d2 [[]|e2]] eqn:E2; simpl in Htx; [|done].
  destruct (Commit d2) as [d3 [[]|e3]] eqn:E3; simplify_eq/=.
  exists d1, d2. split; [done|].
  unfold BeginTx, Commit, driver in E1, E3.
  destruct (faults d) as [|[]], (faults d2) as [|[]]; by simplify_eq/=.
Qed.

Lemma exec_ok {A} (f : Tables → option (Tables * A)) d d' a :
  exec f d = (d', Ok a) →
  f (tables d) = Some (tables d', a) ∧ wall d' = wall d ∧ ids d' = ids d.
Proof.
  unfold exec, driver. destruct (faults d) as [|[e|] rest]; simpl; [|done|];
    (destruct (f (tables d)) as [[t b]|] eqn:?; [|done]); intros; by simplify_eq/=.
Qed.

Lemma query_ok {A} (f : Tables → A) d d' a :
  query f d = (d', Ok a) →
  a = f (tables d) ∧ tables d' = tables d ∧ wall d' = wall d ∧ ids d' = ids d.
Proof. intros [? ?]%exec_ok. naive_solver. Qed.

Lemma rows_ok n d d' k :
  RowsAffected n d = (d', Ok k) →
  k = n ∧ tables d' = tables d ∧ wall d' = wall d ∧ ids d' = ids d.
Proof.
  unfold RowsAffected, driver.
  destruct (faults d) as [|[e|] rest]; intros; by simplify_eq/=.
Qed.

Lemma wrapped_ok {A} head (m : store_cmd A) d d' a :
  wrapped head m d = (d', Ok a) → m d = (d', Ok a).
Proof.
  unfold wrapped, mbind, cmd_bind, catch.
  destruct (m d) as [d1 [b|e]]; simpl; by intros; simplify_eq/=.
Qed.

Lemma rows_zero_ok n d d' k :
  rows_affected_or_zero n d = (d', Ok k) →
  (k = n ∨ k = 0) ∧ tables d' = tables d ∧ wall d' = wall d ∧ ids d' = ids d.
Proof.
  unfold rows_affected_or_zero, mbind, cmd_bind, catch, RowsAffected, driver.
  destruct (faults d) as [|[e|] rest]; unfold mret, cmd_ret;
    intros; simplify_eq/=; (split; [auto|done]).
Qed.

Lemma or_now_ok when d d' w :
  or_now when d = (d', Ok w) → d' = d ∧ w = if when =? 0 then wall d else when.
Proof. unfold or_now, mbind, cmd_bind, mret, cmd_ret, get. by intros; simplify_eq/=. Qed.

Lemma or_now_eq when d : or_now when d = (d, Ok (if when =? 0 then wall d else when)).
Proof. done. Qed.

(** With no failure scheduled, a statement runs. *)
Lemma exec_run {A} (f : Tables → option (Tables * A)) d t a :
  faults d = [] → f (tables d) = Some (t, a) → exec f d = (d <| tables := t |>, Ok a).
Proof. intros Hd Hf. unfold exec, driver. by rewrite Hd, Hf. Qed.

(** Inversion of successful command sequences into their successful parts. *)
Ltac store_inv :=
  repeat match goal with
  | H : (_ ≫= _) _ = (_, Ok _) |- _ => apply cmd_bind_inv in H as (?&?&?&?)
  | H : (if ?b then _ else _) _ = (_, Ok _) |- _ => destruct b eqn:?; try done
  | H : mret _ _ = (_, Ok _) |- _ => unfold mret, cmd_ret in H; simplify_eq/=
  | H : throw _ _ = (_, Ok _) |- _ => by unfold throw in H
  | H : wrapped _ _ _ = (_, Ok _) |- _ => apply wrapped_ok in H
  | H : or_now _ _ = (_, Ok _) |- _ => apply or_now_ok in H as [-> ->]
  | H : RowsAffected _ _ = (_, Ok _) |- _ => apply rows_ok in H as (->&?&?&?)
  | H : query _ _ = (_, Ok _) |- _ => apply query_ok in H as (->&?&?&?)
  | H : exec _ _ = (_, Ok _) |- _ => apply exec_ok in H as (?&?&?)
  | H : get _ = (_, Ok _) |- _ => unfold get in H; simplify_eq/=
  end.

Lemma wrapped_run {A} head (m : store_cmd A) d d' a :
  m d = (d', Ok a) → wrapped head m d = (d', Ok a).
Proof. intros H. unfold wrapped, mbind, cmd_bind, catch. by rewrite H. Qed.

Lemma rows_run n d : faults d = [] → RowsAffected n d = (d, Ok n).
Proof. intros H. unfold RowsAffected, driver. by rewrite H. Qed.

Lemma rows_zero_run n d : faults d = [] → rows_affected_or_zero n d = (d, Ok n).
Proof.
  intros H. unfold rows_affected_or_zero, mbind, cmd_bind, catch. by rewrite rows_run.
Qed.

Lemma query_run {A} (f : Tables → A) d : faults d = [] → query f d = (d, Ok (f (tables d))).
Proof.
  intros H. unfold query. erewrite exec_run by done. by destruct d.
Qed.

Lemma guard_run (b : bool) (e : error) (d : DB) : b = false → guard_err b e d = (d, Ok ()).
Proof. by intros ->. Qed.

Lemma WithTx_run fn d d' :
  faults d = [] → fn d = (d', Ok ()) → faults d' = [] →
  WithTx fn d = (d' <| writeTransactions := writeTransactions d' + 1 |>, Ok ()).
Proof.
  intros Hd Hfn Hd'. unfold WithTx, mbind, cmd_bind, get, BeginTx, Commit, driver, catch.
  rewrite Hd. simpl. rewrite Hfn. simpl. by rewrite Hd'.
Qed.

(** One step of running a sequence of commands. *)
Ltac run_step :=
  match goal with
  | |- context [(mbind ?k ?m) ?d] =>
      erewrite (cmd_bind_ok m k d) by
        first [ reflexivity
              | apply guard_run; done
              | apply wrapped_run, query_run; done
              | apply query_run; done
              | apply wrapped_run, rows_run; done
              | apply rows_zero_run; done
              | apply wrapped_run, exec_run; done
              | eassumption ]
  end.
