(* ===== verification/Migrate.v ===== *)
(** * Opening the database (internal/store/db.go, internal/store/migrations.go)

    The connection, its pragmas and the migrations, each in a transaction of
    its own.  What SQLite makes of the text of a migration is a parameter; every
    statement may fail. *)

From Stdlib Require Import ZArith Lia.
From stdpp Require Import base list gmap sets strings numbers pretty.
From S2P Require Import Prelude GoStrings GoErrors.

Definition initialMigrationVersion : Z := 1.

Section migrate.
Context {Schema : Type} (script : Z → Schema → option Schema).

(** [sq_versions] is the table schema_migrations, [None] before it is created;
    [sq_open] says whether the connection is open. *)
Record SQLite := mkSQLite {
  sq_schema : Schema;
  sq_versions : option (gset Z);
  sq_pragmas : list string;
  sq_open : bool;
  sq_faults : list (option error) }.

#[global] Instance SQLite_eta : Eta SQLite := λ d,
  mkSQLite (sq_schema d) (sq_versions d) (sq_pragmas d) (sq_open d) (sq_faults d).

Notation sqlite := (cmd error SQLite).

(** A statement: it fails, or it runs and may be refused. *)
Definition statement {A} (head : string) (run : SQLite → option (SQLite * A)) : sqlite A := λ d,
  match sq_faults d with
  | Some e :: rest => (d <| sq_faults := rest |>, Err (Wrapf head e))
  | faults =>
      let d := d <| sq_faults := tail faults |> in
      match run d with Some (d, a) => (d, Ok a) | None => (d, Err (Wrapf head (New "SQL logic error"))) end
  end.

Definition create_table : sqlite () :=
  statement "create schema_migrations" (λ d, Some (d <| sq_versions := Some (default ∅ (sq_versions d)) |>, ())).
Definition applied (version : Z) : sqlite bool :=
  statement ("check migration " +:+ FormatInt version) (λ d,
    versions ← sq_versions d; Some (d, bool_decide (version ∈ versions))).
Definition run_script (version : Z) : sqlite () :=
  statement ("apply migration " +:+ FormatInt version) (λ d,
    schema ← script version (sq_schema d); Some (d <| sq_schema := schema |>, ())).
Definition record_version (version : Z) : sqlite () :=
  statement ("record migration " +:+ FormatInt version) (λ d,
    versions ← sq_versions d;
    if bool_decide (version ∈ versions) then None else Some (d <| sq_versions := Some ({[version]} ∪ versions) |>, ())).

(** Begin, the two statements, commit; whatever fails rolls both back. *)
Definition applyMigration (version : Z) : sqlite () := λ before,
  match (_ ← statement ("begin migration " +:+ FormatInt version) (λ d, Some (d, ()));
         _ ← run_script version;
         _ ← record_version version;
         statement ("commit migration " +:+ FormatInt version) (λ d, Some (d, ()))) before with
  | (d, Ok x) => (d, Ok x)
  | (d, Err e) => (d <| sq_schema := sq_schema before |> <| sq_versions := sq_versions before |>, Err e)
  end.

(** A migration that is not recorded is applied. *)
Definition run_pending (version : Z) : sqlite () :=
  found ← applied version;
  if (found : bool) then mret () else applyMigration version.

Definition migrate : sqlite () :=
  _ ← create_table;
  _ ← run_pending initialMigrationVersion;
  run_pending 2.

Definition pragmas : list string :=
  ["PRAGMA journal_mode = WAL"; "PRAGMA foreign_keys = ON"; "PRAGMA busy_timeout = 5000"; "PRAGMA synchronous = NORMAL"].

Definition set_pragma (pragma : string) : sqlite () :=
  statement ("configure SQLite (" +:+ pragma +:+ ")") (λ d, Some (d <| sq_pragmas := sq_pragmas d ++ [pragma] |>, ())).

(** [closeOnError]. *)
Definition or_close (m : sqlite ()) : sqlite () := λ d,
  match m d with (d, Err e) => (d <| sq_open := false |>, Err e) | x => x end.

(** What follows the connection. *)
Definition set_up : sqlite () :=
  _ ← or_close (for_each pragmas set_pragma);
  _ ← or_close (statement "ping SQLite" (λ d, Some (d, ())));
  or_close migrate.

(** [make_dir] and [connect] are what creating the directory and [sql.Open]
    answer. *)
Definition store_Open (path : string) (make_dir connect : result error ()) : sqlite () :=
  _ ← guard_err (bool_decide (TrimSpace path = "")) (New "database path is required");
  _ ← (if negb (bool_decide (path = ":memory:")) && negb (HasPrefix path "file:")
       then match make_dir with Ok _ => mret () | Err e => throw (Wrapf "create database directory" e) end
       else mret ());
  _ ← match connect with Ok _ => modify (λ d, d <| sq_open := true |> <| sq_pragmas := [] |>)
                       | Err e => throw (Wrapf "open SQLite database" e) end;
  set_up.

(** ** What the file holds *)

(** The schema is what the recorded migrations make of an empty database. *)
Definition consistent (empty : Schema) (d : SQLite) : Prop :=
  match sq_versions d with
  | None => sq_schema d = empty
  | Some versions =>
      (versions = ∅ ∧ sq_schema d = empty)
      ∨ (versions = {[1]} ∧ script 1 empty = Some (sq_schema d))
      ∨ (versions = {[1; 2]} ∧ (script 1 empty ≫= script 2) = Some (sq_schema d))
  end.

Definition same_file (d d' : SQLite) : Prop := sq_schema d' = sq_schema d ∧ sq_versions d' = sq_versions d.

Lemma consistent_same empty d d' : same_file d d' → consistent empty d → consistent empty d'.
Proof. intros [E1 E2]. unfold consistent. by rewrite E1, E2. Qed.

Lemma statement_cases {A} head (run : SQLite → option (SQLite * A)) d d' r :
  statement head run d = (d', r) →
  ∃ d0, same_file d d0 ∧ sq_open d0 = sq_open d ∧ sq_pragmas d0 = sq_pragmas d ∧ (sq_faults d = [] → d0 = d)
    ∧ match r with Ok a => run d0 = Some (d', a) | Err _ => d' = d0 ∧ (sq_faults d = [] → run d0 = None) end.
Proof.
  unfold statement. intros H. destruct (sq_faults d) as [|[e|] rest] eqn:Ef.
  - exists d. assert (d <| sq_faults := tail [] |> = d) as E by (destruct d; cbn in *; by subst). rewrite E in H.
    split_and!; try done. destruct (run d) as [[? ?]|] eqn:Hr; by simplify_eq.
  - exists (d <| sq_faults := rest |>). simplify_eq. by split_and!.
  - exists (d <| sq_faults := rest |>). cbn [tail] in H. split_and!; try done.
    destruct (run (d <| sq_faults := rest |>)) as [[? ?]|] eqn:Hr; simplify_eq; [done|by split].
Qed.

(** One migration: applied and recorded, or nothing. *)
Lemma applyMigration_spec version d d' r :
  applyMigration version d = (d', r) →
  sq_open d' = sq_open d ∧ sq_pragmas d' = sq_pragmas d
  ∧ (sq_faults d = [] → sq_faults d' = [])
  ∧ match r with
    | Ok _ => script version (sq_schema d) = Some (sq_schema d')
        ∧ ∃ versions, sq_versions d = Some versions ∧ sq_versions d' = Some ({[version]} ∪ versions)
    | Err _ => same_file d d' ∧ (sq_faults d = [] →
        script version (sq_schema d) = None ∨ sq_versions d = None ∨ ∃ versions, sq_versions d = Some versions ∧ version ∈ versions)
    end.
Proof.
  intros H. destruct d as [sc vs pr op fs].
  unfold applyMigration, run_script, record_version, statement, mbind, cmd_bind, option_bind in H. cbn in H.
  destruct (script version sc) as [sc'|] eqn:Es, vs as [vs|];
    try destruct (decide (version ∈ vs)) as [Hin|Hin];
    repeat first
      [ match type of H with context [bool_decide ?P] =>
          first [rewrite (bool_decide_eq_true_2 P) in H by done|rewrite (bool_decide_eq_false_2 P) in H by done] end; cbn in H
      | match type of H with context [match fs with _ => _ end] => destruct fs as [|[?|] fs]; cbn in H end
      | progress (rewrite ?Es in H; cbn in H) ];
    simplify_eq/=; (split_and!; try done; eauto 6).
Qed.

Lemma run_pending_spec version d d' r versions :
  sq_versions d = Some versions → run_pending version d = (d', r) →
  sq_open d' = sq_open d ∧ sq_pragmas d' = sq_pragmas d ∧ (sq_faults d = [] → sq_faults d' = [])
  ∧ match r with
    | Ok _ => version ∈ versions ∧ same_file d d'
        ∨ version ∉ versions ∧ script version (sq_schema d) = Some (sq_schema d') ∧ sq_versions d' = Some ({[version]} ∪ versions)
    | Err _ => same_file d d' ∧ (sq_faults d = [] → version ∉ versions ∧ script version (sq_schema d) = None)
    end.
Proof.
  intros Hv H. unfold run_pending, mbind, cmd_bind in H.
  destruct (applied version d) as [d1 r1] eqn:E1. apply statement_cases in E1 as (d0 & [S1 V1] & O1 & P1 & F1 & E1).
  destruct r1 as [found|e].
  2: { destruct E1 as [-> E1]. simplify_eq. split_and!; try done; [by intros Hf; rewrite F1|]. intros Hf. specialize (E1 Hf).
       rewrite V1, Hv in E1. done. }
  rewrite V1, Hv in E1. cbn in E1. injection E1 as <- <-. case_bool_decide as Hin.
  - unfold mret, cmd_ret in H. simplify_eq. split_and!; try done; [by intros Hf; rewrite F1|]. by left.
  - apply applyMigration_spec in H as (O2 & P2 & F2 & H). split_and!; try congruence; [by intros Hf; apply F2; rewrite F1|].
    rewrite S1, V1, Hv in H. destruct r as [[]|e].
    + right. destruct H as (Hs & vs & Hvs & Hv'). injection Hvs as <-. done.
    + destruct H as [[S2 V2] He]. split; [split; congruence|]. intros Hf. split; [done|].
      destruct He as [He|[He|(vs & He & Hi)]]; [by rewrite F1|done|done|]. injection He as <-. done.
Qed.

(** After the table exists: how many migrations are recorded. *)
Definition reached (empty : Schema) (versions : gset Z) (d : SQLite) : Prop :=
  sq_versions d = Some versions
  ∧ (versions = ∅ ∧ sq_schema d = empty
     ∨ versions = {[1]} ∧ script 1 empty = Some (sq_schema d)
     ∨ versions = {[1; 2]} ∧ (script 1 empty ≫= script 2) = Some (sq_schema d)).

Lemma reached_consistent empty versions d : reached empty versions d → consistent empty d.
Proof. intros [Hv H]. unfold consistent. by rewrite Hv. Qed.

Lemma reached_same empty versions d d' : same_file d d' → reached empty versions d → reached empty versions d'.
Proof. intros [E1 E2]. unfold reached. by rewrite E1, E2. Qed.

Lemma first_stage empty versions d d' r :
  reached empty versions d → run_pending 1 d = (d', r) →
  match r with
  | Ok _ => versions ≠ {[1; 2]} ∧ reached empty {[1]} d' ∨ reached empty {[1; 2]} d' ∧ versions = {[1; 2]} ∧ same_file d d'
  | Err _ => same_file d d' ∧ (sq_faults d = [] → script 1 empty = None)
  end.
Proof.
  intros [Hv Hst] H. eapply run_pending_spec in H as (_ & _ & _ & H); [|exact Hv]. destruct r as [[]|e].
  - unfold reached. destruct Hst as [[-> He]|[[-> He]|[-> He]]].
    + destruct H as [[? _]|(_ & Hs & Hv')]; [set_solver|]. left. split; [by apply (bool_decide_unpack _)|]. rewrite (right_id_L ∅ (∪)) in Hv'. split; [done|]. right; left. by rewrite <-He.
    + destruct H as [[_ [E1 E2]]|(Hn & _)]; [|set_solver]. left. split; [by apply (bool_decide_unpack _)|]. split; [congruence|]. right; left. by rewrite E1.
    + destruct H as [[_ [E1 E2]]|(Hn & _)]; [|set_solver]. right. split; [split; [congruence|]|by split].
      right; right. by rewrite E1.
  - destruct H as [Hs He]. split; [done|]. intros Hf. destruct (He Hf) as [Hn Hno].
    destruct Hst as [[-> E]|[[-> _]|[-> _]]]; [by rewrite E in Hno|set_solver..].
Qed.

Lemma second_stage empty versions d d' r :
  reached empty versions d → 1 ∈ versions → run_pending 2 d = (d', r) →
  match r with
  | Ok _ => reached empty {[1; 2]} d' ∧ (versions = {[1; 2]} → same_file d d')
  | Err _ => same_file d d' ∧ (sq_faults d = [] → script 1 empty ≫= script 2 = None)
  end.
Proof.
  intros [Hv Hst] H1 H. eapply run_pending_spec in H as (_ & _ & _ & H); [|exact Hv]. destruct r as [[]|e].
  - unfold reached. destruct Hst as [[-> _]|[[-> He]|[-> He]]]; [set_solver|..].
    + destruct H as [[? _]|(_ & Hs & Hv')]; [set_solver|]. rewrite (comm_L (∪)) in Hv'. split; [|set_solver].
      split; [done|]. right; right. split; [done|]. by rewrite He.
    + destruct H as [[_ [E1 E2]]|(Hn & _)]; [|set_solver]. split; [|by split]. split; [congruence|]. right; right. by rewrite E1.
  - destruct H as [Hs He]. split; [done|]. intros Hf. destruct (He Hf) as [Hn Hno].
    destruct Hst as [[-> E]|[[-> E]|[-> _]]]; [set_solver|by rewrite E|set_solver].
Qed.

Lemma run_pending_frame version d d' r : sq_versions d ≠ None → run_pending version d = (d', r) →
  sq_open d' = sq_open d ∧ sq_pragmas d' = sq_pragmas d ∧ (sq_faults d = [] → sq_faults d' = []).
Proof.
  intros Hv H. destruct (sq_versions d) as [vs|] eqn:E; [|done]. eapply run_pending_spec in H as (? & ? & ? & _); [|exact E]. done.
Qed.

Lemma create_table_reached empty d d' : consistent empty d → create_table d = (d', Ok ()) →
  ∃ versions, reached empty versions d' ∧ sq_open d' = sq_open d ∧ sq_pragmas d' = sq_pragmas d
    ∧ (sq_faults d = [] → sq_faults d' = []) ∧ sq_schema d' = sq_schema d
    ∧ (sq_versions d = Some versions ∨ sq_versions d = None ∧ versions = ∅).
Proof.
  intros Hc H. apply statement_cases in H as (d0 & [S1 V1] & O1 & P1 & F1 & H). injection H as <-.
  unfold reached, consistent in *. cbn. rewrite V1, S1. destruct (sq_versions d) as [vs|].
  - exists vs. split_and!; try done; [|by left]. intros Hf. by rewrite F1.
  - exists ∅. split_and!; try done; [by left| |by right]. intros Hf. by rewrite F1.
Qed.

(** Migrating from any consistent file, whatever fails. *)
Lemma migrate_spec empty d d' r :
  consistent empty d → migrate d = (d', r) →
  consistent empty d' ∧ sq_open d' = sq_open d ∧ sq_pragmas d' = sq_pragmas d
  ∧ (r = Ok () → reached empty {[1; 2]} d')
  ∧ (sq_versions d = Some {[1; 2]} → same_file d d')
  ∧ (is_Some (script 1 empty ≫= script 2) → sq_faults d = [] → r = Ok ()).
Proof.
  intros Hc H. unfold migrate, mbind, cmd_bind, initialMigrationVersion in H.
  destruct (create_table d) as [d1 [[]|e]] eqn:E1.
  2: { simplify_eq. apply statement_cases in E1 as (d0 & Hs & O1 & P1 & F1 & -> & E1).
       split; [by eapply consistent_same|]. split_and!; try done. intros _ Hf. by specialize (E1 Hf). }
  destruct (create_table_reached _ _ _ Hc E1) as (vs & Hr1 & O1 & P1 & F1 & S1 & Hvs). clear E1.
  destruct (run_pending 1 d1) as [d2 r2] eqn:E2.
  destruct (run_pending_frame _ _ _ _ ltac:(by rewrite (proj1 Hr1)) E2) as (O2 & P2 & F2).
  apply (first_stage empty vs) in E2; [|done].
  assert (sq_versions d = Some {[1; 2]} → vs = {[1; 2]} ∧ same_file d d1) as Hold.
  { intros Hv. destruct Hvs as [Hvs|[Hvs _]]; [|congruence]. split; [congruence|]. split; [done|]. rewrite Hvs. apply Hr1. }
  destruct r2 as [[]|e].
  2: { simplify_eq. destruct E2 as [[S2 V2] He]. split; [by eapply reached_consistent, reached_same; [split|]|]. split_and!; try congruence.
       - intros Hv. destruct (Hold Hv) as [_ []]. split; congruence.
       - intros [s Hs] Hf. rewrite He in Hs by auto. done. }
  assert (∃ vs2, reached empty vs2 d2 ∧ 1 ∈ vs2 ∧ (sq_versions d = Some {[1; 2]} → vs2 = {[1; 2]} ∧ same_file d d2)) as (vs2 & Hr2 & H12 & Hold2).
  { destruct E2 as [[Hne Hr2]|(Hr2 & -> & [S2 V2])].
    - exists {[1]}. split_and!; [done|set_solver|]. intros Hv. by destruct (Hold Hv).
    - exists {[1; 2]}. split_and!; [done|set_solver|]. intros Hv. destruct (Hold Hv) as [_ []]. split; [done|split; congruence]. }
  destruct (run_pending_frame _ _ _ _ ltac:(by rewrite (proj1 Hr2)) H) as (O3 & P3 & F3).
  apply (second_stage empty vs2) in H; [|done..]. destruct r as [[]|e].
  - destruct H as [Hr3 Hsame]. split; [by eapply reached_consistent|]. split_and!; try congruence; try done.
    intros Hv. destruct (Hold2 Hv) as [E []], (Hsame E). split; congruence.
  - destruct H as [[S3 V3] He]. split; [by eapply reached_consistent, reached_same; [split|]|]. split_and!; try congruence.
    + intros Hv. destruct (Hold2 Hv) as [_ []]. split; congruence.
    + intros [s Hs] Hf. rewrite He in Hs by auto. done.
Qed.

Lemma pragmas_spec l d d' r : for_each l set_pragma d = (d', r) →
  same_file d d' ∧ sq_open d' = sq_open d ∧ (r = Ok () → sq_pragmas d' = sq_pragmas d ++ l)
  ∧ (sq_faults d = [] → sq_faults d' = [] ∧ r = Ok ()).
Proof.
  revert d. induction l as [|p l IH]; intros d; cbn [for_each]; intros H.
  { unfold mret, cmd_ret in H. simplify_eq. split_and!; try done. intros _. by rewrite app_nil_r. }
  unfold mbind, cmd_bind in H. destruct (set_pragma p d) as [d1 r1] eqn:E1.
  apply statement_cases in E1 as (d0 & [S1 V1] & O1 & P1 & F1 & E1). destruct r1 as [[]|e].
  - injection E1 as <-. apply IH in H as ([S2 V2] & O2 & P2 & F2). cbn in S2, V2, O2, P2, F2.
    split; [split; congruence|]. split_and!; [congruence| |].
    + intros Hr. rewrite (P2 Hr), P1. by rewrite <-(assoc_L (++)).
    + intros Hf. apply F2. by rewrite F1.
  - destruct E1 as [-> E1]. simplify_eq. split_and!; try done. intros Hf. by specialize (E1 Hf).
Qed.

Lemma or_close_cases (m : sqlite ()) d d' r : or_close m d = (d', r) →
  ∃ d0, m d = (d0, r) ∧ d' = match r with Ok _ => d0 | Err _ => d0 <| sq_open := false |> end.
Proof. unfold or_close. destruct (m d) as [d0 [[]|e]]; intros H; simplify_eq; by eexists. Qed.

Lemma closed_consistent empty d : consistent empty d → consistent empty (d <| sq_open := false |>).
Proof. done. Qed.

Lemma set_up_spec empty d d' r :
  consistent empty d → sq_open d = true → sq_pragmas d = [] → set_up d = (d', r) →
  consistent empty d' ∧ (sq_open d' = true ↔ r = Ok ())
  ∧ (r = Ok () → sq_pragmas d' = pragmas ∧ reached empty {[1; 2]} d')
  ∧ (sq_versions d = Some {[1; 2]} → same_file d d')
  ∧ (is_Some (script 1 empty ≫= script 2) → sq_faults d = [] → r = Ok ()).
Proof.
  intros Hc Ho Hp H. unfold set_up, mbind, cmd_bind in H.
  destruct (or_close (for_each pragmas set_pragma) d) as [d1 r1] eqn:E1.
  apply or_close_cases in E1 as (d1' & E1 & ->). apply pragmas_spec in E1 as (S1 & O1 & P1 & F1).
  destruct r1 as [[]|e].
  2: { simplify_eq. split; [by apply closed_consistent; eapply consistent_same|]. split_and!; try done. intros _ Hf. by destruct (F1 Hf). }
  destruct (or_close (statement _ _) d1') as [d2 r2] eqn:E2.
  apply or_close_cases in E2 as (d2' & E2 & ->). apply statement_cases in E2 as (d0 & S2 & O2 & P2 & F2 & E2).
  assert (consistent empty d0) as Hc0 by (eapply consistent_same; [exact S2|]; by eapply consistent_same).
  destruct S1 as [S1 V1], S2 as [S2 V2]. destruct r2 as [[]|e].
  2: { destruct E2 as [-> E2]. simplify_eq. split; [by apply closed_consistent|]. split_and!; try done.
       - intros _. split; cbn; congruence.
       - intros _ Hf. destruct (F1 Hf) as [Hf1 _]. by specialize (E2 Hf1). }
  injection E2 as <-. apply or_close_cases in H as (d3 & H & ->). apply (migrate_spec empty) in H as (Hc3 & O3 & P3 & R3 & S3 & F3); [|done].
  split; [by destruct r as [[]|]|]. split; [|split; [|split]].
  - destruct r as [[]|e]; cbn; [|done]. split; [done|]. intros _. congruence.
  - intros ->. split; [|by apply R3]. rewrite P3, P2, (P1 eq_refl), Hp. done.
  - intros Hv. destruct S3 as [S3 V3]; [congruence|]. destruct r as [[]|e]; split; cbn; congruence.
  - intros Hs Hf. destruct (F1 Hf) as [Hf1 _]. apply F3; [done|]. by rewrite F2.
Qed.

Lemma store_Open_cases empty path make_dir connect d d' r :
  consistent empty d → sq_open d = false → store_Open path make_dir connect d = (d', r) →
  consistent empty d' ∧ (sq_open d' = true ↔ r = Ok ())
  ∧ (r = Ok () → sq_pragmas d' = pragmas ∧ reached empty {[1; 2]} d')
  ∧ (sq_versions d = Some {[1; 2]} → same_file d d')
  ∧ (is_Some (script 1 empty ≫= script 2) → sq_faults d = [] → TrimSpace path ≠ "" → make_dir = Ok () → connect = Ok () → r = Ok ()).
Proof.
  intros Hc Ho H. unfold store_Open, mbind, cmd_bind in H.
  assert (∀ e, r = Err e → d' = d → consistent empty d' ∧ (sq_open d' = true ↔ r = Ok ())
    ∧ (r = Ok () → sq_pragmas d' = pragmas ∧ reached empty {[1; 2]} d') ∧ (sq_versions d = Some {[1; 2]} → same_file d d')) as Hfail.
  { intros e -> ->. split_and!; try done. by rewrite Ho. }
  unfold guard_err, throw, mret, cmd_ret, modify in H. case_bool_decide as Hpath.
  { injection H as <- <-. destruct (Hfail _ eq_refl eq_refl) as (? & ? & ? & ?). split_and!; naive_solver. }
  destruct (if negb _ && negb _ then _ else _) as [d0 [[]|e]] eqn:E; [|].
  - assert (d0 = d) as ->. { destruct (negb _ && negb _); [destruct make_dir|]; by simplify_eq. }
    destruct connect as [[]|e].
    + apply (set_up_spec empty) in H as (? & ? & ? & ? & ?); [by split_and!; auto|done..].
    + injection H as <- <-. destruct (Hfail _ eq_refl eq_refl) as (? & ? & ? & ?). by split_and!.
  - injection H as <- <-. assert (d0 = d ∧ make_dir ≠ Ok ()) as [-> Hmk].
    { destruct (negb _ && negb _); [destruct make_dir|]; by simplify_eq. }
    destruct (Hfail _ eq_refl eq_refl) as (? & ? & ? & ?). by split_and!.
Qed.

(** C24: Whatever statements fail, opening leaves the database file consistent: its
    schema is what the recorded migrations make of an empty one.  A database that
    is opened has every pragma set and both migrations, and after a failure its
    connection is closed; a file that has both migrations is not touched, so that
    none is ever applied twice; and without failures opening succeeds from
    wherever an earlier attempt stopped. *)
Theorem store_Open_consistent empty path make_dir connect d d' r :
  consistent empty d → sq_open d = false → store_Open path make_dir connect d = (d', r) →
  consistent empty d' ∧ (sq_open d' = true ↔ r = Ok ())
  ∧ (r = Ok () → sq_pragmas d' = pragmas ∧ reached empty {[1; 2]} d')
  ∧ (sq_versions d = Some {[1; 2]} → same_file d d')
  ∧ (is_Some (script 1 empty ≫= script 2) → sq_faults d = [] → TrimSpace path ≠ "" → make_dir = Ok () → connect = Ok () → r = Ok ()).
Proof. apply store_Open_cases. Qed.
End migrate.

(** A second migration that fails leaves the first; the next attempt finishes. *)
Definition append_version (version : Z) (schema : list Z) : option (list Z) := Some (schema ++ [version]).
Definition new_file (faults : list (option error)) : SQLite (Schema := list Z) := mkSQLite [] None [] false faults.

Example interrupted_migration :
  let d := (store_Open append_version "/data/megadw.db" (Ok ()) (Ok ()) (new_file (replicate 13 None ++ [Some (New "disk full")]))).1 in
  sq_schema d = [1] ∧ sq_versions d = Some {[1]} ∧ sq_open d = false
  ∧ sq_schema (store_Open append_version "/data/megadw.db" (Ok ()) (Ok ()) d).1 = [1; 2].
Proof. vm_compute. by split_and!. Qed.

Lemma store_Open_consistent_witness :
  let d := new_file [] in
  consistent append_version [] d ∧ sq_open d = false
  ∧ consistent append_version [] (store_Open append_version "/data/megadw.db" (Ok ()) (Ok ()) d).1.
Proof.
  split; [done|]. split; [done|].
  exact (proj1 (store_Open_consistent append_version [] "/data/megadw.db" (Ok ()) (Ok ()) (new_file [])
    _ _ eq_refl eq_refl (surjective_pairing _))).
Defined.
