(* ===== verification/StoreDownloads.v ===== *)
(** * Download persistence (internal/store/downloads.go)

    Every operation of the download repository as statements over the tables
    of [Store], with the transaction boundaries of the code. *)

From Stdlib Require Import ZArith Lia.
From stdpp Require Import base list gmap strings numbers pretty sorting.
From S2P Require Import Prelude GoStrings GoErrors JobState Store.

(** ** Data *)

Record DownloadFileInput := mkFileInput {
  fiID : string;
  fiRemoteNodeID : string;
  fiRemotePath : string;
  fiFinalPath : string;
  fiSizeBytes : Z;
  fiSegmentSize : Z;
  fiSegmentCount : Z;
  fiKey : list Z;
  fiPayloadURL : list Z;
  fiPayloadContext : string;
  fiState : string }.

Record DownloadJobInput := mkJobInput {
  jiID : string;
  jiSourceKind : string;
  jiSourceHandle : string;
  jiSourceKey : list Z;
  jiSelectedPath : string;
  jiSelectedNode : string;
  jiDisplayName : string;
  jiTotalBytes : Z;
  jiAccountID : string;
  jiProxyID : string;
  jiDestinationSubdir : string;
  jiCompleteRoot : string;
  jiIncompleteRoot : string;
  jiState : string;
  jiCreatedAt : Z;
  jiUpdatedAt : Z;
  jiFiles : list DownloadFileInput }.

(** The record handed to callers: the job row, its files in id order, the
    sum of their committed bytes and, on the detail path, its events. *)
Record DownloadJobRecord := mkRecord {
  rJob : JobRow;
  rFiles : list FileRow;
  rBytesCommitted : Z;
  rEvents : list EventRow }.

#[export] Instance DownloadJobRecord_eta : Eta DownloadJobRecord := λ r,
  mkRecord (rJob r) (rFiles r) (rBytesCommitted r) (rEvents r).

Record DownloadFileCheckpoint := mkCheckpointRow {
  cpFileID : string;
  cpBitmap : list Z;
  cpBytesCommitted : Z;
  cpState : string;
  cpLastErrorCode : string;
  cpLastErrorMessage : string;
  cpUpdatedAt : Z }.

Record DownloadFileStateUpdate := mkStateUpdate {
  suFileID : string;
  suState : string;
  suLastErrorCode : string;
  suLastErrorMessage : string;
  suUpdatedAt : Z }.

(** ** Statements *)

Definition file_id_le (f g : FileRow) : Prop := text_le (fID f) (fID g) = true.
#[export] Instance file_id_le_dec : RelDecision file_id_le.
Proof. intros f g. unfold file_id_le. apply _. Defined.

(** [SELECT ... FROM download_files WHERE job_id = ? ORDER BY id]. *)
Definition files_of (t : Tables) (id : string) : list FileRow :=
  merge_sort file_id_le
    (filter (λ f, fJobID f = id) (map_to_list (files t)).*2).

Definition job_order (a b : JobRow) : Prop :=
  time_text_lt (jCreatedAt a) (jCreatedAt b) = true ∨
  (time_text_lt (jCreatedAt b) (jCreatedAt a) = false ∧
   text_le (jID a) (jID b) = true).
#[export] Instance job_order_dec : RelDecision job_order.
Proof. intros a b. unfold job_order. apply _. Defined.

Definition insert_job_row (j : JobRow) (t : Tables) : option (Tables * ()) :=
  if bool_decide (is_Some (jobs t !! jID j)) || (jTotalBytes j <? 0)
     || (bool_decide (jAccountID j ≠ "") && bool_decide (accounts t !! jAccountID j = None))
     || (bool_decide (jProxyID j ≠ "") && bool_decide (proxies t !! jProxyID j = None))
  then None
  else Some (t <| jobs := <[jID j := j]> (jobs t) |>, ()).

Definition insert_file_row (f : FileRow) (t : Tables) : option (Tables * ()) :=
  if bool_decide (is_Some (files t !! fID f)) || (fSizeBytes f <? 0)
     || (fSegmentCount f <? 0) || (fBytesCommitted f <? 0)
     || bool_decide (jobs t !! fJobID f = None)
  then None
  else Some (t <| files := <[fID f := f]> (files t) |>, ()).

(** [UPDATE ... WHERE id = ?] with the number of rows it affected.  An empty
    bitmap is a value here: the bitmap of a file without segments is a nil slice
    (planner.go [Bitmap.Clone]), and the model takes the driver to bind it as an
    empty BLOB, which the NOT NULL of [completed_segments_bitmap] allows. *)
Definition update_job_row (id : string) (g : JobRow → JobRow) (t : Tables)
    : option (Tables * Z) :=
  match jobs t !! id with
  | Some j => Some (t <| jobs := <[id := g j]> (jobs t) |>, 1)
  | None => Some (t, 0)
  end.

Definition update_file_row (id : string) (g : FileRow → FileRow) (t : Tables)
    : option (Tables * Z) :=
  match files t !! id with
  | Some f =>
    if fBytesCommitted (g f) <? 0 then None
    else Some (t <| files := <[id := g f]> (files t) |>, 1)
  | None => Some (t, 0)
  end.

(** [DELETE FROM download_jobs WHERE id = ?]; files and events reference the
    job, and events their file, [ON DELETE CASCADE].  This, like the foreign keys
    of the inserts, is the behaviour of a connection on which [Open] has set
    [PRAGMA foreign_keys = ON]. *)
Definition delete_job_row (id : string) (t : Tables) : option (Tables * Z) :=
  match jobs t !! id with
  | Some _ =>
    Some (t <| jobs := delete id (jobs t) |>
            <| files := filter (λ kf, fJobID kf.2 ≠ id) (files t) |>
            <| events := filter (λ e, eJobID e ≠ id ∧
                 fJobID <$> files t !! eFileID e ≠ Some id) (events t) |>, 1)
  | None => Some (t, 0)
  end.

Definition insert_event_row (jobID fileID kind message : string) (when : Z)
    (t : Tables) : option (Tables * ()) :=
  if bool_decide (jobs t !! jobID = None)
     || (bool_decide (fileID ≠ "") && bool_decide (files t !! fileID = None))
  then None
  else
    let id := event_seq t + 1 in
    Some (t <| events := events t ++ [mkEventRow id jobID fileID kind message when] |>
            <| event_seq := id |>, ()).

(** [SELECT id ... WHERE job_id = ? ORDER BY id DESC LIMIT n]. *)
Definition newest_events (n : nat) (jobID : string) (t : Tables) : list EventRow :=
  take n (reverse (filter (λ e, eJobID e = jobID) (events t))).

Definition trim_event_rows (jobID : string) (t : Tables) : option (Tables * ()) :=
  let keep := eID <$> newest_events 500 jobID t in
  Some (t <| events := filter (λ e, ¬ (eJobID e = jobID ∧ eID e ∉ keep)) (events t) |>, ()).

Definition recover_job_row (when : Z) (j : JobRow) : JobRow :=
  if bool_decide (jState j ∈ ["resolving"; "downloading"; "finalizing"])
  then j <| jState := "paused_recovery" |> <| jUpdatedAt := when |> else j.

Definition recover_file_row (t : Tables) (when : Z) (f : FileRow) : FileRow :=
  if bool_decide (fState f ∈ ["downloading"; "verifying"])
     && bool_decide (jState <$> jobs t !! fJobID f = Some "paused_recovery")
  then f <| fState := "paused" |> <| fUpdatedAt := when |> else f.

(** ** Operations *)

Definition file_row_of_input (jobID : string) (when updated : Z)
    (f : DownloadFileInput) : FileRow :=
  mkFileRow (fiID f) jobID (fiRemoteNodeID f) (fiRemotePath f) (fiFinalPath f)
    (fiSizeBytes f) (fiSegmentSize f) (fiSegmentCount f) [] 0 (fiKey f)
    (fiPayloadURL f) (fiPayloadContext f)
    (if bool_decide (fiState f = "") then "pending" else fiState f)
    "" "" when updated None.

Definition job_row_of_input (i : DownloadJobInput) (id : string) (when updated : Z)
    : JobRow :=
  mkJobRow id (jiSourceKind i) (jiSourceHandle i) (jiSourceKey i)
    (jiSelectedPath i) (jiSelectedNode i) (jiDisplayName i) (jiTotalBytes i)
    (jiAccountID i) (jiProxyID i) (jiDestinationSubdir i) (jiCompleteRoot i)
    (jiIncompleteRoot i)
    (if bool_decide (jiState i = "") then "ready" else jiState i)
    when updated None 0 "" "".

#[export] Instance DownloadFileInput_eta : Eta DownloadFileInput := λ f,
  mkFileInput (fiID f) (fiRemoteNodeID f) (fiRemotePath f) (fiFinalPath f)
    (fiSizeBytes f) (fiSegmentSize f) (fiSegmentCount f) (fiKey f)
    (fiPayloadURL f) (fiPayloadContext f) (fiState f).

Definition id_or_new (id : string) : store_cmd string :=
  if bool_decide (id = "") then newID else mret id.

Definition insert_file (jobID : string) (when updated : Z) (file : DownloadFileInput)
    : store_cmd () :=
  id ← id_or_new (fiID file);
  _ ← guard_err (bool_decide (fiKey file = []))
        (New ("file " +:+ quote (fiRemoteNodeID file) +:+ " has no encrypted key"));
  wrapped ("insert download file " +:+ quote (fiRemoteNodeID file))
    (exec (insert_file_row (file_row_of_input jobID when updated (file <| fiID := id |>)))).

Definition sum_committed (fs : list FileRow) : Z :=
  foldl (λ acc f, wrap64 (acc + fBytesCommitted f)) 0 fs.

Definition GetDownloadJob (id : string) : store_cmd DownloadJobRecord :=
  row ← wrapped "read download job" (query (λ t, jobs t !! id));
  match row with
  | None => throw (Sentinel ErrNotFound)
  | Some j =>
    fs ← wrapped "read download files" (query (λ t, files_of t id));
    _ ← wrapped "read download file rows" (query (λ _, ()));
    mret (mkRecord j fs (sum_committed fs) [])
  end.

Definition InsertDownloadJob (input : DownloadJobInput) : store_cmd DownloadJobRecord :=
  id ← id_or_new (jiID input);
  _ ← guard_err (bool_decide (jiFiles input = []))
        (New "download job must contain at least one file");
  _ ← guard_err (bool_decide (jiSourceKind input = "")
                 || bool_decide (jiSourceHandle input = "")
                 || bool_decide (jiSourceKey input = []))
        (New "download source is incomplete");
  when ← or_now (jiCreatedAt input);
  let updated := if jiUpdatedAt input =? 0 then when else jiUpdatedAt input in
  _ ← WithTx (
    _ ← wrapped "insert download job"
          (exec (insert_job_row (job_row_of_input input id when updated)));
    for_each (jiFiles input) (insert_file id when updated));
  GetDownloadJob id.

Definition ListDownloadEvents (jobID : string) (limit : Z) : store_cmd (list EventRow) :=
  let limit := if (limit <=? 0) || (500 <? limit) then 200 else limit in
  items ← wrapped "list download events"
            (query (newest_events (Z.to_nat limit) jobID));
  _ ← wrapped "read download event rows" (query (λ _, ()));
  mret (reverse items).

Definition GetDownloadJobDetail (id : string) : store_cmd DownloadJobRecord :=
  r ← GetDownloadJob id;
  evs ← ListDownloadEvents id 200;
  mret (r <| rEvents := evs |>).

Definition DeleteDownloadJob (id : string) : store_cmd () :=
  n ← wrapped ("delete download job " +:+ quote id) (exec (delete_job_row id));
  affected ← wrapped ("check deleted download job " +:+ quote id) (RowsAffected n);
  guard_err (bool_decide (affected ≠ 1)) (Sentinel ErrNotFound).

Fixpoint get_jobs (ids : list string) : store_cmd (list DownloadJobRecord) :=
  match ids with
  | [] => mret []
  | id :: rest => r ← GetDownloadJob id; rs ← get_jobs rest; mret (r :: rs)
  end.

Definition ListDownloadJobs : store_cmd (list DownloadJobRecord) :=
  rows ← wrapped "list download jobs"
           (query (λ t, merge_sort job_order (map_to_list (jobs t)).*2));
  _ ← wrapped "list download job rows" (query (λ _, ()));
  _ ← wrapped "close download job rows" (query (λ _, ()));
  get_jobs (jID <$> rows).

(** The check every single-row update ends with. *)
Definition expect_one (check subject : string) (n : Z) : store_cmd () :=
  affected ← wrapped check (RowsAffected n);
  guard_err (bool_decide (affected ≠ 1)) (Wrapf subject (Sentinel ErrNotFound)).

Definition checkpoint_file (update : DownloadFileCheckpoint) : store_cmd () :=
  _ ← guard_err (bool_decide (cpFileID update = ""))
        (New "checkpoint file id is required");
  when ← or_now (cpUpdatedAt update);
  let state := if bool_decide (cpState update = "") then "downloading" else cpState update in
  n ← wrapped ("checkpoint download file " +:+ quote (cpFileID update))
        (exec (update_file_row (cpFileID update) (λ f,
           f <| fBitmap := cpBitmap update |>
             <| fBytesCommitted := cpBytesCommitted update |>
             <| fState := state |>
             <| fLastErrorCode := cpLastErrorCode update |>
             <| fLastErrorMessage := cpLastErrorMessage update |>
             <| fUpdatedAt := when |>)));
  _ ← expect_one ("check checkpoint file " +:+ quote (cpFileID update))
        ("checkpoint file " +:+ quote (cpFileID update)) n;
  _ ← wrapped ("update checkpoint job for file " +:+ quote (cpFileID update))
        (exec (λ t, match files t !! cpFileID update with
                    | Some f => update_job_row (fJobID f) (λ j, j <| jUpdatedAt := when |>) t
                    | None => Some (t, 0)
                    end));
  mret ().

Definition CheckpointDownloadFiles (updates : list DownloadFileCheckpoint) : store_cmd () :=
  if bool_decide (updates = []) then mret ()
  else
    _ ← WithTx (for_each updates checkpoint_file);
    modify (λ d, d <| checkpointTransactions := checkpointTransactions d + 1 |>).

Definition UpdateDownloadFileState (update : DownloadFileStateUpdate) : store_cmd () :=
  when ← or_now (suUpdatedAt update);
  n ← wrapped ("update download file " +:+ quote (suFileID update))
        (exec (update_file_row (suFileID update) (λ f,
           f <| fState := suState update |>
             <| fLastErrorCode := suLastErrorCode update |>
             <| fLastErrorMessage := suLastErrorMessage update |>
             <| fUpdatedAt := when |>)));
  expect_one ("check download file update " +:+ quote (suFileID update))
    ("download file " +:+ quote (suFileID update)) n.

Definition PrepareDownloadFileMove (fileID finalRelativePath : string) (when : Z)
    : store_cmd () :=
  when ← or_now when;
  n ← wrapped ("prepare download file move " +:+ quote fileID)
        (exec (update_file_row fileID (λ f,
           f <| fFinalPath := finalRelativePath |>
             <| fState := "moving" |>
             <| fUpdatedAt := when |>)));
  expect_one ("check prepared download file move " +:+ quote fileID)
    ("download file " +:+ quote fileID) n.

Definition CompleteDownloadFile (fileID finalRelativePath : string) (when : Z)
    : store_cmd () :=
  when ← or_now when;
  n ← wrapped ("complete download file " +:+ quote fileID)
        (exec (update_file_row fileID (λ f,
           f <| fFinalPath := finalRelativePath |>
             <| fState := "completed" |>
             <| fCompletedAt := Some when |>
             <| fBytesCommitted := fSizeBytes f |>
             <| fLastErrorCode := "" |>
             <| fLastErrorMessage := "" |>
             <| fUpdatedAt := when |>)));
  expect_one ("check completed download file " +:+ quote fileID)
    ("download file " +:+ quote fileID) n.

Definition SetDownloadJobState (jobID state : string) (when : Z) : store_cmd () :=
  when ← or_now when;
  n ← wrapped ("update download job " +:+ quote jobID)
        (exec (update_job_row jobID (λ j,
           j <| jState := state |> <| jUpdatedAt := when |>)));
  expect_one ("check download job update " +:+ quote jobID)
    ("download job " +:+ quote jobID) n.

Definition SetDownloadQuotaState (jobID state code message : string)
    (next : option Z) (retryIndex when : Z) : store_cmd () :=
  when ← or_now when;
  n ← wrapped ("update quota state " +:+ quote jobID)
        (exec (update_job_row jobID (λ j,
           j <| jState := state |>
             <| jQuotaNextRetryAt := next |>
             <| jQuotaRetryIndex := retryIndex |>
             <| jLastErrorCode := code |>
             <| jLastErrorMessage := message |>
             <| jUpdatedAt := when |>)));
  affected ← rows_affected_or_zero n;
  guard_err (bool_decide (affected ≠ 1))
    (Wrapf ("download job " +:+ quote jobID) (Sentinel ErrNotFound)).

Definition ClearDownloadQuotaState (jobID state : string) (when : Z) : store_cmd () :=
  SetDownloadQuotaState jobID state "" "" None 0 when.

Definition UpdateDownloadPayloadURL (fileID : string) (ciphertext : list Z) (when : Z)
    : store_cmd () :=
  when ← or_now when;
  n ← wrapped ("update payload URL " +:+ quote fileID)
        (exec (update_file_row fileID (λ f,
           f <| fPayloadURL := ciphertext |> <| fUpdatedAt := when |>)));
  affected ← rows_affected_or_zero n;
  guard_err (bool_decide (affected ≠ 1))
    (Wrapf ("download file " +:+ quote fileID) (Sentinel ErrNotFound)).

Definition MarkDownloadsForRecovery (when : Z) : store_cmd () :=
  when ← or_now when;
  WithTx (
    _ ← wrapped "mark download jobs for recovery"
          (exec (λ t, Some (t <| jobs := recover_job_row when <$> jobs t |>, ())));
    wrapped "mark download files for recovery"
      (exec (λ t, Some (t <| files := recover_file_row t when <$> files t |>, ())))).

Definition AddDownloadEvent (jobID fileID kind message : string) (when : Z)
    : store_cmd () :=
  _ ← guard_err (bool_decide (jobID = "") || bool_decide (kind = ""))
        (New "download event job and kind are required");
  when ← or_now when;
  _ ← wrapped "insert download event"
        (exec (insert_event_row jobID fileID kind message when));
  wrapped "trim download events" (exec (trim_event_rows jobID)).

(** ** Lemmas: the schema's integrity *)

Lemma tables_ok_update_jobs t m :
  tables_ok t →
  map_Forall (job_row_ok t) m →
  (∀ id, is_Some (jobs t !! id) → is_Some (m !! id)) →
  tables_ok (t <| jobs := m |>).
Proof.
  intros [] Hm Hdom. split; simpl; try done.
  - intros id f Hf. destruct (ok_files id f Hf) as (?&?&?&?&?). repeat split; auto.
  - eapply Forall_impl; [exact ok_events|]. intros e (?&?&?). repeat split; simpl; auto; lia.
Qed.

Lemma tables_ok_update_files t m :
  tables_ok t →
  map_Forall (file_row_ok t) m →
  (∀ id, is_Some (files t !! id) → is_Some (m !! id)) →
  tables_ok (t <| files := m |>).
Proof.
  intros [] Hm Hdom. split; simpl; try done.
  eapply Forall_impl; [exact ok_events|]. intros e (?&?&?). repeat split; simpl; auto; lia.
Qed.

Lemma is_Some_insert_other {V} (m : gmap string V) i v id :
  is_Some (m !! id) → is_Some (<[i:=v]> m !! id).
Proof. rewrite lookup_insert_is_Some. destruct (decide (i = id)); naive_solver. Qed.

Lemma is_Some_fmap {V} (g : V → V) (m : gmap string V) id :
  is_Some (m !! id) → is_Some ((g <$> m) !! id).
Proof. by rewrite lookup_fmap, fmap_is_Some. Qed.

#[local] Hint Resolve is_Some_insert_other is_Some_fmap : core.

(** A checked optional reference resolves. *)
Lemma reference_checked {V} (m : gmap string V) k :
  bool_decide (k ≠ "") && bool_decide (m !! k = None) = false →
  k ≠ "" → is_Some (m !! k).
Proof.
  intros [H|H]%andb_false_iff; apply bool_decide_eq_false in H; [done|].
  intros _. by apply not_eq_None_Some.
Qed.

Lemma insert_job_row_ok t t' j a :
  tables_ok t → insert_job_row j t = Some (t', a) → tables_ok t'.
Proof.
  intros Hok. unfold insert_job_row.
  destruct (_ || _) eqn:Ec; [done|]; intros; simplify_eq/=. bool_to_prop.
  apply tables_ok_update_jobs; [done| |eauto].
  apply map_Forall_insert_2; [|by apply ok_jobs]. split; [done|]. split; [done|].
  split; by apply reference_checked.
Qed.

Lemma insert_file_row_ok t t' f a :
  tables_ok t → insert_file_row f t = Some (t', a) → tables_ok t'.
Proof.
  intros Hok. unfold insert_file_row. intros. case_ifs.
  apply tables_ok_update_files; [done| |eauto].
  apply map_Forall_insert_2; [|by apply ok_files]. repeat split; try lia.
  destruct (jobs t !! fJobID f); naive_solver.
Qed.

(** An update that leaves the columns the schema constrains alone. *)
Definition job_update_safe (g : JobRow → JobRow) : Prop := ∀ j,
  jID (g j) = jID j ∧ jTotalBytes (g j) = jTotalBytes j ∧
  jAccountID (g j) = jAccountID j ∧ jProxyID (g j) = jProxyID j.

Definition file_update_safe (g : FileRow → FileRow) : Prop := ∀ f,
  fID (g f) = fID f ∧ fJobID (g f) = fJobID f ∧
  fSizeBytes (g f) = fSizeBytes f ∧ fSegmentCount (g f) = fSegmentCount f.

Lemma job_row_ok_update t g id j :
  job_update_safe g → job_row_ok t id j → job_row_ok t id (g j).
Proof. intros Hg. destruct (Hg j) as (e1&e2&e3&e4). unfold job_row_ok. by rewrite e1, e2, e3, e4. Qed.

Lemma file_row_ok_update t g id f :
  file_update_safe g → 0 ≤ fBytesCommitted (g f) → file_row_ok t id f → file_row_ok t id (g f).
Proof.
  intros Hg ?. destruct (Hg f) as (e1&e2&e3&e4). unfold file_row_ok.
  rewrite e1, e2, e3, e4. tauto.
Qed.

Lemma update_job_row_ok t t' id g a :
  job_update_safe g → tables_ok t → update_job_row id g t = Some (t', a) → tables_ok t'.
Proof.
  intros Hg Hok. unfold update_job_row. destruct (jobs t !! id) as [j|] eqn:Ej;
    intros; simplify_eq/=; [|done].
  apply tables_ok_update_jobs; [done| |eauto].
  apply map_Forall_insert_2; [|by apply ok_jobs].
  apply job_row_ok_update; [done|]. by apply ok_jobs.
Qed.

Lemma update_file_row_ok t t' id g a :
  file_update_safe g → tables_ok t → update_file_row id g t = Some (t', a) → tables_ok t'.
Proof.
  intros Hg Hok. unfold update_file_row. destruct (files t !! id) as [f|] eqn:Ef;
    intros; [|by simplify_eq/=]. case_ifs.
  apply tables_ok_update_files; [done| |eauto].
  apply map_Forall_insert_2; [|by apply ok_files].
  apply file_row_ok_update; [done|lia|]. by apply ok_files.
Qed.

Lemma StronglySorted_filter_ev (P : EventRow → Prop) `{!∀ e, Decision (P e)} l :
  StronglySorted (λ a b, eID a < eID b) l →
  StronglySorted (λ a b, eID a < eID b) (filter P l).
Proof.
  induction 1 as [|e l Hs IH He]; [constructor|]. rewrite filter_cons.
  case_decide; [|done]. constructor; [done|].
  apply Forall_forall. intros x [_ Hx]%list_elem_of_filter.
  by eapply Forall_forall in He.
Qed.

Lemma delete_job_row_ok t t' id a :
  tables_ok t → delete_job_row id t = Some (t', a) → tables_ok t'.
Proof.
  intros Hok. unfold delete_job_row. destruct (jobs t !! id) as [j|] eqn:Ej;
    intros; simplify_eq/=; [|done]. destruct Hok. split; simpl; try done.
  - by apply map_Forall_delete.
  - intros i f [Hf Hj]%map_lookup_filter_Some. simpl in Hj.
    destruct (ok_files i f Hf) as (?&?&?&?&?).
    split_and!; try done. simpl. by rewrite lookup_delete_ne by done.
  - apply Forall_forall. intros e [[He Hfe] Hin]%list_elem_of_filter.
    eapply Forall_forall in ok_events as (?&?&Hfile); [|done].
    split; [done|]. simpl. split; [by rewrite lookup_delete_ne by done|].
    intros Hne. destruct (Hfile Hne) as [f Hf]. exists f.
    apply map_lookup_filter_Some. split; [done|]. simpl.
    rewrite Hf in Hfe. simpl in Hfe. congruence.
  - by apply StronglySorted_filter_ev.
Qed.

Lemma insert_event_row_ok t t' jobID fileID kind message when a :
  tables_ok t → insert_event_row jobID fileID kind message when t = Some (t', a) →
  tables_ok t'.
Proof.
  intros Hok. unfold insert_event_row. destruct (_ || _) eqn:Ec; [done|].
  intros; simplify_eq/=. bool_to_prop. destruct Hok. split; simpl; try done; [| |lia].
  - apply Forall_app. split.
    + eapply Forall_impl; [exact ok_events|]. intros e (?&?&?). split_and!; simpl; auto; lia.
    + constructor; [|done]. split_and!; simpl; try lia.
      * by apply not_eq_None_Some.
      * by apply reference_checked.
  - apply StronglySorted_app. split_and!; [|done|by repeat constructor].
    intros x y Hx Hy. apply list_elem_of_singleton in Hy as ->. simpl.
    eapply Forall_forall in ok_events as (?&_); [|done]. lia.
Qed.

Lemma tables_ok_filter_events t (P : EventRow → Prop) `{!∀ e, Decision (P e)} :
  tables_ok t → tables_ok (t <| events := filter P (events t) |>).
Proof.
  intros []. split; simpl; try done.
  - apply Forall_forall. intros e [_ He]%list_elem_of_filter.
    by eapply Forall_forall in ok_events.
  - by apply StronglySorted_filter_ev.
Qed.

Lemma recover_jobs_ok t when :
  tables_ok t → tables_ok (t <| jobs := recover_job_row when <$> jobs t |>).
Proof.
  intros Hok. apply tables_ok_update_jobs; [done| |eauto].
  intros id j'. rewrite lookup_fmap. intros (j&Hj&->)%fmap_Some.
  apply job_row_ok_update; [|by apply ok_jobs].
  intros j0. unfold recover_job_row. by case_match.
Qed.

Lemma recover_files_ok t when :
  tables_ok t → tables_ok (t <| files := recover_file_row t when <$> files t |>).
Proof.
  intros Hok. apply tables_ok_update_files; [done| |eauto].
  intros id f'. rewrite lookup_fmap. intros (f&Hf&->)%fmap_Some.
  apply (ok_files t Hok) in Hf. apply file_row_ok_update; [| |done].
  - intros f0. unfold recover_file_row. by case_match.
  - destruct Hf as (?&?&?&?&?). unfold recover_file_row. by case_match.
Qed.

(** ** Lemmas: every operation keeps the tables' integrity *)

Lemma keeps_exec_ok {A} (f : Tables → option (Tables * A)) :
  (∀ t t' a, tables_ok t → f t = Some (t', a) → tables_ok t') → keeps tables_ok (exec f).
Proof. apply keeps_exec. Qed.

(** Commands are taken apart at their binds; the side conditions left are
    the statements' own. *)
Ltac keeps_step :=
  match goal with
  | |- keeps _ (_ ≫= _) => apply preserves_bind; [|intros ?]
  | |- preserves _ (_ ≫= _) => apply preserves_bind; [|intros ?]
  | |- preserves (λ d, ?I (tables d)) ?m => change (keeps I m)
  | |- keeps _ (wrapped _ _) => apply keeps_wrapped
  | |- keeps _ (WithTx _) => apply keeps_WithTx
  | |- keeps _ (or_now _) => apply keeps_or_now
  | |- keeps _ newID => apply keeps_newID
  | |- keeps _ (query _) => apply keeps_query
  | |- keeps _ (RowsAffected _) => apply keeps_rows
  | |- keeps _ (rows_affected_or_zero _) => apply keeps_rows_or_zero
  | |- keeps _ (mret _) => apply preserves_ret
  | |- keeps _ (throw _) => apply preserves_throw
  | |- keeps _ get => apply preserves_get
  | |- keeps _ (modify _) => apply preserves_modify; by intros ? ?
  | |- keeps _ (guard_err _ _) => unfold guard_err
  | |- keeps _ (id_or_new _) => unfold id_or_new
  | |- keeps _ (expect_one _ _ _) => unfold expect_one
  | |- keeps _ (if _ then _ else _) => case_match
  | |- keeps _ (match _ with _ => _ end) => case_match
  end.

Lemma keeps_for_each {A} I (l : list A) (f : A → store_cmd ()) :
  (∀ x, keeps I (f x)) → keeps I (for_each l f).
Proof. intros Hf. induction l; simpl; repeat keeps_step; auto. Qed.

Lemma keeps_update_file I id g :
  (∀ t t' a, I t → update_file_row id g t = Some (t', a) → I t') →
  keeps I (exec (update_file_row id g)).
Proof. intros. by apply keeps_exec. Qed.

#[local] Hint Resolve insert_job_row_ok insert_file_row_ok delete_job_row_ok
  insert_event_row_ok : core.

Ltac keeps_update :=
  apply keeps_exec_ok; intros ????;
  first [apply update_file_row_ok|apply update_job_row_ok]; done.

Lemma GetDownloadJob_keeps I id : keeps I (GetDownloadJob id).
Proof. unfold GetDownloadJob. by repeat keeps_step. Qed.

Lemma keeps_id_or_new I id : keeps I (id_or_new id).
Proof. by repeat keeps_step. Qed.

Lemma InsertDownloadJob_keeps input : keeps tables_ok (InsertDownloadJob input).
Proof.
  unfold InsertDownloadJob. repeat keeps_step; eauto using GetDownloadJob_keeps.
  - apply keeps_exec_ok; eauto.
  - apply keeps_for_each. intros f. unfold insert_file. repeat keeps_step.
    apply keeps_exec_ok; eauto.
Qed.

Lemma DeleteDownloadJob_keeps id : keeps tables_ok (DeleteDownloadJob id).
Proof. unfold DeleteDownloadJob. repeat keeps_step. apply keeps_exec_ok; eauto. Qed.

Lemma CheckpointDownloadFiles_keeps updates :
  keeps tables_ok (CheckpointDownloadFiles updates).
Proof.
  unfold CheckpointDownloadFiles. repeat keeps_step. apply keeps_for_each.
  intros u. unfold checkpoint_file. repeat keeps_step; [keeps_update|].
  apply keeps_exec_ok. intros t t' n Hok. case_match; [|naive_solver].
  by apply update_job_row_ok.
Qed.

Lemma UpdateDownloadFileState_keeps update :
  keeps tables_ok (UpdateDownloadFileState update).
Proof. unfold UpdateDownloadFileState. repeat keeps_step. keeps_update. Qed.

Lemma PrepareDownloadFileMove_keeps id path when :
  keeps tables_ok (PrepareDownloadFileMove id path when).
Proof. unfold PrepareDownloadFileMove. repeat keeps_step. keeps_update. Qed.

Lemma CompleteDownloadFile_keeps id path when :
  keeps tables_ok (CompleteDownloadFile id path when).
Proof. unfold CompleteDownloadFile. repeat keeps_step. keeps_update. Qed.

Lemma SetDownloadJobState_keeps id state when :
  keeps tables_ok (SetDownloadJobState id state when).
Proof. unfold SetDownloadJobState. repeat keeps_step. keeps_update. Qed.

Lemma SetDownloadQuotaState_keeps id state code message next index when :
  keeps tables_ok (SetDownloadQuotaState id state code message next index when).
Proof. unfold SetDownloadQuotaState. repeat keeps_step. keeps_update. Qed.

Lemma UpdateDownloadPayloadURL_keeps id c when :
  keeps tables_ok (UpdateDownloadPayloadURL id c when).
Proof. unfold UpdateDownloadPayloadURL. repeat keeps_step. keeps_update. Qed.

Lemma MarkDownloadsForRecovery_keeps when :
  keeps tables_ok (MarkDownloadsForRecovery when).
Proof.
  unfold MarkDownloadsForRecovery. repeat keeps_step; apply keeps_exec_ok; intros; simplify_eq/=.
  - by apply recover_jobs_ok.
  - by apply recover_files_ok.
Qed.

Lemma AddDownloadEvent_keeps jobID fileID kind message when :
  keeps tables_ok (AddDownloadEvent jobID fileID kind message when).
Proof.
  unfold AddDownloadEvent. repeat keeps_step; apply keeps_exec_ok; [eauto|].
  unfold trim_event_rows. intros; simplify_eq/=. by apply tables_ok_filter_events.
Qed.

#[export] Hint Resolve GetDownloadJob_keeps InsertDownloadJob_keeps
  DeleteDownloadJob_keeps CheckpointDownloadFiles_keeps
  UpdateDownloadFileState_keeps PrepareDownloadFileMove_keeps
  CompleteDownloadFile_keeps SetDownloadJobState_keeps
  SetDownloadQuotaState_keeps UpdateDownloadPayloadURL_keeps
  MarkDownloadsForRecovery_keeps AddDownloadEvent_keeps : megadw.

(** ** Lemmas: what successful operations did *)

Section checkpoint.
Context (now : Z).

(** The row a checkpoint writes. *)
Definition checkpoint_row (u : DownloadFileCheckpoint) (f : FileRow) : FileRow :=
  f <| fBitmap := cpBitmap u |>
    <| fBytesCommitted := cpBytesCommitted u |>
    <| fState := if bool_decide (cpState u = "") then "downloading" else cpState u |>
    <| fLastErrorCode := cpLastErrorCode u |>
    <| fLastErrorMessage := cpLastErrorMessage u |>
    <| fUpdatedAt := if cpUpdatedAt u =? 0 then now else cpUpdatedAt u |>.

(** The row of file [id] after a list of checkpoints: the last one wins. *)
Definition row_after (updates : list DownloadFileCheckpoint) (id : string)
    (row : option FileRow) : option FileRow :=
  match last (filter (λ u, cpFileID u = id) updates) with
  | Some u => checkpoint_row u <$> row
  | None => row
  end.

Lemma checkpoint_row_twice u v f :
  checkpoint_row u (checkpoint_row v f) = checkpoint_row u f.
Proof. done. Qed.

Lemma row_after_cons u updates id row :
  row_after (u :: updates) id row =
  row_after updates id (if decide (cpFileID u = id) then checkpoint_row u <$> row else row).
Proof.
  unfold row_after. rewrite filter_cons. case_decide; [|done].
  rewrite last_cons. destruct (last _); [|done].
  destruct row; simpl; [|done]. by rewrite checkpoint_row_twice.
Qed.
End checkpoint.

(** A job row up to its timestamp. *)
Definition untimed (j : JobRow) : JobRow := j <| jUpdatedAt := 0 |>.

Lemma update_file_row_some id g t t' n :
  update_file_row id g t = Some (t', n) → n = 1 →
  ∃ f, files t !! id = Some f ∧ t' = t <| files := <[id := g f]> (files t) |> ∧
       0 ≤ fBytesCommitted (g f).
Proof.
  unfold update_file_row. destruct (files t !! id) as [f|]; [|naive_solver].
  case_match; intros; simplify_eq/=. bool_to_prop. eauto.
Qed.

Lemma update_job_row_some id g t t' n :
  update_job_row id g t = Some (t', n) → n = 1 →
  ∃ j, jobs t !! id = Some j ∧ t' = t <| jobs := <[id := g j]> (jobs t) |>.
Proof.
  unfold update_job_row. destruct (jobs t !! id) as [j|]; [|naive_solver].
  intros; simplify_eq/=. eauto.
Qed.

Lemma guard_ok (b : bool) (e : error) (d d' : DB) u :
  guard_err b e d = (d', Ok u) → b = false ∧ d' = d.
Proof. unfold guard_err, throw, mret, cmd_ret. destruct b; naive_solver. Qed.

Lemma expect_one_ok check subject n d d' u :
  expect_one check subject n d = (d', Ok u) →
  n = 1 ∧ tables d' = tables d ∧ wall d' = wall d ∧ ids d' = ids d.
Proof.
  unfold expect_one. intros. store_inv. apply guard_ok in H0 as [? ->].
  bool_to_prop. split_and!; try done. destruct (decide (n = 1)); done.
Qed.

(** [store_inv] on the operations' common ends as well. *)
Ltac op_inv :=
  repeat (store_inv;
    try match goal with
    | H : guard_err _ _ _ = (_, Ok _) |- _ => apply guard_ok in H as [? ->]
    | H : expect_one _ _ _ _ = (_, Ok _) |- _ => apply expect_one_ok in H as (->&?&?&?)
    end); bool_to_prop.

(** Replaces every intermediate state's tables by what they are equal to. *)
Ltac use_tables :=
  repeat match goal with E : tables ?x = _ |- _ => rewrite E in *; clear E end;
  simpl in *.

Lemma checkpoint_file_ok u d d' x :
  checkpoint_file u d = (d', Ok x) →
  wall d' = wall d ∧ is_Some (files (tables d) !! cpFileID u) ∧
  (∀ id, files (tables d') !! id =
         if decide (cpFileID u = id)
         then checkpoint_row (wall d) u <$> files (tables d) !! id
         else files (tables d) !! id) ∧
  untimed <$> jobs (tables d') = untimed <$> jobs (tables d) ∧
  events (tables d') = events (tables d).
Proof.
  unfold checkpoint_file. intros H. op_inv.
  apply update_file_row_some in H1 as (f&Hf&Ht&_); [|done].
  use_tables. rewrite lookup_insert_eq in H0.
  assert (∀ id, (<[cpFileID u := checkpoint_row (wall d) u f]> (files (tables d))) !! id =
     if decide (cpFileID u = id) then checkpoint_row (wall d) u <$> files (tables d) !! id
     else files (tables d) !! id) as Hfiles.
  { intros id. destruct (decide (cpFileID u = id)) as [<-|].
    - by rewrite lookup_insert_eq, Hf.
    - by rewrite lookup_insert_ne by done. }
  unfold update_job_row in H0. simpl in H0.
  split; [congruence|]. split; [by rewrite Hf|].
  destruct (jobs (tables d) !! fJobID f) as [j|] eqn:Ej; simplify_eq/=;
    rewrite <- H0; simpl; split_and!; try done.
  rewrite fmap_insert. apply insert_id. by rewrite lookup_fmap, Ej.
Qed.

Lemma checkpoints_ok updates d d' x :
  for_each updates checkpoint_file d = (d', Ok x) →
  wall d' = wall d ∧
  Forall (λ u, is_Some (files (tables d) !! cpFileID u)) updates ∧
  (∀ id, files (tables d') !! id =
         row_after (wall d) updates id (files (tables d) !! id)) ∧
  untimed <$> jobs (tables d') = untimed <$> jobs (tables d) ∧
  events (tables d') = events (tables d).
Proof.
  revert d. induction updates as [|u updates IH]; intros d; simpl; intros H; op_inv.
  - split_and!; [done|constructor|by unfold row_after|done|done].
  - apply checkpoint_file_ok in H as (Hw&Hu&Hf&Hj&He).
    apply IH in H0 as (Hw'&Hus&Hf'&Hj'&He').
    split_and!; try congruence.
    + constructor; [done|]. eapply Forall_impl; [exact Hus|]. intros v Hv.
      simpl in Hv. rewrite Hf in Hv. case_decide; [by apply fmap_is_Some in Hv|done].
    + intros id. rewrite Hf', Hw, Hf, row_after_cons. by case_decide.
Qed.

Lemma expect_one_run check subject d :
  faults d = [] → expect_one check subject 1 d = (d, Ok ()).
Proof. intros H. unfold expect_one. by run_step. Qed.

Lemma update_file_row_run id g t f :
  files t !! id = Some f → 0 ≤ fBytesCommitted (g f) →
  update_file_row id g t = Some (t <| files := <[id := g f]> (files t) |>, 1).
Proof.
  intros Hf Hb. unfold update_file_row. rewrite Hf.
  by replace (fBytesCommitted (g f) <? 0) with false by (symmetry; by apply Z.ltb_ge).
Qed.

Lemma update_job_row_run id g t j :
  jobs t !! id = Some j →
  update_job_row id g t = Some (t <| jobs := <[id := g j]> (jobs t) |>, 1).
Proof. intros Hj. unfold update_job_row. by rewrite Hj. Qed.

(** A single-row update of a file, run to completion. *)
Lemma update_file_run head check subject id g d f :
  faults d = [] → files (tables d) !! id = Some f → 0 ≤ fBytesCommitted (g f) →
  (n ← wrapped head (exec (update_file_row id g)); expect_one check subject n) d =
  (d <| tables := tables d <| files := <[id := g f]> (files (tables d)) |> |>, Ok ()).
Proof.
  intros Hd Hf Hb. erewrite cmd_bind_ok
    by (by apply wrapped_run, exec_run, update_file_row_run).
  by apply expect_one_run.
Qed.

Lemma update_job_run head check subject id g d j :
  faults d = [] → jobs (tables d) !! id = Some j →
  (n ← wrapped head (exec (update_job_row id g)); expect_one check subject n) d =
  (d <| tables := tables d <| jobs := <[id := g j]> (jobs (tables d)) |> |>, Ok ()).
Proof.
  intros Hd Hj. erewrite cmd_bind_ok
    by (by apply wrapped_run, exec_run, update_job_row_run).
  by apply expect_one_run.
Qed.

Lemma checkpoint_file_run u d f :
  faults d = [] → cpFileID u ≠ "" → files (tables d) !! cpFileID u = Some f →
  0 ≤ cpBytesCommitted u →
  ∃ d', checkpoint_file u d = (d', Ok ()) ∧ faults d' = [].
Proof.
  intros Hd Hu Hf Hb. unfold checkpoint_file.
  erewrite cmd_bind_ok by (apply guard_run; by apply bool_decide_eq_false).
  erewrite cmd_bind_ok by apply or_now_eq.
  erewrite cmd_bind_ok by (by apply wrapped_run, exec_run, update_file_row_run).
  erewrite cmd_bind_ok by (by apply expect_one_run).
  destruct (jobs (tables d) !! fJobID f) as [j|] eqn:Ej.
  all: erewrite cmd_bind_ok; last
    (apply wrapped_run, exec_run; [done|]; simpl; rewrite lookup_insert_eq; simpl;
     unfold update_job_row; simpl; by rewrite Ej).
  all: by eexists.
Qed.

Lemma checkpoints_run updates d :
  faults d = [] →
  Forall (λ u, cpFileID u ≠ "" ∧ is_Some (files (tables d) !! cpFileID u) ∧
               0 ≤ cpBytesCommitted u) updates →
  ∃ d', for_each updates checkpoint_file d = (d', Ok ()) ∧ faults d' = [].
Proof.
  revert d. induction updates as [|u updates IH]; intros d Hd Hus; [by exists d|].
  apply Forall_cons in Hus as [(Hid&[f Hf]&Hb) Hus].
  destruct (checkpoint_file_run u d f) as (d1&H1&Hd1); try done.
  destruct (IH d1) as (d2&H2&Hd2); [done| |].
  - eapply Forall_impl; [exact Hus|]. intros v (?&?&?). split_and!; try done.
    apply checkpoint_file_ok in H1 as (_&_&Hrow&_). rewrite Hrow.
    case_decide; [by apply fmap_is_Some|done].
  - exists d2. simpl. by erewrite cmd_bind_ok by done.
Qed.

Lemma recover_job_state when j :
  jState (recover_job_row when j) ∉ ["resolving"; "downloading"; "finalizing"].
Proof.
  unfold recover_job_row. case_bool_decide; [|done]. simpl. set_solver.
Qed.

Lemma recover_job_idle when j :
  jState j ∉ ["resolving"; "downloading"; "finalizing"] → recover_job_row when j = j.
Proof. intros. unfold recover_job_row. by rewrite bool_decide_eq_false_2. Qed.

Lemma recover_file_idle t t' w1 w2 f :
  jobs t = jobs t' →
  recover_file_row t w2 (recover_file_row t' w1 f) = recover_file_row t' w1 f.
Proof.
  intros Hj. unfold recover_file_row at 2 3. destruct (_ && _) eqn:E.
  - done.
  - unfold recover_file_row. by rewrite Hj, E.
Qed.

Lemma fmap_id_on {V} (g : V → V) (m : gmap string V) :
  (∀ id x, m !! id = Some x → g x = x) → g <$> m = m.
Proof.
  intros Hg. apply map_eq. intros id. rewrite lookup_fmap.
  destruct (m !! id) eqn:E; [|done]. simpl. f_equal. eauto.
Qed.

(** The tables recovery leaves behind. *)
Definition recovered (when : Z) (t : Tables) : Tables :=
  let t1 := t <| jobs := recover_job_row when <$> jobs t |> in
  t1 <| files := recover_file_row t1 when <$> files t1 |>.

Lemma MarkDownloadsForRecovery_ok when d d' x :
  MarkDownloadsForRecovery when d = (d', Ok x) →
  tables d' = recovered (if when =? 0 then wall d else when) (tables d).
Proof.
  unfold MarkDownloadsForRecovery. intros H. op_inv.
  apply WithTx_ok in H0 as (d1&d2&H&Ht&_&_&Ht'&_). op_inv. simplify_eq/=. use_tables.
  by rewrite <- H0, <- H.
Qed.

Lemma MarkDownloadsForRecovery_err when d d' e :
  MarkDownloadsForRecovery when d = (d', Err e) → tables d' = tables d.
Proof.
  unfold MarkDownloadsForRecovery. intros H.
  erewrite cmd_bind_ok in H by apply or_now_eq. by eapply WithTx_err.
Qed.

Lemma recovered_idempotent w1 w2 t : recovered w2 (recovered w1 t) = recovered w1 t.
Proof.
  set (t' := recovered w1 t).
  assert (recover_job_row w2 <$> jobs t' = jobs t') as Hj.
  { apply fmap_id_on. intros id j Hid. unfold t', recovered in Hid. simpl in Hid.
    rewrite lookup_fmap in Hid. apply fmap_Some in Hid as (j0&_&->).
    apply recover_job_idle, recover_job_state. }
  assert (recover_file_row (t' <| jobs := jobs t' |>) w2 <$> files t' = files t') as Hf.
  { apply fmap_id_on. intros id f Hid. unfold t', recovered in Hid. simpl in Hid.
    rewrite lookup_fmap in Hid. apply fmap_Some in Hid as (f0&_&->).
    by apply recover_file_idle. }
  transitivity (t' <| jobs := jobs t' |> <| files := files t' |>); [|by destruct t'].
  change (recovered w2 t') with
    (let t1 := t' <| jobs := recover_job_row w2 <$> jobs t' |> in
     t1 <| files := recover_file_row t1 w2 <$> files t' |>).
  rewrite Hj. cbv zeta. by rewrite Hf.
Qed.

(** The row an inserted file ends up with, once it has an id. *)
Definition inserted (jobID : string) (when updated : Z) (f : DownloadFileInput)
    (row : FileRow) : Prop :=
  row = file_row_of_input jobID when updated (f <| fiID := fID row |>) ∧
  (fiID f ≠ "" → fID row = fiID f) ∧ fiKey f ≠ [].

Definition add_rows (rows : list FileRow) (m : gmap string FileRow) : gmap string FileRow :=
  foldl (λ m row, <[fID row := row]> m) m rows.

Lemma id_or_new_ok id d d' id' :
  id_or_new id d = (d', Ok id') →
  (id ≠ "" → id' = id) ∧ tables d' = tables d ∧ wall d' = wall d.
Proof.
  unfold id_or_new, newID. intros H. case_bool_decide.
  - by destruct (ids d); simplify_eq/=.
  - unfold mret, cmd_ret in H. by simplify_eq/=.
Qed.

Lemma insert_file_row_some f t t' x :
  insert_file_row f t = Some (t', x) →
  files t !! fID f = None ∧ t' = t <| files := <[fID f := f]> (files t) |>.
Proof.
  unfold insert_file_row. destruct (_ || _) eqn:E; [done|]. intros; simplify_eq/=.
  bool_to_prop. split; [by apply eq_None_not_Some|done].
Qed.

Lemma insert_job_row_some j t t' x :
  insert_job_row j t = Some (t', x) →
  jobs t !! jID j = None ∧ t' = t <| jobs := <[jID j := j]> (jobs t) |>.
Proof.
  unfold insert_job_row. destruct (_ || _) eqn:E; [done|]. intros; simplify_eq/=.
  bool_to_prop. split; [by apply eq_None_not_Some|done].
Qed.

Lemma insert_file_ok jobID when updated f d d' x :
  insert_file jobID when updated f d = (d', Ok x) →
  ∃ row, inserted jobID when updated f row ∧ files (tables d) !! fID row = None ∧
    tables d' = tables d <| files := <[fID row := row]> (files (tables d)) |> ∧
    wall d' = wall d.
Proof.
  unfold insert_file. intros H. op_inv. apply id_or_new_ok in H as (Hid&Ht&Hw).
  apply insert_file_row_some in H1 as [Hnone Hd'].
  exists (file_row_of_input jobID when updated (f <| fiID := x0 |>)).
  rewrite <- Ht. split_and!; try done. congruence.
Qed.

Lemma insert_files_ok jobID when updated l d d' x :
  for_each l (insert_file jobID when updated) d = (d', Ok x) →
  ∃ rows, Forall2 (inserted jobID when updated) l rows ∧ NoDup (fID <$> rows) ∧
    (∀ row, row ∈ rows → files (tables d) !! fID row = None) ∧
    tables d' = tables d <| files := add_rows rows (files (tables d)) |>.
Proof.
  revert d. induction l as [|f l IH]; intros d; simpl; intros H; op_inv.
  - exists []. split_and!; [constructor|constructor|set_solver|by destruct (tables d')].
  - apply insert_file_ok in H as (row&Hrow&Hnew&Ht&_).
    apply IH in H0 as (rows&Hrows&Hnd&Hnone&Ht').
    assert (∀ r, r ∈ rows → fID r ≠ fID row ∧ files (tables d) !! fID r = None) as Hr.
    { intros r Hr. specialize (Hnone r Hr). rewrite Ht in Hnone. simpl in Hnone.
      by apply lookup_insert_None in Hnone as [? ?]. }
    exists (row :: rows). split_and!.
    + by constructor.
    + rewrite fmap_cons. constructor; [|done].
      intros (r&Hid&Hin)%list_elem_of_fmap. by apply Hr in Hin as [? _].
    + intros r [->|Hin]%elem_of_cons; [done|]. by apply Hr.
    + by rewrite Ht', Ht.
Qed.

Lemma lookup_add_rows rows m id :
  NoDup (fID <$> rows) →
  (∀ row, row ∈ rows → m !! fID row = None) →
  ∀ row, add_rows rows m !! id = Some row ↔
         (row ∈ rows ∧ fID row = id) ∨ (m !! id = Some row).
Proof.
  revert m. induction rows as [|r rows IH]; intros m; simpl.
  { intros _ _ row. set_solver. }
  rewrite NoDup_cons. intros [Hr Hnd] Hnone row. rewrite IH; [|done|].
  2:{ intros r' Hin. rewrite lookup_insert_ne; [apply Hnone; set_solver|].
      intros Heq. apply Hr. rewrite Heq. apply list_elem_of_fmap. eauto. }
  rewrite lookup_insert_Some. split.
  - intros [[]|[[<- <-]|[]]]; set_solver.
  - intros [[[->|Hin]%elem_of_cons Hid]|Hm]; [by right; left|by left; split|].
    right; right. split; [|done]. intros Heq. specialize (Hnone r ltac:(set_solver)).
    congruence.
Qed.

(** Reading a job: its row, with its files. *)
Lemma GetDownloadJob_ok id d d' r :
  GetDownloadJob id d = (d', Ok r) →
  jobs (tables d) !! id = Some (rJob r) ∧ rFiles r = files_of (tables d) id ∧
  rBytesCommitted r = sum_committed (rFiles r) ∧ rEvents r = [] ∧
  tables d' = tables d ∧ wall d' = wall d.
Proof.
  unfold GetDownloadJob. intros H. op_inv.
  destruct (jobs (tables d) !! id) as [j|] eqn:Ej; [|done]. op_inv.
  split_and!; try done; congruence.
Qed.

Lemma GetDownloadJob_run id d :
  faults d = [] →
  GetDownloadJob id d =
  match jobs (tables d) !! id with
  | Some j => (d, Ok (mkRecord j (files_of (tables d) id)
                        (sum_committed (files_of (tables d) id)) []))
  | None => (d, Err (Sentinel ErrNotFound))
  end.
Proof.
  intros Hd. unfold GetDownloadJob.
  erewrite cmd_bind_ok by (by apply wrapped_run, query_run). simpl.
  destruct (jobs (tables d) !! id) as [j|]; [|done].
  erewrite cmd_bind_ok by (by apply wrapped_run, query_run).
  erewrite cmd_bind_ok by (by apply wrapped_run, query_run). done.
Qed.

(** [files_of] lists exactly the rows of the job, once each, in id order. *)
Lemma elem_of_files_of t id f :
  f ∈ files_of t id ↔ ∃ k, files t !! k = Some f ∧ fJobID f = id.
Proof.
  unfold files_of. rewrite merge_sort_Permutation, list_elem_of_filter.
  rewrite list_elem_of_fmap. split.
  - intros [? ([k g]&->&Hin)]. apply elem_of_map_to_list in Hin. eauto.
  - intros (k&Hf&?). split; [done|]. exists (k, f). by rewrite elem_of_map_to_list.
Qed.

Lemma files_of_NoDup t id :
  map_Forall (λ k f, fID f = k) (files t) → NoDup (files_of t id).
Proof.
  intros Hk. unfold files_of. rewrite merge_sort_Permutation.
  apply NoDup_filter, (NoDup_fmap_1 fID).
  replace (fID <$> (map_to_list (files t)).*2) with ((map_to_list (files t)).*1).
  - apply NoDup_fst_map_to_list.
  - rewrite <- list_fmap_compose. apply list_fmap_ext. intros i [k f] Hin.
    simpl. symmetry. apply Hk, elem_of_map_to_list. by eapply list_elem_of_lookup_2.
Qed.

#[export] Instance file_id_le_total : Total file_id_le.
Proof. intros f g. apply String.leb_total. Qed.

Lemma keyed_add_rows rows m :
  NoDup (fID <$> rows) → (∀ row, row ∈ rows → m !! fID row = None) →
  map_Forall (λ k f, fID f = k) m → map_Forall (λ k f, fID f = k) (add_rows rows m).
Proof.
  intros Hnd Hnone Hm k f. rewrite lookup_add_rows by done. intros [[_ ?]|Hf]; [done|].
  by apply Hm.
Qed.

Lemma files_of_add_rows t t' rows id :
  NoDup (fID <$> rows) → (∀ row, row ∈ rows → files t !! fID row = None) →
  map_Forall (λ k f, fID f = k) (files t) → files t' = add_rows rows (files t) →
  files_of t' id ≡ₚ filter (λ f, fJobID f = id) rows ++ files_of t id.
Proof.
  intros Hnd Hnone Hk Ht'. apply NoDup_Permutation.
  - apply files_of_NoDup. rewrite Ht'. by apply keyed_add_rows.
  - apply NoDup_app. split_and!.
    + by apply NoDup_filter, (NoDup_fmap_1 fID).
    + intros f [_ Hf]%list_elem_of_filter (k&Hin&_)%elem_of_files_of.
      specialize (Hnone f Hf). rewrite (Hk k f Hin) in Hnone. congruence.
    + by apply files_of_NoDup.
  - intros f. rewrite elem_of_app, !elem_of_files_of, list_elem_of_filter, Ht'.
    setoid_rewrite lookup_add_rows; try done. naive_solver.
Qed.

Lemma inserted_job jobID when updated l rows row :
  Forall2 (inserted jobID when updated) l rows → row ∈ rows →
  fJobID row = jobID ∧ fBytesCommitted row = 0 ∧ fBitmap row = [].
Proof.
  intros Hall Hin. apply list_elem_of_lookup_1 in Hin as [i Hi].
  eapply Forall2_lookup_r in Hall as (f&_&->&_&_); done.
Qed.

(** The events of a job, oldest first, and the last [n] elements of a list. *)
Definition events_of (t : Tables) (id : string) : list EventRow :=
  filter (λ e, eJobID e = id) (events t).
Definition lastn {A} (n : nat) (l : list A) : list A := reverse (take n (reverse l)).

Lemma lastn_split {A} n (l : list A) : l = reverse (drop n (reverse l)) ++ lastn n l.
Proof. unfold lastn. by rewrite <- reverse_app, take_drop, reverse_involutive. Qed.

Lemma length_lastn {A} n (l : list A) : (length (lastn n l) ≤ n)%nat.
Proof. unfold lastn. rewrite length_reverse, length_take. lia. Qed.

Lemma filter_lastn_ids n l :
  NoDup (eID <$> l) →
  filter (λ e, eID e ∈ eID <$> take n (reverse l)) l = lastn n l.
Proof.
  intros Hnd. rewrite (lastn_split n l) in Hnd. rewrite fmap_app in Hnd.
  apply NoDup_app in Hnd as (_&Hdisj&_).
  assert (∀ e, eID e ∈ eID <$> take n (reverse l) ↔ eID e ∈ eID <$> lastn n l) as Hin.
  { intros e. unfold lastn. by rewrite fmap_reverse, elem_of_reverse. }
  transitivity (filter (λ e, eID e ∈ eID <$> take n (reverse l))
                  (reverse (drop n (reverse l)) ++ lastn n l));
    [by rewrite <- lastn_split|].
  rewrite filter_app, filter_none, filter_all.
  - done.
  - intros e He. apply Hin, list_elem_of_fmap. eauto.
  - intros e He Hk%Hin. apply (Hdisj (eID e)); [|done]. apply list_elem_of_fmap. eauto.
Qed.

Lemma events_NoDup l : StronglySorted (λ a b, eID a < eID b) l → NoDup (eID <$> l).
Proof.
  induction 1 as [|e l Hs IH He]; [constructor|]. rewrite fmap_cons. constructor; [|done].
  intros (e'&Heq&Hin)%list_elem_of_fmap. eapply Forall_forall in He; [|done]. lia.
Qed.

Lemma trim_event_rows_some id t t' x :
  StronglySorted (λ a b, eID a < eID b) (events t) →
  trim_event_rows id t = Some (t', x) →
  events_of t' id = lastn 500 (events_of t id) ∧
  (∀ id', id' ≠ id → events_of t' id' = events_of t id').
Proof.
  intros Hs H. unfold trim_event_rows, newest_events in H. simplify_eq/=. split.
  - unfold events_of. simpl. rewrite <- filter_lastn_ids.
    2:{ apply events_NoDup. by apply StronglySorted_filter_ev. }
    rewrite !list_filter_filter. apply list_filter_iff. intros e. split.
    + intros [Hj Hn]. split; [|done]. apply dec_stable. naive_solver.
    + intros [Hk Hj]. split; [done|]. naive_solver.
  - intros id' Hne. unfold events_of. simpl. rewrite list_filter_filter.
    apply list_filter_iff. naive_solver.
Qed.

Lemma CheckpointDownloadFiles_ok updates d d' x :
  CheckpointDownloadFiles updates d = (d', Ok x) →
  Forall (λ u, is_Some (files (tables d) !! cpFileID u)) updates ∧
  (∀ id, files (tables d') !! id =
         row_after (wall d) updates id (files (tables d) !! id)) ∧
  untimed <$> jobs (tables d') = untimed <$> jobs (tables d) ∧
  events (tables d') = events (tables d).
Proof.
  unfold CheckpointDownloadFiles. intros H. case_bool_decide as Hnil.
  { unfold mret, cmd_ret in H; simplify_eq/=. split_and!; try done; by unfold row_after. }
  op_inv. apply WithTx_ok in H as (d1&d2&H&Ht&Hw&_&Ht'&_).
  apply checkpoints_ok in H as (_&Hus&Hf&Hj&He). unfold modify in H0; simplify_eq/=.
  rewrite Ht in *. rewrite Hw in *. by rewrite Ht'.
Qed.

Lemma CheckpointDownloadFiles_err updates d d' e :
  CheckpointDownloadFiles updates d = (d', Err e) → tables d' = tables d.
Proof.
  unfold CheckpointDownloadFiles. intros H. case_bool_decide as Hnil.
  { unfold mret, cmd_ret in H; simplify_eq/=. }
  destruct (WithTx (for_each updates checkpoint_file) d) as [d1 [[]|e1]] eqn:Etx.
  - by erewrite cmd_bind_ok in H by done.
  - erewrite cmd_bind_err in H by done. simplify_eq/=. by eapply WithTx_err.
Qed.

(** ** Theorems *)

(** C38: a checkpoint of several files is one transaction.  Whatever
    fails, nothing is written; when it succeeds, every named file exists and
    carries its last checkpoint (bitmap, byte count, state and diagnostic),
    every other file is untouched and of the jobs only the timestamps moved.
    Without driver failures a checkpoint of existing files succeeds. *)
Theorem CheckpointDownloadFiles_atomic updates d d' r :
  CheckpointDownloadFiles updates d = (d', r) →
  match r with
  | Err _ => tables d' = tables d
  | Ok _ =>
    Forall (λ u, is_Some (files (tables d) !! cpFileID u)) updates ∧
    (∀ id, files (tables d') !! id =
           row_after (wall d) updates id (files (tables d) !! id)) ∧
    untimed <$> jobs (tables d') = untimed <$> jobs (tables d) ∧
    events (tables d') = events (tables d)
  end ∧
  (faults d = [] →
   Forall (λ u, cpFileID u ≠ "" ∧ is_Some (files (tables d) !! cpFileID u) ∧
                0 ≤ cpBytesCommitted u) updates → r = Ok ()).
Proof.
  intros H. split; [destruct r as [[]|e]|].
  - by eapply CheckpointDownloadFiles_ok.
  - by eapply CheckpointDownloadFiles_err.
  - intros Hd Hus. unfold CheckpointDownloadFiles in H. case_bool_decide as Hnil.
    { unfold mret, cmd_ret in H; by simplify_eq/=. }
    destruct (checkpoints_run updates d) as (d1&H1&Hd1); try done.
    erewrite cmd_bind_ok in H by (by apply WithTx_run). unfold modify in H. by simplify_eq/=.
Qed.

(** A stored job with two files, used by the examples below. *)
Definition sample_job : JobRow :=
  mkJobRow "j" "file" "h" [9] "" "" "a" 10 "" "" "" "/c" "/i" "downloading" 1 1 None 0 "" "".
Definition sample_file (id state : string) : FileRow :=
  mkFileRow id "j" "n" "a.bin" "a.bin" 10 4 3 [5] 6 [1] [2] "" state "" "" 1 1 None.
Definition sample_db : DB :=
  mkDB (empty_tables <| jobs := {[ "j" := sample_job ]} |>
          <| files := {[ "f1" := sample_file "f1" "downloading";
                         "f2" := sample_file "f2" "moving" ]} |>)
    0 0 [] [] 7 (New "constraint failed").

Lemma CheckpointDownloadFiles_atomic_witness :
  let u := mkCheckpointRow "f1" [7] 10 "" "" "" 0 in
  ∃ d', CheckpointDownloadFiles [u] sample_db = (d', Ok ()) ∧
    fBitmap <$> files (tables d') !! "f1" = Some [7] ∧
    files (tables d') !! "f2" = files (tables sample_db) !! "f2".
Proof.
  intros u. destruct (CheckpointDownloadFiles [u] sample_db) as [d' r] eqn:E.
  destruct (CheckpointDownloadFiles_atomic [u] sample_db d' r E) as [Hr Hok].
  assert (r = Ok ()) as ->.
  { apply Hok; [done|]. repeat constructor; done. }
  destruct Hr as (_&Hf&_). exists d'. split; [done|]. by rewrite !Hf.
Defined.

(** after a restart no job is left resolving, downloading or
    finalizing: those become paused_recovery and every other job is
    untouched; their downloading and verifying files become paused, and no
    file loses its bitmap, its byte count or its recorded final path.  A
    second recovery changes nothing, and a failed one has no effect. *)
Theorem MarkDownloadsForRecovery_spec when d d' r :
  MarkDownloadsForRecovery when d = (d', r) →
  match r with
  | Err _ => tables d' = tables d
  | Ok _ =>
    (∀ id, jState <$> jobs (tables d') !! id =
           (λ j, if bool_decide (jState j ∈ ["resolving"; "downloading"; "finalizing"])
                 then "paused_recovery" else jState j) <$> jobs (tables d) !! id) ∧
    (∀ id j, jobs (tables d) !! id = Some j →
       jState j ∉ ["resolving"; "downloading"; "finalizing"] →
       jobs (tables d') !! id = Some j) ∧
    (∀ id f, files (tables d) !! id = Some f →
       ∃ f', files (tables d') !! id = Some f' ∧
         fBitmap f' = fBitmap f ∧ fBytesCommitted f' = fBytesCommitted f ∧
         fFinalPath f' = fFinalPath f ∧
         fState f' = if bool_decide (fState f ∈ ["downloading"; "verifying"] ∧
                       jState <$> jobs (tables d') !! fJobID f = Some "paused_recovery")
                     then "paused" else fState f) ∧
    ∀ when2 d2 r2,
      MarkDownloadsForRecovery when2 d' = (d2, r2) → tables d2 = tables d'
  end.
Proof.
  intros H. destruct r as [[]|e]; [|by eapply MarkDownloadsForRecovery_err].
  apply MarkDownloadsForRecovery_ok in H.
  set (w := if when =? 0 then wall d else when) in H. split_and!.
  - intros id. rewrite H. simpl. rewrite lookup_fmap.
    destruct (jobs (tables d) !! id) as [j|]; [|done]. simpl. f_equal.
    unfold recover_job_row. by case_match.
  - intros id j Hj Hidle. rewrite H. simpl. rewrite lookup_fmap, Hj. simpl.
    by rewrite recover_job_idle.
  - intros id f Hf. rewrite H. simpl. rewrite lookup_fmap, Hf. eexists; split; [done|].
    rewrite bool_decide_and. unfold recover_file_row. simpl.
    by destruct (bool_decide (fState f ∈ _) && _).
  - intros w2 d2 [[]|e] H2; [|by eapply MarkDownloadsForRecovery_err].
    apply MarkDownloadsForRecovery_ok in H2. rewrite H2, H. apply recovered_idempotent.
Qed.

Lemma MarkDownloadsForRecovery_spec_witness :
  ∃ d', MarkDownloadsForRecovery 0 sample_db = (d', Ok ()) ∧
    jState <$> jobs (tables d') !! "j" = Some "paused_recovery" ∧
    fState <$> files (tables d') !! "f2" = Some "moving".
Proof.
  destruct (MarkDownloadsForRecovery 0 sample_db) as [d' r] eqn:E.
  destruct r as [[]|e]; [|by vm_compute in E].
  destruct (MarkDownloadsForRecovery_spec 0 sample_db d' (Ok ()) E) as (Hj&_&Hf&_).
  exists d'. split; [done|]. split; [by rewrite Hj|].
  destruct (Hf "f2" (sample_file "f2" "moving")) as (f'&->&_&_&_&Hs); [done|].
  simpl. by rewrite Hs.
Defined.

(** What storing a job adds to the tables: its row, one row per input file, and
    nothing else. *)
Definition adds_job (input : DownloadJobInput) (id : string) (when updated : Z) (t t' : Tables) : Prop :=
  jobs t !! id = None ∧ jobs t' = <[id := job_row_of_input input id when updated]> (jobs t)
  ∧ (∃ rows, Forall2 (inserted id when updated) (jiFiles input) rows ∧ files_of t' id ≡ₚ rows)
  ∧ ∀ id', id' ≠ id → files_of t' id' ≡ₚ files_of t id'.

Lemma insert_committed input id when updated d d' x : db_ok d →
  WithTx (_ ← wrapped "insert download job" (exec (insert_job_row (job_row_of_input input id when updated)));
          for_each (jiFiles input) (insert_file id when updated)) d = (d', Ok x) →
  adds_job input id when updated (tables d) (tables d').
Proof.
  intros Hok H. apply WithTx_ok in H as (d1&d2&Htx&Ht1&_&_&Ht2&_). op_inv.
  apply insert_job_row_some in H as [Hnew Hins].
  apply insert_files_ok in H0 as (rows&Hrows&Hnd&Hnone&Hadd).
  rewrite Hins in Hadd, Hnone. rewrite Ht1 in *. simpl in Hnew, Hnone, Hadd.
  rewrite Ht2, Hadd. clear Ht2 Hadd.
  assert (map_Forall (λ k f, fID f = k) (files (tables d))) as Hkeys.
  { intros k f Hf. by apply (ok_files _ Hok) in Hf as [? _]. }
  assert (files_of (tables d) id = []) as Hnofiles.
  { apply elem_of_nil_inv. intros f (k&Hf&Hjid)%elem_of_files_of.
    apply (ok_files _ Hok) in Hf as (_&_&_&_&[j Hj]). congruence. }
  split_and!; [done|done|exists rows; split; [done|]|intros id' Hne];
    (erewrite files_of_add_rows; [|done|done|done|done]).
  - rewrite Hnofiles, app_nil_r. rewrite filter_all; [done|].
    intros row Hin. by eapply inserted_job in Hin as [? _].
  - rewrite filter_none; [done|]. intros row Hin. eapply inserted_job in Hin as [-> _]; done.
Qed.

(** A step that keeps every table, for a property of the outcome. *)
Lemma step_aside {A B} (m : store_cmd A) (k : A → store_cmd B) d (Q : DB * result error B → Prop) :
  (∀ I, keeps I m) → (∀ d' e, tables d' = tables d → Q (d', Err e)) →
  (∀ d' a, tables d' = tables d → Q (k a d')) → Q ((m ≫= k) d).
Proof.
  intros Hm Herr Hk. pose proof (Hm (λ t, t = tables d) d eq_refl) as Ht. unfold mbind, cmd_bind.
  destruct (m d) as [d' [a|e]]; [by apply Hk|by apply Herr].
Qed.

(** Whatever fails, storing a job leaves the tables as they were or adds the
    whole job: an error after the commit, of reading the job back, is no undo. *)
Lemma InsertDownloadJob_outcome input d : db_ok d →
  let (d', r) := InsertDownloadJob input d in
  (tables d' = tables d ∧ is_ok r = false)
  ∨ ∃ id when updated, adds_job input id when updated (tables d) (tables d')
      ∧ ∀ record, r = Ok record →
          rJob record = job_row_of_input input id when updated ∧ rFiles record = files_of (tables d') id.
Proof.
  intros Hok. pattern (InsertDownloadJob input d). match goal with |- ?P _ => set (Q := P) end.
  assert (∀ d1 e, tables d1 = tables d → Q (d1, Err e)) as Herr by (by intros d1 e H1; left).
  assert (∀ b e, (∀ I, keeps I (guard_err b e))) as Hguard by (intros [] e I; repeat keeps_step).
  unfold InsertDownloadJob. apply step_aside; [intros; apply keeps_id_or_new|done|]. intros d0 id H0.
  do 2 (apply step_aside; [done|by intros; apply Herr; congruence|]; intros ? [] ?).
  apply step_aside; [intros; apply keeps_or_now|by intros; apply Herr; congruence|]. intros d2 when H2. cbv zeta.
  assert (tables d2 = tables d) as Ht by congruence.
  match goal with |- Q ((WithTx ?fn ≫= _) _) => destruct (WithTx fn d2) as [d3 [x|e]] eqn:Htx end.
  2:{ rewrite (cmd_bind_err _ _ _ _ _ Htx). apply Herr. apply WithTx_err in Htx. congruence. }
  rewrite (cmd_bind_ok _ _ _ _ _ Htx). apply insert_committed in Htx; [|unfold db_ok; by rewrite Ht]. rewrite Ht in Htx.
  pose proof (GetDownloadJob_keeps (λ t, t = tables d3) id d3 eq_refl) as H3.
  destruct (GetDownloadJob id d3) as [d4 r] eqn:Hget. cbn in H3. right. rewrite H3. eexists _, _, _. split; [exact Htx|].
  intros record ->. apply GetDownloadJob_ok in Hget as (Hj&Hfs&_).
  destruct Htx as (_&Hjobs&_). rewrite Hjobs, lookup_insert_eq in Hj. by injection Hj.
Qed.

(** a stored job reads back as it was given, with the defaults filled
    in, nothing downloaded yet and one row per input file in id order; it
    takes no existing identifier, leaves every other job and its files as
    they were, and later reads return the same record. *)
Theorem InsertDownloadJob_roundtrip input d d' r :
  db_ok d →
  InsertDownloadJob input d = (d', Ok r) →
  let when := if jiCreatedAt input =? 0 then wall d else jiCreatedAt input in
  let updated := if jiUpdatedAt input =? 0 then when else jiUpdatedAt input in
  let id := jID (rJob r) in
  (jiID input ≠ "" → id = jiID input) ∧ jobs (tables d) !! id = None ∧
  rJob r = job_row_of_input input id when updated ∧
  (∃ rows, Forall2 (inserted id when updated) (jiFiles input) rows ∧
     rFiles r ≡ₚ rows ∧ Sorted file_id_le (rFiles r)) ∧
  (∀ id', id' ≠ id → jobs (tables d') !! id' = jobs (tables d) !! id' ∧
     files_of (tables d') id' ≡ₚ files_of (tables d) id') ∧
  ∀ d2, tables d2 = tables d' → faults d2 = [] → GetDownloadJob id d2 = (d2, Ok r).
Proof.
  intros Hok H when updated id. unfold InsertDownloadJob in H. op_inv.
  apply id_or_new_ok in H as (Hid&Ht0&Hw0).
  apply insert_committed in H3 as (Hnew&Hjobs&(rows&Hrows&Hperm)&Hothers); [|unfold db_ok; by rewrite Ht0].
  apply GetDownloadJob_ok in H4 as (Hj&Hfs&Hb&He&Hd'&_).
  rewrite Hw0, Ht0 in *. rewrite <- Hd' in *. clear Hd'.
  rewrite Hjobs, lookup_insert_eq in Hj. injection Hj as Hrow.
  assert (id = x) as -> by (unfold id; by rewrite <- Hrow).
  split_and!; try done.
  - exists rows. rewrite Hfs. split_and!; [done|done|apply Sorted_merge_sort, _].
  - intros id' Hne. rewrite Hjobs, lookup_insert_ne by done. by auto.
  - intros d3 Ht3 Hf3. rewrite GetDownloadJob_run by done. rewrite Ht3, Hjobs, lookup_insert_eq.
    destruct r as [j fs b es]. simpl in *. by rewrite Hb, He, Hfs, Hrow.
Qed.

Lemma InsertDownloadJob_roundtrip_witness :
  let d := mkDB empty_tables 0 0 [] ["j1"; "f1"] 7 (New "constraint failed") in
  let f := mkFileInput "" "n1" "a.bin" "a.bin" 10 4 3 [1] [2] "" "" in
  let i := mkJobInput "" "file" "h" [9] "" "" "a" 10 "" "" "" "/c" "/i" "" 0 0 [f] in
  ∃ d' r, InsertDownloadJob i d = (d', Ok r) ∧ jobs (tables d) !! jID (rJob r) = None.
Proof.
  intros d f i.
  assert (db_ok d) as Hok by apply tables_ok_empty.
  destruct (InsertDownloadJob i d) as [d' [r|e]] eqn:E; [|by vm_compute in E].
  exists d', r. split; [done|].
  by destruct (InsertDownloadJob_roundtrip i d d' r Hok E) as (_&?&_).
Defined.

(** recording an event keeps the newest 500 of its job, the new one
    among them, in order, and touches no other job's history; the detail view
    reads back the newest ones oldest first. *)
Theorem AddDownloadEvent_bounded jobID fileID kind message when d d' :
  db_ok d →
  AddDownloadEvent jobID fileID kind message when d = (d', Ok ()) →
  let e := mkEventRow (event_seq (tables d) + 1) jobID fileID kind message
             (if when =? 0 then wall d else when) in
  events_of (tables d') jobID = lastn 500 (events_of (tables d) jobID ++ [e]) ∧
  (length (events_of (tables d') jobID) ≤ 500)%nat ∧
  (∀ id', id' ≠ jobID → events_of (tables d') id' = events_of (tables d) id') ∧
  ∀ d2 limit, tables d2 = tables d' → faults d2 = [] → 0 < limit ≤ 500 →
    ListDownloadEvents jobID limit d2 =
    (d2, Ok (lastn (Z.to_nat limit) (events_of (tables d') jobID))).
Proof.
  intros Hok H e. unfold AddDownloadEvent in H. op_inv.
  pose proof (insert_event_row_ok _ _ _ _ _ _ _ _ Hok H1) as Hok1.
  unfold insert_event_row in H1. destruct (_ || _) in H1; [done|]. injection H1 as Hins _.
  apply trim_event_rows_some in H0 as [Hself Hother]; [|apply Hok1].
  assert (events_of (tables x4) jobID = events_of (tables d) jobID ++ [e]) as Hev.
  { rewrite <- Hins. unfold events_of. simpl. rewrite filter_app, filter_cons_True by done. done. }
  split_and!.
  - by rewrite Hself, Hev.
  - rewrite Hself. apply length_lastn.
  - intros id' Hne. rewrite Hother by done. rewrite <- Hins. unfold events_of. simpl.
    rewrite filter_app, filter_cons_False by (simpl; congruence). by rewrite app_nil_r.
  - intros d2 limit Ht2 Hd2 Hl. unfold ListDownloadEvents.
    replace ((limit <=? 0) || (500 <? limit)) with false by lia.
    erewrite cmd_bind_ok by (by apply wrapped_run, query_run).
    erewrite cmd_bind_ok by (by apply wrapped_run, query_run).
    by rewrite Ht2.
Qed.

Lemma AddDownloadEvent_bounded_witness :
  let j := mkJobRow "j" "file" "h" [9] "" "" "a" 10 "" "" "" "/c" "/i" "queued" 1 1 None 0 "" "" in
  let d := mkDB (empty_tables <| jobs := {[ "j" := j ]} |>) 0 0 [] [] 7 (New "constraint failed") in
  ∃ d', AddDownloadEvent "j" "" "state" "queued" 0 d = (d', Ok ()) ∧
    (length (events_of (tables d') "j") ≤ 500)%nat.
Proof.
  intros j d.
  assert (db_ok d) as Hok.
  { apply tables_ok_update_jobs; [apply tables_ok_empty| |by intros ? [??]].
    by apply map_Forall_singleton. }
  destruct (AddDownloadEvent "j" "" "state" "queued" 0 d) as [d' [[]|e]] eqn:E;
    [|by vm_compute in E].
  exists d'. split; [done|].
  by destruct (AddDownloadEvent_bounded "j" "" "state" "queued" 0 d d' Hok E) as (_&?&_).
Defined.
