(* ===== verification/StoreAccounts.v ===== *)
(** * Accounts and proxies (internal/store/accounts.go, proxies.go)

    The account and proxy repositories, and the integrity of the whole
    download database along any history of repository calls. *)

From Stdlib Require Import ZArith Lia.
From stdpp Require Import base list gmap strings numbers pretty sorting.
From S2P Require Import Prelude GoStrings GoErrors JobState Store StoreDownloads.

(** ** Data *)

Record MegaAccountInput := mkAccountInput {
  aiID : string;
  aiLabel : string;
  aiEmail : string;
  aiCredential : list Z;
  aiSession : list Z;
  aiStatus : string;
  aiDefault : bool }.

Record MegaAccountRecord := mkAccountRecord {
  arID : string;
  arLabel : string;
  arEmail : string;
  arStatus : string;
  arDefault : bool;
  arLastChecked : option Z;
  arCreatedAt : Z;
  arUpdatedAt : Z }.

Record ProxyProfileInput := mkProxyInput {
  piID : string;
  piName : string;
  piType : string;
  piHost : string;
  piPort : Z;
  piUsername : string;
  piPassword : list Z;
  piTimeout : Z;
  piEnabled : bool;
  piDefault : bool }.

Record ProxyProfileRecord := mkProxyRecord {
  prID : string;
  prName : string;
  prType : string;
  prHost : string;
  prPort : Z;
  prUsername : string;
  prTimeout : Z;
  prEnabled : bool;
  prDefault : bool;
  prCreatedAt : Z;
  prUpdatedAt : Z }.

(** ** Accounts *)

Definition scanMegaAccount (a : AccountRow) : MegaAccountRecord :=
  mkAccountRecord (aID a) (aLabel a) (aEmail a) (aStatus a) (aDefault a)
    (aLastChecked a) (aCreatedAt a) (aUpdatedAt a).

Definition insert_account_row (a : AccountRow) (t : Tables) : option (Tables * ()) :=
  if bool_decide (is_Some (accounts t !! aID a)) then None
  else Some (t <| accounts := <[aID a := a]> (accounts t) |>, ()).

Definition clear_default_account (t : Tables) : option (Tables * ()) :=
  Some (t <| accounts := (λ a, a <| aDefault := false |>) <$> accounts t |>, ()).

Definition update_account_row (id : string) (g : AccountRow → AccountRow) (t : Tables)
    : option (Tables * Z) :=
  match accounts t !! id with
  | Some a => Some (t <| accounts := <[id := g a]> (accounts t) |>, 1)
  | None => Some (t, 0)
  end.

Definition GetMegaAccount (id : string) : store_cmd MegaAccountRecord :=
  row ← wrapped "read account" (query (λ t, accounts t !! id));
  match row with
  | None => throw (Sentinel ErrNotFound)
  | Some a => mret (scanMegaAccount a)
  end.

Definition InsertMegaAccount (input : MegaAccountInput) (now : Z)
    : store_cmd MegaAccountRecord :=
  id ← id_or_new (aiID input);
  _ ← guard_err (bool_decide (aiLabel input = "") || bool_decide (aiEmail input = "")
                 || (bool_decide (aiCredential input = []) && bool_decide (aiSession input = [])))
        (New "account label, email, and session or credential is required");
  let status := if bool_decide (aiStatus input = "") then "unknown" else aiStatus input in
  when ← or_now now;
  let row def := mkAccountRow id (aiLabel input) (aiEmail input) (aiCredential input)
                   (aiSession input) status def None when when in
  _ ← wrapped "insert account"
        (if aiDefault input
         then WithTx (_ ← exec clear_default_account;
                      exec (insert_account_row (row true)))
         else exec (insert_account_row (row false)));
  GetMegaAccount id.

Definition account_order (a b : AccountRow) : Prop :=
  String.ltb (aLabel a) (aLabel b) = true ∨
  (aLabel a = aLabel b ∧ text_le (aID a) (aID b) = true).
#[export] Instance account_order_dec : RelDecision account_order.
Proof. intros a b. unfold account_order. apply _. Defined.

Definition ListMegaAccounts : store_cmd (list MegaAccountRecord) :=
  rows ← query (λ t, merge_sort account_order (map_to_list (accounts t)).*2);
  _ ← query (λ _, ());
  mret (scanMegaAccount <$> rows).

Definition MegaAccountSecrets (id : string) : store_cmd (list Z * list Z) :=
  row ← query (λ t, accounts t !! id);
  match row with
  | None => throw (Sentinel ErrNotFound)
  | Some a => mret (aCredential a, aSession a)
  end.

(** [CASE WHEN length(?) > 0 THEN ? ELSE column END]. *)
Definition replace_if_given (new old : list Z) : list Z :=
  match new with [] => old | _ => new end.

Definition one_or_not_found (n : Z) : store_cmd () :=
  affected ← rows_affected_or_zero n;
  guard_err (bool_decide (affected ≠ 1)) (Sentinel ErrNotFound).

Definition UpdateMegaAccount (id label email : string) (credential session : list Z)
    (status : string) (def : bool) (now : Z) : store_cmd () :=
  when ← or_now now;
  WithTx (
    _ ← (if def then exec clear_default_account else mret ());
    n ← exec (update_account_row id (λ a,
          a <| aLabel := label |> <| aEmail := email |>
            <| aCredential := replace_if_given credential (aCredential a) |>
            <| aSession := replace_if_given session (aSession a) |>
            <| aStatus := status |> <| aDefault := def |> <| aUpdatedAt := when |>));
    one_or_not_found n).

Definition MarkMegaAccountChecked (id status : string) (now : Z) : store_cmd () :=
  when ← or_now now;
  n ← exec (update_account_row id (λ a,
        a <| aStatus := status |> <| aLastChecked := Some when |> <| aUpdatedAt := when |>));
  one_or_not_found n.

Definition ReplaceMegaAccountSession (id : string) (session : list Z)
    (status : string) (now : Z) : store_cmd () :=
  when ← or_now now;
  WithTx (
    n ← exec (update_account_row id (λ a,
          a <| aSession := session |> <| aStatus := status |>
            <| aLastChecked := Some when |> <| aUpdatedAt := when |>));
    one_or_not_found n).

Definition count_jobs (P : JobRow → bool) (t : Tables) : Z :=
  Z.of_nat (size (filter (λ kj, P kj.2 = true) (jobs t))).

(** Deleting an account or a proxy would set the references to NULL
    ([ON DELETE SET NULL]). *)
Definition delete_account_row (id : string) (t : Tables) : option (Tables * Z) :=
  match accounts t !! id with
  | Some _ =>
    Some (t <| accounts := delete id (accounts t) |>
            <| jobs := (λ j, if bool_decide (jAccountID j = id)
                             then j <| jAccountID := "" |> else j) <$> jobs t |>, 1)
  | None => Some (t, 0)
  end.

Definition DeleteMegaAccount (id : string) : store_cmd () :=
  WithTx (
    references ← query (count_jobs (λ j, bool_decide (jAccountID j = id ∧ id ≠ "")));
    _ ← guard_err (bool_decide (references ≠ 0)) (Sentinel ErrRecordInUse);
    n ← exec (delete_account_row id);
    one_or_not_found n).

(** ** Proxies *)

Definition scanProxy (p : ProxyRow) : ProxyProfileRecord :=
  mkProxyRecord (pID p) (pName p) (pType p) (pHost p) (pPort p) (pUsername p)
    (pTimeout p) (pEnabled p) (pDefault p) (pCreatedAt p) (pUpdatedAt p).

Definition insert_proxy_row (p : ProxyRow) (t : Tables) : option (Tables * ()) :=
  if bool_decide (is_Some (proxies t !! pID p)) then None
  else Some (t <| proxies := <[pID p := p]> (proxies t) |>, ()).

Definition clear_default_proxy (t : Tables) : option (Tables * ()) :=
  Some (t <| proxies := (λ p, p <| pDefault := false |>) <$> proxies t |>, ()).

Definition update_proxy_row (id : string) (g : ProxyRow → ProxyRow) (t : Tables)
    : option (Tables * Z) :=
  match proxies t !! id with
  | Some p => Some (t <| proxies := <[id := g p]> (proxies t) |>, 1)
  | None => Some (t, 0)
  end.

Definition GetProxyProfile (id : string) : store_cmd ProxyProfileRecord :=
  row ← query (λ t, proxies t !! id);
  match row with
  | None => throw (Sentinel ErrNotFound)
  | Some p => mret (scanProxy p)
  end.

Definition InsertProxyProfile (input : ProxyProfileInput) (now : Z)
    : store_cmd ProxyProfileRecord :=
  id ← id_or_new (piID input);
  _ ← guard_err (bool_decide (piName input = "") || bool_decide (piType input = "")
                 || bool_decide (piHost input = "")
                 || (piPort input <? 1) || (65535 <? piPort input))
        (New "proxy name, type, host, and valid port are required");
  let timeout := if piTimeout input =? 0 then 15 else piTimeout input in
  when ← or_now now;
  _ ← wrapped "insert proxy" (WithTx (
    _ ← (if piDefault input then exec clear_default_proxy else mret ());
    exec (insert_proxy_row
      (mkProxyRow id (piName input) (piType input) (piHost input) (piPort input)
         (piUsername input) (piPassword input) timeout (piEnabled input)
         (piDefault input) when when))));
  GetProxyProfile id.

Definition proxy_order (a b : ProxyRow) : Prop :=
  String.ltb (pName a) (pName b) = true ∨
  (pName a = pName b ∧ text_le (pID a) (pID b) = true).
#[export] Instance proxy_order_dec : RelDecision proxy_order.
Proof. intros a b. unfold proxy_order. apply _. Defined.

Definition ListProxyProfiles : store_cmd (list ProxyProfileRecord) :=
  rows ← query (λ t, merge_sort proxy_order (map_to_list (proxies t)).*2);
  _ ← query (λ _, ());
  mret (scanProxy <$> rows).

Definition ProxySecret (id : string) : store_cmd (list Z) :=
  row ← query (λ t, proxies t !! id);
  match row with
  | None => throw (Sentinel ErrNotFound)
  | Some p => mret (pPassword p)
  end.

Definition UpdateProxyProfile (id : string) (input : ProxyProfileInput) (now : Z)
    : store_cmd () :=
  when ← or_now now;
  WithTx (
    _ ← (if piDefault input then exec clear_default_proxy else mret ());
    n ← exec (update_proxy_row id (λ p,
          p <| pName := piName input |> <| pType := piType input |>
            <| pHost := piHost input |> <| pPort := piPort input |>
            <| pUsername := piUsername input |>
            <| pPassword := replace_if_given (piPassword input) (pPassword p) |>
            <| pTimeout := piTimeout input |> <| pEnabled := piEnabled input |>
            <| pDefault := piDefault input |> <| pUpdatedAt := when |>));
    one_or_not_found n).

Definition delete_proxy_row (id : string) (t : Tables) : option (Tables * Z) :=
  match proxies t !! id with
  | Some _ =>
    Some (t <| proxies := delete id (proxies t) |>
            <| jobs := (λ j, if bool_decide (jProxyID j = id)
                             then j <| jProxyID := "" |> else j) <$> jobs t |>, 1)
  | None => Some (t, 0)
  end.

Definition DeleteProxyProfile (id : string) : store_cmd () :=
  WithTx (
    references ← query (count_jobs (λ j, bool_decide (jProxyID j = id ∧ id ≠ "")));
    _ ← guard_err (bool_decide (references ≠ 0)) (Sentinel ErrRecordInUse);
    n ← exec (delete_proxy_row id);
    one_or_not_found n).

(** ** Lemmas: defaults and references *)

Lemma at_most_one_insert {V} (def : V → bool) (m : gmap string V) id v :
  at_most_one def m → (def v → map_Forall (λ _ x, def x = false) m) →
  at_most_one def (<[id := v]> m).
Proof.
  intros Hm Hv i j x y. rewrite !lookup_insert_Some.
  intros [[<- <-]|[Hi Hx]] [[<- <-]|[Hj Hy]] Hdx Hdy; [done| | |eauto].
  - by specialize (Hv Hdx _ _ Hy); simpl in Hv; rewrite Hv in Hdy.
  - by specialize (Hv Hdy _ _ Hx); simpl in Hv; rewrite Hv in Hdx.
Qed.

Lemma at_most_one_none {V} (def : V → bool) (m : gmap string V) :
  map_Forall (λ _ x, def x = false) m → at_most_one def m.
Proof. intros Hm i j x y Hx _ Hd. specialize (Hm _ _ Hx). simpl in Hm. by rewrite Hm in Hd. Qed.

Lemma tables_ok_accounts t m :
  tables_ok t → map_Forall (λ id a, aID a = id) m → at_most_one aDefault m →
  (∀ id, is_Some (accounts t !! id) → is_Some (m !! id)) →
  tables_ok (t <| accounts := m |>).
Proof.
  intros [] Hm Hd Hdom. split; simpl; try done.
  intros id j Hj. destruct (ok_jobs id j Hj) as (?&?&Ha&?). split_and!; simpl; auto.
Qed.

Lemma tables_ok_proxies t m :
  tables_ok t → map_Forall (λ id p, pID p = id) m → at_most_one pDefault m →
  (∀ id, is_Some (proxies t !! id) → is_Some (m !! id)) →
  tables_ok (t <| proxies := m |>).
Proof.
  intros [] Hm Hd Hdom. split; simpl; try done.
  intros id j Hj. destruct (ok_jobs id j Hj) as (?&?&?&Ha). split_and!; simpl; auto.
Qed.

(** The tables with no default left, as the clearing statements leave them. *)
Definition no_default_account (t : Tables) : Prop :=
  tables_ok t ∧ map_Forall (λ _ a, aDefault a = false) (accounts t).
Definition no_default_proxy (t : Tables) : Prop :=
  tables_ok t ∧ map_Forall (λ _ p, pDefault p = false) (proxies t).

Lemma clear_default_account_ok t t' a :
  tables_ok t → clear_default_account t = Some (t', a) → no_default_account t'.
Proof.
  intros Hok H. unfold clear_default_account in H. simplify_eq/=.
  assert (map_Forall (λ _ a, aDefault a = false)
            ((λ a, a <| aDefault := false |>) <$> accounts t)) as Hnone.
  { intros id x. rewrite lookup_fmap. by intros (y&_&->)%fmap_Some. }
  split; [|done]. apply tables_ok_accounts; [done| |by apply at_most_one_none|].
  - intros id x. rewrite lookup_fmap. intros (y&Hy&->)%fmap_Some.
    by apply (ok_accounts _ Hok) in Hy.
  - intros id. apply is_Some_fmap.
Qed.

Lemma clear_default_proxy_ok t t' a :
  tables_ok t → clear_default_proxy t = Some (t', a) → no_default_proxy t'.
Proof.
  intros Hok H. unfold clear_default_proxy in H. simplify_eq/=.
  assert (map_Forall (λ _ p, pDefault p = false)
            ((λ p, p <| pDefault := false |>) <$> proxies t)) as Hnone.
  { intros id x. rewrite lookup_fmap. by intros (y&_&->)%fmap_Some. }
  split; [|done]. apply tables_ok_proxies; [done| |by apply at_most_one_none|].
  - intros id x. rewrite lookup_fmap. intros (y&Hy&->)%fmap_Some.
    by apply (ok_proxies _ Hok) in Hy.
  - intros id. apply is_Some_fmap.
Qed.

Lemma insert_account_row_ok t t' row a :
  tables_ok t → (aDefault row → no_default_account t) →
  insert_account_row row t = Some (t', a) → tables_ok t'.
Proof.
  intros Hok Hd. unfold insert_account_row. case_match; [done|]. intros; simplify_eq/=.
  apply tables_ok_accounts; [done| | |].
  - apply map_Forall_insert_2; [done|]. apply Hok.
  - apply at_most_one_insert; [apply Hok|]. intros ?. by apply Hd.
  - intros id. by apply is_Some_insert_other.
Qed.

Lemma insert_proxy_row_ok t t' row a :
  tables_ok t → (pDefault row → no_default_proxy t) →
  insert_proxy_row row t = Some (t', a) → tables_ok t'.
Proof.
  intros Hok Hd. unfold insert_proxy_row. case_match; [done|]. intros; simplify_eq/=.
  apply tables_ok_proxies; [done| | |].
  - apply map_Forall_insert_2; [done|]. apply Hok.
  - apply at_most_one_insert; [apply Hok|]. intros ?. by apply Hd.
  - intros id. by apply is_Some_insert_other.
Qed.

(** An update keeps the primary key, and either does not create a default or
    is made when no default is left. *)
Lemma update_account_row_ok t t' id g a :
  tables_ok t → (∀ x, aID (g x) = aID x) →
  (∀ x, aDefault (g x) → aDefault x ∨ no_default_account t) →
  update_account_row id g t = Some (t', a) → tables_ok t'.
Proof.
  intros Hok Hid Hd. unfold update_account_row.
  destruct (accounts t !! id) as [x|] eqn:Ex; intros; simplify_eq/=; [|done].
  apply tables_ok_accounts; [done| | |].
  - apply map_Forall_insert_2; [|by apply Hok]. rewrite Hid.
    by apply (ok_accounts _ Hok) in Ex.
  - intros i j y z. rewrite !lookup_insert_Some.
    intros Hi Hj Hy Hz. pose proof (ok_default_account _ Hok) as Hone.
    assert (∀ k w, k ≠ id → accounts t !! k = Some w → aDefault w → aDefault (g x) → False).
    { intros k w Hk Hw Hdw Hdx. destruct (Hd x Hdx) as [Hx|[_ Hnone]].
      - by apply Hk, (Hone k id w x).
      - specialize (Hnone k w Hw). simpl in Hnone. by rewrite Hnone in Hdw. }
    destruct Hi as [[<- <-]|[Hi Hy']], Hj as [[<- <-]|[Hj Hz']]; [done| | |by eauto].
    + exfalso. by eauto.
    + exfalso. by eauto.
  - intros k. by apply is_Some_insert_other.
Qed.

Lemma update_proxy_row_ok t t' id g a :
  tables_ok t → (∀ x, pID (g x) = pID x) →
  (∀ x, pDefault (g x) → pDefault x ∨ no_default_proxy t) →
  update_proxy_row id g t = Some (t', a) → tables_ok t'.
Proof.
  intros Hok Hid Hd. unfold update_proxy_row.
  destruct (proxies t !! id) as [x|] eqn:Ex; intros; simplify_eq/=; [|done].
  apply tables_ok_proxies; [done| | |].
  - apply map_Forall_insert_2; [|by apply Hok]. rewrite Hid.
    by apply (ok_proxies _ Hok) in Ex.
  - intros i j y z. rewrite !lookup_insert_Some.
    intros Hi Hj Hy Hz. pose proof (ok_default_proxy _ Hok) as Hone.
    assert (∀ k w, k ≠ id → proxies t !! k = Some w → pDefault w → pDefault (g x) → False).
    { intros k w Hk Hw Hdw Hdx. destruct (Hd x Hdx) as [Hx|[_ Hnone]].
      - by apply Hk, (Hone k id w x).
      - specialize (Hnone k w Hw). simpl in Hnone. by rewrite Hnone in Hdw. }
    destruct Hi as [[<- <-]|[Hi Hy']], Hj as [[<- <-]|[Hj Hz']]; [done| | |by eauto].
    + exfalso. by eauto.
    + exfalso. by eauto.
  - intros k. by apply is_Some_insert_other.
Qed.

Lemma delete_account_row_ok t t' id a :
  tables_ok t → delete_account_row id t = Some (t', a) → tables_ok t'.
Proof.
  intros Hok. unfold delete_account_row.
  destruct (accounts t !! id) as [x|] eqn:Ex; intros; simplify_eq/=; [|done].
  destruct Hok. split; simpl; try done.
  - intros k j'. rewrite lookup_fmap. intros (j&Hj&->)%fmap_Some.
    destruct (ok_jobs k j Hj) as (?&?&Ha&?). case_bool_decide; split_and!; simpl; try done.
    intros Hne. rewrite lookup_delete_ne by done. by apply Ha.
  - intros k f Hf. destruct (ok_files k f Hf) as (?&?&?&?&?). split_and!; simpl; try done.
    by apply is_Some_fmap.
  - eapply Forall_impl; [exact ok_events|]. intros e (?&?&?).
    split; [done|]. split; [by apply is_Some_fmap|done].
  - by apply map_Forall_delete.
  - intros i j y z Hy%lookup_delete_Some Hz%lookup_delete_Some. naive_solver.
Qed.

Lemma delete_proxy_row_ok t t' id a :
  tables_ok t → delete_proxy_row id t = Some (t', a) → tables_ok t'.
Proof.
  intros Hok. unfold delete_proxy_row.
  destruct (proxies t !! id) as [x|] eqn:Ex; intros; simplify_eq/=; [|done].
  destruct Hok. split; simpl; try done.
  - intros k j'. rewrite lookup_fmap. intros (j&Hj&->)%fmap_Some.
    destruct (ok_jobs k j Hj) as (?&?&?&Hp). case_bool_decide; split_and!; simpl; try done.
    intros Hne. rewrite lookup_delete_ne by done. by apply Hp.
  - intros k f Hf. destruct (ok_files k f Hf) as (?&?&?&?&?). split_and!; simpl; try done.
    by apply is_Some_fmap.
  - eapply Forall_impl; [exact ok_events|]. intros e (?&?&?).
    split; [done|]. split; [by apply is_Some_fmap|done].
  - by apply map_Forall_delete.
  - intros i j y z Hy%lookup_delete_Some Hz%lookup_delete_Some. naive_solver.
Qed.

(** A first statement establishing [P], on which the rest relies. *)
Lemma keeps_exec_then {A B} I (P : Tables → Prop) (f : Tables → option (Tables * A))
    (k : A → store_cmd B) :
  (∀ t t' a, I t → f t = Some (t', a) → P t') →
  (∀ a d, P (tables d) → I (tables (k a d).1)) →
  keeps I (exec f ≫= k).
Proof.
  intros Hf Hk d Hd. unfold mbind, cmd_bind, exec, driver.
  destruct (faults d) as [|[e|] rest]; simpl; [|done|].
  all: destruct (f (tables d)) as [[t a]|] eqn:E; simpl; [apply Hk; simpl; eauto|done].
Qed.

Lemma exec_keeps_from {A} (P : Tables → Prop) (f : Tables → option (Tables * A)) d :
  (∀ t, P t → tables_ok t) → (∀ t t' a, P t → f t = Some (t', a) → tables_ok t') →
  P (tables d) → tables_ok (tables (exec f d).1).
Proof.
  intros HP Hf Hd. unfold exec, driver. destruct (faults d) as [|[e|] rest]; simpl; [|by eauto|].
  all: destruct (f (tables d)) as [[t a]|] eqn:E; simpl; eauto.
Qed.

Lemma keeps_bind_from {A B} (m : store_cmd A) (k : A → store_cmd B) d :
  tables_ok (tables (m d).1) → (∀ a, keeps tables_ok (k a)) →
  tables_ok (tables ((m ≫= k) d).1).
Proof.
  intros Hm Hk. unfold mbind, cmd_bind. destruct (m d) as [d' [a|e]]; simpl in *; [|done].
  by apply Hk.
Qed.

Lemma keeps_one_or_not_found n : keeps tables_ok (one_or_not_found n).
Proof. unfold one_or_not_found. by repeat keeps_step. Qed.

Lemma GetMegaAccount_keeps I id : keeps I (GetMegaAccount id).
Proof. unfold GetMegaAccount. by repeat keeps_step. Qed.

Lemma GetProxyProfile_keeps I id : keeps I (GetProxyProfile id).
Proof. unfold GetProxyProfile. by repeat keeps_step. Qed.

#[local] Hint Resolve keeps_one_or_not_found GetMegaAccount_keeps GetProxyProfile_keeps : core.

Lemma insert_default_account_keeps row :
  keeps tables_ok (_ ← exec clear_default_account; exec (insert_account_row row)).
Proof.
  apply (keeps_exec_then _ no_default_account); [apply clear_default_account_ok|].
  intros _ d Hd. apply exec_keeps_from with (P := no_default_account); [by intros ? []| |done].
  intros t t' a Hd'. apply insert_account_row_ok; [by apply Hd'|done].
Qed.

Lemma InsertMegaAccount_keeps input now : keeps tables_ok (InsertMegaAccount input now).
Proof.
  unfold InsertMegaAccount.
  repeat first [apply insert_default_account_keeps | keeps_step]; eauto.
  apply keeps_exec_ok. intros t t' u Hok. by apply insert_account_row_ok.
Qed.

Lemma update_default_account_keeps (def : bool) id g :
  (∀ x, aID (g x) = aID x) → (∀ x, aDefault (g x) = def) →
  keeps tables_ok (_ ← (if def then exec clear_default_account else mret ());
                   n ← exec (update_account_row id g); one_or_not_found n).
Proof.
  intros Hid Hdef. destruct def.
  - apply (keeps_exec_then _ no_default_account); [apply clear_default_account_ok|].
    intros _ d Hd. apply keeps_bind_from; [|done].
    apply exec_keeps_from with (P := no_default_account); [by intros ? []| |done].
    intros t t' n Hd'. apply update_account_row_ok; [by apply Hd'|done|by right].
  - repeat keeps_step; [|done]. apply keeps_exec_ok. intros t t' n Hok.
    apply update_account_row_ok; [done|done|]. intros x. by rewrite Hdef.
Qed.

Lemma UpdateMegaAccount_keeps id label email credential session status def now :
  keeps tables_ok (UpdateMegaAccount id label email credential session status def now).
Proof.
  unfold UpdateMegaAccount.
  repeat first [by apply update_default_account_keeps | keeps_step].
Qed.

Lemma MarkMegaAccountChecked_keeps id status now :
  keeps tables_ok (MarkMegaAccountChecked id status now).
Proof.
  unfold MarkMegaAccountChecked. repeat keeps_step; [|done]. apply keeps_exec_ok.
  intros t t' n Hok. by apply update_account_row_ok; [|done|left].
Qed.

Lemma ReplaceMegaAccountSession_keeps id session status now :
  keeps tables_ok (ReplaceMegaAccountSession id session status now).
Proof.
  unfold ReplaceMegaAccountSession. repeat keeps_step; [|done]. apply keeps_exec_ok.
  intros t t' n Hok. by apply update_account_row_ok; [|done|left].
Qed.

Lemma DeleteMegaAccount_keeps id : keeps tables_ok (DeleteMegaAccount id).
Proof.
  unfold DeleteMegaAccount. repeat keeps_step; [|done].
  apply keeps_exec_ok. intros ???. apply delete_account_row_ok.
Qed.

Lemma insert_default_proxy_keeps (def : bool) row :
  pDefault row = def →
  keeps tables_ok (_ ← (if def then exec clear_default_proxy else mret ());
                   exec (insert_proxy_row row)).
Proof.
  intros Hdef. destruct def.
  - apply (keeps_exec_then _ no_default_proxy); [apply clear_default_proxy_ok|].
    intros _ d Hd. apply exec_keeps_from with (P := no_default_proxy); [by intros ? []| |done].
    intros t t' n Hd'. apply insert_proxy_row_ok; [by apply Hd'|done].
  - repeat keeps_step. apply keeps_exec_ok. intros t t' n Hok.
    apply insert_proxy_row_ok; [done|]. by rewrite Hdef.
Qed.

Lemma InsertProxyProfile_keeps input now : keeps tables_ok (InsertProxyProfile input now).
Proof.
  unfold InsertProxyProfile.
  repeat first [by apply insert_default_proxy_keeps | keeps_step]; eauto.
Qed.

Lemma update_default_proxy_keeps (def : bool) id g :
  (∀ x, pID (g x) = pID x) → (∀ x, pDefault (g x) = def) →
  keeps tables_ok (_ ← (if def then exec clear_default_proxy else mret ());
                   n ← exec (update_proxy_row id g); one_or_not_found n).
Proof.
  intros Hid Hdef. destruct def.
  - apply (keeps_exec_then _ no_default_proxy); [apply clear_default_proxy_ok|].
    intros _ d Hd. apply keeps_bind_from; [|done].
    apply exec_keeps_from with (P := no_default_proxy); [by intros ? []| |done].
    intros t t' n Hd'. apply update_proxy_row_ok; [by apply Hd'|done|by right].
  - repeat keeps_step; [|done]. apply keeps_exec_ok. intros t t' n Hok.
    apply update_proxy_row_ok; [done|done|]. intros x. by rewrite Hdef.
Qed.

Lemma UpdateProxyProfile_keeps id input now :
  keeps tables_ok (UpdateProxyProfile id input now).
Proof.
  unfold UpdateProxyProfile.
  repeat first [by apply update_default_proxy_keeps | keeps_step].
Qed.

Lemma DeleteProxyProfile_keeps id : keeps tables_ok (DeleteProxyProfile id).
Proof.
  unfold DeleteProxyProfile. repeat keeps_step; [|done].
  apply keeps_exec_ok. intros ???. apply delete_proxy_row_ok.
Qed.

(** ** Histories of repository calls *)

Inductive store_op :=
| OpInsertJob (input : DownloadJobInput)
| OpDeleteJob (id : string)
| OpCheckpoint (updates : list DownloadFileCheckpoint)
| OpFileState (update : DownloadFileStateUpdate)
| OpPrepareMove (id path : string) (when : Z)
| OpCompleteFile (id path : string) (when : Z)
| OpJobState (id state : string) (when : Z)
| OpQuotaState (id state code message : string) (next : option Z) (index when : Z)
| OpPayloadURL (id : string) (ciphertext : list Z) (when : Z)
| OpRecover (when : Z)
| OpEvent (jobID fileID kind message : string) (when : Z)
| OpInsertAccount (input : MegaAccountInput) (now : Z)
| OpUpdateAccount (id label email : string) (credential session : list Z)
    (status : string) (def : bool) (now : Z)
| OpAccountChecked (id status : string) (now : Z)
| OpAccountSession (id : string) (session : list Z) (status : string) (now : Z)
| OpDeleteAccount (id : string)
| OpInsertProxy (input : ProxyProfileInput) (now : Z)
| OpUpdateProxy (id : string) (input : ProxyProfileInput) (now : Z)
| OpDeleteProxy (id : string).

(** The handle after a call, whether it succeeded or not. *)
Definition run_op (op : store_op) (d : DB) : DB :=
  match op with
  | OpInsertJob i => (InsertDownloadJob i d).1
  | OpDeleteJob id => (DeleteDownloadJob id d).1
  | OpCheckpoint us => (CheckpointDownloadFiles us d).1
  | OpFileState u => (UpdateDownloadFileState u d).1
  | OpPrepareMove id path w => (PrepareDownloadFileMove id path w d).1
  | OpCompleteFile id path w => (CompleteDownloadFile id path w d).1
  | OpJobState id s w => (SetDownloadJobState id s w d).1
  | OpQuotaState id s c m n i w => (SetDownloadQuotaState id s c m n i w d).1
  | OpPayloadURL id c w => (UpdateDownloadPayloadURL id c w d).1
  | OpRecover w => (MarkDownloadsForRecovery w d).1
  | OpEvent j f k m w => (AddDownloadEvent j f k m w d).1
  | OpInsertAccount i n => (InsertMegaAccount i n d).1
  | OpUpdateAccount id l e c s st def n => (UpdateMegaAccount id l e c s st def n d).1
  | OpAccountChecked id s n => (MarkMegaAccountChecked id s n d).1
  | OpAccountSession id s st n => (ReplaceMegaAccountSession id s st n d).1
  | OpDeleteAccount id => (DeleteMegaAccount id d).1
  | OpInsertProxy i n => (InsertProxyProfile i n d).1
  | OpUpdateProxy id i n => (UpdateProxyProfile id i n d).1
  | OpDeleteProxy id => (DeleteProxyProfile id d).1
  end.

Definition run_ops (ops : list store_op) (d : DB) : DB := foldl (λ d op, run_op op d) d ops.

Lemma run_op_keeps op d : db_ok d → db_ok (run_op op d).
Proof.
  intros Hd. destruct op; simpl.
  - by apply InsertDownloadJob_keeps.
  - by apply DeleteDownloadJob_keeps.
  - by apply CheckpointDownloadFiles_keeps.
  - by apply UpdateDownloadFileState_keeps.
  - by apply PrepareDownloadFileMove_keeps.
  - by apply CompleteDownloadFile_keeps.
  - by apply SetDownloadJobState_keeps.
  - by apply SetDownloadQuotaState_keeps.
  - by apply UpdateDownloadPayloadURL_keeps.
  - by apply MarkDownloadsForRecovery_keeps.
  - by apply AddDownloadEvent_keeps.
  - by apply InsertMegaAccount_keeps.
  - by apply UpdateMegaAccount_keeps.
  - by apply MarkMegaAccountChecked_keeps.
  - by apply ReplaceMegaAccountSession_keeps.
  - by apply DeleteMegaAccount_keeps.
  - by apply InsertProxyProfile_keeps.
  - by apply UpdateProxyProfile_keeps.
  - by apply DeleteProxyProfile_keeps.
Qed.

Lemma count_jobs_zero P t :
  count_jobs P t = 0 ↔ ∀ k j, jobs t !! k = Some j → P j = false.
Proof.
  unfold count_jobs. transitivity (filter (λ kj, P kj.2 = true) (jobs t) = ∅).
  { rewrite <- map_size_empty_iff. lia. }
  rewrite map_empty. split.
  - intros Hnone k j Hj. specialize (Hnone k). apply map_lookup_filter_None in Hnone.
    destruct (P j) eqn:E; [|done]. destruct Hnone as [Hn|Hn]; [congruence|].
    by specialize (Hn j Hj).
  - intros Hall k. apply map_lookup_filter_None. right. intros j Hj. simpl.
    by rewrite (Hall k j Hj).
Qed.

(** The guarded transaction both deletions run. *)
Lemma delete_guarded_run P (del : Tables → option (Tables * Z)) d :
  faults d = [] →
  let tx := WithTx (references ← query (count_jobs P);
                    _ ← guard_err (bool_decide (references ≠ 0)) (Sentinel ErrRecordInUse);
                    n ← exec del; one_or_not_found n) in
  (count_jobs P (tables d) ≠ 0 →
     ∃ d', tx d = (d', Err (Sentinel ErrRecordInUse)) ∧ tables d' = tables d) ∧
  (∀ t, count_jobs P (tables d) = 0 → del (tables d) = Some (t, 1) →
     ∃ d', tx d = (d', Ok ()) ∧ tables d' = t).
Proof.
  intros Hd tx. split.
  - intros Hc. unfold tx. unfold WithTx. eexists. split.
    + erewrite cmd_bind_ok by done. erewrite cmd_bind_ok.
      2:{ unfold BeginTx, driver. by rewrite Hd. }
      erewrite cmd_bind_ok.
      2:{ unfold catch. erewrite cmd_bind_ok by (by apply query_run).
          rewrite bool_decide_eq_true_2 by done. done. }
      simpl. done.
    + done.
  - intros t Hc Hdel. eexists. split.
    + apply WithTx_run; [done| |].
      * erewrite cmd_bind_ok by (by apply query_run).
        erewrite cmd_bind_ok by (apply guard_run; by rewrite bool_decide_eq_false_2 by auto).
        erewrite cmd_bind_ok by (by apply exec_run).
        unfold one_or_not_found. by erewrite cmd_bind_ok by (by apply rows_zero_run).
      * done.
    + done.
Qed.

(** ** Theorems *)

(** C26: along every history of repository calls on a fresh database,
    with any driver failures in between, the tables keep their keys, their
    CHECK constraints and their references (no file or event without its job,
    no job with a missing account or proxy), event ids stay increasing, and at
    most one account and one proxy is the default. *)
Theorem history_integrity ops faults ids wall constraint :
  db_ok (run_ops ops (mkDB empty_tables 0 0 faults ids wall constraint)).
Proof.
  unfold run_ops. generalize (mkDB empty_tables 0 0 faults ids wall constraint),
    (tables_ok_empty : db_ok (mkDB empty_tables 0 0 faults ids wall constraint)).
  induction ops as [|op ops IH]; intros d Hd; [done|]. apply IH. by apply run_op_keeps.
Qed.

(** an account or proxy that a stored download selects cannot be
    deleted; the attempt reports [ErrRecordInUse] and changes nothing.  An
    existing one that no download selects is removed, with nothing else. *)
Theorem delete_in_use id d :
  faults d = [] → id ≠ "" →
  let used sel := ∃ k j, jobs (tables d) !! k = Some j ∧ sel j = id in
  (used jAccountID → ∃ d', DeleteMegaAccount id d = (d', Err (Sentinel ErrRecordInUse)) ∧
     tables d' = tables d) ∧
  (used jProxyID → ∃ d', DeleteProxyProfile id d = (d', Err (Sentinel ErrRecordInUse)) ∧
     tables d' = tables d) ∧
  (¬ used jAccountID → is_Some (accounts (tables d) !! id) →
     ∃ d', DeleteMegaAccount id d = (d', Ok ()) ∧
       tables d' = tables d <| accounts := delete id (accounts (tables d)) |>) ∧
  (¬ used jProxyID → is_Some (proxies (tables d) !! id) →
     ∃ d', DeleteProxyProfile id d = (d', Ok ()) ∧
       tables d' = tables d <| proxies := delete id (proxies (tables d)) |>).
Proof.
  intros Hd Hid used.
  assert (∀ sel : JobRow → string, used sel ↔
    count_jobs (λ j, bool_decide (sel j = id ∧ id ≠ "")) (tables d) ≠ 0) as Hused.
  { intros sel. rewrite count_jobs_zero. split.
    - intros (k&j&Hj&Hs) Hall. specialize (Hall k j Hj). by rewrite bool_decide_eq_true_2 in Hall.
    - intros Hn. apply dec_stable. intros Hno. apply Hn. intros k j Hj.
      apply bool_decide_eq_false. intros [Hs _]. apply Hno. by exists k, j. }
  split_and!.
  - intros Hu. apply delete_guarded_run; [done|]. by apply Hused.
  - intros Hu. apply delete_guarded_run; [done|]. by apply Hused.
  - intros Hu [x Hx].
    assert (∀ k j, jobs (tables d) !! k = Some j → jAccountID j ≠ id) as Hno.
    { intros k j Hj Hs. apply Hu. by exists k, j. }
    apply delete_guarded_run; [done| |].
    + apply dec_stable. by rewrite <- Hused.
    + unfold delete_account_row. rewrite Hx, fmap_id_on; [by destruct (tables d)|].
      intros k j Hj. rewrite bool_decide_eq_false_2; [done|by eapply Hno].
  - intros Hu [x Hx].
    assert (∀ k j, jobs (tables d) !! k = Some j → jProxyID j ≠ id) as Hno.
    { intros k j Hj Hs. apply Hu. by exists k, j. }
    apply delete_guarded_run; [done| |].
    + apply dec_stable. by rewrite <- Hused.
    + unfold delete_proxy_row. rewrite Hx, fmap_id_on; [by destruct (tables d)|].
      intros k j Hj. rewrite bool_decide_eq_false_2; [done|by eapply Hno].
Qed.

Lemma delete_in_use_witness :
  let j := sample_job <| jAccountID := "a" |> in
  let a := mkAccountRow "a" "main" "m@x" [1] [] "unknown" true None 1 1 in
  let d := mkDB (empty_tables <| jobs := {[ "j" := j ]} |> <| accounts := {[ "a" := a ]} |>)
             0 0 [] [] 7 (New "constraint failed") in
  ∃ d', DeleteMegaAccount "a" d = (d', Err (Sentinel ErrRecordInUse)) ∧ tables d' = tables d.
Proof.
  intros j a d. destruct (delete_in_use "a" d) as (Hdel&_); [done|done|].
  apply Hdel. exists "j", j. done.
Defined.
