(* ===== verification/Paths.v ===== *)
(** * Relative paths (internal/fsroot/paths.go, path/filepath)

    The lexical half of the rooted filesystem: the [filepath] functions the
    program calls, on Unix, and the sanitizers that decide which names may
    reach the kernel. *)

From Stdlib Require Import ZArith Lia Ascii.
From stdpp Require Import base list gmap strings numbers pretty.
From S2P Require Import Prelude GoStrings GoErrors.


(** ** path/filepath *)

Definition Slash : ascii := "/"%char.
Definition Nul : ascii := "000"%char.

Definition IsAbs (p : string) : bool := HasPrefix p "/".

(** One element of a path, on the reversed list of the elements kept. *)
Definition clean_step (rooted : bool) (acc : list string) (c : string) : list string :=
  if bool_decide (c = "") || bool_decide (c = ".") then acc
  else if bool_decide (c = "..") then
    match acc with
    | [] => if rooted then [] else [".."]
    | x :: rest => if bool_decide (x = "..") then ".." :: acc else rest
    end
  else c :: acc.

Definition Clean (p : string) : string :=
  let rooted := IsAbs p in
  let body := Join (reverse (foldl (clean_step rooted) [] (Split p Slash))) "/" in
  if rooted then "/" +:+ body
  else if bool_decide (body = "") then "." else body.

(** [filepath.Join] skips leading empty elements. *)
Fixpoint filepath_Join (elems : list string) : string :=
  match elems with
  | [] => ""
  | e :: rest => if bool_decide (e = "") then filepath_Join rest else Clean (Join elems "/")
  end.

Definition Dir (p : string) : string :=
  match reverse (Split p Slash) with
  | [] | [_] => Clean ""
  | _ :: init => Clean (Join (reverse init) "/" +:+ "/")
  end.

Fixpoint first_non_empty (l : list string) : string :=
  match l with
  | [] => "/"
  | x :: rest => if bool_decide (x = "") then first_non_empty rest else x
  end.

Definition Base (p : string) : string :=
  if bool_decide (p = "") then "." else first_non_empty (reverse (Split p Slash)).

(** The suffix from the last dot of the final element, scanned backwards. *)
Fixpoint ext_scan (backwards acc : string) : string :=
  match backwards with
  | EmptyString => ""
  | String c rest =>
    if bool_decide (c = "."%char) then String c acc
    else if bool_decide (c = Slash) then ""
    else ext_scan rest (String c acc)
  end.
Definition Ext (p : string) : string := ext_scan (rev_str p) "".

(** ** Sanitizers *)

Definition SanitizeComponent (component : string) : result error string :=
  if bool_decide (component = "") || bool_decide (component = ".")
     || bool_decide (component = "..")
  then Err (Wrap ErrInvalidPath ": empty, dot, and dot-dot components are not allowed")
  else if str_elem Nul component || ContainsAny component "/\\"
  then Err (Wrap ErrInvalidPath ": component contains a path separator or NUL")
  else Ok component.

Fixpoint sanitize_parts (parts : list string) : result error (list string) :=
  match parts with
  | [] => Ok []
  | part :: rest =>
    component ← SanitizeComponent part;
    clean ← sanitize_parts rest;
    mret (component :: clean)
  end.

Definition SanitizeRelativePath (value : string) : result error string :=
  if bool_decide (value = "") then Ok ""
  else if str_elem Nul value || IsAbs value || HasPrefix value "/" || Contains value "\"
  then Err (Wrap ErrInvalidPath ": absolute paths, backslashes, and NUL are not allowed")
  else
    clean ← sanitize_parts (Split value Slash);
    mret (filepath_Join clean).

Definition SanitizeDestinationSubdirectory (value : string) : result error string :=
  SanitizeRelativePath value.

(** [splitRelative]: the parent directory and the final name. *)
Definition splitRelative (relative : string) : string * string :=
  let parent := Dir relative in
  (if bool_decide (parent = ".") then "" else parent, Base relative).

(** [relativeParent] of the transfer manager. *)
Definition relativeParent (relative : string) : string :=
  let parent := Dir relative in
  if bool_decide (parent = ".") then "" else parent.

Definition PartialSuffix : string := ".mega.part".

Definition with_context {A} (head : string) (r : result error A) : result error A :=
  match r with Ok a => Ok a | Err e => Err (Wrapf head e) end.

(** [PartialRelativePath] of internal/download/writer.go. *)
Definition PartialRelativePath (jobID remotePath : string) : result error string :=
  job ← with_context "invalid job id" (SanitizeComponent jobID);
  path ← with_context "invalid remote path" (SanitizeRelativePath remotePath);
  if bool_decide (path = "")
  then Err (Wrapf "invalid remote path" (Sentinel ErrInvalidPath))
  else mret (filepath_Join [job; path +:+ PartialSuffix]).

(** The components of a sanitized path. *)
Definition components (p : string) : list string :=
  if bool_decide (p = "") then [] else Split p Slash.

(** What a component must be to pass. *)
Definition valid_component (c : string) : bool :=
  negb (bool_decide (c ∈ ["" ; "."; ".."]))
  && negb (str_elem Nul c) && negb (str_elem Slash c) && negb (str_elem "\"%char c).

(** ** Lemmas *)

Lemma Contains_char c s : Contains s (String c "") = str_elem c s.
Proof.
  induction s as [|a s IH]; [done|]. cbn [Contains str_elem HasPrefix]. rewrite IH.
  destruct s; rewrite andb_true_r; f_equal; apply bool_decide_ext; naive_solver.
Qed.

Lemma IsAbs_spec v : IsAbs v = match v with String c _ => bool_decide (c = Slash) | _ => false end.
Proof.
  unfold IsAbs. destruct v as [|c v]; [done|]. simpl. destruct v; rewrite andb_true_r;
    apply bool_decide_ext; naive_solver.
Qed.

Lemma str_elem_app c a b : str_elem c (a +:+ b) = str_elem c a || str_elem c b.
Proof.
  induction a as [|x a IH]; [done|].
  change (String x a +:+ b) with (String x (a +:+ b)). simpl. rewrite IH. apply orb_assoc.
Qed.

Lemma str_elem_Split c sep v :
  c ≠ sep → str_elem c v = existsb (str_elem c) (Split v sep).
Proof.
  intros Hne. induction v as [|a v IH]; [done|]. simpl.
  destruct (decide (a = sep)) as [->|Ha].
  - rewrite (bool_decide_eq_true_2 (sep = sep)), bool_decide_eq_false_2 by congruence.
    simpl. by rewrite IH.
  - rewrite (bool_decide_eq_false_2 (a = sep)) by done.
    pose proof (Split_nonempty v sep). destruct (Split v sep); [done|].
    simpl in *. by rewrite IH, orb_assoc.
Qed.

Lemma ContainsAny_separators c :
  ContainsAny c "/\\" = str_elem Slash c || str_elem "\"%char c.
Proof.
  induction c as [|a c IH]; [done|]. cbn [ContainsAny]. rewrite IH.
  unfold Slash. cbn [str_elem]. rewrite !orb_false_r.
  destruct (decide (a = "/"%char)) as [->|H1]; [done|].
  destruct (decide (a = "\"%char)) as [->|H2]; [by destruct (str_elem "/"%char c)|].
  by rewrite !bool_decide_eq_false_2 by congruence.
Qed.

Lemma valid_component_spec c :
  valid_component c = true ↔ c ≠ "" ∧ c ≠ "." ∧ c ≠ ".." ∧
    str_elem Nul c = false ∧ str_elem Slash c = false ∧ str_elem "\"%char c = false.
Proof.
  unfold valid_component. rewrite !andb_true_iff, !negb_true_iff, bool_decide_eq_false.
  set_solver.
Qed.

Lemma SanitizeComponent_spec c :
  if valid_component c then SanitizeComponent c = Ok c
  else ∃ e, SanitizeComponent c = Err e ∧ errors_is e ErrInvalidPath.
Proof.
  unfold SanitizeComponent, valid_component. rewrite ContainsAny_separators.
  destruct (decide (c ∈ [""; "."; ".."])) as [Hin|Hin].
  { rewrite (bool_decide_eq_true_2 (c ∈ _)) by done. simpl.
    rewrite !elem_of_cons in Hin. destruct Hin as [->|[->|[->|[]%not_elem_of_nil]]];
      simpl; eauto. }
  rewrite (bool_decide_eq_false_2 (c = "")), (bool_decide_eq_false_2 (c = ".")),
    (bool_decide_eq_false_2 (c = "..")), bool_decide_eq_false_2 by set_solver.
  simpl. destruct (str_elem Nul c), (str_elem Slash c), (str_elem "\"%char c); simpl; eauto.
Qed.

Lemma sanitize_parts_spec parts :
  if forallb valid_component parts then sanitize_parts parts = Ok parts
  else ∃ e, sanitize_parts parts = Err e ∧ errors_is e ErrInvalidPath.
Proof.
  induction parts as [|c parts IH]; [done|]. simpl. pose proof (SanitizeComponent_spec c) as Hc.
  destruct (valid_component c); simpl.
  - rewrite Hc. unfold mbind, result_bind, mret, result_ret.
    destruct (forallb valid_component parts); [by rewrite IH|].
    destruct IH as (e&->&?). eauto.
  - destruct Hc as (e&->&?). eauto.
Qed.

(** Cleaning a path whose elements are all ordinary changes nothing. *)
Lemma clean_fold rooted acc l :
  Forall (λ c, c ≠ "" ∧ c ≠ "." ∧ c ≠ "..") l →
  foldl (clean_step rooted) acc l = reverse l ++ acc.
Proof.
  intros Hl. revert acc. induction Hl as [|c l (H1&H2&H3) Hl IH]; intros acc; [done|].
  simpl. rewrite reverse_cons, <- app_assoc. simpl. rewrite <- IH. f_equal.
  unfold clean_step. by rewrite !bool_decide_eq_false_2.
Qed.

Lemma valid_ordinary l :
  Forall valid_component l → Forall (λ c, c ≠ "" ∧ c ≠ "." ∧ c ≠ "..") l.
Proof.
  intros Hl. eapply Forall_impl; [exact Hl|]. intros c Hc. apply Is_true_true, valid_component_spec in Hc. naive_solver.
Qed.

Lemma valid_no_slash l :
  Forall valid_component l → Forall (λ c, str_elem Slash c = false) l.
Proof.
  intros Hl. eapply Forall_impl; [exact Hl|]. intros c Hc. apply Is_true_true, valid_component_spec in Hc. naive_solver.
Qed.

Lemma Join_nonempty l : l ≠ [] → Forall valid_component l → Join l "/" ≠ "".
Proof.
  destruct l as [|c l]; [done|]. intros _ Hl. inversion Hl; subst.
  assert (c ≠ "") by (apply Is_true_true, valid_component_spec in H1; naive_solver).
  destruct c; [done|]. destruct l; [done|]. rewrite Join_cons by done. done.
Qed.

Lemma IsAbs_Join l : Forall valid_component l → IsAbs (Join l "/") = false.
Proof.
  destruct l as [|c l]; [done|]. intros Hl. inversion Hl as [|?? Hc _]; subst.
  apply Is_true_true, valid_component_spec in Hc as (Hne&_&_&_&Hs&_).
  rewrite IsAbs_spec. destruct c as [|a c]; [done|]. simpl in Hs.
  apply orb_false_iff in Hs as [Ha _]. apply bool_decide_eq_false in Ha.
  destruct l; [by apply bool_decide_eq_false|]. rewrite Join_cons by done.
  by apply bool_decide_eq_false.
Qed.

Lemma Clean_valid l : l ≠ [] → Forall valid_component l → Clean (Join l "/") = Join l "/".
Proof.
  intros Hne Hl. unfold Clean. rewrite IsAbs_Join by done.
  assert (Split (Join l "/") Slash = l) as ->
    by (apply (Split_Join l Slash); [done|by apply valid_no_slash]).
  rewrite clean_fold by (by apply valid_ordinary).
  rewrite app_nil_r, reverse_involutive, bool_decide_eq_false_2; [done|].
  by apply Join_nonempty.
Qed.

Lemma Clean_nonempty p : Clean p ≠ "".
Proof. unfold Clean. destruct (IsAbs p); [done|]. by case_bool_decide. Qed.

Lemma filepath_Join_valid l : l ≠ [] → Forall valid_component l → filepath_Join l = Join l "/".
Proof.
  intros Hne Hl. destruct l as [|c l]; [done|]. cbn [filepath_Join].
  rewrite bool_decide_eq_false_2; [by apply Clean_valid|].
  inversion Hl as [|?? Hc _]; subst. apply Is_true_true, valid_component_spec in Hc. naive_solver.
Qed.

(** A path is accepted exactly when it is empty or all its components are
    valid, and then it is returned as it is. *)
Lemma SanitizeRelativePath_spec v :
  if bool_decide (v = "") || forallb valid_component (Split v Slash)
  then SanitizeRelativePath v = Ok v
  else ∃ e, SanitizeRelativePath v = Err e ∧ errors_is e ErrInvalidPath.
Proof.
  unfold SanitizeRelativePath. case_bool_decide as Hv; [by subst|]. simpl.
  pose proof (sanitize_parts_spec (Split v Slash)) as Hp.
  destruct (forallb valid_component (Split v Slash)) eqn:Hall.
  - assert (Forall valid_component (Split v Slash)) as HF.
    { apply Forall_forall. intros c Hc. apply Is_true_true.
      apply list_elem_of_In in Hc. by eapply forallb_forall in Hall. }
    assert (∀ c, c ≠ Slash → (∀ p, valid_component p → str_elem c p = false) →
                 str_elem c v = false) as Hno.
    { intros c Hc Hval. rewrite (str_elem_Split c Slash) by done.
      apply not_true_iff_false. intros (p&Hin&Hp')%existsb_exists.
      apply list_elem_of_In in Hin. eapply Forall_forall in HF; [|done].
      by rewrite Hval in Hp'. }
    rewrite (Hno Nul), Contains_char, (Hno "\"%char); [|done| |done|].
    2,3: intros p Hp'; apply Is_true_true, valid_component_spec in Hp'; naive_solver.
    change (HasPrefix v "/") with (IsAbs v).
    assert (Join (Split v Slash) "/" = v) as HJ by apply (Join_Split v Slash).
    assert (IsAbs v = false) as -> by (rewrite <- HJ; by apply IsAbs_Join).
    simpl. rewrite Hp. unfold mbind, result_bind, mret, result_ret.
    by rewrite filepath_Join_valid, HJ by (done || apply Split_nonempty).
  - case_match; [by eauto|]. destruct Hp as (e&->&?). eauto.
Qed.

Lemma SanitizeRelativePath_ok v w :
  SanitizeRelativePath v = Ok w → w = v ∧ Forall valid_component (components v).
Proof.
  pose proof (SanitizeRelativePath_spec v) as Hs. unfold components.
  case_bool_decide; simpl in Hs.
  - rewrite Hs. intros; simplify_eq. split; [done|constructor].
  - destruct (forallb _ _) eqn:Hall; [|destruct Hs as (e&He&_); congruence].
    rewrite Hs. intros; simplify_eq. split; [done|]. apply Forall_forall.
    intros c Hc. apply Is_true_true. apply list_elem_of_In in Hc.
    by eapply forallb_forall in Hall.
Qed.

Lemma components_Join l :
  l ≠ [] → Forall valid_component l → components (Join l "/") = l.
Proof.
  intros Hne Hl. unfold components. rewrite bool_decide_eq_false_2 by (by apply Join_nonempty).
  apply (Split_Join l Slash); [done|]. by apply valid_no_slash.
Qed.

Lemma Join_components v : v ≠ "" → Join (components v) "/" = v.
Proof.
  intros Hv. unfold components. rewrite bool_decide_eq_false_2 by done.
  apply (Join_Split v Slash).
Qed.

Lemma components_nonempty v : v ≠ "" → components v ≠ [].
Proof.
  intros Hv. unfold components. rewrite bool_decide_eq_false_2 by done.
  apply Split_nonempty.
Qed.

Lemma Join_snoc_slash l : l ≠ [] → Join l "/" +:+ "/" = Join (l ++ [""]) "/".
Proof.
  induction l as [|x l IH]; [done|]. intros _. destruct l as [|y l].
  - simpl. done.
  - rewrite Join_cons by done. change ((x :: y :: l) ++ [""]) with (x :: (y :: l) ++ [""]).
    rewrite (Join_cons x ((y :: l) ++ [""])) by done. rewrite <- IH by done. by rewrite !str_app_assoc.
Qed.

Lemma IsAbs_app a b : a ≠ "" → IsAbs (a +:+ b) = IsAbs a.
Proof. rewrite !IsAbs_spec. by destruct a. Qed.

Lemma Sanitize_valid v : Forall valid_component (components v) → SanitizeRelativePath v = Ok v.
Proof.
  intros Hall. pose proof (SanitizeRelativePath_spec v) as Hs. unfold components in Hall.
  case_bool_decide; simpl in Hs; [done|].
  destruct (forallb valid_component (Split v Slash)) eqn:E; [done|].
  exfalso. apply not_true_iff_false in E. apply E, forallb_forall. intros c Hc.
  apply list_elem_of_In in Hc. eapply Forall_forall in Hall; [|done]. by apply Is_true_true.
Qed.

(** The parent and the name of a valid path. *)
Lemma splitRelative_valid init name :
  Forall valid_component (init ++ [name]) →
  splitRelative (Join (init ++ [name]) "/") = (Join init "/", name).
Proof.
  intros Hl. pose proof Hl as [Hi Hn]%Forall_app. apply Forall_cons in Hn as [Hn _].
  assert (Split (Join (init ++ [name]) "/") Slash = init ++ [name]) as Hs.
  { apply (Split_Join _ Slash); [by destruct init|by apply valid_no_slash]. }
  assert (name ≠ "") as Hname.
  { apply Is_true_true, valid_component_spec in Hn. naive_solver. }
  assert (Join (init ++ [name]) "/" ≠ "") as Hne
    by (apply Join_nonempty; [by destruct init|done]).
  unfold splitRelative, Dir, Base. rewrite Hs, reverse_snoc.
  rewrite (bool_decide_eq_false_2 (Join (init ++ [name]) "/" = "")) by done. simpl.
  rewrite (bool_decide_eq_false_2 (name = "")) by done. f_equal.
  destruct init as [|x init] using rev_ind; [done|].
  rewrite reverse_snoc. rewrite <- reverse_snoc, reverse_involutive.
  assert (Clean (Join (init ++ [x]) "/" +:+ "/") = Join (init ++ [x]) "/") as ->.
  { unfold Clean.
    rewrite IsAbs_app by (apply Join_nonempty; [by destruct init|done]).
    rewrite IsAbs_Join by done.
    rewrite Join_snoc_slash by (by destruct init).
    assert (Split (Join ((init ++ [x]) ++ [""]) "/") Slash = (init ++ [x]) ++ [""]) as ->.
    { apply (Split_Join _ Slash); [by destruct init|]. apply Forall_app. split; [|by constructor].
      by apply valid_no_slash. }
    rewrite foldl_app, (clean_fold _ [] (init ++ [x])) by (by apply valid_ordinary).
    rewrite app_nil_r. cbn [foldl].
    change (clean_step false (reverse (init ++ [x])) "") with (reverse (init ++ [x])).
    rewrite reverse_involutive, bool_decide_eq_false_2; [done|].
    apply Join_nonempty; [by destruct init|done]. }
  rewrite bool_decide_eq_false_2; [done|]. intros Hdot.
  assert (components "." = init ++ [x]) as Hc.
  { rewrite <- Hdot. apply components_Join; [by destruct init|done]. }
  assert (["."] = init ++ [x]) as Hc' by done. apply (app_inj_tail [] init) in Hc' as [_ <-].
  apply Forall_app in Hi as [_ [Hx _]%Forall_cons].
  apply Is_true_true, valid_component_spec in Hx. naive_solver.
Qed.

Lemma str_length_app a b :
  String.length (a +:+ b) = (String.length a + String.length b)%nat.
Proof.
  induction a as [|x a IH]; [done|].
  change (String x a +:+ b) with (String x (a +:+ b)). simpl. by rewrite IH.
Qed.

Lemma str_app_inj_r a b s : a +:+ s = b +:+ s → a = b.
Proof.
  revert b. induction a as [|x a IH]; intros [|y b] H.
  - done.
  - apply (f_equal String.length) in H. rewrite !str_length_app in H. simpl in H. lia.
  - apply (f_equal String.length) in H. rewrite !str_length_app in H. simpl in H. lia.
  - change (String x (a +:+ s) = String y (b +:+ s)) in H. injection H as -> H.
    f_equal. by apply IH.
Qed.

Lemma Join_snoc_app l a s sep : Join (l ++ [a +:+ s]) sep = Join (l ++ [a]) sep +:+ s.
Proof.
  induction l as [|x l IH]; [done|]. change ((x :: l) ++ ?y) with (x :: (l ++ y)).
  rewrite !Join_cons by (by destruct l). by rewrite IH, !str_app_assoc.
Qed.

Lemma PartialRelativePath_ok job path r :
  PartialRelativePath job path = Ok r →
  ∃ init name, components path = init ++ [name] ∧
    components r = job :: init ++ [name +:+ PartialSuffix] ∧
    Forall valid_component (job :: init ++ [name +:+ PartialSuffix]) ∧
    r = Join (job :: init ++ [name +:+ PartialSuffix]) "/".
Proof.
  unfold PartialRelativePath, mbind, result_bind. intros H.
  pose proof (SanitizeComponent_spec job) as Hj. destruct (valid_component job) eqn:Hvj.
  2:{ destruct Hj as (e&He&_). by rewrite He in H. }
  rewrite Hj in H. cbn [with_context] in H.
  destruct (SanitizeRelativePath path) as [w|e] eqn:Hp; [|done].
  cbn [with_context] in H. apply SanitizeRelativePath_ok in Hp as [-> Hval]. case_bool_decide as Hne; [done|].
  assert (r = filepath_Join [job; path +:+ PartialSuffix]) as -> by (unfold mret, result_ret in H; congruence).
  clear H. destruct (components path) as [|name init _] eqn:Hc using rev_ind.
  { by apply components_nonempty in Hne. }
  exists init, name. assert (path = Join (init ++ [name]) "/") as Hpath.
  { rewrite <- Hc. by rewrite Join_components. }
  assert (Forall valid_component (job :: init ++ [name +:+ PartialSuffix])) as Hall.
  { constructor; [by apply Is_true_true|]. apply Forall_app in Hval as [Hi [Hn _]%Forall_cons].
    apply Forall_app; split; [done|]. apply Forall_singleton.
    apply Is_true_true, valid_component_spec in Hn as (H1&H2&H3&H4&H5&H6).
    apply Is_true_true, valid_component_spec. rewrite !str_elem_app, H4, H5, H6.
    split_and!; try done; intros Heq; apply (f_equal String.length) in Heq;
      rewrite str_length_app in Heq; simpl in Heq; lia. }
  assert (filepath_Join [job; path +:+ PartialSuffix] =
          Join (job :: init ++ [name +:+ PartialSuffix]) "/") as ->.
  { cbn [filepath_Join]. apply valid_component_spec in Hvj as [Hj0 _].
    rewrite bool_decide_eq_false_2 by done.
    rewrite <- (Clean_valid (job :: init ++ [name +:+ PartialSuffix])) by done. f_equal.
    rewrite !(Join_cons job) by (done || by destruct init). rewrite Join_snoc_app, <- Hpath. done. }
  split_and!; try done. by apply components_Join.
Qed.

(** ** Theorems *)

(** a relative path passes exactly when it is empty or every
    slash-separated component is non-empty, neither dot nor dot-dot, and free
    of NUL, slash and backslash; it is then returned unchanged, so that
    sanitizing again is the identity and no accepted path can leave the
    directory it is resolved in.  Every other path reports [ErrInvalidPath]. *)
Theorem SanitizeRelativePath_contained v :
  (∀ w, SanitizeRelativePath v = Ok w ↔
     w = v ∧ ∀ c, c ∈ components v →
       c ≠ "" ∧ c ≠ "." ∧ c ≠ ".." ∧
       str_elem Nul c = false ∧ str_elem Slash c = false ∧ str_elem "\"%char c = false) ∧
  (∀ w, SanitizeRelativePath v = Ok w → SanitizeRelativePath w = Ok w) ∧
  (∀ e, SanitizeRelativePath v = Err e → errors_is e ErrInvalidPath).
Proof.
  assert (∀ w, SanitizeRelativePath v = Ok w ↔
            w = v ∧ Forall valid_component (components v)) as Hok.
  { intros w. split; [apply SanitizeRelativePath_ok|]. intros [-> Hall].
    by apply Sanitize_valid. }
  split_and!.
  - intros w. rewrite Hok, Forall_forall. setoid_rewrite Is_true_true.
    by setoid_rewrite valid_component_spec.
  - intros w Hw. apply Hok in Hw as Hw'. destruct Hw' as [-> _]. done.
  - intros e He. pose proof (SanitizeRelativePath_spec v) as Hs.
    destruct (_ || _) in Hs; [congruence|]. destruct Hs as (e'&He'&?). congruence.
Qed.

Lemma SanitizeRelativePath_contained_witness :
  SanitizeRelativePath "a/b c/d" = Ok "a/b c/d" ∧
  ∃ e, SanitizeRelativePath "a/../b" = Err e ∧ errors_is e ErrInvalidPath.
Proof.
  destruct (SanitizeRelativePath_contained "a/../b") as (_&_&He). split; [reflexivity|].
  destruct (SanitizeRelativePath "a/../b") as [|e] eqn:E; [by vm_compute in E|].
  exists e. split; [done|]. by apply He.
Defined.

(** the partial file of a remote path lies inside the directory
    named by its job, mirrors the remote tree with the final name suffixed,
    and no two remote files of any jobs share a partial file. *)
Theorem PartialRelativePath_scoped job path r :
  PartialRelativePath job path = Ok r →
  (∃ init name, components path = init ++ [name] ∧
     components r = job :: init ++ [name +:+ PartialSuffix]) ∧
  SanitizeRelativePath r = Ok r ∧
  ∀ job' path', PartialRelativePath job' path' = Ok r → job' = job ∧ path' = path.
Proof.
  intros H. pose proof (PartialRelativePath_ok _ _ _ H) as (init&name&Hc&Hr&Hall&->).
  split_and!.
  - by eauto.
  - apply Sanitize_valid. rewrite Hr. done.
  - intros job' path' H'.
    pose proof (PartialRelativePath_ok _ _ _ H') as (init'&name'&Hc'&Hr'&_&_).
    rewrite Hr in Hr'. injection Hr' as -> Hr'. apply app_inj_tail in Hr' as [-> Hn].
    apply str_app_inj_r in Hn as ->. split; [done|].
    assert (∀ p, components p ≠ [] → p ≠ "") as Hp by (by intros p Hp ->).
    rewrite <- (Join_components path'), <- (Join_components path), Hc, Hc'; [done| |].
    + apply Hp. rewrite Hc. by destruct init'.
    + apply Hp. rewrite Hc'. by destruct init'.
Qed.

Lemma PartialRelativePath_scoped_witness :
  ∃ r, PartialRelativePath "j1" "dir/a.bin" = Ok r ∧ components r = ["j1"; "dir"; "a.bin.mega.part"].
Proof.
  destruct (PartialRelativePath "j1" "dir/a.bin") as [r|e] eqn:E; [|by vm_compute in E].
  exists r. split; [done|].
  destruct (PartialRelativePath_scoped "j1" "dir/a.bin" r E) as ((init&name&Hc&Hr)&_).
  rewrite Hr. by destruct init as [|? [|? [|]]]; vm_compute in Hc; simplify_eq.
Defined.
