(* ===== verification/FsRoot.v ===== *)
(** * Rooted filesystem access (internal/fsroot/root.go, paths.go)

    A file tree with directories, regular files and symbolic links, the
    system calls the package makes on it, and every operation of [Root].  A
    descriptor is identified with the directory it holds; each system call
    consumes one entry of [sys_faults], so an operation may fail at any call.
    Closing a descriptor has no effect on the tree and is not represented. *)

From Stdlib Require Import ZArith Lia Ascii.
From stdpp Require Import base list gmap strings numbers pretty.
From S2P Require Import Prelude GoStrings GoErrors JobState Paths.

(** ** The tree and the system calls *)

Inductive entry :=
| EDir
| EFile (content : list Z)
| ESymlink (target : string).

#[export] Instance entry_eq_dec : EqDecision entry.
Proof. solve_decision. Defined.

Abbreviation path := (list string).

Record RootState := mkRootState {
  rt_path : path;
  rt_name : string;
  rt_open : bool;
  rt_closed : bool }.

(** [entries] maps absolute paths, as component lists, to what is there;
    [synced] lists the directories fsynced so far, newest first. *)
Record FS := mkFS {
  entries : gmap path entry;
  handles : gmap nat RootState;
  next_handle : nat;
  sys_faults : list (option error);
  synced : list path }.

#[export] Instance RootState_eta : Eta RootState := λ r,
  mkRootState (rt_path r) (rt_name r) (rt_open r) (rt_closed r).
#[export] Instance FS_eta : Eta FS := λ s,
  mkFS (entries s) (handles s) (next_handle s) (sys_faults s) (synced s).

Abbreviation fs_cmd := (cmd error FS).

Definition sys {A} (run : FS → FS * result error A) : fs_cmd A := λ s,
  match sys_faults s with
  | Some e :: rest => (s <| sys_faults := rest |>, Err e)
  | None :: rest => run (s <| sys_faults := rest |>)
  | [] => run s
  end.

(** The path a name denotes relative to an open directory.  The kernel
    resolves dots and separators; the sanitizers are what keeps such names
    from reaching it. *)
Definition at_step (cur : path) (c : string) : path :=
  if bool_decide (c = "") || bool_decide (c = ".") then cur
  else if bool_decide (c = "..") then removelast cur
  else cur ++ [c].
Definition at_path (fd : path) (name : string) : path :=
  foldl at_step (if IsAbs name then [] else fd) (Split name Slash).

(** [openat(fd, name, O_DIRECTORY|O_NOFOLLOW)]. *)
Definition k_open_dir (fd : path) (name : string) : fs_cmd path := sys (λ s,
  match entries s !! at_path fd name with
  | Some EDir => (s, Ok (at_path fd name))
  | Some _ => (s, Err (Sentinel ENOTDIR))
  | None => (s, Err (Sentinel ENOENT))
  end).

(** [fstatat(fd, name, AT_SYMLINK_NOFOLLOW)]. *)
Definition k_fstatat (fd : path) (name : string) : fs_cmd entry := sys (λ s,
  match entries s !! at_path fd name with
  | Some e => (s, Ok e)
  | None => (s, Err (Sentinel ENOENT))
  end).

Definition k_mkdirat (fd : path) (name : string) : fs_cmd () := sys (λ s,
  match entries s !! at_path fd name with
  | Some _ => (s, Err (Sentinel EEXIST))
  | None =>
    if bool_decide (entries s !! fd = Some EDir)
    then (s <| entries := <[at_path fd name := EDir]> (entries s) |>, Ok ())
    else (s, Err (Sentinel ENOENT))
  end).

(** [openat] of a file: O_RDWR opens when [write], O_CREAT when [create],
    O_EXCL when [excl]; a new file is empty. *)
Definition k_open_file (fd : path) (name : string) (write create excl : bool)
    : fs_cmd path := sys (λ s,
  let p := at_path fd name in
  match entries s !! p with
  | Some e =>
    if create && excl then (s, Err (Sentinel EEXIST))
    else match e with
         | ESymlink _ => (s, Err (Sentinel ELOOP))
         | EDir => if write then (s, Err (Sentinel EISDIR)) else (s, Ok p)
         | EFile _ => (s, Ok p)
         end
  | None =>
    if create && bool_decide (entries s !! fd = Some EDir)
    then (s <| entries := <[p := EFile []]> (entries s) |>, Ok p)
    else (s, Err (Sentinel ENOENT))
  end).

(** Names of a directory's entries, as [Readdirnames] lists them. *)
Definition child_names (m : gmap path entry) (dir : path) : list string :=
  omap (λ p, match reverse p with
             | name :: rest => if bool_decide (reverse rest = dir) then Some name else None
             | [] => None
             end) (map_to_list m).*1.

Definition k_readdir (dir : path) : fs_cmd (list string) := sys (λ s,
  (s, Ok (child_names (entries s) dir))).

Definition k_unlinkat (fd : path) (name : string) (rmdir : bool) : fs_cmd () := sys (λ s,
  let p := at_path fd name in
  match entries s !! p with
  | None => (s, Err (Sentinel ENOENT))
  | Some EDir =>
    if negb rmdir then (s, Err (Sentinel EISDIR))
    else if bool_decide (child_names (entries s) p = [])
    then (s <| entries := delete p (entries s) |>, Ok ())
    else (s, Err (Sentinel ENOTEMPTY))
  | Some _ =>
    if rmdir then (s, Err (Sentinel ENOTDIR))
    else (s <| entries := delete p (entries s) |>, Ok ())
  end).

(** [renameat2] of an entry that is not a directory (the program renames
    only what it has just found to be a regular file). *)
Definition rename_run (sfd : path) (sname : string) (dfd : path) (dname : string)
    (noreplace : bool) (s : FS) : FS * result error () :=
  let src := at_path sfd sname in
  let dst := at_path dfd dname in
  match entries s !! src, entries s !! dst with
  | None, _ => (s, Err (Sentinel ENOENT))
  | Some EDir, _ => (s, Err (Sentinel EISDIR))
  | Some _, Some EDir => (s, Err (Sentinel (if noreplace then EEXIST else EISDIR)))
  | Some e, Some _ =>
    if noreplace then (s, Err (Sentinel EEXIST))
    else if bool_decide (src = dst) then (s, Ok ())
    else (s <| entries := <[dst := e]> (delete src (entries s)) |>, Ok ())
  | Some e, None =>
    if bool_decide (entries s !! dfd = Some EDir)
    then (s <| entries := <[dst := e]> (delete src (entries s)) |>, Ok ())
    else (s, Err (Sentinel ENOENT))
  end.

Definition k_renameat (sfd : path) (sname : string) (dfd : path) (dname : string)
    (noreplace : bool) : fs_cmd () := sys (rename_run sfd sname dfd dname noreplace).

Definition k_fsync_dir (fd : path) : fs_cmd () := sys (λ s,
  (s <| synced := fd :: synced s |>, Ok ())).

Definition k_dup : fs_cmd () := sys (λ s, (s, Ok ())).

(** ** Descriptor walks *)

Definition IsSymlink (e : entry) : bool := match e with ESymlink _ => true | _ => false end.
Definition IsDir (e : entry) : bool := match e with EDir => true | _ => false end.
Definition IsRegular (e : entry) : bool := match e with EFile _ => true | _ => false end.

Definition wrapPathError (op p : string) (err : error) : error :=
  if errors_is err ELOOP then Wrap ErrSymlink (": " +:+ p)
  else if errors_is err ENOENT then PathError op p (Sentinel ErrNotExist)
  else PathError op p err.

Definition fs_wrap {A} (wrap : error → error) (m : fs_cmd A) : fs_cmd A :=
  r ← catch m; match r with Ok a => mret a | Err e => throw (wrap e) end.

Definition openDirectoryAt (fd : path) (component : string) : fs_cmd path :=
  r ← catch (k_open_dir fd component);
  match r with
  | Ok child => mret child
  | Err e =>
    if errors_is e ENOTDIR then
      st ← catch (k_fstatat fd component);
      match st with
      | Ok found => if IsSymlink found then throw (Sentinel ELOOP) else throw e
      | Err _ => throw e
      end
    else throw e
  end.

(** The component loop shared by [openAbsoluteDirectory] and
    [openDirectory]; [wrap] is how the caller reports a failing call. *)
Fixpoint walk (create : bool) (wrap : string → error → error) (fd : path)
    (comps : list string) : fs_cmd path :=
  match comps with
  | [] => mret fd
  | c :: rest =>
    r ← catch (openDirectoryAt fd c);
    child ← match r with
            | Ok child => mret child
            | Err e =>
              if errors_is e ENOENT && create then
                mk ← catch (k_mkdirat fd c);
                match mk with
                | Err me =>
                  if errors_is me EEXIST
                  then fs_wrap (wrap "openat") (openDirectoryAt fd c)
                  else throw (wrap "mkdirat" me)
                | Ok _ => fs_wrap (wrap "openat") (openDirectoryAt fd c)
                end
              else throw (wrap "openat" e)
            end;
    walk create wrap child rest
  end.

Definition absolute_components (p : string) : list string :=
  filter (λ c, c ≠ "" ∧ c ≠ ".") (Split (TrimPrefix p "/") Slash).

Definition openAbsoluteDirectory (p : string) (create : bool) : fs_cmd path :=
  walk create (λ _ e, e) [] (absolute_components p).

(** ** Root *)

(** [New]; the new root is identified by its handle. *)
Definition fsroot_New (p : string) : fs_cmd nat :=
  if bool_decide (p = "") || str_elem Nul p || negb (IsAbs p)
  then throw (Wrap ErrInvalidPath ": root must be an absolute non-NUL path")
  else
    let clean := Clean p in
    if bool_decide (clean = "/")
    then throw (Wrap ErrInvalidPath ": filesystem root is not an application root")
    else
      r ← catch (openAbsoluteDirectory clean false);
      let add opened : fs_cmd nat := λ s,
        (s <| handles := <[next_handle s :=
                mkRootState (absolute_components clean) clean opened false]> (handles s) |>
           <| next_handle := S (next_handle s) |>, Ok (next_handle s)) in
      match r with
      | Ok _ => add true
      | Err e =>
        if errors_is e ENOENT then add false
        else throw (Wrapf ("open configured root " +:+ quote clean)
                      (wrapPathError "open root" clean e))
      end.

Definition set_root (h : nat) (f : RootState → RootState) : fs_cmd () :=
  modify (λ s, s <| handles := alter f h (handles s) |>).

Definition Root_Close (h : nat) : fs_cmd () :=
  set_root h (λ r, r <| rt_closed := true |> <| rt_open := false |>).

(** A handle that was never returned by [New] is the nil root. *)
Definition rootDescriptor (h : nat) (create : bool) : fs_cmd path :=
  s ← get;
  match handles s !! h with
  | None => throw (Wrap ErrInvalidPath ": root is nil")
  | Some r =>
    if rt_closed r then throw (Sentinel ErrClosed)
    else
      _ ← (if rt_open r then mret ()
           else
             _ ← fs_wrap (wrapPathError "open root" (rt_name r))
                   (openAbsoluteDirectory (rt_name r) create);
             set_root h (λ r, r <| rt_open := true |>));
      _ ← fs_wrap (Wrapf "duplicate root descriptor") k_dup;
      mret (rt_path r)
  end.

Definition of_result {A} (r : result error A) : fs_cmd A :=
  match r with Ok a => mret a | Err e => throw e end.

Definition openDirectory (h : nat) (relative : string) (create : bool) : fs_cmd path :=
  safe ← of_result (SanitizeRelativePath relative);
  current ← rootDescriptor h create;
  if bool_decide (safe = "") then mret current
  else walk create (λ op e, wrapPathError op safe e) current (Split safe Slash).

Definition Root_Ensure (h : nat) : fs_cmd () := _ ← rootDescriptor h true; mret ().

Definition Root_MkdirAll (h : nat) (relative : string) : fs_cmd () :=
  safe ← of_result (SanitizeRelativePath relative);
  _ ← openDirectory h safe true;
  mret ().

Definition lstatAt (fd : path) (name relative : string) : fs_cmd entry :=
  fs_wrap (wrapPathError "fstatat" relative) (k_fstatat fd name).

(** [openFileWithHook]; returns the file and whether it already existed. *)
Definition openFile (h : nat) (relative : string) (write create reportExisted : bool)
    : fs_cmd (path * bool) :=
  safe ← of_result (SanitizeRelativePath relative);
  if bool_decide (safe = "") then throw (Wrap ErrInvalidPath ": a file path is required")
  else
    let (parent, name) := splitRelative safe in
    parentFD ← openDirectory h parent create;
    r ← catch (k_open_file parentFD name write create reportExisted);
    match r with
    | Ok f => mret (f, false)
    | Err e =>
      if reportExisted && errors_is e EEXIST then
        f ← fs_wrap (wrapPathError "openat" safe) (k_open_file parentFD name write create false);
        mret (f, true)
      else throw (wrapPathError "openat" safe e)
    end.

Definition Root_OpenFile (h : nat) (relative : string) (write create : bool) : fs_cmd path :=
  r ← openFile h relative write create false; mret r.1.
Definition Root_OpenOrCreateFile (h : nat) (relative : string) : fs_cmd (path * bool) :=
  openFile h relative true true true.

Definition Root_Lstat (h : nat) (relative : string) : fs_cmd entry :=
  safe ← of_result (SanitizeRelativePath relative);
  let (parent, name) := splitRelative safe in
  parentFD ← openDirectory h parent false;
  lstatAt parentFD name safe.

Definition Root_Remove (h : nat) (relative : string) : fs_cmd () :=
  safe ← of_result (SanitizeRelativePath relative);
  if bool_decide (safe = "")
  then throw (Wrap ErrInvalidPath ": cannot remove configured root")
  else
    let (parent, name) := splitRelative safe in
    parentFD ← openDirectory h parent false;
    info ← lstatAt parentFD name safe;
    if IsSymlink info then throw (Wrap ErrSymlink (": " +:+ safe))
    else fs_wrap (wrapPathError "unlinkat" safe) (k_unlinkat parentFD name (IsDir info)).

(** [removeEntryAt]; the fuel bounds the depth of the tree below the entry. *)
Fixpoint removeEntryAt (fuel : nat) (fd : path) (name relative : string) : fs_cmd () :=
  match fuel with
  | O => throw (New "directory nesting exceeds the tree")
  | S fuel =>
    st ← catch (lstatAt fd name relative);
    match st with
    | Err e => if errors_is e ErrNotExist then mret () else throw e
    | Ok info =>
      if IsSymlink info then throw (Wrap ErrSymlink (": " +:+ relative))
      else if negb (IsDir info)
      then fs_wrap (wrapPathError "unlinkat" relative) (k_unlinkat fd name false)
      else
        dir ← fs_wrap (wrapPathError "openat" relative) (openDirectoryAt fd name);
        names ← fs_wrap (Wrapf ("read directory " +:+ quote relative)) (k_readdir dir);
        _ ← for_each names (λ child,
              removeEntryAt fuel dir child (filepath_Join [relative; child]));
        fs_wrap (wrapPathError "unlinkat" relative) (k_unlinkat fd name true)
    end
  end.

Definition Root_RemoveAll (h : nat) (relative : string) : fs_cmd () :=
  safe ← of_result (SanitizeRelativePath relative);
  if bool_decide (safe = "")
  then throw (Wrap ErrInvalidPath ": cannot remove configured root")
  else
    let (parent, name) := splitRelative safe in
    r ← catch (openDirectory h parent false);
    match r with
    | Err e => if errors_is e ErrNotExist then mret () else throw e
    | Ok parentFD =>
      s ← get;
      removeEntryAt (S (size (entries s))) parentFD name safe
    end.

Definition Root_SyncDir (h : nat) (relative : string) : fs_cmd () :=
  safe ← of_result (SanitizeRelativePath relative);
  fd ← openDirectory h safe false;
  k_fsync_dir fd.

(** [renameFromWithHook], [h] being the destination root. *)
Definition Root_RenameFrom (h source : nat) (sourceRelative destinationRelative : string)
    (overwrite : bool) : fs_cmd () :=
  sourceSafe ← of_result (SanitizeRelativePath sourceRelative);
  destinationSafe ← of_result (SanitizeRelativePath destinationRelative);
  if bool_decide (sourceSafe = "") || bool_decide (destinationSafe = "")
  then throw (Wrap ErrInvalidPath ": source and destination files are required")
  else
    let (sourceParent, sourceName) := splitRelative sourceSafe in
    let (destinationParent, destinationName) := splitRelative destinationSafe in
    sourceFD ← openDirectory source sourceParent false;
    destinationFD ← openDirectory h destinationParent true;
    sourceInfo ← lstatAt sourceFD sourceName sourceSafe;
    if IsSymlink sourceInfo then throw (Wrap ErrSymlink (": source " +:+ sourceSafe))
    else if negb (IsRegular sourceInfo)
    then throw (New ("source " +:+ quote sourceSafe +:+ " is not a regular file"))
    else
      st ← catch (lstatAt destinationFD destinationName destinationSafe);
      _ ← match st with
          | Ok info =>
            if IsSymlink info then throw (Wrap ErrSymlink (": destination " +:+ destinationSafe))
            else mret ()
          | Err e => if errors_is e ErrNotExist then mret () else throw e
          end;
      rn ← catch (k_renameat sourceFD sourceName destinationFD destinationName (negb overwrite));
      match rn with
      | Ok _ => mret ()
      | Err e =>
        if negb overwrite && errors_is e EEXIST
        then throw (Wrap ErrConflict (": " +:+ destinationSafe))
        else throw (wrapPathError "renameat" destinationSafe e)
      end.

(** ** Conflict planning *)

Definition ConflictRename : string := "rename".
Definition ConflictOverwrite : string := "overwrite".
Definition ConflictFail : string := "fail".
Definition max_candidates : Z := 100000.

Definition candidate_name (stem ext : string) (index : Z) : string :=
  stem +:+ " (" +:+ FormatInt index +:+ ")" +:+ ext.

(** The candidate loop, from [index] on; [todo] iterations are left. *)
Fixpoint conflict_loop (h : nat) (parent stem ext : string) (todo : nat) (index : Z)
    : fs_cmd string :=
  match todo with
  | O => throw (Wrap ErrConflict ": exhausted rename candidates")
  | S todo =>
    candidate ← fs_wrap (Wrapf "build conflict candidate")
      (of_result (SanitizeRelativePath
        (filepath_Join [parent; candidate_name stem ext index])));
    st ← catch (Root_Lstat h candidate);
    match st with
    | Err e =>
      if errors_is e ErrNotExist then mret candidate
      else throw (Wrapf "inspect conflict candidate" e)
    | Ok info =>
      if IsSymlink info
      then throw (Wrap ErrSymlink ": conflict candidate is a symlink")
      else conflict_loop h parent stem ext todo (index + 1)
    end
  end.

Definition Root_PlanConflict (h : nat) (relative policy : string) : fs_cmd string :=
  safe ← of_result (SanitizeRelativePath relative);
  if bool_decide (safe = "")
  then throw (Wrap ErrInvalidPath ": destination file is required")
  else if negb (bool_decide (policy ∈ [ConflictRename; ConflictOverwrite; ConflictFail]))
  then throw (New ("invalid conflict policy " +:+ quote policy))
  else
    st ← catch (Root_Lstat h safe);
    match st with
    | Err e =>
      if errors_is e ErrNotExist then mret safe else throw (Wrapf "inspect destination" e)
    | Ok info =>
      if IsSymlink info then throw (Wrap ErrSymlink ": destination is a symlink")
      else if bool_decide (policy = ConflictOverwrite) then mret safe
      else if bool_decide (policy = ConflictFail)
      then throw (Wrap ErrConflict (": " +:+ safe))
      else
        let (parent, base) := splitRelative safe in
        let ext := if bool_decide (Ext base = base) then "" else Ext base in
        let stem := TrimSuffix base ext in
        conflict_loop h parent stem ext (Z.to_nat max_candidates) 1
    end.

(** ** Well-formed trees and how directory walks change them *)

(** A name a directory can hold. *)
Definition name_ok (n : string) : Prop :=
  n ≠ "" ∧ n ≠ "." ∧ n ≠ ".." ∧ str_elem Slash n = false.

Record tree_ok (m : gmap path entry) : Prop := {
  tree_root : m !! [] = Some EDir;
  tree_parent : ∀ p n, is_Some (m !! (p ++ [n])) → m !! p = Some EDir ∧ name_ok n }.

Definition root_ok (r : RootState) : Prop :=
  Forall name_ok (rt_path r) ∧ absolute_components (rt_name r) = rt_path r.

(** A scheduled failure is an environment error (EIO, EACCES, EXDEV, ...):
    it does not claim to know what is in the tree. *)
Definition fault_ok (f : option error) : Prop :=
  match f with
  | None => True
  | Some e => errors_is e ENOENT = false ∧ errors_is e ErrNotExist = false ∧
              errors_is e EEXIST = false ∧ errors_is e ELOOP = false
  end.

Definition fs_ok (s : FS) : Prop :=
  tree_ok (entries s) ∧ map_Forall (λ _ r, root_ok r) (handles s) ∧
  Forall fault_ok (sys_faults s).

Definition root_at (h : nat) (rp : path) (s : FS) : Prop :=
  rt_path <$> handles s !! h = Some rp.

(** [extends U s s']: the only change to the tree is that directories have
    appeared at paths of [U]. *)
Definition extends (U : path → Prop) (s s' : FS) : Prop :=
  (∀ p, entries s' !! p = entries s !! p ∨
        (U p ∧ entries s !! p = None ∧ entries s' !! p = Some EDir)) ∧
  (∀ h, rt_path <$> handles s' !! h = rt_path <$> handles s !! h).

(** [shrinks V s s']: the only change is that files and directories at paths
    of [V] are gone. *)
Definition shrinks (V : path → Prop) (s s' : FS) : Prop :=
  (∀ p, entries s' !! p = entries s !! p ∨
        (V p ∧ entries s' !! p = None ∧ ∀ t, entries s !! p ≠ Some (ESymlink t))) ∧
  (∀ h, rt_path <$> handles s' !! h = rt_path <$> handles s !! h).

(** A kind of change to the tree: closed under composition, and trivial for a
    failing call. *)
Record change := {
  changes :> FS → FS → Prop;
  change_refl s : changes s s;
  change_trans s1 s2 s3 : changes s1 s2 → changes s2 s3 → changes s1 s3;
  change_faults s fl : changes s (s <| sys_faults := fl |>) }.

(** The specification of a command that changes the tree at most by [R],
    whatever its outcome. *)
Definition rspec {A} (R : change) (pre : FS → Prop) (m : fs_cmd A)
    (post : A → FS → Prop) : Prop :=
  ∀ s, fs_ok s → pre s →
    fs_ok (m s).1 ∧ R s (m s).1 ∧ ∀ a, (m s).2 = Ok a → post a (m s).1.

(** ** Lemmas *)

Lemma extends_refl U s : extends U s s.
Proof. split; auto. Qed.

Lemma extends_trans U s1 s2 s3 : extends U s1 s2 → extends U s2 s3 → extends U s1 s3.
Proof.
  intros [H1 G1] [H2 G2]. split; [|intros h; by rewrite G2].
  intros p. destruct (H1 p) as [E1|(?&E1&E1')], (H2 p) as [E2|(?&E2&E2')].
  - left. congruence.
  - right. split_and!; congruence.
  - right. split_and!; congruence.
  - congruence.
Qed.

Lemma extends_mono (U V : path → Prop) s s' :
  (∀ p, U p → V p) → extends U s s' → extends V s s'.
Proof. intros HUV [H G]. split; [|done]. intros p. destruct (H p) as [|(?&?&?)]; auto. Qed.

(** What was there stays there. *)
Lemma extends_lookup U s s' p e :
  extends U s s' → entries s !! p = Some e → entries s' !! p = Some e.
Proof. intros [H _] He. destruct (H p) as [->|(_&?&_)]; congruence. Qed.

Lemma extends_file U s s' p e :
  extends U s s' → e ≠ EDir → entries s' !! p = Some e → entries s !! p = Some e.
Proof. intros [H _] Hne He. destruct (H p) as [<-|(_&_&?)]; congruence. Qed.

Lemma extends_root U s s' h rp : extends U s s' → root_at h rp s → root_at h rp s'.
Proof. intros [_ G]. unfold root_at. by rewrite G. Qed.

Lemma shrinks_trans V s1 s2 s3 : shrinks V s1 s2 → shrinks V s2 s3 → shrinks V s1 s3.
Proof.
  intros [H1 G1] [H2 G2]. split; [|intros h; by rewrite G2].
  intros p. destruct (H1 p) as [E1|(?&E1&Hs)], (H2 p) as [E2|(?&E2&Hs2)].
  - left. congruence.
  - right. split_and!; [done|done|]. by rewrite <- E1.
  - right. split_and!; congruence.
  - right. split_and!; done.
Qed.

(** Directories of [U] may appear; entries of [V] other than links may go. *)
Definition growing (U : path → Prop) : change.
Proof.
  refine {| changes := extends U; change_refl := extends_refl U;
            change_trans := extends_trans U |}. by split; auto.
Defined.

Definition shrinking (V : path → Prop) : change.
Proof.
  refine {| changes := shrinks V; change_trans := shrinks_trans V |}; by split; auto.
Defined.

Abbreviation spec U := (rspec (growing U)).

Section spec.
Context (R : change).

Lemma spec_ret {A} (pre : FS → Prop) (a : A) (post : A → FS → Prop) :
  (∀ s, pre s → post a s) → rspec R pre (mret a) post.
Proof.
  intros Hp s Hok Hpre. split_and!; [done|apply change_refl|].
  unfold mret, cmd_ret. simpl. intros; simplify_eq. by apply Hp.
Qed.

Lemma spec_throw {A} pre e (post : A → FS → Prop) : rspec R pre (throw e) post.
Proof. intros s Hok Hpre. simpl. split_and!; [done|apply change_refl|done]. Qed.

Lemma spec_bind {A B} pre (m : fs_cmd A) (k : A → fs_cmd B) mid post :
  rspec R pre m mid → (∀ a, rspec R (mid a) (k a) post) → rspec R pre (m ≫= k) post.
Proof.
  intros Hm Hk s Hok Hpre. unfold mbind, cmd_bind.
  destruct (Hm s Hok Hpre) as (Hok1&Hex1&Hpost1).
  destruct (m s) as [s1 [a|e]]; simpl in *; [|by split_and!].
  destruct (Hk a s1 Hok1 (Hpost1 a eq_refl)) as (Hok2&Hex2&Hpost2).
  split_and!; [done|by eapply change_trans|done].
Qed.

Lemma spec_catch {A} pre (m : fs_cmd A) post :
  rspec R pre m post → rspec R pre (catch m) (λ r s, ∀ a, r = Ok a → post a s).
Proof.
  intros Hm s Hok Hpre. destruct (Hm s Hok Hpre) as (?&?&Hp). unfold catch. simpl.
  split_and!; [done|done|]. intros r Hr a ->. apply Hp. congruence.
Qed.

Lemma spec_conseq {A} (pre pre' : FS → Prop) (m : fs_cmd A) (post post' : A → FS → Prop) :
  rspec R pre m post → (∀ s, pre' s → pre s) → (∀ a s, post a s → post' a s) →
  rspec R pre' m post'.
Proof.
  intros Hm Hpre Hpost s Hok Hs. destruct (Hm s Hok (Hpre s Hs)) as (?&?&?). eauto.
Qed.

(** A fact about the tree that creating directories cannot change may be
    carried along. *)
Lemma spec_frame {A} (F : FS → Prop) pre (m : fs_cmd A) post :
  (∀ s s' : FS, R s s' → F s → F s') →
  rspec R pre m post → rspec R (λ s, pre s ∧ F s) m (λ a s, post a s ∧ F s).
Proof.
  intros HF Hm s Hok [Hpre Hf]. destruct (Hm s Hok Hpre) as (?&?&?). split_and!; eauto.
Qed.

Lemma spec_fs_wrap {A} pre wrap (m : fs_cmd A) post :
  rspec R pre m post → rspec R pre (fs_wrap wrap m) post.
Proof.
  intros Hm. eapply spec_bind; [by apply spec_catch|]. intros [a|e]; simpl.
  - apply spec_ret. intros s Hp. by apply Hp.
  - apply spec_throw.
Qed.

(** A system call: with a failure scheduled nothing happens. *)
Lemma spec_sys {A} pre (run : FS → FS * result error A) post :
  (∀ s, fs_ok s → pre s →
     fs_ok (run s).1 ∧ R s (run s).1 ∧ ∀ a, (run s).2 = Ok a → post a (run s).1) →
  (∀ s fl, pre s → pre (s <| sys_faults := fl |>)) →
  rspec R pre (sys run) post.
Proof.
  intros Hrun Hpre s Hok Hs. unfold sys.
  assert (∀ f fl, sys_faults s = f :: fl → fs_ok (s <| sys_faults := fl |>)) as Hok'.
  { intros f fl Hf. destruct Hok as (?&?&Hfl). rewrite Hf in Hfl.
    apply Forall_cons in Hfl as [_ ?]. by split_and!. }
  destruct (sys_faults s) as [|[e|] rest] eqn:E.
  - by apply Hrun.
  - split_and!; [by eapply Hok'|apply change_faults|done].
  - destruct (Hrun (s <| sys_faults := rest |>)) as (?&?&?); [by eapply Hok'|by apply Hpre|].
    split_and!; [done|eapply change_trans; [apply change_faults|done]|done].
Qed.
End spec.

Lemma at_path_ok fd n : name_ok n → at_path fd n = fd ++ [n].
Proof.
  intros (H1&H2&H3&Hs). unfold at_path. rewrite (Split_no_sep n Slash) by done.
  assert (IsAbs n = false) as ->.
  { rewrite IsAbs_spec. destruct n as [|c n]; [done|]. simpl in Hs.
    by apply orb_false_iff in Hs as [? _]. }
  simpl. unfold at_step. by rewrite !bool_decide_eq_false_2.
Qed.

Lemma valid_name_ok c : valid_component c → name_ok c.
Proof. intros Hc. apply Is_true_true, valid_component_spec in Hc. unfold name_ok. naive_solver. Qed.

Lemma valid_names_ok l : Forall valid_component l → Forall name_ok l.
Proof. intros Hl. eapply Forall_impl; [exact Hl|]. apply valid_name_ok. Qed.

Lemma tree_ok_insert_dir m fd n :
  tree_ok m → name_ok n → m !! fd = Some EDir → m !! (fd ++ [n]) = None →
  tree_ok (<[fd ++ [n] := EDir]> m).
Proof.
  intros [Hroot Hpar] Hn Hfd Hnone. split.
  - rewrite lookup_insert_ne; [done|]. by destruct fd.
  - intros p c. rewrite lookup_insert_is_Some. intros [Heq|[Hne Hs]].
    + apply app_inj_tail in Heq as [-> ->]. split; [|done].
      rewrite lookup_insert_ne; [done|]. intros Heq. apply (f_equal length) in Heq.
      rewrite length_app in Heq. simpl in Heq. lia.
    + destruct (Hpar p c Hs) as [Hp Hc]. split; [|done].
      destruct (decide (fd ++ [n] = p)) as [<-|]; [by rewrite lookup_insert_eq|].
      by rewrite lookup_insert_ne.
Qed.

(** A faultless call that leaves the state alone. *)
Lemma spec_sys_pure {A} U (f : FS → result error A) (post : A → FS → Prop) :
  (∀ s a, f s = Ok a → post a s) →
  spec U (λ _, True) (sys (λ s, (s, f s))) post.
Proof. intros Hf. apply spec_sys; [|done]. intros s Hok _. split_and!; [done|apply extends_refl|eauto]. Qed.

Lemma sys_ext {A} (run run' : FS → FS * result error A) :
  (∀ s, run s = run' s) → ∀ s, sys run s = sys run' s.
Proof. intros Hr s. unfold sys. destruct (sys_faults s) as [|[]]; by rewrite ?Hr. Qed.

Lemma spec_ext {A} U pre (m m' : fs_cmd A) post :
  (∀ s, m s = m' s) → spec U pre m' post → spec U pre m post.
Proof. intros Hm Hs s Hok Hpre. rewrite Hm. by apply Hs. Qed.

Lemma spec_k_open_dir U fd n :
  name_ok n →
  spec U (λ _, True) (k_open_dir fd n)
    (λ ch s, ch = fd ++ [n] ∧ entries s !! ch = Some EDir).
Proof.
  intros Hn. eapply spec_ext.
  - unfold k_open_dir. apply (sys_ext _ (λ s, (s,
      match entries s !! at_path fd n with
      | Some EDir => Ok (at_path fd n)
      | Some _ => Err (Sentinel ENOTDIR)
      | None => Err (Sentinel ENOENT)
      end))). intros s. by repeat case_match.
  - apply spec_sys_pure. intros s a. rewrite at_path_ok by done.
    repeat case_match; naive_solver.
Qed.

Lemma spec_k_fstatat U fd n :
  name_ok n →
  spec U (λ _, True) (k_fstatat fd n) (λ e s, entries s !! (fd ++ [n]) = Some e).
Proof.
  intros Hn. eapply spec_ext.
  - unfold k_fstatat. apply (sys_ext _ (λ s, (s,
      match entries s !! at_path fd n with
      | Some e => Ok e | None => Err (Sentinel ENOENT) end))).
    intros s. by case_match.
  - apply spec_sys_pure. intros s a. rewrite at_path_ok by done. case_match; naive_solver.
Qed.

Lemma spec_k_mkdirat (U : path → Prop) fd n :
  name_ok n → U (fd ++ [n]) →
  spec U (λ _, True) (k_mkdirat fd n) (λ _ s, entries s !! (fd ++ [n]) = Some EDir).
Proof.
  intros Hn HU. apply spec_sys; [|done]. intros s (Htree&Hh&Hfl) _.
  rewrite at_path_ok by done.
  destruct (entries s !! (fd ++ [n])) as [e|] eqn:E; simpl.
  { split_and!; [done|apply extends_refl|done]. }
  case_bool_decide as Hfd; simpl; [|split_and!; [done|apply extends_refl|done]].
  split_and!.
  - split_and!; [|done|done]. by apply tree_ok_insert_dir.
  - split; [|done]. intros p. simpl. destruct (decide (fd ++ [n] = p)) as [<-|].
    + right. by rewrite lookup_insert_eq.
    + left. by rewrite lookup_insert_ne.
  - intros _ _. by rewrite lookup_insert_eq.
Qed.

Lemma spec_openDirectoryAt U fd n :
  name_ok n →
  spec U (λ _, True) (openDirectoryAt fd n)
    (λ ch s, ch = fd ++ [n] ∧ entries s !! ch = Some EDir).
Proof.
  intros Hn. unfold openDirectoryAt.
  eapply spec_bind; [by apply spec_catch, spec_k_open_dir|]. intros [ch|e]; simpl.
  - apply spec_ret. intros s Hp. by apply Hp.
  - case_match; [|apply spec_throw].
    eapply spec_bind.
    { eapply spec_conseq; [by apply spec_catch, spec_k_fstatat|done|by intros]. }
    intros [st|]; [|apply spec_throw]. case_match; apply spec_throw.
Qed.

(** The walk: it ends at the path its components spell, creating only
    directories on the way. *)
Lemma spec_walk (U : path → Prop) create wrap fd comps :
  Forall name_ok comps →
  (create = true → ∀ k, k `prefix_of` comps → U (fd ++ k)) →
  spec U (λ _, True) (walk create wrap fd comps)
    (λ ch s, ch = fd ++ comps ∧ (comps ≠ [] → entries s !! ch = Some EDir)).
Proof.
  intros Hall. revert fd. induction Hall as [|c comps Hc Hall IH]; intros fd HU.
  { simpl. apply spec_ret. intros s _. by rewrite app_nil_r. }
  cbn [walk]. eapply spec_bind; [by apply spec_catch, spec_openDirectoryAt|].
  intros r. cbn beta.
  apply spec_bind with (mid := λ ch s, ch = fd ++ [c] ∧ entries s !! ch = Some EDir).
  { assert (spec U (λ _, True) (fs_wrap (wrap "openat") (openDirectoryAt fd c))
      (λ ch s, ch = fd ++ [c] ∧ entries s !! ch = Some EDir)) as Hretry
      by (by apply spec_fs_wrap, spec_openDirectoryAt).
    destruct r as [ch|e].
    - apply spec_ret. intros s Hp. by apply Hp.
    - destruct (errors_is e ENOENT && create) eqn:E; [|apply spec_throw].
      apply andb_true_iff in E as [_ ->]. eapply spec_bind.
      { eapply spec_conseq; [apply spec_catch, spec_k_mkdirat; [done|]|done|by intros].
        apply HU; [done|]. apply prefix_cons_alt; [done|apply prefix_nil]. }
      intros [u|me]; [eapply spec_conseq; [exact Hretry|done|done]|].
      case_match; [eapply spec_conseq; [exact Hretry|done|done]|apply spec_throw]. }
  intros child. destruct (decide (child = fd ++ [c])) as [->|Hne].
  - eapply spec_conseq.
    + apply (spec_frame (growing U) (λ s, entries s !! (fd ++ [c]) = Some EDir)).
      * intros s s' Hex He. eapply (extends_lookup U); [exact Hex|done].
      * apply IH. intros Hcr k Hk. rewrite <- app_assoc. apply HU; [done|].
        by apply prefix_cons.
    + by intros s [_ ?].
    + intros ch s [[-> Hd] Hfd]. rewrite <- app_assoc. split; [done|]. intros _.
      destruct comps as [|c' comps]; [done|]. rewrite <- app_assoc in Hd. by apply Hd.
  - intros s Hok [? _]. done.
Qed.

Lemma spec_get U (pre : FS → Prop) : spec U pre get (λ x s, x = s ∧ pre s ∧ fs_ok s).
Proof.
  intros s Hok Hpre. unfold get. simpl. split_and!; [done|apply extends_refl|].
  intros a [= <-]. done.
Qed.

Lemma spec_set_root U h f :
  (∀ r, rt_path (f r) = rt_path r ∧ rt_name (f r) = rt_name r) →
  spec U (λ _, True) (set_root h f) (λ _ _, True).
Proof.
  intros Hf s (Ht&Hh&Hfl) _. unfold set_root, modify. simpl. split_and!; [|split|done].
  - split_and!; [done| |done]. intros i r. simpl. rewrite lookup_alter_Some.
    intros [(->&r0&Hr&->)|[_ Hr]]; [|by eapply Hh].
    destruct (Hf r0) as [H1 H2]. apply Hh in Hr. unfold root_ok in *. simpl in Hr.
    by rewrite H1, H2.
  - intros p. by left.
  - intros i. simpl. destruct (decide (h = i)) as [->|].
    + rewrite lookup_alter_eq. destruct (handles s !! i) as [r|]; [|done]. simpl.
      f_equal. by apply Hf.
    + by rewrite lookup_alter_ne.
Qed.

Lemma spec_k_dup U : spec U (λ _, True) k_dup (λ _ _, True).
Proof. apply spec_sys; [|done]. intros s Hok _. split_and!; [done|apply extends_refl|done]. Qed.

(** Creating directories moves no root and removes no entry. *)
Lemma spec_frame_root {A} U h rp pre (m : fs_cmd A) post :
  spec U pre m post →
  spec U (λ s, pre s ∧ root_at h rp s) m (λ a s, post a s ∧ root_at h rp s).
Proof. intros Hm. apply spec_frame; [|done]. intros s s'. apply (extends_root U). Qed.

Lemma spec_frame_lookup {A} U p e pre (m : fs_cmd A) post :
  spec U pre m post →
  spec U (λ s, pre s ∧ entries s !! p = Some e) m
    (λ a s, post a s ∧ entries s !! p = Some e).
Proof. intros Hm. apply spec_frame; [|done]. intros s s'. apply (extends_lookup U). Qed.

(** [create] allows directories down to [q]. *)
Definition makes (create : bool) (q : path) : path → Prop :=
  λ p, create = true ∧ p `prefix_of` q.

Lemma spec_weaken {A} (U V : path → Prop) pre (m : fs_cmd A) post :
  (∀ p, U p → V p) → spec U pre m post → spec V pre m post.
Proof.
  intros HUV Hm s Hok Hs. destruct (Hm s Hok Hs) as (?&?&?). split_and!; try done.
  by eapply extends_mono.
Qed.

Lemma spec_pre {A} U (P : Prop) (pre : FS → Prop) (m : fs_cmd A) post :
  (P → spec U pre m post) → spec U (λ s, P ∧ pre s) m post.
Proof. intros Hm s Hok [HP Hs]. by apply Hm. Qed.

Lemma spec_rootDescriptor h rp create :
  spec (makes create rp) (root_at h rp) (rootDescriptor h create) (λ fd _, fd = rp).
Proof.
  unfold rootDescriptor. eapply spec_bind; [apply spec_get|]. intros x. simpl.
  intros s Hok (->&Hat&_). unfold root_at in Hat.
  destruct (handles s !! h) as [r|] eqn:Hr; [|done]. simpl in Hat. injection Hat as Hrp.
  pose proof (proj1 (proj2 Hok) h r Hr) as [Hnames Habs].
  enough (spec (makes create rp) (λ _, True) (if rt_closed r then throw (Sentinel ErrClosed) else
    (_ ← (if rt_open r then mret ()
          else _ ← fs_wrap (wrapPathError "open root" (rt_name r))
                 (openAbsoluteDirectory (rt_name r) create);
               set_root h (λ r, r <| rt_open := true |>));
     _ ← fs_wrap (Wrapf "duplicate root descriptor") k_dup;
     mret (rt_path r))) (λ fd _, fd = rp)) as Hspec by (by apply Hspec).
  destruct (rt_closed r); [apply spec_throw|].
  { apply spec_bind with (mid := λ _ _, True).
    - destruct (rt_open r); [by apply spec_ret|].
      apply spec_bind with (mid := λ _ _, True).
      + apply spec_fs_wrap. unfold openAbsoluteDirectory. rewrite Habs.
        eapply spec_conseq; [apply spec_walk; [done|]|done|done].
        intros Hc k Hk. split; [done|]. by rewrite <- Hrp.
      + intros _. by apply spec_set_root.
    - intros _. eapply spec_bind; [apply spec_fs_wrap, spec_k_dup|].
      intros ?. by apply spec_ret. }
Qed.

Lemma spec_of_result {A} U (r : result error A) :
  spec U (λ _, True) (of_result r) (λ a _, r = Ok a).
Proof. destruct r as [a|e]; [by apply spec_ret|apply spec_throw]. Qed.

Lemma components_split p : p ≠ "" → Split p Slash = components p.
Proof. intros Hp. unfold components. by rewrite bool_decide_eq_false_2. Qed.

(** Opening a directory below a root ends below that root. *)
Lemma spec_openDirectory h rp relative create :
  spec (makes create (rp ++ components relative)) (root_at h rp)
    (openDirectory h relative create)
    (λ fd s, fd = rp ++ components relative ∧ Forall valid_component (components relative) ∧
             root_at h rp s).
Proof.
  unfold openDirectory. apply spec_bind with (mid := λ safe s,
    (safe = relative ∧ Forall valid_component (components relative)) ∧ root_at h rp s).
  { eapply spec_conseq.
    - apply spec_frame_root.
      apply spec_of_result.
    - done.
    - intros a s [Hs ?]. apply SanitizeRelativePath_ok in Hs as [-> ?]. done. }
  intros safe. apply spec_pre. intros [-> Hval].
  apply spec_bind with (mid := λ fd s, fd = rp ∧ root_at h rp s).
  { eapply spec_weaken; [|eapply spec_conseq].
    2:{ apply spec_frame_root.
        apply spec_rootDescriptor. }
    - intros p [Hc Hp]. split; [done|]. by apply prefix_app_r.
    - done.
    - done. }
  intros fd. apply spec_pre. intros ->. case_bool_decide as Hne.
  - apply spec_ret. subst. intros s Hs. unfold components. simpl. by rewrite app_nil_r.
  - rewrite components_split by done. eapply spec_conseq.
    + apply spec_frame_root.
      apply spec_walk; [by apply valid_names_ok|].
      intros Hc k Hk. split; [done|]. by apply prefix_app.
    + done.
    + intros ch s [[-> _] ?]. done.
Qed.

Lemma spec_openDirectory_at h rp relative create init :
  components relative = init →
  spec (makes create (rp ++ init)) (root_at h rp) (openDirectory h relative create)
    (λ fd s, fd = rp ++ init ∧ root_at h rp s).
Proof.
  intros <-. eapply spec_conseq; [apply spec_openDirectory|done|]. by intros fd s (->&_&?).
Qed.

(** One step of a command seen from its starting state [s0], which has so
    far only gained directories. *)
Lemma spec_step {A B} U pre (m : fs_cmd A) mid (k : A → fs_cmd B)
    (G : FS * result error B → Prop) s0 s :
  spec U pre m mid → fs_ok s → extends U s0 s → pre s →
  (∀ s1 e, fs_ok s1 → extends U s0 s1 → G (s1, Err e)) →
  (∀ a s1, fs_ok s1 → extends U s0 s1 → mid a s1 → G (k a s1)) →
  G ((m ≫= k) s).
Proof.
  intros Hm Hok Hex Hpre Herr Hk. unfold mbind, cmd_bind.
  destruct (Hm s Hok Hpre) as (Hok1&Hex1&Hpost).
  destruct (m s) as [s1 [a|e]]; simpl in *.
  - apply Hk; [done|by eapply extends_trans|by apply Hpost].
  - apply Herr; [done|by eapply extends_trans].
Qed.

Lemma spec_lstatAt U fd n rel :
  name_ok n →
  spec U (λ _, True) (lstatAt fd n rel) (λ e s, entries s !! (fd ++ [n]) = Some e).
Proof. intros Hn. by apply spec_fs_wrap, spec_k_fstatat. Qed.

Lemma fs_wrap_eq {A} wrap (m : fs_cmd A) s :
  fs_wrap wrap m s =
  match m s with (s', Ok a) => (s', Ok a) | (s', Err e) => (s', Err (wrap e)) end.
Proof. unfold fs_wrap, mbind, cmd_bind, catch. by destruct (m s) as [s' [a|e]]. Qed.

Lemma wrapPathError_not_exist op p e :
  errors_is (wrapPathError op p e) ErrNotExist = true →
  errors_is e ENOENT = true ∨ errors_is e ErrNotExist = true.
Proof.
  unfold wrapPathError. destruct (errors_is e ELOOP); [done|].
  destruct (errors_is e ENOENT); [by left|]. simpl. by right.
Qed.

(** A lookup whose outcome is inspected: what it says about the tree is
    true. *)
Lemma spec_catch_lstatAt U fd n rel :
  name_ok n →
  spec U (λ _, True) (catch (lstatAt fd n rel)) (λ r s,
    match r with
    | Ok e => entries s !! (fd ++ [n]) = Some e
    | Err e => errors_is e ErrNotExist = true → entries s !! (fd ++ [n]) = None
    end).
Proof.
  intros Hn s Hok _.
  destruct (spec_catch (growing U) _ _ _ (spec_lstatAt U fd n rel Hn) s Hok I) as (Hok'&Hex&Hpost).
  split_and!; [done|done|]. intros r Hr. specialize (Hpost r Hr).
  destruct r as [e|e]; [by apply Hpost|]. intros Hne.
  clear Hok' Hex Hpost. pose proof (proj2 (proj2 Hok)) as Hfl.
  assert (lstatAt fd n rel s = ((lstatAt fd n rel s).1, Err e)) as Hl.
  { unfold catch in Hr. simpl in Hr. destruct (lstatAt fd n rel s). simpl in *. congruence. }
  change ((catch (lstatAt fd n rel) s).1) with ((lstatAt fd n rel s).1).
  revert Hl. unfold lstatAt. rewrite fs_wrap_eq. unfold k_fstatat, sys.
  rewrite (at_path_ok fd n Hn).
  destruct (sys_faults s) as [|[f|] fl]; simpl.
  - destruct (entries s !! (fd ++ [n])) eqn:E; by intros; simplify_eq/=.
  - apply Forall_cons in Hfl as [(H1&H2&_) _]. intros; simplify_eq/=.
    apply wrapPathError_not_exist in Hne as [?|?]; congruence.
  - destruct (entries s !! (fd ++ [n])) eqn:E; by intros; simplify_eq/=.
Qed.

(** A sanitized non-empty path, taken apart. *)
Lemma split_sanitized v w :
  SanitizeRelativePath v = Ok w → w ≠ "" →
  w = v ∧ ∃ init name, components v = init ++ [name] ∧ splitRelative w = (Join init "/", name) ∧
    name_ok name ∧ Forall valid_component init ∧ components (Join init "/") = init.
Proof.
  intros Hs Hne. apply SanitizeRelativePath_ok in Hs as [-> Hval]. split; [done|].
  destruct (components v) as [|name init _] eqn:Hc using rev_ind.
  { by apply components_nonempty in Hne. }
  exists init, name. pose proof Hval as [Hi [Hn _]%Forall_cons]%Forall_app.
  split_and!; [done| |by apply valid_name_ok|done|].
  - rewrite <- (Join_components v) by done. rewrite Hc. by apply splitRelative_valid.
  - destruct init; [done|]. by apply components_Join.
Qed.

Lemma spec_lstat_at h rp parent name rel init :
  components parent = init → name_ok name →
  spec (λ _, False) (root_at h rp)
    (fd ← openDirectory h parent false; lstatAt fd name rel)
    (λ e s, entries s !! (rp ++ init ++ [name]) = Some e).
Proof.
  intros <- Hn. eapply spec_bind.
  - eapply spec_weaken; [|apply spec_openDirectory]. by intros p [? _].
  - intros fd. simpl. intros s Hok [-> _]. rewrite app_assoc. by apply spec_lstatAt.
Qed.

Lemma spec_Root_Lstat h rp relative :
  relative ≠ "" →
  spec (λ _, False) (root_at h rp) (Root_Lstat h relative)
    (λ e s, entries s !! (rp ++ components relative) = Some e).
Proof.
  intros Hne. unfold Root_Lstat. destruct (SanitizeRelativePath relative) as [w|e] eqn:Hs.
  - pose proof (SanitizeRelativePath_ok _ _ Hs) as [-> _].
    destruct (split_sanitized _ _ Hs Hne) as (_&init&name&Hc&Hsp&Hn&_&Hci).
    simpl. change (spec (λ _, False) (root_at h rp)
      (let (parent, name) := splitRelative relative in
       parentFD ← openDirectory h parent false; lstatAt parentFD name relative)
      (λ e s, entries s !! (rp ++ components relative) = Some e)).
    rewrite Hsp, Hc. by apply spec_lstat_at.
  - apply spec_throw.
Qed.

(** ** Moving a file between roots *)

Lemma tree_ok_leaf m p e : tree_ok m → m !! p = Some e → e ≠ EDir → ∀ n, m !! (p ++ [n]) = None.
Proof.
  intros [_ Hpar] He Hne n. destruct (m !! (p ++ [n])) eqn:E; [|done].
  destruct (Hpar p n) as [Hp _]; [by eexists|]. congruence.
Qed.

Lemma tree_ok_move m src dfd dname c :
  tree_ok m → m !! src = Some (EFile c) → m !! dfd = Some EDir → name_ok dname →
  m !! (dfd ++ [dname]) ≠ Some EDir →
  tree_ok (<[dfd ++ [dname] := EFile c]> (delete src m)).
Proof.
  intros Ht Hsrc Hdfd Hn Hdst. pose proof Ht as [Hroot Hpar].
  assert (∀ p, m !! p = Some EDir → src ≠ p) as Hns by (intros p Hp ->; congruence).
  split.
  - rewrite lookup_insert_ne by (by destruct dfd). by rewrite lookup_delete_ne by auto.
  - intros p n. rewrite lookup_insert_is_Some. intros Hs.
    assert (m !! p = Some EDir ∧ name_ok n) as [Hp Hname].
    { destruct Hs as [Heq|[_ [e He]]].
      - apply app_inj_tail in Heq as [<- <-]. done.
      - apply Hpar. exists e. by apply lookup_delete_Some in He as [_ ?]. }
    split; [|done]. rewrite lookup_insert_ne by (intros <-; congruence).
    by rewrite lookup_delete_ne by auto.
Qed.

(** What [RenameFrom] can leave behind: a failure has at most created the
    destination's parent directories; a success has also moved the file. *)
Definition renamed (U : path → Prop) (overwrite : bool) (src dst : path) (s : FS)
    (out : FS * result error ()) : Prop :=
  let (s', r) := out in
  fs_ok s' ∧
  match r with
  | Err _ => extends U s s'
  | Ok _ => ∃ c mid, extends U s mid ∧ entries mid !! src = Some (EFile c) ∧
      (∀ t, entries mid !! dst ≠ Some (ESymlink t)) ∧ entries mid !! dst ≠ Some EDir ∧
      (overwrite = false → entries mid !! dst = None) ∧
      entries s' = <[dst := EFile c]> (delete src (entries mid)) ∧
      (∀ h, rt_path <$> handles s' !! h = rt_path <$> handles s !! h)
  end.

Lemma renamed_err U overwrite src dst s s' e :
  fs_ok s' → extends U s s' → renamed U overwrite src dst s (s', Err e).
Proof. done. Qed.

Lemma k_renameat_moved U overwrite sfd sname dfd dname s0 s c rest :
  name_ok sname → name_ok dname → fs_ok s → extends U s0 s →
  entries s !! (sfd ++ [sname]) = Some (EFile c) →
  (∀ t, entries s !! (dfd ++ [dname]) ≠ Some (ESymlink t)) →
  (∀ e s1, ∃ e', rest (Err e) s1 = (s1, Err e')) → (∀ s1, rest (Ok ()) s1 = (s1, Ok ())) →
  renamed U overwrite (sfd ++ [sname]) (dfd ++ [dname]) s0
    ((rn ← catch (k_renameat sfd sname dfd dname (negb overwrite)); rest rn) s).
Proof.
  intros Hsn Hdn (Ht&Hh&Hfl) Hex Hsrc Hdst Herr Hok.
  assert (∀ e s1, fs_ok s1 → extends U s0 s1 →
    renamed U overwrite (sfd ++ [sname]) (dfd ++ [dname]) s0 (rest (Err e) s1)) as Hfail.
  { intros e s1 ? ?. destruct (Herr e s1) as [e' ->]. by apply renamed_err. }
  assert (∀ fl, extends U s0 (s <| sys_faults := fl |>)) as Hex'
    by (intros fl; eapply extends_trans; [exact Hex|split; auto]).
  assert (∀ s1, entries s1 = entries s → handles s1 = handles s → Forall fault_ok (sys_faults s1) →
    extends U s0 s1 →
    renamed U overwrite (sfd ++ [sname]) (dfd ++ [dname]) s0
      (rest (rename_run sfd sname dfd dname (negb overwrite) s1).2
            (rename_run sfd sname dfd dname (negb overwrite) s1).1)) as Hrun.
  { intros s1 He1 Hh1 Hf1 Hex1. unfold rename_run. rewrite !at_path_ok by done. rewrite He1, Hsrc.
    assert (fs_ok s1) as Hok1 by (unfold fs_ok; rewrite He1, Hh1; done).
    assert (∀ c', entries s !! dfd = Some EDir → entries s !! (dfd ++ [dname]) = None ∨
        (entries s !! (dfd ++ [dname]) = Some (EFile c') ∧ negb overwrite = false) →
      renamed U overwrite (sfd ++ [sname]) (dfd ++ [dname]) s0
        (s1 <| entries := <[dfd ++ [dname] := EFile c]>
                            (delete (sfd ++ [sname]) (entries s)) |>, Ok ())) as Hmove.
    { intros c' Hd Hc'. split.
      - split_and!; [|by simpl; rewrite Hh1|done]. simpl. apply tree_ok_move; try done.
        destruct Hc' as [->|[-> _]]; done.
      - exists c, s1. rewrite He1. split_and!; try done.
        + destruct Hc' as [->|[-> _]]; done.
        + intros ->. by destruct Hc' as [?|[_ ?]].
        + intros h. simpl. destruct Hex1 as [_ G]. by rewrite G. }
    destruct (entries s !! (dfd ++ [dname])) as [[| c'|t]|] eqn:Hd; simpl.
    - by apply Hfail.
    - destruct (negb overwrite) eqn:Ho; simpl; [by apply Hfail|].
      case_bool_decide as Hsame; simpl; rewrite Hok.
      + split; [done|]. exists c, s1. rewrite He1, Hsame in *. rewrite Hd in Hsrc.
        simplify_eq. split_and!; try done.
        * intros t. by rewrite Hd.
        * by rewrite Hd.
        * by intros ->.
        * rewrite insert_delete_eq. symmetry. by apply insert_id.
        * intros h. destruct Hex1 as [_ G]. by rewrite G.
      + eapply Hmove; [|by right]. eapply tree_parent; [done|by eexists].
    - by destruct (Hdst t).
    - case_bool_decide as Hdfd; simpl; [rewrite Hok|by apply Hfail].
      eapply (Hmove []); [done|by left]. }
  unfold mbind, cmd_bind, catch, k_renameat, sys.
  destruct (sys_faults s) as [|[e|] fl] eqn:Ef; simpl;
    rewrite ?Ef in Hfl; try apply Forall_cons in Hfl as [_ Hfl].
  - apply (Hrun s); try done. by rewrite Ef.
  - apply Hfail; [by split_and!|apply Hex'].
  - apply (Hrun (s <| sys_faults := fl |>)); done || apply Hex'.
Qed.

Lemma Root_RenameFrom_renamed h src rp sp sourceRelative destinationRelative overwrite s :
  fs_ok s → root_at h rp s → root_at src sp s →
  renamed (makes true (rp ++ removelast (components destinationRelative))) overwrite
    (sp ++ components sourceRelative) (rp ++ components destinationRelative) s
    (Root_RenameFrom h src sourceRelative destinationRelative overwrite s).
Proof.
  intros Hok Hh Hsrc. unfold Root_RenameFrom.
  set (U := makes true (rp ++ removelast (components destinationRelative))).
  destruct (SanitizeRelativePath sourceRelative) as [ss|e] eqn:Hss.
  2:{ by apply renamed_err; [|apply extends_refl]. }
  erewrite cmd_bind_ok by done.
  destruct (SanitizeRelativePath destinationRelative) as [ds|e] eqn:Hds.
  2:{ by apply renamed_err; [|apply extends_refl]. }
  erewrite cmd_bind_ok by done.
  destruct (bool_decide (ss = "") || bool_decide (ds = "")) eqn:Hne.
  { by apply renamed_err; [|apply extends_refl]. }
  bool_to_prop.
  destruct (split_sanitized _ _ Hss) as (->&si&sn&Hsc&Hsplit&Hsn&_&Hsi); [done|].
  destruct (split_sanitized _ _ Hds) as (->&di&dn&Hdc&Hdsplit&Hdn&_&Hdi); [done|].
  rewrite Hsplit, Hdsplit, Hsc, Hdc.
  assert (U = makes true (rp ++ di)) as HU by (unfold U; by rewrite Hdc, removelast_last).
  clearbody U. subst U.
  eapply (spec_step _ (λ s, root_at src sp s ∧ root_at h rp s) _
    (λ fd s, fd = sp ++ si ∧ root_at h rp s));
    [|exact Hok|apply extends_refl|done|intros; by apply renamed_err|].
  { eapply spec_conseq.
    - apply (spec_frame_root _ h rp).
      eapply spec_weaken; [|by apply (spec_openDirectory_at src sp)]. by intros p [? _].
    - done.
    - by intros fd s' [[-> _] ?]. }
  intros sfd s1 Hok1 Hex1 [-> Hh1].
  eapply (spec_step _ (root_at h rp) _ (λ fd s, fd = rp ++ di));
    [|exact Hok1|exact Hex1|done|intros; by apply renamed_err|].
  { eapply spec_conseq; [by apply spec_openDirectory_at|done|]. by intros fd s' [-> _]. }
  intros dfd s2 Hok2 Hex2 ->.
  eapply spec_step; [by apply spec_lstatAt|exact Hok2|exact Hex2|done|
    intros; by apply renamed_err|].
  intros info s3 Hok3 Hex3 Hinfo. cbn beta in Hinfo.
  destruct (IsSymlink info) eqn:Hsym; [by apply renamed_err|].
  destruct (IsRegular info) eqn:Hreg; [|by apply renamed_err]. simpl.
  destruct info as [|c|t]; try done.
  eapply (spec_step _ (λ s, True ∧ entries s !! ((sp ++ si) ++ [sn]) = Some (EFile c)) _
    (λ st s, match st with
             | Ok e => entries s !! ((rp ++ di) ++ [dn]) = Some e
             | Err e => errors_is e ErrNotExist = true → entries s !! ((rp ++ di) ++ [dn]) = None
             end ∧ entries s !! ((sp ++ si) ++ [sn]) = Some (EFile c)));
    [|exact Hok3|exact Hex3|done|intros; by apply renamed_err|].
  { apply spec_frame_lookup. by apply spec_catch_lstatAt. }
  intros st s4 Hok4 Hex4 [Hst Hfile]. rewrite !app_assoc.
  eapply (spec_step _ (λ s, s = s4) _ (λ _ s, s = s4 ∧
    ∀ t, entries s !! ((rp ++ di) ++ [dn]) ≠ Some (ESymlink t)));
    [|exact Hok4|exact Hex4|done|intros; by apply renamed_err|].
  { destruct st as [info|e].
    - destruct (IsSymlink info) eqn:Hs; [apply spec_throw|]. apply spec_ret.
      intros ? ->. split; [done|]. rewrite Hst. by intros t [= ->].
    - destruct (errors_is e ErrNotExist) eqn:Hne; [|apply spec_throw]. apply spec_ret.
      intros ? ->. split; [done|]. by rewrite Hst. }
  intros _ s5 Hok5 Hex5 [-> Hns].
  apply k_renameat_moved with (c := c); try done.
  intros e s6. destruct (negb overwrite && errors_is e EEXIST); by eexists.
Qed.
