(* ===== verification/FsRootOps.v ===== *)
(** * Guarantees of the rooted filesystem (internal/fsroot/root.go, paths.go)

    What moving, removing and planning do to the tree outside and inside the
    configured root, for every tree and every schedule of system call
    failures. *)

From Stdlib Require Import ZArith Lia Ascii.
From stdpp Require Import base list gmap strings numbers pretty.
From S2P Require Import Prelude GoStrings GoErrors JobState Paths FsRoot.

(** The entries at and below a path. *)
Definition under (p : path) (m : gmap path entry) : gmap path entry :=
  filter (λ kv, p `prefix_of` kv.1) m.

(** ** A decidable check of a concrete tree *)

#[export] Instance name_ok_dec n : Decision (name_ok n).
Proof. unfold name_ok. apply _. Defined.

Definition placed (m : gmap path entry) (p : path) : bool :=
  match reverse p with
  | [] => true
  | n :: up => bool_decide (m !! reverse up = Some EDir ∧ name_ok n)
  end.

Definition tree_check (m : gmap path entry) : bool :=
  bool_decide (m !! [] = Some EDir) && forallb (placed m) (map_to_list m).*1.

Lemma tree_check_ok m : tree_check m = true → tree_ok m.
Proof.
  unfold tree_check. intros [H1 H2]%andb_true_iff. bool_to_prop. split; [done|].
  intros p n [e He]. rewrite forallb_forall in H2.
  specialize (H2 (p ++ [n])). unfold placed in H2.
  rewrite reverse_snoc, reverse_involutive in H2. bool_to_prop.
  apply bool_decide_eq_true in H2; [done|].
  apply list_elem_of_In, list_elem_of_fmap. exists (p ++ [n], e). split; [done|].
  by apply elem_of_map_to_list.
Qed.

(** ** Trees *)

Lemma tree_missing m p q : tree_ok m → m !! p = None → m !! (p ++ q) = None.
Proof.
  intros Ht Hp. induction q as [|n q IH] using rev_ind; [by rewrite app_nil_r|].
  destruct (m !! (p ++ q ++ [n])) eqn:E; [|done].
  rewrite app_assoc in E. destruct (tree_parent _ Ht (p ++ q) n); [by eexists|]. congruence.
Qed.

Lemma tree_missing_cons m fd c l : tree_ok m → m !! (fd ++ [c]) = None → m !! (fd ++ c :: l) = None.
Proof. intros Ht Hm. rewrite cons_middle, app_assoc. by apply tree_missing. Qed.

Lemma elem_of_child_names m dir n :
  n ∈ child_names m dir ↔ is_Some (m !! (dir ++ [n])).
Proof.
  unfold child_names. rewrite list_elem_of_omap. split.
  - intros (p&Hp&Hn). destruct (reverse p) as [|x rest] eqn:E; [done|].
    case_bool_decide; simplify_eq. apply (f_equal reverse) in E.
    rewrite reverse_involutive, reverse_cons in E. subst.
    apply list_elem_of_fmap in Hp as ([q e]&->&Hq). apply elem_of_map_to_list in Hq. by exists e.
  - intros [e He]. exists (dir ++ [n]). split.
    + apply list_elem_of_fmap. exists (dir ++ [n], e). split; [done|].
      by apply elem_of_map_to_list.
    + rewrite reverse_snoc, reverse_involutive. by rewrite bool_decide_eq_true_2.
Qed.

Lemma tree_ok_delete m fd n :
  tree_ok m → (∀ c, m !! ((fd ++ [n]) ++ [c]) = None) → tree_ok (delete (fd ++ [n]) m).
Proof.
  intros [Hroot Hpar] Hleaf. split.
  - rewrite lookup_delete_ne; [done|]. by destruct fd.
  - intros p c [e He]. apply lookup_delete_Some in He as [Hne He].
    destruct (Hpar p c) as [Hp Hc]; [by eexists|]. split; [|done].
    rewrite lookup_delete_ne; [done|]. intros <-. by rewrite Hleaf in He.
Qed.

(** ** Calls that only remove *)

(** A call that creates nothing removes nothing either. *)
Lemma spec_shrinking {A} V pre (m : fs_cmd A) post :
  spec (λ _, False) pre m post → rspec (shrinking V) pre m post.
Proof.
  intros Hm s Hok Hs. destruct (Hm s Hok Hs) as (?&[He Hh]&?). split_and!; [done| |done].
  split; [|done]. intros p. destruct (He p) as [|[[] _]]. by left.
Qed.

Lemma spec_bind_open {A B} V h rp pre (m : fs_cmd A) (k : A → fs_cmd B) mid post :
  spec (λ _, False) (λ s, pre s ∧ root_at h rp s) m mid →
  (∀ a, rspec (shrinking V) (mid a) (k a) post) →
  rspec (shrinking V) (λ s, pre s ∧ root_at h rp s) (m ≫= k) post.
Proof. intros Hm Hk. eapply spec_bind; [by apply spec_shrinking|done]. Qed.

Lemma spec_shrink_weaken {A} (V W : path → Prop) pre (m : fs_cmd A) post :
  (∀ p, V p → W p) → rspec (shrinking V) pre m post → rspec (shrinking W) pre m post.
Proof.
  intros HVW Hm s Hok Hs. destruct (Hm s Hok Hs) as (?&[He Hh]&?). split_and!; [done| |done].
  split; [|done]. intros p. destruct (He p) as [|(?&?&?)]; auto.
Qed.

(** What is not a link stays so. *)
Definition no_link (p : path) (s : FS) : Prop := ∀ t, entries s !! p ≠ Some (ESymlink t).

Lemma spec_k_unlinkat fd n rmdir :
  name_ok n →
  rspec (shrinking (eq (fd ++ [n]))) (no_link (fd ++ [n])) (k_unlinkat fd n rmdir)
    (λ _ s, entries s !! (fd ++ [n]) = None).
Proof.
  intros Hn. apply spec_sys; [|done]. intros s Hok Hs. pose proof Hok as (Ht&Hh&Hfl).
  rewrite at_path_ok by done.
  assert (∀ e, entries s !! (fd ++ [n]) = Some e →
    (∀ c, entries s !! ((fd ++ [n]) ++ [c]) = None) →
    let s' := s <| entries := delete (fd ++ [n]) (entries s) |> in
    fs_ok s' ∧ shrinks (eq (fd ++ [n])) s s' ∧ entries s' !! (fd ++ [n]) = None) as Hdel.
  { intros e He Hleaf. simpl. split_and!.
    - split; [|exact (conj Hh Hfl)]. by apply tree_ok_delete.
    - split; [|intros; reflexivity]. intros p. simpl. destruct (decide (fd ++ [n] = p)) as [<-|].
      + right. rewrite lookup_delete_eq. by split_and!; [..|apply Hs].
      + left. by rewrite lookup_delete_ne.
    - by rewrite lookup_delete_eq. }
  assert (∀ e : error, let out := (s, Err e : result error ()) in
    fs_ok out.1 ∧ shrinks (eq (fd ++ [n])) s out.1 ∧
    ∀ a, out.2 = Ok a → entries out.1 !! (fd ++ [n]) = None) as Hstay.
  { intros e. split_and!; [done|apply (change_refl (shrinking _))|done]. }
  cbv zeta. destruct (entries s !! (fd ++ [n])) as [[|c|t]|] eqn:E.
  - destruct (negb rmdir); [apply Hstay|]. case_bool_decide as Hc; [|apply Hstay].
    destruct (Hdel _ eq_refl) as (?&?&?); [|by split_and!]. intros c.
    destruct (entries s !! ((fd ++ [n]) ++ [c])) eqn:Ec; [|done].
    exfalso. apply (not_elem_of_nil c). rewrite <- Hc. apply elem_of_child_names. by eexists.
  - destruct rmdir; [apply Hstay|].
    destruct (Hdel _ eq_refl) as (?&?&?); [by eapply tree_ok_leaf|by split_and!].
  - by destruct (Hs t).
  - apply Hstay.
Qed.

Lemma no_link_entry e : IsSymlink e = false → ∀ s p, entries s !! p = Some e → no_link p s.
Proof. intros He s p Hp t Ht. rewrite Hp in Ht. by simplify_eq/=. Qed.

(** A pure fact of the precondition may be used for the whole call. *)
Lemma rspec_pre {A} R (P : Prop) (pre : FS → Prop) (m : fs_cmd A) post :
  (P → rspec R pre m post) → rspec R (λ s, P ∧ pre s) m post.
Proof. intros Hm s Hok [HP Hs]. by apply Hm. Qed.

Lemma rspec_drop {A} R (pre : FS → Prop) (m : fs_cmd A) post :
  rspec R (λ _, True) m post → rspec R pre m post.
Proof. intros Hm s Hok _. by apply Hm. Qed.

Lemma rspec_of_result {A B} R pre (r : result error A) (k : A → fs_cmd B) post :
  (∀ a, r = Ok a → rspec R pre (k a) post) → rspec R pre (of_result r ≫= k) post.
Proof.
  intros Hk. destruct r as [a|e]; [|apply spec_throw]. intros s Hok Hs. by apply (Hk a).
Qed.

(** Removing one entry: only the entry named goes, never a link. *)
Lemma spec_Root_Remove h rp relative :
  rspec (shrinking (eq (rp ++ components relative))) (root_at h rp) (Root_Remove h relative)
    (λ _ s, entries s !! (rp ++ components relative) = None).
Proof.
  apply rspec_of_result. intros w Hs. case_bool_decide as Hne; [apply spec_throw|].
  destruct (split_sanitized _ _ Hs) as (->&init&name&Hc&Hsp&Hn&_&Hci); [done|].
  rewrite Hsp, Hc. rewrite app_assoc. eapply spec_bind.
  { apply spec_shrinking. eapply spec_weaken; [|by apply spec_openDirectory_at]. by intros p [? _]. }
  intros fd. apply rspec_pre. intros ->. apply rspec_drop.
  eapply spec_bind; [by apply spec_shrinking, spec_lstatAt|]. intros info.
  destruct (IsSymlink info) eqn:Hsym; [apply spec_throw|].
  eapply spec_conseq; [by apply spec_fs_wrap, spec_k_unlinkat| |done].
  intros s. by apply no_link_entry.
Qed.

(** ** Removing a subtree *)

Lemma spec_k_readdir V dir :
  rspec (shrinking V) (λ _, True) (k_readdir dir)
    (λ names _, Forall name_ok names).
Proof.
  apply spec_sys; [|done]. intros s Hok _. split_and!; [done|apply change_refl|].
  intros names [= <-]. rewrite Forall_forall. intros n Hn%elem_of_child_names.
  by apply (tree_parent _ (proj1 Hok) dir).
Qed.

Lemma spec_for_each {A} R (Q : A → Prop) (f : A → fs_cmd ()) l :
  (∀ x, Q x → rspec R (λ _, True) (f x) (λ _ _, True)) → Forall Q l →
  rspec R (λ _, True) (for_each l f) (λ _ _, True).
Proof.
  intros Hf. induction 1 as [|x l Hx Hl IH]; simpl; [by apply spec_ret|].
  eapply spec_bind; [by apply Hf|]. intros []. exact IH.
Qed.

(** An entry outside the removable region stays. *)
Lemma spec_frame_dir {A} (V : path → Prop) dir (m : fs_cmd A) post :
  ¬ V dir → rspec (shrinking V) (λ _, True) m post →
  rspec (shrinking V) (λ s, entries s !! dir = Some EDir) m
    (λ a s, post a s ∧ entries s !! dir = Some EDir).
Proof.
  intros Hd Hm. eapply (spec_conseq _ (λ s, True ∧ entries s !! dir = Some EDir) _ _
    (λ a s, post a s ∧ entries s !! dir = Some EDir)); [|done|done].
  apply (spec_frame _ (λ s, entries s !! dir = Some EDir)); [|exact Hm].
  intros s s' [He _] Hs. destruct (He dir) as [->|[? _]]; done.
Qed.

Lemma spec_removeEntryAt fuel fd n relative :
  name_ok n →
  rspec (shrinking (λ p, (fd ++ [n]) `prefix_of` p)) (λ _, True)
    (removeEntryAt fuel fd n relative) (λ _ s, entries s !! (fd ++ [n]) = None).
Proof.
  revert fd n relative. induction fuel as [|fuel IH]; intros fd n relative Hn; simpl.
  { apply spec_throw. }
  eapply spec_bind; [by apply spec_shrinking, spec_catch_lstatAt|]. intros [info|e]; cbn beta.
  2:{ destruct (errors_is e ErrNotExist); [|apply spec_throw]. apply spec_ret. auto. }
  assert (∀ rmdir, rspec (shrinking (λ p, (fd ++ [n]) `prefix_of` p)) (no_link (fd ++ [n]))
    (fs_wrap (wrapPathError "unlinkat" relative) (k_unlinkat fd n rmdir))
    (λ _ s, entries s !! (fd ++ [n]) = None)) as Hunlink.
  { intros rmdir. apply spec_fs_wrap. eapply spec_shrink_weaken; [|by apply spec_k_unlinkat].
    by intros p <-. }
  destruct (IsSymlink info) eqn:Hsym; [apply spec_throw|].
  destruct (IsDir info) eqn:Hdir; simpl.
  2:{ eapply spec_conseq; [apply Hunlink| |done]. intros s. by apply no_link_entry. }
  set (dir := fd ++ [n]) in *.
  apply spec_bind with (mid := λ d s, d = dir ∧ entries s !! dir = Some EDir).
  { eapply spec_conseq; [by apply spec_shrinking, spec_fs_wrap, spec_openDirectoryAt|done|].
    by intros d s [-> ?]. }
  intros d. apply rspec_pre. intros ->.
  set (below := λ p, ∃ c, (dir ++ [c]) `prefix_of` p).
  apply spec_bind with (mid := λ names s, Forall name_ok names ∧ entries s !! dir = Some EDir).
  { eapply (spec_shrink_weaken (λ _, False)); [done|].
    apply spec_frame_dir; [by intros []|]. by apply spec_fs_wrap, spec_k_readdir. }
  intros names. apply rspec_pre. intros Hnames.
  apply spec_bind with (mid := λ _ s, entries s !! dir = Some EDir).
  2:{ intros _. eapply spec_conseq; [apply Hunlink| |done]. intros s. by apply no_link_entry. }
  eapply (spec_shrink_weaken below).
  { intros p [c Hp]. etrans; [|exact Hp]. by apply prefix_app_r. }
  eapply spec_conseq; [apply (spec_frame_dir below dir _ (λ _ _, True))|auto|by intros ?? [_ ?]].
  - intros [c Hp]. apply prefix_length in Hp. rewrite length_app in Hp. simpl in Hp. lia.
  - eapply spec_for_each; [|exact Hnames]. intros c Hc.
    eapply spec_conseq; [eapply (spec_shrink_weaken _ below); [|by apply IH]|done|done].
    intros p Hp. by exists c.
Qed.

(** ** What a "does not exist" error says

    [absent pre m p]: when [m] fails with an error that is [ErrNotExist],
    there is nothing at [p]. *)
Definition absent {A} (pre : FS → Prop) (m : fs_cmd A) (p : path) : Prop :=
  ∀ s s' e, fs_ok s → pre s → m s = (s', Err e) →
    errors_is e ErrNotExist = true → entries s' !! p = None.

Lemma absent_bind {A B} R pre (m : fs_cmd A) (k : A → fs_cmd B) mid p :
  rspec R pre m mid → absent pre m p → (∀ a, absent (mid a) (k a) p) → absent pre (m ≫= k) p.
Proof.
  intros Hm Ha Hk s s' e Hok Hs. unfold mbind, cmd_bind.
  destruct (Hm s Hok Hs) as (Hok1&_&Hpost).
  destruct (m s) as [s1 [a|e1]] eqn:E; simpl in *.
  - apply (Hk a s1 s' e Hok1). by apply Hpost.
  - intros [= <- <-]. by apply (Ha s s1 e1 Hok Hs).
Qed.

Lemma absent_throw {A} pre e p : errors_is e ErrNotExist = false → absent pre (throw (A:=A) e) p.
Proof. intros He s s' e' _ _ [= <- <-]. congruence. Qed.

Lemma absent_ret {A} pre (a : A) p : absent pre (mret a) p.
Proof. by intros s s' e. Qed.

Lemma absent_conseq {A} (pre pre' : FS → Prop) (m : fs_cmd A) p :
  absent pre m p → (∀ s, pre' s → pre s) → absent pre' m p.
Proof. intros Hm Hp s s' e Hok Hs. by eapply Hm; [|apply Hp]. Qed.

Lemma absent_pre {A} (P : Prop) pre (m : fs_cmd A) p :
  (P → absent pre m p) → absent (λ s, P ∧ pre s) m p.
Proof. intros Hm s s' e Hok [HP Hs]. by apply Hm. Qed.

Lemma errors_is_ENOENT e : errors_is e ENOENT = true → errors_is e ErrNotExist = true.
Proof.
  revert e. fix IH 1. intros [s|t [w|]|c|st|[c|] ra|st t ra|t b1 b2|op p w]; simpl;
    try discriminate; try apply IH.
  - by destruct s.
  - intros [_ ?]%bool_decide_eq_true. done.
Qed.

Lemma errors_is_invalid e :
  errors_is e ErrInvalidPath = true → errors_is e ErrNotExist = false.
Proof.
  revert e. fix IH 1. intros [s|t [w|]|c|st|[c|] ra|st t ra|t b1 b2|op p w]; simpl;
    try discriminate; try apply IH.
  - by destruct s.
  - intros [_ ?]%bool_decide_eq_true. done.
Qed.

Lemma SanitizeRelativePath_err v e :
  SanitizeRelativePath v = Err e → errors_is e ErrNotExist = false.
Proof.
  intros He. apply errors_is_invalid. pose proof (SanitizeRelativePath_spec v) as Hs.
  case_match; [congruence|]. destruct Hs as (e'&He'&Hi). rewrite He in He'. simplify_eq.
  by apply Is_true_true.
Qed.

Lemma wrapPathError_absent op p e :
  errors_is (wrapPathError op p e) ErrNotExist = true → errors_is e ErrNotExist = true.
Proof. intros [?%errors_is_ENOENT|?]%wrapPathError_not_exist; done. Qed.

Lemma absent_fs_wrap {A} wrap pre (m : fs_cmd A) p :
  (∀ e, errors_is (wrap e) ErrNotExist = true → errors_is e ErrNotExist = true) →
  absent pre m p → absent pre (fs_wrap wrap m) p.
Proof.
  intros Hw Hm s s' e Hok Hs. rewrite fs_wrap_eq.
  destruct (m s) as [s1 [a|e1]] eqn:E; [done|]. intros [= <- <-] He.
  by apply (Hm s s1 e1 Hok Hs E), Hw.
Qed.

Lemma absent_sys {A} (f : FS → result error A) p :
  (∀ s e, f s = Err e → errors_is e ErrNotExist = true → entries s !! p = None) →
  absent (λ _, True) (sys (λ s, (s, f s))) p.
Proof.
  intros Hf s s' e (_&_&Hfl) _. unfold sys.
  destruct (sys_faults s) as [|[e'|] fl].
  - intros [= <- He]. by apply Hf.
  - intros [= <- <-]. apply Forall_cons in Hfl as [(_&H2&_) _]. congruence.
  - intros [= <- He]. by apply (Hf (s <| sys_faults := fl |>)).
Qed.

Lemma absent_ext {A} pre (m m' : fs_cmd A) p :
  (∀ s, m s = m' s) → absent pre m' p → absent pre m p.
Proof. intros Hm H s s' e Hok. rewrite Hm. by apply H. Qed.

Lemma absent_openDirectoryAt fd n :
  name_ok n → absent (λ _, True) (openDirectoryAt fd n) (fd ++ [n]).
Proof.
  intros Hn. assert (absent (λ _, True) (k_open_dir fd n) (fd ++ [n])) as Hopen.
  { eapply absent_ext; [|apply (absent_sys (λ s,
      match entries s !! at_path fd n with
      | Some EDir => Ok (at_path fd n)
      | Some _ => Err (Sentinel ENOTDIR)
      | None => Err (Sentinel ENOENT)
      end))].
    - unfold k_open_dir. apply sys_ext. intros s. by repeat case_match.
    - intros s e. rewrite at_path_ok by done.
      by destruct (entries s !! (fd ++ [n])) as [[]|]; intros; simplify_eq/=. }
  intros s s' e Hok _. unfold openDirectoryAt, mbind, cmd_bind, catch, throw.
  destruct (k_open_dir fd n s) as [s1 [d|e1]] eqn:E; [done|].
  pose proof (Hopen s s1 e1 Hok I E) as H2. simpl.
  destruct (errors_is e1 ENOTDIR) eqn:Hnd; [|intros; simplify_eq/=; by apply H2].
  destruct (spec_k_open_dir (λ _, False) fd n Hn s Hok I) as (Hok1&_&_). rewrite E in Hok1.
  destruct (spec_k_fstatat (λ _, False) fd n Hn s1 Hok1 I) as (_&[Hsame _]&_).
  destruct (k_fstatat fd n s1) as [s2 [st|e2]] eqn:E2; simpl in *;
    [destruct (IsSymlink st); [intros; by simplify_eq/=|]|]; intros ? He; simplify_eq/=;
    apply H2 in He; destruct (Hsame (fd ++ [n])) as [->|[[] _]]; done.
Qed.

(** A directory walk that creates nothing reports "does not exist" only when
    the end of the walk is missing. *)
Lemma absent_walk wrap fd comps pre :
  (∀ op e, errors_is (wrap op e) ErrNotExist = true → errors_is e ErrNotExist = true) →
  Forall name_ok comps → ∀ rest,
  absent pre (walk false wrap fd comps) (fd ++ comps ++ rest).
Proof.
  intros Hw Hall rest. revert fd pre. induction Hall as [|c comps Hc Hall IH]; intros fd pre.
  { apply absent_ret. }
  cbn [walk]. eapply (absent_bind (growing (λ _, False)) _ _ _ (λ r s,
    match r with
    | Ok d => d = fd ++ [c]
    | Err e => errors_is e ErrNotExist = true → entries s !! (fd ++ [c]) = None
    end)).
  - intros s Hok _. destruct (spec_openDirectoryAt (λ _, False) fd c Hc s Hok I) as (H1&H2&H3).
    unfold catch. simpl. split_and!; [done|done|]. intros r [= <-].
    destruct (openDirectoryAt fd c s) as [s' [d|e]] eqn:E; simpl in *; [by apply H3|].
    by apply (absent_openDirectoryAt fd c Hc s s' e Hok).
  - intros s s' e _ _ [=].
  - intros [d|e]; rewrite ?andb_false_r.
    + intros s s' e Hok -> Hs He.
      replace (fd ++ (c :: comps) ++ rest) with ((fd ++ [c]) ++ comps ++ rest)
        by (by rewrite <- app_assoc).
      exact (IH (fd ++ [c]) (λ _, True) s s' e Hok I Hs He).
    + intros s s' e' Hok H2. cbn. intros [= <- <-] He.
      apply tree_missing_cons; [apply Hok|]. by eapply H2, Hw.
Qed.

Lemma absent_rootDescriptor h rp rest :
  absent (root_at h rp) (rootDescriptor h false) (rp ++ rest).
Proof.
  intros s s' e Hok Hat. unfold root_at in Hat.
  destruct (handles s !! h) as [r|] eqn:Hr; [|done]. simpl in Hat. injection Hat as Hrp.
  pose proof (proj1 (proj2 Hok) h r Hr) as [Hnames Habs].
  enough (absent (λ _, True) (_ ← (if rt_open r then mret ()
          else _ ← fs_wrap (wrapPathError "open root" (rt_name r))
                 (openAbsoluteDirectory (rt_name r) false);
               set_root h (λ r, r <| rt_open := true |>));
     _ ← fs_wrap (Wrapf "duplicate root descriptor") k_dup;
     mret (rt_path r)) (rp ++ rest)) as Hspec.
  { unfold rootDescriptor. rewrite (cmd_bind_ok _ _ s s s) by done. rewrite Hr.
    destruct (rt_closed r); [by intros [= <- <-]|]. by apply Hspec. }
  apply (absent_bind (growing (λ _, False)) _ _ _ (λ _ _, True)).
  - destruct (rt_open r); [by apply spec_ret|]. apply spec_bind with (mid := λ _ _, True).
    + apply spec_fs_wrap. unfold openAbsoluteDirectory. rewrite Habs.
      by eapply spec_conseq; [apply spec_walk|..].
    + intros _. by apply spec_set_root.
  - destruct (rt_open r); [apply absent_ret|].
    apply (absent_bind (growing (λ _, False)) _ _ _ (λ _ _, True)).
    + apply spec_fs_wrap. unfold openAbsoluteDirectory. rewrite Habs.
      by eapply spec_conseq; [apply spec_walk|..].
    + apply absent_fs_wrap; [apply wrapPathError_absent|]. unfold openAbsoluteDirectory.
      rewrite Habs, Hrp. rewrite Hrp in Hnames. apply (absent_walk _ []); auto.
    + intros _ s1 s2 e1 _ _ [=].
  - intros _. apply (absent_bind (growing (λ _, False)) _ _ _ (λ _ _, True)).
    + apply spec_fs_wrap, spec_k_dup.
    + apply absent_fs_wrap; [done|]. by apply (absent_sys (λ _, Ok ())).
    + intros _. apply absent_ret.
Qed.

Lemma absent_openDirectory h rp relative rest :
  absent (root_at h rp) (openDirectory h relative false)
    (rp ++ components relative ++ rest).
Proof.
  unfold openDirectory. destruct (SanitizeRelativePath relative) as [w|e] eqn:Hs.
  2:{ apply absent_throw. by eapply SanitizeRelativePath_err. }
  pose proof (SanitizeRelativePath_ok _ _ Hs) as [-> Hval].
  change (absent (root_at h rp) (current ← rootDescriptor h false;
    if bool_decide (relative = "") then mret current
    else walk false (λ op e, wrapPathError op relative e) current (Split relative Slash))
    (rp ++ components relative ++ rest)).
  eapply (absent_bind (growing (makes false rp))).
  - apply spec_rootDescriptor.
  - apply absent_rootDescriptor.
  - intros fd. case_bool_decide; [apply absent_ret|]. intros s s' e Hok ->.
    rewrite components_split by done.
    apply (absent_walk _ rp _ (λ _, True)); [|by apply valid_names_ok|done|done].
    intros op e'. apply wrapPathError_absent.
Qed.

Lemma absent_lstatAt fd n rel :
  name_ok n → absent (λ _, True) (lstatAt fd n rel) (fd ++ [n]).
Proof.
  intros Hn s s' e Hok _ He. pose proof (spec_catch_lstatAt (λ _, False) fd n rel Hn s Hok I) as (_&_&H).
  unfold catch in H. simpl in H. rewrite He in H. by apply (H _ eq_refl).
Qed.

Lemma absent_Root_Lstat h rp relative :
  relative ≠ "" → absent (root_at h rp) (Root_Lstat h relative) (rp ++ components relative).
Proof.
  intros Hne. unfold Root_Lstat. destruct (SanitizeRelativePath relative) as [w|e] eqn:Hs.
  2:{ apply absent_throw. by eapply SanitizeRelativePath_err. }
  pose proof (SanitizeRelativePath_ok _ _ Hs) as [-> _].
  destruct (split_sanitized _ _ Hs Hne) as (_&init&name&Hc&Hsp&Hn&_&Hci).
  change (absent (root_at h rp) (let (parent, name) := splitRelative relative in
    parentFD ← openDirectory h parent false; lstatAt parentFD name relative)
    (rp ++ components relative)).
  rewrite Hsp, Hc. eapply (absent_bind (growing (makes false (rp ++ init)))).
  - by apply spec_openDirectory_at.
  - rewrite <- Hci at 2. apply absent_openDirectory.
  - intros fd. apply absent_pre. intros ->. rewrite app_assoc.
    eapply absent_conseq; [by apply absent_lstatAt|done].
Qed.

(** [catch] tells the caller that a missing directory is missing. *)
Lemma rspec_catch_absent {A} R pre (m : fs_cmd A) post p :
  rspec R pre m post → absent pre m p →
  rspec R pre (catch m) (λ r s,
    match r with
    | Ok a => post a s
    | Err e => errors_is e ErrNotExist = true → entries s !! p = None
    end).
Proof.
  intros Hm Ha s Hok Hs. destruct (Hm s Hok Hs) as (Hok1&HR&Hpost).
  pose proof (Ha s) as Hn. unfold catch. destruct (m s) as [s1 [a|e]] eqn:E; simpl in *;
    (split_and!; [done|done|]); intros r [= <-]; [by apply Hpost|by apply (Hn s1 e)].
Qed.

Lemma rspec_get {A} R pre (k : FS → fs_cmd A) post :
  (∀ x, rspec R pre (k x) post) → rspec R pre (get ≫= k) post.
Proof. intros Hk s Hok Hs. by apply (Hk s s Hok Hs). Qed.

Lemma spec_Root_RemoveAll h rp relative :
  rspec (shrinking (λ p, (rp ++ components relative) `prefix_of` p)) (root_at h rp)
    (Root_RemoveAll h relative) (λ _ s, entries s !! (rp ++ components relative) = None).
Proof.
  apply rspec_of_result. intros w Hs. case_bool_decide as Hne; [apply spec_throw|].
  destruct (split_sanitized _ _ Hs) as (->&init&name&Hc&Hsp&Hn&_&Hci); [done|].
  rewrite Hsp, Hc, app_assoc. eapply spec_bind.
  { apply (rspec_catch_absent _ _ _ (λ fd s, fd = rp ++ init ∧ root_at h rp s)
      ((rp ++ init) ++ [name])).
    - apply spec_shrinking. eapply spec_weaken; [|by apply spec_openDirectory_at]. by intros p [? _].
    - pose proof (absent_openDirectory h rp (Join init "/") [name]) as Ha.
      rewrite Hci, app_assoc in Ha. exact Ha. }
  intros [fd|e]; cbn beta iota.
  - apply rspec_pre. intros ->. apply rspec_drop, rspec_get. intros x.
    by apply spec_removeEntryAt.
  - destruct (errors_is e ErrNotExist); [|apply spec_throw]. apply spec_ret. auto.
Qed.

(** ** Removal succeeds when nothing stands in its way *)

Lemma sys_run {A} (run : FS → FS * result error A) s :
  sys_faults s = [] → sys run s = run s.
Proof. unfold sys. by intros ->. Qed.

Lemma shrinks_subseteq V s s' : shrinks V s s' → entries s' ⊆ entries s.
Proof.
  intros [He _]. apply map_subseteq_spec. intros p e Hp. destruct (He p) as [<-|(_&?&_)]; congruence.
Qed.

Lemma under_mono p m m' : m' ⊆ m → (size (under p m') ≤ size (under p m))%nat.
Proof. intros Hm. by apply map_subseteq_size, map_filter_subseteq_mono. Qed.

Lemma under_child p c m : is_Some (m !! p) → (size (under (p ++ [c]) m) < size (under p m))%nat.
Proof.
  intros [e He]. apply map_subset_size, map_subset_alt. split.
  - apply map_subseteq_spec. intros q x [Hq Hp]%map_lookup_filter_Some.
    apply map_lookup_filter_Some. split; [done|]. simpl in *. etrans; [|exact Hp].
    by apply prefix_app_r.
  - exists p. split.
    + apply map_lookup_filter_None. right. intros x _ Hp%prefix_length. simpl in Hp.
      rewrite length_app in Hp. simpl in Hp. lia.
    + exists e. by apply map_lookup_filter_Some.
Qed.

Lemma catch_run {A} (m : fs_cmd A) s s' r : m s = (s', r) → catch m s = (s', Ok r).
Proof. unfold catch. by intros ->. Qed.

(** What the removal of the children of [dir] establishes. *)
Definition cleared (dir : path) (names : list string) (s s' : FS) : Prop :=
  fs_ok s' ∧ sys_faults s' = [] ∧ entries s' ⊆ entries s ∧
  entries s' !! dir = entries s !! dir ∧
  ∀ c, c ∈ names → entries s' !! (dir ++ [c]) = None.

Lemma remove_children (fuel : nat) (f : string → fs_cmd ()) dir names s :
  (∀ c s, c ∈ names → fs_ok s → sys_faults s = [] → (∀ p, dir `prefix_of` p → no_link p s) →
     is_Some (entries s !! dir) → (size (under dir (entries s)) ≤ fuel)%nat →
     ∃ s', f c s = (s', Ok ()) ∧ cleared dir [c] s s') →
  fs_ok s → sys_faults s = [] → (∀ p, dir `prefix_of` p → no_link p s) →
  is_Some (entries s !! dir) → (size (under dir (entries s)) ≤ fuel)%nat →
  ∃ s', for_each names f s = (s', Ok ()) ∧ cleared dir names s s'.
Proof.
  revert s. induction names as [|c names IH]; intros s Hf Hok Hfl Hnl Hd Hsize; simpl.
  { exists s. split; [done|]. split_and!; try done. by intros c ?%not_elem_of_nil. }
  destruct (Hf c s) as (s1&Hrun&Hok1&Hfl1&Hsub1&Hd1&Hc1); try done; [left|].
  erewrite cmd_bind_ok by done.
  destruct (IH s1) as (s2&Hrun2&Hok2&Hfl2&Hsub2&Hd2&Hc2); try done.
  - intros c' s' Hc'. apply Hf. by right.
  - intros p Hp t Ht. apply (Hnl p Hp t). by eapply lookup_weaken.
  - by rewrite Hd1.
  - etrans; [by apply under_mono|done].
  - exists s2. split; [done|]. split_and!; try done; [by etrans|congruence|].
    intros c' [->|Hc']%elem_of_cons; [|by apply Hc2].
    eapply lookup_weaken_None; [|exact Hsub2]. apply Hc1. by left.
Qed.

Lemma unlink_present fd n (rmdir : bool) s e wrap :
  name_ok n → sys_faults s = [] → entries s !! (fd ++ [n]) = Some e →
  (if rmdir then e = EDir ∧ child_names (entries s) (fd ++ [n]) = [] else e ≠ EDir) →
  fs_wrap wrap (k_unlinkat fd n rmdir) s =
    (s <| entries := delete (fd ++ [n]) (entries s) |>, Ok ()).
Proof.
  intros Hn Hfl He Hr. rewrite fs_wrap_eq. unfold k_unlinkat. rewrite sys_run by done.
  rewrite at_path_ok by done. cbv zeta. rewrite He. destruct rmdir.
  - destruct Hr as [-> Hc]. simpl. by rewrite bool_decide_eq_true_2.
  - by destruct e.
Qed.

Lemma open_present fd n s wrap :
  name_ok n → sys_faults s = [] → entries s !! (fd ++ [n]) = Some EDir →
  fs_wrap wrap (openDirectoryAt fd n) s = (s, Ok (fd ++ [n])).
Proof.
  intros Hn Hfl He. rewrite fs_wrap_eq.
  assert (catch (k_open_dir fd n) s = (s, Ok (Ok (fd ++ [n])))) as Hc.
  { apply catch_run. unfold k_open_dir. rewrite sys_run by done.
    rewrite at_path_ok by done. by rewrite He. }
  unfold openDirectoryAt. by rewrite (cmd_bind_ok _ _ _ _ _ Hc).
Qed.

Lemma removeEntryAt_total fuel fd n rel s :
  fs_ok s → sys_faults s = [] → name_ok n →
  (∀ p, (fd ++ [n]) `prefix_of` p → no_link p s) →
  (size (under (fd ++ [n]) (entries s)) < fuel)%nat →
  ∃ s', removeEntryAt fuel fd n rel s = (s', Ok ()) ∧ sys_faults s' = [].
Proof.
  revert fd n rel s. induction fuel as [|fuel IH]; intros fd n rel s Hok Hfl Hn Hnl Hsize; [lia|].
  cbn [removeEntryAt]. set (dir := fd ++ [n]) in *.
  assert (lstatAt fd n rel s = (s, match entries s !! dir with
    | Some e => Ok e
    | None => Err (PathError "fstatat" rel (Sentinel ErrNotExist)) end)) as Hl.
  { unfold lstatAt. rewrite fs_wrap_eq. unfold k_fstatat. rewrite sys_run by done.
    rewrite at_path_ok by done. fold dir. by destruct (entries s !! dir). }
  erewrite cmd_bind_ok; [|by apply catch_run, Hl].
  destruct (entries s !! dir) as [[|c|t]|] eqn:E; simpl.
  2:{ rewrite (unlink_present _ _ _ _ (EFile c)) by done. by eexists. }
  2:{ exfalso. by eapply (Hnl dir). }
  2:{ by eexists. }
  erewrite cmd_bind_ok; [|by apply open_present].
  erewrite cmd_bind_ok.
  2:{ rewrite fs_wrap_eq. unfold k_readdir. by rewrite sys_run. }
  destruct (remove_children fuel (λ child,
    removeEntryAt fuel dir child (filepath_Join [rel; child])) dir
    (child_names (entries s) dir) s) as (s1&Hrun&Hok1&Hfl1&Hsub&Hd&Hcl); try done.
  { intros c s1 Hc Hok1 Hfl1 Hnl1 Hd1 Hs1.
    assert (name_ok c) as Hcn.
    { apply elem_of_child_names in Hc. by apply (tree_parent _ (proj1 Hok) dir). }
    destruct (IH dir c (filepath_Join [rel; c]) s1) as (s2&Hrun&Hfl2); try done.
    { intros p Hp. apply Hnl1. etrans; [|exact Hp]. by apply prefix_app_r. }
    { pose proof (under_child dir c _ Hd1). lia. }
    exists s2. split; [done|].
    destruct (spec_removeEntryAt fuel dir c (filepath_Join [rel; c]) Hcn s1 Hok1 I) as (Hok2&Hsh&Hp).
    rewrite Hrun in *. simpl in *. split_and!; [done|done|by eapply shrinks_subseteq| |].
    - destruct (proj1 Hsh dir) as [|[Hpre _]]; [done|]. apply prefix_length in Hpre.
      rewrite length_app in Hpre. simpl in Hpre. lia.
    - intros c' ->%list_elem_of_singleton. by eapply Hp. }
  { lia. }
  erewrite cmd_bind_ok by done. rewrite (unlink_present _ _ _ _ EDir); [by eexists|done|done| |].
  - change (entries s1 !! dir = Some EDir). by rewrite Hd.
  - split; [done|]. destruct (child_names (entries s1) (fd ++ [n])) as [|c l] eqn:Ec; [done|].
    exfalso. assert (is_Some (entries s1 !! (dir ++ [c]))) as Hs1.
    { apply elem_of_child_names. unfold dir. rewrite Ec. by left. }
    assert (c ∈ child_names (entries s) dir) as Hin.
    { apply elem_of_child_names. destruct Hs1 as [e He]. exists e. by eapply lookup_weaken. }
    rewrite (Hcl c Hin) in Hs1. by destruct Hs1.
Qed.

Lemma walk_present wrap create fd comps s :
  sys_faults s = [] → Forall name_ok comps →
  (∀ k, k `prefix_of` comps → k ≠ [] → entries s !! (fd ++ k) = Some EDir) →
  walk create wrap fd comps s = (s, Ok (fd ++ comps)).
Proof.
  intros Hfl Hall. revert fd. induction Hall as [|c comps Hc Hall IH]; intros fd Hdir.
  { simpl. by rewrite app_nil_r. }
  cbn [walk]. assert (catch (openDirectoryAt fd c) s = (s, Ok (Ok (fd ++ [c])))) as Hop.
  { pose proof (open_present fd c s (λ e, e) Hc Hfl (Hdir [c] ltac:(by exists comps) ltac:(done))) as Ho.
    rewrite fs_wrap_eq in Ho. apply catch_run.
    destruct (openDirectoryAt fd c s) as [s1 [d|e]]; by simplify_eq. }
  rewrite (cmd_bind_ok _ _ _ _ _ Hop). rewrite (cmd_bind_ok _ _ s s (fd ++ [c])) by done.
  rewrite IH; [by rewrite <- app_assoc|]. intros k Hk Hne. rewrite <- app_assoc.
  apply Hdir; [by apply prefix_cons|done].
Qed.

(** The handle is open: [New] found its directory, or a later call made it. *)
Definition root_open (h : nat) (rp : path) (s : FS) : Prop :=
  ∃ r, handles s !! h = Some r ∧ rt_path r = rp ∧ rt_open r = true ∧ rt_closed r = false.

Lemma openDirectory_present h rp relative create s :
  sys_faults s = [] → root_open h rp s → tree_ok (entries s) →
  Forall valid_component (components relative) →
  entries s !! (rp ++ components relative) = Some EDir →
  openDirectory h relative create s = (s, Ok (rp ++ components relative)).
Proof.
  intros Hfl (r&Hr&Hrp&Hopen&Hcl) Ht Hval He. unfold openDirectory.
  rewrite Sanitize_valid by done. rewrite (cmd_bind_ok _ _ s s relative) by done.
  assert (rootDescriptor h create s = (s, Ok rp)) as Hrd.
  { unfold rootDescriptor. rewrite (cmd_bind_ok _ _ s s s) by done. rewrite Hr, Hcl, Hopen.
    rewrite (cmd_bind_ok _ _ s s ()) by done. rewrite (cmd_bind_ok _ _ s s ()).
    - by rewrite Hrp.
    - rewrite fs_wrap_eq. unfold k_dup. by rewrite sys_run. }
  rewrite (cmd_bind_ok _ _ _ _ _ Hrd). case_bool_decide as Hne.
  - subst. unfold components. simpl. by rewrite app_nil_r.
  - rewrite components_split by done. apply walk_present; [done|by apply valid_names_ok|].
    intros k [rest Hk] _. rewrite Hk, app_assoc in He.
    destruct (entries s !! (rp ++ k)) as [e|] eqn:E.
    + destruct rest as [|c rest] using rev_ind; [by rewrite app_nil_r in He; congruence|].
      clear IHrest. destruct rest as [|c' rest]; simpl in He.
      * destruct (tree_parent _ Ht (rp ++ k) c); [by eexists|congruence].
      * assert (is_Some (entries s !! ((rp ++ k) ++ [c']))) as Hs.
        { destruct (entries s !! ((rp ++ k) ++ [c'])) eqn:E2; [done|].
          apply (tree_missing _ _ (rest ++ [c])) in E2; [|done].
          rewrite <- app_assoc in E2. simpl in E2. congruence. }
        destruct (tree_parent _ Ht (rp ++ k) c' Hs). congruence.
    + apply (tree_missing _ _ rest) in E; [congruence|done].
Qed.

Lemma Root_RemoveAll_total h rp relative s :
  fs_ok s → sys_faults s = [] → root_open h rp s → relative ≠ "" →
  Forall valid_component (components relative) →
  is_Some (entries s !! (rp ++ components relative)) →
  (∀ p, (rp ++ components relative) `prefix_of` p → no_link p s) →
  (Root_RemoveAll h relative s).2 = Ok ().
Proof.
  intros Hok Hfl Hopen Hne Hval Hs Hnl. pose proof (Sanitize_valid _ Hval) as Hsan.
  unfold Root_RemoveAll. rewrite Hsan. rewrite (cmd_bind_ok _ _ s s relative) by done.
  rewrite bool_decide_eq_false_2 by done.
  destruct (split_sanitized _ _ Hsan Hne) as (_&init&name&Hc&Hsp&Hn&Hvi&Hci).
  rewrite Hsp. rewrite Hc, app_assoc in *.
  destruct (tree_parent _ (proj1 Hok) _ _ Hs) as [Hd _].
  assert (openDirectory h (Join init "/") false s = (s, Ok (rp ++ init))) as Ho.
  { rewrite <- Hci at 2. apply openDirectory_present; rewrite ?Hci; try done. apply Hok. }
  rewrite (cmd_bind_ok _ _ _ _ _ (catch_run _ _ _ _ Ho)). rewrite (cmd_bind_ok _ _ s s s) by done.
  destruct (removeEntryAt_total (S (size (entries s))) (rp ++ init) name relative s)
    as (s'&->&_); try done.
  apply Nat.lt_succ_r, map_subseteq_size, map_filter_subseteq.
Qed.

(** ** Choosing a free destination *)

(** The name tried for [index]: the file's name with a counter before its
    extension. *)
Definition candidate_path (relative : string) (index : Z) : string :=
  let (parent, base) := splitRelative relative in
  let ext := if bool_decide (Ext base = base) then "" else Ext base in
  filepath_Join [parent; candidate_name (TrimSuffix base ext) ext index].

Definition present_at (rp : path) (relative : string) (s : FS) : Prop :=
  is_Some (entries s !! (rp ++ components relative)).

(** A lookup below a root, inspected. *)
Lemma spec_catch_Root_Lstat h rp relative :
  relative ≠ "" →
  spec (λ _, False) (root_at h rp) (catch (Root_Lstat h relative)) (λ r s,
    match r with
    | Ok e => entries s !! (rp ++ components relative) = Some e
    | Err e => errors_is e ErrNotExist = true →
               entries s !! (rp ++ components relative) = None
    end ∧ root_at h rp s).
Proof.
  intros Hne. eapply spec_conseq.
  - apply (spec_frame_root _ h rp (root_at h rp)).
    exact (rspec_catch_absent (growing _) _ _ _ _ (spec_Root_Lstat h rp relative Hne)
      (absent_Root_Lstat h rp relative Hne)).
  - done.
  - done.
Qed.

Lemma present_extends rp rel s s' :
  extends (λ _, False) s s' → present_at rp rel s → present_at rp rel s'.
Proof. intros [He _] [e Hp]. exists e. destruct (He (rp ++ components rel)) as [->|[[] _]]. done. Qed.

Lemma spec_conflict_loop h rp parent stem ext todo index :
  let cand j := filepath_Join [parent; candidate_name stem ext j] in
  (∀ j, cand j ≠ "") →
  spec (λ _, False) (root_at h rp) (conflict_loop h parent stem ext todo index)
    (λ dest s, ∃ i, index ≤ i < index + Z.of_nat todo ∧ dest = cand i ∧
      Forall valid_component (components dest) ∧
      entries s !! (rp ++ components dest) = None ∧
      ∀ j, index ≤ j < i → present_at rp (cand j) s).
Proof.
  intros cand Hne. revert index. induction todo as [|todo IH]; intros index; [apply spec_throw|].
  cbn [conflict_loop]. fold (cand index).
  apply spec_bind with (mid := λ c s, (c = cand index ∧ Forall valid_component (components c))
    ∧ root_at h rp s).
  { eapply (spec_conseq _ (λ s, True ∧ root_at h rp s)).
    - apply (spec_frame_root _ h rp (λ _, True)). apply spec_fs_wrap, spec_of_result.
    - done.
    - intros a s [Ha ?]. split; [|done]. by apply SanitizeRelativePath_ok in Ha as [-> ?]. }
  intros c. apply spec_pre. intros [-> Hval].
  eapply spec_bind; [by apply spec_catch_Root_Lstat|]. intros [info|e].
  - destruct (IsSymlink info); [apply spec_throw|].
    eapply (spec_conseq _ (λ s, root_at h rp s ∧ present_at rp (cand index) s)).
    + apply (spec_frame _ (present_at rp (cand index))); [|apply IH].
      intros s s'. apply present_extends.
    + intros s [He ?]. split; [done|]. by eexists.
    + intros dest s [(i&Hi&Hd&Hv&Hnone&Hlow) Hp]. exists i. split_and!; try done; [lia..|].
      intros j Hj. destruct (decide (j = index)) as [->|]; [done|]. apply Hlow. lia.
  - destruct (errors_is e ErrNotExist); [|apply spec_throw]. apply spec_ret.
    intros s [Hn _]. exists index. split_and!; try done; [lia..|by apply Hn|]. intros j Hj. lia.
Qed.

Lemma candidate_nonempty parent stem ext j :
  filepath_Join [parent; candidate_name stem ext j] ≠ "".
Proof.
  simpl. repeat case_bool_decide; try apply Clean_nonempty.
  match goal with H : candidate_name _ _ _ = "" |- _ => rename H into Hc end.
  apply (f_equal String.length) in Hc. unfold candidate_name in Hc.
  rewrite !str_length_app in Hc. simpl in Hc. lia.
Qed.

(** What planning promises about the path it returns. *)
Definition planned (rp : path) (relative policy dest : string) (s : FS) : Prop :=
  Forall valid_component (components dest) ∧
  (dest = relative ∧ (policy = ConflictOverwrite ∨ entries s !! (rp ++ components dest) = None) ∨
   policy = ConflictRename ∧ present_at rp relative s ∧
   entries s !! (rp ++ components dest) = None ∧
   ∃ i, 1 ≤ i ≤ max_candidates ∧ dest = candidate_path relative i ∧
     ∀ j, 1 ≤ j < i → present_at rp (candidate_path relative j) s).

Lemma spec_Root_PlanConflict h rp relative policy :
  spec (λ _, False) (root_at h rp) (Root_PlanConflict h relative policy)
    (λ dest s, planned rp relative policy dest s ∧ no_link (rp ++ components dest) s).
Proof.
  apply rspec_of_result. intros w Hs. case_bool_decide as Hne; [apply spec_throw|].
  apply SanitizeRelativePath_ok in Hs as [-> Hval].
  case_bool_decide as Hpol; [|apply spec_throw]. cbn [negb].
  eapply spec_bind; [by apply spec_catch_Root_Lstat|]. intros [info|e].
  2:{ destruct (errors_is e ErrNotExist); [|apply spec_throw]. apply spec_ret.
      intros s [Hn _]. specialize (Hn eq_refl). split.
      - split; [done|]. left. auto.
      - intros t. by rewrite Hn. }
  destruct (IsSymlink info) eqn:Hsym; [apply spec_throw|].
  case_bool_decide as Hov.
  { apply spec_ret. intros s [He _]. split; [split; [done|by auto]|by eapply no_link_entry]. }
  case_bool_decide as Hfail; [apply spec_throw|].
  assert (policy = ConflictRename) as -> by set_solver.
  destruct (splitRelative relative) as [parent base] eqn:Hsp.
  set (ext := if bool_decide (Ext base = base) then "" else Ext base).
  assert (∀ j, filepath_Join [parent; candidate_name (TrimSuffix base ext) ext j] =
               candidate_path relative j) as Hcand.
  { intros j. unfold candidate_path. by rewrite Hsp. }
  eapply (spec_conseq _ (λ s, root_at h rp s ∧ present_at rp relative s)).
  - apply (spec_frame _ (present_at rp relative)).
    + intros s s'. apply present_extends.
    + apply spec_conflict_loop. intros j. apply candidate_nonempty.
  - intros s [He ?]. split; [done|by eexists].
  - intros dest s [(i&Hi&->&Hv&Hnone&Hlow) Hp]. split; [|intros t; by rewrite Hnone].
    split; [done|]. right. split_and!; [done|done|done|].
    rewrite Z2Nat.id in Hi by (unfold max_candidates; lia).
    exists i. split_and!; [lia|lia|done|].
    intros j Hj. rewrite <- Hcand. by apply Hlow.
Qed.

(** ** Properties *)

(** A root for downloads and one for partial files, both open. *)
Definition sample_fs : FS :=
  mkFS (list_to_map [([], EDir); (["dl"], EDir); (["dl"; "a.bin"], EFile [1]);
                     (["parts"], EDir); (["parts"; "job"], EDir);
                     (["parts"; "job"; "f.part"], EFile [7; 8])])
       (<[0%nat := mkRootState ["dl"] "/dl" true false]>
          (<[1%nat := mkRootState ["parts"] "/parts" true false]> ∅)) 2 [] [].

Lemma sample_fs_ok : fs_ok sample_fs.
Proof.
  split_and!; [by apply tree_check_ok; vm_compute| |constructor].
  apply map_Forall_insert_2; [|apply map_Forall_insert_2; [|apply map_Forall_empty]].
  all: by split; [repeat constructor; vm_compute|vm_compute].
Qed.

(** A missing parent directory of a path is created, at most. *)
Definition made_parents (rp : path) (relative : string) (s s' : FS) (p : path) : Prop :=
  entries s !! p = None ∧ entries s' !! p = Some EDir ∧
  p `prefix_of` rp ++ removelast (components relative).

(** C11: moving a finished file into the download root.  When the call
    succeeds, the file's bytes are at the destination and no longer at the
    source, the destination held no link or directory, and without
    [overwrite] it held nothing at all; every other path is as it was,
    except that missing parent directories of the destination now exist.
    When it fails, the file has not moved and nothing is lost. *)
Theorem RenameFrom_moves h src rp sp sourceRelative destinationRelative overwrite s :
  fs_ok s → root_at h rp s → root_at src sp s →
  let from := sp ++ components sourceRelative in
  let to := rp ++ components destinationRelative in
  let (s', r) := Root_RenameFrom h src sourceRelative destinationRelative overwrite s in
  fs_ok s' ∧
  match r with
  | Ok _ => ∃ c, entries s !! from = Some (EFile c) ∧ entries s' !! to = Some (EFile c) ∧
      (from ≠ to → entries s' !! from = None) ∧
      (overwrite = false → entries s !! to = None) ∧
      entries s !! to ≠ Some EDir ∧ (∀ t, entries s !! to ≠ Some (ESymlink t)) ∧
      ∀ p, p ≠ from → p ≠ to →
        entries s' !! p = entries s !! p ∨ made_parents rp destinationRelative s s' p
  | Err _ => ∀ p, entries s' !! p = entries s !! p ∨ made_parents rp destinationRelative s s' p
  end.
Proof.
  intros Hok Hh Hsrc. cbv zeta.
  pose proof (Root_RenameFrom_renamed h src rp sp sourceRelative destinationRelative overwrite s
    Hok Hh Hsrc) as Hr.
  destruct (Root_RenameFrom _ _ _ _ _ s) as [s' [u|e]]; destruct Hr as [Hok' Hr];
    (split; [done|]).
  - destruct Hr as (c&mid&Hex&Hc&Hns&Hnd&Hno&He&_). exists c. rewrite He. split_and!.
    + by eapply extends_file.
    + by rewrite lookup_insert_eq.
    + intros Hne. rewrite lookup_insert_ne by done. by rewrite lookup_delete_eq.
    + intros Ho. destruct (entries s !! _) eqn:E; [|done].
      eapply extends_lookup in E; [|done]. by rewrite Hno in E.
    + intros E. eapply extends_lookup in E; done.
    + intros t E. eapply extends_lookup in E; [|done]. by eapply Hns.
    + intros p Hp1 Hp2. rewrite lookup_insert_ne, lookup_delete_ne by done.
      destruct (proj1 Hex p) as [|([_ ?]&?&?)]; [auto|right]. unfold made_parents.
      rewrite He, lookup_insert_ne, lookup_delete_ne by done. by split_and!.
  - intros p. destruct (proj1 Hr p) as [|([_ ?]&?&?)]; [auto|right]. by split_and!.
Qed.

Lemma RenameFrom_moves_witness :
  let (s', r) := Root_RenameFrom 0 1 "job/f.part" "music/song.mp3" false sample_fs in
  r = Ok () ∧ entries s' !! ["dl"; "music"; "song.mp3"] = Some (EFile [7; 8]) ∧ fs_ok s'.
Proof.
  pose proof (RenameFrom_moves 0 1 ["dl"] ["parts"] "job/f.part" "music/song.mp3" false sample_fs
    sample_fs_ok eq_refl eq_refl) as H. cbv zeta in H.
  assert ((Root_RenameFrom 0 1 "job/f.part" "music/song.mp3" false sample_fs).2 = Ok ()) as Hr
    by (vm_compute; reflexivity).
  destruct (Root_RenameFrom _ _ _ _ _ _) as [s' r]. simpl in Hr. subst r.
  destruct H as (?&c&Hc&Hto&_). split; [reflexivity|]. split; [|assumption].
  vm_compute in Hc. injection Hc as <-. exact Hto.
Defined.

(** C39: deletion is confined.  Whatever fails, [RemoveAll] removes
    nothing outside the subtree named below the root and never a symbolic
    link, and changes nothing else; a successful call leaves nothing of the
    subtree; and with the root open, no failing system call and no link in
    the subtree it does succeed (the recursion reaches every level of any
    tree).  [Remove] is confined to the single entry it names. *)
Theorem RemoveAll_confined h rp relative s :
  fs_ok s → root_at h rp s →
  let target := rp ++ components relative in
  let confined (V : path → Prop) s' := fs_ok s' ∧ ∀ p, entries s' !! p = entries s !! p ∨
    V p ∧ entries s' !! p = None ∧ no_link p s in
  (let (s', r) := Root_RemoveAll h relative s in
   confined (λ p, target `prefix_of` p) s' ∧
   (r = Ok () → ∀ q, entries s' !! (target ++ q) = None) ∧
   (sys_faults s = [] → root_open h rp s → relative ≠ "" →
    Forall valid_component (components relative) → is_Some (entries s !! target) →
    (∀ p, target `prefix_of` p → no_link p s) → r = Ok ())) ∧
  (let (s', r) := Root_Remove h relative s in
   confined (eq target) s' ∧ (r = Ok () → entries s' !! target = None)).
Proof.
  intros Hok Hat. cbv zeta. split.
  - destruct (spec_Root_RemoveAll h rp relative s Hok Hat) as (Hok'&[He _]&Hgone).
    pose proof (λ Hf Ho Hn Hv Hp, Root_RemoveAll_total h rp relative s Hok Hf Ho Hn Hv Hp) as Ht.
    destruct (Root_RemoveAll h relative s) as [s' r]. simpl in *. split_and!; [done|done| |done].
    intros -> q. apply tree_missing; [apply Hok'|by apply (Hgone ())].
  - destruct (spec_Root_Remove h rp relative s Hok Hat) as (Hok'&[He _]&Hgone).
    destruct (Root_Remove h relative s) as [s' r]. simpl in *. split; [done|].
    intros ->. by apply (Hgone ()).
Qed.

Lemma RemoveAll_confined_witness :
  let (s', r) := Root_RemoveAll 1 "job" sample_fs in
  r = Ok () ∧ entries s' !! ["parts"; "job"; "f.part"] = None ∧
  (entries s' !! ["dl"; "a.bin"] = Some (EFile [1])).
Proof.
  destruct (RemoveAll_confined 1 ["parts"] "job" sample_fs sample_fs_ok eq_refl) as [H _].
  cbv zeta in H.
  assert ((Root_RemoveAll 1 "job" sample_fs).2 = Ok ()) as Hr by (vm_compute; reflexivity).
  destruct (Root_RemoveAll 1 "job" sample_fs) as [s' r]. simpl in Hr. subst r.
  destruct H as ([_ Hc]&Hgone&_). split; [reflexivity|]. split.
  - exact (Hgone eq_refl ["f.part"]).
  - destruct (Hc ["dl"; "a.bin"]) as [->|(Hp&_)]; [vm_compute; reflexivity|].
    destruct Hp as [k Hk]. vm_compute in Hk. discriminate.
Defined.

(** choosing a destination.  [PlanConflict] never changes the tree.
    The path it returns is made of ordinary components and is not a link;
    it is the requested path when that is free or the policy is
    "overwrite", and otherwise, under "rename", the requested name with the
    smallest counter between 1 and 100000 that is free.  Under "fail" it
    never returns the path of an existing entry. *)
Theorem PlanConflict_free h rp relative policy s :
  fs_ok s → root_at h rp s →
  let (s', r) := Root_PlanConflict h relative policy s in
  entries s' = entries s ∧
  match r with
  | Ok dest => planned rp relative policy dest s ∧ no_link (rp ++ components dest) s ∧
      (policy ≠ ConflictOverwrite → entries s !! (rp ++ components dest) = None)
  | Err _ => True
  end.
Proof.
  intros Hok Hat.
  destruct (spec_Root_PlanConflict h rp relative policy s Hok Hat) as (_&[He _]&Hplan).
  destruct (Root_PlanConflict h relative policy s) as [s' r]. simpl in *.
  assert (entries s' = entries s) as Heq.
  { apply map_eq. intros p. destruct (He p) as [|[[] _]]. done. }
  split; [done|]. destruct r as [dest|]; [|done].
  destruct (Hplan dest eq_refl) as [Hp Hl]. unfold planned, present_at, no_link in Hp, Hl.
  rewrite Heq in Hp, Hl. split; [exact Hp|]. split; [exact Hl|].
  destruct Hp as [_ [(_&[?|?])|(_&_&?&_)]]; done.
Qed.

Lemma PlanConflict_free_witness :
  let (s', r) := Root_PlanConflict 0 "a.bin" "rename" sample_fs in
  r = Ok "a (1).bin" ∧ entries s' = entries sample_fs ∧
  entries sample_fs !! ["dl"; "a (1).bin"] = None.
Proof.
  pose proof (PlanConflict_free 0 ["dl"] "a.bin" "rename" sample_fs sample_fs_ok eq_refl) as H.
  assert ((Root_PlanConflict 0 "a.bin" "rename" sample_fs).2 = Ok "a (1).bin") as Hr
    by (vm_compute; reflexivity).
  destruct (Root_PlanConflict _ _ _ _) as [s' r]. simpl in Hr. subst r.
  destruct H as (He&_&_&Hf). split; [reflexivity|]. split; [exact He|].
  apply Hf. discriminate.
Defined.
