(* ===== verification/Worker.v ===== *)
(** * Range worker (internal/download/worker.go, writer.go, and
    downloadSegmentWithRetry of manager.go)

    One HTTP range response decrypted into the partial file, with every
    response, every sequence of body reads and every write failure possible,
    and the retry loop around it. *)

From Stdlib Require Import ZArith Lia.
From stdpp Require Import base list gmap strings numbers pretty.
From S2P Require Import Prelude GoStrings GoErrors JobState Planner Retry Crypto.

(** ** The partial file *)

(** What a call to [os.File.WriteAt] does: writes everything, or [n] bytes
    and an error; an [io.WriterAt] may also write short without one. *)
Inductive write_outcome :=
| WFull
| WPartial (n : nat) (err : option error).

(** [PartialFile], and what the environment does to the transfer: the
    outcomes of writes and of limiter waits, and the response body as the
    chunks its reads will return and the error that ends it.  [metered] is
    the speed meter's total. *)
Record Transfer := mkTransfer {
  contents : list Z;
  pf_size : Z;
  pf_open : bool;
  write_faults : list write_outcome;
  wait_faults : list (option error);
  body : list (list Z);
  body_end : error;
  metered : Z }.

#[export] Instance Transfer_eta : Eta Transfer := λ r,
  mkTransfer (contents r) (pf_size r) (pf_open r) (write_faults r) (wait_faults r)
    (body r) (body_end r) (metered r).

(** [buf] with [new] written at [off]. *)
Definition write_at (buf : list Z) (off : Z) (new : list Z) : list Z :=
  take (Z.to_nat off) buf ++ new ++ drop (Z.to_nat off + length new) buf.

(** [PartialFile.WriteAt]: bytes written and error. *)
Definition PartialFile_WriteAt (data : list Z) (offset : Z) (x : Transfer)
    : Transfer * (Z * option error) :=
  if negb (pf_open x) then (x, (0, Some (New "partial file is closed")))
  else if (offset <? 0) || (pf_size x <? offset)
          || (pf_size x - offset <? Z.of_nat (length data))
  then (x, (0, Some (New "partial write is outside file bounds")))
  else
    match write_faults x with
    | WPartial n err :: rest =>
      (x <| contents := write_at (contents x) offset (take n data) |>
         <| write_faults := rest |>,
       (Z.of_nat (length (take n data)), err))
    | WFull :: rest =>
      (x <| contents := write_at (contents x) offset data |> <| write_faults := rest |>,
       (Z.of_nat (length data), None))
    | [] => (x <| contents := write_at (contents x) offset data |>,
             (Z.of_nat (length data), None))
    end.

Definition PartialFile_Close (x : Transfer) : Transfer := x <| pf_open := false |>.

(** ** Copying a response *)

(** [writeAllAt]; each round writes at least one byte or returns, so the
    length of the data bounds the rounds. *)
Fixpoint write_rounds (fuel : nat) (data : list Z) (offset : Z) : cmd error Transfer () := λ x,
  match data, fuel with
  | [], _ => (x, Ok ())
  | _, O => (x, Err (Sentinel ErrShortWrite))
  | _, S fuel =>
    let '(x, (n, err)) := PartialFile_WriteAt data offset x in
    match err with
    | Some e => (x, Err (Wrapf "write plaintext range" e))
    | None =>
      if n =? 0 then (x, Err (Sentinel ErrShortWrite))
      else write_rounds fuel (drop (Z.to_nat n) data) (offset + n) x
    end
  end.
Definition writeAllAt (data : list Z) (offset : Z) : cmd error Transfer () :=
  write_rounds (length data) data offset.

(** [io.ReadAtLeast(body, buffer[:max], 1)]: reads of no bytes are repeated,
    a read returns at most [max] bytes, and the end of the body returns its
    error. *)
Fixpoint read_at_least (chunks : list (list Z)) (max : nat) : list Z * list (list Z) :=
  match chunks with
  | [] => ([], [])
  | [] :: rest => read_at_least rest max
  | c :: rest =>
    (take max c, if bool_decide (drop max c = []) then rest else drop max c :: rest)
  end.

Definition transferBufferSize : Z := Z.shiftl 512 10.

(** [Limiter.WaitN] of one of the two limiters, when it is configured. *)
Definition wait_limiter (configured : bool) : cmd error Transfer () := λ x,
  if configured then
    match wait_faults x with
    | Some e :: rest => (x <| wait_faults := rest |>, Err e)
    | None :: rest => (x <| wait_faults := rest |>, Ok ())
    | [] => (x, Ok ())
    end
  else (x, Ok ()).

(** A Go pair [(written, err)]: errors carry the bytes written so far. *)
Definition returning {A} (written : Z) (m : cmd error Transfer A)
    : cmd (Z * error) Transfer A := λ x,
  match m x with (x', Ok a) => (x', Ok a) | (x', Err e) => (x', Err (written, e)) end.

Record TransferOptions := mkOptions { Limiter : bool; GlobalLimiter : bool; Meter : bool }.

Section worker.
(** The block cipher of [crypto/aes]. *)
Context (E : list Z → list Z → list Z).

(** The loop of [DownloadRangeWithOptions] after [written] bytes; a round
    consumes at least one byte of the body or returns. *)
Fixpoint copy_loop (fuel : nat) (options : TransferOptions) (segment : Segment)
    (want written : Z) (stream : Stream) : cmd (Z * error) Transfer Z :=
  if negb (written <? want) then mret written
  else match fuel with
  | O => throw (written, Sentinel ErrUnexpectedEOF)
  | S fuel =>
    let readSize := Z.min transferBufferSize (want - written) in
    _ ← returning written (wait_limiter (Limiter options));
    _ ← returning written (wait_limiter (GlobalLimiter options));
    x ← get;
    let (buffer, rest) := read_at_least (body x) (Z.to_nat readSize) in
    _ ← modify (λ x, x <| body := rest |>);
    if bool_decide (buffer = []) then
      if errors_is (body_end x) EOF || errors_is (body_end x) ErrUnexpectedEOF
      then throw (written, Wrapf ("payload ended after " +:+ FormatInt written +:+ " of "
             +:+ FormatInt want +:+ " bytes") (body_end x))
      else throw (written, Wrapf "read encrypted payload" (body_end x))
    else
      let (plain, stream) := XORKeyStream E stream buffer in
      _ ← returning written (writeAllAt plain (sStart segment + written));
      let n := Z.of_nat (length buffer) in
      _ ← modify (λ x, if Meter options then x <| metered := metered x + n |> else x);
      copy_loop fuel options segment want (written + n) stream
  end.

(** ** The response *)

(** The [http.Response] of a payload request; [ContentLength] is -1 when
    unknown. *)
Record Response := mkResponse {
  StatusCode : Z;
  Status : string;
  RetryAfter : string;
  ContentRange : string;
  ContentLength : Z;
  Body : list (list Z);
  BodyEnd : error }.

Definition validateContentRange (value : string) (segment : Segment) (fileSize : Z)
    : result error () :=
  let value := TrimSpace value in
  let invalid := Err (New ("payload Content-Range " +:+ quote value +:+ " is invalid")) in
  if negb (HasPrefix value "bytes ") then invalid
  else
    let body := TrimPrefix value "bytes " in
    let '(rangePart, totalPart, ok) := Cut body "/" in
    if negb ok then invalid
    else
      let '(startText, endText, ok) := Cut rangePart "-" in
      if negb ok then invalid
      else match ParseInt startText, ParseInt endText, ParseInt totalPart with
           | Some start, Some end_, Some total =>
             if (start =? sStart segment) && (end_ =? sEnd segment) && (total =? fileSize)
             then Ok ()
             else Err (New ("payload Content-Range " +:+ quote value +:+ " does not match bytes "
               +:+ FormatInt (sStart segment) +:+ "-" +:+ FormatInt (sEnd segment)
               +:+ "/" +:+ FormatInt fileSize))
           | _, _, _ =>
             Err (New ("payload Content-Range " +:+ quote value +:+ " does not match bytes "
               +:+ FormatInt (sStart segment) +:+ "-" +:+ FormatInt (sEnd segment)
               +:+ "/" +:+ FormatInt fileSize))
           end.

Definition StatusPartialContent : Z := 206.

Definition lift {A} (r : result error A) : cmd (Z * error) Transfer A :=
  match r with Ok a => mret a | Err e => throw (0, e) end.

(** The rounds the copy loop can make: one for each byte of the body. *)
Definition copy_fuel (x : Transfer) : nat := S (length (concat (body x))).

(** [err == io.EOF]: the value itself, not an error that wraps it. *)
Definition is_EOF (e : error) : bool :=
  match e with Sentinel EOF => true | _ => false end.

(** [DownloadRangeWithOptions]; [fetched] is what [FetchPayloadRange]
    returned for the segment's range. *)
Definition DownloadRangeWithOptions (fetched : result error (option Response)) (key : FileKey)
    (segment : Segment) (fileSize : Z) (options : TransferOptions)
    : cmd (Z * error) Transfer Z :=
  if (sStart segment <? 0) || (sEnd segment <? sStart segment) || (fileSize <=? sEnd segment)
  then throw (0, New ("invalid segment range " +:+ FormatInt (sStart segment) +:+ "-"
    +:+ FormatInt (sEnd segment) +:+ " for file size " +:+ FormatInt fileSize))
  else
    response ← lift fetched;
    match response with
    | None => throw (0, New "payload fetcher returned no response body")
    | Some r =>
      if negb (StatusCode r =? StatusPartialContent)
      then throw (0, HTTPStatusError (StatusCode r) (Status r) (RetryAfter r))
      else
        _ ← lift (validateContentRange (ContentRange r) segment fileSize);
        let want := Segment_Size segment in
        if (0 <=? ContentLength r) && negb (ContentLength r =? want)
        then throw (0, New ("payload content length " +:+ FormatInt (ContentLength r)
               +:+ ", want " +:+ FormatInt want))
        else
          stream ← lift (NewCTR E key (sStart segment));
          _ ← modify (λ x, x <| body := Body r |> <| body_end := BodyEnd r |>);
          x ← get;
          written ← copy_loop (copy_fuel x) options segment want 0 stream;
          x ← get;
          match body x with
          | [] =>
            if negb (is_EOF (body_end x)) && negb (errors_is (body_end x) ErrUnexpectedEOF)
            then throw (written, Wrapf "validate payload length" (body_end x))
            else mret written
          | _ => throw (written, New ("payload returned more than " +:+ FormatInt want +:+ " bytes"))
          end
    end.
End worker.

(** ** Writing into a buffer *)

(** [c'] differs from [c] at most inside [lo, hi). *)
Definition touches (lo hi : Z) (c c' : list Z) : Prop :=
  length c' = length c ∧
  ∀ i : nat, ¬ (lo ≤ Z.of_nat i < hi) → c' !! i = c !! i.

Definition in_buffer (c : list Z) (off : Z) (new : list Z) : Prop :=
  0 ≤ off ∧ off + Z.of_nat (length new) ≤ Z.of_nat (length c).

Lemma touches_refl lo hi c : touches lo hi c c.
Proof. done. Qed.

Lemma touches_trans lo hi c1 c2 c3 : touches lo hi c1 c2 → touches lo hi c2 c3 → touches lo hi c1 c3.
Proof. intros [L1 H1] [L2 H2]. split; [congruence|]. intros i Hi. by rewrite H2, H1. Qed.

Lemma touches_mono lo hi lo' hi' c c' :
  lo' ≤ lo → hi ≤ hi' → touches lo hi c c' → touches lo' hi' c c'.
Proof. intros Hl Hh [L H]. split; [done|]. intros i Hi. apply H. lia. Qed.

Lemma length_write_at c off new : in_buffer c off new → length (write_at c off new) = length c.
Proof.
  intros [H1 H2]. unfold write_at. rewrite !length_app, length_take, length_drop. lia.
Qed.

Lemma write_at_touches c off new :
  in_buffer c off new → touches off (off + Z.of_nat (length new)) c (write_at c off new).
Proof.
  intros Hb. pose proof Hb as [H1 H2]. split; [by apply length_write_at|].
  intros i Hi. unfold write_at. destruct (decide (Z.of_nat i < off)).
  - rewrite lookup_app_l by (rewrite length_take; lia). apply lookup_take_lt. lia.
  - rewrite lookup_app_r by (rewrite length_take; lia). rewrite length_take.
    rewrite lookup_app_r by lia. rewrite lookup_drop. f_equal. lia.
Qed.

Lemma write_at_nil c off : in_buffer c off [] → write_at c off [] = c.
Proof. intros [? _]. unfold write_at. simpl. rewrite Nat.add_0_r. apply take_drop. Qed.

(** Consecutive writes are one write. *)
Lemma write_at_app c off a b :
  in_buffer c off (a ++ b) →
  write_at (write_at c off a) (off + Z.of_nat (length a)) b = write_at c off (a ++ b).
Proof.
  intros [H1 H2]. rewrite length_app, Nat2Z.inj_add in H2. unfold write_at.
  rewrite (assoc_L (++)). rewrite (assoc_L (++) (take _ c) a).
  assert (length (take (Z.to_nat off) c ++ a) = Z.to_nat (off + Z.of_nat (length a))) as Hl.
  { rewrite length_app, length_take. lia. }
  rewrite take_app_length' by done. rewrite <- !(assoc_L (++)). do 3 f_equal.
  rewrite (assoc_L (++)), drop_app_ge by lia. rewrite drop_drop, Hl, length_app. f_equal. lia.
Qed.

Lemma write_at_segment c off new :
  in_buffer c off new → take (length new) (drop (Z.to_nat off) (write_at c off new)) = new.
Proof.
  intros [H1 H2]. unfold write_at.
  rewrite drop_app_length' by (rewrite length_take; lia). by rewrite take_app_length.
Qed.

Lemma in_buffer_take c off new n : in_buffer c off new → in_buffer c off (take n new).
Proof. intros [? ?]. split; [done|]. rewrite length_take. lia. Qed.

(** ** The copy loop *)

(** What no part of a transfer changes. *)
Definition same_file (x x' : Transfer) : Prop :=
  pf_size x' = pf_size x ∧ pf_open x' = pf_open x ∧
  length (contents x') = length (contents x).

Definition sized (x : Transfer) : Prop := pf_size x = Z.of_nat (length (contents x)).

Lemma PartialFile_WriteAt_spec data off x :
  sized x →
  let '(x', (n, err)) := PartialFile_WriteAt data off x in
  same_file x x' ∧ body x' = body x ∧ body_end x' = body_end x ∧ metered x' = metered x ∧
  0 ≤ n ≤ Z.of_nat (length data) ∧
  ((n = 0 ∧ contents x' = contents x ∧ is_Some err) ∨
   (in_buffer (contents x) off data ∧
    contents x' = write_at (contents x) off (take (Z.to_nat n) data))).
Proof.
  intros Hs. unfold PartialFile_WriteAt, sized in *.
  destruct (pf_open x); simpl; [|split_and!; try done; [lia..|left; by split_and!]].
  destruct (_ || _) eqn:Hb; simpl; [split_and!; try done; [lia..|left; by split_and!]|].
  bool_to_prop.
  assert (in_buffer (contents x) off data) as Hin by (split; lia).
  assert (∀ n, length (write_at (contents x) off (take n data)) = length (contents x)) as Hl.
  { intros n. by apply length_write_at, in_buffer_take. }
  assert (write_at (contents x) off data =
    write_at (contents x) off (take (Z.to_nat (Z.of_nat (length data))) data)) as Hfull.
  { by rewrite Nat2Z.id, firstn_all. }
  destruct (write_faults x) as [|[|n err] rest]; simpl.
  - split_and!; try done; [by split_and!; [..|apply length_write_at]|lia..|]. right. by split.
  - split_and!; try done; [by split_and!; [..|apply length_write_at]|lia..|]. right. by split.
  - rewrite length_take. split_and!; try done; [by split_and!; [..|apply Hl]|lia..|].
    right. split; [done|].
    f_equal. rewrite Nat2Z.id. destruct (decide (n ≤ length data)%nat).
    + by rewrite Nat.min_l.
    + by rewrite Nat.min_r, !take_ge by lia.
Qed.

Lemma write_rounds_spec fuel data off x :
  sized x → 0 ≤ off → (length data ≤ fuel)%nat →
  let (x', r) := write_rounds fuel data off x in
  same_file x x' ∧ body x' = body x ∧ body_end x' = body_end x ∧ metered x' = metered x ∧
  touches off (off + Z.of_nat (length data)) (contents x) (contents x') ∧
  (r = Ok () → (data = [] ∨ in_buffer (contents x) off data) ∧
               contents x' = if bool_decide (data = []) then contents x
                             else write_at (contents x) off data).
Proof.
  revert data off x. induction fuel as [|fuel IH]; intros data off x Hs Hoff Hlen.
  { destruct data; [|simpl in Hlen; lia]. simpl. split_and!; try done. by split; [left|]. }
  cbn [write_rounds]. destruct data as [|b data']; [split_and!; try done; by split; [left|]|].
  set (data := b :: data') in *.
  pose proof (PartialFile_WriteAt_spec data off x Hs) as Hw.
  destruct (PartialFile_WriteAt data off x) as [x1 [n err]].
  destruct Hw as ((Hz&Ho&Hl)&Hb&He&Hm&Hn&Hc).
  assert (touches off (off + Z.of_nat (length data)) (contents x) (contents x1)) as Ht.
  { destruct Hc as [(_&->&_)|[Hin ->]]; [apply touches_refl|].
    eapply touches_mono; [| |apply write_at_touches; by apply in_buffer_take]; [lia|].
    rewrite length_take. lia. }
  destruct err as [e|].
  { split_and!; try done. }
  destruct Hc as [(_&_&[? [=]])|[Hin Hc]].
  destruct (Z.eqb_spec n 0) as [->|Hn0].
  { split_and!; try done. }
  assert (sized x1) as Hs1 by (unfold sized in *; congruence).
  specialize (IH (drop (Z.to_nat n) data) (off + n) x1 Hs1 ltac:(lia)).
  rewrite length_drop in IH. specialize (IH ltac:(lia)).
  destruct (write_rounds fuel (drop (Z.to_nat n) data) (off + n) x1) as [x2 r].
  destruct IH as ((?&?&?)&?&?&?&Ht2&Hr). split_and!; try congruence.
  - split_and!; congruence.
  - eapply touches_trans; [exact Ht|]. eapply touches_mono; [..|exact Ht2]; lia.
  - intros ->. destruct (Hr eq_refl) as [_ Hc2]. split; [by right|].
    rewrite (bool_decide_eq_false_2 (data = [])) by done.
    assert (length (take (Z.to_nat n) data) = Z.to_nat n) as Hlt by (rewrite length_take; lia).
    rewrite Hc2, Hc.
    trans (write_at (contents x) off (take (Z.to_nat n) data ++ drop (Z.to_nat n) data));
      [|by rewrite take_drop].
    case_bool_decide as Hd.
    + by rewrite Hd, app_nil_r.
    + rewrite <- write_at_app by (by rewrite take_drop). by rewrite Hlt, Z2Nat.id by lia.
Qed.

Lemma read_at_least_spec chunks max buf rest :
  (0 < max)%nat → read_at_least chunks max = (buf, rest) →
  concat chunks = buf ++ concat rest ∧ (length buf ≤ max)%nat ∧ (buf = [] → concat chunks = []).
Proof.
  intros Hmax. induction chunks as [|[|b c] chunks IH]; simpl; intros Hr.
  - simplify_eq. split_and!; [done|simpl; lia|done].
  - by apply IH.
  - change (b :: c ++ concat chunks) with ((b :: c) ++ concat chunks).
    simplify_eq. split_and!.
    + case_bool_decide as Hd; simpl concat.
      * rewrite take_ge; [done|]. apply (f_equal length) in Hd. rewrite length_drop in Hd.
        simpl in *. lia.
      * by rewrite (assoc_L (++)), take_drop.
    + rewrite length_take. lia.
    + destruct max; [lia|done].
Qed.

Lemma length_XORKeyStream E s data : length (XORKeyStream E s data).1 = length data.
Proof. simpl. rewrite length_zip_with, length_seqZ. lia. Qed.

(** A stream decrypts a split input as it decrypts the whole. *)
Lemma XORKeyStream_app E s a b :
  (XORKeyStream E s (a ++ b)).1 =
  (XORKeyStream E s a).1 ++ (XORKeyStream E (XORKeyStream E s a).2 b).1.
Proof.
  simpl. rewrite length_app, Nat2Z.inj_add, seqZ_app by lia.
  by rewrite zip_with_app by (rewrite length_seqZ; lia).
Qed.

Lemma returning_bind {A B} w (m : cmd error Transfer A) (k : A → cmd (Z * error) Transfer B) x :
  (returning w m ≫= k) x =
  match m x with (x', Ok a) => k a x' | (x', Err e) => (x', Err (w, e)) end.
Proof. unfold returning, mbind, cmd_bind. by destruct (m x) as [x' [a|e]]. Qed.

(** Waiting only consumes the limiter's schedule. *)
Lemma wait_limiter_spec configured x :
  ∃ w r, wait_limiter configured x = (x <| wait_faults := w |>, r).
Proof.
  unfold wait_limiter. destruct configured; [|by exists (wait_faults x); destruct x; eexists].
  destruct (wait_faults x) as [|[e|] rest] eqn:Ew; eexists _, _; [|done..].
  destruct x; simpl in Ew. by subst.
Qed.

Section copy.
Context (E : list Z → list Z → list Z) (options : TransferOptions) (segment : Segment) (want : Z).
Context (Hstart : 0 ≤ sStart segment).

(** The outcome of the loop entered after [written] bytes with [stream]. *)
Definition copied (written : Z) (stream : Stream) (x : Transfer)
    (out : Transfer * result (Z * error) Z) : Prop :=
  let (x', r) := out in
  same_file x x' ∧ body_end x' = body_end x ∧
  touches (sStart segment + written) (sStart segment + want) (contents x) (contents x') ∧
  match r with
  | Ok n => n = want ∧ ∃ used, concat (body x) = used ++ concat (body x') ∧
      Z.of_nat (length used) = want - written ∧
      (used = [] ∧ contents x' = contents x ∨
       in_buffer (contents x) (sStart segment + written) used ∧
       contents x' = write_at (contents x) (sStart segment + written) (XORKeyStream E stream used).1) ∧
      metered x' = metered x + (if Meter options then want - written else 0)
  | Err (n, _) => written ≤ n ≤ want
  end.

Lemma copied_err written stream x x' n e :
  same_file x x' → body_end x' = body_end x →
  touches (sStart segment + written) (sStart segment + want) (contents x) (contents x') →
  written ≤ n ≤ want → copied written stream x (x', Err (n, e)).
Proof. done. Qed.

Ltac stop_copy :=
  apply copied_err; [by split_and!|done|first [assumption | apply touches_refl]|lia].

Lemma copy_loop_spec fuel written stream x :
  sized x → 0 ≤ written ≤ want → (length (concat (body x)) < fuel)%nat →
  copied written stream x (copy_loop E fuel options segment want written stream x).
Proof using Hstart.
  revert written stream x. induction fuel as [|fuel IH]; intros written stream x Hs Hw Hfuel; [lia|].
  cbn [copy_loop]. destruct (Z.ltb_spec written want) as [Hlt|Hge]; cbn [negb].
  2:{ split_and!; try done; [lia|]. exists []. split_and!; [done|simpl; lia|by left|].
      destruct (Meter options); lia. }
  rewrite returning_bind.
  destruct (wait_limiter_spec (Limiter options) x) as (w1&r1&->).
  destruct r1 as [[]|e]; [|stop_copy].
  set (x1 := x <| wait_faults := w1 |>).
  rewrite returning_bind.
  destruct (wait_limiter_spec (GlobalLimiter options) x1) as (w2&r2&->).
  destruct r2 as [[]|e]; [|stop_copy].
  set (x2 := x1 <| wait_faults := w2 |>).
  rewrite get_bind. destruct (read_at_least (body x2) (Z.to_nat (Z.min transferBufferSize (want - written))))
    as [buffer rest] eqn:Hread.
  assert (0 < Z.min transferBufferSize (want - written) ≤ want - written) as Hsize.
  { assert (transferBufferSize = 524288) as Htb by reflexivity. lia. }
  apply read_at_least_spec in Hread as (Hcat&Hlen&_); [|lia].
  change (body x2) with (body x) in Hcat.
  rewrite modify_bind. set (x3 := x2 <| body := rest |>).
  case_bool_decide as Hbuf.
  { destruct (_ || _); stop_copy. }
  assert (0 < length buffer)%nat as Hpos by (destruct buffer; [done|simpl; lia]).
  destruct (XORKeyStream E stream buffer) as [plain stream'] eqn:Hx.
  pose proof (length_XORKeyStream E stream buffer) as Hpl. rewrite Hx in Hpl. simpl in Hpl.
  rewrite returning_bind.
  pose proof (write_rounds_spec (length plain) plain (sStart segment + written) x3 Hs
    ltac:(lia) ltac:(lia)) as Hwr.
  unfold writeAllAt.
  destruct (write_rounds (length plain) plain (sStart segment + written) x3) as [x4 r4].
  destruct Hwr as (Hsf&Hb4&He4&Hm4&Ht4&Hok4).
  assert (touches (sStart segment + written) (sStart segment + want) (contents x) (contents x4)) as Ht.
  { eapply touches_mono; [..|exact Ht4]; lia. }
  destruct r4 as [[]|e]; [|by apply copied_err; [exact Hsf|exact He4|exact Ht|lia]].
  destruct (Hok4 eq_refl) as [[Hn|Hin] Hc]; [rewrite Hn in Hpl; simpl in Hpl; lia|].
  rewrite bool_decide_eq_false_2 in Hc by (intros ->; simpl in *; lia).
  rewrite modify_bind. set (x5 := if Meter options then x4 <| metered := metered x4 + Z.of_nat (length buffer) |> else x4).
  assert (contents x5 = contents x4 ∧ body x5 = rest ∧ body_end x5 = body_end x ∧
          same_file x x5 ∧ metered x5 = metered x + (if Meter options then Z.of_nat (length buffer) else 0))
    as (Hc5&Hb5&He5&Hsf5&Hm5).
  { unfold x5. destruct (Meter options); split_and!; try done; simpl; rewrite Hm4; simpl; lia. }
  assert (sized x5) as Hs5.
  { destruct Hsf5 as (Hz&_&Hl). unfold sized in *. rewrite Hl, Hz. done. }
  specialize (IH (written + Z.of_nat (length buffer)) stream' x5 Hs5 ltac:(lia)).
  rewrite Hb5 in IH. specialize (IH ltac:(rewrite Hcat, length_app in Hfuel; lia)).
  destruct (copy_loop E fuel options segment want (written + Z.of_nat (length buffer)) stream' x5)
    as [x6 r6].
  destruct IH as ((Hz6&Ho6&Hl6)&He6&Ht6&Hr6). destruct Hsf5 as (Hz5&Ho5&Hl5).
  split_and!; try congruence.
  - split_and!; congruence.
  - eapply touches_trans; [exact Ht|]. rewrite <- Hc5. eapply touches_mono; [..|exact Ht6]; lia.
  - destruct r6 as [n|[n e]]; [|lia]. destruct Hr6 as (->&used&Hu&Hul&Huc&Hum).
    split; [done|]. exists (buffer ++ used). split_and!.
    + rewrite Hcat, <- Hb5, Hu. by rewrite (assoc_L (++)).
    + rewrite length_app. lia.
    + right. rewrite XORKeyStream_app, Hx. cbn [fst snd]. rewrite Hc5, Hc in Huc.
      destruct Huc as [[-> ->]|[Hin2 ->]].
      * rewrite app_nil_r. simpl. rewrite app_nil_r. split; [|done].
        destruct Hin as [? Hin]. split; [done|]. by rewrite <- Hpl.
      * assert (in_buffer (contents x) (sStart segment + written) (buffer ++ used)) as Hin3.
        { destruct Hin2 as [? Hin2]. split; [lia|].
          rewrite length_write_at, ?length_app in * by done. change (contents x3) with (contents x) in Hin2. lia. }
        split; [done|]. change (contents x3) with (contents x).
        rewrite <- write_at_app; [by rewrite Hpl, Z.add_assoc|].
        destruct Hin3 as [? Hin3]. split; [done|].
        rewrite length_app, length_XORKeyStream. rewrite length_app in Hin3. lia.
    + destruct (Meter options); lia.
Qed.
End copy.

(** ** Success when nothing fails *)

Definition untroubled (x : Transfer) : Prop :=
  sized x ∧ pf_open x = true ∧ write_faults x = [] ∧ wait_faults x = [].

Lemma writeAllAt_ok data off x :
  untroubled x → in_buffer (contents x) off data → data ≠ [] →
  writeAllAt data off x = (x <| contents := write_at (contents x) off data |>, Ok ()).
Proof.
  intros (Hs&Ho&Hf&_) [H1 H2] Hne. unfold writeAllAt. destruct data as [|b data']; [done|].
  set (data := b :: data') in *. change (length data) with (S (length data')).
  cbn [write_rounds]. unfold data at 1. cbv iota beta. fold data.
  unfold PartialFile_WriteAt. rewrite Ho. cbn [negb]. unfold sized in Hs.
  rewrite (proj2 (Z.ltb_ge off 0)), (proj2 (Z.ltb_ge (pf_size x) off)),
    (proj2 (Z.ltb_ge _ (Z.of_nat (length data)))) by lia.
  cbn [orb]. rewrite Hf. cbv iota beta. rewrite (proj2 (Z.eqb_neq _ 0)) by (simpl; lia).
  rewrite Nat2Z.id, drop_all. by destruct (length data').
Qed.

Lemma read_at_least_chunks chunks max buf rest :
  (0 < max)%nat → Forall (.≠ []) chunks → read_at_least chunks max = (buf, rest) →
  Forall (.≠ []) rest ∧ (chunks ≠ [] → buf ≠ []).
Proof.
  intros Hmax [|c l Hc Hl]; simpl; intros Hr; simplify_eq; [done|].
  destruct c as [|b c]; [done|]. simplify_eq. split.
  - case_bool_decide; [done|]. by constructor.
  - intros _. by destruct max; [lia|].
Qed.

Lemma copy_loop_ok E options segment want fuel written stream x :
  untroubled x → 0 ≤ sStart segment → 0 ≤ written ≤ want →
  sStart segment + want ≤ Z.of_nat (length (contents x)) →
  Forall (.≠ []) (body x) → Z.of_nat (length (concat (body x))) = want - written →
  (length (concat (body x)) < fuel)%nat →
  ∃ x', copy_loop E fuel options segment want written stream x = (x', Ok want) ∧ body x' = [].
Proof.
  intros Hx Hst. revert written stream x Hx. induction fuel as [|fuel IH];
    intros written stream x Hx Hw Hfit Hch Htot Hfuel; [lia|].
  cbn [copy_loop]. destruct (Z.ltb_spec written want) as [Hlt|Hge]; cbn [negb].
  2:{ replace written with want by lia. eexists; split; [done|].
      destruct Hch as [|c l Hc]; [done|]. destruct c; [done|]. simpl in Htot. lia. }
  assert (∀ b, wait_limiter b x = (x, Ok ())) as Hwait.
  { intros b. unfold wait_limiter. destruct Hx as (_&_&_&->). by destruct b. }
  rewrite !returning_bind, Hwait, returning_bind, Hwait, get_bind.
  destruct (read_at_least _ _) as [buffer rest] eqn:Hread.
  assert (0 < Z.min transferBufferSize (want - written) ≤ want - written) as Hsize.
  { assert (transferBufferSize = 524288) as Htb by reflexivity. lia. }
  pose proof Hread as Hread2.
  apply read_at_least_spec in Hread as (Hcat&Hlen&_); [|lia].
  apply read_at_least_chunks in Hread2 as [Hrest Hne]; [|lia|done].
  assert (buffer ≠ []) as Hbuf.
  { apply Hne. intros Hb. rewrite Hb in Htot. simpl in Htot. lia. }
  rewrite modify_bind, bool_decide_eq_false_2 by done.
  destruct (XORKeyStream E stream buffer) as [plain stream'] eqn:Hxs.
  pose proof (length_XORKeyStream E stream buffer) as Hpl. rewrite Hxs in Hpl. cbn [fst] in Hpl.
  assert (length buffer ≠ 0%nat) as Hb0 by (by destruct buffer).
  set (x1 := x <| body := rest |>).
  assert (in_buffer (contents x1) (sStart segment + written) plain) as Hin.
  { split; [lia|]. change (contents x1) with (contents x). lia. }
  rewrite returning_bind, (writeAllAt_ok plain); [|exact Hx|done|by intros ->].
  rewrite modify_bind. rewrite Hcat, length_app in Htot, Hfuel.
  pose proof (length_write_at _ _ _ Hin) as Hl. destruct Hx as (Hs&Hx). unfold sized in Hs.
  destruct (Meter options); apply IH; try done; simpl in *; try lia; by split; [unfold sized; simpl; lia|].
Qed.

Lemma write_rounds_body fuel data off x : body (write_rounds fuel data off x).1 = body x.
Proof.
  revert data off x. induction fuel as [|fuel IH]; intros [|b data] off x; try done.
  cbn [write_rounds]. unfold PartialFile_WriteAt.
  repeat (case_match; simplify_eq/=; try done); rewrite IH; done.
Qed.

(** The loop's bound never cuts it short: more rounds change nothing. *)
Lemma copy_loop_fuel E options segment want fuel fuel' written stream x :
  (length (concat (body x)) < fuel)%nat → (fuel ≤ fuel')%nat →
  copy_loop E fuel' options segment want written stream x =
  copy_loop E fuel options segment want written stream x.
Proof.
  revert fuel' written stream x. induction fuel as [|fuel IH]; intros fuel' written stream x Hb Hf; [lia|].
  destruct fuel' as [|fuel']; [lia|]. cbn [copy_loop].
  destruct (Z.ltb_spec written want) as [Hlt|Hge]; cbn [negb]; [|done].
  rewrite !returning_bind. destruct (wait_limiter_spec (Limiter options) x) as (w1&r1&->).
  destruct r1; [|done]. rewrite !returning_bind.
  destruct (wait_limiter_spec (GlobalLimiter options) (x <| wait_faults := w1 |>)) as (w2&r2&->).
  destruct r2; [|done]. rewrite !get_bind.
  destruct (read_at_least _ _) as [buffer rest] eqn:Hread.
  apply read_at_least_spec in Hread as (Hcat&_&_).
  2:{ assert (transferBufferSize = 524288) as Htb by reflexivity. lia. }
  rewrite !modify_bind. case_bool_decide as Hbuf; [done|].
  destruct (XORKeyStream E stream buffer) as [plain stream'].
  set (x3 := _ <| body := rest |>). rewrite !returning_bind.
  pose proof (write_rounds_body (length plain) plain (sStart segment + written) x3) as Hwb.
  unfold writeAllAt. destruct (write_rounds _ _ _ x3) as [x4 [[]|e]]; [|done].
  rewrite !modify_bind. apply IH; [|lia].
  assert (concat (body x) = buffer ++ concat rest) as Hcat' by exact Hcat.
  rewrite Hcat', length_app in Hb. change (body x4 = rest) in Hwb.
  assert (length buffer ≠ 0%nat) by (by destruct buffer).
  destruct (Meter options); simpl; rewrite Hwb; lia.
Qed.

Lemma NewCTR_nonneg E key off : 0 ≤ off → ∃ stream, NewCTR E key off = Ok stream.
Proof. intros Hoff. unfold NewCTR. rewrite (proj2 (Z.ltb_ge off 0)) by lia. by eexists. Qed.

Lemma lift_bind {A B} (r : result error A) (k : A → cmd (Z * error) Transfer B) x :
  (lift r ≫= k) x = match r with Ok a => k a x | Err e => (x, Err (0, e)) end.
Proof. by destruct r. Qed.

Lemma Segment_Size_range s : sStart s ≤ sEnd s → Segment_Size s = sEnd s - sStart s + 1.
Proof. intros H. unfold Segment_Size. case_ifs; lia. Qed.

(** What a range download may leave behind. *)
Definition ranged E (fetched : result error (option Response)) key segment fileSize options x
    (out : Transfer * result (Z * error) Z) : Prop :=
  let (x', r) := out in
  same_file x x' ∧ touches (sStart segment) (sEnd segment + 1) (contents x) (contents x') ∧
  match r with
  | Ok n => n = sEnd segment - sStart segment + 1 ∧ 0 ≤ sStart segment ∧ 0 < n ∧
      ∃ resp plain, fetched = Ok (Some resp) ∧ StatusCode resp = 206 ∧
        validateContentRange (ContentRange resp) segment fileSize = Ok () ∧
        DecryptAt E (concat (Body resp)) key (sStart segment) = Ok plain ∧
        Z.of_nat (length plain) = n ∧
        contents x' = write_at (contents x) (sStart segment) plain ∧
        metered x' = metered x + (if Meter options then n else 0)
  | Err (n, _) => 0 ≤ n ≤ Z.max 0 (sEnd segment - sStart segment + 1)
  end.

Lemma ranged_early E fetched key segment fileSize options x e :
  ranged E fetched key segment fileSize options x (x, Err (0, e)).
Proof. split_and!; [by split_and!|apply touches_refl|lia..]. Qed.

Lemma DownloadRange_ranged E fetched key segment fileSize options x :
  sized x →
  ranged E fetched key segment fileSize options x
    (DownloadRangeWithOptions E fetched key segment fileSize options x).
Proof.
  intros Hs. unfold DownloadRangeWithOptions.
  destruct (_ || _) eqn:Hrange; [apply ranged_early|]. bool_to_prop.
  rewrite lift_bind. destruct fetched as [[resp|]|e] eqn:Hf; [|apply ranged_early..].
  destruct (Z.eqb_spec (StatusCode resp) StatusPartialContent) as [Hst|]; [|apply ranged_early].
  cbn [negb]. rewrite lift_bind.
  destruct (validateContentRange _ _ _) as [[]|e] eqn:Hv; [|apply ranged_early].
  destruct (_ && _); [apply ranged_early|]. rewrite lift_bind.
  destruct (NewCTR E key (sStart segment)) as [stream|e] eqn:Hctr; [|apply ranged_early].
  rewrite modify_bind, get_bind. set (x0 := x <| body := _ |> <| body_end := _ |>).
  rewrite Segment_Size_range by done. set (want := sEnd segment - sStart segment + 1).
  pose proof (copy_loop_spec E options segment want ltac:(lia) (copy_fuel x0) 0 stream x0 Hs
    ltac:(lia) ltac:(unfold copy_fuel; lia)) as Hc.
  destruct (copy_loop _ _ _ _ _ _ _ x0) as [x1 [n|[n e]]] eqn:Hcl;
    destruct Hc as (Hsf&He&Ht&Hr); rewrite Z.add_0_r in Ht;
    (assert (touches (sStart segment) (sEnd segment + 1) (contents x) (contents x1)) as Ht'
      by (eapply touches_mono; [..|exact Ht]; lia)).
  2:{ erewrite cmd_bind_err by done. split_and!; [exact Hsf|exact Ht'|lia..]. }
  erewrite cmd_bind_ok by done. rewrite get_bind.
  destruct Hr as (->&used&Hcat&Hlen&Hcont&Hm). rewrite Z.add_0_r in Hcont.
  destruct (body x1) as [|c l]; [|split_and!; [exact Hsf|exact Ht'|lia..]].
  destruct (_ && _); [split_and!; [exact Hsf|exact Ht'|lia..]|].
  split_and!; [exact Hsf|exact Ht'|done|lia|lia|].
  simpl in Hcat. rewrite app_nil_r in Hcat. rewrite Z.sub_0_r in *.
  exists resp, (XORKeyStream E stream used).1. split_and!; try done.
  - unfold DecryptAt. rewrite Hctr, Hcat. done.
  - by rewrite length_XORKeyStream.
  - destruct Hcont as [[-> _]|[_ Hcont]]; [simpl in Hlen; lia|exact Hcont].
Qed.

(** A well-formed answer to the request for a segment. *)
Definition good_response (segment : Segment) (fileSize : Z) (resp : Response) : Prop :=
  StatusCode resp = 206 ∧ validateContentRange (ContentRange resp) segment fileSize = Ok () ∧
  (ContentLength resp = -1 ∨ ContentLength resp = sEnd segment - sStart segment + 1) ∧
  Forall (.≠ []) (Body resp) ∧ BodyEnd resp = EOF ∧
  Z.of_nat (length (concat (Body resp))) = sEnd segment - sStart segment + 1.

Lemma DownloadRange_succeeds E resp key segment fileSize options x :
  untroubled x → fileSize = pf_size x →
  0 ≤ sStart segment ≤ sEnd segment → sEnd segment < fileSize →
  good_response segment fileSize resp →
  is_ok (DownloadRangeWithOptions E (Ok (Some resp)) key segment fileSize options x).2.
Proof.
  intros Hx Hsize Hseg Hend (Hst&Hv&Hcl&Hch&Heof&Htot). unfold DownloadRangeWithOptions.
  rewrite (proj2 (Z.ltb_ge (sStart segment) 0)), (proj2 (Z.ltb_ge (sEnd segment) _)),
    (proj2 (Z.leb_gt fileSize _)) by lia. cbn [orb].
  rewrite lift_bind, Hst. cbn [negb Z.eqb StatusPartialContent Pos.eqb].
  rewrite lift_bind, Hv, Segment_Size_range by lia.
  replace ((0 <=? ContentLength resp) && _) with false.
  2:{ symmetry. destruct Hcl as [->| ->]; [done|]. by rewrite Z.eqb_refl, andb_false_r. }
  destruct (NewCTR_nonneg E key (sStart segment)) as [stream Hctr]; [lia|].
  rewrite lift_bind, Hctr, modify_bind, get_bind.
  set (x0 := x <| body := _ |> <| body_end := _ |>).
  destruct (copy_loop_ok E options segment (sEnd segment - sStart segment + 1)
    (copy_fuel x0) 0 stream x0) as (x1&Hrun&Hb); try done; try lia.
  { destruct Hx as (Hs&_). unfold sized in Hs. change (contents x0) with (contents x). lia. }
  { change (body x0) with (Body resp). lia. }
  { unfold copy_fuel. lia. }
  pose proof (copy_loop_spec E options segment (sEnd segment - sStart segment + 1) ltac:(lia)
    (copy_fuel x0) 0 stream x0 (proj1 Hx) ltac:(lia) ltac:(unfold copy_fuel; lia)) as Hc.
  rewrite Hrun in Hc. destruct Hc as (_&He&_).
  rewrite (cmd_bind_ok _ _ _ _ _ Hrun), get_bind, Hb, He.
  change (body_end x0) with (BodyEnd resp). by rewrite Heof.
Qed.

(** ** Properties *)

(** C9: downloading one range.  Whatever the server answers, however the
    body is cut into reads and whatever writes or waits fail, only the
    segment's bytes of the partial file may change and its length does not.
    A download that succeeds had a 206 response for exactly this range whose
    body was exactly as long as the segment, reports the segment's size, and
    leaves in the file exactly the AES-CTR decryption of that body at the
    segment's offset.  With such a response and no failure it does
    succeed. *)
Theorem DownloadRange_exact E fetched key segment fileSize options x :
  sized x →
  let out := DownloadRangeWithOptions E fetched key segment fileSize options x in
  ranged E fetched key segment fileSize options x out ∧
  ∀ resp, fetched = Ok (Some resp) → good_response segment fileSize resp →
    untroubled x → fileSize = pf_size x →
    0 ≤ sStart segment ≤ sEnd segment → sEnd segment < fileSize → is_ok out.2.
Proof.
  intros Hs. cbv zeta. split; [by apply DownloadRange_ranged|].
  intros resp -> Hg Hx Hz H1 H2. by apply DownloadRange_succeeds.
Qed.

Definition sample_transfer : Transfer := mkTransfer (replicate 8 0) 8 true [] [] [] EOF 0.
Definition sample_response : Response :=
  mkResponse 206 "206 Partial Content" "" "bytes 2-5/8" 4 [[10; 20]; [30; 40]] EOF.

Lemma DownloadRange_exact_witness :
  ∃ plain, DecryptAt xor_bytes [10; 20; 30; 40] sample_key 2 = Ok plain ∧
    let (x', r) := DownloadRangeWithOptions xor_bytes (Ok (Some sample_response)) sample_key
      (mkSegment 1 2 5) 8 (mkOptions false false true) sample_transfer in
    r = Ok 4 ∧ contents x' = write_at (replicate 8 0) 2 plain ∧ metered x' = 4.
Proof.
  destruct (DownloadRange_exact xor_bytes (Ok (Some sample_response)) sample_key
    (mkSegment 1 2 5) 8 (mkOptions false false true) sample_transfer eq_refl) as [Hr Hok].
  specialize (Hok sample_response eq_refl).
  destruct (DownloadRangeWithOptions _ _ _ _ _ _ _) as [x' r].
  destruct r as [n|[n e]].
  - destruct Hr as (_&_&->&_&_&resp&plain&Heq&_&_&Hd&_&Hc&Hm).
    simplify_eq. exists plain. split; [exact Hd|]. split; [reflexivity|]. split; [exact Hc|exact Hm].
  - exfalso. apply Hok; [|split; [|split; [|split]]; reflexivity|reflexivity|simpl; lia|simpl; lia].
    split; [reflexivity|]. split; [vm_compute; reflexivity|]. split; [right; reflexivity|].
    split; [repeat constructor; discriminate|]. split; reflexivity.
Defined.
