(* ===== verification/IdleBody.v ===== *)
(** * Idle timeouts of payload responses (internal/download/worker.go)

    The response body that gives up when no byte has come for a while, with
    its timer as the time at which it fires. *)

From Stdlib Require Import ZArith Lia.
From stdpp Require Import base list gmap strings numbers pretty.
From S2P Require Import Prelude GoErrors.

(** [ib_timer] is when the timer fires, [None] while it was not made, is
    stopped or has fired; [ib_closes] counts the calls of [source.Close]. *)
Record readIdleBody := mkIdle {
  ib_timeout : Z;
  ib_now : Z;
  ib_timer : option Z;
  ib_timedOut : bool;
  ib_closed : bool;
  ib_closes : nat }.

#[export] Instance readIdleBody_eta : Eta readIdleBody := λ b,
  mkIdle (ib_timeout b) (ib_now b) (ib_timer b) (ib_timedOut b) (ib_closed b) (ib_closes b).

Definition newReadIdleBody (timeout now : Z) : readIdleBody := mkIdle timeout now None false false 0.

(** [closeOnce.Do]. *)
Definition close_once (b : readIdleBody) : readIdleBody :=
  if ib_closed b then b else b <| ib_closed := true |> <| ib_closes := S (ib_closes b) |>.

Definition expire (b : readIdleBody) : readIdleBody := close_once (b <| ib_timedOut := true |>).

Definition resetTimer (b : readIdleBody) : readIdleBody := b <| ib_timer := Some (ib_now b + ib_timeout b) |>.

(** Time goes by. *)
Definition pass (d : Z) (b : readIdleBody) : readIdleBody :=
  let b := b <| ib_now := ib_now b + d |> in
  match ib_timer b with
  | Some due => if due <=? ib_now b then expire (b <| ib_timer := None |>) else b
  | None => b
  end.

(** The source answers after [d] with [n] bytes and an error. *)
Definition idle_Read (d : Z) (n : Z) (err : option error) (b : readIdleBody) : readIdleBody * (Z * option error) :=
  let b := pass d (resetTimer b) in
  let b := if 0 <? n then resetTimer b else b in
  (b, (n, if ib_timedOut b then Some (New "payload read idle timeout") else err)).

Definition idle_Close (b : readIdleBody) : readIdleBody := close_once (b <| ib_timer := None |>).

(** What happens to a body: its user is busy elsewhere, reads, or closes. *)
Inductive use := Busy (d : Z) | Reading (d n : Z) (err : option error) | Closing.
Definition use_body (b : readIdleBody) (u : use) : readIdleBody :=
  match u with
  | Busy d => pass d b
  | Reading d n err => (idle_Read d n err b).1
  | Closing => idle_Close b
  end.

(** One turn of the worker's loop: the wait for the limiters, then a read that
    brings something. *)
Record turn := mkTurn { tn_wait : Z; tn_read : Z; tn_bytes : Z }.
Definition turn_ok (t : turn) : Prop := 0 ≤ tn_wait t ∧ 0 ≤ tn_read t ∧ 0 < tn_bytes t.
Definition take_turn (b : readIdleBody) (t : turn) : readIdleBody :=
  use_body (use_body b (Busy (tn_wait t))) (Reading (tn_read t) (tn_bytes t) None).

(** ** Lemmas *)

(** The source is closed as often as [ib_closed] says, and when it timed out. *)
Definition closed_once (b : readIdleBody) : Prop :=
  ib_closes b = (if ib_closed b then 1%nat else 0%nat) ∧ (ib_timedOut b = true → ib_closed b = true).

Lemma close_once_ok b : ib_closes b = (if ib_closed b then 1%nat else 0%nat) → closed_once (close_once b) ∧ ib_closed (close_once b) = true.
Proof. unfold closed_once, close_once. destruct b as [? ? ? ? [] ?]; cbn; intros ->; by split_and!. Qed.

Lemma closed_once_eq b b' :
  closed_once b → ib_closes b' = ib_closes b → ib_closed b' = ib_closed b → ib_timedOut b' = ib_timedOut b → closed_once b'.
Proof. unfold closed_once. by intros ? -> -> ->. Qed.

Lemma pass_closed d b : closed_once b → closed_once (pass d b).
Proof.
  intros Hb. unfold pass. cbn. destruct (ib_timer b); [|by eapply closed_once_eq].
  case_match; [|by eapply closed_once_eq]. apply close_once_ok. apply Hb.
Qed.

Lemma use_closed b u : closed_once b → closed_once (use_body b u).
Proof.
  intros Hb. destruct u as [d|d n err|]; cbn [use_body]; [by apply pass_closed| |].
  - unfold idle_Read. cbn [fst]. assert (closed_once (pass d (resetTimer b))) as H by (apply pass_closed; by eapply closed_once_eq).
    destruct (0 <? n); [by eapply closed_once_eq|done].
  - apply close_once_ok, Hb.
Qed.

Lemma uses_closed us b : closed_once b → closed_once (foldl use_body b us).
Proof. revert b. induction us as [|u us IH]; intros b Hb; [done|]. by apply IH, use_closed. Qed.

Lemma pass_timedOut d b : ib_timedOut (pass d b) = ib_timedOut b || match ib_timer b with Some due => due <=? ib_now b + d | None => false end.
Proof.
  unfold pass. cbn. destruct (ib_timer b) as [due|]; [|by rewrite orb_false_r]. case_match; [|by rewrite orb_false_r].
  rewrite orb_true_r. unfold expire, close_once. by case_match.
Qed.

Lemma pass_now d b : ib_now (pass d b) = ib_now b + d ∧ ib_timeout (pass d b) = ib_timeout b.
Proof. unfold pass, expire, close_once. cbn. repeat case_match; by split. Qed.

(** A turn times out when its wait or its read is too long; the wait before the
    first read does not count. *)
Lemma turn_timedOut b t :
  turn_ok t → (ib_timer b = None ∨ ib_timer b = Some (ib_now b + ib_timeout b)) →
  let b' := take_turn b t in
  ib_timeout b' = ib_timeout b ∧ ib_timer b' = Some (ib_now b' + ib_timeout b')
  ∧ ib_timedOut b' = ib_timedOut b || (bool_decide (is_Some (ib_timer b)) && (ib_timeout b <=? tn_wait t)) || (ib_timeout b <=? tn_read t).
Proof.
  intros (Hw & Hr & Hn) Ht. cbv zeta. unfold take_turn. cbn [use_body]. unfold idle_Read. cbn [fst].
  rewrite (proj2 (Z.ltb_lt _ _) Hn). destruct (pass_now (tn_wait t) b) as [E1 E2].
  destruct (pass_now (tn_read t) (resetTimer (pass (tn_wait t) b))) as [E3 E4].
  unfold resetTimer in *. cbn [ib_timeout ib_timer ib_timedOut ib_now update_field] in *.
  split; [congruence|]. split; [done|]. rewrite pass_timedOut. cbn. rewrite pass_timedOut, E1, E2.
  f_equal; [f_equal|].
  - destruct Ht as [->| ->]; [done|]. rewrite bool_decide_eq_true_2 by (by eexists). cbn. apply Bool.eq_iff_eq_true. rewrite !Z.leb_le. lia.
  - apply Bool.eq_iff_eq_true. rewrite !Z.leb_le. lia.
Qed.

Lemma turns_timedOut ts b :
  Forall turn_ok ts → ib_timer b = Some (ib_now b + ib_timeout b) →
  ib_timedOut (foldl take_turn b ts) = false ↔
    ib_timedOut b = false ∧ Forall (λ t, tn_wait t < ib_timeout b ∧ tn_read t < ib_timeout b) ts.
Proof.
  revert b. induction ts as [|t ts IH]; intros b Hts Hb; cbn [foldl]; [rewrite Forall_nil; tauto|].
  apply Forall_cons in Hts as [Ht Hts]. destruct (turn_timedOut b t Ht (or_intror Hb)) as (E1 & E2 & E3).
  rewrite IH by done. rewrite E1, E3, Forall_cons, (bool_decide_eq_true_2 (is_Some (ib_timer b))) by (rewrite Hb; by eexists).
  rewrite !orb_false_iff. cbn [andb]. rewrite !Z.leb_gt. tauto.
Qed.

Lemma Close_closes b : closed_once b → ib_closes (idle_Close b) = 1%nat.
Proof.
  intros [Hc _]. unfold idle_Close, close_once. destruct b as [? ? ? ? [] ?]; cbn in *; [done|by rewrite Hc].
Qed.

Lemma Read_late d n err b : ib_timedOut b = true → (idle_Read d n err b).2 = (n, Some (New "payload read idle timeout")).
Proof.
  intros Ht. unfold idle_Read. cbn [snd]. f_equal.
  assert (ib_timedOut (pass d (resetTimer b)) = true) as Hp by (rewrite pass_timedOut; unfold resetTimer; cbn; by rewrite Ht).
  destruct (0 <? n).
  - change (ib_timedOut (resetTimer (pass d (resetTimer b)))) with (ib_timedOut (pass d (resetTimer b))). by rewrite Hp.
  - by rewrite Hp.
Qed.

(** ** Theorems *)

(** A payload times out exactly when a read, or the wait for the limiters
    before any read but the first, lasts as long as the timeout; every result
    then says so and the source is closed; and however the body is used its
    source is closed at most once, and exactly once when it is closed or timed
    out. *)
Theorem idle_timeout_exact timeout now first rest (us : list use) :
  turn_ok first → Forall turn_ok rest →
  let b := foldl take_turn (newReadIdleBody timeout now) (first :: rest) in
  let any := foldl use_body (newReadIdleBody timeout now) us in
  (ib_timedOut b = false ↔ tn_read first < timeout ∧ Forall (λ t, tn_wait t < timeout ∧ tn_read t < timeout) rest)
  ∧ (ib_timedOut b = true → ib_closed b = true ∧ ∀ d n err, (idle_Read d n err b).2 = (n, Some (New "payload read idle timeout")))
  ∧ (ib_closes any ≤ 1)%nat ∧ ib_closes (idle_Close any) = 1%nat ∧ (ib_timedOut any = true → ib_closes any = 1%nat).
Proof.
  intros Hf Hrest. cbv zeta. set (new := newReadIdleBody timeout now).
  assert (closed_once new) as Hnew by done. split; [|split].
  - cbn [foldl]. destruct (turn_timedOut new first Hf (or_introl eq_refl)) as (E1 & E2 & E3).
    rewrite turns_timedOut by done. rewrite E1, E3. cbn. rewrite Z.leb_gt. tauto.
  - intros Ht. assert (closed_once (foldl take_turn new (first :: rest))) as [_ Hc].
    { clear Ht. revert Hnew. generalize new, (first :: rest). intros b0 l. revert b0.
      induction l as [|t l IH]; intros b0 Hb0; cbn [foldl]; [done|]. by apply IH, use_closed, use_closed. }
    split; [by apply Hc|]. intros d n err. by apply Read_late.
  - pose proof (uses_closed us new Hnew) as [Hc Ht]. set (any := foldl use_body new us) in *. split_and!.
    + rewrite Hc. case_match; lia.
    + by apply Close_closes.
    + intros H. by rewrite Hc, Ht.
Qed.

Lemma idle_timeout_exact_witness :
  ib_timedOut (foldl take_turn (newReadIdleBody (90 * Second) 0) [mkTurn (100 * Second) Second 4096; mkTurn (80 * Second) Second 4096]) = false.
Proof.
  apply (idle_timeout_exact (90 * Second) 0 (mkTurn (100 * Second) Second 4096) [mkTurn (80 * Second) Second 4096] []).
  - by split_and!.
  - repeat constructor; done.
  - split; [done|]. repeat constructor; done.
Defined.

(** Waiting for a limiter counts as idleness: at 5000 bytes a second a buffer of
    512 KiB takes 104 seconds, and the second read of a payload that answers at
    once times out under the default of 90 seconds. *)
Example slow_limit_times_out :
  let wait := 524288 * Second `div` 5000 in
  ib_timedOut (foldl take_turn (newReadIdleBody (90 * Second) 0)
    [mkTurn wait Millisecond 524288; mkTurn wait Millisecond 524288]) = true.
Proof. vm_compute. reflexivity. Qed.
