(* ===== verification/SegmentRetry.v ===== *)
(** * Retrying one segment (internal/download/manager.go,
    downloadSegmentWithRetry)

    The loop that fetches a segment until it succeeds, is out of retries, is
    told of an exhausted quota or is interrupted, refreshing an expired
    payload URL once and the account session with it. *)

From Stdlib Require Import ZArith Lia.
From stdpp Require Import base list gmap strings numbers pretty.
From S2P Require Import Prelude GoStrings GoErrors Planner Retry Crypto Worker.

(** ** The loop *)

(** A pause: the round it follows, the error it was taken for, and how long it
    is. *)
Record Pause := mkPause { ps_retry : Z; ps_cause : error; ps_delay : Z }.

(** What the loop has done so far: the partial file, the calls made, the
    pauses taken (newest first) and the error of each failed fetch (newest
    first). *)
Record Attempts := mkAttempts {
  at_file : Transfer;
  at_fetches : nat;
  at_refreshes : nat;
  at_auths : nat;
  at_invalidations : nat;
  at_sleeps : list Pause;
  at_failures : list error }.

#[export] Instance Attempts_eta : Eta Attempts := λ r,
  mkAttempts (at_file r) (at_fetches r) (at_refreshes r) (at_auths r)
    (at_invalidations r) (at_sleeps r) (at_failures r).

Section retry.
Context (E : list Z → list Z → list Z).
(** The [n]-th request for the segment at a payload URL, the [n]-th call of
    [refreshPayloadURL], of [workerForJob], and the context's error if it is
    cancelled during the [n]-th pause. *)
Context (fetch : string → nat → result error (option Response)).
Context (refresh : nat → result error string).
Context (auth : nat → result error ()).
Context (interrupted : nat → option error).
Context (key : FileKey) (segment : Segment) (fileSize : Z) (options : TransferOptions).
Context (hasAccount : bool) (normalRetryLimit : Z) (now : Z).
(** [http.ParseTime] and [rand.Int63n]. *)
Context (ParseTime : string → option Z) (Int63n : Z → Z).

Definition workerForJob (s : Attempts) : Attempts * result error () :=
  (s <| at_auths := S (at_auths s) |>, auth (at_auths s)).

Definition refreshPayloadURL (s : Attempts) : Attempts * result error string :=
  (s <| at_refreshes := S (at_refreshes s) |>, refresh (at_refreshes s)).

Definition InvalidateAccountSession (s : Attempts) : Attempts :=
  s <| at_invalidations := S (at_invalidations s) |>.

Definition fetch_segment (payloadURL : string) (s : Attempts)
    : Attempts * result (Z * error) Z :=
  let (x, r) := DownloadRangeWithOptions E (fetch payloadURL (at_fetches s)) key segment
                  fileSize options (at_file s) in
  (s <| at_file := x |> <| at_fetches := S (at_fetches s) |>
     <| at_failures := match r with Ok _ => at_failures s | Err (_, e) => e :: at_failures s end |>, r).

(** The refresh of an expired URL, with the account's session rebuilt once
    when it expired as well. *)
Definition refresh_url (s : Attempts) : Attempts * result error string :=
  let (s, r) := refreshPayloadURL s in
  match r with
  | Ok url => (s, Ok url)
  | Err e =>
    if errors_is e ErrSessionRejected && hasAccount then
      let (s, a) := workerForJob (InvalidateAccountSession s) in
      match a with
      | Ok _ => refreshPayloadURL s
      | Err authErr => (s, Err authErr)
      end
    else (s, Err e)
  end.

Definition statusRetryAfter (err : error) : string :=
  match as_http_status err with Some (_, retryAfter) => retryAfter | None => "" end.

(** The end of a round: give up or pause. *)
Definition give_up_or_wait (retry : Z) (err : error) (s : Attempts) : Attempts * option error :=
  let class := ClassifyRetry (Some err) in
  if negb (bool_decide (class ∈ [RetryTransport; RetryRateLimit; RetryServer]))
     || (normalRetryLimit <=? retry)
  then (s, Some err)
  else
    let delay := ExponentialBackoff ParseTime Int63n (retry + 1) (statusRetryAfter err) now in
    (s <| at_sleeps := mkPause retry err delay :: at_sleeps s |>, interrupted (length (at_sleeps s))).

Fixpoint retry_loop (fuel : nat) (retry : Z) (refreshes : nat) (payloadURL : string)
    (s : Attempts) : Attempts * option (result (Z * error) Z) :=
  match fuel with
  | O => (s, None)
  | S fuel =>
    let (s, r) := fetch_segment payloadURL s in
    match r with
    | Ok written => (s, Some (Ok written))
    | Err (written, err) =>
      let class := ClassifyRetry (Some err) in
      if bool_decide (class = RetryQuota) then
        let retryAfter := match as_http_status err with
                          | Some (_, ra) => default 0 (ParseRetryAfter ParseTime ra now)
                          | None => 0
                          end in
        (s, Some (Err (written, QuotaError (Some err) retryAfter)))
      else
        let refreshing := bool_decide (class = RetryRefreshURL) && (refreshes <? 1)%nat in
        let refreshes := if refreshing then S refreshes else refreshes in
        let (s, u) := if refreshing then refresh_url s else (s, Err err) in
        match u with
        | Ok newURL => retry_loop fuel (retry + 1) refreshes newURL s
        | Err e =>
          let err := if refreshing then Wrapf "refresh MEGA payload URL" e else err in
          match give_up_or_wait retry err s with
          | (s, Some e) => (s, Some (Err (written, e)))
          | (s, None) => retry_loop fuel (retry + 1) refreshes payloadURL s
          end
        end
    end
  end.

(** The rounds the loop can make. *)
Definition retry_fuel : nat := (Z.to_nat normalRetryLimit + 2)%nat.

Definition downloadSegmentWithRetry (payloadURL : string) (s : Attempts)
    : Attempts * option (result (Z * error) Z) :=
  let (s, w) := workerForJob s in
  match w with
  | Err e => (s, Some (Err (0, e)))
  | Ok _ => retry_loop retry_fuel 0 0 payloadURL s
  end.
End retry.

(** ** What a run of the loop amounts to *)

Section spec.
Context (E : list Z → list Z → list Z).
Context (fetch : string → nat → result error (option Response)).
Context (refresh : nat → result error string).
Context (auth : nat → result error ()).
Context (interrupted : nat → option error).
Context (key : FileKey) (segment : Segment) (fileSize : Z) (options : TransferOptions).
Context (hasAccount : bool) (normalRetryLimit : Z) (now : Z).
Context (ParseTime : string → option Z) (Int63n : Z → Z).
Context (Hlimit : 0 ≤ normalRetryLimit).

Abbreviation loop := (retry_loop E fetch refresh auth interrupted key segment fileSize options
  hasAccount normalRetryLimit now ParseTime Int63n).

(** The classes of errors that are worth another round. *)
Definition retryable (e : error) : Prop := ClassifyRetry (Some e) ∈ [RetryTransport; RetryRateLimit; RetryServer].
Definition expired (e : error) : Prop := ClassifyRetry (Some e) = RetryRefreshURL.
#[local] Instance expired_dec e : Decision (expired e).
Proof. unfold expired. apply _. Defined.

(** A pause is taken after a retryable error, within the limit, for as long as
    the backoff says. *)
Definition backed_off (p : Pause) : Prop :=
  retryable (ps_cause p) ∧ 0 ≤ ps_retry p < normalRetryLimit
  ∧ ps_delay p = ExponentialBackoff ParseTime Int63n (ps_retry p + 1) (statusRetryAfter (ps_cause p)) now.

(** The failures that were followed by another round: at most [k] of them
    because the URL had expired. *)
Definition repeated (k : nat) (es : list error) : Prop :=
  Forall (λ e, retryable e ∨ expired e) es ∧ (length (filter expired es) ≤ k)%nat.

(** The rounds left when [retry] rounds were made, [refreshes] of them
    having refreshed the URL. *)
Definition rounds (retry : Z) (refreshes : nat) : nat :=
  match refreshes with
  | O => (Z.to_nat (normalRetryLimit - retry) + 2)%nat
  | _ => (Z.to_nat (normalRetryLimit - retry) + 1)%nat
  end.

(** The segment was downloaded by some request. *)
Definition downloaded (s : Attempts) (n : Z) (s' : Attempts) : Prop :=
  n = sEnd segment - sStart segment + 1 ∧
  ∃ url k resp plain c, fetch url k = Ok (Some resp) ∧ StatusCode resp = 206 ∧
    DecryptAt E (concat (Body resp)) key (sStart segment) = Ok plain ∧
    Z.of_nat (length plain) = n ∧
    touches (sStart segment) (sEnd segment + 1) (contents (at_file s)) c ∧
    contents (at_file s') = write_at c (sStart segment) plain.

(** What the rounds between two states called and paused for: [n] requests, at
    most [k] expired URLs, each with at most two refreshes and one rebuild of
    the session, and at most [w] pauses. *)
Record calls (n k w : nat) (s s' : Attempts) : Prop := {
  ca_file : same_file (at_file s) (at_file s');
  ca_bytes : touches (sStart segment) (sEnd segment + 1) (contents (at_file s)) (contents (at_file s'));
  ca_fetches : (at_fetches s ≤ at_fetches s' ≤ at_fetches s + n)%nat;
  ca_refreshes : (at_refreshes s' ≤ at_refreshes s + 2 * k)%nat;
  ca_auths : (at_auths s' ≤ at_auths s + k)%nat;
  ca_invalidations : (at_invalidations s' ≤ at_invalidations s + k)%nat;
  ca_pauses : ∃ ps, at_sleeps s' = ps ++ at_sleeps s ∧ Forall backed_off ps ∧ (length ps ≤ w)%nat }.

(** Why a run gives up on an error: it is not worth another round, [left]
    rounds were already repeated, or the context ended during a pause. *)
Definition gave_up (left : Z) (s s' : Attempts) (e : error) : Prop :=
  ¬ retryable e ∨ left < Z.of_nat (at_fetches s' - at_fetches s) ∨ ∃ i, interrupted i = Some e.

(** How a run ended, given the failures it met. *)
Definition ended (left : Z) (k : nat) (s s' : Attempts) (new : list error) (r : result (Z * error) Z) : Prop :=
  match r with
  | Ok written => repeated k new ∧ downloaded s written s'
  | Err (_, e) =>
      ∃ e0 rest, new = e0 :: rest ∧ repeated k rest ∧
        (ClassifyRetry (Some e0) = RetryQuota ∧ (∃ ra, e = QuotaError (Some e0) ra)
         ∨ ClassifyRetry (Some e0) ≠ RetryQuota ∧ gave_up left s s' e)
  end.

Definition attempted (n k w : nat) (left : Z) (s : Attempts) (out : Attempts * option (result (Z * error) Z)) : Prop :=
  calls n k w s out.1 ∧
  ∃ new r, out.2 = Some r ∧ at_failures out.1 = new ++ at_failures s ∧ ended left k s out.1 new r.

(** A round that failed and is followed by another: the URL had expired ([k] is
    one) or the error is retryable. *)
Definition failed_round (k w : nat) (s s1 : Attempts) : Prop :=
  calls 1 k w s s1 ∧ at_fetches s1 = S (at_fetches s) ∧
  ∃ e, at_failures s1 = e :: at_failures s ∧ repeated k [e].

Lemma downloaded_trans s s1 n s' :
  touches (sStart segment) (sEnd segment + 1) (contents (at_file s)) (contents (at_file s1)) →
  downloaded s1 n s' → downloaded s n s'.
Proof.
  intros Ht (->&url&k&resp&plain&c&H1&H2&H3&H4&H5&H6). split; [done|].
  exists url, k, resp, plain, c. split_and!; try done. by eapply touches_trans.
Qed.

Lemma calls_trans n1 k1 w1 n2 k2 w2 s s1 s2 :
  calls n1 k1 w1 s s1 → calls n2 k2 w2 s1 s2 → calls (n1 + n2) (k1 + k2) (w1 + w2) s s2.
Proof.
  intros [(?&?&?) ? ? ? ? ? (ps1&P1&P2&P3)] [(?&?&?) ? ? ? ? ? (ps2&P4&P5&P6)].
  split; [split_and!; congruence|by eapply touches_trans|lia..|].
  exists (ps2 ++ ps1). split_and!; [by rewrite P4, P1, <-(assoc_L (++))|by apply Forall_app|rewrite length_app; lia].
Qed.

Lemma calls_mono n k w n' k' w' s s' :
  (n ≤ n')%nat → (k ≤ k')%nat → (w ≤ w')%nat → calls n k w s s' → calls n' k' w' s s'.
Proof. intros Hn Hk Hw [? ? ? ? ? ? (ps&?&?&?)]. split; try done; [lia..|]. exists ps. split_and!; [done|done|lia]. Qed.

Lemma repeated_app k1 k2 l1 l2 : repeated k1 l1 → repeated k2 l2 → repeated (k2 + k1) (l1 ++ l2).
Proof.
  intros [F1 L1] [F2 L2]. split; [by apply Forall_app|]. rewrite filter_app, length_app. lia.
Qed.

Lemma repeated_mono k k' l : (k ≤ k')%nat → repeated k l → repeated k' l.
Proof. intros ? [? ?]. split; [done|lia]. Qed.

Lemma attempted_round k1 w1 s s1 n k w left out :
  failed_round k1 w1 s s1 → attempted n k w (left - 1) s1 out → attempted (S n) (k1 + k) (w1 + w) left s out.
Proof.
  intros (Hc&Hf&e&Hfl&He) (Hc'&new&r&Hr&Hn&Hres). split; [exact (calls_trans 1 k1 w1 n k w _ _ _ Hc Hc')|].
  exists (new ++ [e]), r. split_and!; [done|by rewrite Hn, Hfl, <-(assoc_L (++))|].
  destruct r as [n'|[n' e']]; cbn [ended] in *.
  - destruct Hres as [Hall Hd]. split; [by apply repeated_app|]. eapply downloaded_trans; [apply Hc|done].
  - destruct Hres as (e0&rest&->&Hrep&Hend). exists e0, (rest ++ [e]). split_and!; [done|by apply repeated_app|].
    destruct Hend as [?|[? Hg]]; [by left|right]. split; [done|].
    destruct Hg as [?|[?|?]]; [by left| |by right; right]. right; left. pose proof (ca_fetches _ _ _ _ _ Hc'). lia.
Qed.

Lemma attempted_mono n k w left n' k' w' s out :
  (n ≤ n')%nat → (k ≤ k')%nat → (w ≤ w')%nat → attempted n k w left s out → attempted n' k' w' left s out.
Proof.
  intros Hn Hk Hw (Hc&new&r&Hr&Hf&Hres). split; [by eapply calls_mono|]. exists new, r. split_and!; [done|done|].
  destruct r as [|[? e]]; cbn [ended] in *.
  - destruct Hres. split; [by eapply repeated_mono|done].
  - destruct Hres as (e0&rest&?&?&?). exists e0, rest. split_and!; [done|by eapply repeated_mono|done].
Qed.

Lemma calls_refl s n k w : calls n k w s s.
Proof. split; first [done|apply touches_refl|lia|exists []; split_and!; [done|constructor|simpl; lia]]. Qed.

(** One request. *)
Lemma fetch_segment_spec url s :
  sized (at_file s) →
  let (s1, r) := fetch_segment E fetch key segment fileSize options url s in
  calls 1 0 0 s s1 ∧ sized (at_file s1) ∧ at_fetches s1 = S (at_fetches s) ∧
  match r with
  | Ok n => at_failures s1 = at_failures s ∧ downloaded s n s1
  | Err (_, e) => at_failures s1 = e :: at_failures s
  end.
Proof.
  intros Hs. unfold fetch_segment.
  pose proof (DownloadRange_ranged E (fetch url (at_fetches s)) key segment fileSize options
    (at_file s) Hs) as Hr.
  destruct (DownloadRangeWithOptions _ _ _ _ _ _ (at_file s)) as [x r].
  assert (same_file (at_file s) x ∧ touches (sStart segment) (sEnd segment + 1) (contents (at_file s)) (contents x)) as [(Hz&Ho&Hl) Ht]
    by (destruct r as [?|[? ?]]; by destruct Hr as (?&?&?)).
  split; [|split; [|split; [done|]]].
  - split; simpl; [by split_and!|exact Ht|lia..|]. exists []. split_and!; [done|constructor|simpl; lia].
  - unfold sized in *. simpl. congruence.
  - destruct r as [n|[n e]]; [|done]. destruct Hr as (_&_&->&_&_&resp&plain&Hf&Hst&_&Hd&Hlen&Hc&_). split; [done|]. split; [done|].
    exists url, (at_fetches s), resp, plain, (contents (at_file s)). by split_and!.
Qed.

Lemma refresh_url_spec s :
  let (s1, _) := refresh_url refresh auth hasAccount s in
  calls 0 1 0 s s1 ∧ at_file s1 = at_file s ∧ at_fetches s1 = at_fetches s ∧ at_failures s1 = at_failures s.
Proof.
  assert (∀ s1, at_file s1 = at_file s → at_fetches s1 = at_fetches s → at_sleeps s1 = at_sleeps s →
    (at_refreshes s1 ≤ at_refreshes s + 2)%nat → (at_auths s1 ≤ at_auths s + 1)%nat →
    (at_invalidations s1 ≤ at_invalidations s + 1)%nat → calls 0 1 0 s s1) as H.
  { intros s1 E1 E2 E3 ? ? ?. split; rewrite ?E1, ?E2, ?E3;
      first [done|apply touches_refl|lia|exists []; split_and!; [done|constructor|simpl; lia]]. }
  unfold refresh_url, refreshPayloadURL, workerForJob, InvalidateAccountSession.
  repeat (case_match; simplify_eq/=); (split_and!; [apply H; simpl; first [done|lia]|done..]).
Qed.

Lemma give_up_or_wait_spec retry err s s1 o :
  0 ≤ retry → give_up_or_wait interrupted normalRetryLimit now ParseTime Int63n retry err s = (s1, o) →
  at_file s1 = at_file s ∧ at_fetches s1 = at_fetches s ∧ at_failures s1 = at_failures s ∧
  (s1 = s ∧ o = Some err ∧ (¬ retryable err ∨ normalRetryLimit ≤ retry)
   ∨ retryable err ∧ retry < normalRetryLimit ∧ calls 0 0 1 s s1 ∧ ∀ e, o = Some e → ∃ i, interrupted i = Some e).
Proof.
  intros Hr. unfold give_up_or_wait. destruct (bool_decide_reflect (ClassifyRetry (Some err) ∈ [RetryTransport; RetryRateLimit; RetryServer])) as [Hc|Hc];
    cbn [negb orb].
  2:{ intros [= <- <-]. split_and!; try done. left. split_and!; [done|done|by left]. }
  destruct (Z.leb_spec normalRetryLimit retry) as [Hl|Hl]; intros [= <- <-]; (split_and!; [done..|]).
  { left. split_and!; [done|done|by right]. }
  right. split_and!; [done|done| |by eexists]. split; simpl; first [done|apply touches_refl|lia|eexists [_]].
  split_and!; [done|by apply Forall_singleton|simpl; lia].
Qed.

Lemma failed_round_then k w k' w' s s1 s2 e :
  calls 1 k w s s1 → at_fetches s1 = S (at_fetches s) → at_failures s1 = e :: at_failures s →
  calls 0 k' w' s1 s2 → at_fetches s2 = at_fetches s1 → at_failures s2 = at_failures s1 →
  repeated (k + k') [e] → failed_round (k + k') (w + w') s s2.
Proof.
  intros Hc Hf Hl Hc' Hf' Hl' He. split; [by apply (calls_trans 1 k w 0 k' w' s s1 s2)|]. split; [congruence|].
  exists e. split; [congruence|done].
Qed.

(** A round that ends the run with an error. *)
Lemma attempted_stop n k w left s s1 m e0 e :
  calls n k w s s1 → at_failures s1 = e0 :: at_failures s →
  (ClassifyRetry (Some e0) = RetryQuota ∧ (∃ ra, e = QuotaError (Some e0) ra)
   ∨ ClassifyRetry (Some e0) ≠ RetryQuota ∧ gave_up left s s1 e) →
  attempted n k w left s (s1, Some (Err (m, e))).
Proof.
  intros Hc Hf He. split; [done|]. exists [e0], (Err (m, e)). split_and!; [done|done|]. exists e0, [].
  split_and!; [done| |done]. split; [constructor|simpl; lia].
Qed.

Lemma retry_loop_attempted fuel retry refreshes url s :
  sized (at_file s) → 0 ≤ retry → (refreshes = O → retry ≤ normalRetryLimit) →
  (rounds retry refreshes ≤ fuel)%nat →
  attempted (rounds retry refreshes) (if decide (refreshes = O) then 1 else 0)
    (Z.to_nat (normalRetryLimit - retry)) (normalRetryLimit - retry) s (loop fuel retry refreshes url s).
Proof using Hlimit.
  revert retry refreshes url s. induction fuel as [|fuel IH]; intros retry refreshes url s Hs Hr Hrl Hf.
  { destruct refreshes; simpl in Hf; lia. }
  assert (1 ≤ rounds retry refreshes)%nat as Hone by (destruct refreshes; simpl; lia).
  cbn [retry_loop]. pose proof (fetch_segment_spec url s Hs) as Hfetch.
  destruct (fetch_segment _ _ _ _ _ _ url s) as [s1 [n|[n e]]]; destruct Hfetch as (Hc1&Hs1&Hf1&Hfail).
  { eapply (attempted_mono 1 0 0); [lia..|]. destruct Hfail as [Hfail Hd]. split; [done|].
    exists [], (Ok n). split_and!; [done|done|]. split; [|done]. split; [constructor|simpl; lia]. }
  case_bool_decide as Hclass.
  { eapply (attempted_mono 1 0 0); [lia..|]. apply (attempted_stop 1 0 0 _ s s1 n e); [done|done|]. left. split; [done|by eexists]. }
  destruct (bool_decide (ClassifyRetry (Some e) = RetryRefreshURL) && (refreshes <? 1)%nat) eqn:Href.
  - apply andb_true_iff in Href as [Hexp%bool_decide_eq_true Hz%Nat.ltb_lt]. assert (refreshes = O) as -> by lia.
    assert (repeated 1 [e]) as He by (split; [apply Forall_singleton; by right|rewrite filter_cons; case_decide; simpl; lia]).
    pose proof (refresh_url_spec s1) as Hrs.
    destruct (refresh_url refresh auth hasAccount s1) as [s2 u]. destruct Hrs as (Hc2&E1&E2&E4).
    destruct u as [newURL|re].
    + assert (failed_round 1 0 s s2) as Hround by by apply (failed_round_then 0 0 1 0 _ s1 _ e).
      eapply (attempted_mono _ (1 + 0) (0 + _)); [..|eapply attempted_round; [exact Hround|]].
      4:{ replace (normalRetryLimit - retry - 1) with (normalRetryLimit - (retry + 1)) by lia.
          apply (IH (retry + 1) 1%nat newURL s2); [by rewrite E1|lia|done|]. simpl in *. lia. }
      * simpl. lia.
      * done.
      * lia.
    + destruct (give_up_or_wait _ _ _ _ _ _ _ s2) as [s3 o] eqn:Hg.
      apply give_up_or_wait_spec in Hg as (G1&G2&G4&G5); [|done].
      destruct o as [e'|].
      * assert (calls 1 1 (Z.to_nat (normalRetryLimit - retry)) s s3 ∧ gave_up (normalRetryLimit - retry) s s3 e') as [Hc3 Hg].
        { destruct G5 as [(->&[= ->]&Hg)|(_&Hlt&Hc3&Hi)]; (split; [eapply calls_mono; [..|
            first [eapply (calls_trans _ _ _ _ _ _ s s1 s2); [exact Hc1|exact Hc2]
                  |eapply (calls_trans _ _ _ _ _ _ s s2 s3); [eapply (calls_trans _ _ _ _ _ _ s s1 s2); [exact Hc1|exact Hc2]|exact Hc3]]]; lia|]).
          - destruct Hg as [?|?]; [by left|right; left; lia].
          - right; right. by apply Hi. }
        eapply (attempted_mono 1 1 _); [lia|done|done|]. apply (attempted_stop _ _ _ _ _ _ _ e); [exact Hc3|congruence|by right].
      * destruct G5 as [(_&[=]&_)|(_&Hlt&Hc3&_)].
        assert (calls 0 1 1 s1 s3) as Hc13 by by apply (calls_trans 0 1 0 0 0 1 s1 s2 s3).
        assert (failed_round 1 1 s s3) as Hround by (apply (failed_round_then 0 0 1 1 _ s1 _ e); [done|done|done|done|congruence|congruence|done]).
        eapply (attempted_mono _ (1 + 0) (1 + _)); [..|eapply attempted_round; [exact Hround|]].
        4:{ replace (normalRetryLimit - retry - 1) with (normalRetryLimit - (retry + 1)) by lia.
            apply (IH (retry + 1) 1%nat url s3); [by rewrite G1, E1|lia|done|]. simpl in *. lia. }
        -- simpl. lia.
        -- done.
        -- lia.
  - destruct (give_up_or_wait _ _ _ _ _ _ _ s1) as [s3 o] eqn:Hg.
    apply give_up_or_wait_spec in Hg as (G1&G2&G4&G5); [|done].
    destruct o as [e'|].
    + assert (calls 1 0 (Z.to_nat (normalRetryLimit - retry)) s s3 ∧ gave_up (normalRetryLimit - retry) s s3 e') as [Hc3 Hg].
      { destruct G5 as [(->&[= ->]&Hg)|(_&Hlt&Hc3&Hi)].
        - split; [by eapply calls_mono; [..|exact Hc1]; lia|]. destruct Hg as [?|?]; [by left|right; left; lia].
        - split; [eapply calls_mono; [..|by apply (calls_trans _ _ _ _ _ _ s s1 s3 Hc1 Hc3)]; lia|]. right; right. by apply Hi. }
      eapply (attempted_mono 1 0 _); [lia|lia|done|]. apply (attempted_stop _ _ _ _ _ _ _ e); [exact Hc3|congruence|by right].
    + destruct G5 as [(_&[=]&_)|(Hre&Hlt&Hc3&_)].
      assert (repeated 0 [e]) as He.
      { split; [apply Forall_singleton; by left|]. rewrite filter_cons. destruct (decide (expired e)) as [Hexp|]; [exfalso|rewrite filter_nil; simpl; lia].
        unfold retryable, expired in *. rewrite Hexp in Hre. by repeat (apply elem_of_cons in Hre as [?|Hre]; [done|]); apply elem_of_nil in Hre. }
      assert (failed_round 0 1 s s3) as Hround by (apply (failed_round_then 0 0 0 1 _ s1 _ e); try done; congruence).
      eapply (attempted_mono _ (0 + _) (1 + _)); [..|eapply attempted_round; [exact Hround|]].
      4:{ replace (normalRetryLimit - retry - 1) with (normalRetryLimit - (retry + 1)) by lia.
          apply (IH (retry + 1) refreshes url s3); [by rewrite G1|lia|lia|]. destruct refreshes; simpl in *; lia. }
      * destruct refreshes; simpl; lia.
      * done.
      * lia.
Qed.
End spec.

(** ** Property *)

Definition sample_attempts : Attempts := mkAttempts sample_transfer 0 0 0 0 [] [].
(** A stale URL, then an overloaded server, then the segment. *)
Definition sample_fetch (url : string) (n : nat) : result error (option Response) :=
  match n with
  | O => Ok (Some (mkResponse 403 "403 Forbidden" "" "" 0 [] EOF))
  | 1%nat => Ok (Some (mkResponse 503 "503 Service Unavailable" "2" "" 0 [] EOF))
  | _ => Ok (Some sample_response)
  end.

(** C37: fetching one segment with retries, for every sequence of answers,
    refresh outcomes and interruptions.  The loop always returns, after at most
    [limit + 2] requests, [limit] pauses, two URL refreshes, two look-ups of the
    worker and one dropped session.  Every pause follows an error of the
    transport, rate-limit or server class and lasts what the backoff says for
    its round; every failed request that was followed by another one was of these
    classes or, once, an expired URL.  Only the segment's bytes of the partial
    file change.  If it succeeds, some request was answered with 206 and the
    file holds the decryption of that answer at the segment's offset.  Otherwise
    an answer that means an exhausted quota ended it and is reported as a
    [QuotaError] caused by it, or it ended with an error that is not worth a
    retry, after more than [limit] requests, or with the context's error - or no
    worker could be had at all. *)
Theorem downloadSegmentWithRetry_bounded E fetch refresh auth interrupted key segment fileSize
    options hasAccount limit now ParseTime Int63n payloadURL s :
  0 ≤ limit → sized (at_file s) →
  let '(s', o) := downloadSegmentWithRetry E fetch refresh auth interrupted key segment fileSize
    options hasAccount limit now ParseTime Int63n payloadURL s in
  ∃ new r, o = Some r ∧ at_failures s' = new ++ at_failures s ∧
    (at_fetches s' ≤ at_fetches s + Z.to_nat limit + 2)%nat ∧
    (at_refreshes s' ≤ at_refreshes s + 2)%nat ∧
    (at_auths s' ≤ at_auths s + 2)%nat ∧ (at_invalidations s' ≤ at_invalidations s + 1)%nat ∧
    (∃ pauses, at_sleeps s' = pauses ++ at_sleeps s ∧ (length pauses ≤ Z.to_nat limit)%nat ∧
       Forall (backed_off limit now ParseTime Int63n) pauses) ∧
    same_file (at_file s) (at_file s') ∧
    touches (sStart segment) (sEnd segment + 1) (contents (at_file s)) (contents (at_file s')) ∧
    match r with
    | Ok written => repeated 1 new ∧ downloaded E fetch key segment s written s'
    | Err (_, e) =>
        new = [] ∧ auth (at_auths s) = Err e ∨
        ∃ e0 rest, new = e0 :: rest ∧ repeated 1 rest ∧
          (ClassifyRetry (Some e0) = RetryQuota ∧ (∃ ra, e = QuotaError (Some e0) ra)
           ∨ ClassifyRetry (Some e0) ≠ RetryQuota ∧ gave_up interrupted limit s s' e)
    end.
Proof.
  intros Hlimit Hs. unfold downloadSegmentWithRetry, workerForJob.
  destruct (auth (at_auths s)) as [[]|e] eqn:Ha.
  2:{ exists [], (Err (0, e)). simpl. do 6 (split; [first [done|lia]|]).
      split; [exists []; split_and!; [done|simpl; lia|constructor]|]. split; [done|]. split; [apply touches_refl|by left]. }
  set (s0 := s <| at_auths := _ |>).
  pose proof (retry_loop_attempted E fetch refresh auth interrupted key segment fileSize options
    hasAccount limit now ParseTime Int63n Hlimit (retry_fuel limit) 0 0 payloadURL s0 Hs
    ltac:(lia) ltac:(done) ltac:(unfold rounds, retry_fuel; rewrite Z.sub_0_r; lia)) as Hr.
  destruct (retry_loop _ _ _ _ _ _ _ _ _ _ _ _ _ _ _ _ _ _ s0) as [s' o].
  unfold rounds in Hr. rewrite Z.sub_0_r in Hr.
  destruct Hr as ([? ? ? ? ? ? (ps&?&?&?)]&new&r&Ho&Hn&Hres). exists new, r. simpl in *.
  do 6 (split; [first [done|lia]|]). split; [by exists ps|]. do 2 (split; [done|]).
  destruct r as [|[? ?]]; [done|]. by right.
Qed.

Lemma downloadSegmentWithRetry_bounded_witness :
  let '(s', o) := downloadSegmentWithRetry xor_bytes sample_fetch (λ _, Ok "https://new") (λ _, Ok ())
    (λ _, None) sample_key (mkSegment 1 2 5) 8 (mkOptions false false true) false 3 0
    (λ _, None) (λ _, 0) "https://old" sample_attempts in
  o = Some (Ok 4) ∧ at_fetches s' = 3%nat ∧ length (contents (at_file s')) = 8%nat.
Proof.
  pose proof (downloadSegmentWithRetry_bounded xor_bytes sample_fetch (λ _, Ok "https://new")
    (λ _, Ok ()) (λ _, None) sample_key (mkSegment 1 2 5) 8 (mkOptions false false true) false 3 0
    (λ _, None) (λ _, 0) "https://old" sample_attempts ltac:(lia) eq_refl) as H.
  assert (let '(s', o) := downloadSegmentWithRetry xor_bytes sample_fetch (λ _, Ok "https://new")
    (λ _, Ok ()) (λ _, None) sample_key (mkSegment 1 2 5) 8 (mkOptions false false true) false 3 0
    (λ _, None) (λ _, 0) "https://old" sample_attempts in
    o = Some (Ok 4) ∧ at_fetches s' = 3%nat) as Hc by (vm_compute; split; reflexivity).
  destruct (downloadSegmentWithRetry _ _ _ _ _ _ _ _ _ _ _ _ _ _ _ _) as [s' o].
  destruct H as (new&r&_&_&_&_&_&_&_&(_&_&Hl)&_). destruct Hc as [Ho Hf].
  split; [exact Ho|]. split; [exact Hf|]. exact Hl.
Defined.
