(* ===== verification/FileTransfer.v ===== *)
(** * One file's transfer (internal/download/manager.go,
    processFileWithTransfer up to verification; checkpoint.go)

    Several workers claim segments from a shared counter, download them into
    the partial file and report on a channel; one collector marks the
    completed segments and checkpoints them: it copies the bitmap, syncs the
    file and only then writes the bitmap to the database.  The goroutines
    are interleaved step by step, every call may fail, the process may be
    killed and the machine may crash, losing whatever was not synced. *)

From Stdlib Require Import ZArith Lia.
From stdpp Require Import base list gmap strings numbers pretty.
From S2P Require Import Prelude GoStrings GoErrors JobState Planner Retry Crypto Worker Store StoreDownloads.

(** ** Preparation *)

(** The checks made before anything is opened: the plan, the persisted
    bitmap and the bytes it stands for. *)
Definition prepare_transfer (file : FileRow) : result error (SegmentPlanner * Bitmap * Z) :=
  planner ← NewSegmentPlanner (fSizeBytes file) (fSegmentSize file);
  if negb (pCount planner =? fSegmentCount file)
  then Err (New ("file " +:+ quote (fID file) +:+ " segment count "
         +:+ FormatInt (fSegmentCount file) +:+ " does not match planned count "
         +:+ FormatInt (pCount planner)))
  else
    bitmap ← bitmapForFile (fBitmap file) (pCount planner);
    let committed := committedBytes planner bitmap in
    if (committed <? 0) || (fSizeBytes file <? committed)
    then Err (New ("file " +:+ quote (fID file) +:+ " committed bytes are invalid"))
    else Ok (planner, bitmap, committed).

(** ** The state of a running transfer *)

Record segmentResult := mkResult {
  res_segment : Segment;
  res_written : Z;
  res_err : option error }.

(** A worker goroutine: about to add to the shared counter, holding a
    segment, or returned. *)
Inductive worker := Claiming | Holding (index : Z) | Exited.

#[export] Instance worker_eq_dec : EqDecision worker.
Proof. solve_decision. Defined.

(** Which call of [checkpoint] is running. *)
Inductive after := InLoop | AfterError | AtEnd.

(** Where the collector is: in its select, syncing the file, writing the
    bitmap, or done with the transfer. *)
Inductive phase :=
| Selecting
| Syncing (k : after) (snapshot : Bitmap) (bytes : Z)
| Persisting (k : after) (snapshot : Bitmap) (bytes : Z)
| Returned (r : result error ()).

Record Run := mkRun {
  next : Z;
  claimBitmap : Bitmap;
  workers : list worker;
  results : list segmentResult;
  bitmap : Bitmap;
  committed : Z;
  bytesSinceCheckpoint : Z;
  dirty : bool;
  transferErr : option error;
  stopped : bool;
  at_phase : phase }.

#[export] Instance Run_eta : Eta Run := λ r,
  mkRun (next r) (claimBitmap r) (workers r) (results r) (bitmap r) (committed r)
    (bytesSinceCheckpoint r) (dirty r) (transferErr r) (stopped r) (at_phase r).

(** [ShouldCheckpoint] of checkpoint.go. *)
Definition ShouldCheckpoint (bytes interval now last bytesSince : Z) : bool :=
  (bytes <=? bytesSince) || (interval <=? time_Sub now last).

Definition worker_count (pendingSegments workersPerFile : Z) : Z :=
  let n := if pendingSegments <? workersPerFile then pendingSegments else workersPerFile in
  if (n <? 1) && (0 <? pendingSegments) then 1 else n.

(** The state the goroutines start from.  A partial file that did not exist
    cannot hold what the bitmap promises. *)
Definition start_run (p : SegmentPlanner) (bm : Bitmap) (bytes : Z) (existed : bool)
    (workersPerFile : Z) : Run :=
  let missing := negb existed && (0 <? Bitmap_Count bm) in
  let bm := if missing then NewBitmapUnchecked (pCount p) else bm in
  let bytes := if missing then 0 else bytes in
  let n := worker_count (pCount p - Bitmap_Count bm) workersPerFile in
  mkRun 0 (Clone bm) (replicate (Z.to_nat n) Claiming) [] bm bytes 0 false None false Selecting.

Section transfer.
Context (p : SegmentPlanner) (checkpointBytes : Z).

(** ** The worker goroutines *)

(** One [atomic.AddInt64] and what the worker does with the index it got:
    try again when the segment is complete, return at the end of the plan or
    after a cancellation, report a planning error, or hold the segment. *)
Definition claim (cancelled : bool) (r : Run) : Run * worker :=
  let index := next r in
  let r := r <| next := next r + 1 |> in
  if (index <? pCount p) && IsSet (claimBitmap r) index then (r, Claiming)
  else if (pCount p <=? index) || stopped r || cancelled then (r, Exited)
  else match planner_Segment p index with
       | Ok _ => (r, Holding index)
       | Err e => (r <| results := results r ++ [mkResult (mkSegment 0 0 0) 0 (Some e)] |>
                     <| stopped := true |>, Exited)
       end.

(** The worker sends its result; a failed download stops the others, a
    failed wait for a slot only this one. *)
Definition send (result : segmentResult) (stops : bool) (r : Run) : Run :=
  r <| results := results r ++ [result] |>
    <| stopped := stopped r || (stops && bool_decide (is_Some (res_err result))) |>.

(** ** The collector *)

Definition fail_with (e : error) (r : Run) : Run :=
  r <| transferErr := Some e |> <| stopped := true |>.

(** [checkpoint()] begins: the bitmap and the byte count are copied. *)
Definition checkpoint (k : after) (r : Run) : Run :=
  r <| at_phase := Syncing k (Clone (bitmap r)) (committed r) |>.

(** A result is received. *)
Definition collect (result : segmentResult) (r : Run) : Run :=
  match res_err result with
  | Some e => match transferErr r with None => fail_with e r | Some _ => r end
  | None =>
    match transferErr r with
    | Some _ => r
    | None =>
      let size := Segment_Size (res_segment result) in
      if negb (res_written result =? size) then
        fail_with (New ("segment " +:+ FormatInt (sIndex (res_segment result)) +:+ " wrote "
          +:+ FormatInt (res_written result) +:+ " bytes, want " +:+ FormatInt size)) r
      else match Bitmap_Set (bitmap r) (sIndex (res_segment result)) with
           | Err e => fail_with e r
           | Ok bm =>
             let r := r <| bitmap := bm |> <| committed := committed r + size |>
                        <| bytesSinceCheckpoint := bytesSinceCheckpoint r + size |>
                        <| dirty := true |> in
             if checkpointBytes <=? bytesSinceCheckpoint r then checkpoint InLoop r else r
           end
    end
  end.

(** The ticker fires. *)
Definition tick (r : Run) : Run :=
  if dirty r && bool_decide (transferErr r = None) then checkpoint InLoop r else r.

(** The results channel is closed: every worker has returned and every
    result was received. *)
Definition loop_end (r : Run) : Run :=
  match transferErr r with
  | Some e => if dirty r then checkpoint AfterError r
              else r <| at_phase := Returned (Err e) |>
  | None => if dirty r || (pCount p =? 0) then checkpoint AtEnd r
            else r <| at_phase := Returned (Ok ()) |>
  end.

(** [checkpoint()] returns an error; [cancelled] is [ctx.Err() != nil]. *)
Definition checkpoint_failed (k : after) (e : error) (cancelled : bool) (r : Run) : Run :=
  match k with
  | InLoop => fail_with e r <| at_phase := Selecting |>
  | AfterError =>
    r <| at_phase := Returned (Err (if cancelled then default e (transferErr r) else e)) |>
  | AtEnd => r <| at_phase := Returned (Err e) |>
  end.

(** [checkpoint()] succeeds. *)
Definition checkpoint_done (k : after) (r : Run) : Run :=
  let r := r <| dirty := false |> <| bytesSinceCheckpoint := 0 |> in
  match k with
  | InLoop => r <| at_phase := Selecting |>
  | AfterError =>
    r <| at_phase := Returned (match transferErr r with Some e => Err e | None => Ok () end) |>
  | AtEnd => r <| at_phase := Returned (Ok ()) |>
  end.

(** The row [CheckpointManager.Commit] writes after the sync: an empty state
    means downloading, a zero time means now. *)
Definition commit_row (fileID : string) (snapshot : Bitmap) (bytes : Z) (state : string)
    (updatedAt now : Z) : DownloadFileCheckpoint :=
  mkCheckpointRow fileID snapshot bytes (if bool_decide (state = "") then "downloading" else state)
    "" "" (if updatedAt =? 0 then now else updatedAt).

(** ** The machine *)

(** [disk] is what reads of the partial file return, [durable] what a crash
    of the machine leaves.  [done] is history: the contents a segment had
    when its download was last reported as finished. *)
Record Machine := mkMachine {
  disk : list Z;
  durable : list Z;
  db : DB;
  done : gmap Z (list Z);
  run : option Run;
  ctx_err : option error }.

#[global] Instance Machine_eta : Eta Machine := λ m,
  mkMachine (disk m) (durable m) (db m) (done m) (run m) (ctx_err m).

Context (fileID : string).

(** The bytes of a segment. *)
Definition segment_bytes (c : list Z) (index : Z) : list Z :=
  let s := segment_at p index in
  take (Z.to_nat (Segment_Size s)) (drop (Z.to_nat (sStart s)) c).

Definition set_worker (w : nat) (k : worker) (r : Run) : Run :=
  r <| workers := <[w := k]> (workers r) |>.

Definition stored_bitmap (m : Machine) : option Bitmap :=
  fBitmap <$> files (tables (db m)) !! fileID.

(** The steps of the machine while a transfer runs. *)
Inductive step : Machine → Machine → Prop :=
| step_claim m r w r' k :
    run m = Some r → workers r !! w = Some Claiming →
    claim (bool_decide (is_Some (ctx_err m))) r = (r', k) →
    step m (m <| run := Some (set_worker w k r') |>)
| step_write m r w index disk' :
    run m = Some r → workers r !! w = Some (Holding index) →
    touches (sStart (segment_at p index)) (sEnd (segment_at p index) + 1) (disk m) disk' →
    step m (m <| disk := disk' |>)
| step_finish m r w index written :
    run m = Some r → workers r !! w = Some (Holding index) →
    step m (m <| done := <[index := segment_bytes (disk m) index]> (done m) |>
              <| run := Some (set_worker w Claiming
                   (send (mkResult (segment_at p index) written None) false r)) |>)
| step_fail m r w index written e stops :
    run m = Some r → workers r !! w = Some (Holding index) →
    step m (m <| run := Some (set_worker w Exited
                   (send (mkResult (segment_at p index) written (Some e)) stops r)) |>)
| step_collect m r result rest :
    run m = Some r → at_phase r = Selecting → results r = result :: rest →
    step m (m <| run := Some (collect result (r <| results := rest |>)) |>)
| step_tick m r :
    run m = Some r → at_phase r = Selecting →
    step m (m <| run := Some (tick r) |>)
| step_loop_end m r :
    run m = Some r → at_phase r = Selecting → results r = [] →
    Forall (λ k, k = Exited) (workers r) →
    step m (m <| run := Some (loop_end r) |>)
| step_sync m r k snapshot bytes :
    run m = Some r → at_phase r = Syncing k snapshot bytes →
    step m (m <| durable := disk m |>
              <| run := Some (r <| at_phase := Persisting k snapshot bytes |>) |>)
| step_sync_fails m r k snapshot bytes e :
    run m = Some r → at_phase r = Syncing k snapshot bytes →
    step m (m <| run := Some (checkpoint_failed k (Wrapf "sync partial file" e)
                   (bool_decide (is_Some (ctx_err m))) r) |>)
| step_persist m r k snapshot bytes updatedAt now d' result :
    run m = Some r → at_phase r = Persisting k snapshot bytes →
    CheckpointDownloadFiles [commit_row fileID snapshot bytes "downloading" updatedAt now] (db m)
      = (d', result) →
    step m (m <| db := d' |> <| run := Some
       (match result with
        | Ok _ => checkpoint_done k r
        | Err e => checkpoint_failed k e (bool_decide (is_Some (ctx_err m))) r
        end) |>)
| step_cancel m e : step m (m <| ctx_err := Some e |>)
(** The system writes some dirty data back on its own. *)
| step_writeback m durable' :
    length durable' = length (durable m) →
    (∀ i : nat, durable' !! i = durable m !! i ∨ durable' !! i = disk m !! i) →
    step m (m <| durable := durable' |>)
(** Other parts of the program write the database, but no other writes this
    file's bitmap. *)
| step_other m d' :
    fBitmap <$> files (tables d') !! fileID = stored_bitmap m →
    step m (m <| db := d' |>)
(** The process is killed or the machine crashes; a later run starts from
    the database and the partial file, which nobody has removed. *)
| step_kill m : step m (m <| run := None |>)
| step_crash m : step m (m <| run := None |> <| disk := durable m |>)
| step_start m row bm bytes workersPerFile :
    run m = None → files (tables (db m)) !! fileID = Some row →
    bitmap_bytes_ok (fBitmap row) → prepare_transfer row = Ok (p, bm, bytes) →
    step m (m <| run := Some (start_run p bm bytes true workersPerFile) |> <| ctx_err := None |>).

(** A file about to be transferred for the first time. *)
Definition initial (m : Machine) : Prop :=
  run m = None ∧ length (disk m) = Z.to_nat (pSize p) ∧ length (durable m) = length (disk m) ∧
  ∀ bm, stored_bitmap m = Some bm → ∀ i, IsSet bm i = false.

End transfer.

(** ** What a checkpoint stores *)

Lemma checkpoint_stored fileID snapshot bytes state updatedAt now d d' result :
  CheckpointDownloadFiles [commit_row fileID snapshot bytes state updatedAt now] d = (d', result) →
  fBitmap <$> files (tables d') !! fileID =
    match result with Ok _ => Some snapshot | Err _ => fBitmap <$> files (tables d) !! fileID end.
Proof.
  intros Hck. destruct result as [[]|e].
  - apply CheckpointDownloadFiles_ok in Hck as (Hex&Hf&_). rewrite Hf.
    apply Forall_cons in Hex as [[f Hrow] _]. simpl in Hrow. unfold row_after.
    rewrite filter_cons, decide_True by done. simpl. by rewrite Hrow.
  - apply CheckpointDownloadFiles_err in Hck. by rewrite Hck.
Qed.

(** ** Segments of a buffer *)

Section segments.
Context (p : SegmentPlanner) (Hp : planner_ok p).

Lemma lookup_segment_bytes c i (k : nat) :
  0 ≤ i < pCount p →
  segment_bytes p c i !! k =
    if decide (Z.of_nat k < Segment_Size (segment_at p i))
    then c !! Z.to_nat (sStart (segment_at p i) + Z.of_nat k) else None.
Proof using Hp.
  intros Hi. pose proof (segment_at_bounds p i Hp Hi) as (?&?&?&?). unfold segment_bytes.
  case_decide as Hk.
  - rewrite lookup_take_lt by lia. rewrite lookup_drop. f_equal. lia.
  - apply lookup_take_ge. lia.
Qed.

(** A write inside one segment changes no other. *)
Lemma touches_segment_bytes c c' i j :
  0 ≤ i < pCount p → 0 ≤ j < pCount p → i ≠ j →
  touches (sStart (segment_at p i)) (sEnd (segment_at p i) + 1) c c' →
  segment_bytes p c' j = segment_bytes p c j.
Proof using Hp.
  intros Hi Hj Hne [_ Ht]. apply list_eq. intros k. rewrite !lookup_segment_bytes by done.
  case_decide as Hk; [|done]. apply Ht. intros Hin.
  pose proof (segment_at_bounds p j Hp Hj) as (?&?&_&?).
  rewrite Segment_Size_range in Hk by lia.
  set (x := sStart (segment_at p j) + Z.of_nat k) in *. rewrite Z2Nat.id in Hin by lia.
  destruct (segment_holding p x Hp ltac:(lia)) as [_ Hx].
  apply Hne. trans (x `div` pSegmentSize p); [apply Hx; lia|]. symmetry. apply Hx; lia.
Qed.

(** Two buffers that agree on a segment agree after each byte is taken from
    either. *)
Lemma mixed_segment_bytes a b c i v :
  0 ≤ i < pCount p → (∀ k : nat, c !! k = a !! k ∨ c !! k = b !! k) →
  segment_bytes p a i = v → segment_bytes p b i = v → segment_bytes p c i = v.
Proof using Hp.
  intros Hi Hmix Ha Hb. apply list_eq. intros k. rewrite <- Ha at 1. revert Ha Hb. intros Ha Hb.
  assert (segment_bytes p a i !! k = segment_bytes p b i !! k) as Hab by congruence.
  rewrite !lookup_segment_bytes in * by done. case_decide; [|done].
  destruct (Hmix (Z.to_nat (sStart (segment_at p i) + Z.of_nat k))) as [->| ->]; congruence.
Qed.
End segments.

(** ** The invariant *)

Definition held (k : worker) : option Z := match k with Holding i => Some i | _ => None end.
Definition finished (result : segmentResult) : option Z :=
  match res_err result with None => Some (sIndex (res_segment result)) | Some _ => None end.

(** The segments in the hands of a worker or waiting on the channel. *)
Definition inflight (ws : list worker) (rs : list segmentResult) : list Z :=
  omap held ws ++ omap finished rs.

Lemma set_worker_split (ws : list worker) w k0 k :
  ws !! w = Some k0 → ∃ l1 l2, ws = l1 ++ k0 :: l2 ∧ <[w:=k]> ws = l1 ++ k :: l2.
Proof.
  intros Hw. exists (take w ws), (drop (S w) ws). split.
  - symmetry. by apply take_drop_middle.
  - apply insert_take_drop. by eapply lookup_lt_Some.
Qed.

Lemma omap_perm {A B} (f : A → option B) l1 l2 x :
  omap f (l1 ++ x :: l2) ≡ₚ match f x with Some y => [y] | None => [] end ++ omap f (l1 ++ l2).
Proof.
  rewrite !omap_app.
  assert (omap f (x :: l2) = match f x with Some y => y :: omap f l2 | None => omap f l2 end) as -> by done.
  destruct (f x); [|done]. simpl. by rewrite <- Permutation_middle.
Qed.

Lemma omap_held_inj ws w w' i :
  NoDup (omap held ws) → ws !! w = Some (Holding i) → ws !! w' = Some (Holding i) → w = w'.
Proof.
  revert w w'. induction ws as [|k ws IH]; intros w w' Hnd Hw Hw'; [done|].
  assert (∀ u, ws !! u = Some (Holding i) → i ∈ omap held ws) as Hin.
  { intros u Hu. apply list_elem_of_omap. exists (Holding i).
    split; [by eapply list_elem_of_lookup_2|done]. }
  assert (NoDup (omap held ws)) as Hnd'.
  { simpl in Hnd. destruct k; simpl in Hnd; [done| |done]. by apply NoDup_cons in Hnd as [_ ?]. }
  destruct w as [|w], w' as [|w']; simplify_eq/=; [done|..].
  - apply NoDup_cons in Hnd as [Hni _]. destruct Hni. by eapply Hin.
  - apply NoDup_cons in Hnd as [Hni _]. destruct Hni. by eapply Hin.
  - f_equal. by apply IH.
Qed.

Section invariant.
Context (p : SegmentPlanner) (Hp : planner_ok p) (checkpointBytes : Z) (fileID : string).

Abbreviation valid i := (0 ≤ i < pCount p).
Abbreviation mstep := (step p checkpointBytes fileID).

(** The segment's bytes are those its download left. *)
Definition settled (m : Machine) (i : Z) : Prop :=
  ∃ c, done m !! i = Some c ∧ segment_bytes p (disk m) i = c.

(** They are so even after a crash. *)
Definition safe (m : Machine) (i : Z) : Prop :=
  ∃ c, done m !! i = Some c ∧ segment_bytes p (disk m) i = c ∧ segment_bytes p (durable m) i = c.

Record run_inv (m : Machine) (r : Run) : Prop := {
  inv_next : 0 ≤ next r;
  inv_nodup : NoDup (inflight (workers r) (results r));
  inv_inflight i : i ∈ inflight (workers r) (results r) →
    valid i ∧ i < next r ∧ IsSet (bitmap r) i = false;
  inv_results : Forall (λ res, res_err res = None →
    valid (sIndex (res_segment res)) ∧ settled m (sIndex (res_segment res))) (results r);
  inv_bitmap i : valid i → IsSet (bitmap r) i = true →
    settled m i ∧ (i < next r ∨ IsSet (claimBitmap r) i = true);
  inv_stored bm i : stored_bitmap fileID m = Some bm → IsSet bm i = true →
    IsSet (bitmap r) i = true;
  inv_phase : match at_phase r with
    | Syncing _ snapshot _ => snapshot = bitmap r
    | Persisting _ snapshot _ => snapshot = bitmap r ∧
        ∀ i, valid i → IsSet snapshot i = true → safe m i
    | _ => True
    end }.

Record machine_inv (m : Machine) : Prop := {
  inv_disk : length (disk m) = Z.to_nat (pSize p);
  inv_durable : length (durable m) = length (disk m);
  inv_persisted bm i : stored_bitmap fileID m = Some bm → valid i → IsSet bm i = true → safe m i;
  inv_run r : run m = Some r → run_inv m r }.

Lemma safe_settled m i : safe m i → settled m i.
Proof. intros (c&?&?&_). by exists c. Qed.

(** What the two predicates depend on. *)
Lemma settled_ext m m' i :
  done m' !! i = done m !! i → segment_bytes p (disk m') i = segment_bytes p (disk m) i →
  settled m i → settled m' i.
Proof. intros H1 H2 (c&?&?). exists c. by rewrite H1, H2. Qed.

Lemma safe_ext m m' i :
  done m' !! i = done m !! i → segment_bytes p (disk m') i = segment_bytes p (disk m) i →
  segment_bytes p (durable m') i = segment_bytes p (durable m) i →
  safe m i → safe m' i.
Proof. intros H1 H2 H3 (c&?&?&?). exists c. by rewrite H1, H2, H3. Qed.

(** *** Steps of the goroutines alone

    They change neither the disks, the history nor the database. *)

Definition quiet (m m' : Machine) : Prop :=
  disk m' = disk m ∧ durable m' = durable m ∧ done m' = done m ∧
  stored_bitmap fileID m' = stored_bitmap fileID m.

Lemma quiet_settled m m' i : quiet m m' → settled m i → settled m' i.
Proof. intros (H1&_&H3&_). apply settled_ext; by rewrite ?H1, ?H3. Qed.

Lemma quiet_safe m m' i : quiet m m' → safe m i → safe m' i.
Proof. intros (H1&H2&H3&_). apply safe_ext; by rewrite ?H1, ?H2, ?H3. Qed.

Lemma machine_inv_quiet m m' :
  machine_inv m → quiet m m' → (∀ r, run m' = Some r → run_inv m r) → machine_inv m'.
Proof.
  intros [H1 H2 H3 H4] Hq Hr. pose proof Hq as (E1&E2&E3&E4). split.
  - by rewrite E1.
  - by rewrite E1, E2.
  - intros bm i Hb Hv Hs. eapply quiet_safe; [exact Hq|]. rewrite E4 in Hb. by eapply H3.
  - intros r Hrun. destruct (Hr r Hrun) as [A B C D F G I]. split; try done.
    + eapply Forall_impl; [exact D|]. simpl. intros res Hres He.
      destruct (Hres He). split; [done|]. by eapply quiet_settled.
    + intros i Hv Hs. destruct (F i Hv Hs). split; [|done]. by eapply quiet_settled.
    + intros bm i. rewrite E4. apply G.
    + destruct (at_phase r); try done. destruct I as [I1 I2]. split; [done|].
      intros i Hv Hs. eapply quiet_safe; [exact Hq|by apply I2].
Qed.

Lemma run_inv_claim m r w r' k cancelled :
  run_inv m r → workers r !! w = Some Claiming → claim p cancelled r = (r', k) →
  run_inv m (set_worker w k r').
Proof using Hp.
  intros [H1 H2 H3 H4 H5 H6 H7] Hw Hc. unfold claim in Hc.
  destruct (set_worker_split (workers r) w Claiming k Hw) as (l1&l2&Hws&Hws').
  assert (∀ rs k', held k' = None → ∀ i, i ∈ inflight (l1 ++ k' :: l2) rs ↔ i ∈ inflight (workers r) rs)
    as Hsame.
  { intros rs k' Hk i. unfold inflight. rewrite Hws, !omap_app. simpl. by rewrite Hk. }
  assert (∀ rs k', held k' = None → inflight (l1 ++ k' :: l2) rs = inflight (workers r) rs) as Hsame'.
  { intros rs k' Hk. unfold inflight. rewrite Hws, !omap_app. simpl. by rewrite Hk. }
  simpl in Hc. destruct ((next r <? pCount p) && IsSet (claimBitmap r) (next r)) eqn:Ha.
  { simplify_eq. split; simpl; rewrite ?Hws', ?Hsame' by done; try done; [lia| |].
    - intros i Hi. destruct (H3 i Hi) as (?&?&?). split_and!; [lia..|done].
    - intros i Hv Hs. destruct (H5 i Hv Hs) as [? [?|?]]; (split; [done|]); [left; lia|by right]. }
  destruct (_ || _ || _) eqn:Hb.
  { simplify_eq. split; simpl; rewrite ?Hws', ?Hsame' by done; try done; [lia| |].
    - intros i Hi. destruct (H3 i Hi) as (?&?&?). split_and!; [lia..|done].
    - intros i Hv Hs. destruct (H5 i Hv Hs) as [? [?|?]]; (split; [done|]); [left; lia|by right]. }
  bool_to_prop. rewrite planner_Segment_total in Hc by (done || lia). simplify_eq.
  assert (inflight (l1 ++ Holding (next r) :: l2) (results r) ≡ₚ
    next r :: inflight (workers r) (results r)) as Hperm.
  { unfold inflight. by rewrite Hws, !omap_perm. }
  rewrite (proj2 (Z.ltb_lt _ _)) in Ha by lia. simpl in Ha.
  assert (IsSet (bitmap r) (next r) = false) as Hnew.
  { apply not_true_is_false. intros Hs. destruct (H5 (next r) ltac:(lia) Hs) as [_ [?|?]]; [lia|congruence]. }
  split; simpl; rewrite ?Hws'; try done; [lia| | |].
  - rewrite Hperm. constructor; [|done]. intros Hin. destruct (H3 _ Hin) as (_&?&_). lia.
  - intros i. rewrite Hperm, elem_of_cons. intros [->|Hi]; [split_and!; [lia..|done]|].
    destruct (H3 i Hi) as (?&?&?). split_and!; [lia..|done].
  - intros i Hv Hs. destruct (H5 i Hv Hs) as [? [?|?]]; (split; [done|]); [left; lia|by right].
Qed.

Lemma run_inv_fail m r w i written e stops :
  run_inv m r → workers r !! w = Some (Holding i) →
  run_inv m (set_worker w Exited (send (mkResult (segment_at p i) written (Some e)) stops r)).
Proof.
  intros [H1 H2 H3 H4 H5 H6 H7] Hw.
  destruct (set_worker_split (workers r) w (Holding i) Exited Hw) as (l1&l2&Hws&Hws').
  set (res := mkResult (segment_at p i) written (Some e)).
  assert (inflight (workers r) (results r) ≡ₚ i :: inflight (l1 ++ Exited :: l2) (results r ++ [res]))
    as Hperm.
  { unfold inflight. rewrite Hws, !omap_perm, omap_app. simpl. by rewrite app_nil_r. }
  split; simpl; rewrite ?Hws'; try done.
  - rewrite Hperm in H2. by apply NoDup_cons in H2 as [_ ?].
  - intros j Hj. apply H3. rewrite Hperm. by right.
  - apply Forall_app. split; [done|]. by repeat constructor.
Qed.

Lemma run_inv_fail_with m e r : run_inv m r → run_inv m (fail_with e r).
Proof. intros [H1 H2 H3 H4 H5 H6 H7]. by split. Qed.

Lemma run_inv_checkpoint m k r : run_inv m r → run_inv m (checkpoint k r).
Proof. intros [H1 H2 H3 H4 H5 H6 H7]. by split. Qed.

Lemma run_inv_collect m r result rest :
  run_inv m r → at_phase r = Selecting → results r = result :: rest →
  run_inv m (collect checkpointBytes result (r <| results := rest |>)).
Proof.
  intros [H1 H2 H3 H4 H5 H6 H7] Hph Hres. rewrite Hres in *.
  apply Forall_cons in H4 as [Hresult H4].
  assert (match finished result with Some i => inflight (workers r) (result :: rest) ≡ₚ
            i :: inflight (workers r) rest
          | None => inflight (workers r) (result :: rest) = inflight (workers r) rest end) as Hperm.
  { unfold inflight. destruct (finished result) eqn:E; simpl; rewrite E; [|done].
    by rewrite Permutation_middle. }
  assert (run_inv m (r <| results := rest |>)) as Hrest.
  { split; simpl; try done.
    - destruct (finished result); rewrite Hperm in H2; [by apply NoDup_cons in H2 as [_ ?]|done].
    - intros i Hi. apply H3. destruct (finished result); rewrite Hperm; [by right|done]. }
  unfold collect. destruct (res_err result) as [e|] eqn:Herr.
  { simpl. destruct (transferErr r); [done|by apply run_inv_fail_with]. }
  simpl. destruct (transferErr r); [done|]. destruct (negb _); [by apply run_inv_fail_with|].
  destruct (Bitmap_Set (bitmap r) (sIndex (res_segment result))) as [bm|e] eqn:Hset;
    [|by apply run_inv_fail_with].
  destruct (Hresult eq_refl) as [Hvi Hsettled]. set (i := sIndex (res_segment result)) in *.
  pose proof (IsSet_Set _ _ _ Hset) as Hbits. unfold finished in Hperm. rewrite Herr in Hperm.
  fold i in Hperm. destruct (H3 i) as (_&Hnext&_); [rewrite Hperm; by left|].
  assert (i ∉ inflight (workers r) rest ∧ NoDup (inflight (workers r) rest)) as [Hni Hnd]
    by (by rewrite Hperm in H2; apply NoDup_cons in H2).
  match goal with |- run_inv m (if _ then checkpoint InLoop ?x else _) => assert (run_inv m x) end.
  { split; simpl; try done.
    - intros j Hj. destruct (H3 j) as (?&?&?); [rewrite Hperm; by right|].
      split_and!; try lia. rewrite Hbits. by destruct (Z.eqb_spec j i) as [->|].
    - intros j Hv Hs. rewrite Hbits in Hs. destruct (Z.eqb_spec j i) as [->|]; [by auto|by apply H5].
    - intros bm' j Hb Hs. rewrite Hbits. by rewrite (H6 bm' j Hb Hs), orb_true_r.
    - by rewrite Hph. }
  destruct (_ <=? _); [by apply run_inv_checkpoint|done].
Qed.

Lemma run_inv_tick m r : run_inv m r → run_inv m (tick r).
Proof. intros Hr. unfold tick. case_match; [by apply run_inv_checkpoint|done]. Qed.

Lemma run_inv_returned m r x : run_inv m r → run_inv m (r <| at_phase := Returned x |>).
Proof. intros [H1 H2 H3 H4 H5 H6 H7]. by split. Qed.

Lemma run_inv_selecting m r : run_inv m r → run_inv m (r <| at_phase := Selecting |>).
Proof. intros [H1 H2 H3 H4 H5 H6 H7]. by split. Qed.

Lemma run_inv_loop_end m r : run_inv m r → run_inv m (loop_end p r).
Proof.
  intros Hr. unfold loop_end. destruct (transferErr r), (dirty r); simpl; try case_match;
    by first [apply run_inv_checkpoint | apply run_inv_returned].
Qed.

Lemma run_inv_failed m k e cancelled r : run_inv m r → run_inv m (checkpoint_failed k e cancelled r).
Proof.
  intros Hr. destruct k; simpl; [|by apply run_inv_returned..].
  by apply run_inv_selecting, run_inv_fail_with.
Qed.

Lemma run_inv_clean m r : run_inv m r → run_inv m (r <| dirty := false |> <| bytesSinceCheckpoint := 0 |>).
Proof. intros [H1 H2 H3 H4 H5 H6 H7]. by split. Qed.

Lemma run_inv_done m k r : run_inv m r → run_inv m (checkpoint_done k r).
Proof.
  intros Hr%run_inv_clean. destruct k; simpl;
    by first [apply run_inv_selecting | apply run_inv_returned].
Qed.

(** *** Steps that change the file, the history or the database *)

Lemma held_elem r w i : workers r !! w = Some (Holding i) → i ∈ inflight (workers r) (results r).
Proof.
  intros Hw. apply elem_of_app. left. apply list_elem_of_omap. exists (Holding i).
  split; [by eapply list_elem_of_lookup_2|done].
Qed.

(** A worker writes inside its segment, which is neither complete nor
    persisted nor in anyone else's hands. *)
Lemma machine_inv_write m r w i disk' :
  machine_inv m → run m = Some r → workers r !! w = Some (Holding i) →
  touches (sStart (segment_at p i)) (sEnd (segment_at p i) + 1) (disk m) disk' →
  machine_inv (m <| disk := disk' |>).
Proof using Hp.
  intros [I1 I2 I3 I4] Hrun Hw Ht. pose proof (I4 r Hrun) as [H1 H2 H3 H4 H5 H6 H7].
  destruct (H3 i (held_elem r w i Hw)) as (Hvi&Hni&Hbi).
  assert (∀ j, valid j → j ≠ i → segment_bytes p disk' j = segment_bytes p (disk m) j) as Hsame.
  { intros j Hj Hne. by apply (touches_segment_bytes p Hp (disk m) disk' i j). }
  assert (∀ j, IsSet (bitmap r) j = true → j ≠ i) as Hne by (intros j Hs ->; congruence).
  set (m' := m <| disk := disk' |>).
  assert (∀ j, valid j → j ≠ i → settled m j → settled m' j) as Hset.
  { intros j Hv Hj. by apply settled_ext; [|apply Hsame]. }
  assert (∀ j, valid j → j ≠ i → safe m j → safe m' j) as Hsafe.
  { intros j Hv Hj. by apply safe_ext; [|apply Hsame|]. }
  destruct Ht as [Hlen _]. split; simpl; [congruence|congruence| |].
  - intros bm j Hb Hv Hs. apply Hsafe; [done|by eapply Hne, H6|by eapply I3].
  - intros r' Hr'. rewrite Hrun in Hr'. simplify_eq. split; try done.
    + rewrite Forall_forall in *. intros res Hres He. destruct (H4 res Hres He) as [Hv Hse].
      split; [done|]. apply Hset; [done| |done]. intros Heq.
      unfold inflight in H2. apply NoDup_app in H2 as (_&Hdisj&_). apply (Hdisj i).
      * apply list_elem_of_omap. exists (Holding i). split; [by eapply list_elem_of_lookup_2|done].
      * apply list_elem_of_omap. exists res. split; [done|]. unfold finished. by rewrite He, Heq.
    + intros j Hv Hs. destruct (H5 j Hv Hs). split; [|done]. apply Hset; auto.
    + destruct (at_phase r'); try done. destruct H7 as [-> Hs]. split; [done|].
      intros j Hv Hj. apply Hsafe; auto.
Qed.

Lemma machine_inv_finish m r w i written :
  machine_inv m → run m = Some r → workers r !! w = Some (Holding i) →
  machine_inv (m <| done := <[i := segment_bytes p (disk m) i]> (done m) |>
                 <| run := Some (set_worker w Claiming
                      (send (mkResult (segment_at p i) written None) false r)) |>).
Proof using Hp.
  intros [I1 I2 I3 I4] Hrun Hw. pose proof (I4 r Hrun) as [H1 H2 H3 H4 H5 H6 H7].
  destruct (H3 i (held_elem r w i Hw)) as (Hvi&Hni&Hbi).
  set (m' := m <| done := _ |> <| run := _ |>).
  assert (∀ j, j ≠ i → settled m j → settled m' j) as Hset.
  { intros j Hne. apply settled_ext; [|done]. simpl. by rewrite lookup_insert_ne. }
  assert (∀ j, j ≠ i → safe m j → safe m' j) as Hsafe.
  { intros j Hne. apply safe_ext; [|done..]. simpl. by rewrite lookup_insert_ne. }
  assert (settled m' i) as Hi.
  { exists (segment_bytes p (disk m) i). simpl. by rewrite lookup_insert_eq. }
  destruct (set_worker_split (workers r) w (Holding i) Claiming Hw) as (l1&l2&Hws&Hws').
  set (res := mkResult (segment_at p i) written None).
  assert (inflight (l1 ++ Claiming :: l2) (results r ++ [res]) ≡ₚ inflight (workers r) (results r))
    as Hperm.
  { unfold inflight. rewrite Hws, !omap_perm. simpl.
    by rewrite app_nil_r, Permutation_middle. }
  split; simpl; try done.
  - intros bm j Hb Hv Hs. apply Hsafe; [|by eapply I3]. intros ->. by rewrite (H6 bm i Hb Hs) in Hbi.
  - intros r' [= <-]. split; simpl; rewrite ?Hws'; try done.
    + change (NoDup (inflight (l1 ++ Claiming :: l2) (results r ++ [res]))). by rewrite Hperm.
    + intros j. change (j ∈ inflight (l1 ++ Claiming :: l2) (results r ++ [res]) →
        valid j ∧ j < next r ∧ IsSet (bitmap r) j = false). rewrite Hperm. apply H3.
    + apply Forall_app. split; [|by apply Forall_singleton]. eapply Forall_impl; [exact H4|].
      simpl. intros res' Hres He. destruct (Hres He) as [? Hse]. split; [done|].
      destruct (decide (sIndex (res_segment res') = i)) as [->|]; [done|by apply Hset].
    + intros j Hv Hs. destruct (H5 j Hv Hs). split; [|done]. apply Hset; [|done].
      intros ->. congruence.
    + destruct (at_phase r); try done. destruct H7 as [-> Hs]. split; [done|].
      intros j Hv Hs'. apply Hsafe; [intros ->; congruence|by apply Hs].
Qed.

(** The sync makes everything downloaded so far durable. *)
Lemma machine_inv_sync m r k snapshot bytes :
  machine_inv m → run m = Some r → at_phase r = Syncing k snapshot bytes →
  machine_inv (m <| durable := disk m |>
                 <| run := Some (r <| at_phase := Persisting k snapshot bytes |>) |>).
Proof.
  intros [I1 I2 I3 I4] Hrun Hph. pose proof (I4 r Hrun) as [H1 H2 H3 H4 H5 H6 H7].
  set (m' := m <| durable := _ |> <| run := _ |>).
  assert (∀ j, settled m j → safe m' j) as Hsafe by (intros j (c&?&?); by exists c).
  rewrite Hph in H7. split; simpl; try done.
  - intros bm j Hb Hv Hs. by eapply Hsafe, safe_settled, I3.
  - intros r' [= <-]. split; simpl; try done. split; [done|]. intros j Hv Hs. subst.
    by apply Hsafe, H5.
Qed.

(** Only then is the bitmap written. *)
Lemma machine_inv_persist m r k snapshot bytes updatedAt now d' result :
  machine_inv m → run m = Some r → at_phase r = Persisting k snapshot bytes →
  CheckpointDownloadFiles [commit_row fileID snapshot bytes "downloading" updatedAt now] (db m)
    = (d', result) →
  machine_inv (m <| db := d' |> <| run := Some
    (match result with
     | Ok _ => checkpoint_done k r
     | Err e => checkpoint_failed k e (bool_decide (is_Some (ctx_err m))) r
     end) |>).
Proof.
  intros Hinv Hrun Hph Hck. pose proof Hinv as [I1 I2 I3 I4].
  pose proof (I4 r Hrun) as Hr. pose proof Hr as [H1 H2 H3 H4 H5 H6 H7].
  rewrite Hph in H7. destruct H7 as [-> Hsafe].
  apply (checkpoint_stored fileID) in Hck. destruct result as [[]|e].
  - set (m1 := m <| db := d' |>).
    assert (stored_bitmap fileID m1 = Some (bitmap r)) as Hst by done.
    assert (run_inv m1 r) as Hr1.
    { split; try done. rewrite Hst. by intros bm i [= <-]. by rewrite Hph. }
    apply (machine_inv_quiet m1); [|by split_and!|intros r' [= <-]; by apply run_inv_done].
    split; try done.
    + intros bm i. rewrite Hst. intros [= <-]. apply Hsafe.
    + intros r'. simpl. rewrite Hrun. by intros [= <-].
  - apply (machine_inv_quiet m); [done|by split_and!|].
    intros r' [= <-]. by apply run_inv_failed.
Qed.

(** *** Crashes and restarts *)

Lemma machine_inv_writeback m durable' :
  machine_inv m → length durable' = length (durable m) →
  (∀ i : nat, durable' !! i = durable m !! i ∨ durable' !! i = disk m !! i) →
  machine_inv (m <| durable := durable' |>).
Proof using Hp.
  intros [I1 I2 I3 I4] Hlen Hmix. set (m' := m <| durable := durable' |>).
  assert (∀ i, valid i → safe m i → safe m' i) as Hsafe.
  { intros i Hv (c&?&?&?). exists c. split_and!; try done. simpl.
    by apply (mixed_segment_bytes p Hp (durable m) (disk m)). }
  split; simpl; [done|congruence| |].
  - intros bm i Hb Hv Hs. apply Hsafe; [done|by eapply I3].
  - intros r Hr. destruct (I4 r Hr) as [A B C D F G I]. split; try done.
    destruct (at_phase r); try done. destruct I as [I H]. split; [done|].
    intros i Hv Hs. apply Hsafe; auto.
Qed.

Lemma machine_inv_kill m : machine_inv m → machine_inv (m <| run := None |>).
Proof. intros [I1 I2 I3 I4]. by split. Qed.

Lemma machine_inv_crash m :
  machine_inv m → machine_inv (m <| run := None |> <| disk := durable m |>).
Proof.
  intros [I1 I2 I3 I4]. split; simpl; [congruence|done| |done].
  intros bm i Hb Hv Hs. destruct (I3 bm i Hb Hv Hs) as (c&?&?&?). by exists c.
Qed.

(** What a run reads back from the row. *)
Lemma prepare_transfer_ok row q bm bytes :
  prepare_transfer row = Ok (q, bm, bytes) →
  NewSegmentPlanner (fSizeBytes row) (fSegmentSize row) = Ok q ∧
  bitmapForFile (fBitmap row) (pCount q) = Ok bm ∧ bytes = committedBytes q bm ∧
  pCount q = fSegmentCount row.
Proof.
  unfold prepare_transfer. destruct (NewSegmentPlanner _ _) as [q'|]; simpl; [|done].
  destruct (Z.eqb_spec (pCount q') (fSegmentCount row)); simpl; [|done].
  destruct (bitmapForFile _ _) as [b|] eqn:Hb; simpl; [|done].
  case_match; [done|]. by intros [= <- <- <-].
Qed.

Lemma bitmapForFile_bits row_bits n bm :
  bitmapForFile row_bits n = Ok bm → ∀ i, IsSet bm i = IsSet row_bits i.
Proof.
  unfold bitmapForFile. intros H i. destruct (bool_decide _ && _) eqn:E.
  - bool_to_prop. subst. unfold NewBitmap in H.
    destruct (n <? 0); [done|]. destruct (bitmapByteCount n); simpl in H; [|done]. simplify_eq.
    rewrite IsSet_replicate. symmetry. by apply (IsSet_replicate 0).
  - destruct (Bitmap_Validate _ _); simpl in H; by simplify_eq.
Qed.

Lemma inflight_start n : inflight (replicate n Claiming) [] = [].
Proof. induction n; [done|]. exact IHn. Qed.

Lemma machine_inv_start m row bm bytes workersPerFile :
  machine_inv m → files (tables (db m)) !! fileID = Some row →
  prepare_transfer row = Ok (p, bm, bytes) →
  machine_inv (m <| run := Some (start_run p bm bytes true workersPerFile) |> <| ctx_err := None |>).
Proof.
  intros [I1 I2 I3 I4] Hrow Hprep.
  apply prepare_transfer_ok in Hprep as (_&Hbm&_&_).
  pose proof (bitmapForFile_bits _ _ _ Hbm) as Hbits.
  assert (stored_bitmap fileID m = Some (fBitmap row)) as Hst by (unfold stored_bitmap; by rewrite Hrow).
  split; try done. intros r [= <-]. unfold start_run. simpl. split; simpl; try done.
  - rewrite inflight_start. constructor.
  - rewrite inflight_start. by intros i ?%not_elem_of_nil.
  - intros i Hv Hs. split; [|by right]. rewrite Hbits in Hs.
    destruct (I3 _ i Hst Hv Hs) as (c&?&?&_). by exists c.
  - intros b i Hb Hs. rewrite Hbits. assert (Some b = Some (fBitmap row)) as Heq by (rewrite <- Hst; done).
    by simplify_eq.
Qed.

Lemma machine_inv_other m d' :
  machine_inv m → fBitmap <$> files (tables d') !! fileID = stored_bitmap fileID m →
  machine_inv (m <| db := d' |>).
Proof.
  intros Hm Hd. apply (machine_inv_quiet m); [done|by split_and!|]. intros r Hr. by apply Hm.
Qed.

Lemma machine_inv_step m m' : machine_inv m → mstep m m' → machine_inv m'.
Proof using Hp.
  intros Hm Hstep. destruct Hstep;
    try (pose proof (inv_run _ Hm _ ltac:(eassumption)) as Hr;
         apply (machine_inv_quiet m); [done|by split_and!|]; intros ? [= <-]).
  - by eapply run_inv_claim.
  - by eapply machine_inv_write.
  - by eapply machine_inv_finish.
  - by apply run_inv_fail.
  - by apply run_inv_collect.
  - by apply run_inv_tick.
  - by apply run_inv_loop_end.
  - by apply (machine_inv_sync m r).
  - by apply run_inv_failed.
  - by eapply machine_inv_persist.
  - apply (machine_inv_quiet m); [done|by split_and!|]. intros r Hr. by apply Hm.
  - by apply machine_inv_writeback.
  - by apply machine_inv_other.
  - by apply machine_inv_kill.
  - by apply machine_inv_crash.
  - by eapply machine_inv_start.
Qed.

Lemma machine_inv_initial m : initial p fileID m → machine_inv m.
Proof.
  intros (Hr&Hd&Hl&Hb). split; try done.
  - intros bm i Hbm _ Hs. by rewrite (Hb bm Hbm) in Hs.
  - intros r. by rewrite Hr.
Qed.

Lemma machine_inv_reachable m m' : initial p fileID m → rtc mstep m m' → machine_inv m'.
Proof using Hp.
  intros Hi Hsteps. eapply (rtc_invariant mstep machine_inv); [|done|by apply machine_inv_initial].
  intros a b Hab Ha. by eapply machine_inv_step.
Qed.

(** ** Completeness: nothing is left behind *)

Definition clean (m : Machine) (r : Run) : Prop :=
  transferErr r = None ∧ Forall (λ res, res_err res = None) (results r) ∧ ctx_err m = None.

(** No worker is left and nothing waits on the channel. *)
Definition drained (r : Run) : Prop :=
  transferErr r = None ∧ results r = [] ∧ Forall (λ k, k = Exited) (workers r).

(** What each phase says about the goroutines. *)
Definition phase_ok (r : Run) : Prop :=
  match at_phase r with
  | Syncing AtEnd _ _ | Persisting AtEnd _ _ => drained r
  | Syncing AfterError _ _ | Persisting AfterError _ _ => is_Some (transferErr r)
  | Returned (Ok _) => drained r ∧ dirty r = false
  | _ => True
  end.

Record cover (m : Machine) (r : Run) : Prop := {
  cov_claim i : IsSet (claimBitmap r) i = true → IsSet (bitmap r) i = true;
  cov_stored bm : dirty r = false → stored_bitmap fileID m = Some bm →
    ∀ i, IsSet bm i = IsSet (bitmap r) i;
  cov_phase : phase_ok r;
  cov_clean : clean m r → stopped r = false ∧
    (∀ i, valid i → i < next r → IsSet (bitmap r) i = true ∨ i ∈ inflight (workers r) (results r)) ∧
    (Exited ∈ workers r → pCount p ≤ next r) ∧
    (workers r = [] → ∀ i, valid i → IsSet (bitmap r) i = true) }.

Definition covered (m : Machine) : Prop := ∀ r, run m = Some r → cover m r.

(** [cover] looks only at the context and the stored bitmap of a machine. *)
Lemma cover_ext m m' r :
  (ctx_err m' = None → ctx_err m = None) →
  stored_bitmap fileID m' = stored_bitmap fileID m → cover m r → cover m' r.
Proof.
  intros Hc Hs [A B C D]. split; try done.
  - intros bm Hd. rewrite Hs. by apply B.
  - intros (?&?&?). apply D. split_and!; auto.
Qed.

Lemma drained_no_worker r w k : drained r → workers r !! w = Some k → k = Exited.
Proof. intros (_&_&Hall) Hw. rewrite Forall_forall in Hall. apply Hall. by eapply list_elem_of_lookup_2. Qed.

(** A step of a worker that is not gone cannot happen once the transfer is
    drained. *)
Lemma cov_phase_worker m r r' w k :
  cover m r → workers r !! w = Some k → k ≠ Exited → at_phase r' = at_phase r →
  transferErr r' = transferErr r → phase_ok r'.
Proof.
  intros [_ _ C _] Hw Hk Hph Hte. unfold phase_ok in *. rewrite Hph, Hte. destruct (at_phase r) as [|[]|[]|[]]; try done.
  - by destruct Hk; eapply drained_no_worker.
  - by destruct Hk; eapply drained_no_worker.
  - by destruct Hk; eapply drained_no_worker; [apply C|].
Qed.

Lemma cover_claim m r w r' k :
  run_inv m r → cover m r → workers r !! w = Some Claiming →
  claim p (bool_decide (is_Some (ctx_err m))) r = (r', k) →
  cover m (set_worker w k r').
Proof using Hp.
  intros Hinv Hcov Hw Hc. pose proof Hcov as [A B _ D].
  destruct (set_worker_split (workers r) w Claiming k Hw) as (l1&l2&Hws&Hws').
  assert (inflight (workers r) (results r) = inflight (l1 ++ l2) (results r)) as Hfl.
  { unfold inflight. by rewrite Hws, !omap_app. }
  assert (at_phase r' = at_phase r ∧ transferErr r' = transferErr r ∧ bitmap r' = bitmap r ∧
          claimBitmap r' = claimBitmap r ∧ dirty r' = dirty r ∧ workers r' = workers r ∧
          next r' = next r + 1) as (E1&E2&E3&E4&E5&E6&E7).
  { unfold claim in Hc. simpl in Hc. destruct (_ && _); [by simplify_eq/=|].
    destruct (_ || _); [by simplify_eq/=|]. by destruct (planner_Segment p (next r)); simplify_eq/=. }
  split; simpl; rewrite ?E3, ?E4, ?E5; try done.
  { by apply (cov_phase_worker m r _ w Claiming). }
  intros Hclean. assert (clean m r ∧ results r' = results r) as [Hcl Hres].
  { destruct Hclean as (H1&H2&H3). simpl in H1, H2. unfold claim in Hc. simpl in Hc.
    destruct (_ && _); [by simplify_eq/=|]. destruct (_ || _); [by simplify_eq/=|].
    destruct (planner_Segment p (next r)); simplify_eq/=; [done|].
    rewrite Forall_app in H2. destruct H2 as [_ H2]. by inversion H2. }
  destruct (D Hcl) as (Hst&Hall&Hex&Hnil). unfold claim in Hc. simpl in Hc.
  destruct Hcl as (_&_&Hctx). rewrite Hst, Hctx in Hc.
  rewrite (bool_decide_eq_false_2 (is_Some None)) in Hc by (by intros []).
  assert (∀ i, i < next r + 1 → i ≠ next r → i < next r) as Hlt by (intros; lia).
  assert (∀ rs k', inflight (l1 ++ k' :: l2) rs ≡ₚ
    match held k' with Some y => [y] | None => [] end ++ inflight (l1 ++ l2) rs) as Hperm.
  { intros rs k'. unfold inflight. rewrite omap_perm. by rewrite (assoc_L (++)). }
  assert (l1 ++ k :: l2 ≠ []) as Hne by (by destruct l1).
  rewrite E6, E7, Hws', Hres.
  destruct ((next r <? pCount p) && IsSet (claimBitmap r) (next r)) eqn:Ha.
  { simplify_eq/=. apply andb_true_iff in Ha as [_ Ha]. split_and!; try done.
    - intros i Hv Hi. destruct (decide (i = next r)) as [->|]; [left; by apply A|].
      rewrite Hperm, <- Hfl. simpl. apply Hall; [done|by apply Hlt].
    - intros Hin. assert (Exited ∈ workers r) as Hin' by (rewrite Hws; set_solver).
      specialize (Hex Hin'). lia. }
  rewrite orb_false_r, orb_false_r in Hc.
  destruct (Z.leb_spec (pCount p) (next r)) as [Hge|Hltp].
  { simplify_eq/=. split_and!; try done; [|lia].
    intros i Hv Hi. rewrite Hperm, <- Hfl. simpl. apply Hall; [done|lia]. }
  rewrite planner_Segment_total in Hc by (pose proof (inv_next _ _ Hinv); done || lia).
  simplify_eq/=. split_and!; try done.
  - intros i Hv Hi. rewrite Hperm, <- Hfl. simpl. rewrite elem_of_cons.
    destruct (decide (i = next r)) as [->|]; [by auto|].
    destruct (Hall i Hv (Hlt i Hi ltac:(done))); auto.
  - intros Hin. assert (Exited ∈ workers r) as Hin' by (rewrite Hws; set_solver).
    specialize (Hex Hin'). lia.
Qed.

(** A worker reports a finished segment, or a failed one. *)
Lemma cover_finish m r w i written :
  cover m r → workers r !! w = Some (Holding i) →
  cover m (set_worker w Claiming (send (mkResult (segment_at p i) written None) false r)).
Proof.
  intros Hcov Hw. pose proof Hcov as [A B _ D].
  destruct (set_worker_split (workers r) w (Holding i) Claiming Hw) as (l1&l2&Hws&Hws').
  split; simpl; try done. { by apply (cov_phase_worker m r _ w (Holding i)). }
  intros (H1&H2&H3). simpl in H1, H2. apply Forall_app in H2 as [H2 _].
  destruct (D ltac:(done)) as (Hst&Hall&Hex&_). rewrite Hst. split; [done|].
  rewrite Hws'. split_and!; [| |by destruct l1].
  - intros j Hv Hj. destruct (Hall j Hv Hj) as [|Hin]; [by left|right].
    revert Hin. unfold inflight. rewrite Hws, !omap_perm, omap_app. simpl.
    rewrite app_nil_r, !elem_of_app, !elem_of_cons, !elem_of_app. tauto.
  - intros Hin. apply Hex. rewrite Hws. revert Hin. rewrite !elem_of_app, !elem_of_cons.
    intros [?|[?|?]]; by auto.
Qed.

Lemma cover_fail m r w i written e stops :
  cover m r → workers r !! w = Some (Holding i) →
  cover m (set_worker w Exited (send (mkResult (segment_at p i) written (Some e)) stops r)).
Proof.
  intros Hcov Hw. pose proof Hcov as [A B _ D]. split; simpl; try done.
  { by apply (cov_phase_worker m r _ w (Holding i)). }
  intros (_&H2&_). simpl in H2. apply Forall_app in H2 as [_ H2]. by inversion H2.
Qed.

(** The collector: a run with an error promises nothing more. *)
Lemma cover_fail_with m e r : cover m r → at_phase r = Selecting → cover m (fail_with e r).
Proof.
  intros [A B C D] Hph. split; try done. { unfold phase_ok. simpl. by rewrite Hph. } by intros [??].
Qed.

Lemma cover_collect m r result rest :
  run_inv m r → cover m r → at_phase r = Selecting → results r = result :: rest →
  cover m (collect checkpointBytes result (r <| results := rest |>)).
Proof.
  intros Hinv [A B C D] Hph Hres.
  assert (∀ e, cover m (fail_with e (r <| results := rest |>))) as Hfail.
  { intros e. split; simpl; try done. { unfold phase_ok. simpl. by rewrite Hph. } by intros [??]. }
  assert (∀ e, transferErr r = Some e → cover m (r <| results := rest |>)) as Hskip.
  { intros e He. split; simpl; try done. { unfold phase_ok. simpl. by rewrite Hph. }
    intros [??]. simpl in *. congruence. }
  unfold collect. destruct (res_err result) as [e|] eqn:Herr; simpl.
  { destruct (transferErr r) eqn:E; [by eapply Hskip|apply Hfail]. }
  destruct (transferErr r) eqn:E; [by eapply Hskip|]. destruct (negb _); [apply Hfail|].
  destruct (Bitmap_Set _ _) as [bm|e] eqn:Hset; [|apply Hfail]. clear Hskip Hfail.
  pose proof (IsSet_Set _ _ _ Hset) as Hbits. set (i := sIndex (res_segment result)) in *.
  match goal with |- cover m (if _ then checkpoint InLoop ?x else _) => set (r1 := x) end.
  assert (cover m r1) as Hr1.
  { split; simpl; try done.
    - intros j Hj. rewrite Hbits, (A j Hj). by apply orb_true_r.
    - unfold phase_ok. simpl. by rewrite Hph.
    - intros (_&H2&H3). simpl in H2.
      destruct D as (Hst&Hall&Hex&Hnil).
      { split_and!; [done| |done]. rewrite Hres. by constructor. }
      split_and!; try done.
      + intros j Hv Hj. rewrite Hbits. destruct (Hall j Hv Hj) as [->|Hin].
        { left. apply orb_true_r. }
        destruct (Z.eqb_spec j i) as [->|Hne]; [by left|]. right. revert Hin.
        unfold inflight. rewrite Hres, !elem_of_app, !list_elem_of_omap.
        intros [?|(res&[->|Hin]%elem_of_cons&Hf)]; [by left| |right; by exists res].
        unfold finished in Hf. rewrite Herr in Hf. by simplify_eq.
      + intros Hws j Hv. rewrite Hbits, (Hnil Hws j Hv). apply orb_true_r. }
  destruct (_ <=? _); [|done]. destruct Hr1. by split.
Qed.

Lemma cover_tick m r : cover m r → at_phase r = Selecting → cover m (tick r).
Proof. intros [A B C D] Hph. unfold tick. case_match; by split. Qed.

Lemma cover_loop_end m r :
  cover m r → at_phase r = Selecting → results r = [] →
  Forall (λ k, k = Exited) (workers r) → cover m (loop_end p r).
Proof.
  intros [A B C D] Hph Hres Hall. unfold loop_end.
  destruct (transferErr r) eqn:E; destruct (dirty r) eqn:Ed; simpl; try destruct (_ =? _);
    split; unfold phase_ok; simpl; rewrite ?E, ?Ed; done.
Qed.

Lemma cover_sync m r k snapshot bytes :
  cover m r → at_phase r = Syncing k snapshot bytes →
  cover m (r <| at_phase := Persisting k snapshot bytes |>).
Proof. intros [A B C D] Hph. split; try done. unfold phase_ok in *. by rewrite Hph in C. Qed.

Lemma cover_failed m k e cancelled r : cover m r → cover m (checkpoint_failed k e cancelled r).
Proof. intros [A B C D]. destruct k; split; simpl; try done. by intros [??]. Qed.

(** A finished checkpoint leaves memory and database in agreement. *)
Lemma cover_done m k snapshot bytes r :
  cover m r → at_phase r = Persisting k snapshot bytes →
  stored_bitmap fileID m = Some (bitmap r) → cover m (checkpoint_done k r).
Proof.
  intros [A B C D] Hph Hst.
  assert (∀ bm, stored_bitmap fileID m = Some bm → ∀ i, IsSet bm i = IsSet (bitmap r) i) as Hb
    by (intros bm Hbm; rewrite Hst in Hbm; by simplify_eq).
  unfold phase_ok in C. rewrite Hph in C.
  destruct k; (split; [done|by intros bm _; apply Hb| |done]); unfold phase_ok; simpl; [done| |done].
  by destruct C as [e ->].
Qed.

Lemma cover_persist m r k snapshot bytes updatedAt now d' result :
  run_inv m r → cover m r → at_phase r = Persisting k snapshot bytes →
  CheckpointDownloadFiles [commit_row fileID snapshot bytes "downloading" updatedAt now] (db m)
    = (d', result) →
  cover (m <| db := d' |>)
    (match result with
     | Ok _ => checkpoint_done k r
     | Err e => checkpoint_failed k e (bool_decide (is_Some (ctx_err m))) r
     end).
Proof.
  intros Hr Hcr Hph Hck. apply (checkpoint_stored fileID) in Hck. destruct result as [[]|e].
  - pose proof (inv_phase _ _ Hr) as Hsn. rewrite Hph in Hsn. destruct Hsn as [-> _].
    eapply cover_done; [|done|done]. destruct Hcr as [A B C D]. split; try done.
    intros bm _ Hbm i. unfold stored_bitmap in Hbm. simpl in Hbm. rewrite Hck in Hbm. by simplify_eq.
  - apply cover_failed. by eapply (cover_ext m).
Qed.

(** Without a worker there is nothing to download. *)
Lemma no_workers bm n wpf :
  bitmap_bytes_ok bm → 0 ≤ n ≤ 8 * MaxBitmapBytes → Bitmap_Validate bm n = Ok () →
  worker_count (n - Bitmap_Count bm) wpf ≤ 0 → ∀ i, 0 ≤ i < n → IsSet bm i = true.
Proof.
  intros Hb Hn Hval Hc. apply count_set_full; [lia|].
  rewrite (Bitmap_Count_valid bm n Hb Hn Hval) in Hc. pose proof (count_set_bounds bm n ltac:(lia)).
  unfold worker_count in Hc. revert Hc. case_ifs; bool_to_prop; lia.
Qed.

Lemma bitmapForFile_valid row_bits n bm :
  0 ≤ n → bitmap_bytes_ok row_bits → bitmapForFile row_bits n = Ok bm →
  n ≤ 8 * MaxBitmapBytes ∧ bitmap_bytes_ok bm ∧ Bitmap_Validate bm n = Ok ().
Proof.
  intros Hn Hb Hbm. assert (n ≤ 8 * MaxBitmapBytes) as Hmax.
  { unfold bitmapForFile, NewBitmap, Bitmap_Validate in Hbm.
    assert (∃ k, bitmapByteCount n = Ok k) as [k Hk].
    { destruct (bool_decide _ && _); [destruct (n <? 0); [done|]|];
        destruct (bitmapByteCount n); simpl in Hbm; eauto; done. }
    unfold bitmapByteCount in Hk. destruct (Z.eqb_spec n 0) as [->|]; [done|].
    destruct (_ || _) eqn:E; [done|]. bool_to_prop. rewrite quot_div_nonneg in * by lia.
    pose proof (Z.div_mod (n - 1) 8). pose proof (Z.mod_pos_bound (n - 1) 8). lia. }
  split; [done|]. unfold bitmapForFile in Hbm. destruct (bool_decide _ && _).
  - destruct (NewBitmap_valid n) as (b&Hnew&?&?&_); [done|]. rewrite Hnew in Hbm.
    by injection Hbm as <-.
  - destruct (Bitmap_Validate row_bits n) as [[]|] eqn:E; simpl in Hbm; [|done].
    injection Hbm as <-. by rewrite E.
Qed.

Lemma cover_start m row bm bytes workersPerFile :
  files (tables (db m)) !! fileID = Some row → bitmap_bytes_ok (fBitmap row) →
  prepare_transfer row = Ok (p, bm, bytes) →
  cover (m <| run := Some (start_run p bm bytes true workersPerFile) |> <| ctx_err := None |>)
    (start_run p bm bytes true workersPerFile).
Proof using Hp.
  intros Hrow Hb (_&Hbm&_&_)%prepare_transfer_ok.
  destruct (bitmapForFile_valid _ _ _ (proj1 (proj2 (proj2 (planner_ok_inv p Hp)))) Hb Hbm)
    as (Hmax&Hbok&Hval).
  pose proof (bitmapForFile_bits _ _ _ Hbm) as Hbits.
  split; simpl; try done.
  - intros b _ Hst i. unfold stored_bitmap in Hst. simpl in Hst. rewrite Hrow in Hst. simplify_eq/=.
    by rewrite Hbits.
  - intros _. split_and!; try done.
    + intros; lia.
    + intros [? _]%elem_of_replicate. done.
    + intros Hnil i Hv. apply (no_workers bm (pCount p) workersPerFile); try done; [lia|].
      apply (f_equal length) in Hnil. rewrite length_replicate in Hnil. simpl in Hnil. lia.
Qed.

Lemma covered_step m m' : machine_inv m → covered m → mstep m m' → covered m'.
Proof using Hp.
  intros Hm Hc Hstep. destruct Hstep; intros r1 Hr1; simpl in Hr1; simplify_eq;
    try (pose proof (inv_run _ Hm _ ltac:(eassumption)) as Hr);
    try (pose proof (Hc _ ltac:(eassumption)) as Hcr);
    try (eapply (cover_ext m); [done|done|]).
  - by eapply cover_claim.
  - done.
  - by eapply cover_finish.
  - by apply cover_fail.
  - by apply cover_collect.
  - by apply cover_tick.
  - by apply cover_loop_end.
  - by apply cover_sync.
  - by apply cover_failed.
  - eapply (cover_ext (m <| db := d' |>)); [done|done|]. by eapply cover_persist.
  - done.
  - done.
  - done.
  - by apply cover_start with row.
Qed.

Lemma covered_reachable m m' : initial p fileID m → rtc mstep m m' → machine_inv m' ∧ covered m'.
Proof using Hp.
  intros Hi Hsteps. eapply (rtc_invariant mstep (λ m, machine_inv m ∧ covered m)); [|done|].
  - intros a b Hab [Ha Hc]. split; [by eapply machine_inv_step|by eapply covered_step].
  - split; [by apply machine_inv_initial|]. intros r. by destruct Hi as (->&_).
Qed.

(** A drained run without trouble has every segment. *)
Lemma drained_full m r :
  run_inv m r → cover m r → drained r → ctx_err m = None →
  ∀ i, valid i → IsSet (bitmap r) i = true.
Proof.
  intros Hinv [_ _ _ D] (Hte&Hres&Hall) Hctx i Hv.
  destruct D as (_&Hcov&Hex&Hnil); [split_and!; [done|by rewrite Hres|done]|].
  destruct (workers r) as [|k ws] eqn:Hws; [by apply Hnil|].
  assert (k = Exited) as -> by (by inversion Hall).
  destruct (Hcov i Hv) as [|Hin]; [|done|].
  { specialize (Hex ltac:(left)). lia. }
  exfalso. revert Hin. rewrite Hres. unfold inflight. rewrite app_nil_r, list_elem_of_omap.
  rewrite Forall_forall in Hall. by intros (k&->%Hall&?).
Qed.
End invariant.

(** ** A concrete transfer *)

Definition sample_plan : SegmentPlanner := mkPlanner 3 4 1.
Definition sample_row : FileRow :=
  mkFileRow "f" "j" "n" "a.bin" "a.bin" 3 4 1 [] 0 [1] [2] "" "downloading" "" "" 1 1 None.
Definition sample_machine : Machine :=
  mkMachine [0;0;0] [0;0;0]
    (mkDB (empty_tables <| jobs := {[ "j" := sample_job ]} |> <| files := {[ "f" := sample_row ]} |>)
       0 0 [] [] 7 (New "constraint failed")) ∅ None None.

Abbreviation sample_step := (step sample_plan 100 "f").

Lemma sample_plan_ok : planner_ok sample_plan.
Proof. split_and!; by vm_compute. Qed.

Lemma sample_initial : initial sample_plan "f" sample_machine.
Proof.
  split_and!; [done..|]. intros bm Hbm i. vm_compute in Hbm. injection Hbm as <-.
  apply (IsSet_replicate 0).
Qed.

(** One worker fetches the only segment and exits. *)
Definition sample_done : Run :=
  mkRun 2 [0] [Exited] [] [1] 3 3 true None false Selecting.

Lemma sample_download :
  rtc sample_step sample_machine
    (sample_machine <| disk := [7;8;9] |> <| done := {[ 0 := [7;8;9] ]} |> <| run := Some sample_done |>).
Proof.
  set (r0 := mkRun 0 [0] [Claiming] [] [0] 0 0 false None false Selecting).
  set (r1 := mkRun 1 [0] [Holding 0] [] [0] 0 0 false None false Selecting).
  set (r2 := r1 <| workers := [Claiming] |> <| results := [mkResult (mkSegment 0 0 2) 3 None] |>).
  set (r3 := mkRun 1 [0] [Claiming] [] [1] 3 3 true None false Selecting).
  set (m1 := sample_machine <| disk := [7;8;9] |>).
  set (m2 := m1 <| done := {[ 0 := [7;8;9] ]} |>).
  eapply (rtc_step_eq _ _ _ (sample_machine <| run := Some r0 |>)).
  { apply (step_start sample_plan 100 "f" sample_machine sample_row [0] 0 1); [done|done|by constructor|by vm_compute]. }
  { reflexivity. }
  eapply (rtc_step_eq _ _ _ (sample_machine <| run := Some r1 |>)).
  { by apply (step_claim sample_plan 100 "f" (sample_machine <| run := Some r0 |>) r0 0 (r0 <| next := 1 |>) (Holding 0)). }
  { reflexivity. }
  eapply (rtc_step_eq _ _ _ (m1 <| run := Some r1 |>)).
  { apply (step_write sample_plan 100 "f" (sample_machine <| run := Some r1 |>) r1 0 0 [7;8;9]); [done..|]. split; [done|].
    intros i Hi. destruct i as [|[|[|i]]]; [..|done]; destruct Hi; by vm_compute. }
  { reflexivity. }
  eapply (rtc_step_eq _ _ _ (m2 <| run := Some r2 |>)).
  { by apply (step_finish sample_plan 100 "f" (m1 <| run := Some r1 |>) r1 0 0 3). }
  { reflexivity. }
  eapply (rtc_step_eq _ _ _ (m2 <| run := Some r3 |>)).
  { by apply (step_collect sample_plan 100 "f" (m2 <| run := Some r2 |>) r2 (mkResult (mkSegment 0 0 2) 3 None) []). }
  { reflexivity. }
  eapply (rtc_step_eq _ _ _ (m2 <| run := Some sample_done |>)).
  { by apply (step_claim sample_plan 100 "f" (m2 <| run := Some r3 |>) r3 0 (r3 <| next := 2 |>) Exited). }
  { reflexivity. }
  apply rtc_refl.
Qed.

(** Then the collector checkpoints what it has and returns. *)
Lemma sample_finished :
  ∃ m r, rtc sample_step sample_machine m ∧ run m = Some r ∧ at_phase r = Returned (Ok ()) ∧
    ctx_err m = None ∧ stored_bitmap "f" m = Some [1].
Proof.
  destruct (CheckpointDownloadFiles [commit_row "f" [1] 3 "downloading" 0 0] (db sample_machine))
    as [d' result] eqn:E.
  pose proof (checkpoint_stored "f" [1] 3 "downloading" 0 0 _ _ _ E) as Hst.
  assert (∃ x, result = Ok x) as [[] ->].
  { apply (f_equal snd) in E. destruct result; [by eexists|]. by vm_compute in E. }
  set (m1 := sample_machine <| disk := [7;8;9] |> <| done := {[ 0 := [7;8;9] ]} |>).
  set (m2 := m1 <| run := Some (sample_done <| at_phase := Syncing AtEnd [1] 3 |>) |>).
  set (m3 := m1 <| durable := [7;8;9] |>
                <| run := Some (sample_done <| at_phase := Persisting AtEnd [1] 3 |>) |>).
  exists (m3 <| db := d' |> <| run := Some (checkpoint_done AtEnd
            (sample_done <| at_phase := Persisting AtEnd [1] 3 |>)) |>).
  eexists. split_and!; [|done|done|done|exact Hst].
  etrans; [exact sample_download|].
  eapply (rtc_step_eq _ _ _ m2).
  { apply (step_loop_end sample_plan 100 "f" (m1 <| run := Some sample_done |>) sample_done); try done.
    by repeat constructor. }
  { reflexivity. }
  eapply (rtc_step_eq _ _ _ m3).
  { by apply (step_sync sample_plan 100 "f" m2 (sample_done <| at_phase := Syncing AtEnd [1] 3 |>)). }
  { reflexivity. }
  eapply rtc_step_eq.
  { by apply (step_persist sample_plan 100 "f" m3 (sample_done <| at_phase := Persisting AtEnd [1] 3 |>)
      AtEnd [1] 3 0 0 d' (Ok ())). }
  { reflexivity. }
  apply rtc_refl.
Qed.

(** ** The properties of a transfer *)

(** C1: as long as nobody removes the partial file, whatever the interleaving
    of workers, collector, crashes and restarts, a segment the database records
    as complete has, in the partial file and in what a crash of the machine would
    leave of it, exactly the bytes its last download left there.  (A transfer
    starts here with the partial file in place; [missing_partial_forgotten] is
    what happens when it is gone.) *)
Theorem checkpoint_order_safe p checkpointBytes fileID m m' bm i :
  planner_ok p → initial p fileID m → rtc (step p checkpointBytes fileID) m m' →
  stored_bitmap fileID m' = Some bm → 0 ≤ i < pCount p → IsSet bm i = true →
  ∃ c, done m' !! i = Some c ∧ segment_bytes p (disk m') i = c ∧ segment_bytes p (durable m') i = c.
Proof.
  intros Hp Hi Hsteps Hb Hv Hs.
  by apply (inv_persisted _ _ _ (machine_inv_reachable p Hp _ _ _ _ Hi Hsteps) bm i).
Qed.

Lemma checkpoint_order_safe_witness :
  ∃ m c, rtc sample_step sample_machine m ∧ done m !! 0 = Some c ∧
    segment_bytes sample_plan (durable m) 0 = c.
Proof.
  destruct sample_finished as (m&r&Hsteps&_&_&_&Hst). exists m.
  destruct (checkpoint_order_safe sample_plan 100 "f" sample_machine m [1] 0
    sample_plan_ok sample_initial Hsteps Hst) as (c&?&_&?); [done..|]. by exists c.
Defined.

(** no two workers ever hold the same segment, and a segment in a
    worker's hands is a segment of the plan that is complete neither in
    memory nor in the database. *)
Theorem claims_exclusive p checkpointBytes fileID m m' r :
  planner_ok p → initial p fileID m → rtc (step p checkpointBytes fileID) m m' → run m' = Some r →
  (∀ w w' i, workers r !! w = Some (Holding i) → workers r !! w' = Some (Holding i) → w = w') ∧
  ∀ w i, workers r !! w = Some (Holding i) →
    0 ≤ i < pCount p ∧ IsSet (bitmap r) i = false ∧
    ∀ bm, stored_bitmap fileID m' = Some bm → IsSet bm i = false.
Proof.
  intros Hp Hi Hsteps Hrun.
  destruct (inv_run _ _ _ (machine_inv_reachable p Hp _ _ _ _ Hi Hsteps) r Hrun) as [_ H2 H3 _ _ H6 _].
  split.
  - intros w w' i Hw Hw'. unfold inflight in H2. apply NoDup_app in H2 as (H2&_&_).
    by eapply omap_held_inj.
  - intros w i Hw. destruct (H3 i (held_elem r w i Hw)) as (Hv&_&Hb). split_and!; [lia..|done|].
    intros bm Hbm. apply not_true_is_false. intros Hs. by rewrite (H6 bm i Hbm Hs) in Hb.
Qed.

Lemma claims_exclusive_witness :
  ∃ m r, rtc sample_step sample_machine m ∧ run m = Some r ∧
    ∀ w w' i, workers r !! w = Some (Holding i) → workers r !! w' = Some (Holding i) → w = w'.
Proof.
  destruct sample_finished as (m&r&Hsteps&Hrun&_). exists m, r. split_and!; [done..|].
  apply (claims_exclusive sample_plan 100 "f" sample_machine m r sample_plan_ok sample_initial
    Hsteps Hrun).
Defined.

(** C5: a transfer that returns without an error, its context still
    alive, has every segment: marked in memory, recorded in the database and
    holding, even after a crash, the bytes its download left. *)
Theorem transfer_complete p checkpointBytes fileID m m' r bm :
  planner_ok p → initial p fileID m → rtc (step p checkpointBytes fileID) m m' →
  run m' = Some r → at_phase r = Returned (Ok ()) → ctx_err m' = None →
  stored_bitmap fileID m' = Some bm →
  ∀ i, 0 ≤ i < pCount p →
    IsSet (bitmap r) i = true ∧ IsSet bm i = true ∧
    ∃ c, done m' !! i = Some c ∧ segment_bytes p (disk m') i = c ∧
      segment_bytes p (durable m') i = c.
Proof.
  intros Hp Hi Hsteps Hrun Hph Hctx Hb i Hv.
  destruct (covered_reachable p Hp _ _ _ _ Hi Hsteps) as [Hm Hc].
  pose proof (Hc r Hrun) as Hcov. pose proof (inv_run _ _ _ Hm r Hrun) as Hinv.
  pose proof (cov_phase _ _ _ _ Hcov) as Hok. unfold phase_ok in Hok. rewrite Hph in Hok.
  destruct Hok as [Hdr Hd].
  pose proof (drained_full p fileID m' r Hinv Hcov Hdr Hctx i Hv) as Hs.
  assert (IsSet bm i = true) as Hs' by (by rewrite (cov_stored _ _ _ _ Hcov bm Hd Hb)).
  split_and!; [done..|]. by apply (inv_persisted _ _ _ Hm bm i).
Qed.

Lemma transfer_complete_witness :
  ∃ m, rtc sample_step sample_machine m ∧
    ∃ c, done m !! 0 = Some c ∧ segment_bytes sample_plan (durable m) 0 = c.
Proof.
  destruct sample_finished as (m&r&Hsteps&Hrun&Hph&Hctx&Hst). exists m. split; [done|].
  destruct (transfer_complete sample_plan 100 "f" sample_machine m r [1]
    sample_plan_ok sample_initial Hsteps Hrun Hph Hctx Hst 0) as (_&_&c&?&_&?); [done|]. by exists c.
Defined.

(** when the partial file has disappeared the run starts from an
    empty bitmap, but neither its dirty flag nor the database says so: until
    a segment completes no checkpoint is due, and a run restarted from that
    row - the file now exists - skips every segment the row still lists. *)
Theorem missing_partial_forgotten p row bm bytes n :
  prepare_transfer row = Ok (p, bm, bytes) → 0 < Bitmap_Count bm →
  let r := start_run p bm bytes false n in
  (∀ i, IsSet (bitmap r) i = false) ∧ committed r = 0 ∧ tick r = r ∧
  ∀ i cancelled r', IsSet (fBitmap row) i = true → 0 ≤ i < pCount p → next r' = i →
    claimBitmap r' = claimBitmap (start_run p bm bytes true n) →
    claim p cancelled r' = (r' <| next := i + 1 |>, Claiming).
Proof.
  intros (_&Hbm&_&_)%prepare_transfer_ok Hc r. subst r. unfold start_run. simpl.
  rewrite (proj2 (Z.ltb_lt _ _) Hc). simpl. split_and!; [|done..|].
  - intros i. unfold NewBitmapUnchecked, NewBitmap.
    destruct (pCount p <? 0); [apply (IsSet_replicate 0)|].
    destruct (bitmapByteCount (pCount p)); [apply IsSet_replicate|apply (IsSet_replicate 0)].
  - intros i cancelled r' Hs Hi Hn Hcl. rewrite <- (bitmapForFile_bits _ _ _ Hbm) in Hs.
    unfold claim. simpl. rewrite Hcl, Hn. unfold Clone. simpl.
    by rewrite Hs, (proj2 (Z.ltb_lt i (pCount p))) by lia.
Qed.

Lemma missing_partial_forgotten_witness :
  let row := sample_row <| fBitmap := [1] |> in
  let r := start_run sample_plan [1] 3 true 1 in
  prepare_transfer row = Ok (sample_plan, [1], 3) ∧
  claim sample_plan false r = (r <| next := 1 |>, Claiming).
Proof.
  intros row r. split; [by vm_compute|].
  destruct (missing_partial_forgotten sample_plan row [1] 3 1) as (_&_&_&H); [by vm_compute..|].
  by apply (H 0).
Defined.
