(* ===== verification/Heap.v ===== *)
(** * Binary heaps (the standard library's container/heap)

    The download queue keeps its entries in a slice ordered by
    [container/heap].  This file has that package's [Init], [Push] and [Pop]
    on a list, for any [Less], and shows what they promise: the entries are
    those put in, and [Pop] returns a least one. *)

From Stdlib Require Import ZArith Lia.
From stdpp Require Import base list.
From S2P Require Import Prelude.

#[local] Open Scope nat_scope.

Section heap.
Context {A : Type} (Less : A → A → bool).

(** ** The operations *)

Definition Swap (i j : nat) (l : list A) : list A :=
  match l !! i, l !! j with Some x, Some y => <[i:=y]> (<[j:=x]> l) | _, _ => l end.

Definition LessAt (l : list A) (i j : nat) : bool :=
  match l !! i, l !! j with Some x, Some y => Less x y | _, _ => false end.

(** [up] moves towards index 0 and [down] towards the end, so the length of
    the slice bounds their rounds. *)
Fixpoint up (fuel : nat) (l : list A) (j : nat) : list A :=
  match fuel with
  | O => l
  | S fuel =>
    let i := (j - 1) / 2 in
    if (i =? j) || negb (LessAt l j i) then l else up fuel (Swap i j l) i
  end.

Fixpoint down (fuel : nat) (l : list A) (i n : nat) : list A :=
  match fuel with
  | O => l
  | S fuel =>
    let j1 := 2 * i + 1 in
    if n <=? j1 then l
    else
      let j := if (j1 + 1 <? n) && LessAt l (j1 + 1) j1 then j1 + 1 else j1 in
      if negb (LessAt l j i) then l else down fuel (Swap i j l) j n
  end.

Fixpoint init_below (k : nat) (l : list A) : list A :=
  match k with O => l | S i => init_below i (down (length l) l i (length l)) end.

Definition heap_Init (l : list A) : list A := init_below (length l / 2) l.

Definition heap_Push (l : list A) (x : A) : list A :=
  up (S (length l)) (l ++ [x]) (length l).

Definition heap_Pop (l : list A) : option (A * list A) :=
  let n := length l - 1 in
  let l := down (length l) (Swap 0 n l) 0 n in
  match l !! n with Some x => Some (x, take n l) | None => None end.

(** ** Swapping *)

Lemma lookup_Swap l i j x : i < length l → j < length l →
  Swap i j l !! x = if decide (x = i) then l !! j else if decide (x = j) then l !! i else l !! x.
Proof.
  intros [a Ha]%lookup_lt_is_Some [b Hb]%lookup_lt_is_Some. unfold Swap. rewrite Ha, Hb.
  pose proof (lookup_lt_Some _ _ _ Ha). pose proof (lookup_lt_Some _ _ _ Hb).
  repeat case_decide; subst.
  - by rewrite list_lookup_insert_eq by (by rewrite length_insert).
  - rewrite list_lookup_insert_ne by done. by rewrite list_lookup_insert_eq.
  - by rewrite !list_lookup_insert_ne.
Qed.

Lemma insert_cons_perm (l : list A) k a b : l !! k = Some a → b :: l ≡ₚ a :: <[k:=b]> l.
Proof.
  revert k. induction l as [|c l IH]; intros [|k] Hk; simplify_eq/=; [constructor|].
  by rewrite Permutation_swap, (IH k Hk), Permutation_swap.
Qed.

Lemma Swap_perm i j l : Swap i j l ≡ₚ l.
Proof.
  unfold Swap. destruct (l !! i) as [x|] eqn:Hi, (l !! j) as [y|] eqn:Hj; try done.
  apply (Permutation_cons_inv (a := x)). rewrite (insert_cons_perm l j y x Hj).
  symmetry. apply insert_cons_perm. destruct (decide (i = j)) as [->|].
  - apply list_lookup_insert_eq. by eapply lookup_lt_Some.
  - by rewrite list_lookup_insert_ne.
Qed.

Lemma length_Swap i j l : length (Swap i j l) = length l.
Proof. apply Permutation_length, Swap_perm. Qed.

Lemma up_perm fuel l j : up fuel l j ≡ₚ l.
Proof.
  revert l j. induction fuel as [|fuel IH]; intros l j; [done|]. cbn [up].
  destruct (_ || _); [done|]. by rewrite IH, Swap_perm.
Qed.

Lemma down_perm fuel l i n : down fuel l i n ≡ₚ l.
Proof.
  revert l i. induction fuel as [|fuel IH]; intros l i; [done|]. cbn [down].
  destruct (n <=? _); [done|]. cbv zeta. destruct (negb _); [done|]. by rewrite IH, Swap_perm.
Qed.

Lemma length_down fuel l i n : length (down fuel l i n) = length l.
Proof. apply Permutation_length, down_perm. Qed.

(** ** The heap order *)

Context (Htrans : ∀ x y z, Less y x = false → Less z y = false → Less z x = false).
Context (Htotal : ∀ x y, Less x y = true → Less y x = false).

Definition le_at (l : list A) (i j : nat) : Prop :=
  ∀ x y, l !! i = Some x → l !! j = Some y → Less y x = false.

Definition child (p c : nat) : Prop := c = 2 * p + 1 ∨ c = 2 * p + 2.

(** Every parent from [k] on is no greater than its children below [n]. *)
Definition heap (k n : nat) (l : list A) : Prop :=
  ∀ p c, child p c → k ≤ p → c < n → le_at l p c.

Lemma le_at_trans l i j k : j < length l → le_at l i j → le_at l j k → le_at l i k.
Proof using Htrans.
  intros [b Hb]%lookup_lt_is_Some H1 H2 x y Hx Hy. eapply Htrans; [by apply H1|by apply H2].
Qed.

Lemma LessAt_false l i j : LessAt l j i = false → le_at l i j.
Proof. unfold LessAt. intros H x y Hx Hy. by rewrite Hx, Hy in H. Qed.

Lemma LessAt_true l i j : LessAt l i j = true → le_at l i j.
Proof using Htotal. unfold LessAt. intros H x y Hx Hy. rewrite Hx, Hy in H. by apply Htotal. Qed.

Lemma heap_root n l i : heap 0 n l → n ≤ length l → i < n → i ≠ 0 → le_at l 0 i.
Proof using Htrans.
  intros Hh Hn. induction i as [i IH] using lt_wf_ind. intros Hi H0.
  assert (child ((i - 1) / 2) i) as Hc.
  { unfold child. pose proof (Nat.div_mod (i - 1) 2 ltac:(lia)).
    pose proof (Nat.mod_upper_bound (i - 1) 2 ltac:(lia)). lia. }
  assert ((i - 1) / 2 < i) by (unfold child in Hc; lia).
  destruct (decide ((i - 1) / 2 = 0)) as [Hz|Hz].
  - rewrite Hz in Hc. apply Hh; [done|lia|done].
  - apply (le_at_trans l 0 ((i - 1) / 2) i); [lia|apply IH; lia|apply Hh; [done|lia|done]].
Qed.

(** *** Sifting down *)

(** The heap but for the entry at [i], which may be too great. *)
Definition heap_but (k n : nat) (l : list A) (i : nat) : Prop :=
  (∀ p c, child p c → k ≤ p → c < n → p ≠ i → le_at l p c) ∧
  (∀ p c, child p i → child i c → k ≤ p → c < n → le_at l p c).

Lemma down_heap fuel k n l i :
  heap_but k n l i → k ≤ i → n ≤ length l → n ≤ i + fuel → heap k n (down fuel l i n).
Proof using Htrans Htotal.
  revert l i. induction fuel as [|fuel IH]; intros l i [H1 H2] Hk Hn Hf; cbn [down].
  { intros p c Hc Hp Hcn. apply H1; unfold child in *; lia. }
  destruct (Nat.leb_spec n (2 * i + 1)) as [Hle|Hlt].
  { intros p c Hc Hp Hcn. apply H1; unfold child in *; lia. }
  cbv zeta.
  set (j := if (2 * i + 1 + 1 <? n) && LessAt l (2 * i + 1 + 1) (2 * i + 1)
            then 2 * i + 1 + 1 else 2 * i + 1).
  assert (child i j ∧ j < n ∧ ∀ c, child i c → c < n → c ≠ j → le_at l j c) as (Hij&Hjn&Hmin).
  { unfold j. destruct (Nat.ltb_spec (2 * i + 1 + 1) n); cbn [andb].
    - destruct (LessAt l (2 * i + 1 + 1) (2 * i + 1)) eqn:E; (split; [unfold child; lia|]);
        (split; [lia|]); intros c Hc Hcn Hne.
      + replace c with (2 * i + 1) by (unfold child in Hc; lia). by apply LessAt_true.
      + replace c with (2 * i + 1 + 1) by (unfold child in Hc; lia). by apply LessAt_false.
    - split; [unfold child; lia|]. split; [lia|]. unfold child. intros. lia. }
  destruct (LessAt l j i) eqn:E; simpl.
  - apply IH; [|unfold child in Hij; lia|by rewrite length_Swap|unfold child in Hij; lia].
    assert (i < length l ∧ j < length l) as [Hil Hjl] by (unfold child in Hij; lia).
    assert (∀ x y, le_at (Swap i j l) x y ↔ le_at l
      (if decide (x = i) then j else if decide (x = j) then i else x)
      (if decide (y = i) then j else if decide (y = j) then i else y)) as Hsw.
    { intros x y. unfold le_at. rewrite !lookup_Swap by done. by repeat case_decide. }
    split; intros p c Hc Hp; rewrite Hsw.
    + intros Hcn Hpj. destruct (decide (p = i)) as [->|Hpi].
      * rewrite (decide_False (P := c = i)) by (unfold child in *; lia).
        case_decide; [by apply LessAt_true|by apply Hmin].
      * rewrite (decide_False (P := p = j)) by done. destruct (decide (c = i)) as [->|Hci].
        { by apply H2. }
        rewrite decide_False by (unfold child in *; lia). by apply H1.
    + intros Hkp Hcn. replace p with i by (unfold child in *; lia). rewrite decide_True by done.
      rewrite !decide_False by (unfold child in *; lia). apply H1; [done|unfold child in *; lia..].
  - apply LessAt_false in E. intros p c Hc Hp Hcn. destruct (decide (p = i)) as [->|]; [|by apply H1].
    destruct (decide (c = j)) as [->|]; [done|]. eapply le_at_trans; [|exact E|by apply Hmin]. lia.
Qed.

(** It leaves the entries from [n] on alone. *)
Lemma down_beyond fuel l i n x :
  n ≤ length l → i < n ∨ n = 0 → n ≤ x → down fuel l i n !! x = l !! x.
Proof.
  revert l i. induction fuel as [|fuel IH]; intros l i Hn Hi Hx; [done|]. cbn [down].
  destruct (Nat.leb_spec n (2 * i + 1)); [done|]. cbv zeta. set (j := if (2 * i + 1 + 1 <? n) && LessAt l (2 * i + 1 + 1) (2 * i + 1) then 2 * i + 1 + 1 else 2 * i + 1).
  assert (j < n) as Hj.
  { unfold j. destruct (Nat.ltb_spec (2 * i + 1 + 1) n); cbn [andb]; [|lia]. case_match; lia. }
  destruct (negb _); [done|]. rewrite IH; [|by rewrite length_Swap|lia|done].
  rewrite lookup_Swap, !decide_False by lia. done.
Qed.

(** *** Sifting up *)

(** The heap but for the entry at [j], which may be too small. *)
Definition heap_until (l : list A) (j : nat) : Prop :=
  (∀ p c, child p c → c < length l → c ≠ j → le_at l p c) ∧
  (∀ p c, child p j → child j c → c < length l → le_at l p c).

Lemma up_heap fuel l j :
  heap_until l j → j < length l → j < fuel → heap 0 (length l) (up fuel l j).
Proof using Htrans Htotal.
  revert l j. induction fuel as [|fuel IH]; intros l j [H1 H2] Hj Hf; [lia|]. cbn [up].
  set (i := (j - 1) / 2). destruct (decide (j = 0)) as [->|Hj0].
  { rewrite (proj2 (Nat.eqb_eq i 0)) by done. simpl. intros p c Hc _ Hcn.
    apply H1; unfold child in *; lia. }
  assert (child i j) as Hij.
  { unfold child, i. pose proof (Nat.div_mod (j - 1) 2 ltac:(lia)).
    pose proof (Nat.mod_upper_bound (j - 1) 2 ltac:(lia)). lia. }
  rewrite (proj2 (Nat.eqb_neq i j)) by (unfold child in Hij; lia). simpl.
  destruct (LessAt l j i) eqn:E; simpl.
  - rewrite <- (length_Swap i j l). apply IH;
      [|rewrite length_Swap; unfold child in Hij; lia|unfold child in Hij; lia].
    assert (i < length l) as Hil by (unfold child in Hij; lia).
    assert (∀ x y, le_at (Swap i j l) x y ↔ le_at l
      (if decide (x = i) then j else if decide (x = j) then i else x)
      (if decide (y = i) then j else if decide (y = j) then i else y)) as Hsw.
    { intros x y. unfold le_at. rewrite !lookup_Swap by done. by repeat case_decide. }
    apply LessAt_true in E.
    split; intros p c Hc; rewrite length_Swap, Hsw.
    + intros Hcn Hci. rewrite (decide_False (P := c = i)) by done.
      destruct (decide (p = i)) as [->|Hpi].
      * destruct (decide (c = j)) as [->|]; [done|].
        apply (le_at_trans l j i c); [done|done|by apply H1].
      * rewrite (decide_False (P := c = j)) by (unfold child in *; lia).
        destruct (decide (p = j)) as [->|]; [by apply H2|by apply H1; unfold child in *; lia].
    + intros Hc2 Hcn. rewrite (decide_False (P := p = i)) by (unfold child in *; lia).
      rewrite (decide_False (P := p = j)) by (unfold child in *; lia).
      rewrite (decide_False (P := c = i)) by (unfold child in *; lia).
      assert (le_at l p i) by (apply H1; [done|done|unfold child in *; lia]).
      destruct (decide (c = j)) as [->|]; [done|].
      apply (le_at_trans l p i c); [done|done|by apply H1].
  - apply LessAt_false in E. intros p c Hc _ Hcn. destruct (decide (c = j)) as [->|]; [|by apply H1].
    by replace p with i by (unfold child in *; lia).
Qed.

(** ** What the operations promise *)

Lemma heap_Push_perm l x : heap_Push l x ≡ₚ x :: l.
Proof. unfold heap_Push. by rewrite up_perm, Permutation_app_comm. Qed.

Lemma heap_Push_heap l x : heap 0 (length l) l → heap 0 (S (length l)) (heap_Push l x).
Proof using Htrans Htotal.
  intros Hh. unfold heap_Push.
  replace (S (length l)) with (length (l ++ [x])) at 1 by (rewrite length_app; simpl; lia).
  apply up_heap; [|rewrite length_app; simpl; lia|lia]. split; intros p c Hc.
  - rewrite length_app. simpl. intros Hcn Hne a b Ha Hb.
    rewrite lookup_app_l in Ha by (unfold child in *; lia). rewrite lookup_app_l in Hb by lia.
    by apply (Hh p c); [|lia|lia|..].
  - rewrite length_app. simpl. unfold child. lia.
Qed.

Lemma heap_Pop_spec l :
  heap 0 (length l) l → l ≠ [] →
  ∃ x l', heap_Pop l = Some (x, l') ∧ l ≡ₚ x :: l' ∧ heap 0 (length l') l' ∧
    ∀ y, y ∈ l → y = x ∨ Less y x = false.
Proof using Htrans Htotal.
  intros Hh Hne. destruct l as [|a l0]; [done|]. set (l := a :: l0) in *. set (n := length l - 1).
  assert (length l = S n) as Hlen by (unfold n, l; simpl; lia).
  set (m := down (length l) (Swap 0 n l) 0 n).
  assert (m ≡ₚ l) as Hperm by (unfold m; by rewrite down_perm, Swap_perm).
  assert (m !! n = Some a) as Hm.
  { unfold m. rewrite down_beyond by (rewrite ?length_Swap; lia).
    rewrite lookup_Swap by lia. case_decide as Hn0; [|by rewrite decide_True].
    by rewrite Hn0. }
  assert (m = take n m ++ [a]) as Hsplit.
  { rewrite <- (take_drop n m) at 1. f_equal. rewrite (drop_S _ a) by done.
    rewrite drop_ge; [done|]. rewrite (Permutation_length Hperm). lia. }
  exists a, (take n m). split_and!.
  - unfold heap_Pop. fold n. fold m. by rewrite Hm.
  - rewrite <- Hperm, Hsplit at 1. by rewrite Permutation_app_comm.
  - assert (heap 0 n m) as Hmh.
    { apply down_heap; [|lia|rewrite length_Swap; lia|lia]. split; intros p c Hc; unfold child in *; [|lia].
      intros _ Hcn Hp. intros x y. rewrite !lookup_Swap, !decide_False by lia.
      apply Hh; unfold child; lia. }
    rewrite length_take, (Permutation_length Hperm), Nat.min_l by lia.
    intros p c Hc Hp Hcn x y Hx Hy. apply lookup_take_Some in Hx as [Hx _], Hy as [Hy _].
    by apply (Hmh p c).
  - intros y [i Hy]%list_elem_of_lookup. destruct (decide (i = 0)) as [->|Hi].
    + left. by injection Hy as <-.
    + right. by apply (heap_root (length l) l i Hh); [|by eapply lookup_lt_Some|..].
Qed.

Lemma heap_Init_perm l : heap_Init l ≡ₚ l.
Proof.
  unfold heap_Init. generalize (length l / 2). intros k. revert l.
  induction k as [|k IH]; intros l; [done|]. simpl. by rewrite IH, down_perm.
Qed.

Lemma init_below_heap k l : heap k (length l) l → heap 0 (length l) (init_below k l).
Proof using Htrans Htotal.
  revert l. induction k as [|k IH]; intros l Hh; [done|]. simpl.
  rewrite <- (length_down (length l) l k (length l)) at 1. apply IH. rewrite length_down.
  apply down_heap; [|done|done|lia]. split; intros p c Hc; unfold child in *; [|lia].
  intros Hp Hcn Hne. apply Hh; [done|lia|done].
Qed.

Lemma heap_Init_heap l : heap 0 (length l) (heap_Init l).
Proof using Htrans Htotal.
  apply init_below_heap. intros p c Hc Hp Hcn. unfold child in Hc.
  pose proof (Nat.div_mod (length l) 2 ltac:(lia)).
  pose proof (Nat.mod_upper_bound (length l) 2 ltac:(lia)). lia.
Qed.
End heap.
