(* ===== verification/Queue.v ===== *)
(** * The download queue (internal/download/manager.go)

    The manager's in-memory queue: a heap of entries, the pending and active
    sets, the per-job controls and the queue pause.  Every critical section of
    the code is a function on the [Manager] record; a step relation
    interleaves them with the dispatcher goroutine, the job goroutines and
    the callers.  What a job does while it runs is left open here. *)

From Stdlib Require Import ZArith Lia Sorted.
From stdpp Require Import base list gmap strings sets.
From S2P Require Import Prelude Heap.

(** ** State *)

Record queueItem := mkItem { qi_job : string; qi_priority : Z; qi_sequence : Z }.

(** [jobQueue.Less]: larger priorities first, then the enqueue order. *)
Definition jobQueue_Less (left right : queueItem) : bool :=
  if negb (qi_priority left =? qi_priority right) then qi_priority right <? qi_priority left
  else qi_sequence left <? qi_sequence right.

Record jobControl := mkControl {
  ct_cancelled : bool;
  pauseRequested : bool;
  queuePauseRequested : bool;
  cancelRequested : bool;
  deletePartialFiles : bool }.

(** The fields of [Manager] that [mu] guards.  [m_ctx] is [None] before
    [Start] and then tells whether the context is cancelled; [m_wake] is the
    channel [queueWake], which holds at most one token. *)
Record Manager := mkManager {
  m_started : bool;
  m_closed : bool;
  m_ctx : option bool;
  m_queue : list queueItem;
  m_wake : option bool;
  m_pending : gset string;
  m_active : gset string;
  m_controls : gmap string jobControl;
  m_pendingPrio : gmap string Z;
  m_pendingSeq : gmap string Z;
  m_queuePaused : bool;
  m_queuePausedIDs : gset string;
  m_sequence : Z;
  m_maxActiveFiles : nat }.

#[export] Instance jobControl_eta : Eta jobControl := λ c,
  mkControl (ct_cancelled c) (pauseRequested c) (queuePauseRequested c) (cancelRequested c)
    (deletePartialFiles c).
#[export] Instance Manager_eta : Eta Manager := λ m,
  mkManager (m_started m) (m_closed m) (m_ctx m) (m_queue m) (m_wake m) (m_pending m)
    (m_active m) (m_controls m) (m_pendingPrio m) (m_pendingSeq m) (m_queuePaused m)
    (m_queuePausedIDs m) (m_sequence m) (m_maxActiveFiles m).

Definition maxQueuedJobs : nat := 128.

Definition empty_manager (maxActiveFiles : nat) : Manager :=
  mkManager false false None [] None ∅ ∅ ∅ ∅ ∅ false ∅ 0 maxActiveFiles.

(** ** Critical sections *)

(** [m.sequence++] on a uint64. *)
Definition next_sequence (m : Manager) : Z := (m_sequence m + 1) `mod` 2 ^ 64.

Definition signalLocked (m : Manager) : Manager :=
  match m_wake m with None => m | Some _ => m <| m_wake := Some true |> end.

(** An entry is current while its job still waits with that sequence. *)
Definition current_item (m : Manager) (item : queueItem) : bool :=
  bool_decide (m_pendingSeq m !! qi_job item = Some (qi_sequence item)).

Definition compactQueueLocked (m : Manager) : Manager :=
  if (length (m_queue m) <=? maxQueuedJobs * 2)%nat then m
  else m <| m_queue := heap_Init jobQueue_Less (filter (λ i, current_item m i = true) (m_queue m)) |>.

Definition push_item (jobID : string) (priority sequence : Z) (m : Manager) : Manager :=
  m <| m_queue := heap_Push jobQueue_Less (m_queue m) (mkItem jobID priority sequence) |>.

Definition pushPendingLocked (jobID : string) (priority : Z) (m : Manager) : Manager :=
  let m := m <| m_sequence := next_sequence m |> in
  let m := m <| m_pendingPrio := <[jobID := priority]> (m_pendingPrio m) |>
             <| m_pendingSeq := <[jobID := m_sequence m]> (m_pendingSeq m) |> in
  compactQueueLocked (push_item jobID priority (m_sequence m) m).

(** The order in which the map is ranged over is the caller's. *)
Definition promotePendingLocked (order : list string) (m : Manager) : Manager :=
  let m := foldl (λ m jobID,
    push_item jobID (default 0 (m_pendingPrio m !! jobID)) (default 0 (m_pendingSeq m !! jobID)) m)
    m order in
  if bool_decide (m_pending m = ∅) then m else signalLocked m.

Inductive enqueue_outcome := Enqueued | AlreadyThere | QueueFull | ManagerClosed.

(** [StartJobWithPriority] once the job's row and roots are checked. *)
Definition start_job_locked (jobID : string) (priority : Z) (m : Manager)
    : Manager * enqueue_outcome :=
  if m_closed m then (m, ManagerClosed)
  else if bool_decide (jobID ∈ m_pending m) || bool_decide (jobID ∈ m_active m)
  then (m, AlreadyThere)
  else if (maxQueuedJobs <=? size (m_pending m))%nat then (m, QueueFull)
  else
    let m := m <| m_pending := {[jobID]} ∪ m_pending m |>
               <| m_pendingPrio := <[jobID := priority]> (m_pendingPrio m) |>
               <| m_sequence := next_sequence m |> in
    let m := m <| m_pendingSeq := <[jobID := m_sequence m]> (m_pendingSeq m) |> in
    (if m_started m
     then signalLocked (compactQueueLocked (push_item jobID priority (m_sequence m) m))
     else m, Enqueued).

(** The three deletions that take a job out of the pending set. *)
Definition drop_pending (jobID : string) (m : Manager) : Manager :=
  m <| m_pending := m_pending m ∖ {[jobID]} |>
    <| m_pendingPrio := delete jobID (m_pendingPrio m) |>
    <| m_pendingSeq := delete jobID (m_pendingSeq m) |>.

Definition fresh_control : jobControl := mkControl false false false false false.

(** One round of [launchQueuedJobs]: [None] when it returns, otherwise the
    job it started, or no job when the entry was stale. *)
Definition launch_one (m : Manager) : option (Manager * option string) :=
  if m_queuePaused m || (m_maxActiveFiles m <=? size (m_active m))%nat then None
  else match heap_Pop jobQueue_Less (m_queue m) with
  | None => None
  | Some (item, queue) =>
    let m := m <| m_queue := queue |> in
    if current_item m item then
      let m := drop_pending (qi_job item) m in
      Some (m <| m_active := {[qi_job item]} ∪ m_active m |>
              <| m_controls := <[qi_job item := fresh_control]> (m_controls m) |>,
            Some (qi_job item))
    else Some (m, None)
  end.

Definition map_controls (f : jobControl → jobControl) (m : Manager) : Manager :=
  m <| m_controls := f <$> m_controls m |>.
Definition alter_control (jobID : string) (f : jobControl → jobControl) (m : Manager) : Manager :=
  m <| m_controls := alter f jobID (m_controls m) |>.

Definition stopActiveJobs (m : Manager) : Manager :=
  map_controls (λ c, c <| ct_cancelled := true |>) m.

(** Both delete every controlled job; [finishShutdown] also closes each
    control's [done]. *)
Definition finishShutdown (m : Manager) : Manager :=
  m <| m_active := m_active m ∖ dom (m_controls m) |> <| m_controls := ∅ |>.

(** The first critical section of [finishJob]: whether a cancellation was
    asked for, with its files, and whether the job goes back to the queue. *)
Definition finish_first (jobID : string) (m : Manager) : option (Manager * (bool * bool * bool)) :=
  match m_controls m !! jobID with
  | None => None
  | Some c =>
    let queued := queuePauseRequested c && negb (cancelRequested c) && negb (pauseRequested c) in
    Some (if queued && m_queuePaused m
          then m <| m_queuePausedIDs := {[jobID]} ∪ m_queuePausedIDs m |> else m,
          (cancelRequested c, deletePartialFiles c, queued && negb (m_queuePaused m)))
  end.

(** The second one, after the cancellation was persisted. *)
Definition finish_second (jobID : string) (requeue : bool) (m : Manager) : Manager :=
  let m := m <| m_active := m_active m ∖ {[jobID]} |>
             <| m_controls := delete jobID (m_controls m) |> in
  let m := if requeue
           then pushPendingLocked jobID 0 (m <| m_pending := {[jobID]} ∪ m_pending m |>)
           else m in
  signalLocked m.

Inductive run_outcome := RunClosed | RunActive | RunPending | RunFull.

(** [RunJob] before and after [runJob]. *)
Definition run_job_begin (jobID : string) (m : Manager) : result run_outcome Manager :=
  if m_closed m then Err RunClosed
  else if bool_decide (jobID ∈ m_active m) then Err RunActive
  else if bool_decide (jobID ∈ m_pending m) then Err RunPending
  else if (m_maxActiveFiles m <=? size (m_active m))%nat then Err RunFull
  else Ok (m <| m_active := {[jobID]} ∪ m_active m |>).
Definition run_job_end (jobID : string) (m : Manager) : Manager :=
  signalLocked (m <| m_active := m_active m ∖ {[jobID]} |>).

(** [PauseJob]'s critical section; [true] when a running job was told to
    stop and the caller waits for it. *)
Definition pause_job_locked (jobID : string) (m : Manager) : Manager * bool :=
  let m := m <| m_queuePausedIDs := m_queuePausedIDs m ∖ {[jobID]} |> in
  match m_controls m !! jobID with
  | Some _ =>
    (alter_control jobID (λ c, c <| pauseRequested := true |> <| ct_cancelled := true |>) m, true)
  | None => (compactQueueLocked (drop_pending jobID m), false)
  end.

(** [CancelJob]'s. *)
Definition cancel_job_locked (jobID : string) (deleteFiles : bool) (m : Manager) : Manager * bool :=
  match m_controls m !! jobID with
  | Some _ =>
    (alter_control jobID (λ c, c <| cancelRequested := true |>
       <| deletePartialFiles := deleteFiles |> <| ct_cancelled := true |>) m, true)
  | None => (drop_pending jobID m, false)
  end.

(** [DeleteJob]'s, for a job that is not active. *)
Definition delete_job_locked (jobID : string) (m : Manager) : Manager :=
  compactQueueLocked (drop_pending jobID m).

Definition PauseQueue (m : Manager) : Manager :=
  signalLocked (map_controls (λ c, c <| queuePauseRequested := true |> <| ct_cancelled := true |>)
    (m <| m_queuePaused := true |>)).

Definition resume_one (m : Manager) (jobID : string) : Manager :=
  let m := if bool_decide (jobID ∈ m_active m) || bool_decide (jobID ∈ m_pending m) then m
           else pushPendingLocked jobID 0 (m <| m_pending := {[jobID]} ∪ m_pending m |>) in
  m <| m_queuePausedIDs := m_queuePausedIDs m ∖ {[jobID]} |>.

Definition ResumeQueue (order : list string) (m : Manager) : Manager :=
  signalLocked (foldl resume_one (m <| m_queuePaused := false |>) order).

(** [Start]'s critical section, and its retreat when recovery fails. *)
Definition start_locked (m : Manager) : option Manager :=
  if m_closed m || m_started m then None
  else Some (m <| m_ctx := Some false |> <| m_wake := Some false |> <| m_started := true |>).
Definition start_failed (m : Manager) : Manager :=
  m <| m_ctx := Some true |> <| m_started := false |>.

(** ** The system *)

(** Where [Start] is: not called, between its critical section and the
    promotion of earlier requests, or past it. *)
Inductive startup := NotStarted | Starting | Promoted.

(** Where the goroutine of [runQueue] is: not running, at the top of its
    loop, launching, in its select, between the two critical sections of
    [finishJob], stopping, or gone. *)
Inductive dispatcher :=
| DNone | DTop | DLaunching | DWaiting
| DFinishing (jobID : string) (requeue : bool)
| DStopping | DGone.

Record System := mkSystem {
  mgr : Manager;
  s_startup : startup;
  s_dispatcher : dispatcher;
  running : gset string;      (** launched jobs that are inside [runJob] *)
  direct : gset string;       (** callers inside [RunJob] *)
  jobResults : list string }. (** the channel of the same name *)

#[export] Instance System_eta : Eta System := λ s,
  mkSystem (mgr s) (s_startup s) (s_dispatcher s) (running s) (direct s) (jobResults s).

(** What a step does to the queue, as its callers and the job goroutines see
    it; [Silent] steps are about the dispatcher's own progress. *)
Inductive qevent :=
| Silent
| Requested (jobID : string) (priority : Z) (outcome : enqueue_outcome)
| Launched (jobID : string)
| Decided (jobID : string)            (** first critical section of [finishJob] *)
| Left (jobID : string)               (** the second one *)
| RunBegun (jobID : string) | RunEnded (jobID : string)
| UserPaused (jobID : string) | UserCancelled (jobID : string)
| UserDeleted (jobID : string)
| QueuePaused | QueueResumed (order : list string)
| Closing | ShutDown.

(** The dispatcher's own steps. *)
Inductive dispatch : qevent → System → System → Prop :=
| d_top s : s_dispatcher s = DTop → m_ctx (mgr s) = Some false →
    dispatch Silent s (s <| s_dispatcher := DLaunching |>)
| d_launch s m job : s_dispatcher s = DLaunching → launch_one (mgr s) = Some (m, job) →
    dispatch (match job with Some id => Launched id | None => Silent end) s (s <| mgr := m |>
      <| running := match job with Some id => {[id]} ∪ running s | None => running s end |>)
| d_blocked s : s_dispatcher s = DLaunching → launch_one (mgr s) = None →
    dispatch Silent s (s <| s_dispatcher := DWaiting |>)
| d_wake s : s_dispatcher s = DWaiting → m_wake (mgr s) = Some true →
    dispatch Silent s (s <| mgr := mgr s <| m_wake := Some false |> |> <| s_dispatcher := DTop |>)
| d_result s id rest m cancel delete requeue :
    s_dispatcher s = DWaiting → jobResults s = id :: rest →
    finish_first id (mgr s) = Some (m, (cancel, delete, requeue)) →
    dispatch (Decided id) s (s <| mgr := m |> <| jobResults := rest |> <| s_dispatcher := DFinishing id requeue |>)
| d_unknown s id rest : s_dispatcher s = DWaiting → jobResults s = id :: rest →
    finish_first id (mgr s) = None →
    dispatch Silent s (s <| jobResults := rest |> <| s_dispatcher := DTop |>)
| d_finish s id requeue : s_dispatcher s = DFinishing id requeue →
    m_sequence (mgr s) + 1 < 2 ^ 64 →
    dispatch (Left id) s (s <| mgr := finish_second id requeue (mgr s) |> <| s_dispatcher := DTop |>)
| d_stop s : s_dispatcher s = DTop ∨ s_dispatcher s = DWaiting → m_ctx (mgr s) = Some true →
    dispatch Silent s (s <| mgr := stopActiveJobs (mgr s) |> <| s_dispatcher := DStopping |>)
| d_gone s : s_dispatcher s = DStopping → running s = ∅ →
    dispatch ShutDown s (s <| mgr := finishShutdown (mgr s) |> <| s_dispatcher := DGone |>).

(** Everything else that happens.  The first 2^64 - 1 enqueues are covered:
    the counter does not wrap before. *)
Inductive client : qevent → System → System → Prop :=
| c_start_begin s m : s_startup s = NotStarted → start_locked (mgr s) = Some m →
    client Silent s (s <| mgr := m |> <| s_startup := Starting |> <| jobResults := [] |>)
| c_start_failed s : s_startup s = Starting → s_dispatcher s = DNone →
    client Silent s (s <| mgr := start_failed (mgr s) |> <| s_startup := NotStarted |>)
| c_start_go s : s_startup s = Starting → s_dispatcher s = DNone →
    client Silent s (s <| s_dispatcher := DTop |>)
| c_promote s order : s_startup s = Starting → s_dispatcher s ≠ DNone →
    order ≡ₚ elements (m_pending (mgr s)) →
    client Silent s (s <| mgr := promotePendingLocked order (mgr s) |> <| s_startup := Promoted |>)
| c_enqueue s id priority m outcome : m_sequence (mgr s) + 1 < 2 ^ 64 →
    start_job_locked id priority (mgr s) = (m, outcome) →
    client (Requested id priority outcome) s (s <| mgr := m |>)
| c_returned s id : id ∈ running s →
    client Silent s (s <| running := running s ∖ {[id]} |> <| jobResults := jobResults s ++ [id] |>)
| c_run_begin s id m : run_job_begin id (mgr s) = Ok m →
    client (RunBegun id) s (s <| mgr := m |> <| direct := {[id]} ∪ direct s |>)
| c_run_end s id : id ∈ direct s →
    client (RunEnded id) s (s <| mgr := run_job_end id (mgr s) |> <| direct := direct s ∖ {[id]} |>)
| c_pause s id m b : pause_job_locked id (mgr s) = (m, b) → client (UserPaused id) s (s <| mgr := m |>)
| c_cancel s id delete m b : cancel_job_locked id delete (mgr s) = (m, b) →
    client (UserCancelled id) s (s <| mgr := m |>)
| c_delete s id : client (UserDeleted id) s (s <| mgr := delete_job_locked id (mgr s) |>)
| c_pause_queue s : client QueuePaused s (s <| mgr := PauseQueue (mgr s) |>)
| c_resume_queue s order : order ≡ₚ elements (m_queuePausedIDs (mgr s)) →
    m_sequence (mgr s) + Z.of_nat (length order) < 2 ^ 64 →
    client (QueueResumed order) s (s <| mgr := ResumeQueue order (mgr s) |>)
| c_close s : client Closing s (s <| mgr := mgr s <| m_closed := true |> |>)
| c_ctx_cancelled s : m_ctx (mgr s) = Some false →
    client Silent s (s <| mgr := mgr s <| m_ctx := Some true |> |>).

Definition event_step (e : qevent) (s s' : System) : Prop := dispatch e s s' ∨ client e s s'.
Definition qstep (s s' : System) : Prop := ∃ e, event_step e s s'.

(** The steps the dispatcher takes on its own. *)
Definition dispatches (s s' : System) : Prop := ∃ e, dispatch e s s'.

Definition idle (maxActiveFiles : nat) : System :=
  mkSystem (empty_manager maxActiveFiles) NotStarted DNone ∅ ∅ [].

(** ** The heap order of the queue *)

Definition item_le (x y : queueItem) : Prop := jobQueue_Less y x = false.

Lemma item_le_spec x y :
  item_le x y ↔ qi_priority y < qi_priority x ∨
    (qi_priority x = qi_priority y ∧ qi_sequence x ≤ qi_sequence y).
Proof.
  unfold item_le, jobQueue_Less. destruct (Z.eqb_spec (qi_priority y) (qi_priority x)); simpl.
  - rewrite Z.ltb_ge. lia.
  - rewrite Z.ltb_ge. lia.
Qed.

Lemma item_le_trans x y z : item_le x y → item_le y z → item_le x z.
Proof. rewrite !item_le_spec. lia. Qed.

Lemma item_le_total x y : jobQueue_Less x y = true → item_le x y.
Proof.
  intros H. destruct (jobQueue_Less y x) eqn:E; [|done]. exfalso. revert H E.
  unfold jobQueue_Less. rewrite (Z.eqb_sym (qi_priority y)).
  destruct (Z.eqb_spec (qi_priority x) (qi_priority y)); simpl; rewrite !Z.ltb_lt; lia.
Qed.

Abbreviation queue_heap q := (heap jobQueue_Less 0 (length q) q).

Lemma queue_Push q x : queue_heap q → queue_heap (heap_Push jobQueue_Less q x).
Proof.
  intros H. rewrite (Permutation_length (heap_Push_perm jobQueue_Less q x)).
  apply heap_Push_heap; [exact item_le_trans|exact item_le_total|done].
Qed.

Lemma queue_Init q : queue_heap (heap_Init jobQueue_Less q).
Proof.
  rewrite (Permutation_length (heap_Init_perm jobQueue_Less q)).
  apply heap_Init_heap; [exact item_le_trans|exact item_le_total].
Qed.

Lemma queue_Pop q :
  queue_heap q → q ≠ [] →
  ∃ x q', heap_Pop jobQueue_Less q = Some (x, q') ∧ q ≡ₚ x :: q' ∧ queue_heap q' ∧
    ∀ y, y ∈ q → y = x ∨ item_le x y.
Proof. apply heap_Pop_spec; [exact item_le_trans|exact item_le_total]. Qed.

Lemma queue_Pop_nil : heap_Pop jobQueue_Less [] = None.
Proof. done. Qed.

(** ** The manager's invariant *)

Record mgr_inv (m : Manager) : Prop := {
  mi_active : (size (m_active m) ≤ m_maxActiveFiles m)%nat;
  mi_disjoint : m_pending m ## m_active m;
  mi_prio : dom (m_pendingPrio m) = m_pending m;
  mi_seq : dom (m_pendingSeq m) = m_pending m;
  mi_sequence : 0 ≤ m_sequence m;
  mi_seq_le id s : m_pendingSeq m !! id = Some s → s ≤ m_sequence m;
  mi_seq_inj id id' s : m_pendingSeq m !! id = Some s → m_pendingSeq m !! id' = Some s → id = id';
  mi_items item : item ∈ m_queue m → qi_sequence item ≤ m_sequence m;
  mi_item_prio item : item ∈ m_queue m →
    m_pendingSeq m !! qi_job item = Some (qi_sequence item) →
    m_pendingPrio m !! qi_job item = Some (qi_priority item);
  mi_heap : queue_heap (m_queue m);
  mi_controls : dom (m_controls m) ⊆ m_active m;
  mi_paused : m_queuePaused m = false → m_queuePausedIDs m = ∅;
  mi_held : (size (m_queuePausedIDs m ∪ dom (m_controls m)) ≤ m_maxActiveFiles m)%nat;
  mi_bound : (size (m_pending m ∪ (m_queuePausedIDs m ∪ dom (m_controls m)))
              ≤ maxQueuedJobs + m_maxActiveFiles m)%nat }.

(** Every waiting job has its entry in the heap. *)
Definition live_items (m : Manager) : Prop :=
  ∀ id p s, m_pendingPrio m !! id = Some p → m_pendingSeq m !! id = Some s →
    mkItem id p s ∈ m_queue m.

Lemma mgr_inv_queue m q :
  mgr_inv m → queue_heap q →
  (∀ i, i ∈ q → i ∈ m_queue m ∨ (m_pendingSeq m !! qi_job i = Some (qi_sequence i) ∧
    m_pendingPrio m !! qi_job i = Some (qi_priority i))) →
  mgr_inv (m <| m_queue := q |>).
Proof.
  intros [] Hq Hi. split; simpl; try done.
  - intros i Hin. destruct (Hi i Hin) as [|[]]; eauto.
  - intros i Hin Hs. destruct (Hi i Hin) as [|[]]; eauto.
Qed.

Lemma push_item_inv m id p s :
  mgr_inv m → m_pendingSeq m !! id = Some s → m_pendingPrio m !! id = Some p →
  mgr_inv (push_item id p s m).
Proof.
  intros Hm Hs Hp. apply mgr_inv_queue; [done|by apply queue_Push, Hm|].
  intros i. rewrite heap_Push_perm, elem_of_cons. intros [->|Hi]; [by right|by left].
Qed.

Lemma compact_items m i :
  i ∈ m_queue (compactQueueLocked m) → i ∈ m_queue m.
Proof.
  unfold compactQueueLocked. destruct (_ <=? _)%nat; [done|]. simpl.
  rewrite heap_Init_perm, list_elem_of_filter. by intros [_ ?].
Qed.

Lemma compact_inv m : mgr_inv m → mgr_inv (compactQueueLocked m).
Proof.
  intros Hm. pose proof (compact_items m) as Hi. unfold compactQueueLocked in *.
  destruct (_ <=? _)%nat; [done|]. apply mgr_inv_queue; [done|apply queue_Init|auto].
Qed.

Lemma compact_live m : live_items m → live_items (compactQueueLocked m).
Proof.
  intros Hl. unfold compactQueueLocked. destruct (_ <=? _)%nat; [done|].
  intros id p s Hp Hs. simpl in *. rewrite heap_Init_perm. apply list_elem_of_filter.
  split; [|by apply Hl]. unfold current_item. simpl. by apply bool_decide_eq_true.
Qed.

Lemma signal_inv m : mgr_inv m → mgr_inv (signalLocked m).
Proof. intros []. unfold signalLocked. destruct (m_wake m); by split. Qed.

Lemma signal_live m : live_items m → live_items (signalLocked m).
Proof. unfold signalLocked. by destruct (m_wake m). Qed.

(** What adding a job to the pending set does, but for the heap. *)
Definition join_pending (jobID : string) (priority : Z) (m : Manager) : Manager :=
  m <| m_pending := {[jobID]} ∪ m_pending m |> <| m_sequence := next_sequence m |>
    <| m_pendingPrio := <[jobID := priority]> (m_pendingPrio m) |>
    <| m_pendingSeq := <[jobID := next_sequence m]> (m_pendingSeq m) |>.

Definition requeue_job (jobID : string) (priority : Z) (m : Manager) : Manager :=
  compactQueueLocked (push_item jobID priority (next_sequence m) (join_pending jobID priority m)).

Lemma pushPending_join jobID priority m :
  pushPendingLocked jobID priority (m <| m_pending := {[jobID]} ∪ m_pending m |>)
  = requeue_job jobID priority m.
Proof. done. Qed.

Lemma next_sequence_succ m :
  0 ≤ m_sequence m → m_sequence m + 1 < 2 ^ 64 → next_sequence m = m_sequence m + 1.
Proof. intros. unfold next_sequence. apply Z.mod_small. lia. Qed.

Lemma join_inv m id p :
  mgr_inv m → m_sequence m + 1 < 2 ^ 64 → id ∉ m_pending m → id ∉ m_active m →
  (size ({[id]} ∪ m_pending m ∪ (m_queuePausedIDs m ∪ dom (m_controls m)))
   ≤ maxQueuedJobs + m_maxActiveFiles m)%nat →
  mgr_inv (join_pending id p m).
Proof.
  intros [] Hroom Hnp Hna Hsz. pose proof (next_sequence_succ m ltac:(done) Hroom) as Hn.
  assert (m_pendingSeq m !! id = None) as Hnone by (apply not_elem_of_dom; congruence).
  split; simpl; rewrite ?Hn; try done.
  - set_solver.
  - rewrite dom_insert_L. by rewrite mi_prio0.
  - rewrite dom_insert_L. by rewrite mi_seq0.
  - lia.
  - intros i s [[<- <-]|[_ Hs]]%lookup_insert_Some; [lia|]. apply mi_seq_le0 in Hs. lia.
  - intros i i' s [[<- <-]|[Hne Hs]]%lookup_insert_Some [[<- Heq]|[Hne' Hs']]%lookup_insert_Some;
      [done| | |by eapply mi_seq_inj0].
    + apply mi_seq_le0 in Hs'. lia.
    + subst. apply mi_seq_le0 in Hs. lia.
  - intros i Hi. apply mi_items0 in Hi. lia.
  - intros i Hi. destruct (decide (qi_job i = id)) as [->|Hne].
    + rewrite lookup_insert_eq. intros [= Hs]. apply mi_items0 in Hi. lia.
    + rewrite !lookup_insert_ne by done. by apply mi_item_prio0.
Qed.

Lemma requeue_inv m id p :
  mgr_inv m → m_sequence m + 1 < 2 ^ 64 → id ∉ m_pending m → id ∉ m_active m →
  (size ({[id]} ∪ m_pending m ∪ (m_queuePausedIDs m ∪ dom (m_controls m)))
   ≤ maxQueuedJobs + m_maxActiveFiles m)%nat →
  mgr_inv (requeue_job id p m).
Proof.
  intros Hm Hroom Hnp Hna Hsz. apply compact_inv, push_item_inv; [by apply join_inv|..];
    simpl; apply lookup_insert_eq.
Qed.

Lemma requeue_live m id p : live_items m → live_items (requeue_job id p m).
Proof.
  intros Hl. apply compact_live. intros i q s. simpl. rewrite heap_Push_perm, elem_of_cons.
  intros [[<- <-]|[? Hq]]%lookup_insert_Some [[? <-]|[? Hs]]%lookup_insert_Some; try done; auto.
Qed.

Lemma drop_inv m id : mgr_inv m → mgr_inv (drop_pending id m).
Proof.
  intros []. split; simpl; try done.
  - set_solver.
  - by rewrite dom_delete_L, mi_prio0.
  - by rewrite dom_delete_L, mi_seq0.
  - intros i s [_ Hs]%lookup_delete_Some. by eapply mi_seq_le0.
  - intros i i' s [_ Hs]%lookup_delete_Some [_ Hs']%lookup_delete_Some. by eapply mi_seq_inj0.
  - intros i Hi [Hne Hs]%lookup_delete_Some. rewrite lookup_delete_ne by done. by apply mi_item_prio0.
  - etrans; [|exact mi_bound0]. apply subseteq_size. set_solver.
Qed.

Lemma drop_live m id : live_items m → live_items (drop_pending id m).
Proof.
  intros Hl i p s. simpl. intros [_ Hp]%lookup_delete_Some [_ Hs]%lookup_delete_Some. by apply Hl.
Qed.

(** What a round of [launchQueuedJobs] does. *)
Lemma launch_one_spec m m' job :
  mgr_inv m → launch_one m = Some (m', job) →
  m_queuePaused m = false ∧ (size (m_active m) < m_maxActiveFiles m)%nat ∧
  ∃ item queue, m_queue m ≡ₚ item :: queue ∧ queue_heap queue ∧
    (∀ i, i ∈ m_queue m → i = item ∨ item_le item i) ∧
    match job with
    | None => current_item m item = false ∧ m' = m <| m_queue := queue |>
    | Some id => current_item m item = true ∧ id = qi_job item ∧
      m' = drop_pending id (m <| m_queue := queue |>) <| m_active := {[id]} ∪ m_active m |>
             <| m_controls := <[id := fresh_control]> (m_controls m) |>
    end.
Proof.
  intros Hm. unfold launch_one. destruct (m_queuePaused m); [done|]. simpl.
  destruct (Nat.leb_spec (m_maxActiveFiles m) (size (m_active m))); [done|].
  destruct (decide (m_queue m = [])) as [->|Hne]; [by rewrite queue_Pop_nil|].
  destruct (queue_Pop (m_queue m) (mi_heap _ Hm) Hne) as (x&q&->&Hperm&Hh&Hmin).
  intros Heq. split; [done|]. split; [lia|]. exists x, q. split_and!; [done..|].
  destruct (current_item (m <| m_queue := q |>) x) eqn:Hc; by simplify_eq/=.
Qed.

Lemma launch_one_none m :
  mgr_inv m → launch_one m = None →
  m_queuePaused m = true ∨ (m_maxActiveFiles m ≤ size (m_active m))%nat ∨ m_queue m = [].
Proof.
  intros Hm. unfold launch_one. destruct (m_queuePaused m); [by left|]. simpl.
  destruct (Nat.leb_spec (m_maxActiveFiles m) (size (m_active m))); [by auto|].
  destruct (decide (m_queue m = [])) as [->|Hne]; [by auto|].
  destruct (queue_Pop (m_queue m) (mi_heap _ Hm) Hne) as (x&q&->&_).
  by destruct (current_item _ _).
Qed.

Lemma size_add (X : gset string) x n : (size X < n)%nat → (size ({[x]} ∪ X) ≤ n)%nat.
Proof.
  intros. rewrite size_union_alt, size_singleton.
  pose proof (subseteq_size (X ∖ {[x]}) X ltac:(set_solver)). lia.
Qed.

(** The sets before and after a launch. *)
Lemma launch_sets (P H C : gset string) x :
  x ∈ P → P ∖ {[x]} ∪ (H ∪ ({[x]} ∪ C)) ⊆ P ∪ (H ∪ C).
Proof. set_solver. Qed.

Lemma launch_disjoint (P A C : gset string) x :
  P ## A → C ⊆ A → P ∖ {[x]} ## {[x]} ∪ A ∧ {[x]} ∪ C ⊆ {[x]} ∪ A.
Proof. set_solver. Qed.

Lemma launch_inv m m' job : mgr_inv m → launch_one m = Some (m', job) → mgr_inv m'.
Proof.
  intros Hm Hl. destruct (launch_one_spec m m' job Hm Hl) as (Hp&Hsz&item&q&Hperm&Hh&_&Hjob).
  assert (mgr_inv (m <| m_queue := q |>)) as Hmq.
  { apply mgr_inv_queue; [done|done|]. intros i Hi. left. rewrite Hperm. by right. }
  destruct job as [id|]; [|by destruct Hjob as [_ ->]].
  destruct Hjob as (Hc&->&->). set (id := qi_job item) in *.
  unfold current_item in Hc. apply bool_decide_eq_true in Hc.
  assert (id ∈ m_pending m) as Hid by (rewrite <- (mi_seq _ Hm); by apply elem_of_dom).
  pose proof (mi_paused _ Hm Hp) as Hnone.
  destruct (launch_disjoint _ _ _ id (mi_disjoint _ Hm) (mi_controls _ Hm)) as [Hdis Hsub].
  pose proof (mi_bound _ Hm) as Hb. pose proof (launch_sets _ (m_queuePausedIDs m) (dom (m_controls m)) id Hid) as Hs.
  apply (size_add _ id) in Hsz. apply subseteq_size in Hs.
  destruct (drop_inv _ id Hmq). split; simpl in *; rewrite ?dom_insert_L; try done.
  - rewrite Hnone, (left_id_L ∅ (∪)). etrans; [by apply subseteq_size|done].
  - lia.
Qed.

Lemma launch_live m m' job :
  mgr_inv m → live_items m → launch_one m = Some (m', job) → live_items m'.
Proof.
  intros Hm Hlive Hl. destruct (launch_one_spec m m' job Hm Hl) as (_&_&item&q&Hperm&_&_&Hjob).
  assert (∀ id p s, m_pendingPrio m !! id = Some p → m_pendingSeq m !! id = Some s →
    (current_item m item = true → id ≠ qi_job item) → mkItem id p s ∈ q) as Hq.
  { intros id p s Hp Hs Hne. pose proof (Hlive id p s Hp Hs) as Hin. rewrite Hperm in Hin.
    apply elem_of_cons in Hin as [<-|Hin]; [|done]. destruct Hne; [|done].
    by apply bool_decide_eq_true. }
  destruct job as [id|].
  - destruct Hjob as (_&->&->). intros i p s. simpl.
    intros [Hne Hp]%lookup_delete_Some [_ Hs]%lookup_delete_Some. by apply Hq; [..|congruence].
  - destruct Hjob as (Hc&->). intros i p s Hp Hs. apply Hq; [done..|]. by rewrite Hc.
Qed.

(** Changes that touch neither the pending jobs nor the heap. *)
Lemma map_controls_inv m f : mgr_inv m → mgr_inv (map_controls f m).
Proof. intros []. split; simpl; rewrite ?dom_fmap_L; done. Qed.

Lemma alter_control_inv m id f : mgr_inv m → mgr_inv (alter_control id f m).
Proof. intros []. split; simpl; rewrite ?dom_alter_L; done. Qed.

Lemma finish_first_inv m id m' c :
  mgr_inv m → finish_first id m = Some (m', c) → mgr_inv m'.
Proof.
  unfold finish_first. intros Hm. destruct (m_controls m !! id) as [ct|] eqn:Hct; [|done].
  intros [= <- _]. destruct (_ && m_queuePaused m) eqn:E; [|done].
  apply andb_true_iff in E as [_ E]. apply elem_of_dom_2 in Hct. destruct Hm.
  assert ({[id]} ∪ m_queuePausedIDs m ∪ dom (m_controls m) = m_queuePausedIDs m ∪ dom (m_controls m)) as Heq
    by set_solver.
  split; simpl; rewrite ?Heq; try done. congruence.
Qed.

Lemma finish_second_inv m id requeue :
  mgr_inv m → m_sequence m + 1 < 2 ^ 64 → id ∈ dom (m_controls m) →
  mgr_inv (finish_second id requeue m).
Proof.
  intros Hm Hroom Hid. unfold finish_second. apply signal_inv.
  set (m1 := m <| m_active := _ |> <| m_controls := _ |>).
  assert (mgr_inv m1) as Hm1.
  { destruct Hm. split; simpl; rewrite ?dom_delete_L; try done.
    - etrans; [|exact mi_active0]. apply subseteq_size. set_solver.
    - set_solver.
    - set_solver.
    - etrans; [|exact mi_held0]. apply subseteq_size. set_solver.
    - etrans; [|exact mi_bound0]. apply subseteq_size. set_solver. }
  destruct requeue; [|done]. cbv zeta. rewrite pushPending_join. apply requeue_inv; try done.
  - simpl. destruct Hm. set_solver.
  - simpl. set_solver.
  - simpl. rewrite dom_delete_L. etrans; [|exact (mi_bound _ Hm)]. apply subseteq_size. set_solver.
Qed.

Lemma finish_second_live m id requeue : live_items m → live_items (finish_second id requeue m).
Proof.
  intros Hl. unfold finish_second. apply signal_live. destruct requeue; [|done].
  cbv zeta. rewrite pushPending_join. by apply requeue_live.
Qed.

Lemma start_job_inv m id p m' outcome :
  mgr_inv m → m_sequence m + 1 < 2 ^ 64 → start_job_locked id p m = (m', outcome) → mgr_inv m'.
Proof.
  intros Hm Hroom. unfold start_job_locked.
  intros H. destruct (m_closed m); [by simplify_eq|].
  destruct (bool_decide (id ∈ m_pending m)) eqn:Hp; [by simplify_eq/=|].
  destruct (bool_decide (id ∈ m_active m)) eqn:Ha; [by simplify_eq/=|]. bool_to_prop.
  destruct (maxQueuedJobs <=? size (m_pending m))%nat eqn:Hsz; [by simplify_eq/=|].
  apply Nat.leb_gt in Hsz. simpl in H. simplify_eq.
  assert (size ({[id]} ∪ m_pending m ∪ (m_queuePausedIDs m ∪ dom (m_controls m)))
          ≤ maxQueuedJobs + m_maxActiveFiles m)%nat as Hb.
  { apply (size_add _ id) in Hsz. pose proof (mi_held _ Hm).
    rewrite size_union_alt. pose proof (subseteq_size
      ((m_queuePausedIDs m ∪ dom (m_controls m)) ∖ ({[id]} ∪ m_pending m))
      (m_queuePausedIDs m ∪ dom (m_controls m)) ltac:(set_solver)). lia. }
  destruct (m_started m).
  - apply signal_inv. by apply (requeue_inv m id p).
  - by apply (join_inv m id p).
Qed.

Lemma start_job_live m id p m' outcome :
  m_started m = true → live_items m → start_job_locked id p m = (m', outcome) → live_items m'.
Proof.
  intros Hst Hl H. unfold start_job_locked in H.
  destruct (m_closed m); [by simplify_eq|]. destruct (_ || _); [by simplify_eq|].
  destruct (_ <=? _)%nat; [by simplify_eq|].
  cbn [m_started update_field] in H. rewrite Hst in H. simplify_eq. apply signal_live. by apply (requeue_live m id p).
Qed.

Lemma run_begin_inv m id m' : mgr_inv m → run_job_begin id m = Ok m' → mgr_inv m'.
Proof.
  intros [] H. unfold run_job_begin in H. destruct (m_closed m); [done|].
  destruct (bool_decide (id ∈ m_active m)) eqn:Ha; [done|].
  destruct (bool_decide (id ∈ m_pending m)) eqn:Hp; [done|]. bool_to_prop.
  destruct (Nat.leb_spec (m_maxActiveFiles m) (size (m_active m))); [done|]. simplify_eq.
  split; simpl; try done; [by apply size_add|set_solver..].
Qed.

Lemma run_end_inv m id : mgr_inv m → id ∉ dom (m_controls m) → mgr_inv (run_job_end id m).
Proof.
  intros [] Hid. apply signal_inv. split; simpl; try done; [|set_solver..].
  etrans; [|exact mi_active0]. apply subseteq_size. set_solver.
Qed.

Lemma pause_inv m id m' b : mgr_inv m → pause_job_locked id m = (m', b) → mgr_inv m'.
Proof.
  intros Hm. unfold pause_job_locked.
  set (m1 := m <| m_queuePausedIDs := m_queuePausedIDs m ∖ {[id]} |>).
  assert (mgr_inv m1) as Hm1.
  { destruct Hm. split; simpl; try done.
    - intros Hp. rewrite mi_paused0 by done. set_solver.
    - etrans; [|exact mi_held0]. apply subseteq_size. set_solver.
    - etrans; [|exact mi_bound0]. apply subseteq_size. set_solver. }
  destruct (m_controls m1 !! id); intros [= <- _]; [by apply alter_control_inv|].
  by apply compact_inv, drop_inv.
Qed.

Lemma cancel_inv m id delete m' b : mgr_inv m → cancel_job_locked id delete m = (m', b) → mgr_inv m'.
Proof.
  intros Hm. unfold cancel_job_locked.
  destruct (m_controls m !! id); intros [= <- _]; [by apply alter_control_inv|by apply drop_inv].
Qed.

Lemma unpause_inv m id :
  mgr_inv m → mgr_inv (m <| m_queuePausedIDs := m_queuePausedIDs m ∖ {[id]} |>).
Proof.
  intros []. split; simpl; try done.
  - intros Hp. rewrite mi_paused0 by done. set_solver.
  - etrans; [|exact mi_held0]. apply subseteq_size. set_solver.
  - etrans; [|exact mi_bound0]. apply subseteq_size. set_solver.
Qed.

Lemma set_paused_inv m b :
  mgr_inv m → (b = false → m_queuePausedIDs m = ∅) → mgr_inv (m <| m_queuePaused := b |>).
Proof. intros [] Hb. by split. Qed.

Lemma resume_one_paused m b id :
  resume_one (m <| m_queuePaused := b |>) id = resume_one m id <| m_queuePaused := b |>.
Proof.
  unfold resume_one. simpl. destruct (_ || _); [done|].
  unfold pushPendingLocked, compactQueueLocked. simpl. by destruct (_ <=? _)%nat.
Qed.

Lemma compact_same m :
  m_pending (compactQueueLocked m) = m_pending m ∧ m_active (compactQueueLocked m) = m_active m ∧
  m_controls (compactQueueLocked m) = m_controls m ∧
  m_queuePausedIDs (compactQueueLocked m) = m_queuePausedIDs m ∧
  m_sequence (compactQueueLocked m) = m_sequence m ∧ m_wake (compactQueueLocked m) = m_wake m ∧
  m_ctx (compactQueueLocked m) = m_ctx m ∧ m_started (compactQueueLocked m) = m_started m ∧
  m_queuePaused (compactQueueLocked m) = m_queuePaused m ∧
  m_maxActiveFiles (compactQueueLocked m) = m_maxActiveFiles m ∧
  m_pendingPrio (compactQueueLocked m) = m_pendingPrio m ∧
  m_pendingSeq (compactQueueLocked m) = m_pendingSeq m.
Proof. unfold compactQueueLocked. by destruct (_ <=? _)%nat. Qed.

Lemma resume_one_spec m id :
  mgr_inv m → id ∈ m_queuePausedIDs m → m_sequence m + 1 < 2 ^ 64 →
  mgr_inv (resume_one m id) ∧
  m_queuePausedIDs (resume_one m id) = m_queuePausedIDs m ∖ {[id]} ∧
  m_sequence (resume_one m id) ≤ m_sequence m + 1 ∧ (live_items m → live_items (resume_one m id)) ∧
  m_active (resume_one m id) = m_active m ∧ m_controls (resume_one m id) = m_controls m ∧
  m_wake (resume_one m id) = m_wake m ∧ m_ctx (resume_one m id) = m_ctx m ∧
  m_started (resume_one m id) = m_started m.
Proof.
  intros Hm Hid Hroom. unfold resume_one.
  destruct (bool_decide (id ∈ m_active m)) eqn:Ha; simpl.
  { split; [by apply unpause_inv|]. split_and!; [done|lia|done..]. }
  destruct (bool_decide (id ∈ m_pending m)) eqn:Hp; simpl.
  { split; [by apply unpause_inv|]. split_and!; [done|lia|done..]. }
  bool_to_prop. rewrite pushPending_join.
  assert (mgr_inv (requeue_job id 0 m)) as Hq.
  { apply requeue_inv; try done. etrans; [|exact (mi_bound _ Hm)]. apply subseteq_size. set_solver. }
  unfold requeue_job in *.
  destruct (compact_same (push_item id 0 (next_sequence m) (join_pending id 0 m)))
    as (_&E2&E3&E4&E5&E6&E7&E8&_).
  split; [by apply unpause_inv|]. rewrite E2, E3, E4, E5, E6, E7, E8. simpl.
  pose proof (next_sequence_succ m (mi_sequence _ Hm) Hroom).
  split_and!; try done; [lia|]. intros Hl. by apply (requeue_live m id 0).
Qed.

Lemma resume_all m order :
  mgr_inv m → NoDup order → (∀ id, id ∈ order → id ∈ m_queuePausedIDs m) →
  m_sequence m + Z.of_nat (length order) < 2 ^ 64 →
  let m' := foldl resume_one m order in
  mgr_inv m' ∧ m_queuePausedIDs m' = m_queuePausedIDs m ∖ list_to_set order ∧
  (live_items m → live_items m') ∧
  m_active m' = m_active m ∧ m_controls m' = m_controls m ∧ m_wake m' = m_wake m ∧
  m_ctx m' = m_ctx m ∧ m_started m' = m_started m.
Proof.
  revert m. induction order as [|id order IH]; intros m Hm Hnd Hin Hroom; simpl.
  { split_and!; try done. set_solver. }
  apply NoDup_cons in Hnd as [Hni Hnd]. cbn [length] in Hroom.
  destruct (resume_one_spec m id Hm (Hin id ltac:(left)) ltac:(lia))
    as (H1&H2&H3&H4&H5&H6&H7&H8&H9).
  destruct (IH (resume_one m id) H1 Hnd) as (G1&G2&G3&G4&G5&G6&G7&G8).
  { intros i Hi. rewrite H2. apply elem_of_difference.
    split; [apply Hin; by right|]. rewrite elem_of_singleton. by intros ->. }
  { lia. }
  split; [done|]. split; [by rewrite G2, H2, difference_difference_l_L|].
  split; [auto|]. split_and!; congruence.
Qed.

Lemma resume_fold_paused m b order :
  foldl resume_one (m <| m_queuePaused := b |>) order =
  foldl resume_one m order <| m_queuePaused := b |>.
Proof.
  revert m. induction order as [|id order IH]; intros m; [done|]. simpl.
  by rewrite resume_one_paused, IH.
Qed.

Lemma ResumeQueue_spec m order :
  mgr_inv m → order ≡ₚ elements (m_queuePausedIDs m) →
  m_sequence m + Z.of_nat (length order) < 2 ^ 64 →
  let m' := ResumeQueue order m in
  mgr_inv m' ∧ (live_items m → live_items m') ∧
  m_active m' = m_active m ∧ m_controls m' = m_controls m ∧
  m_wake m' = (λ _, true) <$> m_wake m ∧ m_ctx m' = m_ctx m ∧ m_started m' = m_started m.
Proof.
  intros Hm Ho Hroom. unfold ResumeQueue. rewrite resume_fold_paused.
  destruct (resume_all (m <| m_queuePaused := true |>) order) as (G1&G2&G3&G4&G5&G6&G7&G8).
  { by apply set_paused_inv. }
  { rewrite Ho. apply NoDup_elements. }
  { intros id. rewrite Ho. by rewrite elem_of_elements. }
  { done. }
  rewrite resume_fold_paused in *. simpl in *. set (m1 := foldl resume_one m order) in *.
  assert (m_queuePausedIDs m1 = ∅) as Hempty.
  { rewrite G2. apply set_eq. intros i. rewrite elem_of_difference, elem_of_list_to_set, Ho, elem_of_elements.
    set_solver. }
  assert (mgr_inv (m1 <| m_queuePaused := false |>)) as Hinv by (destruct G1; by split).
  split; [by apply signal_inv|]. split; [intros Hl; apply signal_live; by apply G3|].
  unfold signalLocked. simpl. rewrite G6. by destruct (m_wake m).
Qed.

(** [promotePendingLocked] gives every waiting job its entry. *)
Lemma promote_fold m order :
  mgr_inv m → (∀ id, id ∈ order → id ∈ m_pending m) →
  let m' := foldl (λ m jobID,
    push_item jobID (default 0 (m_pendingPrio m !! jobID)) (default 0 (m_pendingSeq m !! jobID)) m)
    m order in
  mgr_inv m' ∧ ∃ q, m' = m <| m_queue := q |> ∧ (∀ i, i ∈ m_queue m → i ∈ q) ∧
    ∀ id p s, id ∈ order → m_pendingPrio m !! id = Some p → m_pendingSeq m !! id = Some s →
      mkItem id p s ∈ q.
Proof.
  revert m. induction order as [|id order IH]; intros m Hm Hin; simpl.
  { split; [done|]. exists (m_queue m). split_and!; [by destruct m|done|].
    by intros id p s ?%not_elem_of_nil. }
  assert (id ∈ m_pending m) as Hid by (apply Hin; by left).
  assert (∃ p s, m_pendingPrio m !! id = Some p ∧ m_pendingSeq m !! id = Some s) as (p&s&Hp&Hs).
  { pose proof Hid as Hid'. rewrite <- (mi_prio _ Hm) in Hid. rewrite <- (mi_seq _ Hm) in Hid'.
    apply elem_of_dom in Hid as [p ?], Hid' as [s ?]. by exists p, s. }
  rewrite Hp, Hs. simpl.
  destruct (IH (push_item id p s m)) as (H1&q&H2&H3&H4); [by apply push_item_inv| |].
  { intros i Hi. apply Hin. by right. }
  split; [done|]. exists q. split_and!; [by rewrite H2| |].
  - intros i Hi. apply H3. simpl. rewrite heap_Push_perm. by right.
  - intros i p' s' [->|Hi]%elem_of_cons Hp' Hs'; [|by apply (H4 i)].
    apply H3. simpl. rewrite heap_Push_perm. simplify_eq. by left.
Qed.

Lemma promote_spec m order :
  mgr_inv m → order ≡ₚ elements (m_pending m) →
  let m' := promotePendingLocked order m in
  mgr_inv m' ∧ live_items m' ∧ m_active m' = m_active m ∧ m_controls m' = m_controls m ∧
  m_ctx m' = m_ctx m ∧ m_started m' = m_started m ∧ (is_Some (m_wake m) → is_Some (m_wake m')) ∧
  (m_wake m' = Some false → m_queue m' = m_queue m ∧ m_wake m = Some false) ∧
  m_queuePaused m' = m_queuePaused m ∧ m_maxActiveFiles m' = m_maxActiveFiles m.
Proof.
  intros Hm Ho. unfold promotePendingLocked.
  destruct (promote_fold m order Hm) as (H1&q&H2&_&H4).
  { intros id. by rewrite Ho, elem_of_elements. }
  rewrite H2 in *. simpl.
  assert (live_items (m <| m_queue := q |>)) as Hl.
  { intros id p s Hp Hs. apply (H4 id p s); [|done|done]. rewrite Ho, elem_of_elements.
    rewrite <- (mi_prio _ Hm). by apply elem_of_dom. }
  destruct (bool_decide (m_pending m = ∅)) eqn:E.
  - split_and!; try done. simpl. intros Hw. split; [|done].
    apply bool_decide_eq_true in E. assert (order = []) as Hnil.
    { apply Permutation_nil. by rewrite Ho, E, elements_empty. }
    rewrite Hnil in H2. simpl in H2. by apply (f_equal m_queue) in H2.
  - split; [by apply signal_inv|]. split; [by apply signal_live|].
    unfold signalLocked. simpl. by destruct (m_wake m) eqn:Ew; simpl; rewrite ?Ew.
Qed.

(** ** The system's invariant *)

Definition finishing (s : System) : option string :=
  match s_dispatcher s with DFinishing id _ => Some id | _ => None end.

(** A job under control is inside [runJob], in the channel or being
    finished, and in one of these only. *)
Record jobs_ok (s : System) : Prop := {
  jo_nodup : NoDup (jobResults s);
  jo_controls id : id ∈ dom (m_controls (mgr s)) ↔
    id ∈ running s ∨ id ∈ jobResults s ∨ finishing s = Some id;
  jo_results id : id ∈ jobResults s → id ∉ running s ∧ finishing s ≠ Some id;
  jo_finishing id : finishing s = Some id → id ∉ running s }.

Record sys_inv (s : System) : Prop := {
  si_mgr : mgr_inv (mgr s);
  si_live : s_startup s = Promoted → live_items (mgr s);
  si_active : m_active (mgr s) = dom (m_controls (mgr s)) ∪ direct s;
  si_direct : direct s ## dom (m_controls (mgr s));
  si_jobs : s_dispatcher s ≠ DGone → jobs_ok s;
  si_idle : s_dispatcher s = DNone → m_controls (mgr s) = ∅ ∧ s_startup s ≠ Promoted;
  si_startup : s_startup s = NotStarted → s_dispatcher s = DNone;
  si_started : s_startup s ≠ NotStarted →
    m_started (mgr s) = true ∧ is_Some (m_wake (mgr s)) ∧ is_Some (m_ctx (mgr s));
  si_waiting : s_dispatcher s = DWaiting → m_wake (mgr s) = Some false →
    m_queuePaused (mgr s) = true ∨ (m_maxActiveFiles (mgr s) ≤ size (m_active (mgr s)))%nat ∨
    m_queue (mgr s) = [] }.

(** The fields of a manager the system's invariant looks at besides its
    own. *)
Definition same_jobs (m m' : Manager) : Prop :=
  m_active m' = m_active m ∧ dom (m_controls m') = dom (m_controls m) ∧
  m_started m' = m_started m ∧ (is_Some (m_wake m) → is_Some (m_wake m')) ∧
  (is_Some (m_ctx m) → is_Some (m_ctx m')).

(** A step of a caller that leaves the running jobs alone. *)
Lemma sys_inv_mgr s m :
  sys_inv s → same_jobs (mgr s) m → mgr_inv m →
  (s_startup s = Promoted → live_items (mgr s) → live_items m) →
  (m_wake m = Some false → m_wake (mgr s) = Some false ∧
     m_maxActiveFiles m = m_maxActiveFiles (mgr s) ∧
     (m_queuePaused (mgr s) = true → m_queuePaused m = true) ∧
     (m_queue (mgr s) = [] → m_queue m = [])) →
  sys_inv (s <| mgr := m |>).
Proof.
  intros [] (E1&E2&E3&E4&E5) Hm Hl Hw. split; simpl; try done.
  - auto.
  - by rewrite E1, E2.
  - by rewrite E2.
  - intros Hd. destruct (si_jobs0 Hd) as [A B C D]. split; try done. simpl. intros id. by rewrite E2.
  - intros Hd. destruct (si_idle0 Hd) as [Hc ?]. split; [|done].
    apply dom_empty_iff_L. by rewrite E2, Hc, dom_empty_L.
  - intros Hs. destruct (si_started0 Hs) as (?&?&?). rewrite E3. auto.
  - intros Hd Hwm. destruct (Hw Hwm) as (Hws&Hmax&Hpaused&Hq). rewrite E1, Hmax.
    destruct (si_waiting0 Hd Hws) as [?|[?|?]]; auto.
Qed.

Lemma signal_wake m : m_wake (signalLocked m) = (λ _, true) <$> m_wake m.
Proof. unfold signalLocked. destruct (m_wake m) eqn:E; [done|]. by rewrite E. Qed.

Lemma start_job_same m id p m' outcome :
  start_job_locked id p m = (m', outcome) →
  same_jobs m m' ∧ m_maxActiveFiles m' = m_maxActiveFiles m ∧ m_queuePaused m' = m_queuePaused m ∧
  (m_wake m' = Some false → m_queue m' = m_queue m ∧ m_wake m = Some false).
Proof.
  intros H. unfold start_job_locked in H.
  destruct (m_closed m); [by simplify_eq|]. destruct (_ || _); [by simplify_eq|].
  destruct (_ <=? _)%nat; [by simplify_eq|].
  cbn [m_started update_field] in H. destruct (m_started m); simplify_eq; [|done].
  set (m1 := push_item _ _ _ _). destruct (compact_same m1) as (_&E2&E3&E4&E5&E6&E7&E8&E9&E10&_).
  unfold same_jobs, signalLocked. rewrite E6. simpl. destruct (m_wake m) eqn:Ew; simpl;
    rewrite ?E2, ?E3, ?E7, ?E8, ?E9, ?E10, ?E6; simpl; rewrite ?Ew; done.
Qed.

Lemma pause_same m id m' b :
  pause_job_locked id m = (m', b) →
  same_jobs m m' ∧ m_maxActiveFiles m' = m_maxActiveFiles m ∧ m_queuePaused m' = m_queuePaused m ∧
  m_wake m' = m_wake m ∧ (m_queue m = [] → m_queue m' = []) ∧ (live_items m → live_items m').
Proof.
  unfold pause_job_locked. simpl. destruct (m_controls m !! id) eqn:Hc; intros [= <- _].
  - by repeat split; simpl; rewrite ?dom_alter_L.
  - set (m1 := drop_pending _ _). destruct (compact_same m1) as (_&E2&E3&E4&E5&E6&E7&E8&E9&E10&_).
    unfold same_jobs. rewrite E2, E3, E7, E8, E9, E10, E6. simpl. split_and!; try done.
    + intros Hq. unfold compactQueueLocked. simpl. by rewrite Hq.
    + intros Hl. apply compact_live. intros i p s. simpl.
      intros [_ Hp]%lookup_delete_Some [_ Hs]%lookup_delete_Some. by apply Hl.
Qed.

Lemma cancel_same m id delete m' b :
  cancel_job_locked id delete m = (m', b) →
  same_jobs m m' ∧ m_maxActiveFiles m' = m_maxActiveFiles m ∧ m_queuePaused m' = m_queuePaused m ∧
  m_wake m' = m_wake m ∧ m_queue m' = m_queue m ∧ (live_items m → live_items m').
Proof.
  unfold cancel_job_locked. destruct (m_controls m !! id); intros [= <- _].
  - by repeat split; simpl; rewrite ?dom_alter_L.
  - repeat split; try done. by apply drop_live.
Qed.

Lemma sys_inv_client e s s' : sys_inv s → client e s s' → sys_inv s'.
Proof.
  intros Hs Hstep. pose proof (si_mgr _ Hs) as Hm. destruct Hstep.
  - (* start_begin *)
    unfold start_locked in H0. destruct (_ || _) eqn:E; [done|]. simplify_eq. bool_to_prop.
    pose proof (si_startup _ Hs H) as Hd. destruct (si_idle _ Hs Hd) as [Hc _].
    destruct (si_jobs _ Hs) as [A B C D]; [by rewrite Hd|].
    assert (running s = ∅) as Hrun.
    { apply set_eq. intros i. split; [|set_solver]. intros Hi.
      assert (i ∈ dom (m_controls (mgr s))) by (apply B; auto). rewrite Hc in *. set_solver. }
    destruct Hs. destruct Hm. split; simpl; try done.
    + intros _. split; simpl; [constructor| |by intros ? ?%not_elem_of_nil|].
      * intros i. unfold finishing. simpl. rewrite Hc, Hd, Hrun, dom_empty_L.
        rewrite elem_of_nil. set_solver.
      * intros i. unfold finishing. simpl. by rewrite Hd.
    + congruence.
  - (* start_failed *)
    destruct Hs as [H1 H2 H3 H4 H5 H6 H7 H8 H9]. split; simpl; try done.
    + destruct Hm. by split.
    + intros Hd. by destruct (H5 Hd).
    + intros Hd. by destruct (H6 Hd).
  - (* start_go *)
    destruct (si_idle _ Hs H0) as [Hc _]. pose proof (si_jobs _ Hs ltac:(by rewrite H0)) as [A B C D].
    destruct Hs. split; simpl; try done; [|by rewrite H].
    intros _. unfold finishing in *. rewrite H0 in *. by split.
  - (* promote *)
    destruct (promote_spec (mgr s) order Hm H1) as (G1&G2&G3&G4&G5&G6&G7&G8&G9&G10).
    destruct Hs. split; simpl; try done.
    + by rewrite G3, G4.
    + by rewrite G4.
    + intros Hd. destruct (si_jobs0 Hd). split; simpl; rewrite ?G4; done.
    + intros _. destruct si_started0 as (?&?&?); [by rewrite H|]. rewrite G5, G6. auto.
    + intros Hd Hw. destruct (G8 Hw) as [-> ?]. rewrite G3, G9, G10. auto.
  - (* enqueue *)
    destruct (start_job_same _ _ _ _ _ H0) as (E1&E2&E3&E4).
    apply sys_inv_mgr; [done|done|by eapply start_job_inv| |].
    + intros Hp Hl. eapply start_job_live; [|done|done]. by apply (si_started _ Hs); rewrite Hp.
    + intros Hw. destruct (E4 Hw) as [-> ?]. rewrite E2, E3. auto.
  - (* returned *)
    destruct Hs as [H1 H2 H3 H4 H5 H6 H7 H8 H9]. split; simpl; try done.
    intros Hd. destruct (H5 Hd) as [A B C D]. unfold finishing in *. split; simpl.
    + apply NoDup_app. split_and!; [done| |apply NoDup_singleton].
      intros i Hi ->%list_elem_of_singleton. by destruct (C id Hi).
    + intros i. rewrite B, elem_of_app, list_elem_of_singleton.
      destruct (decide (i = id)) as [->|]; [naive_solver|]. set_solver.
    + intros i. rewrite elem_of_app, list_elem_of_singleton. intros [Hi| ->].
      * destruct (C i Hi). set_solver.
      * split; [set_solver|]. by intros ?%D.
    + intros i Hi. specialize (D i Hi). set_solver.
  - (* run_begin *)
    pose proof (run_begin_inv _ _ _ Hm H) as Hm'. unfold run_job_begin in H.
    destruct (m_closed (mgr s)); [done|].
    destruct (bool_decide (id ∈ m_active (mgr s))) eqn:Ha; [done|].
    destruct (bool_decide (id ∈ m_pending (mgr s))) eqn:Hp; [done|]. bool_to_prop.
    destruct (_ <=? _)%nat; [done|]. simplify_eq.
    destruct Hs as [H1 H2 H3 H4 H5 H6 H7 H8 H9]. split; simpl; try done.
    + rewrite H3. set_solver.
    + set_solver.
    + intros Hd. by destruct (H5 Hd).
    + intros Hd Hw. destruct (H9 Hd Hw) as [?|[?|?]]; [by auto| |by auto]. right. left.
      etrans; [done|]. apply subseteq_size. set_solver.
  - (* run_end *)
    assert (id ∉ dom (m_controls (mgr s))) as Hc by (pose proof (si_direct _ Hs); set_solver).
    pose proof (run_end_inv _ _ Hm Hc) as Hm'.
    destruct Hs as [H1 H2 H3 H4 H5 H6 H7 H8 H9]. unfold run_job_end, signalLocked in *.
    simpl in *. destruct (m_wake (mgr s)) eqn:Ew; split; simpl; try done;
      rewrite ?Ew; try done; try (intros Hd; by destruct (H5 Hd)); set_solver.
  - (* pause *)
    destruct (pause_same _ _ _ _ H) as (E1&E2&E3&E4&E5&E6).
    apply sys_inv_mgr; [done|done|by eapply pause_inv|auto|]. rewrite E2, E3, E4. auto.
  - (* cancel *)
    destruct (cancel_same _ _ _ _ _ H) as (E1&E2&E3&E4&E5&E6).
    apply sys_inv_mgr; [done|done|by eapply cancel_inv|auto|]. rewrite E2, E3, E4, E5. auto.
  - (* delete *)
    set (m1 := drop_pending id (mgr s)).
    destruct (compact_same m1) as (_&E2&E3&E4&E5&E6&E7&E8&E9&E10&_).
    apply sys_inv_mgr; [done| |by apply compact_inv, drop_inv| |].
    + unfold same_jobs, delete_job_locked. fold m1. by rewrite E2, E3, E6, E7, E8.
    + intros _ Hl. by apply compact_live, drop_live.
    + unfold delete_job_locked. fold m1. rewrite E6, E9, E10. intros Hw. split_and!; try done.
      intros Hq. unfold compactQueueLocked. simpl. by rewrite Hq.
  - (* pause_queue *)
    apply sys_inv_mgr; [done| | | |].
    + unfold PauseQueue, same_jobs, signalLocked. simpl.
      destruct (m_wake (mgr s)) eqn:Ew; simpl; rewrite ?dom_fmap_L, ?Ew; done.
    + apply signal_inv, map_controls_inv, set_paused_inv; done.
    + intros _ Hl. by apply signal_live.
    + unfold PauseQueue. rewrite signal_wake. simpl. by destruct (m_wake (mgr s)).
  - (* resume_queue *)
    destruct (ResumeQueue_spec (mgr s) order Hm H H0) as (G1&G2&G3&G4&G5&G6&G7).
    apply sys_inv_mgr; [done| |done|auto|].
    + unfold same_jobs. rewrite G3, G4, G5, G6, G7. split_and!; try done.
      intros [? ->]. by eexists.
    + rewrite G5. by destruct (m_wake (mgr s)).
  - (* close *)
    apply sys_inv_mgr; [done|done| |done|done]. destruct Hm. by split.
  - (* ctx_cancelled *)
    apply sys_inv_mgr; [done| | |done|done].
    + split_and!; try done.
    + destruct Hm. by split.
Qed.

Lemma finish_shutdown_inv m : mgr_inv m → mgr_inv (finishShutdown m).
Proof.
  intros []. split; simpl; rewrite ?dom_empty_L; try done.
  - etrans; [|exact mi_active0]. apply subseteq_size. set_solver.
  - set_solver.
  - etrans; [|exact mi_held0]. apply subseteq_size. set_solver.
  - etrans; [|exact mi_bound0]. apply subseteq_size. set_solver.
Qed.

(** The dispatcher moves on without finishing a job. *)
Lemma sys_inv_moves s d :
  sys_inv s → finishing s = None → s_dispatcher s ≠ DNone → s_dispatcher s ≠ DGone →
  d = DTop ∨ d = DLaunching ∨ d = DStopping → sys_inv (s <| s_dispatcher := d |>).
Proof.
  intros [H1 H2 H3 H4 H5 H6 H7 H8 H9] Hf Hn Hg Hd. split; simpl; try done.
  - intros _. destruct (H5 Hg) as [A B C D]. unfold finishing in Hf |- *. rewrite ?Hf in *.
    assert (match d with DFinishing id _ => Some id | _ => None end = None :> option string) as Hd'
      by (by destruct Hd as [->|[->| ->]]).
    split; simpl; unfold finishing in *; simpl; rewrite ?Hd'; try done; rewrite Hf in *; done.
  - by destruct Hd as [->|[->| ->]].
  - intros Hs. by destruct Hn; apply H7.
  - by destruct Hd as [->|[->| ->]].
Qed.

Lemma finish_first_same id m m' c :
  finish_first id m = Some (m', c) →
  m_active m' = m_active m ∧ m_controls m' = m_controls m ∧ m_started m' = m_started m ∧
  m_wake m' = m_wake m ∧ m_ctx m' = m_ctx m ∧ (live_items m → live_items m') ∧
  is_Some (m_controls m !! id).
Proof.
  unfold finish_first. destruct (m_controls m !! id); [|done]. intros [= <- _].
  by destruct (_ && m_queuePaused m).
Qed.

Lemma finish_second_same id requeue m :
  let m' := finish_second id requeue m in
  m_active m' = m_active m ∖ {[id]} ∧ m_controls m' = delete id (m_controls m) ∧
  m_started m' = m_started m ∧ m_wake m' = (λ _, true) <$> m_wake m ∧ m_ctx m' = m_ctx m.
Proof.
  unfold finish_second. rewrite signal_wake.
  assert (∀ m, m_active (signalLocked m) = m_active m ∧ m_controls (signalLocked m) = m_controls m ∧
    m_started (signalLocked m) = m_started m ∧ m_ctx (signalLocked m) = m_ctx m) as Hsig.
  { intros m0. unfold signalLocked. by destruct (m_wake m0). }
  destruct requeue; cbv zeta.
  - rewrite pushPending_join. unfold requeue_job. set (m1 := push_item _ _ _ _).
    destruct (compact_same m1) as (_&E2&E3&E4&E5&E6&E7&E8&_).
    destruct (Hsig (compactQueueLocked m1)) as (->&->&->&->). by rewrite E2, E3, E6, E7, E8.
  - by destruct (Hsig (m <| m_active := m_active m ∖ {[id]} |>
                        <| m_controls := delete id (m_controls m) |>)) as (->&->&->&->).
Qed.

Lemma sys_inv_launch s m job :
  sys_inv s → s_dispatcher s = DLaunching → launch_one (mgr s) = Some (m, job) →
  sys_inv (s <| mgr := m |>
    <| running := match job with Some id => {[id]} ∪ running s | None => running s end |>).
Proof.
  intros Hs Hd Hl. pose proof (si_mgr _ Hs) as Hm.
  pose proof (launch_inv _ _ _ Hm Hl) as Hm'. pose proof (launch_live (mgr s) m job Hm) as Hlive.
  destruct (launch_one_spec _ _ _ Hm Hl) as (Hp&Hsz&item&q&Hperm&_&_&Hjob).
  destruct Hs as [H1 H2 H3 H4 H5 H6 H7 H8 H9].
  destruct (H5 ltac:(by rewrite Hd)) as [A B C D]. destruct job as [id|].
  - destruct Hjob as (Hc&Hid&Heq).
    assert (id ∈ m_pending (mgr s)) as Hpend.
    { rewrite <- (mi_seq _ Hm), Hid. apply bool_decide_eq_true in Hc. by apply elem_of_dom. }
    assert (id ∉ m_active (mgr s)) as Hna by (pose proof (mi_disjoint _ Hm); set_solver).
    rewrite H3 in Hna. clear Hpend. split; simpl; rewrite ?Hd; try done.
    + auto.
    + rewrite Heq. simpl. rewrite dom_insert_L, H3. set_solver.
    + rewrite Heq. simpl. rewrite dom_insert_L. set_solver.
    + intros _. unfold finishing in *. split; simpl; unfold finishing; simpl; rewrite ?Hd in *; try done.
      * intros i. rewrite Heq. simpl. rewrite dom_insert_L, !elem_of_union, B. naive_solver.
      * intros i Hi. split; [|done]. specialize (C i Hi). rewrite elem_of_union, elem_of_singleton.
        intros [->|]; [|naive_solver]. apply Hna. apply elem_of_union. left. apply B. auto.
    + intros Hst. exfalso. by rewrite (H7 Hst) in Hd.
    + intros Hst. rewrite Heq. by apply H8.
  - destruct Hjob as [_ Heq]. split; simpl; rewrite ?Hd; try done.
    + auto.
    + by rewrite Heq.
    + by rewrite Heq.
    + intros _. unfold finishing in *. split; simpl; unfold finishing; simpl; rewrite ?Hd in *; try done. by rewrite Heq.
    + intros Hst. exfalso. by rewrite (H7 Hst) in Hd.
    + intros Hst. rewrite Heq. by apply H8.
Qed.

Lemma sys_inv_result s id rest m cancel delete requeue :
  sys_inv s → s_dispatcher s = DWaiting → jobResults s = id :: rest →
  finish_first id (mgr s) = Some (m, (cancel, delete, requeue)) →
  sys_inv (s <| mgr := m |> <| jobResults := rest |> <| s_dispatcher := DFinishing id requeue |>).
Proof.
  intros Hs Hd Hr Hf. pose proof (finish_first_inv _ _ _ _ (si_mgr _ Hs) Hf) as Hm'.
  destruct (finish_first_same _ _ _ _ Hf) as (E1&E2&E3&E4&E5&E6&_).
  destruct Hs as [H1 H2 H3 H4 H5 H6 H7 H8 H9].
  destruct (H5 ltac:(by rewrite Hd)) as [A B C D]. unfold finishing in *. rewrite Hd, Hr in *.
  apply NoDup_cons in A as [Hni A]. split; simpl; try done.
  - auto.
  - by rewrite E1, E2.
  - by rewrite E2.
  - intros _. split; simpl; try done.
    + intros i. rewrite E2, B, elem_of_cons. unfold finishing. simpl.
      destruct (decide (i = id)) as [->|]; naive_solver.
    + intros i Hi. unfold finishing. simpl. destruct (C i) as [? _]; [by right|].
      split; [done|]. intros [= ->]. done.
    + intros i. unfold finishing. simpl. intros [= <-]. destruct (C id) as [? _]; [by left|done].
  - intros Hst. by specialize (H7 Hst).
  - rewrite E3, E4, E5. done.
Qed.

Lemma sys_inv_finish s id requeue :
  sys_inv s → s_dispatcher s = DFinishing id requeue → m_sequence (mgr s) + 1 < 2 ^ 64 →
  sys_inv (s <| mgr := finish_second id requeue (mgr s) |> <| s_dispatcher := DTop |>).
Proof.
  intros Hs Hd Hroom. destruct Hs as [H1 H2 H3 H4 H5 H6 H7 H8 H9].
  destruct (H5 ltac:(by rewrite Hd)) as [A B C D]. unfold finishing in *. rewrite Hd in *.
  assert (id ∈ dom (m_controls (mgr s))) as Hid by (apply B; auto).
  destruct (finish_second_same id requeue (mgr s)) as (E1&E2&E3&E4&E5).
  split; simpl; try done.
  - by apply finish_second_inv.
  - intros Hst. apply finish_second_live. auto.
  - rewrite E1, E2, dom_delete_L, H3. set_solver.
  - rewrite E2, dom_delete_L. set_solver.
  - intros _. split; simpl; try done; unfold finishing; simpl; [|naive_solver..].
    intros i. rewrite E2, dom_delete_L, elem_of_difference, B, elem_of_singleton.
    specialize (C i). specialize (D i). naive_solver.
  - intros Hst. by specialize (H7 Hst).
  - intros Hst. destruct (H8 Hst) as (?&[w Hw]&?). rewrite E3, E4, E5, Hw. done.
Qed.

Lemma gone_sets (A C D : gset string) : A = C ∪ D → D ## C → A ∖ C = ∅ ∪ D.
Proof. set_solver. Qed.

Lemma sys_inv_dispatch e s s' : sys_inv s → dispatch e s s' → sys_inv s'.
Proof.
  intros Hs Hstep. destruct Hstep.
  - apply sys_inv_moves; unfold finishing; rewrite ?H; auto.
  - by apply sys_inv_launch.
  - pose proof (launch_one_none _ (si_mgr _ Hs) H0) as Hnone.
    destruct Hs as [H1 H2 H3 H4 H5 H6 H7 H8 H9]. split; simpl; try done.
    + intros _. destruct (H5 ltac:(by rewrite H)) as [A B C D]. unfold finishing in *. rewrite H in *.
      by split.
    + intros Hst. specialize (H7 Hst). congruence.
  - assert (sys_inv (s <| s_dispatcher := DTop |>)) as [H1 H2 H3 H4 H5 H6 H7 H8 H9]
      by (apply sys_inv_moves; unfold finishing; rewrite ?H; auto).
    split; simpl in *; try done.
    + destruct H1. by split.
    + intros Hd. by destruct (H5 Hd).
    + intros Hst. by destruct (H8 Hst) as (?&?&?).
  - by eapply sys_inv_result.
  - exfalso. pose proof (si_jobs _ Hs ltac:(by rewrite H)) as [A B C D].
    assert (id ∈ dom (m_controls (mgr s))) as Hid by (apply B; rewrite H0; right; left; by left).
    apply elem_of_dom in Hid as [c Hc]. unfold finish_first in H1. by rewrite Hc in H1.
  - by apply sys_inv_finish.
  - apply (sys_inv_moves (s <| mgr := stopActiveJobs (mgr s) |>));
      try (unfold finishing; simpl; destruct H as [->| ->]; done); [|by auto].
    apply sys_inv_mgr; [done| | | |done].
    + unfold same_jobs, stopActiveJobs. simpl. by rewrite dom_fmap_L.
    + by apply map_controls_inv, Hs.
    + done.
  - destruct Hs as [H1 H2 H3 H4 H5 H6 H7 H8 H9]. split; simpl; try done.
    + by apply finish_shutdown_inv.
    + rewrite dom_empty_L. by apply gone_sets.
    + intros Hst. specialize (H7 Hst). congruence.
Qed.

Lemma sys_inv_idle n : sys_inv (idle n).
Proof.
  split; simpl; try done.
  - assert (size (∅ : gset string) = 0%nat) as H0 by apply size_empty.
    split; try done; cbn [empty_manager m_active m_pending m_pendingPrio m_pendingSeq m_queue
      m_queuePausedIDs m_controls m_maxActiveFiles]; rewrite ?dom_empty_L, ?(left_id_L ∅ (∪)), ?H0;
      try done; try lia. by intros item ?%not_elem_of_nil.
  - intros _. split; simpl; [constructor| |by intros ? ?%not_elem_of_nil|done].
    intros id. unfold finishing. simpl. rewrite dom_empty_L, elem_of_nil. set_solver.
Qed.

Lemma sys_inv_step s s' : sys_inv s → qstep s s' → sys_inv s'.
Proof. intros Hs [e [|]]; [by eapply sys_inv_dispatch|by eapply sys_inv_client]. Qed.

Lemma sys_inv_reachable n s : rtc qstep (idle n) s → sys_inv s.
Proof.
  intros Hr. eapply (rtc_invariant qstep sys_inv); [|done|apply sys_inv_idle].
  intros a b Hab Ha. by eapply sys_inv_step.
Qed.

(** No step changes the number of slots, and a promoted queue stays so. *)
Lemma launch_max m m' job : launch_one m = Some (m', job) → m_maxActiveFiles m' = m_maxActiveFiles m.
Proof.
  unfold launch_one. destruct (_ || _); [done|]. destruct (heap_Pop _ _) as [[i q]|]; [|done].
  destruct (current_item _ i); by intros [= <- _].
Qed.

Lemma resume_one_max m id : m_maxActiveFiles (resume_one m id) = m_maxActiveFiles m.
Proof.
  unfold resume_one. destruct (_ || _); [done|]. rewrite pushPending_join. unfold requeue_job.
  destruct (compact_same (push_item id 0 (next_sequence m) (join_pending id 0 m)))
    as (_&_&_&_&_&_&_&_&_&E&_). simpl. by rewrite E.
Qed.

Lemma signal_max m : m_maxActiveFiles (signalLocked m) = m_maxActiveFiles m.
Proof. unfold signalLocked. by destruct (m_wake m). Qed.

Lemma step_constant s s' :
  qstep s s' → m_maxActiveFiles (mgr s') = m_maxActiveFiles (mgr s) ∧
    (s_startup s = Promoted → s_startup s' = Promoted).
Proof.
  intros [e [H|H]]; destruct H; simpl; try done.
  - split; [by eapply launch_max|done].
  - split; [|done]. unfold finish_first in H1. destruct (m_controls (mgr s) !! id); [|done].
    simplify_eq. by destruct (_ && _).
  - split; [|done]. unfold finish_second. rewrite signal_max. destruct requeue; [|done].
    cbv zeta. rewrite pushPending_join. unfold requeue_job. by rewrite (proj1 (proj2 (proj2 (proj2
      (proj2 (proj2 (proj2 (proj2 (proj2 (proj2 (compact_same _))))))))))).
  - split; [|by rewrite H]. unfold start_locked in H0. by destruct (_ || _); simplify_eq.
  - split; [done|by rewrite H].
  - split; [|done]. unfold promotePendingLocked.
    assert (∀ m, m_maxActiveFiles (foldl (λ m jobID, push_item jobID
      (default 0 (m_pendingPrio m !! jobID)) (default 0 (m_pendingSeq m !! jobID)) m) m order)
      = m_maxActiveFiles m) as Hf.
    { clear. induction order as [|id order IH]; intros m; [done|]. simpl. by rewrite IH. }
    case_match; by rewrite ?signal_max, Hf.
  - by apply start_job_same in H0 as (_&->&_).
  - split; [|done]. unfold run_job_begin in H. destruct (m_closed (mgr s)); [done|].
    destruct (bool_decide _); [done|]. destruct (bool_decide _); [done|].
    destruct (_ <=? _)%nat; by simplify_eq.
  - split; [|done]. unfold run_job_end. by rewrite signal_max.
  - by apply pause_same in H as (_&->&_).
  - by apply cancel_same in H as (_&->&_).
  - split; [|done]. unfold delete_job_locked. by rewrite (proj1 (proj2 (proj2 (proj2
      (proj2 (proj2 (proj2 (proj2 (proj2 (proj2 (compact_same _))))))))))).
  - split; [|done]. unfold PauseQueue. by rewrite signal_max.
  - split; [|done]. unfold ResumeQueue. rewrite signal_max, resume_fold_paused. simpl.
    clear. generalize (mgr s). induction order as [|id order IH]; intros m; [done|]. simpl.
    by rewrite IH, resume_one_max.
Qed.
