(* ===== verification/QueueSpec.v ===== *)
(** * What the download queue promises (internal/download/manager.go)

    An abstract queue - the waiting jobs in the order they were queued, the
    active ones, and whether the queue is paused - which the manager's heap,
    maps and counters implement, and the properties of the queue: its bounds,
    that it follows priority and then arrival, and that a waiting job is
    started without any further call once a slot is free. *)

From Stdlib Require Import ZArith Lia Sorted.
From stdpp Require Import base list gmap strings sets sorting.
From S2P Require Import Prelude Heap Queue.

(** ** The abstract queue *)

#[export] Instance enqueue_outcome_eq_dec : EqDecision enqueue_outcome.
Proof. solve_decision. Defined.

(** What a launched job is to do: run on, stop because the queue is paused, or
    stop because the user paused or cancelled it. *)
Inductive intent := RunsOn | Yields | Stops.
#[export] Instance intent_eq_dec : EqDecision intent.
Proof. solve_decision. Defined.

(** The waiting jobs with their priorities, in the order they were queued; the
    launched jobs, and those a caller of [RunJob] runs; the jobs a pause of the
    queue has interrupted; and the job that is about to give up its slot, with
    whether it is queued again. *)
Record Spec := mkSpec {
  sp_waiting : list (string * Z);
  sp_intents : gmap string intent;
  sp_direct : gset string;
  sp_paused : bool;
  sp_parked : gset string;
  sp_leaving : option (string * bool);
  sp_closed : bool }.

#[export] Instance Spec_eta : Eta Spec := λ a,
  mkSpec (sp_waiting a) (sp_intents a) (sp_direct a) (sp_paused a) (sp_parked a) (sp_leaving a) (sp_closed a).

Definition sp_active (a : Spec) : gset string := dom (sp_intents a) ∪ sp_direct a.
Definition is_waiting (a : Spec) (id : string) : bool := bool_decide (id ∈ (sp_waiting a).*1).
Definition is_active (a : Spec) (id : string) : bool := bool_decide (id ∈ sp_active a).

(** The first of the jobs with the highest priority. *)
Fixpoint best (w : list (string * Z)) : option (string * Z) :=
  match w with
  | [] => None
  | x :: w =>
    match best w with
    | Some y => Some (if x.2 <? y.2 then y else x)
    | None => Some x
    end
  end.

Definition without (id : string) (w : list (string * Z)) : list (string * Z) :=
  filter (λ x, x.1 ≠ id) w.

(** How a request to queue a job is answered. *)
Definition answer_to (a : Spec) (id : string) : enqueue_outcome :=
  if sp_closed a then ManagerClosed
  else if is_waiting a id || is_active a id then AlreadyThere
  else if (maxQueuedJobs <=? length (sp_waiting a))%nat then QueueFull
  else Enqueued.

Definition yield (i : intent) : intent := match i with Stops => Stops | _ => Yields end.

(** A job is told to stop, or is taken out of the waiting ones. *)
Definition stop_job (id : string) (a : Spec) : Spec :=
  match sp_intents a !! id with
  | Some _ => a <| sp_intents := <[id := Stops]> (sp_intents a) |>
  | None => a <| sp_waiting := without id (sp_waiting a) |>
  end.

(** What an event makes of the queue with [slots] slots; [None] when it cannot
    happen. *)
Definition spec_next (slots : nat) (e : qevent) (a : Spec) : option Spec :=
  match e with
  | Silent => Some a
  | Requested id priority outcome =>
      if bool_decide (outcome = answer_to a id)
      then Some (match outcome with
                 | Enqueued => a <| sp_waiting := sp_waiting a ++ [(id, priority)] |>
                 | _ => a
                 end)
      else None
  | Launched id =>
      if sp_paused a || (slots <=? size (sp_active a))%nat then None
      else match best (sp_waiting a) with
           | Some (first, _) =>
               if bool_decide (first = id)
               then Some (a <| sp_waiting := without id (sp_waiting a) |>
                            <| sp_intents := <[id := RunsOn]> (sp_intents a) |>)
               else None
           | None => None
           end
  | Decided id =>
      match sp_intents a !! id, sp_leaving a with
      | Some i, None =>
          let again := bool_decide (i = Yields) in
          Some (a <| sp_parked := if again && sp_paused a then {[id]} ∪ sp_parked a else sp_parked a |>
                  <| sp_leaving := Some (id, again && negb (sp_paused a)) |>)
      | _, _ => None
      end
  | Left id =>
      match sp_leaving a with
      | Some (job, again) =>
          if bool_decide (job = id)
          then Some (a <| sp_intents := delete id (sp_intents a) |>
                       <| sp_waiting := if again then sp_waiting a ++ [(id, 0)] else sp_waiting a |>
                       <| sp_leaving := None |>)
          else None
      | None => None
      end
  | RunBegun id =>
      if sp_closed a || is_active a id || is_waiting a id || (slots <=? size (sp_active a))%nat then None
      else Some (a <| sp_direct := {[id]} ∪ sp_direct a |>)
  | RunEnded id =>
      if bool_decide (id ∈ sp_direct a) then Some (a <| sp_direct := sp_direct a ∖ {[id]} |>) else None
  | UserPaused id => Some (stop_job id (a <| sp_parked := sp_parked a ∖ {[id]} |>))
  | UserCancelled id => Some (stop_job id a)
  | UserDeleted id => Some (a <| sp_waiting := without id (sp_waiting a) |>)
  | QueuePaused => Some (a <| sp_paused := true |> <| sp_intents := yield <$> sp_intents a |>)
  | QueueResumed order =>
      if bool_decide (order ≡ₚ elements (sp_parked a))
      then Some (a <| sp_paused := false |> <| sp_parked := ∅ |>
                   <| sp_waiting := sp_waiting a
                        ++ ((λ id, (id, 0)) <$> filter (λ id, negb (is_waiting a id || is_active a id) = true) order) |>)
      else None
  | Closing => Some (a <| sp_closed := true |>)
  | ShutDown => Some (a <| sp_intents := ∅ |>)
  end.

Definition spec_run (slots : nat) (es : list qevent) (a : Spec) : option Spec :=
  foldl (λ a e, a ≫= spec_next slots e) (Some a) es.

(** A run of the manager with what it did, step by step. *)
Inductive runs : list qevent → System → System → Prop :=
| runs_nil s : runs [] s s
| runs_cons e es s s' s'' : event_step e s s' → runs es s' s'' → runs (e :: es) s s''.

(** ** How the manager represents it *)

Definition seq_of (m : Manager) (id : string) : Z := default 0 (m_pendingSeq m !! id).

(** The waiting jobs with their priorities, in sequence order. *)
Record waits (m : Manager) (w : list (string * Z)) : Prop := {
  wt_nodup : NoDup w.*1;
  wt_elem id p : (id, p) ∈ w ↔ m_pendingPrio m !! id = Some p;
  wt_sorted : StronglySorted (λ x y, seq_of m x.1 < seq_of m y.1) w }.

Definition intent_of (c : jobControl) : intent :=
  if cancelRequested c || pauseRequested c then Stops
  else if queuePauseRequested c then Yields else RunsOn.

Definition leaving_of (d : dispatcher) : option (string * bool) :=
  match d with DFinishing id requeue => Some (id, requeue) | _ => None end.

Record represents (s : System) (a : Spec) : Prop := {
  rp_waits : waits (mgr s) (sp_waiting a);
  rp_intents : sp_intents a = intent_of <$> m_controls (mgr s);
  rp_direct : sp_direct a = direct s;
  rp_paused : sp_paused a = m_queuePaused (mgr s);
  rp_parked : sp_parked a = m_queuePausedIDs (mgr s);
  rp_leaving : sp_leaving a = leaving_of (s_dispatcher s);
  rp_closed : sp_closed a = m_closed (mgr s) }.

Lemma waits_same m m' w :
  m_pendingPrio m' = m_pendingPrio m → m_pendingSeq m' = m_pendingSeq m → waits m w → waits m' w.
Proof.
  intros Hp Hs [A B C]. split; [done|by rewrite Hp|]. unfold seq_of. by rewrite Hs.
Qed.

Lemma StronglySorted_impl {A} (R S : A → A → Prop) l :
  (∀ x y, x ∈ l → y ∈ l → R x y → S x y) → StronglySorted R l → StronglySorted S l.
Proof.
  induction 2 as [|x l Hl IH Hx]; constructor.
  - apply IH. intros y z Hy Hz. apply H; by right.
  - rewrite Forall_forall in *. intros y Hy. apply H; [by left|by right|by apply Hx].
Qed.

Lemma StronglySorted_keys {K V} (R S : K * V → K * V → Prop) l :
  NoDup l.*1 → (∀ x y, x ∈ l → y ∈ l → x.1 ≠ y.1 → R x y → S x y) →
  StronglySorted R l → StronglySorted S l.
Proof.
  intros Hnd H Hs. induction Hs as [|x l Hl IH Hx]; constructor.
  - apply NoDup_cons in Hnd as [_ Hnd]. apply IH; [done|]. intros y z Hy Hz. apply H; by right.
  - rewrite Forall_forall in *. intros y Hy. apply H; [by left|by right| |by apply Hx].
    intros Heq. apply NoDup_cons in Hnd as [Hni _]. apply Hni. rewrite Heq.
    by apply list_elem_of_fmap_2.
Qed.

Lemma StronglySorted_snoc {A} (R : A → A → Prop) l x :
  StronglySorted R l → (∀ y, y ∈ l → R y x) → StronglySorted R (l ++ [x]).
Proof.
  intros Hl Hx. induction Hl as [|y l Hl IH Hy]; simpl; [repeat constructor|].
  constructor; [apply IH; intros z Hz; apply Hx; by right|].
  apply Forall_app. split; [done|]. apply Forall_singleton, Hx. by left.
Qed.

Lemma StronglySorted_filter {A} (R : A → A → Prop) (P : A → Prop) `{!∀ x, Decision (P x)} l :
  StronglySorted R l → StronglySorted R (filter P l).
Proof.
  induction 1 as [|x l Hl IH Hx]; [constructor|]. rewrite filter_cons. case_decide; [|done].
  constructor; [done|]. rewrite Forall_forall in *. intros y [_ Hy]%list_elem_of_filter. by apply Hx.
Qed.

Lemma waits_dom m w id : waits m w → id ∈ w.*1 ↔ is_Some (m_pendingPrio m !! id).
Proof.
  intros [_ B _]. rewrite list_elem_of_fmap. split.
  - intros ([i p]&->&Hin). exists p. by apply B.
  - intros [p Hp]. exists (id, p). split; [done|by apply B].
Qed.

Lemma waits_pending m w id : mgr_inv m → waits m w → id ∈ w.*1 ↔ id ∈ m_pending m.
Proof. intros Hm Hw. rewrite (waits_dom m w id Hw), <- (mi_prio _ Hm). symmetry. apply elem_of_dom. Qed.

Lemma seq_of_spec m id p :
  mgr_inv m → m_pendingPrio m !! id = Some p → m_pendingSeq m !! id = Some (seq_of m id).
Proof.
  intros Hm Hp. unfold seq_of. assert (id ∈ dom (m_pendingSeq m)) as [s ->]%elem_of_dom; [|done].
  rewrite (mi_seq _ Hm), <- (mi_prio _ Hm). by apply elem_of_dom.
Qed.

(** Every manager represents some abstract queue. *)
Lemma waits_exists m : mgr_inv m → ∃ w, waits m w.
Proof.
  intros Hm. set (R := λ x y : string * Z, seq_of m x.1 ≤ seq_of m y.1).
  assert (∀ x y, Decision (R x y)) by (intros x y; unfold R; apply _).
  assert (Total R) by (intros x y; unfold R; lia).
  assert (Transitive R) by (intros x y z; unfold R; lia).
  set (w := merge_sort R (map_to_list (m_pendingPrio m))). exists w.
  assert (w ≡ₚ map_to_list (m_pendingPrio m)) as Hperm by apply merge_sort_Permutation.
  assert (∀ id p, (id, p) ∈ w ↔ m_pendingPrio m !! id = Some p) as Hel.
  { intros id p. by rewrite Hperm, elem_of_map_to_list. }
  assert (NoDup w.*1) as Hnd by (rewrite Hperm; apply NoDup_fst_map_to_list).
  split; [done|done|].
  apply (StronglySorted_keys R); [done| |by apply (StronglySorted_merge_sort R)].
  intros [i p] [j q] Hi%Hel Hj%Hel Hne Hle. unfold R in Hle. simpl in *.
  assert (seq_of m i ≠ seq_of m j); [|lia]. intros Heq. apply Hne.
  apply (mi_seq_inj _ Hm i j (seq_of m i)); [by eapply seq_of_spec|].
  rewrite Heq. by eapply seq_of_spec.
Qed.

Lemma waits_join m w id p :
  mgr_inv m → m_sequence m + 1 < 2 ^ 64 → id ∉ m_pending m → waits m w →
  waits (join_pending id p m) (w ++ [(id, p)]).
Proof.
  intros Hm Hroom Hid Hw. pose proof (next_sequence_succ m (mi_sequence _ Hm) Hroom) as Hn.
  assert (id ∉ w.*1) as Hni by (by rewrite (waits_pending m w id Hm Hw)).
  assert (∀ i, i ∈ w.*1 → i ≠ id ∧ seq_of (join_pending id p m) i = seq_of m i ∧
            seq_of m i ≤ m_sequence m) as Hold.
  { intros i Hi. assert (i ≠ id) as Hne by congruence. split; [done|]. unfold seq_of. simpl.
    rewrite lookup_insert_ne by done. split; [done|].
    apply (waits_dom m w i Hw) in Hi as [q Hq]. pose proof (seq_of_spec m i q Hm Hq) as Hs.
    rewrite Hs. simpl. by apply (mi_seq_le _ Hm i). }
  assert (seq_of (join_pending id p m) id = m_sequence m + 1) as Hnew.
  { unfold seq_of. simpl. by rewrite lookup_insert_eq, Hn. }
  pose proof Hw as [A B C]. split.
  - rewrite fmap_app. apply NoDup_app. split_and!; [done| |apply NoDup_singleton].
    intros i Hi ->%list_elem_of_singleton. done.
  - intros i q. simpl. rewrite elem_of_app, list_elem_of_singleton, B, lookup_insert_Some.
    split; [intros [Hq|[= -> ->]]|intros [[-> ->]|[? ?]]]; auto.
    right. split; [|done]. intros ->. apply Hni, (waits_dom m w i Hw). by exists q.
  - apply StronglySorted_snoc.
    + eapply StronglySorted_impl; [|exact C]. intros x y Hx Hy Hlt.
      destruct (Hold x.1) as (_&->&_); [by apply list_elem_of_fmap_2|].
      destruct (Hold y.1) as (_&->&_); [by apply list_elem_of_fmap_2|done].
    + intros x Hx. simpl. destruct (Hold x.1) as (_&->&?); [by apply list_elem_of_fmap_2|]. lia.
Qed.

Lemma waits_compact m w : waits m w → waits (compactQueueLocked m) w.
Proof. apply waits_same; by apply (compact_same m). Qed.

Lemma waits_requeue m w id p :
  mgr_inv m → m_sequence m + 1 < 2 ^ 64 → id ∉ m_pending m → waits m w →
  waits (requeue_job id p m) (w ++ [(id, p)]).
Proof.
  intros Hm Hroom Hid Hw. apply waits_compact, (waits_same (join_pending id p m)); [done|done|].
  by apply waits_join.
Qed.

Lemma waits_signal m w : waits m w → waits (signalLocked m) w.
Proof. apply waits_same; unfold signalLocked; by destruct (m_wake m). Qed.

Lemma waits_drop m w id : waits m w → waits (drop_pending id m) (without id w).
Proof.
  intros [A B C]. unfold without. split.
  - eapply sublist_NoDup; [exact A|]. apply fmap_sublist, sublist_filter.
  - intros i q. rewrite list_elem_of_filter. simpl. rewrite lookup_delete_Some, B. naive_solver.
  - eapply StronglySorted_impl; [|by apply StronglySorted_filter].
    intros x y [Hx _]%list_elem_of_filter [Hy _]%list_elem_of_filter Hlt. unfold seq_of in *. simpl.
    by rewrite !lookup_delete_ne by done.
Qed.

Lemma without_fresh id w : id ∉ w.*1 → without id w = w.
Proof.
  intros Hni. unfold without. apply filter_all. intros x Hx Heq. apply Hni. rewrite <- Heq.
  by apply list_elem_of_fmap_2.
Qed.

(** [best] picks the entry no other one precedes. *)
Lemma best_elem w x : best w = Some x → x ∈ w.
Proof.
  revert x. induction w as [|y w IH]; intros x; simpl; [done|].
  destruct (best w) as [z|]; intros [= <-]; [|by left].
  destruct (_ <? _); [right; by apply IH|by left].
Qed.

Lemma best_none w : best w = None → w = [].
Proof. destruct w as [|y w]; simpl; [done|]. by destruct (best w). Qed.

Lemma best_spec (sq : string → Z) w x :
  StronglySorted (λ a b, sq a.1 < sq b.1) w → x ∈ w →
  (∀ y, y ∈ w → y.2 < x.2 ∨ (y.2 = x.2 ∧ sq x.1 ≤ sq y.1)) → best w = Some x.
Proof.
  intros Hs. revert x. induction Hs as [|y w Hw IH Hy]; intros x Hx Hmax; [by apply not_elem_of_nil in Hx|].
  simpl. rewrite Forall_forall in Hy. apply elem_of_cons in Hx as [->|Hx].
  - destruct (best w) as [z|] eqn:E; [|done]. apply best_elem in E.
    destruct (Z.ltb_spec y.2 z.2); [|done]. destruct (Hmax z) as [|[]]; [by right|lia..].
  - rewrite (IH x Hx) by (intros z Hz; apply Hmax; by right).
    specialize (Hy x Hx). simpl in Hy. destruct (Hmax y) as [|[]]; [by left| |lia].
    by rewrite (proj2 (Z.ltb_lt _ _)).
Qed.

(** ** The refinement *)

(** A launch takes the best waiting job. *)
Lemma launch_best m m' id w :
  mgr_inv m → live_items m → waits m w → launch_one m = Some (m', Some id) →
  ∃ p, best w = Some (id, p) ∧ waits m' (without id w) ∧ m_active m' = {[id]} ∪ m_active m.
Proof.
  intros Hm Hlive Hw Hl.
  destruct (launch_one_spec m m' (Some id) Hm Hl) as (_&_&item&q&Hperm&_&Hmin&Hc&->&->).
  apply bool_decide_eq_true in Hc.
  assert (item ∈ m_queue m) as Hin by (rewrite Hperm; by left).
  pose proof (mi_item_prio _ Hm item Hin Hc) as Hprio. exists (qi_priority item). split_and!; [|..|done].
  - apply (best_spec (seq_of m)); [by apply wt_sorted|by apply (wt_elem _ _ Hw)|].
    intros [i p] Hi%(wt_elem _ _ Hw). pose proof (seq_of_spec m i p Hm Hi) as Hs.
    pose proof (Hlive i p _ Hi Hs) as Hit. assert (seq_of m (qi_job item) = qi_sequence item) as Hsq.
    { unfold seq_of. by rewrite Hc. }
    simpl. destruct (Hmin _ Hit) as [<-|Hle%item_le_spec]; simpl in *; [right; lia|lia].
  - apply (waits_same (drop_pending (qi_job item) m)); [done|done|]. by apply waits_drop.
Qed.

(** What the abstract queue shows of a manager, apart from its slots. *)
Definition alike (m m' : Manager) : Prop :=
  m_pendingPrio m' = m_pendingPrio m ∧ m_pendingSeq m' = m_pendingSeq m ∧
  intent_of <$> m_controls m' = intent_of <$> m_controls m ∧
  m_queuePaused m' = m_queuePaused m ∧ m_queuePausedIDs m' = m_queuePausedIDs m ∧ m_closed m' = m_closed m.

Lemma alike_signal m : alike m (signalLocked m).
Proof. unfold signalLocked. by destruct (m_wake m). Qed.
Lemma alike_compact m : alike m (compactQueueLocked m).
Proof. unfold compactQueueLocked. by destruct (_ <=? _)%nat. Qed.
Lemma alike_trans m1 m2 m3 : alike m1 m2 → alike m2 m3 → alike m1 m3.
Proof. intros (?&?&?&?&?&?) (?&?&?&?&?&?). split_and!; congruence. Qed.

Lemma represents_alike s s' a :
  represents s a → alike (mgr s) (mgr s') → direct s' = direct s →
  leaving_of (s_dispatcher s') = leaving_of (s_dispatcher s) → represents s' a.
Proof.
  intros [] (E1&E2&E3&E4&E5&E6) E7 E8. split; try congruence. by apply (waits_same (mgr s)).
Qed.

Lemma active_eq s a : sys_inv s → represents s a → sp_active a = m_active (mgr s).
Proof.
  intros Hs Hr. unfold sp_active. by rewrite (rp_intents _ _ Hr), (rp_direct _ _ Hr), dom_fmap_L, (si_active _ Hs).
Qed.

Lemma is_active_eq s a id : sys_inv s → represents s a → is_active a id = bool_decide (id ∈ m_active (mgr s)).
Proof. intros Hs Hr. unfold is_active. by rewrite (active_eq s a). Qed.

Lemma is_waiting_eq s a id : sys_inv s → represents s a → is_waiting a id = bool_decide (id ∈ m_pending (mgr s)).
Proof.
  intros Hs Hr. unfold is_waiting. apply bool_decide_ext, waits_pending; [apply Hs|apply Hr].
Qed.

Lemma waits_length m w : mgr_inv m → waits m w → length w = size (m_pending m).
Proof.
  intros Hm Hw. rewrite <-(length_fmap fst). rewrite <-(size_list_to_set (C:=gset string)) by apply Hw.
  f_equal. apply set_eq. intros id. rewrite elem_of_list_to_set. by apply waits_pending.
Qed.

(** A waiting job that is taken out. *)
Lemma represents_drop s a id m :
  represents s a → alike (drop_pending id (mgr s)) m →
  represents (s <| mgr := m |>) (a <| sp_waiting := without id (sp_waiting a) |>).
Proof.
  intros Hr Ha. pose proof Hr as []. apply (represents_alike (s <| mgr := drop_pending id (mgr s) |>)); try done.
  split; try done. by apply waits_drop.
Qed.

(** A job that starts to wait. *)
Lemma represents_join s a id p m :
  sys_inv s → represents s a → m_sequence (mgr s) + 1 < 2 ^ 64 → id ∉ m_pending (mgr s) →
  alike (join_pending id p (mgr s)) m →
  represents (s <| mgr := m |>) (a <| sp_waiting := sp_waiting a ++ [(id, p)] |>).
Proof.
  intros Hs Hr Hroom Hid Ha. pose proof Hr as [].
  apply (represents_alike (s <| mgr := join_pending id p (mgr s) |>)); try done.
  split; try done. apply waits_join; [apply Hs|done..].
Qed.

Lemma refine_request n s a id p m outcome :
  sys_inv s → represents s a → m_sequence (mgr s) + 1 < 2 ^ 64 →
  start_job_locked id p (mgr s) = (m, outcome) →
  ∃ a', spec_next n (Requested id p outcome) a = Some a' ∧ represents (s <| mgr := m |>) a'.
Proof.
  intros Hs Hr Hroom H. pose proof (si_mgr _ Hs) as Hm.
  assert (outcome = answer_to a id) as Hout.
  { unfold answer_to. rewrite (is_active_eq s), (is_waiting_eq s), (rp_closed _ _ Hr), (waits_length _ _ Hm (rp_waits _ _ Hr)) by done.
    unfold start_job_locked in H. destruct (m_closed (mgr s)); [by simplify_eq|]. destruct (_ || _); [by simplify_eq|].
    by destruct (_ <=? _)%nat; simplify_eq. }
  cbn [spec_next]. rewrite bool_decide_eq_true_2 by done. eexists. split; [done|]. clear Hout. unfold start_job_locked in H.
  assert (m = mgr s → represents (s <| mgr := m |>) a) as Hsame by (intros ->; by apply (represents_alike s)).
  destruct (m_closed (mgr s)); [simplify_eq; auto|].
  destruct (bool_decide (id ∈ m_pending (mgr s))) eqn:Ep; cbn [orb] in H; [simplify_eq; auto|].
  destruct (bool_decide (id ∈ m_active (mgr s))) eqn:Ea; cbn [orb] in H; [simplify_eq; auto|].
  destruct (_ <=? _)%nat; [simplify_eq; auto|]. bool_to_prop. cbn [m_started update_field] in H.
  destruct (m_started (mgr s)); simplify_eq; apply represents_join; try done.
  eapply alike_trans; [|apply alike_signal]. by eapply alike_trans; [|apply alike_compact].
Qed.

(** A parked job goes back to the queue unless it has come back by itself. *)
Definition comes_back (m : Manager) (id : string) : bool :=
  negb (bool_decide (id ∈ m_pending m) || bool_decide (id ∈ m_active m)).

Lemma filter_bool_ext {A} (f g : A → bool) (l : list A) :
  (∀ x, x ∈ l → f x = g x) → filter (λ x, f x = true) l = filter (λ x, g x = true) l.
Proof.
  induction l as [|x l IH]; intros H; [done|]. rewrite !filter_cons, (H x) by by left.
  case_decide; rewrite IH; try done; intros y Hy; apply H; by right.
Qed.

Lemma resume_one_step m id w :
  mgr_inv m → id ∈ m_queuePausedIDs m → m_sequence m + 1 < 2 ^ 64 → waits m w →
  waits (resume_one m id) (w ++ (if comes_back m id then [(id, 0)] else []))
  ∧ ∀ i, i ≠ id → comes_back (resume_one m id) i = comes_back m i.
Proof.
  intros Hm Hid Hroom Hw. unfold resume_one, comes_back.
  destruct (bool_decide (id ∈ m_active m)) eqn:Ea; rewrite ?orb_true_r, ?orb_false_r; simpl.
  { rewrite app_nil_r. split; [by apply (waits_same m)|done]. }
  destruct (bool_decide (id ∈ m_pending m)) eqn:Ep; simpl.
  { rewrite app_nil_r. split; [by apply (waits_same m)|done]. }
  bool_to_prop. rewrite pushPending_join. split.
  - apply (waits_same (requeue_job id 0 m)); [done|done|]. by apply waits_requeue.
  - intros i Hi. unfold requeue_job. set (m2 := push_item _ _ _ _). destruct (compact_same m2) as (->&->&_). simpl.
    rewrite (bool_decide_ext (i ∈ {[id]} ∪ m_pending m) (i ∈ m_pending m)); [done|set_solver].
Qed.

Lemma resume_waits m order w :
  mgr_inv m → NoDup order → (∀ id, id ∈ order → id ∈ m_queuePausedIDs m) →
  m_sequence m + Z.of_nat (length order) < 2 ^ 64 → waits m w →
  waits (foldl resume_one m order) (w ++ ((λ id, (id, 0)) <$> filter (λ id, comes_back m id = true) order)).
Proof.
  revert m w. induction order as [|id order IH]; intros m w Hm Hnd Hin Hroom Hw; cbn [foldl].
  { by rewrite filter_nil, app_nil_r. }
  apply NoDup_cons in Hnd as [Hni Hnd]. cbn [length] in Hroom.
  destruct (resume_one_spec m id Hm (Hin id ltac:(left)) ltac:(lia)) as (H1&H2&H3&_).
  destruct (resume_one_step m id w Hm (Hin id ltac:(left)) ltac:(lia) Hw) as [Hw' Hb].
  assert (∀ i, i ∈ order → i ∈ m_queuePausedIDs (resume_one m id)) as Hin'.
  { intros i Hi. rewrite H2. apply elem_of_difference. split; [apply Hin; by right|]. rewrite elem_of_singleton. by intros ->. }
  specialize (IH (resume_one m id) _ H1 Hnd Hin' ltac:(lia) Hw').
  rewrite (filter_bool_ext (comes_back (resume_one m id)) (comes_back m)) in IH by (intros i Hi; apply Hb; congruence).
  rewrite <-(assoc_L (++)) in IH. rewrite filter_cons. destruct (comes_back m id); by case_decide.
Qed.

Lemma resume_fold_same m order :
  m_controls (foldl resume_one m order) = m_controls m ∧ m_closed (foldl resume_one m order) = m_closed m
  ∧ m_queuePaused (foldl resume_one m order) = m_queuePaused m
  ∧ m_queuePausedIDs (foldl resume_one m order) = m_queuePausedIDs m ∖ list_to_set order.
Proof.
  revert m. induction order as [|id order IH]; intros m; cbn [foldl]; [split_and!; [done..|set_solver]|].
  destruct (IH (resume_one m id)) as (->&->&->&->). unfold resume_one, pushPendingLocked, compactQueueLocked.
  repeat case_match; simpl; (split_and!; [done..|set_solver]).
Qed.

Lemma refine_resume n s a order :
  sys_inv s → represents s a → order ≡ₚ elements (m_queuePausedIDs (mgr s)) →
  m_sequence (mgr s) + Z.of_nat (length order) < 2 ^ 64 →
  ∃ a', spec_next n (QueueResumed order) a = Some a' ∧ represents (s <| mgr := ResumeQueue order (mgr s) |>) a'.
Proof.
  intros Hs Hr Ho Hroom. pose proof Hr as []. cbn [spec_next]. rewrite bool_decide_eq_true_2 by (by rewrite rp_parked0).
  eexists. split; [done|]. unfold ResumeQueue. rewrite resume_fold_paused. set (m1 := foldl resume_one (mgr s) order).
  destruct (resume_fold_same (mgr s) order) as (E1&E2&E3&E4). fold m1 in E1, E2, E3, E4.
  apply (represents_alike (s <| mgr := m1 <| m_queuePaused := false |> |>)); [|apply alike_signal|done|done].
  split; simpl; try done; [|by rewrite E1| |by rewrite E2].
  - apply (waits_same m1); [done|done|].
    rewrite (filter_bool_ext _ (comes_back (mgr s))) by (intros i _; by rewrite (is_waiting_eq s), (is_active_eq s) by done).
    apply resume_waits; [apply Hs|rewrite Ho; apply NoDup_elements| |done|done].
    intros i. by rewrite Ho, elem_of_elements.
  - rewrite E4, Ho, list_to_set_elements_L. set_solver.
Qed.

(** A control is asked to stop. *)
Lemma represents_stop s a id f :
  represents s a → is_Some (m_controls (mgr s) !! id) → (∀ c, intent_of (f c) = Stops) →
  represents (s <| mgr := alter_control id f (mgr s) |>) (stop_job id a).
Proof.
  intros Hr [c Hc] Hf. pose proof Hr as []. unfold stop_job. rewrite rp_intents0, lookup_fmap, Hc. simpl.
  split; try done; simpl; [by apply (waits_same (mgr s))|]. apply map_eq. intros i. rewrite lookup_fmap. destruct (decide (i = id)) as [->|Hne].
  - rewrite lookup_insert_eq, lookup_alter_eq, Hc. simpl. by rewrite Hf.
  - by rewrite lookup_insert_ne, lookup_alter_ne, lookup_fmap by done.
Qed.

Lemma stop_job_waiting a id : sp_intents a !! id = None → stop_job id a = a <| sp_waiting := without id (sp_waiting a) |>.
Proof. intros H. unfold stop_job. by rewrite H. Qed.

Lemma intents_none s a id : represents s a → m_controls (mgr s) !! id = None → sp_intents a !! id = None.
Proof. intros Hr H. by rewrite (rp_intents _ _ Hr), lookup_fmap, H. Qed.

Lemma refine_client n e s s' a :
  sys_inv s → s_startup s = Promoted → m_maxActiveFiles (mgr s) = n → represents s a →
  client e s s' → ∃ a', spec_next n e a = Some a' ∧ represents s' a'.
Proof.
  intros Hs Hst Hn Hr Hstep. pose proof Hr as Hr0. destruct Hr0. pose proof (si_mgr _ Hs) as Hm.
  destruct Hstep; try congruence.
  - by eapply refine_request.
  - exists a. split; [done|by apply (represents_alike s)].
  - cbn [spec_next]. rewrite (is_active_eq s), (is_waiting_eq s), (active_eq s), rp_closed0 by done. unfold run_job_begin in H. rewrite Hn in H.
    destruct (m_closed (mgr s)) eqn:Ec; [done|]. destruct (bool_decide (id ∈ m_active (mgr s))) eqn:Ea; [done|].
    destruct (bool_decide (id ∈ m_pending (mgr s))) eqn:Ep; [done|]. destruct (_ <=? _)%nat; [done|]. simplify_eq. cbn [orb].
    eexists. split; [done|]. split; simpl; first [done|congruence|by apply (waits_same (mgr s))|by rewrite rp_direct0].
  - cbn [spec_next]. rewrite rp_direct0, bool_decide_eq_true_2 by done. eexists. split; [done|]. unfold run_job_end.
    apply (represents_alike (s <| mgr := mgr s <| m_active := m_active (mgr s) ∖ {[id]} |> |> <| direct := direct s ∖ {[id]} |>));
      [|apply alike_signal|done|done].
    split; simpl; first [done|by apply (waits_same (mgr s))|by rewrite rp_direct0].
  - eexists. split; [done|]. set (a0 := a <| sp_parked := sp_parked a ∖ {[id]} |>).
    set (m0 := mgr s <| m_queuePausedIDs := m_queuePausedIDs (mgr s) ∖ {[id]} |>).
    assert (represents (s <| mgr := m0 |>) a0) as Hr1.
    { split; simpl; first [done|by apply (waits_same (mgr s))|by rewrite rp_parked0]. }
    unfold pause_job_locked in H. fold m0 in H. cbv zeta in H. destruct (m_controls m0 !! id) as [c|] eqn:Hc; simplify_eq.
    + apply (represents_stop (s <| mgr := m0 |>) a0 id (λ c, c <| pauseRequested := true |> <| ct_cancelled := true |>) Hr1);
        [by eexists|]. intros c'. unfold intent_of. simpl. by rewrite orb_true_r.
    + rewrite stop_job_waiting by (by eapply (intents_none (s <| mgr := m0 |>))).
      apply (represents_drop (s <| mgr := m0 |>) a0 id _ Hr1), alike_compact.
  - eexists. split; [done|]. unfold cancel_job_locked in H. destruct (m_controls (mgr s) !! id) as [c|] eqn:Hc; simplify_eq.
    + by apply represents_stop; [|by eexists|].
    + rewrite stop_job_waiting by (by eapply intents_none). by apply represents_drop.
  - eexists. split; [done|]. apply represents_drop; [done|]. apply alike_compact.
  - eexists. split; [done|]. unfold PauseQueue.
    match goal with |- context [signalLocked ?m] => apply (represents_alike (s <| mgr := m |>)) end; [|apply alike_signal|done|done].
    split; simpl; first [done|by apply (waits_same (mgr s))|rewrite rp_intents0, <-!map_fmap_compose].
    apply map_fmap_ext. intros i c _. unfold intent_of. simpl. by repeat case_match.
  - by apply refine_resume.
  - eexists. split; [done|]. split; simpl; first [done|by apply (waits_same (mgr s))|by rewrite rp_direct0].
  - exists a. split; [done|by apply (represents_alike s)].
Qed.

Lemma refine_dispatch n e s s' a :
  sys_inv s → s_startup s = Promoted → m_maxActiveFiles (mgr s) = n → represents s a →
  dispatch e s s' → ∃ a', spec_next n e a = Some a' ∧ represents s' a'.
Proof.
  intros Hs Hst Hn Hr Hstep. pose proof Hr as Hr0. destruct Hr0. pose proof (si_mgr _ Hs) as Hm.
  assert (∀ s2, alike (mgr s) (mgr s2) → direct s2 = direct s → leaving_of (s_dispatcher s2) = leaving_of (s_dispatcher s) →
    ∃ a', spec_next n Silent a = Some a' ∧ represents s2 a') as Hsame.
  { intros s2 ???. exists a. split; [done|by apply (represents_alike s)]. }
  destruct Hstep.
  - apply Hsame; simpl; by rewrite ?H.
  - destruct (launch_one_spec _ _ _ Hm H0) as (Hpaused&Hsz&item&q&_&_&_&Hjob). destruct job as [id|].
    + destruct (launch_best _ _ _ _ Hm (si_live _ Hs Hst) rp_waits0 H0) as (p&Hbest&Hw'&Hact). cbn [spec_next].
      rewrite rp_paused0, Hpaused, (active_eq s) by done. rewrite (proj2 (Nat.leb_gt _ _)) by lia. cbn [orb].
      rewrite Hbest, bool_decide_eq_true_2 by done. eexists. split; [done|]. destruct Hjob as (_&_&->).
      split; simpl; first [done|by rewrite rp_intents0, fmap_insert].
    + destruct Hjob as (_&->). by apply Hsame.
  - apply Hsame; simpl; by rewrite ?H.
  - apply Hsame; simpl; by rewrite ?H.
  - unfold finish_first in H1. destruct (m_controls (mgr s) !! id) as [c|] eqn:Hc; [|done]. cbn [spec_next].
    rewrite rp_intents0, lookup_fmap, Hc, rp_leaving0, H. cbn [fmap option_fmap option_map leaving_of]. eexists. split; [done|].
    assert (bool_decide (intent_of c = Yields)
      = (queuePauseRequested c && negb (cancelRequested c) && negb (pauseRequested c))) as ->.
    { unfold intent_of. by destruct (cancelRequested c), (pauseRequested c), (queuePauseRequested c). }
    rewrite rp_paused0. simplify_eq. set (again := _ && negb (pauseRequested c)).
    split; simpl; destruct (again && m_queuePaused (mgr s)); simpl;
      first [done|by apply (waits_same (mgr s))|by rewrite rp_parked0].
  - apply Hsame; simpl; by rewrite ?H.
  - cbn [spec_next]. rewrite rp_leaving0, H. cbn [leaving_of]. rewrite bool_decide_eq_true_2 by done. eexists. split; [done|].
    pose proof (si_jobs _ Hs ltac:(by rewrite H)) as [_ B _ _].
    assert (id ∈ m_active (mgr s)) as Hid by (apply (mi_controls _ Hm), B; unfold finishing; rewrite H; auto).
    assert (id ∉ m_pending (mgr s)) as Hnp by (pose proof (mi_disjoint _ Hm); set_solver).
    set (m1 := mgr s <| m_active := m_active (mgr s) ∖ {[id]} |> <| m_controls := delete id (m_controls (mgr s)) |>).
    unfold finish_second. fold m1. cbv zeta.
    match goal with |- context [signalLocked ?m] => apply (represents_alike (s <| mgr := m |> <| s_dispatcher := DTop |>)) end;
      [|apply alike_signal|done|done].
    destruct requeue.
    + rewrite pushPending_join. unfold requeue_job. set (m2 := push_item _ _ _ _).
      apply (represents_alike (s <| mgr := m2 |> <| s_dispatcher := DTop |>)); [|apply alike_compact|done|done].
      split; simpl; first [done|by rewrite rp_intents0, fmap_delete|apply (waits_same (join_pending id 0 (mgr s)))]; [done|done|].
      by apply waits_join.
    + split; simpl; first [done|by apply (waits_same (mgr s))|by rewrite rp_intents0, fmap_delete].
  - apply Hsame; simpl; [|done|by destruct H as [-> | ->]]. split_and!; try done.
    unfold stopActiveJobs, map_controls. simpl. by rewrite <-map_fmap_compose.
  - eexists. split; [done|]. split; simpl; first [done|by apply (waits_same (mgr s))|by rewrite fmap_empty|by rewrite rp_leaving0, H].
Qed.

Lemma refine_step n e s s' a :
  sys_inv s → s_startup s = Promoted → m_maxActiveFiles (mgr s) = n → represents s a →
  event_step e s s' → ∃ a', spec_next n e a = Some a' ∧ represents s' a'.
Proof. intros ???? [|]; [by eapply refine_dispatch|by eapply refine_client]. Qed.

Lemma refine_runs n es s s' a :
  sys_inv s → s_startup s = Promoted → m_maxActiveFiles (mgr s) = n → represents s a →
  runs es s s' → ∃ a', spec_run n es a = Some a' ∧ represents s' a'.
Proof.
  intros Hs Hst Hn Hr Hrun. revert a Hs Hst Hn Hr.
  induction Hrun as [s|e es s s1 s2 Hstep Hrun IH]; intros a Hs Hst Hn Hr; [by exists a|].
  assert (qstep s s1) as Hq by by exists e.
  destruct (step_constant _ _ Hq) as [Hmax Hpro].
  destruct (refine_step n e s s1 a) as (a1&E1&Hr1); [done..|].
  destruct (IH a1) as (a2&E2&Hr2); [by eapply sys_inv_step|auto|congruence|done|].
  exists a2. split; [|done]. unfold spec_run. cbn [foldl]. change (Some a ≫= spec_next n e) with (spec_next n e a). by rewrite E1.
Qed.

(** ** Progress of the dispatcher *)

(** A job is waiting, the queue is not paused and a slot is free. *)
Definition launchable (m : Manager) : Prop :=
  m_pending m ≠ ∅ ∧ m_queuePaused m = false ∧ (size (m_active m) < m_maxActiveFiles m)%nat.

(** No waiting job goes before [id]. *)
Definition first_in_line (m : Manager) (id : string) : Prop :=
  ∃ p s, m_pendingPrio m !! id = Some p ∧ m_pendingSeq m !! id = Some s ∧
    ∀ id' p' s', m_pendingPrio m !! id' = Some p' → m_pendingSeq m !! id' = Some s' →
      p' < p ∨ (p' = p ∧ s ≤ s').

Lemma launchable_queue m : mgr_inv m → live_items m → launchable m → m_queue m ≠ [].
Proof.
  intros Hm Hl (Hp&_) Hq. apply set_choose_L in Hp as [id Hid].
  rewrite <- (mi_prio _ Hm) in Hid. apply elem_of_dom in Hid as [p Hprio].
  pose proof (Hl id p _ Hprio (seq_of_spec m id p Hm Hprio)) as Hin. rewrite Hq in Hin.
  by apply not_elem_of_nil in Hin.
Qed.

(** Popping stale entries until the first job in line starts. *)
Lemma launches s :
  mgr_inv (mgr s) → live_items (mgr s) → launchable (mgr s) → s_dispatcher s = DLaunching →
  ∃ id s', rtc dispatches s s' ∧ first_in_line (mgr s) id ∧ id ∈ running s' ∧
    m_active (mgr s') = {[id]} ∪ m_active (mgr s).
Proof.
  remember (length (m_queue (mgr s))) as k eqn:Hk. revert s Hk.
  induction k as [k IH] using lt_wf_ind. intros s Hk Hm Hl Hlb Hd.
  destruct (launch_one (mgr s)) as [[m' job]|] eqn:Ho; cycle 1.
  { exfalso. pose proof (launchable_queue _ Hm Hl Hlb). destruct Hlb as (_&Hp&Hsz).
    destruct (launch_one_none _ Hm Ho) as [|[|]]; [congruence|lia|done]. }
  pose proof (launch_inv _ _ _ Hm Ho) as Hm'. pose proof (launch_live _ _ _ Hm Hl Ho) as Hl'.
  destruct (launch_one_spec _ _ _ Hm Ho) as (_&_&item&q&Hperm&_&Hmin&Hjob).
  pose proof (d_launch s m' job Hd Ho) as Hstep. apply (ex_intro (λ e, dispatch e s _)) in Hstep. destruct job as [id|].
  - destruct Hjob as (Hc&->&->). apply bool_decide_eq_true in Hc.
    exists (qi_job item). eexists. split; [by apply rtc_once|].
    split_and!; [|simpl; set_solver|done].
    assert (item ∈ m_queue (mgr s)) as Hin by (rewrite Hperm; by left).
    exists (qi_priority item), (qi_sequence item).
    split_and!; [by apply (mi_item_prio _ Hm)|done|]. intros i p t Hp Ht.
    destruct (Hmin _ (Hl i p t Hp Ht)) as [<-|Hle%item_le_spec]; simpl in *; [lia|lia].
  - destruct Hjob as (_&->).
    assert (length q < k)%nat as Hlt by (rewrite Hk, (Permutation_length Hperm); simpl; lia).
    set (s2 := s <| mgr := _ |> <| running := _ |>) in *.
    assert (length q = length (m_queue (mgr s2))) as Hlen by reflexivity.
    destruct (IH (length q) Hlt s2 Hlen Hm' Hl' Hlb Hd) as (id&s'&Hrun&Hfirst&Hin&Hact).
    exists id, s'. split; [by eapply rtc_l|done].
Qed.

Lemma progress s :
  sys_inv s → s_startup s = Promoted → m_ctx (mgr s) = Some false → launchable (mgr s) →
  s_dispatcher s = DTop ∨ s_dispatcher s = DLaunching ∨ s_dispatcher s = DWaiting →
  ∃ id s', rtc dispatches s s' ∧ first_in_line (mgr s) id ∧ id ∈ running s' ∧
    m_active (mgr s') = {[id]} ∪ m_active (mgr s).
Proof.
  intros Hs Hst Hctx Hlb Hd. pose proof (si_mgr _ Hs) as Hm. pose proof (si_live _ Hs Hst) as Hl.
  assert (s_dispatcher s = DLaunching → ∃ id s', rtc dispatches s s' ∧ first_in_line (mgr s) id ∧
    id ∈ running s' ∧ m_active (mgr s') = {[id]} ∪ m_active (mgr s)) as Hlaunch by (by apply launches).
  assert (∀ s1 : System, m_ctx (mgr s1) = Some false → mgr_inv (mgr s1) → live_items (mgr s1) →
    launchable (mgr s1) → s_dispatcher s1 = DTop →
    ∃ id s', rtc dispatches s1 s' ∧ first_in_line (mgr s1) id ∧ id ∈ running s' ∧
      m_active (mgr s') = {[id]} ∪ m_active (mgr s1)) as Htop.
  { intros s1 H1 H2 H3 H4 H5. destruct (launches (s1 <| s_dispatcher := DLaunching |>)) as (id&s'&?&?&?&?);
      [done..|]. exists id, s'. split; [|done]. eapply rtc_l; [eexists; by apply d_top|done]. }
  destruct Hd as [Hd|[Hd|Hd]]; [by apply Htop|by apply Hlaunch|].
  assert (m_wake (mgr s) = Some true) as Hw.
  { destruct (si_started _ Hs) as (_&[[] Hw]&_); [by rewrite Hst|done|]. exfalso.
    pose proof (launchable_queue _ Hm Hl Hlb). destruct Hlb as (_&Hp&Hsz).
    destruct (si_waiting _ Hs Hd Hw) as [|[|]]; [congruence|lia|done]. }
  destruct (Htop (s <| mgr := mgr s <| m_wake := Some false |> |> <| s_dispatcher := DTop |>))
    as (id&s'&?&?&?&?); [done|by destruct Hm; split|done..|].
  exists id, s'. split; [|done]. eapply rtc_l; [eexists; by apply d_wake|done].
Qed.

(** ** A concrete run *)

(** A manager with one slot starts; two jobs are queued, the second with a
    higher priority. *)
Definition sample_manager : Manager :=
  mkManager true false (Some false) [mkItem "b" 5 2; mkItem "a" 0 1] (Some true) {["a"; "b"]} ∅ ∅
    {[ "a" := 0; "b" := 5 ]} {[ "a" := 1; "b" := 2 ]} false ∅ 2 1.
Definition sample_system : System := mkSystem sample_manager Promoted DTop ∅ ∅ [].

Lemma sample_reachable : rtc qstep (idle 1) sample_system.
Proof.
  set (m0 := empty_manager 1 <| m_ctx := Some false |> <| m_wake := Some false |>
               <| m_started := true |>).
  set (s0 := mkSystem m0 Starting DNone ∅ ∅ []).
  eapply (rtc_step_eq _ _ _ s0).
  { eexists. right. by apply (c_start_begin (idle 1) m0). }
  { reflexivity. }
  eapply (rtc_step_eq _ _ _ (s0 <| s_dispatcher := DTop |>)).
  { eexists. right. by apply c_start_go. }
  { reflexivity. }
  eapply (rtc_step_eq _ _ _ (s0 <| s_dispatcher := DTop |> <| s_startup := Promoted |>)).
  { eexists. right. apply (c_promote (s0 <| s_dispatcher := DTop |>) []); [done..|].
    change ([] ≡ₚ elements (∅ : gset string)). by rewrite elements_empty. }
  { reflexivity. }
  set (s1 := s0 <| s_dispatcher := DTop |> <| s_startup := Promoted |>).
  destruct (start_job_locked "a" 0 (mgr s1)) as [m2 o2] eqn:E2.
  eapply (rtc_step_eq _ _ _ (s1 <| mgr := m2 |>)).
  { eexists. right. by apply (c_enqueue s1 "a" 0 m2 o2). }
  { reflexivity. }
  destruct (start_job_locked "b" 5 m2) as [m3 o3] eqn:E3.
  eapply (rtc_step_eq _ _ _ (s1 <| mgr := m3 |>)).
  { eexists. right. apply (c_enqueue (s1 <| mgr := m2 |>) "b" 5 m3 o3); [|done].
    apply (f_equal fst) in E2. simpl in E2. by rewrite <- E2. }
  { reflexivity. }
  apply (f_equal fst) in E2, E3. simpl in E2, E3. subst m2 m3. vm_compute. apply rtc_refl.
Qed.

(** ** The properties of the queue *)

(** C27: in every reachable state the active jobs never exceed the
    configured limit, nor the waiting ones 128 plus that limit; no job is
    both waiting and active, no job runs twice at the same time, and the
    finished jobs whose results wait on the channel are fewer than its
    capacity, so no job goroutine blocks on it. *)
Theorem queue_bounds n s :
  rtc qstep (idle n) s →
  let m := mgr s in
  (size (m_active m) ≤ n)%nat ∧ (size (m_pending m) ≤ maxQueuedJobs + n)%nat ∧
  m_pending m ## m_active m ∧ direct s ⊆ m_active m ∧
  (s_dispatcher s ≠ DGone →
    running s ⊆ m_active m ∧ running s ## direct s ∧
    (∀ id, id ∈ jobResults s → id ∈ m_active m ∧ id ∉ running s ∧ id ∉ direct s) ∧
    (length (jobResults s) + size (running s) ≤ n)%nat).
Proof.
  intros Hr m. pose proof (sys_inv_reachable n s Hr) as Hs. pose proof (si_mgr _ Hs) as Hm.
  assert (m_maxActiveFiles m = n) as Hmax.
  { apply (rtc_invariant qstep (λ s, m_maxActiveFiles (mgr s) = n) (idle n) s); [|done|done].
    intros a b Hab <-. by apply step_constant. }
  pose proof (mi_active _ Hm) as Hact. fold m in Hact. rewrite Hmax in Hact.
  split; [done|]. split.
  { pose proof (mi_bound _ Hm) as Hb. fold m in Hb. rewrite Hmax in Hb. etrans; [|exact Hb].
    apply subseteq_size. set_solver. }
  split; [apply Hm|]. split; [unfold m; rewrite (si_active _ Hs); set_solver|].
  intros Hd. destruct (si_jobs _ Hs Hd) as [A B C D].
  assert (∀ id, id ∈ dom (m_controls m) → id ∈ m_active m ∧ id ∉ direct s) as Hc.
  { intros id Hid. split; [by apply (mi_controls _ Hm)|]. pose proof (si_direct _ Hs). set_solver. }
  split_and!.
  - intros id Hid. apply Hc, B. auto.
  - intros id Hid. apply Hc, B. auto.
  - intros id Hid. destruct (Hc id) as [? ?]; [apply B; auto|]. by destruct (C id Hid).
  - assert (size (list_to_set (jobResults s) ∪ running s : gset string) ≤ size (m_active m))%nat as Hle.
    { apply subseteq_size. intros id [Hid%elem_of_list_to_set|Hid]%elem_of_union; apply Hc, B; auto. }
    rewrite size_union, size_list_to_set in Hle; [lia|done|].
    intros id Hid%elem_of_list_to_set. by apply C.
Qed.

Lemma queue_bounds_witness :
  rtc qstep (idle 1) sample_system ∧ (size (m_active (mgr sample_system)) ≤ 1)%nat.
Proof.
  split; [exact sample_reachable|].
  by destruct (queue_bounds 1 sample_system sample_reachable) as (?&_).
Defined.

(** C4: once started, the queue of heap, maps and counters behaves as the
    abstract queue, event for event.  Every reachable manager agrees with some
    abstract queue; and from any state the two agree in, whatever steps the
    dispatcher, the callers and the job goroutines take, the abstract queue
    takes the same events - requests with their answers, launches, what is
    decided about a finished job, pauses, cancellations and resumptions - and
    they agree again.  In the abstract queue a launch takes the first of the
    waiting jobs with the highest priority, and only while a slot is free and
    the queue is not paused; a request is refused exactly when the queue is
    closed, holds the job or is full; and a job leaves the queue only when it is
    launched or someone pauses, cancels or deletes it. *)
Theorem queue_refines n s :
  rtc qstep (idle n) s → s_startup s = Promoted →
  (∃ a, represents s a) ∧
  ∀ a es s', represents s a → runs es s s' → ∃ a', spec_run n es a = Some a' ∧ represents s' a'.
Proof.
  intros Hr Hst. pose proof (sys_inv_reachable n s Hr) as Hs. split.
  - destruct (waits_exists _ (si_mgr _ Hs)) as [w Hw].
    by exists (mkSpec w (intent_of <$> m_controls (mgr s)) (direct s) (m_queuePaused (mgr s)) (m_queuePausedIDs (mgr s))
      (leaving_of (s_dispatcher s)) (m_closed (mgr s))).
  - intros a es s' Hrep Hrun. apply (refine_runs n es s s'); [done|done| |done|done].
    apply (rtc_invariant qstep (λ s, m_maxActiveFiles (mgr s) = n) (idle n) s); [|done|done].
    intros x y Hxy <-. by apply step_constant.
Qed.

(** The dispatcher launches the second job, which has the higher priority; no
    run launches the first one in its place. *)
Definition sample_spec : Spec := mkSpec [("a", 0); ("b", 5)] ∅ ∅ false ∅ None false.
Definition sample_launched : System :=
  sample_system <| s_dispatcher := DLaunching |>
    <| mgr := match launch_one sample_manager with Some (m, _) => m | None => sample_manager end |>
    <| running := {["b"]} |>.

Lemma sample_represented : represents sample_system sample_spec.
Proof.
  split; try done. split; [by repeat constructor; set_solver| |repeat constructor].
  intros id p. unfold sample_spec. cbn [sp_waiting].
  change (m_pendingPrio _) with (<["a" := 0]> {["b" := 5]} : gmap string Z).
  rewrite !elem_of_cons, elem_of_nil, lookup_insert_Some, lookup_singleton_Some. naive_solver.
Qed.

Lemma queue_refines_witness :
  (∃ a, spec_run 1 [Silent; Launched "b"] sample_spec = Some a ∧ represents sample_launched a)
  ∧ spec_run 1 [Silent; Launched "a"] sample_spec = None.
Proof.
  split; [|vm_compute; reflexivity].
  destruct (queue_refines 1 sample_system sample_reachable eq_refl) as [_ H].
  apply (H sample_spec); [exact sample_represented|].
  eapply runs_cons; [left; by apply d_top|]. eapply runs_cons; [|apply runs_nil].
  left. exact (d_launch (sample_system <| s_dispatcher := DLaunching |>) _ (Some "b") eq_refl eq_refl).
Defined.

(** C10: no wake-up is lost.  Whenever a job is waiting, the queue is
    running and a slot is free, the dispatcher - unless it is busy finishing
    a job - starts the first job in line by its own steps alone, without
    another call from outside. *)
Theorem queue_progress n s :
  rtc qstep (idle n) s → s_startup s = Promoted → m_ctx (mgr s) = Some false →
  launchable (mgr s) →
  s_dispatcher s = DTop ∨ s_dispatcher s = DLaunching ∨ s_dispatcher s = DWaiting →
  ∃ id s', rtc dispatches s s' ∧ first_in_line (mgr s) id ∧ id ∈ running s' ∧
    m_active (mgr s') = {[id]} ∪ m_active (mgr s).
Proof. intros Hr. apply progress, (sys_inv_reachable n s Hr). Qed.

Lemma queue_progress_witness :
  launchable (mgr sample_system) ∧
  ∃ id s', rtc dispatches sample_system s' ∧ id ∈ running s'.
Proof.
  assert (launchable (mgr sample_system)) as Hl by (split_and!; [by vm_compute|done|vm_compute; lia]).
  split; [done|].
  destruct (queue_progress 1 sample_system sample_reachable eq_refl eq_refl Hl (or_introl eq_refl))
    as (id&s'&?&_&?&_). by exists id, s'.
Defined.

(** ** A lost resume

    [finishJob] decides whether to requeue in its first critical section and
    acts in its second.  A [ResumeQueue] in between finds the job still
    active, forgets that the queue pause stopped it, and the job is left
    neither waiting nor remembered. *)
Definition pausing_manager : Manager :=
  mkManager true false (Some false) [] (Some false) ∅ {["a"]}
    {[ "a" := mkControl true false true false false ]} ∅ ∅ true ∅ 1 1.

Lemma resume_between_lost :
  ∃ m1 requeue, finish_first "a" pausing_manager = Some (m1, (false, false, requeue)) ∧
    m_queuePausedIDs m1 = {["a"]} ∧
    let m2 := ResumeQueue ["a"] m1 in
    let m3 := finish_second "a" requeue m2 in
    m_queuePaused m3 = false ∧ m_pending m3 = ∅ ∧ m_active m3 = ∅ ∧ m_queuePausedIDs m3 = ∅.
Proof. eexists _, _. split; [reflexivity|]. by vm_compute. Qed.
