(* ===== verification/Secrets.v ===== *)
(** * The secret store (internal/store/secrets.go)

    Values that must survive a restart are stored as a nonce followed by an
    AES-GCM ciphertext.  The cipher is the standard library's: its sealing
    and opening functions are parameters here. *)

From Stdlib Require Import ZArith Lia.
From stdpp Require Import base list strings.
From S2P Require Import Prelude GoStrings GoErrors.

Definition applicationSecretSize : Z := 32.

(** [crypto/cipher.AEAD] for a key: [Seal] and [Open] with the nonce, and
    the sizes GCM documents. *)
Record AEAD := mkAEAD {
  NonceSize : nat;
  Overhead : nat;
  Seal : list Z → list Z → list Z → list Z;
  Open : list Z → list Z → list Z → result error (list Z) }.

Record SecretStore := mkSecretStore { ss_key : list Z }.

Definition NewSecretStore (key : list Z) : result error SecretStore :=
  if negb (Z.of_nat (length key) =? applicationSecretSize)
  then Err (New ("application secret must be " +:+ FormatInt applicationSecretSize +:+ " bytes"))
  else Ok (mkSecretStore key).

Section secrets.
Context (gcm : AEAD).

(** [nonce] is what [rand.Reader] delivers. *)
Definition SecretStore_Encrypt (s : SecretStore) (nonce plaintext : list Z) : list Z :=
  nonce ++ Seal gcm (ss_key s) nonce plaintext.

Definition SecretStore_Decrypt (s : SecretStore) (ciphertext : list Z) : result error (list Z) :=
  if (length ciphertext <? NonceSize gcm + Overhead gcm)%nat
  then Err (New "encrypted value is truncated")
  else
    match Open gcm (ss_key s) (take (NonceSize gcm) ciphertext) (drop (NonceSize gcm) ciphertext) with
    | Ok plaintext => Ok plaintext
    | Err e => Err (Wrapf "decrypt encrypted value" e)
    end.

(** What GCM promises: opening what was sealed under the same key and nonce
    gives the plaintext back, and a sealed value is longer by the overhead. *)
Record aead_ok : Prop := {
  open_seal key nonce plaintext : length nonce = NonceSize gcm →
    Open gcm key nonce (Seal gcm key nonce plaintext) = Ok plaintext;
  length_seal key nonce plaintext :
    length (Seal gcm key nonce plaintext) = (length plaintext + Overhead gcm)%nat }.

Lemma Decrypt_Encrypt s nonce plaintext :
  aead_ok → length nonce = NonceSize gcm →
  SecretStore_Decrypt s (SecretStore_Encrypt s nonce plaintext) = Ok plaintext.
Proof.
  intros Hg Hn. unfold SecretStore_Decrypt, SecretStore_Encrypt.
  rewrite length_app, (length_seal Hg), Hn.
  rewrite (proj2 (Nat.ltb_ge _ _)) by lia.
  by rewrite take_app_length', drop_app_length', (open_seal Hg).
Qed.
End secrets.
