(* ===== verification/SecretKey.v ===== *)
(** * The application's secret key (internal/store/secrets.go)

    [OpenSecretStore]: loading the key file, or creating it at the first
    launch, one system call after the other, each of which may fail, with other
    processes and the loss of power. *)

From Stdlib Require Import ZArith Lia.
From stdpp Require Import base list gmap strings numbers pretty.
From S2P Require Import Prelude GoStrings GoErrors Secrets.

(** What the path names; a symbolic link with what reading through it gives. *)
Inductive node := Absent | Link (target : option (list Z)) | NotRegular | Regular (content : list Z).

(** What the coming system calls meet: nothing, a failure (of a write after
    [n] bytes), or another process that has put something else at the path. *)
Inductive event := Fine | Fails (n : nat) (e : error) | Meanwhile (x : node).

(** [dk_ours]: the path names the file this process has open for writing;
    [dk_entry] and [dk_content]: name and content survive a loss of power;
    [dk_random] is what [rand.Reader] fills the key with. *)
Record Disk := mkDisk {
  dk_node : node;
  dk_mode : Z;
  dk_ours : bool;
  dk_entry : bool;
  dk_content : bool;
  dk_random : list Z;
  dk_events : list event }.

#[export] Instance Disk_eta : Eta Disk := λ d,
  mkDisk (dk_node d) (dk_mode d) (dk_ours d) (dk_entry d) (dk_content d) (dk_random d) (dk_events d).

Abbreviation disk := (cmd error Disk).

(** A system call with its effect and what is left of it when it fails. *)
Definition os {A} (run : Disk → Disk * result error A) (failed : nat → Disk → Disk) : disk A := λ d,
  match dk_events d with
  | [] => run d
  | Fine :: rest => run (d <| dk_events := rest |>)
  | Fails n e :: rest => (failed n (d <| dk_events := rest |>), Err e)
  | Meanwhile x :: rest =>
      run (d <| dk_events := rest |> <| dk_node := x |> <| dk_ours := false |> <| dk_entry := false |> <| dk_content := false |>)
  end.
Definition quiet_call {A} (run : Disk → result error A) : disk A := os (λ d, (d, run d)) (λ _ d, d).

Definition os_MkdirAll : disk () := quiet_call (λ _, Ok ()).
Definition os_Lstat : disk node := quiet_call (λ d, match dk_node d with Absent => Err (Sentinel ErrNotExist) | x => Ok x end).
Definition os_ReadFile : disk (list Z) := quiet_call (λ d,
  match dk_node d with
  | Regular content | Link (Some content) => Ok content
  | NotRegular => Err (New "is a directory")
  | Absent | Link None => Err (Sentinel ErrNotExist)
  end).
Definition os_Chmod (mode : Z) : disk () := os (λ d,
  match dk_node d with
  | Absent | Link None => (d, Err (Sentinel ErrNotExist))
  | _ => (d <| dk_mode := mode |>, Ok ())
  end) (λ _ d, d).
Definition rand_ReadFull : disk (list Z) := quiet_call (λ d, Ok (dk_random d)).
Definition os_OpenExclusive (mode : Z) : disk () := os (λ d,
  match dk_node d with
  | Absent => (d <| dk_node := Regular [] |> <| dk_mode := mode |> <| dk_ours := true |> <| dk_entry := false |>
                 <| dk_content := false |>, Ok ())
  | _ => (d, Err (Sentinel ErrExist))
  end) (λ _ d, d).
Definition put (bytes : list Z) (d : Disk) : Disk :=
  match dk_node d with
  | Regular content => if dk_ours d then d <| dk_node := Regular (content ++ bytes) |> <| dk_content := false |> else d
  | _ => d
  end.
Definition file_Write (bytes : list Z) : disk () := os (λ d, (put bytes d, Ok ())) (λ n d, put (take n bytes) d).
Definition file_Sync : disk () := os (λ d, (if dk_ours d then d <| dk_content := true |> else d, Ok ())) (λ _ d, d).
Definition any_Close : disk () := quiet_call (λ _, Ok ()).
Definition os_Remove : disk () := os (λ d,
  match dk_node d with
  | Absent => (d, Err (Sentinel ErrNotExist))
  | _ => (d <| dk_node := Absent |> <| dk_ours := false |> <| dk_entry := false |>, Ok ())
  end) (λ _ d, d).
Definition os_OpenDirectory : disk () := quiet_call (λ _, Ok ()).
Definition directory_Sync : disk () := os (λ d, (d <| dk_entry := true |>, Ok ())) (λ _ d, d).

(** [fmt.Errorf("...: %w", err)]. *)
Definition describe {A} (head : string) (m : disk A) : disk A := λ d,
  match m d with (d, Err e) => (d, Err (Wrapf head e)) | x => x end.

Definition loaded (key : list Z) : result error (option SecretStore) :=
  match NewSecretStore key with Ok store => Ok (Some store) | Err e => Err e end.

(** Loading the file that is there. *)
Definition load_secret : disk (option SecretStore) :=
  key ← describe "read application secret" os_ReadFile;
  _ ← guard_err (negb (Z.of_nat (length key) =? applicationSecretSize)) (New "application secret must be 32 bytes");
  _ ← describe "secure application secret permissions" (os_Chmod 384);
  lift_result (loaded key).

(** What follows the creation of the file. *)
Definition write_secret (key : list Z) : disk (option SecretStore) :=
  written ← catch (file_Write key);
  match written with
  | Err e => _ ← ignore any_Close; _ ← ignore os_Remove; throw (Wrapf "write application secret" e)
  | Ok _ =>
    synced ← catch file_Sync;
    match synced with
    | Err e => _ ← ignore any_Close; throw (Wrapf "sync application secret" e)
    | Ok _ =>
      _ ← describe "close application secret" any_Close;
      _ ← describe "open application secret directory" os_OpenDirectory;
      syncErr ← catch directory_Sync;
      closeErr ← catch any_Close;
      _ ← describe "sync application secret directory" (lift_result syncErr);
      _ ← describe "close application secret directory" (lift_result closeErr);
      lift_result (loaded key)
    end
  end.

(** The fuel bounds the calls of itself; [None] when it is used up. *)
Fixpoint OpenSecretStore (fuel : nat) (named : bool) : disk (option SecretStore) :=
  match fuel with
  | O => mret None
  | S fuel =>
    _ ← guard_err (negb named) (New "secret key path is required");
    _ ← describe "create secret key directory" os_MkdirAll;
    info ← catch os_Lstat;
    match info with
    | Ok (Regular _) => load_secret
    | Ok _ => throw (New "secret key path is not a regular file")
    | Err e =>
      if errors_is e ErrNotExist then
        key ← describe "generate application secret" rand_ReadFull;
        file ← catch (os_OpenExclusive 384);
        match file with
        | Err e => if errors_is e ErrExist then OpenSecretStore fuel named else throw (Wrapf "create application secret" e)
        | Ok _ => write_secret key
        end
      else throw (Wrapf "inspect application secret" e)
    end
  end.

(** ** What a loss of power leaves *)

Definition after_power_loss (d : Disk) (x : node) : Prop :=
  match dk_node d with
  | Regular content =>
      (dk_entry d = false ∧ x = Absent) ∨ ∃ content', x = Regular content' ∧ (dk_content d = true → content' = content)
  | y => dk_entry d = true → x = y
  end.

Definition event_quiet (ev : event) : Prop := match ev with Meanwhile _ => False | _ => True end.

(** What holds of an end [d'], [r] of opening from [d]. *)
Definition kept (d d' : Disk) (r : result error (option SecretStore)) : Prop :=
  r ≠ Ok None
  ∧ (dk_node d ≠ Absent → dk_node d' = dk_node d ∧ dk_entry d' = dk_entry d ∧ dk_content d' = dk_content d)
  ∧ ∀ store, r = Ok (Some store) → ∃ key,
      length key = 32%nat ∧ store = mkSecretStore key ∧ dk_node d' = Regular key ∧ dk_mode d' = 384
      ∧ (dk_node d = Absent → dk_entry d' = true ∧ dk_content d' = true).

(** The next system call of a quiet schedule. *)
Lemma os_cases {A} (run : Disk → Disk * result error A) failed d d' r :
  Forall event_quiet (dk_events d) → os run failed d = (d', r) →
  ∃ ev, Forall event_quiet ev ∧ (length ev ≤ length (dk_events d))%nat
    ∧ (run (d <| dk_events := ev |>) = (d', r)
       ∨ ∃ n e, (length ev < length (dk_events d))%nat ∧ d' = failed n (d <| dk_events := ev |>) ∧ r = Err e).
Proof.
  unfold os. destruct (dk_events d) as [|[|n e|x] rest] eqn:Ee; intros Hq H.
  - exists []. split_and!; [done|done|left]. by destruct d; cbn in *; subst.
  - apply Forall_cons in Hq as [_ Hq]. exists rest. split_and!; [done|cbn; lia|by left].
  - apply Forall_cons in Hq as [_ Hq]. exists rest. split_and!; [done|cbn; lia|right]. simplify_eq. exists n, e. split; [cbn; lia|done].
  - by apply Forall_cons in Hq as [[] _].
Qed.

Lemma loaded_ok key : length key = 32%nat → loaded key = Ok (Some (mkSecretStore key)).
Proof. intros H. unfold loaded, NewSecretStore. by rewrite H. Qed.

(** Takes the next event of the schedule in [H]. *)
Ltac next_event H :=
  match type of H with context [match ?l with [] => _ | _ :: _ => _ end] =>
    match goal with
    | Hq : Forall event_quiet l |- _ =>
      let ev := fresh "ev" in
      destruct l as [|[| |] ev]; [|apply Forall_cons in Hq as [_ Hq]..|by apply Forall_cons in Hq as [[] _]]; cbn in H
    end
  end.

Lemma write_secret_spec key d d' r :
  Forall event_quiet (dk_events d) → dk_node d = Regular [] → dk_ours d = true → dk_mode d = 384 → length key = 32%nat →
  write_secret key d = (d', r) →
  r ≠ Ok None
  ∧ ∀ store, r = Ok (Some store) → store = mkSecretStore key ∧ dk_node d' = Regular key ∧ dk_mode d' = 384
      ∧ dk_entry d' = true ∧ dk_content d' = true.
Proof.
  intros Hq Hn Ho Hm Hk%loaded_ok H. destruct d as [n m o en co rnd evs]. cbn in Hq, Hn, Ho, Hm. subst.
  unfold write_secret in H. rewrite Hk in H. clear Hk.
  unfold describe, catch, ignore, lift_result, throw, mret, cmd_ret, mbind, cmd_bind, file_Write, file_Sync, any_Close, os_Remove,
    os_OpenDirectory, directory_Sync, quiet_call, os, put in H. cbn in H.
  repeat next_event H; simplify_eq/=; (split; [done|]); intros store Hs; by simplify_eq.
Qed.

Lemma load_secret_spec key d d' r :
  Forall event_quiet (dk_events d) → dk_node d = Regular key → load_secret d = (d', r) →
  r ≠ Ok None ∧ dk_node d' = dk_node d ∧ dk_entry d' = dk_entry d ∧ dk_content d' = dk_content d
  ∧ ∀ store, r = Ok (Some store) → length key = 32%nat ∧ store = mkSecretStore key ∧ dk_mode d' = 384.
Proof.
  intros Hq Hn H. destruct d as [n m o en co rnd evs]. cbn in Hq, Hn. subst. unfold load_secret in H.
  destruct (decide (length key = 32%nat)) as [Hk|Hk].
  - unfold describe, guard_err, mbind, cmd_bind, os_ReadFile, os_Chmod, quiet_call, os in H. cbn in H.
    next_event H; rewrite ?Hk in H; cbn in H; rewrite ?(loaded_ok key Hk) in H; unfold lift_result in H; simplify_eq/=;
      try (next_event H; simplify_eq/=); (split_and!; try done); intros store Hs; by simplify_eq.
  - assert (Z.of_nat (length key) =? applicationSecretSize = false) as E by (apply Z.eqb_neq; unfold applicationSecretSize; lia).
    unfold describe, guard_err, mbind, cmd_bind, os_ReadFile, os_Chmod, quiet_call, os in H. cbn in H.
    next_event H; rewrite ?E in H; cbn in H; simplify_eq/=; by split_and!.
Qed.

Lemma quiet_cases {A} (run : Disk → result error A) d d' r :
  Forall event_quiet (dk_events d) → quiet_call run d = (d', r) →
  ∃ ev, Forall event_quiet ev ∧ (length ev ≤ length (dk_events d))%nat ∧ d' = d <| dk_events := ev |>
    ∧ (r = run d' ∨ ∃ e, (length ev < length (dk_events d))%nat ∧ r = Err e).
Proof.
  intros Hq (ev & Q & L & H)%os_cases; [|done]. exists ev. split_and!; [done..|by destruct H as [H|(? & ? & _ & -> & _)]; simplify_eq|].
  destruct H as [H|(n & e & Hlt & -> & ->)]; [simplify_eq; by left|right; by exists e].
Qed.

(** An end that failed without having touched the file. *)
Lemma kept_failed d e ev : kept d (d <| dk_events := ev |>) (Err e).
Proof. by split_and!. Qed.

(** The creation with the call of itself cut out. *)
Definition creation (key : list Z) : disk (() + option SecretStore) :=
  file ← catch (os_OpenExclusive 384);
  match file with
  | Err e => if errors_is e ErrExist then mret (inl ()) else throw (Wrapf "create application secret" e)
  | Ok _ => x ← write_secret key; mret (inr x)
  end.

Lemma creation_split key (again : disk (option SecretStore)) d :
  (file ← catch (os_OpenExclusive 384);
   match file with
   | Err e => if errors_is e ErrExist then again else throw (Wrapf "create application secret" e)
   | Ok _ => write_secret key
   end) d
  = match creation key d with
    | (d1, Ok (inl _)) => again d1
    | (d1, Ok (inr x)) => (d1, Ok x)
    | (d1, Err e) => (d1, Err e)
    end.
Proof.
  unfold creation, mbind, cmd_bind, catch. destruct (os_OpenExclusive 384 d) as [d1 [[]|e]]; cbn [fst snd].
  - by destruct (write_secret key d1) as [d2 [x|e]].
  - by destruct (errors_is e ErrExist).
Qed.

(** The file does not exist and is created, or the creation is refused. *)
Lemma create_secret_kept key ev d d' r :
  Forall event_quiet ev → length key = 32%nat →
  creation key (d <| dk_events := ev |>) = (d', r) →
  match r with
  | Ok (inl _) => ∃ ev', Forall event_quiet ev' ∧ (length ev' ≤ length ev)%nat ∧ d' = d <| dk_events := ev' |>
      ∧ (dk_node d = Absent → (length ev' < length ev)%nat)
  | Ok (inr x) => kept d d' (Ok x)
  | Err e => kept d d' (Err e)
  end.
Proof.
  intros Hq Hk H. unfold creation, mbind at 1, cmd_bind at 1, catch at 1 in H. destruct (os_OpenExclusive 384 _) as [d1 r1] eqn:E1.
  apply os_cases in E1 as (ev1 & Q1 & L1 & E1); [|done]. cbn in L1. cbn [snd fst] in H.
  destruct E1 as [E1|(n & e & Hlt & -> & ->)].
  2: { destruct (errors_is e ErrExist); unfold throw, mret, cmd_ret in H; simplify_eq; [by exists ev1|exact (kept_failed d _ ev1)]. }
  cbn in E1. destruct (dk_node d) eqn:Hn; simplify_eq; cbn in H; simplify_eq.
  1: { unfold mbind, cmd_bind in H. destruct (write_secret key _) as [d2 x] eqn:Ew.
       eapply write_secret_spec in Ew as [Hne Hs]; [|done..].
       assert (kept d d2 x) as Hkept.
       { split; [done|]. split; [by rewrite Hn|]. intros store ->. destruct (Hs store eq_refl) as (-> & ? & ? & ? & ?). by exists key. }
       destruct x as [a|e]; unfold mret, cmd_ret in H.
       - simplify_eq. done.
       - simplify_eq. done. }
  all: change (sentinel_is ErrExist ErrExist) with true in H; unfold mret, cmd_ret in H; simplify_eq; by exists ev1.
Qed.

Lemma OpenSecretStore_kept fuel d d' r :
  Forall event_quiet (dk_events d) → length (dk_random d) = 32%nat → (length (dk_events d) < fuel)%nat →
  OpenSecretStore fuel true d = (d', r) → kept d d' r.
Proof.
  revert d. induction fuel as [|fuel IH]; intros d Hq Hr Hf H; [lia|].
  assert (Forall event_quiet (dk_events d)) as Q0 by done. cbn [OpenSecretStore negb] in H.
  unfold mbind at 1, cmd_bind at 1, guard_err, mret at 1, cmd_ret at 1 in H.
  unfold mbind at 1, cmd_bind at 1, describe at 1 in H.
  destruct (os_MkdirAll d) as [d1 r1] eqn:E1. apply quiet_cases in E1 as (ev1 & Q1 & L1 & -> & E1); [|done].
  destruct r1 as [[]|e]; [|unfold throw in H; simplify_eq; apply kept_failed]. clear E1.
  unfold mbind at 1, cmd_bind at 1, catch at 1 in H.
  destruct (os_Lstat _) as [d2 r2] eqn:E2. apply quiet_cases in E2 as (ev2 & Q2 & L2 & -> & E2); [|done]. cbn in L2, E2. cbn [fst snd] in H.
  destruct r2 as [x|e].
  - destruct (dk_node d) as [|target| |content] eqn:Hn; [by destruct E2 as [|(? & _ & ?)]|..];
      (destruct E2 as [E2|(? & _ & ?)]; [|done]); injection E2 as ->.
    1,2: unfold throw in H; simplify_eq; exact (kept_failed d _ ev2).
    apply (load_secret_spec content) in H as (Hne & H1 & H2 & H3 & H4); [|done..].
    split; [done|]. split; [done|]. intros store Hs. destruct (H4 store Hs) as (? & -> & ?). exists content. rewrite H1. cbn. rewrite Hn. by split_and!.
  - destruct (errors_is e ErrNotExist); [|unfold throw in H; simplify_eq; exact (kept_failed d _ ev2)].
    unfold mbind at 1, cmd_bind at 1, describe at 1 in H.
    destruct (rand_ReadFull _) as [d3 r3] eqn:E3. apply quiet_cases in E3 as (ev3 & Q3 & L3 & -> & E3); [|done]. cbn in L3, E3.
    destruct r3 as [key|e3]; [|simplify_eq; exact (kept_failed d _ ev3)].
    assert (key = dk_random d) as -> by (by destruct E3 as [E3|(? & _ & ?)]; simplify_eq).
    rewrite creation_split in H. destruct (creation _ _) as [d4 r4] eqn:E4.
    apply (create_secret_kept _ ev3) in E4; [|done..]. destruct r4 as [[[]|x]|e4]; [|by simplify_eq..].
    destruct E4 as (ev4 & Q4 & L4 & -> & Hlt). cbn in L1, L2.
    assert (length ev4 < length (dk_events d))%nat.
    { destruct (dk_node d) eqn:Hn; try (destruct E2 as [?|(? & ? & _)]; [done|lia]). specialize (Hlt Hn). lia. }
    assert (length ev4 < fuel)%nat as Hf4 by lia. exact (IH (d <| dk_events := ev4 |>) Q4 Hr Hf4 H).
Qed.

(** Loading a key that is there, undisturbed. *)
Lemma OpenSecretStore_again key d :
  length key = 32%nat → dk_node d = Regular key → dk_events d = [] → (OpenSecretStore 1 true d).2 = Ok (Some (mkSecretStore key)).
Proof.
  intros Hk Hn He. destruct d as [n m o en co rnd evs]. cbn in Hn, He. subst. cbn [OpenSecretStore negb].
  unfold guard_err, describe, catch, os_MkdirAll, os_Lstat, quiet_call, os, mbind, cmd_bind, mret, cmd_ret. cbn.
  unfold load_secret, describe, guard_err, lift_result, os_ReadFile, os_Chmod, quiet_call, os, mbind, cmd_bind. cbn.
  rewrite Hk. cbn. by rewrite loaded_ok.
Qed.

(** C23: Whatever system calls fail, opening the secret store ends, and what is
    at the path is never replaced, removed or followed: an existing key is kept,
    and anything but a regular file of the right size is refused.  A store that
    is opened has the 32 bytes of the key file, which is readable by its owner
    only, and opening it again gives the same store; a key that was just created
    survives a loss of power, so that what is encrypted under it never becomes
    unreadable. *)
Theorem secret_key_kept fuel d d' r :
  Forall event_quiet (dk_events d) → length (dk_random d) = 32%nat → (length (dk_events d) < fuel)%nat →
  OpenSecretStore fuel true d = (d', r) →
  r ≠ Ok None
  ∧ (dk_node d ≠ Absent → dk_node d' = dk_node d ∧ ∀ x, after_power_loss d' x → after_power_loss d x)
  ∧ ((∀ key, dk_node d = Regular key → length key ≠ 32%nat) → dk_node d ≠ Absent → ∃ e, r = Err e)
  ∧ ∀ store, r = Ok (Some store) → ∃ key,
      length key = 32%nat ∧ store = mkSecretStore key ∧ dk_node d' = Regular key ∧ dk_mode d' = 384
      ∧ (dk_node d = Absent → ∀ x, after_power_loss d' x → x = Regular key)
      ∧ ∀ d2, dk_node d2 = Regular key → dk_events d2 = [] → (OpenSecretStore 1 true d2).2 = Ok (Some store).
Proof.
  intros Hq Hr Hf H. destruct (OpenSecretStore_kept fuel d d' r Hq Hr Hf H) as (Hne & Hkept & Hok). split; [done|].
  split; [|split].
  - intros Ha. destruct (Hkept Ha) as (E1 & E2 & E3). split; [done|]. intros x. unfold after_power_loss. by rewrite E1, E2, E3.
  - intros Hbad Ha. destruct r as [[store|]|e]; [|done|by eexists]. exfalso.
    destruct (Hok store eq_refl) as (key & Hk & _ & Hn & _). destruct (Hkept Ha) as (E1 & _). apply (Hbad key); [congruence|done].
  - intros store Hs. destruct (Hok store Hs) as (key & Hk & -> & Hn & Hm & Hd). exists key. split_and!; try done.
    + intros Ha x. destruct (Hd Ha) as [E1 E2]. unfold after_power_loss. rewrite Hn, E1, E2.
      intros [[? _]|(c & -> & Hc)]; [done|]. by rewrite Hc.
    + intros d2 Hn2 He2. by apply OpenSecretStore_again.
Qed.

Definition first_launch (events : list event) : Disk := mkDisk Absent 0 false true true (replicate 32 7) events.

Lemma secret_key_kept_witness :
  let d := first_launch [Fine; Fine; Fine; Fails 0 (Sentinel ErrExist)] in
  let d' := (OpenSecretStore 5 true d).1 in
  (OpenSecretStore 5 true d).2 = Ok (Some (mkSecretStore (replicate 32 7)))
  ∧ ∀ x, after_power_loss d' x → x = Regular (replicate 32 7).
Proof.
  cbv zeta. set (d := first_launch _).
  assert ((OpenSecretStore 5 true d).2 = Ok (Some (mkSecretStore (replicate 32 7)))) as Hr by reflexivity.
  destruct (secret_key_kept 5 d (OpenSecretStore 5 true d).1 (OpenSecretStore 5 true d).2) as (_ & _ & _ & H).
  - repeat constructor.
  - reflexivity.
  - cbn. lia.
  - apply surjective_pairing.
  - destruct (H _ Hr) as (key & _ & Hs & _ & _ & Hd & _). split; [done|]. intros x Hx. assert (key = replicate 32 7) as <- by (by injection Hs). by apply (Hd eq_refl).
Defined.

(** The creation is not atomic: when the process ends after the file is made and
    before the key is written, here by a write that fails and a removal that
    fails too, a file of the wrong size is left and every later launch refuses
    it. *)
Example interrupted_creation :
  let failed := New "input/output error" in
  let d := first_launch [Fine; Fine; Fine; Fine; Fails 10 failed; Fine; Fails 0 failed] in
  let d' := (OpenSecretStore 10 true d).1 in
  dk_node d' = Regular (replicate 10 7)
  ∧ (OpenSecretStore 10 true d').2 = Err (New "application secret must be 32 bytes").
Proof. vm_compute. by split. Qed.
