(* ===== verification/Auth.v ===== *)
(** * Local administrator and sessions (internal/auth, internal/store/auth.go)

    Password records, the single administrator, and sessions addressed by the
    digest of a random token.  SHA-256 and Argon2id are arguments; the random
    bytes, the clock and the outcome of waiting for a password slot are
    arguments of the operations that use them. *)

From Stdlib Require Import ZArith Lia Ascii.
From stdpp Require Import base list gmap strings numbers pretty.
From S2P Require Import Prelude GoStrings GoErrors GoBase64 Store.

(** ** The repository (internal/store/auth.go) *)

Definition containsError (e : error) (needle : string) : bool :=
  Contains (ToLower (Error e)) (ToLower needle).
Definition isConstraintError (e : error) : bool :=
  containsError e "constraint" || containsError e "UNIQUE".

Definition HasUsers : store_cmd bool :=
  count ← wrapped "count users" (query (λ t, size (users t)));
  mret (0 <? Z.of_nat count).

(** [username] is declared [COLLATE NOCASE UNIQUE]. *)
Definition nocase_eq (a b : string) : Prop := ToLower a = ToLower b.
#[export] Instance nocase_eq_dec : RelDecision nocase_eq.
Proof. intros a b. unfold nocase_eq. apply _. Defined.

Definition find_username (username : string) (t : Tables) : option UserRow :=
  snd <$> head (filter (λ p, nocase_eq (uUsername p.2) username) (map_to_list (users t))).

Definition insert_user_row (u : UserRow) (t : Tables) : option (Tables * ()) :=
  if bool_decide (is_Some (users t !! uID u)) || bool_decide (is_Some (find_username (uUsername u) t))
  then None
  else Some (t <| users := <[uID u := u]> (users t) |>, ()).

Definition CreateAdmin (username : string) (passwordHash : list Z) (now : Z) : store_cmd UserRow :=
  id ← newID;
  _ ← guard_err (bool_decide (passwordHash = [])) (New "password hash is required");
  let record := mkUserRow id username passwordHash now now in
  r ← catch (WithTx (
        count ← wrapped "count users" (query (λ t, size (users t)));
        _ ← guard_err (bool_decide (count ≠ 0%nat)) (Sentinel ErrAdminExists);
        wrapped "insert administrator" (exec (insert_user_row record))));
  match r with
  | Err e => throw (if isConstraintError e then Sentinel ErrAdminExists else e)
  | Ok _ => mret record
  end.

Definition scanUser (row : option UserRow) : store_cmd UserRow :=
  match row with
  | None => throw (Sentinel ErrNotFound)
  | Some u => mret u
  end.

Definition UserByUsername (username : string) : store_cmd UserRow :=
  row ← wrapped "read user" (query (find_username username)); scanUser row.
Definition UserByID (id : string) : store_cmd UserRow :=
  row ← wrapped "read user" (query (λ t, users t !! id)); scanUser row.

(** [token_digest] is the primary key, [user_id] references a user. *)
Definition insert_session_row (digest : list Z) (s : SessionRow) (t : Tables) : option (Tables * ()) :=
  if bool_decide (is_Some (sessions t !! digest)) || bool_decide (users t !! sUserID s = None)
     || bool_decide (length digest ≠ 32%nat)
  then None
  else Some (t <| sessions := <[digest := s]> (sessions t) |>, ()).

Definition InsertSession (digest : list Z) (s : SessionRow) : store_cmd () :=
  _ ← guard_err (bool_decide (length digest ≠ 32%nat)) (New "session digest must be 32 bytes");
  wrapped "insert session" (exec (insert_session_row digest s)).

Definition session_user (digest : list Z) (now : Z) (t : Tables) : option UserRow :=
  s ← sessions t !! digest;
  if time_text_lt now (sExpiresAt s) then users t !! sUserID s else None.

Definition UserForSession (digest : list Z) (now : Z) : store_cmd UserRow :=
  _ ← guard_err (bool_decide (length digest ≠ 32%nat)) (Sentinel ErrNotFound);
  row ← wrapped "read session user" (query (session_user digest now)); scanUser row.

Definition DeleteSession (digest : list Z) : store_cmd () :=
  if bool_decide (length digest ≠ 32%nat) then mret ()
  else wrapped "delete session"
         (exec (λ t, Some (t <| sessions := delete digest (sessions t) |>, ()))).

Definition DeleteExpiredSessions (now : Z) : store_cmd () :=
  wrapped "delete expired sessions"
    (exec (λ t, Some (t <| sessions := filter (λ p, time_text_lt now (sExpiresAt p.2) = true) (sessions t) |>, ()))).

(** ** Password records (internal/auth/password.go) *)

Definition passwordVersion : string := "argon2id-v1".
Definition passwordTime : Z := 3.
Definition passwordMemory : Z := 64 * 1024.
Definition passwordThreads : Z := 2.
Definition passwordKeyLen : nat := 32.
Definition passwordSaltLen : nat := 16.

(** [strconv.ParseUint(s, 10, bits)]. *)
Definition ParseUint (s : string) (bits : Z) : option Z :=
  v ← parse_nat s; if v <? 2 ^ bits then Some v else None.

Definition has_char (n : Z) (s : string) : bool := str_elem (byte_char n) s.

Definition ValidateUsername (username : string) : result error () :=
  if bool_decide (TrimSpace username ≠ username) || bool_decide (username = "")
  then Err (New "username must not be empty or padded")
  else if (64 <? String.length username)%nat then Err (New "username is too long")
  else if has_char 0 username || has_char 10 username || has_char 13 username || has_char 9 username
  then Err (New "username contains an invalid character")
  else Ok ().

Section auth.
Context (Sum256 : list Z → list Z).
Context (IDKey : list Z → list Z → Z → Z → Z → nat → list Z).

(** [salt] is what [rand.Read] gives. *)
Definition HashPassword (password : string) (salt : result error (list Z)) : result error (list Z) :=
  if (String.length password <? 8)%nat then Err (New "password must contain at least 8 characters")
  else if (1024 <? String.length password)%nat then Err (New "password is too long")
  else match salt with
  | Err e => Err (Wrapf "generate password salt" e)
  | Ok salt =>
      let hash := IDKey (to_bytes password) salt passwordTime passwordMemory passwordThreads passwordKeyLen in
      let record := Join [passwordVersion; FormatInt passwordMemory; FormatInt passwordTime;
        FormatInt passwordThreads; EncodeToString RawStdEncoding salt;
        EncodeToString RawStdEncoding hash] "$" in
      Ok (to_bytes record)
  end.

Definition VerifyPassword (password : string) (encoded : list Z) : bool :=
  match Split (of_bytes encoded) "$" with
  | [version; memory; timeCost; threads; salt; want] =>
      if bool_decide (version ≠ passwordVersion) then false
      else match ParseUint memory 32, ParseUint timeCost 32, ParseUint threads 8,
                 DecodeString RawStdEncoding salt, DecodeString RawStdEncoding want with
      | Some memory, Some timeCost, Some threads, Some salt, Some want =>
          if (length salt <? 8)%nat || bool_decide (want = []) || (memory =? 0) || (timeCost =? 0) || (threads =? 0)
          then false
          else if (1024 * 1024 <? memory) || (10 <? timeCost) || (32 <? threads)
                  || (1024 <? String.length password)%nat
          then false
          else bool_decide (IDKey (to_bytes password) salt timeCost memory threads (length want) = want)
      | _, _, _, _, _ => false
      end
  | _ => false
  end.

(** ** Sessions (internal/auth/session.go) *)

Definition SessionCookieName : string := "megadw_session".
Definition SessionTTL : Z := 24 * (3600 * Second).
Definition dummyPasswordRecord : list Z := to_bytes
  "argon2id-v1$65536$3$2$AAAAAAAAAAAAAAAAAAAAAA$AAAAAAAAAAAAAAAAAAAAAAAAAAAAAAAAAAAAAAAAAAA".

Record Manager := mkManager { CookieName : string; TTL : Z }.
Definition NewManager : Manager := mkManager SessionCookieName SessionTTL.
Record Principal := mkPrincipal { PrincipalID : string; PrincipalUsername : string }.

(** [cancelled] is the error of the context when its branch of the select is
    taken; otherwise a slot has become free. *)
Definition acquirePasswordWork (cancelled : option error) : store_cmd () :=
  match cancelled with Some e => throw e | None => mret () end.

Definition lift_result {A} (r : result error A) : store_cmd A :=
  match r with Ok a => mret a | Err e => throw e end.

Definition session_ttl (m : Manager) : Z := if TTL m <=? 0 then SessionTTL else TTL m.

(** [raw] is what [rand.Read] gives, [now] the manager's clock. *)
Definition createSession (m : Manager) (userID : string) (raw : result error (list Z)) (now : Z)
    : store_cmd string :=
  raw ← lift_result (match raw with Ok raw => Ok raw | Err e => Err (Wrapf "generate session token" e) end);
  let digest := Sum256 raw in
  _ ← DeleteExpiredSessions now;
  _ ← InsertSession digest (mkSessionRow userID (now + session_ttl m) now);
  mret (EncodeToString RawURLEncoding raw).

Definition Setup (m : Manager) (username password : string) (cancelled : option error)
    (salt raw : result error (list Z)) (now : Z) : store_cmd (Principal * string) :=
  _ ← lift_result (ValidateUsername username);
  _ ← acquirePasswordWork cancelled;
  hash ← lift_result (HashPassword password salt);
  user ← CreateAdmin username hash now;
  token ← createSession m (uID user) raw now;
  mret (mkPrincipal (uID user) (uUsername user), token).

Definition Login (m : Manager) (username password : string) (cancelled : option error)
    (raw : result error (list Z)) (now : Z) : store_cmd (Principal * string) :=
  r ← catch (UserByUsername username);
  found ← match r with
          | Ok user => mret (Some user)
          | Err e => if errors_is e ErrNotFound then mret None else throw e
          end;
  let hash := match found with Some user => uPasswordHash user | None => dummyPasswordRecord end in
  _ ← acquirePasswordWork cancelled;
  let verified := VerifyPassword password hash in
  match found with
  | Some user =>
      if verified then
        token ← createSession m (uID user) raw now;
        mret (mkPrincipal (uID user) (uUsername user), token)
      else throw (New "invalid username or password")
  | None => throw (New "invalid username or password")
  end.

Definition TokenDigest (token : string) : list Z :=
  match DecodeString RawURLEncoding token with
  | Some raw => if bool_decide (length raw = 32%nat) then Sum256 raw else Sum256 (to_bytes token)
  | None => Sum256 (to_bytes token)
  end.

(** A request is known by its cookies. *)
Definition session_cookie (m : Manager) (cookies : string → option string) : option string :=
  let cookieName := if bool_decide (CookieName m = "") then SessionCookieName else CookieName m in
  value ← cookies cookieName; if bool_decide (value = "") then None else Some value.

Definition Manager_Principal (m : Manager) (cookies : string → option string) (now : Z)
    : store_cmd (option Principal) :=
  match session_cookie m cookies with
  | None => mret None
  | Some token =>
      r ← catch (UserForSession (TokenDigest token) now);
      mret (match r with
            | Ok user => Some (mkPrincipal (uID user) (uUsername user))
            | Err _ => None
            end)
  end.

Definition Logout (m : Manager) (cookies : string → option string) : store_cmd () :=
  match session_cookie m cookies with
  | None => mret ()
  | Some token => DeleteSession (TokenDigest token)
  end.

(** ** Password round trip *)

Lemma Join_one x sep : Join [x] sep = x.
Proof. done. Qed.

Lemma chars_no_dollar enc l : enc = RawStdEncoding → Forall sextet l → str_elem "$" (chars enc l) = false.
Proof.
  intros ->. induction 1 as [|v l Hv _ IH]; [done|]. cbn. rewrite IH, orb_false_r.
  assert (Forall (λ v, bool_decide (encode_digit RawStdEncoding v = "$"%char) = false) (seqZ 0 64)) as H
    by (apply (bool_decide_unpack _); by vm_compute).
  rewrite Forall_forall in H. apply H, elem_of_seqZ. unfold sextet in Hv. lia.
Qed.

Lemma encoded_no_dollar l : Forall byte_ok l → str_elem "$" (EncodeToString RawStdEncoding l) = false.
Proof. intros H. apply chars_no_dollar; [done|]. by apply encode_groups_sextets. Qed.

Definition hash_of (password : string) (salt : list Z) : list Z :=
  IDKey (to_bytes password) salt passwordTime passwordMemory passwordThreads passwordKeyLen.

(** What Argon2id documents: a key of the requested length. *)
Context (IDKey_spec : ∀ password salt time memory threads n,
  length (IDKey password salt time memory threads n) = n
  ∧ Forall byte_ok (IDKey password salt time memory threads n)).

Definition record_parts (password : string) (salt : list Z) : list string :=
  [passwordVersion; FormatInt passwordMemory; FormatInt passwordTime; FormatInt passwordThreads;
   EncodeToString RawStdEncoding salt; EncodeToString RawStdEncoding (hash_of password salt)].

Lemma record_split password salt : Forall byte_ok salt →
  Split (Join (record_parts password salt) "$") "$" = record_parts password salt.
Proof.
  intros Hs. apply Split_Join; [done|]. unfold record_parts. repeat constructor.
  - by apply encoded_no_dollar.
  - apply encoded_no_dollar. by destruct (IDKey_spec (to_bytes password) salt passwordTime passwordMemory
      passwordThreads passwordKeyLen).
Qed.

Lemma of_to_bytes s : of_bytes (to_bytes s) = s.
Proof. induction s as [|c s IH]; cbn; [done|]. unfold byte_char, char_byte. by rewrite Nat2Z.id, ascii_nat_embedding, IH. Qed.

(** A password is hashed exactly when it has between 8 and 1024 bytes, and
    the record then verifies a password exactly when that password is no longer
    than 1024 bytes and Argon2id maps it, with the record's salt and costs, to
    the same key; in particular the password itself verifies. *)
Theorem password_record_roundtrip password salt
    (Hsalt : Forall byte_ok salt) (Hlen : length salt = passwordSaltLen) :
  let stored := HashPassword password (Ok salt) in
  is_ok stored = bool_decide (8 ≤ String.length password ≤ 1024)%nat
  ∧ ∀ record q, stored = Ok record →
      VerifyPassword q record
      = bool_decide (String.length q ≤ 1024)%nat && bool_decide (hash_of q salt = hash_of password salt).
Proof.
  cbv zeta. unfold HashPassword. split.
  { repeat case_match; rewrite ?Nat.ltb_lt, ?Nat.ltb_ge in *; symmetry; cbn; [apply bool_decide_eq_false_2; lia..|apply bool_decide_eq_true_2; lia]. }
  intros record q Hr. assert (record = to_bytes (Join (record_parts password salt) "$")) as ->.
  { revert Hr. repeat case_match; intros [= <-]; done. }
  clear Hr. unfold VerifyPassword. rewrite of_to_bytes, record_split by done. cbn [record_parts].
  unfold record_parts. rewrite bool_decide_eq_false_2 by (intros H; done).
  replace (ParseUint (FormatInt passwordMemory) 32) with (Some passwordMemory) by (by vm_compute).
  replace (ParseUint (FormatInt passwordTime) 32) with (Some passwordTime) by (by vm_compute).
  replace (ParseUint (FormatInt passwordThreads) 8) with (Some passwordThreads) by (by vm_compute).
  destruct (IDKey_spec (to_bytes password) salt passwordTime passwordMemory passwordThreads passwordKeyLen)
    as [Hl Hb]. fold (hash_of password salt) in Hl, Hb.
  rewrite !DecodeString_EncodeToString by (apply _ || done).
  assert (length salt <? 8 = false)%nat as -> by (apply Nat.ltb_ge; rewrite Hlen; unfold passwordSaltLen; lia).
  rewrite bool_decide_eq_false_2 by (intros He; by rewrite He in Hl). rewrite Hl.
  destruct (1024 <? String.length q)%nat eqn:Hq; [apply Nat.ltb_lt in Hq|apply Nat.ltb_ge in Hq].
  - by rewrite (bool_decide_eq_false_2 (String.length q ≤ 1024)%nat) by lia.
  - by rewrite (bool_decide_eq_true_2 (String.length q ≤ 1024)%nat) by lia.
Qed.

(** ** One administrator, sessions of existing users *)

Record auth_ok (t : Tables) : Prop := {
  auth_users : map_Forall (λ id u, uID u = id) (users t);
  auth_one : (size (users t) ≤ 1)%nat;
  auth_sessions : map_Forall (λ digest s, length digest = 32%nat ∧ is_Some (users t !! sUserID s)) (sessions t) }.

Lemma wrapped_state {A} head (m : store_cmd A) d : (wrapped head m d).1 = (m d).1.
Proof. unfold wrapped, mbind, cmd_bind, catch. by destruct (m d) as [? []]. Qed.

Lemma exec_tables {A} (f : Tables → option (Tables * A)) d :
  tables (exec f d).1 = tables d ∨ ∃ a, f (tables d) = Some (tables (exec f d).1, a).
Proof.
  unfold exec, driver. destruct (faults d) as [|[e|] rest]; [|by left|];
    cbn; (destruct (f (tables d)) as [[t a]|]; [right; by exists a|by left]).
Qed.

Lemma insert_user_ok u t t' a : auth_ok t → size (users t) = 0%nat →
  insert_user_row u t = Some (t', a) → auth_ok t'.
Proof.
  intros [Hu H1 Hs] H0. unfold insert_user_row. case_match; [done|]. intros [= <- _]. split; cbn.
  - by apply map_Forall_insert_2.
  - apply map_size_empty_inv in H0 as ->. by rewrite insert_empty, map_size_singleton.
  - eapply map_Forall_impl; [exact Hs|]. intros k s [Hl Hx]. split; [done|].
    destruct (decide (uID u = sUserID s)) as [->|]; [by rewrite lookup_insert_eq|by rewrite lookup_insert_ne].
Qed.

Lemma keeps_create_fn u : keeps auth_ok (
  count ← wrapped "count users" (query (λ t, size (users t)));
  _ ← guard_err (bool_decide (count ≠ 0%nat)) (Sentinel ErrAdminExists);
  wrapped "insert administrator" (exec (insert_user_row u))).
Proof.
  intros d Hd. destruct (wrapped "count users" (query (λ t, size (users t))) d) as [d1 [count|e]] eqn:Hq.
  - rewrite (cmd_bind_ok _ _ _ _ _ Hq). apply wrapped_ok, query_ok in Hq as (-> & Ht & _).
    rewrite <-Ht in *. unfold guard_err. case_bool_decide as H0; [done|].
    unfold mbind, cmd_bind, mret, cmd_ret. rewrite wrapped_state.
    destruct (exec_tables (insert_user_row u) d1) as [->|[a Ha]]; [done|].
    by eapply insert_user_ok.
  - rewrite (cmd_bind_err _ _ _ _ _ Hq).
    pose proof (keeps_wrapped auth_ok "count users" _ (keeps_query auth_ok (λ t, size (users t))) d Hd) as Hk.
    by rewrite Hq in Hk.
Qed.

Lemma keeps_guard (b : bool) (e : error) : keeps auth_ok (guard_err b e).
Proof. destruct b; [apply preserves_throw|apply preserves_ret]. Qed.

Lemma keeps_CreateAdmin username hash now : keeps auth_ok (CreateAdmin username hash now).
Proof.
  apply preserves_bind; [apply keeps_newID|intros id]. apply preserves_bind; [apply keeps_guard|intros _].
  apply preserves_bind; [apply preserves_catch, keeps_WithTx, keeps_create_fn|].
  intros [a|e]; [apply preserves_ret|apply preserves_throw].
Qed.

Lemma keeps_scanUser row : keeps auth_ok (scanUser row).
Proof. destruct row; [apply preserves_ret|apply preserves_throw]. Qed.

Lemma keeps_lookup {A} head (f : Tables → A) (k : A → store_cmd UserRow) :
  (∀ a, keeps auth_ok (k a)) → keeps auth_ok (a ← wrapped head (query f); k a).
Proof. intros Hk. apply preserves_bind; [apply keeps_wrapped, keeps_query|exact Hk]. Qed.

Lemma keeps_sessions head (f : Tables → option (Tables * ())) :
  (∀ t t' a, auth_ok t → f t = Some (t', a) → auth_ok t') → keeps auth_ok (wrapped head (exec f)).
Proof. intros Hf. by apply keeps_wrapped, keeps_exec. Qed.

Lemma keeps_createSession m userID raw now : keeps auth_ok (createSession m userID raw now).
Proof.
  unfold createSession. destruct raw as [raw|e]; [|intros d Hd; done].
  apply preserves_bind; [apply preserves_ret|intros r]. apply preserves_bind.
  - apply keeps_sessions. intros t t' a [Hu H1 Hs] [= <- _]. split; cbn; [done..|].
    intros k s [Hk _]%map_lookup_filter_Some. by apply (Hs k s).
  - intros _. apply preserves_bind; [|intros; apply preserves_ret].
    unfold InsertSession. apply preserves_bind; [apply keeps_guard|intros _].
    apply keeps_sessions. intros t t' a [Hu H1 Hs]. unfold insert_session_row.
    destruct (_ || _) eqn:Hb; [done|]. intros [= <- _].
    apply orb_false_iff in Hb as [[_ Hx%bool_decide_eq_false]%orb_false_iff Hl%bool_decide_eq_false].
    split; cbn; [done..|]. apply map_Forall_insert_2; [|done].
    split; [by apply dec_stable|by apply not_eq_None_Some].
Qed.

(** The operations of the package, with everything their environment decides. *)
Inductive auth_call :=
| call_HasUsers
| call_Setup (username password : string) (cancelled : option error) (salt raw : result error (list Z)) (now : Z)
| call_Login (username password : string) (cancelled : option error) (raw : result error (list Z)) (now : Z)
| call_Principal (cookies : string → option string) (now : Z)
| call_Logout (cookies : string → option string).

Definition run_call (m : Manager) (c : auth_call) : store_cmd () :=
  match c with
  | call_HasUsers => _ ← HasUsers; mret ()
  | call_Setup username password cancelled salt raw now => _ ← Setup m username password cancelled salt raw now; mret ()
  | call_Login username password cancelled raw now => _ ← Login m username password cancelled raw now; mret ()
  | call_Principal cookies now => _ ← Manager_Principal m cookies now; mret ()
  | call_Logout cookies => Logout m cookies
  end.

Lemma keeps_run_call m c : keeps auth_ok (run_call m c).
Proof.
  destruct c; cbn; try (apply preserves_bind; [|intros; apply preserves_ret]).
  - apply preserves_bind; [apply keeps_wrapped, keeps_query|intros; apply preserves_ret].
  - unfold Setup. apply preserves_bind; [destruct (ValidateUsername username); apply preserves_ret || apply preserves_throw|intros _].
    apply preserves_bind; [destruct cancelled; apply preserves_ret || apply preserves_throw|intros _].
    apply preserves_bind; [destruct (HashPassword password salt); apply preserves_ret || apply preserves_throw|intros h].
    apply preserves_bind; [apply keeps_CreateAdmin|intros u].
    apply preserves_bind; [apply keeps_createSession|intros; apply preserves_ret].
  - unfold Login. apply preserves_bind; [apply preserves_catch, keeps_lookup, keeps_scanUser|intros r].
    apply preserves_bind; [destruct r; [apply preserves_ret|case_match; [apply preserves_ret|apply preserves_throw]]|].
    intros found. apply preserves_bind; [destruct cancelled; apply preserves_ret || apply preserves_throw|intros _]. cbv zeta.
    repeat case_match; try apply preserves_throw.
    apply preserves_bind; [apply keeps_createSession|intros; apply preserves_ret].
  - unfold Manager_Principal. case_match; [|apply preserves_ret].
    apply preserves_bind; [apply preserves_catch|intros; apply preserves_ret].
    apply preserves_bind; [apply keeps_guard|intros _]. apply keeps_lookup, keeps_scanUser.
  - unfold Logout. case_match; [|apply preserves_ret]. unfold DeleteSession. case_match; [apply preserves_ret|].
    apply keeps_sessions. intros t t' a [Hu H1 Hs] [= <- _]. split; cbn; [done..|].
    by apply map_Forall_delete.
Qed.

Definition auth_step (m : Manager) (d d' : DB) : Prop := ∃ c, d' = (run_call m c d).1.

(** C34: Whatever sequence of setups, logins, requests and logouts runs, with any
    failures of the database, of the random source and of waiting for a
    password slot, there is never more than one user, and every session has a
    32-byte digest and belongs to that user. *)
Theorem single_administrator m d d' (Hd : tables d = empty_tables) (Hrun : rtc (auth_step m) d d') :
  (size (users (tables d')) ≤ 1)%nat
  ∧ ∀ digest s, sessions (tables d') !! digest = Some s →
      length digest = 32%nat ∧ ∃ u, users (tables d') !! sUserID s = Some u ∧ uID u = sUserID s.
Proof.
  assert (auth_ok (tables d')) as [Hu H1 Hs].
  { eapply (rtc_invariant (auth_step m) (λ d, auth_ok (tables d))); [|exact Hrun|].
    - intros d1 d2 [c ->] H. by apply (keeps_run_call m c).
    - rewrite Hd. split; cbn; [apply map_Forall_empty|by rewrite map_size_empty; lia|apply map_Forall_empty]. }
  split; [done|]. intros digest s Hlook. destruct (Hs digest s Hlook) as [Hl [u Hx]].
  split; [done|]. exists u. split; [done|]. by apply (Hu (sUserID s)).
Qed.

(** ** The life of a session *)

(** What SHA-256 documents: a 32-byte digest. *)
Context (Sum256_length : ∀ l, length (Sum256 l) = 32%nat).

Lemma TokenDigest_of raw : Forall byte_ok raw → length raw = 32%nat →
  TokenDigest (EncodeToString RawURLEncoding raw) = Sum256 raw.
Proof.
  intros Hb Hl. unfold TokenDigest. rewrite DecodeString_EncodeToString by (apply _ || done).
  by rewrite bool_decide_eq_true_2.
Qed.

Lemma createSession_ok m userID raw now d d' token :
  createSession m userID (Ok raw) now d = (d', Ok token) →
  token = EncodeToString RawURLEncoding raw
  ∧ users (tables d') = users (tables d) ∧ is_Some (users (tables d') !! userID)
  ∧ sessions (tables d') !! Sum256 raw = Some (mkSessionRow userID (now + session_ttl m) now).
Proof.
  unfold createSession, InsertSession, DeleteExpiredSessions, lift_result. intros H. store_inv.
  unfold guard_err in *. case_bool_decide; [done|]. store_inv.
  match goal with H : insert_session_row _ _ _ = _ |- _ => unfold insert_session_row in H;
    destruct (_ || _) eqn:Hb in H; [done|]; injection H as Ht end.
  apply orb_false_iff in Hb as [[_ Hx%bool_decide_eq_false]%orb_false_iff _].
  rewrite <-Ht. cbn. rewrite lookup_insert_eq.
  cbn in *. match goal with H : _ = tables ?x, Hx : users (tables ?x) !! _ ≠ None |- _ =>
    rewrite <-H in Hx |- * end.
  cbn in *. split_and!; try done. by apply not_eq_None_Some.
Qed.

Lemma Principal_run m cookies token now d : faults d = [] → session_cookie m cookies = Some token →
  length (TokenDigest token) = 32%nat →
  (Manager_Principal m cookies now d).2
  = Ok ((λ u, mkPrincipal (uID u) (uUsername u)) <$> session_user (TokenDigest token) now (tables d)).
Proof.
  intros Hf Hc Hl. unfold Manager_Principal. rewrite Hc. unfold UserForSession, guard_err.
  rewrite bool_decide_eq_false_2 by (intros Hn; done).
  unfold mbind, cmd_bind, catch, mret, cmd_ret.
  rewrite (wrapped_run "read session user" _ _ _ _ (query_run (session_user (TokenDigest token) now) d Hf)).
  by destruct (session_user _ now (tables d)).
Qed.

Lemma TokenDigest_length token : length (TokenDigest token) = 32%nat.
Proof. unfold TokenDigest. repeat case_match; apply Sum256_length. Qed.

Lemma time_text_lt_seconds a b : time_text_lt a b = true → a < b + Second.
Proof.
  unfold time_text_lt, rfc3339_key, Second, Millisecond, Microsecond, Nanosecond.
  intros [H|[H _]%andb_true_iff]%orb_true_iff; [apply Z.ltb_lt in H|apply Z.eqb_eq in H];
    Z.to_euclidean_division_equations; lia.
Qed.

Lemma time_text_lt_later a b : a + Second ≤ b → time_text_lt a b = true.
Proof.
  unfold time_text_lt, rfc3339_key, Second, Millisecond, Microsecond, Nanosecond. intros H.
  apply orb_true_iff. left. apply Z.ltb_lt. Z.to_euclidean_division_equations; lia.
Qed.

Lemma Login_ok m username password raw cancelled now d d' p token :
  Login m username password cancelled (Ok raw) now d = (d', Ok (p, token)) →
  ∃ u d1, find_username username (tables d) = Some u ∧ p = mkPrincipal (uID u) (uUsername u)
    ∧ VerifyPassword password (uPasswordHash u) = true ∧ tables d1 = tables d
    ∧ createSession m (uID u) (Ok raw) now d1 = (d', Ok token).
Proof.
  unfold Login. intros H. apply cmd_bind_inv in H as (r & d1 & Hc & H).
  unfold catch in Hc. destruct (UserByUsername username d) as [d2 [u|e]] eqn:Hu; injection Hc as <- <-; cbn in H.
  - unfold UserByUsername in Hu. apply cmd_bind_inv in Hu as (row & d3 & Hq & Hs).
    apply wrapped_ok, query_ok in Hq as (-> & Ht & _). unfold scanUser in Hs.
    destruct (find_username username (tables d)) as [u0|]; [|discriminate Hs]. injection Hs as -> ->.
    apply cmd_bind_inv in H as (found & d4 & Hf & H). injection Hf as <- <-.
    apply cmd_bind_inv in H as ([] & d4 & Hw & H). destruct cancelled; [discriminate Hw|]. injection Hw as <-.
    cbv zeta in H. destruct (VerifyPassword password (uPasswordHash u)) eqn:Hv; [|discriminate H].
    apply cmd_bind_inv in H as (tok & d5 & Hcs & H). injection H as <- <- <-. by exists u, d2.
  - apply cmd_bind_inv in H as (found & d4 & Hf & H).
    destruct (errors_is e ErrNotFound); [|discriminate Hf]. injection Hf as <- <-.
    apply cmd_bind_inv in H as ([] & d5 & Hw & H). discriminate H.
Qed.

(** A session opened by a login answers for the user who logged in, and for
    nobody else, at every time at least a second before it expires, never from a
    second after its expiry on, and in between as the stored texts compare; after
    a logout it answers no more.  [cookies] is any request that carries the token
    of that login. *)
Theorem session_lifetime m username password cancelled raw now d d' p token cookies
    (Hids : map_Forall (λ id u, uID u = id) (users (tables d)))
    (Hraw : Forall byte_ok raw) (Hlen : length raw = 32%nat)
    (Hlogin : Login m username password cancelled (Ok raw) now d = (d', Ok (p, token)))
    (Hfaults : faults d' = []) (Hcookie : session_cookie m cookies = Some token) :
  (∀ t, (Manager_Principal m cookies t d').2
        = Ok (if time_text_lt t (now + session_ttl m) then Some p else None))
  ∧ (∀ t, t + Second ≤ now + session_ttl m → (Manager_Principal m cookies t d').2 = Ok (Some p))
  ∧ (∀ t, now + session_ttl m + Second ≤ t → (Manager_Principal m cookies t d').2 = Ok None)
  ∧ (∀ t, (Manager_Principal m cookies t (Logout m cookies d').1).2 = Ok None).
Proof.
  destruct (Login_ok _ _ _ _ _ _ _ _ _ _ Hlogin) as (u & d1 & Hu & -> & _ & Ht & Hcs).
  destruct (createSession_ok _ _ _ _ _ _ _ Hcs) as (Htok & Husers & [u' Hu'] & Hs).
  assert (u' = u) as ->.
  { unfold find_username in Hu. apply fmap_Some in Hu as ([id u0] & Hh & ->).
    apply head_Some_elem_of, list_elem_of_filter in Hh as [_ Hin%elem_of_map_to_list]. cbn in *.
    rewrite Husers, Ht, (Hids id u0 Hin) in Hu'. congruence. }
  assert (∀ t, (Manager_Principal m cookies t d').2
    = Ok (if time_text_lt t (now + session_ttl m) then Some (mkPrincipal (uID u) (uUsername u)) else None)) as Hp.
  { intros t. rewrite (Principal_run m cookies token) by (done || apply TokenDigest_length).
    rewrite Htok, TokenDigest_of by done. unfold session_user. rewrite Hs. cbn [mbind option_bind sExpiresAt sUserID].
    destruct (time_text_lt t (now + session_ttl m)); [by rewrite Hu'|done]. }
  split_and!; [done|..]; intros t.
  - intros H. by rewrite Hp, time_text_lt_later.
  - intros H. rewrite Hp. destruct (time_text_lt t (now + session_ttl m)) eqn:Hlt; [|done].
    apply time_text_lt_seconds in Hlt. lia.
  - assert ((Logout m cookies d').1 = d' <| tables := tables d' <| sessions := delete (TokenDigest token) (sessions (tables d')) |> |>) as ->.
    { unfold Logout. rewrite Hcookie. unfold DeleteSession.
      rewrite bool_decide_eq_false_2 by (intros Hn; apply Hn, TokenDigest_length).
      rewrite wrapped_state. by erewrite exec_run. }
    rewrite (Principal_run m cookies token) by (done || apply TokenDigest_length).
    unfold session_user. cbn. by rewrite lookup_delete_eq.
Qed.
End auth.

(** ** Witnesses *)

(** A session that expires on a whole second is still accepted half a second
    later: the trimmed text of the expiry ends in [Z] where the other goes on
    with a point. *)
Example accepted_after_expiry : time_text_lt (100 * Second + 500 * Millisecond) (100 * Second) = true.
Proof. by vm_compute. Qed.

Definition sample_sum (l : list Z) : list Z := take 32 (l ++ replicate 32 0).
Definition sample_kdf (password salt : list Z) (_ _ _ : Z) (n : nat) : list Z :=
  take n ((wrap8 <$> password) ++ replicate n 7).
Definition sample_salt : list Z := replicate 16 1.
Definition sample_token : list Z := replicate 32 9.

Lemma sample_sum_length l : length (sample_sum l) = 32%nat.
Proof. unfold sample_sum. rewrite length_take, length_app, length_replicate. lia. Qed.

Lemma sample_kdf_spec password salt time memory threads n :
  length (sample_kdf password salt time memory threads n) = n
  ∧ Forall byte_ok (sample_kdf password salt time memory threads n).
Proof.
  unfold sample_kdf. split; [rewrite length_take, length_app, length_replicate; lia|].
  apply Forall_take, Forall_app. split; [apply Forall_fmap, Forall_true; intros; apply wrap8_ok|].
  apply Forall_replicate. by unfold byte_ok.
Qed.

Definition sample_hash : list Z :=
  match HashPassword sample_kdf "password" (Ok sample_salt) with Ok h => h | Err _ => [] end.

Definition sample_db : DB :=
  mkDB (empty_tables <| users := {["u1" := mkUserRow "u1" "admin" sample_hash 0 0]} |>) 0 0 [] [] 0
    (New "constraint failed").

Definition sample_login : DB * result error (Principal * string) :=
  Login sample_sum sample_kdf NewManager "ADMIN" "password" None (Ok sample_token) (5 * Second) sample_db.
Definition sample_cookies (name : string) : option string :=
  if bool_decide (name = SessionCookieName) then Some (EncodeToString RawURLEncoding sample_token) else None.

Lemma password_record_roundtrip_witness :
  let stored := HashPassword sample_kdf "password" (Ok sample_salt) in
  is_ok stored = bool_decide (8 ≤ String.length "password" ≤ 1024)%nat
  ∧ ∀ record q, stored = Ok record →
      VerifyPassword sample_kdf q record
      = bool_decide (String.length q ≤ 1024)%nat
        && bool_decide (hash_of sample_kdf q sample_salt = hash_of sample_kdf "password" sample_salt).
Proof.
  apply (password_record_roundtrip sample_kdf sample_kdf_spec); [|done].
  by apply (bool_decide_unpack _).
Defined.

Lemma single_administrator_witness :
  let d := sample_db <| tables := empty_tables |> <| ids := ["u1"] |> in
  let d' := (run_call sample_sum sample_kdf NewManager
    (call_Setup "admin" "password" None (Ok sample_salt) (Ok sample_token) 5) d).1 in
  size (users (tables d')) = 1%nat
  ∧ (size (users (tables d')) ≤ 1)%nat
  ∧ ∀ digest s, sessions (tables d') !! digest = Some s →
      length digest = 32%nat ∧ ∃ u, users (tables d') !! sUserID s = Some u ∧ uID u = sUserID s.
Proof.
  cbv zeta. split; [by vm_compute|].
  apply (single_administrator sample_sum sample_kdf NewManager
    (sample_db <| tables := empty_tables |> <| ids := ["u1"] |>)); [done|].
  apply rtc_once. by eexists.
Defined.

Lemma session_lifetime_witness :
  let d' := sample_login.1 in
  let p := mkPrincipal "u1" "admin" in
  let expiry := 5 * Second + session_ttl NewManager in
  (∀ t, (Manager_Principal sample_sum NewManager sample_cookies t d').2
        = Ok (if time_text_lt t expiry then Some p else None))
  ∧ (∀ t, t + Second ≤ expiry → (Manager_Principal sample_sum NewManager sample_cookies t d').2 = Ok (Some p))
  ∧ (∀ t, expiry + Second ≤ t → (Manager_Principal sample_sum NewManager sample_cookies t d').2 = Ok None)
  ∧ (∀ t, (Manager_Principal sample_sum NewManager sample_cookies t
            (Logout sample_sum NewManager sample_cookies d').1).2 = Ok None).
Proof.
  apply (session_lifetime sample_sum sample_kdf sample_sum_length NewManager "ADMIN" "password" None sample_token
    (5 * Second) sample_db _ _ (EncodeToString RawURLEncoding sample_token)).
  - by apply map_Forall_singleton.
  - by apply (bool_decide_unpack _).
  - done.
  - by vm_compute.
  - by vm_compute.
  - by vm_compute.
Defined.
