(* ===== verification/Lifecycle.v ===== *)
(** * Job life cycles (internal/download/manager.go)

    The operations that change a job: running it, finalizing and recovering
    its files, pausing, resuming, cancelling, failing and deleting it, over
    the database ([StoreDownloads]), the file tree ([FsRoot]) and the queue
    ([Queue]).  The cipher and the transfer of a file's bytes are parameters. *)

From Stdlib Require Import ZArith Lia.
From stdpp Require Import base list gmap strings numbers pretty.
From S2P Require Import Prelude GoStrings GoErrors JobState Planner Retry Crypto Paths Store StoreDownloads FsRoot FsRootOps Secrets Queue.

(** ** The world *)

(** What the manager publishes on the event bus about jobs. *)
Inductive Published :=
| JobSnapshot (r : DownloadJobRecord)
| JobDeleted (id : string).

(** [w_ctx] is the context of the running job: after that many checks it is
    found cancelled with the error, and stays so; [None] is a context that
    is never cancelled.  [w_trail] is a record for the theorems, which no
    operation reads: the tables as they were before each call of [on_db]. *)
Record World := mkWorld {
  w_db : DB;
  w_fs : FS;
  w_mgr : Manager;
  w_events : list Published;
  w_ctx : option (nat * error);
  w_trail : list Tables }.

#[export] Instance World_eta : Eta World := λ w,
  mkWorld (w_db w) (w_fs w) (w_mgr w) (w_events w) (w_ctx w) (w_trail w).

Abbreviation life := (cmd error World).

(** The world after a call that left the database as [d]. *)
Definition db_ran (d : DB) (w : World) : World :=
  w <| w_db := d |> <| w_trail := w_trail w ++ [tables (w_db w)] |>.

Definition on_db {A} (m : store_cmd A) : life A := λ w,
  let (d, r) := m (w_db w) in (db_ran d w, r).
Definition on_fs {A} (m : fs_cmd A) : life A := λ w,
  let (s, r) := m (w_fs w) in (w <| w_fs := s |>, r).
Definition on_mgr (f : Manager → Manager) : life () := modify (λ w, w <| w_mgr := f (w_mgr w) |>).

(** [ctx.Err()]. *)
Definition ctx_check : life (option error) := λ w,
  match w_ctx w with
  | Some (S k, e) => (w <| w_ctx := Some (k, e) |>, Ok None)
  | Some (O, e) => (w, Ok (Some e))
  | None => (w, Ok None)
  end.

(** [m.now()]. *)
Definition m_now : life Z := λ w, (w, Ok (wall (w_db w))).

Definition life_of_result {A} (r : result error A) : life A :=
  match r with Ok a => mret a | Err e => throw e end.

(** A persisted state read back; the transition functions refuse a text that
    is none of the states. *)
Definition parse_job_state (s : string) : option JobState :=
  list_find (λ x, JobState_text x = s)
    [JobQueued; JobResolving; JobReady; JobDownloading; JobPaused; JobPausedRecovery;
     JobWaitingQuota; JobFinalizing; JobCompleted; JobFailed; JobCancelled] ≫= λ p, Some p.2.
Definition parse_file_state (s : string) : option FileState :=
  list_find (λ x, FileState_text x = s)
    [FilePending; FileDownloading; FilePaused; FileWaiting; FileVerifying; FileMoving;
     FileCompleted; FileFailed; FileCancelled] ≫= λ p, Some p.2.

Definition transition_job (from : string) (to : JobState) : result error () :=
  match parse_job_state from with
  | Some s => TransitionJobState s to
  | None => Err (Wrap ErrInvalidStateTransition
      (": job " +:+ quote from +:+ " -> " +:+ quote (JobState_text to)))
  end.
Definition transition_file (from : string) (to : FileState) : result error () :=
  match parse_file_state from with
  | Some s => TransitionFileState s to
  | None => Err (Wrap ErrInvalidStateTransition
      (": file " +:+ quote from +:+ " -> " +:+ quote (FileState_text to)))
  end.

Definition terminal_job (s : string) : bool :=
  match parse_job_state s with Some s => IsTerminalJobState s | None => false end.

(** ** Small helpers of the manager *)

Definition publishJobSnapshot (jobID : string) : life () :=
  if bool_decide (jobID = "") then mret ()
  else
    r ← catch (on_db (GetDownloadJob jobID));
    match r with
    | Ok job => modify (λ w, w <| w_events := w_events w ++ [JobSnapshot job] |>)
    | Err _ => mret ()
    end.

Definition set_file_state (fileID state code message : string) : life () :=
  when ← m_now;
  on_db (UpdateDownloadFileState (mkStateUpdate fileID state code message when)).

Definition set_job_state (jobID state : string) : life () :=
  when ← m_now; on_db (SetDownloadJobState jobID state when).

Definition add_event (jobID fileID kind message : string) : life () :=
  when ← m_now; on_db (AddDownloadEvent jobID fileID kind message when).

(** [job.Files] after [current, err := GetDownloadJob(job.ID)]: the fresh
    record, or the one at hand when it cannot be read. *)
Definition reload (job : DownloadJobRecord) : life DownloadJobRecord :=
  r ← catch (on_db (GetDownloadJob (jID (rJob job))));
  mret (match r with Ok current => current | Err _ => job end).

Definition fileID (file : option FileRow) : string :=
  match file with Some f => fID f | None => "" end.

(** ** Pausing, failing and waiting for quota *)

Definition pauseJob (job : DownloadJobRecord) : life () :=
  current ← reload job;
  _ ← for_each (rFiles current) (λ file,
        if bool_decide (fState file ∈ ["downloading"; "verifying"; "moving"])
        then ignore (set_file_state (fID file) "paused" "" "")
        else mret ());
  _ ← (if is_ok (transition_job (jState (rJob current)) JobPaused)
       then ignore (set_job_state (jID (rJob job)) "paused") else mret ());
  _ ← ignore (add_event (jID (rJob job)) "" "state" "download paused");
  publishJobSnapshot (jID (rJob job)).

(** Always returns [cause]. *)
Definition failJob {A} (job : DownloadJobRecord) (file : option FileRow) (cause : error) : life A :=
  let id := jID (rJob job) in
  _ ← (match file with
       | Some f => ignore (set_file_state (fID f) "failed" "download_failed" (Error cause))
       | None => mret ()
       end);
  _ ← ignore (add_event id (fileID file) "error" (Error cause));
  current ← reload job;
  _ ← for_each (rFiles current) (λ candidate,
        if (match file with Some f => bool_decide (fID candidate = fID f) | None => false end)
           || bool_decide (fState candidate ∈ ["completed"; "failed"])
        then mret ()
        else ignore (set_file_state (fID candidate) "failed" "download_aborted" (Error cause)));
  _ ← (if is_ok (transition_job (jState (rJob current)) JobFailed)
       then ignore (set_job_state id "failed") else mret ());
  _ ← publishJobSnapshot id;
  throw cause.

Definition quotaDelay (index : Z) : Z :=
  if index =? 1 then Minute
  else if index =? 2 then 2 * Minute
  else if index =? 3 then 5 * Minute
  else 15 * Minute.

(** [quota] is the cause and the Retry-After delay of the quota error; the
    delay of the timer that is scheduled is returned. *)
Definition enterWaitingQuota (job : DownloadJobRecord) (file : option FileRow)
    (quota : option (option error * Z)) : life Z :=
  let id := jID (rJob job) in
  let index := jQuotaRetryIndex (rJob job) + 1 in
  let delay := match quota with
               | Some (_, retryAfter) => if 0 <? retryAfter then retryAfter else quotaDelay index
               | None => quotaDelay index
               end in
  let message := match quota with
                 | Some (Some cause, _) => Error (QuotaError (Some cause) 0)
                 | _ => sentinel_text ErrQuota
                 end in
  now ← m_now;
  _ ← on_db (SetDownloadQuotaState id "waiting_quota" "quota_exhausted" message
               (Some (now + delay)) index now);
  current ← reload job;
  _ ← for_each (rFiles current) (λ candidate,
        if bool_decide (fState candidate = "completed") then mret ()
        else ignore (set_file_state (fID candidate) "waiting_quota" "quota_exhausted" message));
  _ ← ignore (add_event id (fileID file) "warning" "MEGA quota exhausted; download is waiting");
  _ ← publishJobSnapshot id;
  mret delay.

(** ** Roots *)

Definition fsRoot (p : string) : life nat := on_fs (fsroot_New p).

(** [defer root.Close()]. *)
Definition with_root {A} (p : string) (body : nat → life A) : life A :=
  root ← fsRoot p;
  r ← catch (body root);
  _ ← ignore (on_fs (Root_Close root));
  life_of_result r.

Definition validateTransferRoots (job : JobRow) : life () :=
  let for_job := " for download " +:+ quote (jID job) in
  _ ← guard_err (bool_decide (jCompleteRoot job = "") || bool_decide (jIncompleteRoot job = ""))
        (Wrap ErrTransferRootsNotConfigured for_job);
  complete ← catch (on_fs (fsroot_New (jCompleteRoot job)));
  match complete with
  | Err e => throw (Wrapf ("invalid complete root" +:+ for_job) e)
  | Ok complete =>
    c1 ← catch (on_fs (Root_Close complete));
    match c1 with
    | Err e => throw (Wrapf ("close complete root" +:+ for_job) e)
    | Ok _ =>
      incomplete ← catch (on_fs (fsroot_New (jIncompleteRoot job)));
      match incomplete with
      | Err e => throw (Wrapf ("invalid incomplete root" +:+ for_job) e)
      | Ok incomplete =>
        c2 ← catch (on_fs (Root_Close incomplete));
        match c2 with
        | Err e => throw (Wrapf ("close incomplete root" +:+ for_job) e)
        | Ok _ => mret ()
        end
      end
    end
  end.

(** ** Queueing *)

Definition StartJobWithPriority (jobID : string) (priority : Z) : life () :=
  _ ← guard_err (bool_decide (jobID = "")) (New "download job id is required");
  job ← on_db (GetDownloadJob jobID);
  _ ← validateTransferRoots (rJob job);
  w ← get;
  let (m, outcome) := start_job_locked jobID priority (w_mgr w) in
  _ ← on_mgr (λ _, m);
  match outcome with
  | Enqueued | AlreadyThere => mret ()
  | QueueFull => throw (New "download queue is full")
  | ManagerClosed => throw (New "download manager is closed")
  end.

Definition StartJob (jobID : string) : life () := StartJobWithPriority jobID 0.

(** [PauseJob]; [None] when a running job was told to stop and the caller
    waits for it. *)
Definition PauseJob (jobID : string) : life (option ()) :=
  w ← get;
  let (m, waits) := pause_job_locked jobID (w_mgr w) in
  _ ← on_mgr (λ _, m);
  if waits then mret None
  else
    job ← on_db (GetDownloadJob jobID);
    _ ← guard_err (terminal_job (jState (rJob job)))
          (New ("cannot pause terminal job " +:+ quote jobID));
    _ ← pauseJob job;
    mret (Some ()).

Definition ResumeJob (jobID : string) : life () :=
  w ← get;
  if bool_decide (jobID ∈ m_active (w_mgr w)) then mret ()
  else
    job ← on_db (GetDownloadJob jobID);
    _ ← validateTransferRoots (rJob job);
    let state := jState (rJob job) in
    _ ← guard_err (terminal_job state && negb (bool_decide (state = "failed")))
          (New ("cannot resume terminal job " +:+ quote jobID));
    _ ← life_of_result (transition_job state JobQueued);
    now ← m_now;
    _ ← on_db (ClearDownloadQuotaState jobID "queued" now);
    _ ← ignore (add_event jobID "" "state" "download queued for resume");
    _ ← publishJobSnapshot jobID;
    StartJob jobID.

(** ** Cancelling and deleting *)

Definition removePartialDirectory (job : JobRow) : life () :=
  with_root (jIncompleteRoot job) (λ root,
    relative ← life_of_result (SanitizeComponent (jID job));
    r ← catch (on_fs (Root_RemoveAll root relative));
    match r with Ok _ => mret () | Err e => throw (Wrapf "remove partial directory" e) end).

Definition cancelPersistedJob (jobID : string) (deletePartialFiles : bool) : life () :=
  job ← on_db (GetDownloadJob jobID);
  _ ← guard_err (bool_decide (jState (rJob job) ∈ ["completed"; "cancelled"]))
        (New ("cannot cancel terminal job " +:+ quote jobID));
  _ ← for_each (rFiles job) (λ file,
        if bool_decide (fState file = "completed") then mret ()
        else set_file_state (fID file) "cancelled" "" "");
  _ ← set_job_state jobID "cancelled";
  _ ← ignore (add_event jobID "" "state" "download cancelled");
  _ ← publishJobSnapshot jobID;
  if deletePartialFiles then removePartialDirectory (rJob job) else mret ().

(** [CancelJob]; [None] when a running job was told to stop: [finishJob] then
    cancels it. *)
Definition CancelJob (jobID : string) (deletePartialFiles : bool) : life (option ()) :=
  w ← get;
  let (m, waits) := cancel_job_locked jobID deletePartialFiles (w_mgr w) in
  _ ← on_mgr (λ _, m);
  if waits then mret None
  else _ ← cancelPersistedJob jobID deletePartialFiles; mret (Some ()).

(** [finishJob]: both critical sections around the cancellation. *)
Definition finishJob (jobID : string) : life () :=
  w ← get;
  match finish_first jobID (w_mgr w) with
  | None => mret ()
  | Some (m, (cancelRequested, deletePartial, requeue)) =>
    _ ← on_mgr (λ _, m);
    _ ← (if cancelRequested then ignore (cancelPersistedJob jobID deletePartial) else mret ());
    on_mgr (finish_second jobID requeue)
  end.

Definition removeCompletedFiles (job : DownloadJobRecord) : life () :=
  with_root (jCompleteRoot (rJob job)) (λ root,
    for_each (rFiles job) (λ file,
      if negb (bool_decide (fState file = "completed")) || bool_decide (fFinalPath file = "")
      then mret ()
      else
        info ← catch (on_fs (Root_Lstat root (fFinalPath file)));
        match info with
        | Err e =>
          if errors_is e ErrNotExist then mret ()
          else throw (Wrapf "inspect completed file" e)
        | Ok info =>
          if IsSymlink info then throw (New "refusing to remove symlinked completed file")
          else
            r ← catch (on_fs (Root_Remove root (fFinalPath file)));
            match r with Ok _ => mret () | Err e => throw (Wrapf "remove completed file" e) end
        end)).

(** The second half of [DeleteJob], once no worker owns the job. *)
Definition delete_stopped (jobID : string) (deleteFiles : bool) : life () :=
  job ← on_db (GetDownloadJob jobID);
  _ ← (if deleteFiles
       then _ ← removePartialDirectory (rJob job); removeCompletedFiles job
       else mret ());
  _ ← on_db (DeleteDownloadJob jobID);
  modify (λ w, w <| w_events := w_events w ++ [JobDeleted jobID] |>).

(** [DeleteJob]; [None] when it waits for a running job to be cancelled, and
    then goes on with [delete_stopped]. *)
Definition DeleteJob (jobID : string) (deleteFiles : bool) : life (option ()) :=
  job ← on_db (GetDownloadJob jobID);
  _ ← guard_err (negb deleteFiles && negb (bool_decide (jState (rJob job) = "completed")))
        (New "deleteFiles must be true for an unfinished download");
  w ← get;
  if bool_decide (jobID ∈ m_active (w_mgr w))
  then
    r ← CancelJob jobID deleteFiles;
    match r with
    | None => mret None
    | Some _ => _ ← delete_stopped jobID deleteFiles; mret (Some ())
    end
  else
    _ ← (if bool_decide (jobID ∈ m_pending (w_mgr w)) || negb (terminal_job (jState (rJob job)))
         then _ ← on_mgr (delete_job_locked jobID); cancelPersistedJob jobID deleteFiles
         else mret ());
    _ ← delete_stopped jobID deleteFiles;
    mret (Some ()).

(** What [CancelJob] does once the running job has stopped. *)
Definition cancel_waited (jobID : string) : life () :=
  job ← on_db (GetDownloadJob jobID);
  guard_err (negb (bool_decide (jState (rJob job) = "cancelled")))
    (New ("job " +:+ quote jobID +:+ " was not cancelled")).

(** ** Files on disk *)

(** [Stat] and reading an open file; the size of a directory is not its
    content's. *)
Definition k_read (f : path) : fs_cmd (list Z) := sys (λ s,
  match entries s !! f with
  | Some (EFile content) => (s, Ok content)
  | _ => (s, Err (Sentinel EISDIR))
  end).

Definition k_truncate (f : path) (size : Z) : fs_cmd () := sys (λ s,
  match entries s !! f with
  | Some (EFile content) =>
    let n := Z.to_nat size in
    (s <| entries := <[f := EFile (take n content ++ replicate (n - length content) 0)]> (entries s) |>,
     Ok ())
  | _ => (s, Err (Sentinel EISDIR))
  end).

(** [Close] of an open file. *)
Definition k_close (f : path) : fs_cmd () := sys (λ s, (s, Ok ())).

(** [OpenPartialFile]: the open file, its relative path and whether it
    existed. *)
Definition OpenPartialFile (root : nat) (jobID remotePath : string) (size : Z)
    : life (path * string * bool) :=
  if size <? 0 then throw (New "partial file size must not be negative")
  else
    relative ← life_of_result (PartialRelativePath jobID remotePath);
    opened ← catch (on_fs (Root_OpenOrCreateFile root relative));
    match opened with
    | Err e => throw (Wrapf "open partial file" e)
    | Ok (f, existed) =>
      sized ← catch (on_fs (k_truncate f size));
      match sized with
      | Err e => throw (Wrapf "size partial file" e)
      | Ok _ => mret (f, relative, existed)
      end
    end.

Section files.
(** The block cipher of [crypto/aes] and GCM. *)
Context (E : list Z → list Z → list Z) (gcm : AEAD) (secrets : SecretStore).
(** The transfer of a file's bytes - the machine of [FileTransfer] - on the
    open partial file. *)
Context (transfer : FileRow → path → bool → life ()).
(** [m.runtimeSettings().conflictPolicy]. *)
Context (conflictPolicy : string).

(** [VerifyPartialFileContext]; the reads of the scan check the context too.
    The scan terminates ([VerifyIntegrity_spec]), so its [None] never
    appears. *)
Definition VerifyPartialFileContext (f : path) (size : Z) (key : FileKey) : life () :=
  if size <? 0 then throw (New "negative file size")
  else
    c ← ctx_check;
    match c with
    | Some e => throw e
    | None =>
      r ← catch (on_fs (k_read f));
      match r with
      | Err e => throw (Wrapf "stat partial file for verification" e)
      | Ok content =>
        if negb (Z.of_nat (length content) =? size)
        then throw (Wrap ErrIntegrityMismatch (": partial file size "
               +:+ FormatInt (Z.of_nat (length content)) +:+ ", want " +:+ FormatInt size))
        else
          c ← ctx_check;
          match c, VerifyIntegrity E content size key with
          | Some ce, _ => throw ce
          | None, Some (Ok _) => mret ()
          | None, Some (Err e) =>
            c ← ctx_check;
            match c with Some ce => throw ce | None => throw e end
          | None, None => throw (New "unreachable")
          end
      end
    end.

(** [errors.Is(err, os.ErrNotExist)] on the result of [Lstat]. *)
Definition lstat_found (root : nat) (relative head : string) : life (option entry) :=
  r ← catch (on_fs (Root_Lstat root relative));
  match r with
  | Ok info => mret (Some info)
  | Err e => if errors_is e ErrNotExist then mret None else throw (Wrapf head e)
  end.

(** [recoverMovedFile]: whether the file turned out to be complete. *)
Definition recoverMovedFile (job : JobRow) (file : FileRow) : life bool :=
  with_root (jIncompleteRoot job) (λ incompleteRoot,
    partialRelative ← life_of_result (PartialRelativePath (jID job) (fRemotePath file));
    partial ← lstat_found incompleteRoot partialRelative
                "inspect partial file during move recovery";
    let partialExists := bool_decide (is_Some partial) in
    with_root (jCompleteRoot job) (λ completeRoot,
      target ← lstat_found completeRoot (fFinalPath file)
                 "inspect final target during move recovery";
      match target with
      | None =>
        if partialExists then mret false
        else throw (New ("move recovery found neither partial file nor final target "
                           +:+ quote (fFinalPath file)))
      | Some targetInfo =>
        if IsSymlink targetInfo
        then throw (Wrap ErrSymlink ": recovered final target is a symlink")
        else
          rawKey ← life_of_result (match SecretStore_Decrypt gcm secrets (fKey file) with
                     | Ok k => Ok k
                     | Err e => Err (Wrapf "decrypt file key during move recovery" e)
                     end);
          key ← life_of_result (decodeFileKeyBytes rawKey);
          opened ← catch (on_fs (Root_OpenFile completeRoot (fFinalPath file) false false));
          match opened with
          | Err e => throw (Wrapf "open final target during move recovery" e)
          | Ok targetFile =>
            verify ← catch (VerifyPartialFileContext targetFile (fSizeBytes file) key);
            closeErr ← catch (on_fs (k_close targetFile));
            match verify with
            | Err e =>
              if partialExists then mret false
              else throw (Wrapf "verify final target during move recovery" e)
            | Ok _ =>
              _ ← (match closeErr with
                   | Err e => throw (Wrapf "close final target during move recovery" e)
                   | Ok _ => mret ()
                   end);
              _ ← (if partialExists then
                     rm ← catch (on_fs (Root_Remove incompleteRoot partialRelative));
                     match rm with
                     | Err e => throw (Wrapf "remove recovered partial link" e)
                     | Ok _ =>
                       sy ← catch (on_fs (Root_SyncDir incompleteRoot (relativeParent partialRelative)));
                       match sy with
                       | Err e => throw (Wrapf "sync recovered incomplete directory" e)
                       | Ok _ => mret ()
                       end
                     end
                   else mret ());
              now ← m_now;
              _ ← on_db (CompleteDownloadFile (fID file) (fFinalPath file) now);
              mret true
            end
          end
      end)).

(** The loop of [finalize]; [todo] attempts are left. *)
Fixpoint finalize_loop (todo : nat) (policy : string) (incompleteRoot completeRoot : nat)
    (file : FileRow) (partialRelative : string) : life string :=
  match todo with
  | O => throw (Wrap ErrConflict ": exhausted atomic conflict candidates")
  | S todo =>
    target ← on_fs (Root_PlanConflict completeRoot (fFinalPath file) policy);
    now ← m_now;
    _ ← on_db (PrepareDownloadFileMove (fID file) target now);
    renamed ← catch (on_fs (Root_RenameFrom completeRoot incompleteRoot partialRelative target
                              (bool_decide (policy = ConflictOverwrite))));
    match renamed with
    | Err e =>
      if errors_is e ErrConflict && bool_decide (policy = ConflictRename)
      then finalize_loop todo policy incompleteRoot completeRoot file partialRelative
      else if errors_is e EXDEV
      then throw (Wrap ErrCrossDevice (": cannot atomically rename " +:+ quote (fFinalPath file)
                    +:+ " into complete root"))
      else throw e
    | Ok _ =>
      s1 ← catch (on_fs (Root_SyncDir completeRoot (relativeParent target)));
      match s1 with
      | Err e => throw (Wrap ErrFinalizationPending (": sync complete directory: " +:+ Error e))
      | Ok _ =>
        s2 ← catch (on_fs (Root_SyncDir incompleteRoot (relativeParent partialRelative)));
        match s2 with
        | Err e => throw (Wrap ErrFinalizationPending (": sync incomplete directory: " +:+ Error e))
        | Ok _ => mret target
        end
      end
    end
  end.

Definition finalize_attempts : nat := Z.to_nat 100001.

(** [settingsPolicy] is what the settings service answers, if it does. *)
Definition finalize (settingsPolicy : option string) (job : JobRow) (file : FileRow)
    (partialRelative : string) : life string :=
  with_root (jIncompleteRoot job) (λ incompleteRoot,
    with_root (jCompleteRoot job) (λ completeRoot,
      let policy := if bool_decide (conflictPolicy = "") then default "" settingsPolicy
                    else conflictPolicy in
      let policy := if bool_decide (policy = "") then "rename" else policy in
      finalize_loop finalize_attempts policy incompleteRoot completeRoot file partialRelative)).

(** [processFileWithTransfer]. *)
Definition processFile (settingsPolicy : option string) (job : JobRow) (file : FileRow) : life () :=
  planner ← life_of_result (NewSegmentPlanner (fSizeBytes file) (fSegmentSize file));
  _ ← guard_err (negb (pCount planner =? fSegmentCount file))
        (New ("file " +:+ quote (fID file) +:+ " segment count "
         +:+ FormatInt (fSegmentCount file) +:+ " does not match planned count "
         +:+ FormatInt (pCount planner)));
  bitmap ← life_of_result (bitmapForFile (fBitmap file) (pCount planner));
  let committed := committedBytes planner bitmap in
  _ ← guard_err ((committed <? 0) || (fSizeBytes file <? committed))
        (New ("file " +:+ quote (fID file) +:+ " committed bytes are invalid"));
  rawKey ← life_of_result (match SecretStore_Decrypt gcm secrets (fKey file) with
             | Ok k => Ok k | Err e => Err (Wrapf "decrypt file key" e) end);
  key ← life_of_result (decodeFileKeyBytes rawKey);
  payload ← life_of_result (match SecretStore_Decrypt gcm secrets (fPayloadURL file) with
              | Ok k => Ok k | Err e => Err (Wrapf "decrypt payload location" e) end);
  _ ← guard_err (bool_decide (payload = [])) (New "payload location is empty");
  with_root (jIncompleteRoot job) (λ incompleteRoot,
    opened ← OpenPartialFile incompleteRoot (jID job) (fRemotePath file) (fSizeBytes file);
    let '(partial, partialRelative, existed) := opened in
    _ ← transfer file partial existed;
    _ ← set_file_state (fID file) "verifying" "" "";
    _ ← publishJobSnapshot (jID job);
    verify ← catch (VerifyPartialFileContext partial (fSizeBytes file) key);
    match verify with
    | Err e =>
      c ← ctx_check;
      match c with
      | Some ce => throw ce
      | None =>
        _ ← ignore (set_file_state (fID file) "failed" "integrity_mismatch" (Error e));
        _ ← ignore (add_event (jID job) (fID file) "error" "file integrity verification failed");
        _ ← publishJobSnapshot (jID job);
        throw e
      end
    | Ok _ =>
      closed ← catch (on_fs (k_close partial));
      _ ← (match closed with
           | Err e => throw (Wrapf "close partial file before finalization" e)
           | Ok _ => mret ()
           end);
      final ← catch (finalize settingsPolicy job file partialRelative);
      match final with
      | Err e =>
        if errors_is e ErrFinalizationPending then throw e
        else
          let code := if errors_is e ErrCrossDevice then "cross_device_finalize" else "finalize_failed" in
          _ ← ignore (set_file_state (fID file) "failed" code (Error e));
          _ ← publishJobSnapshot (jID job);
          throw e
      | Ok finalRelativePath =>
        _ ← ctx_check;
        now ← m_now;
        done ← catch (on_db (CompleteDownloadFile (fID file) finalRelativePath now));
        match done with
        | Err e => throw (Wrap ErrFinalizationPending (": persist completed file: " +:+ Error e))
        | Ok _ => publishJobSnapshot (jID job)
        end
      end
    end).

(** ** Running a job *)

(** The first loop of [runJob] over the files: those to transfer are marked
    downloading.  An error that fails the job comes with the file. *)
Fixpoint prepare_files (job : DownloadJobRecord) (files : list FileRow)
    : life (list FileRow) :=
  match files with
  | [] => mret []
  | file :: rest =>
    file ← (if bool_decide (fState file = "completed") then mret file
            else
              recovered ← (if bool_decide (fState file = "moving") then
                             r ← catch (recoverMovedFile (rJob job) file);
                             match r with
                             | Ok b => mret b
                             | Err e => failJob job (Some file) e
                             end
                           else mret false);
              if (recovered : bool) then mret (file <| fState := "completed" |>)
              else
                match transition_file (fState file) FileDownloading with
                | Err e => failJob job (Some file) e
                | Ok _ =>
                  _ ← set_file_state (fID file) "downloading" "" "";
                  mret (file <| fState := "downloading" |>)
                end);
    rest ← prepare_files job rest;
    mret (file :: rest)
  end.

(** The file workers, one file after the other: each claims the next file
    that is not complete, returns when the context is cancelled, and the
    first error stops them all. *)
Fixpoint process_files (settingsPolicy : option string) (job : JobRow) (files : list FileRow)
    : life (option (error * FileRow)) :=
  match files with
  | [] => mret None
  | file :: rest =>
    if bool_decide (fState file = "completed") then process_files settingsPolicy job rest
    else
      c ← ctx_check;
      match c with
      | Some _ => mret None
      | None =>
        r ← catch (processFile settingsPolicy job file);
        match r with
        | Ok _ => process_files settingsPolicy job rest
        | Err e => mret (Some (e, file))
        end
      end
  end.

Definition runJob (settingsPolicy : option string) (jobID : string) : life () :=
  job ← on_db (GetDownloadJob jobID);
  if terminal_job (jState (rJob job)) then mret ()
  else
    _ ← life_of_result (transition_job (jState (rJob job)) JobDownloading);
    _ ← set_job_state jobID "downloading";
    let job := job <| rJob := rJob job <| jState := "downloading" |> |> in
    _ ← ignore (add_event jobID "" "state" "download started");
    _ ← publishJobSnapshot jobID;
    files ← prepare_files job (rFiles job);
    let job := job <| rFiles := files |> in
    c ← ctx_check;
    match c with
    | Some ce => _ ← pauseJob job; throw ce
    | None =>
      failure ← process_files settingsPolicy (rJob job) (rFiles job);
      match failure with
      | Some (transferErr, failed) =>
        if IsQuotaError transferErr then
          _ ← enterWaitingQuota job (Some failed)
                (Some (default (Some transferErr, 0) (as_quota_error transferErr)));
          mret ()
        else
          c ← ctx_check;
          if bool_decide (is_Some c) || errors_is transferErr Canceled
             || errors_is transferErr DeadlineExceeded
          then
            _ ← pauseJob job;
            c ← ctx_check;
            throw (default transferErr c)
          else if errors_is transferErr ErrFinalizationPending then
            _ ← ignore (set_job_state jobID "paused_recovery");
            throw transferErr
          else failJob job (Some failed) transferErr
      | None =>
        c ← ctx_check;
        match c with
        | Some ce => _ ← pauseJob job; throw ce
        | None =>
          _ ← life_of_result (transition_job (jState (rJob job)) JobFinalizing);
          _ ← set_job_state jobID "finalizing";
          _ ← publishJobSnapshot jobID;
          _ ← life_of_result (transition_job "finalizing" JobCompleted);
          _ ← set_job_state jobID "completed";
          _ ← ignore (add_event jobID "" "completed" "download completed");
          publishJobSnapshot jobID
        end
      end
    end.
End files.
