(* ===== verification/LifecycleStates.v ===== *)
(** * What the life-cycle operations do to persisted states

    Every operation of [Lifecycle] is taken apart with a Hoare logic on the
    tables and the trail of tables before each call: along any history of
    handlers the states stay well formed and each write moves a job's state only
    along the transition table, and a job that
    [runJob] reports completed has only completed files. *)

From Stdlib Require Import ZArith Lia.
From stdpp Require Import base list gmap strings numbers pretty.
From S2P Require Import Prelude GoStrings GoErrors JobState Planner Retry Crypto Paths Store StoreDownloads FsRoot FsRootOps Secrets Queue Lifecycle.

(** ** Triples

    [hoare P m Q E]: from [P], a value leaves [Q] and an error leaves [E]. *)

Definition hoare {A} (P : World → Prop) (m : life A) (Q : A → World → Prop)
    (E : World → Prop) : Prop :=
  ∀ w, P w → match (m w).2 with Ok a => Q a (m w).1 | Err _ => E (m w).1 end.

Section hoare.
Context {A B : Type}.

Lemma hoare_ret P (a : A) (Q : A → World → Prop) E :
  (∀ w, P w → Q a w) → hoare P (mret a) Q E.
Proof. intros H w Hw. by apply H. Qed.

Lemma hoare_throw (P : World → Prop) e (Q : A → World → Prop) (E : World → Prop) :
  (∀ w, P w → E w) → hoare P (throw e) Q E.
Proof. intros H w Hw. by apply H. Qed.

Lemma hoare_bind P (m : life A) (k : A → life B) R Q E :
  hoare P m R E → (∀ a, hoare (R a) (k a) Q E) → hoare P (x ← m; k x) Q E.
Proof.
  intros Hm Hk w Hw. unfold mbind, cmd_bind. specialize (Hm w Hw).
  destruct (m w) as [w' [a|e]]; simpl in *; [by apply Hk|done].
Qed.

Lemma hoare_catch P (m : life A) Q E E' :
  hoare P m Q E → hoare P (catch m) (λ r w, match r with Ok a => Q a w | Err _ => E w end) E'.
Proof. intros Hm w Hw. specialize (Hm w Hw). unfold catch. by destruct (m w) as [w' []]. Qed.

Lemma hoare_ignore P (m : life A) (Q E E' : World → Prop) :
  hoare P m (λ _, Q) E → (∀ w, E w → Q w) → hoare P (ignore m) (λ _, Q) E'.
Proof.
  intros Hm HE w Hw. specialize (Hm w Hw). unfold ignore. destruct (m w) as [w' []]; simpl in *; auto.
Qed.

Lemma hoare_conseq (P P' : World → Prop) (m : life A) (Q Q' : A → World → Prop) (E E' : World → Prop) :
  hoare P m Q E → (∀ w, P' w → P w) → (∀ a w, Q a w → Q' a w) → (∀ w, E w → E' w) →
  hoare P' m Q' E'.
Proof.
  intros Hm HP HQ HE w Hw. specialize (Hm w (HP w Hw)). destruct (m w) as [w' []]; simpl in *; auto.
Qed.

Lemma hoare_weaken (P P' : World → Prop) (m : life A) Q E :
  (∀ w, P' w → P w) → hoare P m Q E → hoare P' m Q E.
Proof. intros HP Hm w Hw. by apply Hm, HP. Qed.

Lemma hoare_pre (P : World → Prop) (m : life A) (φ : Prop) Q E :
  (φ → hoare P m Q E) → hoare (λ w, φ ∧ P w) m Q E.
Proof. intros Hm w [H Hw]. by apply Hm. Qed.

Lemma hoare_exists {X} (P : X → World → Prop) (m : life A) Q E :
  (∀ x, hoare (P x) m Q E) → hoare (λ w, ∃ x, P x w) m Q E.
Proof. intros Hm w [x Hw]. by apply (Hm x). Qed.

(** An invariant carried through. *)
Lemma hoare_inv (I : World → Prop) (m : life A) : preserves I m → hoare I m (λ _, I) I.
Proof. intros Hm w Hw. specialize (Hm w Hw). by destruct (m w) as [w' []]. Qed.

Lemma hoare_keep (P : World → Prop) (m : life A) (E : World → Prop) :
  preserves P m → (∀ w, P w → E w) → hoare P m (λ _, P) E.
Proof. intros Hm HE. eapply hoare_conseq; [by apply hoare_inv|done|done|done]. Qed.

Lemma hoare_preserves (I : World → Prop) (m : life A) : hoare I m (λ _, I) I → preserves I m.
Proof. intros Hm w Hw. specialize (Hm w Hw). by destruct (m w) as [w' []]. Qed.

(** A step that keeps [P]. *)
Lemma hoare_quiet P (m : life A) (k : A → life B) Q (E : World → Prop) :
  preserves P m → (∀ w, P w → E w) → (∀ a, hoare P (k a) Q E) → hoare P (x ← m; k x) Q E.
Proof. intros Hm HE Hk. eapply hoare_bind; [by apply hoare_keep|done]. Qed.

Lemma hoare_of_result P (r : result error A) (E : World → Prop) :
  (∀ w, P w → E w) → hoare P (life_of_result r) (λ a w, r = Ok a ∧ P w) E.
Proof. intros HE w Hw. destruct r; simpl; auto. Qed.
End hoare.

Lemma hoare_guard P (b : bool) (e : error) (E : World → Prop) :
  (∀ w, P w → E w) → hoare P (guard_err b e) (λ _ w, b = false ∧ P w) E.
Proof. intros HE w Hw. destruct b; simpl; auto. Qed.

Lemma preserves_for_each {E S A} (I : S → Prop) (l : list A) (f : A → cmd E S ()) :
  (∀ x, x ∈ l → preserves I (f x)) → preserves I (for_each l f).
Proof.
  induction l as [|x l IH]; intros Hf; simpl; [apply preserves_ret|].
  apply preserves_bind; [apply Hf; by left|]. intros _. apply IH. intros y Hy. apply Hf. by right.
Qed.

(** ** Predicates of the tables *)

(** What is followed of the tables: the jobs with their states, the files
    with their owners and states. *)
Abbreviation jobs_seen := (gmap string (string * string)).
Abbreviation files_seen := (gmap string (string * string * string)).
Definition job_states (t : Tables) : jobs_seen := (λ j, (jID j, jState j)) <$> jobs t.
Definition file_states (t : Tables) : files_seen := (λ f, (fID f, fJobID f, fState f)) <$> files t.

(** The job states a world went through: those of its trail and of its
    tables, without repetitions. *)
Definition jobs_now (H : list jobs_seen) : jobs_seen := default ∅ (last H).
Definition path_next (H : list jobs_seen) (J : jobs_seen) : list jobs_seen :=
  if decide (last H = Some J) then H else H ++ [J].
Definition job_path (w : World) : list jobs_seen :=
  foldl path_next [] (job_states <$> w_trail w ++ [tables (w_db w)]).
Arguments job_path : simpl never.

Lemma last_next H J : last (path_next H J) = Some J.
Proof. unfold path_next. case_decide; [done|]. by rewrite last_snoc. Qed.
Lemma now_next H J : jobs_now (path_next H J) = J.
Proof. unfold jobs_now. by rewrite last_next. Qed.

Lemma job_path_last w : last (job_path w) = Some (job_states (tables (w_db w))).
Proof. unfold job_path. rewrite fmap_app, foldl_app. apply last_next. Qed.
Lemma job_path_now w : jobs_now (job_path w) = job_states (tables (w_db w)).
Proof. unfold jobs_now. by rewrite job_path_last. Qed.
Lemma job_path_ran d w : job_path (db_ran d w) = path_next (job_path w) (job_states (tables d)).
Proof.
  change (job_path (db_ran d w)) with (foldl path_next [] (job_states <$> (w_trail w ++ [tables (w_db w)]) ++ [tables d])).
  by rewrite fmap_app, foldl_app.
Qed.
Lemma job_path_same d w :
  job_states (tables d) = job_states (tables (w_db w)) → job_path (db_ran d w) = job_path w.
Proof. intros HJ. rewrite job_path_ran, HJ. unfold path_next. by rewrite decide_True by apply job_path_last. Qed.

(** A predicate of what is followed, of the tables and - with the whole path
    of the jobs - of the world; [present] looks at the end of the path only. *)
Definition seen (P : jobs_seen → files_seen → Prop) (t : Tables) : Prop :=
  P (job_states t) (file_states t).
Definition on (P : list jobs_seen → files_seen → Prop) (w : World) : Prop :=
  P (job_path w) (file_states (tables (w_db w))).
Abbreviation holds P := (preserves (on P)).
Definition present (P : jobs_seen → files_seen → Prop) (H : list jobs_seen) (F : files_seen) : Prop :=
  P (jobs_now H) F.

Lemma on_present P w : on (present P) w ↔ seen P (tables (w_db w)).
Proof. unfold on, present, seen. by rewrite job_path_now. Qed.

Lemma on_ran P d w : tables d = tables (w_db w) → on P w → on P (db_ran d w).
Proof. intros Ht Hw. unfold on. rewrite job_path_same; cbn; by rewrite Ht. Qed.

Lemma holds_on_db {A} P (m : store_cmd A) :
  (∀ H J0, keeps (seen (λ J F, J = J0 ∧ P H F)) m) → holds P (on_db m).
Proof.
  intros Hm w Hw. specialize (Hm (job_path w) _ (w_db w) (conj eq_refl Hw)). unfold on_db.
  destruct (m (w_db w)) as [d r]. destruct Hm as [HJ HP]. cbn in *. unfold on. by rewrite job_path_same.
Qed.
Lemma holds_present {A} P (m : store_cmd A) : keeps (seen P) m → holds (present P) (on_db m).
Proof.
  intros Hm w Hw%on_present. specialize (Hm (w_db w) Hw). unfold on_db.
  destruct (m (w_db w)) as [d r]. by apply on_present.
Qed.
Lemma holds_on_fs {A} P (m : fs_cmd A) : holds P (on_fs m).
Proof. intros w Hw. unfold on_fs. by destruct (m (w_fs w)). Qed.
Lemma holds_on_mgr P f : holds P (on_mgr f).
Proof. by intros w Hw. Qed.
Lemma holds_ctx P : holds P ctx_check.
Proof. intros w Hw. unfold ctx_check. by repeat case_match. Qed.
Lemma holds_now P : holds P m_now.
Proof. by intros w Hw. Qed.
Lemma holds_of_result {A} P (r : result error A) : holds P (life_of_result r).
Proof. intros w Hw. by destruct r. Qed.
Lemma holds_guard P b (e : error) : holds P (guard_err b e).
Proof. intros w Hw. by destruct b. Qed.

#[export] Hint Resolve holds_on_fs holds_on_mgr holds_ctx holds_now holds_of_result
  holds_guard : megadw.

(** Takes a command apart; statements on the database are left. *)
Ltac holds_step :=
  match goal with
  | |- preserves _ (mbind _ _) => apply preserves_bind; [|intros ?]
  | |- preserves _ (mret _) => apply preserves_ret
  | |- preserves _ (throw _) => apply preserves_throw
  | |- preserves _ (catch _) => apply preserves_catch
  | |- preserves _ (ignore _) => apply preserves_ignore
  | |- preserves _ get => apply preserves_get
  | |- preserves _ (life_of_result _) => apply holds_of_result
  | |- preserves _ (guard_err _ _) => apply holds_guard
  | |- preserves _ (for_each _ _) => apply preserves_for_each; intros ??
  | |- preserves _ (modify _) => apply preserves_modify; by intros ??
  | |- preserves _ (let _ := _ in _) => intros ?
  | |- preserves _ (if _ then _ else _) => case_match
  | |- preserves _ (match _ with _ => _ end) => case_match
  | |- preserves _ _ => solve [eauto 2 with megadw]
  end.

(** ** Store operations *)

(** A single-row update of a file and of a job, as a change of what is
    followed. *)
Lemma update_file_states id g st t t' n :
  update_file_row id g t = Some (t', n) →
  (∀ f, fID (g f) = fID f ∧ fJobID (g f) = fJobID f ∧ fState (g f) = st (fState f)) →
  job_states t' = job_states t ∧
  file_states t' = alter (λ x, (x.1, st x.2)) id (file_states t) ∧
  n = (if decide (is_Some (file_states t !! id)) then 1 else 0).
Proof.
  unfold update_file_row, file_states. intros H Hg.
  destruct (files t !! id) as [f|] eqn:E; [destruct (_ <? 0); [done|]|]; simplify_eq/=;
    (split; [done|]; split).
  - apply map_eq. intros k. rewrite lookup_fmap. destruct (decide (k = id)) as [->|Hne].
    + rewrite lookup_insert_eq, lookup_alter_eq, lookup_fmap, E. simpl. by destruct (Hg f) as (->&->&->).
    + by rewrite lookup_insert_ne, lookup_alter_ne, lookup_fmap by done.
  - rewrite decide_True; [done|]. by rewrite lookup_fmap, E.
  - apply map_eq. intros k. destruct (decide (k = id)) as [->|Hne].
    + by rewrite lookup_alter_eq, lookup_fmap, E.
    + by rewrite lookup_alter_ne.
  - rewrite decide_False; [done|]. rewrite lookup_fmap, E. by intros [].
Qed.

Lemma update_job_states id g st t t' n :
  update_job_row id g t = Some (t', n) → (∀ j, jID (g j) = jID j ∧ jState (g j) = st (jState j)) →
  file_states t' = file_states t ∧
  job_states t' = alter (λ x, (x.1, st x.2)) id (job_states t) ∧
  n = (if decide (is_Some (job_states t !! id)) then 1 else 0).
Proof.
  unfold update_job_row, job_states. intros H Hg. destruct (jobs t !! id) as [j|] eqn:E; simplify_eq/=;
    (split; [done|]; split).
  - apply map_eq. intros k. rewrite lookup_fmap. destruct (decide (k = id)) as [->|Hne].
    + rewrite lookup_insert_eq, lookup_alter_eq, lookup_fmap, E. simpl. by destruct (Hg j) as [-> ->].
    + by rewrite lookup_insert_ne, lookup_alter_ne, lookup_fmap by done.
  - rewrite decide_True; [done|]. by rewrite lookup_fmap, E.
  - apply map_eq. intros k. destruct (decide (k = id)) as [->|Hne].
    + by rewrite lookup_alter_eq, lookup_fmap, E.
    + by rewrite lookup_alter_ne.
  - rewrite decide_False; [done|]. rewrite lookup_fmap, E. by intros [].
Qed.

(** An update of one row, as every such operation runs it: unless it failed
    before the statement, the statement ran, and it returns no error only
    when it changed exactly one row. *)
Definition row_update (upd : Tables → option (Tables * Z)) (m : store_cmd ()) : Prop :=
  ∀ d, (tables (m d).1 = tables d ∧ is_ok (m d).2 = false) ∨
       ∃ n, upd (tables d) = Some (tables (m d).1, n) ∧ (is_ok (m d).2 = true → n = 1).

Lemma exec_cases {A} head (f : Tables → option (Tables * A)) d :
  (tables (wrapped head (exec f) d).1 = tables d ∧ is_ok (wrapped head (exec f) d).2 = false) ∨
  ∃ a, f (tables d) = Some (tables (wrapped head (exec f) d).1, a) ∧
       (wrapped head (exec f) d).2 = Ok a.
Proof.
  unfold wrapped, catch, mbind, cmd_bind, exec, driver. simpl.
  destruct (faults d) as [|[e|] rest]; simpl; [|by left|];
    destruct (f (tables d)) as [[t a]|]; simpl; [right|by left|right|by left]; eauto.
Qed.

Lemma row_update_tail head upd (tail : Z → store_cmd ()) :
  (∀ n d, tables (tail n d).1 = tables d ∧ (is_ok (tail n d).2 = true → n = 1)) →
  row_update upd (n ← wrapped head (exec upd); tail n).
Proof.
  intros Ht d. unfold mbind at 1 2 3 4, cmd_bind.
  destruct (exec_cases head upd d) as [[Hd Hr]|(n&Hu&Hr)];
    destruct (wrapped head (exec upd) d) as [d1 [n1|e1]]; simplify_eq/=; [by left|].
  right. exists n. destruct (Ht n d1) as [-> Hn]. eauto.
Qed.

Lemma row_update_now upd (when : Z) (m : Z → store_cmd ()) :
  (∀ when, row_update (upd when) (m when)) →
  ∀ d, (tables ((w ← or_now when; m w) d).1 = tables d ∧ is_ok ((w ← or_now when; m w) d).2 = false) ∨
       ∃ w n, upd w (tables d) = Some (tables ((w ← or_now when; m w) d).1, n) ∧
              (is_ok ((w ← or_now when; m w) d).2 = true → n = 1).
Proof. intros Hm d. erewrite cmd_bind_ok by apply or_now_eq. destruct (Hm (if when =? 0 then wall d else when) d); eauto. Qed.

Lemma tail_expect check subject n d :
  tables (expect_one check subject n d).1 = tables d ∧
  (is_ok (expect_one check subject n d).2 = true → n = 1).
Proof.
  destruct (expect_one check subject n d) as [d' [u|e]] eqn:E.
  - apply expect_one_ok in E as (->&Ht&_). done.
  - split; [|done]. simpl. assert (keeps (eq (tables d)) (expect_one check subject n)) as Hk by
      (repeat keeps_step). specialize (Hk d eq_refl). by rewrite E in Hk.
Qed.

Lemma tail_or_zero (e : error) n d :
  let m : store_cmd () := affected ← rows_affected_or_zero n; guard_err (bool_decide (affected ≠ 1)) e in
  tables (m d).1 = tables d ∧ (is_ok (m d).2 = true → n = 1).
Proof.
  cbv zeta. unfold rows_affected_or_zero, RowsAffected, driver, catch, mbind, cmd_bind. simpl.
  destruct (faults d) as [|[e'|] rest]; simpl; unfold guard_err; try case_bool_decide; simpl;
    split; try done; intros _; by destruct (decide (n = 1)).
Qed.

(** The state updates of one row, on what is followed. *)
Definition file_to (id st : string) (F : files_seen) : files_seen := alter (λ x, (x.1, st)) id F.
Definition job_to (id st : string) (J : jobs_seen) : jobs_seen := alter (λ x, (x.1, st)) id J.

(** [m] may move file [id] to [st], and has when it returns no error; the
    same for a job. *)
Definition moves_file (id st : string) (m : store_cmd ()) : Prop :=
  ∀ d, let t := tables d in let t' := tables (m d).1 in
    job_states t' = job_states t ∧
    (file_states t' = file_states t ∧ is_ok (m d).2 = false ∨
     file_states t' = file_to id st (file_states t) ∧
     (is_ok (m d).2 = true → is_Some (file_states t !! id))).
Definition moves_job (id st : string) (m : store_cmd ()) : Prop :=
  ∀ d, let t := tables d in let t' := tables (m d).1 in
    file_states t' = file_states t ∧
    (job_states t' = job_states t ∧ is_ok (m d).2 = false ∨
     job_states t' = job_to id st (job_states t) ∧
     (is_ok (m d).2 = true → is_Some (job_states t !! id))).

Lemma moves_file_update id st g (m : Z → store_cmd ()) when :
  (∀ when f, fID (g when f) = fID f ∧ fJobID (g when f) = fJobID f ∧ fState (g when f) = st) →
  (∀ when, row_update (update_file_row id (g when)) (m when)) →
  moves_file id st (w ← or_now when; m w).
Proof.
  intros Hg Hm d. cbv zeta.
  destruct (row_update_now (λ w, update_file_row id (g w)) when m Hm d) as [[-> Hr]|(w&n&Hu&Hn)].
  - split; [done|by left].
  - apply (update_file_states _ _ (λ _, st)) in Hu as (HJ&HF&->); [|done]. split; [done|].
    right. split; [done|]. intros Hok. specialize (Hn Hok). by case_decide.
Qed.

Lemma moves_job_update id st g (m : Z → store_cmd ()) when :
  (∀ when j, jID (g when j) = jID j ∧ jState (g when j) = st) →
  (∀ when, row_update (update_job_row id (g when)) (m when)) →
  moves_job id st (w ← or_now when; m w).
Proof.
  intros Hg Hm d. cbv zeta.
  destruct (row_update_now (λ w, update_job_row id (g w)) when m Hm d) as [[-> Hr]|(w&n&Hu&Hn)].
  - split; [done|by left].
  - apply (update_job_states _ _ (λ _, st)) in Hu as (HF&HJ&->); [|done]. split; [done|].
    right. split; [done|]. intros Hok. specialize (Hn Hok). by case_decide.
Qed.

Lemma UpdateDownloadFileState_moves u :
  moves_file (suFileID u) (suState u) (UpdateDownloadFileState u).
Proof.
  eapply moves_file_update; [|intros w; by apply row_update_tail, tail_expect]. done.
Qed.
Lemma PrepareDownloadFileMove_moves id target when :
  moves_file id "moving" (PrepareDownloadFileMove id target when).
Proof.
  eapply moves_file_update; [|intros w; by apply row_update_tail, tail_expect]. done.
Qed.
Lemma CompleteDownloadFile_moves id target when :
  moves_file id "completed" (CompleteDownloadFile id target when).
Proof.
  eapply moves_file_update; [|intros w; by apply row_update_tail, tail_expect]. done.
Qed.
Lemma SetDownloadJobState_moves id st when : moves_job id st (SetDownloadJobState id st when).
Proof.
  eapply moves_job_update; [|intros w; by apply row_update_tail, tail_expect]. done.
Qed.
Lemma SetDownloadQuotaState_moves id st code message next index when :
  moves_job id st (SetDownloadQuotaState id st code message next index when).
Proof.
  eapply moves_job_update; [|intros w; by apply row_update_tail, tail_or_zero]. done.
Qed.

(** An operation that leaves what is followed alone. *)
Definition unseen {A} (m : store_cmd A) : Prop := ∀ P, keeps (seen P) m.

Lemma GetDownloadJob_unseen id : unseen (GetDownloadJob id).
Proof. intros P. apply GetDownloadJob_keeps. Qed.

Lemma AddDownloadEvent_unseen jobID fileID kind message when :
  unseen (AddDownloadEvent jobID fileID kind message when).
Proof.
  intros P. unfold AddDownloadEvent. repeat keeps_step; apply keeps_exec; intros ????.
  - unfold insert_event_row. intros. by case_ifs.
  - unfold trim_event_rows. intros. by simplify_eq.
Qed.

#[export] Hint Resolve GetDownloadJob_unseen AddDownloadEvent_unseen : megadw.

Section lifted.
Context (P : list jobs_seen → files_seen → Prop).

Lemma holds_unseen {A} (m : store_cmd A) : unseen m → holds P (on_db m).
Proof. intros Hm. apply holds_on_db. intros H J0. apply Hm. Qed.

Lemma holds_publish id : holds P (publishJobSnapshot id).
Proof. unfold publishJobSnapshot. repeat holds_step. by apply holds_unseen, GetDownloadJob_unseen. Qed.

Lemma holds_event jobID fileID kind message : holds P (add_event jobID fileID kind message).
Proof. unfold add_event. repeat holds_step. by apply holds_unseen, AddDownloadEvent_unseen. Qed.

Lemma holds_reload job : holds P (reload job).
Proof. unfold reload. repeat holds_step. by apply holds_unseen, GetDownloadJob_unseen. Qed.

Lemma holds_fsRoot p : holds P (fsRoot p).
Proof. apply holds_on_fs. Qed.

Lemma holds_with_root {A} p (body : nat → life A) :
  (∀ root, holds P (body root)) → holds P (with_root p body).
Proof. intros Hb. unfold with_root, fsRoot. repeat holds_step. Qed.

Lemma holds_validate job : holds P (validateTransferRoots job).
Proof. unfold validateTransferRoots. repeat holds_step. Qed.

(** An update of a file's state: an error says nothing about whether it
    happened. *)
Lemma hoare_moves_file (Q E : list jobs_seen → files_seen → Prop) id st m :
  moves_file id st m →
  (∀ H F, P H F → is_Some (F !! id) → Q H (file_to id st F)) →
  (∀ H F, P H F → E H F) → (∀ H F, P H F → E H (file_to id st F)) →
  hoare (on P) (on_db m) (λ _, on Q) (on E).
Proof.
  intros Hm HQ HE HE' w Hw. unfold on_db, on in *. specialize (Hm (w_db w)). cbv zeta in Hm.
  destruct (m (w_db w)) as [d r]. cbn in Hm |- *. destruct Hm as [HJ [[HF Hr]|[HF Hr]]];
    rewrite HF; destruct r; cbn in *; rewrite ?(job_path_same d w HJ); try done; auto.
Qed.

Lemma hoare_moves_job (Q E : list jobs_seen → files_seen → Prop) id st m :
  moves_job id st m →
  (∀ H F, P H F → is_Some (jobs_now H !! id) → Q (path_next H (job_to id st (jobs_now H))) F) →
  (∀ H F, P H F → E H F) → (∀ H F, P H F → E (path_next H (job_to id st (jobs_now H))) F) →
  hoare (on P) (on_db m) (λ _, on Q) (on E).
Proof.
  intros Hm HQ HE HE' w Hw. unfold on_db, on in *. specialize (Hm (w_db w)). cbv zeta in Hm.
  destruct (m (w_db w)) as [d r]. cbn in Hm |- *. destruct Hm as [HF [[HJ Hr]|[HJ Hr]]]; rewrite HF.
  - destruct r; [done|]. rewrite (job_path_same d w HJ). auto.
  - rewrite job_path_ran, HJ, <-job_path_now. destruct r; cbn in *; [|auto]. apply HQ; [done|]. rewrite job_path_now. auto.
Qed.
End lifted.

#[export] Hint Resolve holds_unseen holds_publish holds_event holds_reload holds_fsRoot
  holds_validate : megadw.

(** The invariant form: the predicate is closed under the update. *)
Lemma holds_moves_file P id st m :
  moves_file id st m → (∀ H F, P H F → P H (file_to id st F)) → holds P (on_db m).
Proof. intros Hm HP. apply hoare_preserves. eapply hoare_moves_file; eauto. Qed.
Lemma holds_moves_job P id st m :
  moves_job id st m → (∀ H F, P H F → P (path_next H (job_to id st (jobs_now H))) F) → holds P (on_db m).
Proof. intros Hm HP. apply hoare_preserves. eapply hoare_moves_job; eauto. Qed.

Lemma holds_set_file P id st code message :
  (∀ H F, P H F → P H (file_to id st F)) → holds P (set_file_state id st code message).
Proof.
  intros HP. unfold set_file_state. repeat holds_step.
  by eapply holds_moves_file; [apply UpdateDownloadFileState_moves|].
Qed.
Lemma holds_set_job P id st :
  (∀ H F, P H F → P (path_next H (job_to id st (jobs_now H))) F) → holds P (set_job_state id st).
Proof.
  intros HP. unfold set_job_state. repeat holds_step.
  by eapply holds_moves_job; [apply SetDownloadJobState_moves|].
Qed.

(** ** Operations on the files of a job

    [closed P id]: [P] does not depend on which state file [id] is in, as
    long as it is one of the states. *)

Definition closed {X} (P : X → files_seen → Prop) (id : string) : Prop :=
  ∀ x F st, is_Some (parse_file_state st) → P x F → P x (file_to id st F).

Ltac a_state := by vm_compute; eexists.

Section closed.
Context (P : list jobs_seen → files_seen → Prop).

Lemma closed_set_file id st code message :
  closed P id → is_Some (parse_file_state st) → holds P (set_file_state id st code message).
Proof. intros Hc Hst. apply holds_set_file. auto. Qed.

Lemma closed_prepare id target when :
  closed P id → holds P (on_db (PrepareDownloadFileMove id target when)).
Proof.
  intros Hc. eapply holds_moves_file; [apply PrepareDownloadFileMove_moves|]. intros J F.
  apply Hc. a_state.
Qed.

Lemma closed_complete id target when :
  closed P id → holds P (on_db (CompleteDownloadFile id target when)).
Proof.
  intros Hc. eapply holds_moves_file; [apply CompleteDownloadFile_moves|]. intros J F.
  apply Hc. a_state.
Qed.
End closed.

#[export] Hint Resolve closed_prepare closed_complete : megadw.

(** [holds_step], also through the file updates. *)
Ltac seen_step :=
  first [ match goal with
          | |- preserves _ (set_file_state _ _ _ _) => apply closed_set_file; [solve [eauto]|a_state]
          | |- preserves _ (with_root _ _) => apply holds_with_root; intros ?
          end
        | holds_step ].

(** What a transfer may do to the tables besides storing bitmaps: the file
    is marked downloading by its checkpoints.  The predicate sees the path of
    the jobs too, so that no job's state is written meanwhile. *)
Class TransferSpec (transfer : FileRow → path → bool → life ()) : Prop :=
  transfer_seen file p existed P : closed P (fID file) → holds P (transfer file p existed).

(** The manager's checkpoints are such updates. *)
Lemma CheckpointDownloadFiles_closed P updates :
  (∀ u, u ∈ updates → closed P (cpFileID u) ∧
     (cpState u = "" ∨ is_Some (parse_file_state (cpState u)))) →
  keeps (seen P) (CheckpointDownloadFiles updates).
Proof.
  intros Hu. unfold CheckpointDownloadFiles. repeat keeps_step.
  apply preserves_for_each. intros u Hin.
  destruct (Hu u Hin) as [Hc Hst]. unfold checkpoint_file. repeat keeps_step.
  - apply keeps_exec. intros t t' n Ht Hup.
    apply (update_file_states _ _ (λ _, if bool_decide (cpState u = "") then "downloading" else cpState u))
      in Hup as (HJ&HF&_); [|done].
    unfold seen. rewrite HJ, HF. apply Hc; [|done].
    case_bool_decide; [a_state|]. by destruct Hst.
  - apply keeps_exec. intros t t' n Ht. destruct (files t !! cpFileID u) as [f|]; [|naive_solver].
    intros Hup. apply (update_job_states _ _ id) in Hup as (HF&HJ&_); [|done].
    unfold seen. rewrite HF, HJ. replace (alter _ _ _) with (job_states t); [done|].
    symmetry. apply alter_id. by intros [].
Qed.

Section files.
Context (E : list Z → list Z → list Z) (gcm : AEAD) (secrets : SecretStore)
  (transfer : FileRow → path → bool → life ()) (conflictPolicy : string).
Context (P : list jobs_seen → files_seen → Prop).

Lemma closed_verify f size key : holds P (VerifyPartialFileContext E f size key).
Proof. unfold VerifyPartialFileContext. repeat holds_step. Qed.

Lemma closed_lstat root relative head : holds P (lstat_found root relative head).
Proof. unfold lstat_found. repeat holds_step. Qed.

Lemma closed_open root jobID remotePath size : holds P (OpenPartialFile root jobID remotePath size).
Proof. unfold OpenPartialFile. repeat holds_step. Qed.
#[local] Hint Resolve closed_verify closed_lstat closed_open : megadw.

Lemma closed_recover job file :
  closed P (fID file) → holds P (recoverMovedFile E gcm secrets job file).
Proof. intros Hc. unfold recoverMovedFile. repeat seen_step. Qed.

Lemma closed_finalize_loop todo policy ir cr file rel :
  closed P (fID file) → holds P (finalize_loop todo policy ir cr file rel).
Proof. intros Hc. induction todo as [|todo IH]; cbn [finalize_loop]; repeat seen_step. Qed.

Lemma closed_finalize settingsPolicy job file rel :
  closed P (fID file) → holds P (finalize conflictPolicy settingsPolicy job file rel).
Proof. intros Hc. unfold finalize. repeat seen_step. by apply closed_finalize_loop. Qed.
#[local] Hint Resolve closed_finalize : megadw.

Lemma closed_processFile `{!TransferSpec transfer} settingsPolicy job file :
  closed P (fID file) →
  holds P (processFile E gcm secrets transfer conflictPolicy settingsPolicy job file).
Proof.
  intros Hc. unfold processFile. repeat seen_step.
Qed.
End files.
#[export] Hint Resolve closed_recover closed_processFile closed_verify closed_lstat closed_open
  closed_finalize : megadw.

(** ** Job states move along the transition table *)

(** The check of the code, from a persisted text to a state. *)
Definition text_step (s t : string) : Prop :=
  ∃ T, t = JobState_text T ∧ transition_job s T = Ok ().

(** A job is gone, or it is the same job at a state reached by checked
    transitions. *)
Definition job_moved (a b : option (string * string)) : Prop :=
  ∀ i t, b = Some (i, t) → ∃ s, a = Some (i, s) ∧ rtc text_step s t.
Definition jobs_moved (J J' : jobs_seen) : Prop := ∀ k, job_moved (J !! k) (J' !! k).

#[export] Instance jobs_moved_preorder : PreOrder jobs_moved.
Proof.
  split.
  - intros J k i t ->. by exists t.
  - intros J1 J2 J3 H12 H23 k i t H3. destruct (H23 k i t H3) as (s&H2&Hst).
    destruct (H12 k i s H2) as (r&H1&Hrs). exists r. split; [done|by etrans].
Qed.

(** Jobs under their own id, in one of the states. *)
Definition jobs_typed (J : jobs_seen) : Prop :=
  map_Forall (λ k x, x.1 = k ∧ is_Some (parse_job_state x.2)) J.

Lemma parse_job_text T : parse_job_state (JobState_text T) = Some T.
Proof. by destruct T. Qed.
Lemma parse_job_inv s T : parse_job_state s = Some T → s = JobState_text T.
Proof. by intros ([i U]&(_&<-&_)%list_find_Some&[= <-])%bind_Some. Qed.

Lemma jobs_moved_typed J J' : jobs_typed J → jobs_moved J J' → jobs_typed J'.
Proof.
  intros HJ HJJ k [i t] Ht. destruct (HJJ k i t Ht) as (s&Hs&Hst). destruct (HJ k _ Hs) as [? Hp].
  split; [done|]. simpl in *. apply rtc_inv_r in Hst as [<-|(r&_&T&->&_)]; [done|].
  by rewrite parse_job_text.
Qed.

(** One write: every job that is left keeps its state or takes a checked
    transition. *)
Definition edge (J J' : jobs_seen) : Prop :=
  ∀ k i t, J' !! k = Some (i, t) → ∃ s, J !! k = Some (i, s) ∧ (s = t ∨ text_step s t).

Lemma edge_refl J : edge J J.
Proof. intros k i t Ht. exists t. auto. Qed.

(** Neighbours in a list are related. *)
Definition linked {A} (R : A → A → Prop) (l : list A) : Prop :=
  ∀ i a b, l !! i = Some a → l !! S i = Some b → R a b.

Lemma linked_nil {A} (R : A → A → Prop) a : linked R [a].
Proof. by intros i x y _ Hy. Qed.

Lemma linked_cons {A} (R : A → A → Prop) a b l : linked R (a :: b :: l) ↔ R a b ∧ linked R (b :: l).
Proof.
  split.
  - intros H. split; [by apply (H 0%nat)|]. intros i x y Hx Hy. by apply (H (S i)).
  - intros [Hab H] [|i] x y; cbn; [by intros [= <-] [= <-]|]. apply H.
Qed.

Lemma linked_snoc {A} (R : A → A → Prop) l b :
  linked R l → (∀ a, last l = Some a → R a b) → linked R (l ++ [b]).
Proof.
  intros Hl Hb i x y Hx Hy. apply lookup_app_Some in Hy as [Hy|[Hlen Hy]].
  - rewrite lookup_app_l in Hx by (apply lookup_lt_Some in Hy; lia). by eapply Hl.
  - apply list_lookup_singleton_Some in Hy as [Hi <-]. apply Hb.
    rewrite lookup_app_l in Hx by lia. rewrite last_lookup. by replace (pred (length l)) with i by lia.
Qed.

Lemma linked_fmap {A B} (f : A → B) (R : B → B → Prop) l : linked R (f <$> l) → linked (λ a b, R (f a) (f b)) l.
Proof. intros H i a b Ha Hb. apply (H i); by rewrite list_lookup_fmap, ?Ha, ?Hb. Qed.

Lemma linked_impl {A} (R R' : A → A → Prop) l : (∀ a b, R a b → R' a b) → linked R l → linked R' l.
Proof. intros H Hl i a b Ha Hb. by eapply H, Hl. Qed.

(** Leaving out repetitions changes nothing for a reflexive relation. *)
Lemma path_next_linked H l J :
  last H = Some J → linked edge (foldl path_next H l) → linked edge (J :: l).
Proof.
  revert H J. induction l as [|J' l IH]; intros H J HJ Hl; [apply linked_nil|]. cbn in Hl.
  apply linked_cons. split; [|by apply (IH (path_next H J')); [apply last_next|]].
  assert (∀ H1 l', ∃ l1, foldl path_next H1 l' = H1 ++ l1) as Hext.
  { clear. intros H1 l'. revert H1. induction l' as [|x l' IH]; intros H1; [exists []; by rewrite app_nil_r|].
    cbn. destruct (IH (path_next H1 x)) as [l1 ->]. unfold path_next. case_decide; [by eexists|].
    eexists. by rewrite <-(assoc_L (++)). }
  destruct (Hext (path_next H J') l) as [l1 E]. rewrite E in Hl. unfold path_next in Hl. case_decide as Hd.
  - assert (J' = J) as -> by congruence. apply edge_refl.
  - rewrite last_lookup in HJ. apply (Hl (pred (length H))).
    + rewrite <-(assoc_L (++)). by apply lookup_app_l_Some.
    + apply lookup_lt_Some in HJ. replace (S (pred (length H))) with (length H) by lia.
      rewrite <-(assoc_L (++)), lookup_app_r by done. by rewrite Nat.sub_diag.
Qed.

Section moved.
Context (X : jobs_seen) (HX : jobs_typed X).

(** Every step of the path since [X] was a write of that kind; and job [id]
    is at [st]. *)
Definition moved (H : list jobs_seen) (F : files_seen) : Prop := head H = Some X ∧ linked edge H.
Definition at_state (id st : string) (H : list jobs_seen) (F : files_seen) : Prop :=
  moved H F ∧ jobs_now H !! id = Some (id, st).

Lemma at_moved id st w : on (at_state id st) w → on moved w.
Proof. by intros []. Qed.

Lemma moved_reached H F i J : moved H F → H !! i = Some J → jobs_moved X J.
Proof.
  intros [Hh Hl]. revert J. induction i as [|i IH]; intros J HJ.
  { destruct H; simplify_eq/=. reflexivity. }
  destruct (lookup_lt_is_Some_2 H i) as [J0 HJ0]; [apply lookup_lt_Some in HJ; lia|].
  etrans; [by apply IH|]. intros k j t Ht. destruct (Hl i _ _ HJ0 HJ k j t Ht) as (s&Hs&Hst).
  exists s. split; [done|]. destruct Hst as [->|Hst]; [done|by apply rtc_once].
Qed.

Lemma moved_now H F : moved H F → jobs_moved X (jobs_now H).
Proof.
  intros Hm. pose proof Hm as [Hh _]. unfold jobs_now. destruct (last H) as [J|] eqn:E; [|by destruct H as [|? ?]; [|apply last_None in E]].
  rewrite last_lookup in E. by eapply moved_reached.
Qed.

Lemma moved_keyed H F k i s : moved H F → jobs_now H !! k = Some (i, s) → i = k.
Proof. intros HJ Hk. by apply (jobs_moved_typed _ _ HX (moved_now _ _ HJ) k _ Hk). Qed.

Lemma moved_next H J F : moved H F → edge (jobs_now H) J → moved (path_next H J) F.
Proof.
  intros [Hh Hl] He. unfold path_next. case_decide; [done|]. split; [by destruct H|].
  apply linked_snoc; [done|]. intros a Ha. unfold jobs_now in He. by rewrite Ha in He.
Qed.

Lemma moved_job_to id st T H F :
  transition_job st T = Ok () → at_state id st H F →
  at_state id (JobState_text T) (path_next H (job_to id (JobState_text T) (jobs_now H))) F.
Proof.
  intros HT [HJ Hid]. split.
  - apply moved_next; [done|]. intros k i t. unfold job_to. destruct (decide (k = id)) as [->|Hne].
    + rewrite lookup_alter_eq, Hid. intros [= <- <-]. exists st. split; [done|]. right. by exists T.
    + rewrite lookup_alter_ne by done. apply edge_refl.
  - rewrite now_next. unfold job_to. by rewrite lookup_alter_eq, Hid.
Qed.

Lemma hoare_moves_at id st T m :
  transition_job st T = Ok () → moves_job id (JobState_text T) m →
  hoare (on (at_state id st)) (on_db m) (λ _, on (at_state id (JobState_text T))) (on moved).
Proof.
  intros HT Hm. eapply hoare_moves_job; [done| | |].
  - intros H F HP _. by eapply moved_job_to.
  - by intros H F [].
  - intros H F HP. by eapply (moved_job_to _ _ _ _ _ HT HP).
Qed.

Lemma hoare_set_job id st T :
  transition_job st T = Ok () →
  hoare (on (at_state id st)) (set_job_state id (JobState_text T))
    (λ _, on (at_state id (JobState_text T))) (on moved).
Proof.
  intros HT. unfold set_job_state. apply hoare_quiet; [apply holds_now|apply at_moved|].
  intros when. apply hoare_moves_at; [done|apply SetDownloadJobState_moves].
Qed.

Lemma get_job_seen id d d' r :
  GetDownloadJob id d = (d', Ok r) →
  tables d' = tables d ∧ job_states (tables d) !! id = Some (jID (rJob r), jState (rJob r)).
Proof.
  intros (Hj&_&_&_&Ht&_)%GetDownloadJob_ok. split; [done|].
  unfold job_states. by rewrite lookup_fmap, Hj.
Qed.

Lemma hoare_get_job id :
  hoare (on moved) (on_db (GetDownloadJob id))
    (λ r w, jID (rJob r) = id ∧ on (at_state id (jState (rJob r))) w) (on moved).
Proof.
  intros w Hw. unfold on_db. destruct (GetDownloadJob id (w_db w)) as [d [r|e]] eqn:E; simpl.
  - apply get_job_seen in E as [Ht Hr]. rewrite <-job_path_now in Hr.
    pose proof (moved_keyed _ (file_states (tables (w_db w))) _ _ _ Hw Hr) as Hid. rewrite Hid in Hr. split; [done|]. by apply on_ran.
  - pose proof (holds_unseen moved _ (GetDownloadJob_unseen id) w Hw) as Hd. unfold on_db in Hd. by rewrite E in Hd.
Qed.

(** A record of job [id] whose state is the persisted one. *)
Definition record_at (id st : string) (job : DownloadJobRecord) : Prop :=
  jID (rJob job) = id ∧ jState (rJob job) = st.

Lemma hoare_reload id st job :
  record_at id st job →
  hoare (on (at_state id st)) (reload job) (λ cur w, record_at id st cur ∧ on (at_state id st) w) (on moved).
Proof.
  intros [Hid Hst]. unfold reload. rewrite Hid. unfold mbind, cmd_bind, catch, on_db. intros w Hw.
  destruct (GetDownloadJob id (w_db w)) as [d [r|e]] eqn:E; simpl.
  - apply get_job_seen in E as [Ht Hr]. rewrite <-job_path_now in Hr. split; [|by apply on_ran].
    destruct Hw as [_ Hw']. rewrite Hw' in Hr. unfold record_at. by simplify_eq.
  - pose proof (holds_unseen (at_state id st) _ (GetDownloadJob_unseen id) w Hw) as Hd. unfold on_db in Hd. by rewrite E in Hd.
Qed.

Lemma at_closed id st file : closed (at_state id st) file.
Proof. by intros J F s _ ?. Qed.
Lemma moved_closed file : closed moved file.
Proof. by intros J F s _ ?. Qed.
#[local] Hint Resolve at_closed moved_closed : core.

(** The code changes the state only when the table allows it. *)
Lemma hoare_try_state id st T st' :
  st' = JobState_text T →
  hoare (on (at_state id st))
    (if is_ok (transition_job st T) then ignore (set_job_state id st') else mret ())
    (λ _, on moved) (on moved).
Proof.
  intros ->. destruct (transition_job st T) as [[]|e] eqn:ET; simpl.
  - eapply hoare_ignore; [|done]. eapply hoare_conseq; [by apply hoare_set_job|done| |done].
    intros ? w. apply at_moved.
  - apply hoare_ret. apply at_moved.
Qed.

Lemma hoare_pauseJob id st job :
  record_at id st job → hoare (on (at_state id st)) (pauseJob job) (λ _, on moved) (on moved).
Proof.
  intros Hjob. unfold pauseJob. eapply hoare_bind; [by apply hoare_reload|].
  intros cur. apply hoare_pre. intros [_ ->]. apply hoare_quiet; [repeat seen_step|apply at_moved|].
  intros ?; cbn beta. destruct Hjob as [-> _]. eapply hoare_bind; [by apply hoare_try_state|].
  intros ?; cbn beta. apply hoare_inv. repeat seen_step.
Qed.

Lemma hoare_failJob {A} id st job file cause (Q : A → World → Prop) :
  record_at id st job → hoare (on (at_state id st)) (failJob job file cause) Q (on moved).
Proof.
  intros Hjob. unfold failJob. pose proof (proj1 Hjob) as Hid. rewrite Hid.
  apply hoare_quiet; [repeat seen_step|apply at_moved|]. intros ?; cbn beta.
  apply hoare_quiet; [repeat seen_step|apply at_moved|]. intros ?; cbn beta.
  eapply hoare_bind; [by apply hoare_reload|]. intros cur. apply hoare_pre. intros [_ ->].
  apply hoare_quiet; [repeat seen_step|apply at_moved|]. intros ?; cbn beta.
  eapply hoare_bind; [by apply hoare_try_state|]. intros ?; cbn beta.
  apply hoare_quiet; [repeat seen_step|done|]. intros ?; cbn beta. by apply hoare_throw.
Qed.

Lemma hoare_enterWaitingQuota id st job file quota :
  record_at id st job → transition_job st JobWaitingQuota = Ok () →
  hoare (on (at_state id st)) (enterWaitingQuota job file quota) (λ _, on moved) (on moved).
Proof.
  intros [Hid Hst] HT. unfold enterWaitingQuota. rewrite Hid. cbv zeta.
  apply hoare_quiet; [repeat seen_step|apply at_moved|]. intros now.
  eapply hoare_bind; [by apply (hoare_moves_at _ _ _ _ HT), SetDownloadQuotaState_moves|].
  intros ?; cbn beta. eapply hoare_conseq; [apply hoare_inv|by apply at_moved|done|done]. repeat seen_step.
Qed.

Lemma cancel_allowed s :
  is_Some (parse_job_state s) → s ∉ ["completed"; "cancelled"] → transition_job s JobCancelled = Ok ().
Proof.
  intros [T HT] Hs. unfold transition_job. rewrite HT. apply parse_job_inv in HT as ->.
  destruct T; try done; exfalso; apply Hs; set_solver.
Qed.

Lemma holds_removePartialDirectory job Q : holds Q (removePartialDirectory job).
Proof. unfold removePartialDirectory. repeat seen_step. Qed.
Lemma holds_removeCompletedFiles job Q : holds Q (removeCompletedFiles job).
Proof. unfold removeCompletedFiles. repeat seen_step. Qed.
#[local] Hint Resolve holds_removePartialDirectory holds_removeCompletedFiles : megadw.

Lemma hoare_cancelPersistedJob jobID del :
  hoare (on moved) (cancelPersistedJob jobID del) (λ _, on moved) (on moved).
Proof.
  unfold cancelPersistedJob. eapply hoare_bind; [apply hoare_get_job|]. intros job.
  apply hoare_pre. intros Hid.
  eapply hoare_bind; [apply hoare_guard, at_moved|]. intros ?; cbn beta. apply hoare_pre. intros Hg. bool_to_prop.
  apply hoare_quiet; [repeat seen_step|apply at_moved|]. intros ?; cbn beta.
  eapply hoare_bind with (R := λ _, on moved).
  { intros w [Hm Hj]. assert (transition_job (jState (rJob job)) JobCancelled = Ok ()) as HT.
    { apply cancel_allowed; [|done]. by apply (jobs_moved_typed _ _ HX (moved_now _ _ Hm) jobID _ Hj). }
    pose proof (hoare_set_job jobID _ _ HT w (conj Hm Hj)) as H.
    change (JobState_text JobCancelled) with "cancelled" in H.
    destruct (set_job_state jobID "cancelled" w) as [w' []]; simpl in *; [by apply at_moved in H|done]. }
  intros ?; cbn beta. apply hoare_inv. repeat seen_step.
Qed.

(** *** The operations *)

Lemma hoare_StartJobWithPriority jobID priority :
  hoare (on moved) (StartJobWithPriority jobID priority) (λ _, on moved) (on moved).
Proof.
  apply hoare_inv. unfold StartJobWithPriority. repeat seen_step.
Qed.

Lemma hoare_PauseJob jobID : hoare (on moved) (PauseJob jobID) (λ _, on moved) (on moved).
Proof.
  unfold PauseJob. apply hoare_quiet; [repeat seen_step|done|]. intros w; cbn beta.
  destruct (pause_job_locked jobID (w_mgr w)) as [m waits].
  apply hoare_quiet; [repeat seen_step|done|]. intros ?; cbn beta.
  destruct waits; [by apply hoare_ret|].
  eapply hoare_bind; [apply hoare_get_job|]. intros job. apply hoare_pre. intros Hid.
  eapply hoare_bind; [apply hoare_guard, at_moved|]. intros ?. apply hoare_pre. intros _.
  eapply hoare_bind; [by apply hoare_pauseJob|]. intros ?; cbn beta. by apply hoare_ret.
Qed.

Lemma hoare_ResumeJob jobID : hoare (on moved) (ResumeJob jobID) (λ _, on moved) (on moved).
Proof.
  unfold ResumeJob. apply hoare_quiet; [repeat seen_step|done|]. intros w; cbn beta.
  case_bool_decide; [by apply hoare_ret|].
  eapply hoare_bind; [apply hoare_get_job|]. intros job. apply hoare_pre. intros Hid.
  apply hoare_quiet; [repeat seen_step|apply at_moved|]. intros ?; cbn beta zeta.
  apply hoare_quiet; [repeat seen_step|apply at_moved|]. intros ?; cbn beta.
  eapply hoare_bind; [apply hoare_of_result, at_moved|]. intros []. apply hoare_pre. intros HT.
  apply hoare_quiet; [repeat seen_step|apply at_moved|]. intros now; cbn beta.
  eapply hoare_bind; [by apply (hoare_moves_at _ _ _ _ HT), SetDownloadQuotaState_moves|].
  intros ?; cbn beta. eapply hoare_conseq; [apply hoare_inv|by apply at_moved|done|done].
  unfold StartJob, StartJobWithPriority. repeat seen_step.
Qed.

Lemma hoare_CancelJob jobID del : hoare (on moved) (CancelJob jobID del) (λ _, on moved) (on moved).
Proof.
  unfold CancelJob. apply hoare_quiet; [repeat seen_step|done|]. intros w; cbn beta.
  destruct (cancel_job_locked jobID del (w_mgr w)) as [m waits].
  apply hoare_quiet; [repeat seen_step|done|]. intros ?; cbn beta.
  destruct waits; [by apply hoare_ret|].
  eapply hoare_bind; [apply hoare_cancelPersistedJob|]. intros ?; cbn beta. by apply hoare_ret.
Qed.

Lemma hoare_finishJob jobID : hoare (on moved) (finishJob jobID) (λ _, on moved) (on moved).
Proof.
  apply hoare_inv. unfold finishJob. repeat seen_step.
  by apply hoare_preserves, hoare_cancelPersistedJob.
Qed.

(** A deleted job is gone; the others are as they were. *)
Lemma DeleteDownloadJob_edge id J : keeps (seen (λ J' _, edge J J')) (DeleteDownloadJob id).
Proof.
  unfold DeleteDownloadJob. repeat keeps_step. apply keeps_exec. intros t t' n Ht.
  unfold delete_job_row. destruct (jobs t !! id) as [j|] eqn:Ej; intros; simplify_eq/=; [|done].
  intros k i s. unfold seen, job_states in *. simpl. rewrite fmap_delete.
  destruct (decide (k = id)) as [->|]; [by rewrite lookup_delete_eq|].
  rewrite lookup_delete_ne by done. apply Ht.
Qed.

Lemma DeleteDownloadJob_moved id : holds moved (on_db (DeleteDownloadJob id)).
Proof.
  intros w Hw. unfold on_db. pose proof (DeleteDownloadJob_edge id (job_states (tables (w_db w))) (w_db w) (edge_refl _)) as He.
  destruct (DeleteDownloadJob id (w_db w)) as [d r]. cbn in *. unfold on. rewrite job_path_ran.
  apply moved_next; [exact Hw|]. by rewrite job_path_now.
Qed.

Lemma holds_delete_stopped jobID del : holds moved (delete_stopped jobID del).
Proof.
  unfold delete_stopped. repeat seen_step. apply DeleteDownloadJob_moved.
Qed.

Lemma hoare_DeleteJob jobID del : hoare (on moved) (DeleteJob jobID del) (λ _, on moved) (on moved).
Proof.
  apply hoare_inv. unfold DeleteJob. repeat seen_step; try apply holds_delete_stopped;
    apply hoare_preserves; [apply hoare_CancelJob|apply hoare_cancelPersistedJob].
Qed.

Section run.
Context (E : list Z → list Z → list Z) (gcm : AEAD) (secrets : SecretStore)
  (transfer : FileRow → path → bool → life ()) (conflictPolicy : string)
  `{!TransferSpec transfer}.

Lemma hoare_prepare_files id job files :
  record_at id "downloading" job →
  hoare (on (at_state id "downloading")) (prepare_files E gcm secrets job files)
    (λ _, on (at_state id "downloading")) (on moved).
Proof.
  intros Hjob. induction files as [|file files IH]; cbn [prepare_files]; [by apply hoare_ret|].
  eapply hoare_bind with (R := λ _, on (at_state id "downloading")).
  2:{ intros ?. eapply hoare_bind; [apply IH|]. intros ?. by apply hoare_ret. }
  case_bool_decide; [by apply hoare_ret|].
  eapply hoare_bind with (R := λ _, on (at_state id "downloading")).
  { case_bool_decide; [|by apply hoare_ret].
    apply hoare_quiet; [repeat seen_step|apply at_moved|]. intros [b|e]; cbn beta iota.
    - by apply hoare_ret.
    - by apply hoare_failJob. }
  intros recovered; cbn beta. destruct recovered; [by apply hoare_ret|].
  destruct (transition_file _ _); [|by apply hoare_failJob].
  apply hoare_quiet; [repeat seen_step|apply at_moved|]. intros ?. by apply hoare_ret.
Qed.

Lemma holds_process_files P settingsPolicy job files :
  (∀ file, file ∈ files → closed P (fID file)) →
  holds P (process_files E gcm secrets transfer conflictPolicy settingsPolicy job files).
Proof.
  induction files as [|file files IH]; intros Hc; cbn [process_files]; [apply preserves_ret|].
  assert (holds P (process_files E gcm secrets transfer conflictPolicy settingsPolicy job files))
    by (apply IH; intros f ?; apply Hc; by right).
  assert (closed P (fID file)) by (apply Hc; by left). repeat seen_step.
Qed.

Lemma hoare_runJob settingsPolicy jobID :
  hoare (on moved) (runJob E gcm secrets transfer conflictPolicy settingsPolicy jobID)
    (λ _, on moved) (on moved).
Proof.
  unfold runJob. eapply hoare_bind; [apply hoare_get_job|]. intros job. apply hoare_pre. intros Hid.
  destruct (terminal_job _); [apply hoare_ret, at_moved|].
  eapply hoare_bind; [apply hoare_of_result, at_moved|]. intros []. apply hoare_pre. intros HT.
  eapply hoare_bind; [exact (hoare_set_job jobID _ JobDownloading HT)|]. intros ?; cbn beta zeta.
  apply hoare_quiet; [repeat seen_step|apply at_moved|]. intros ?; cbn beta.
  apply hoare_quiet; [repeat seen_step|apply at_moved|]. intros ?; cbn beta.
  eapply hoare_bind; [by apply hoare_prepare_files|]. intros files; cbn beta.
  set (job' := _ <| rFiles := files |>).
  assert (record_at jobID "downloading" job') as Hjob by done.
  apply hoare_quiet; [repeat seen_step|apply at_moved|]. intros c; cbn beta.
  assert (∀ e, hoare (A:=()) (on (at_state jobID "downloading")) (_ ← pauseJob job'; throw e)
    (λ _, on moved) (on moved)) as Hpause.
  { intros e. eapply hoare_bind; [by apply hoare_pauseJob|]. intros ?; cbn beta. by apply hoare_throw. }
  destruct c as [ce|]; [apply Hpause|].
  apply hoare_quiet; [by apply holds_process_files|apply at_moved|]. intros failure; cbn beta.
  destruct failure as [[terr failed]|].
  - destruct (IsQuotaError terr).
    { eapply hoare_bind; [by apply hoare_enterWaitingQuota|]. intros ?; cbn beta. by apply hoare_ret. }
    apply hoare_quiet; [repeat seen_step|apply at_moved|]. intros c; cbn beta.
    destruct (_ || _).
    { eapply hoare_bind; [by apply hoare_pauseJob|]. intros ?; cbn beta.
      apply hoare_quiet; [repeat seen_step|done|]. intros ?; cbn beta. by apply hoare_throw. }
    destruct (errors_is _ _); [|by apply hoare_failJob].
    eapply hoare_bind with (R := λ _, on moved).
    { eapply hoare_ignore; [|done]. eapply hoare_conseq;
        [by apply (hoare_set_job _ "downloading" JobPausedRecovery)|done| |done]. intros ? w. apply at_moved. }
    intros ?; cbn beta. by apply hoare_throw.
  - apply hoare_quiet; [repeat seen_step|apply at_moved|]. intros c; cbn beta.
    destruct c as [ce|]; [apply Hpause|].
    apply hoare_quiet; [repeat seen_step|apply at_moved|]. intros ?; cbn beta.
    eapply hoare_bind; [by apply (hoare_set_job _ "downloading" JobFinalizing)|]. intros ?; cbn beta.
    apply hoare_quiet; [repeat seen_step|apply at_moved|]. intros ?; cbn beta.
    apply hoare_quiet; [repeat seen_step|apply at_moved|]. intros ?; cbn beta.
    eapply hoare_bind; [by apply (hoare_set_job _ "finalizing" JobCompleted)|]. intros ?; cbn beta.
    eapply hoare_conseq; [apply hoare_inv|by apply at_moved|done|done]. repeat seen_step.
Qed.
End run.
End moved.

(** ** Predicates every operation keeps *)

Definition job_closed (P : list jobs_seen → files_seen → Prop) : Prop :=
  ∀ H F id st, is_Some (parse_job_state st) → P H F → P (path_next H (job_to id st (jobs_now H))) F.

Lemma closed_set_job P id st :
  job_closed P → is_Some (parse_job_state st) → holds P (set_job_state id st).
Proof. intros Hc Hst. apply holds_set_job. intros H F. by apply Hc. Qed.

Lemma closed_quota P id st code message next index when :
  job_closed P → is_Some (parse_job_state st) →
  holds P (on_db (SetDownloadQuotaState id st code message next index when)).
Proof. intros Hc Hst. eapply holds_moves_job; [apply SetDownloadQuotaState_moves|]. intros H F. by apply Hc. Qed.

Ltac op_step :=
  first [ match goal with
          | |- preserves _ (set_job_state _ _) => apply closed_set_job; [done|a_state]
          | |- preserves _ (on_db (SetDownloadQuotaState _ _ _ _ _ _ _)) => apply closed_quota; [done|a_state]
          | |- preserves _ (on_db (ClearDownloadQuotaState _ _ _)) =>
            unfold ClearDownloadQuotaState; apply closed_quota; [done|a_state]
          end
        | seen_step ].

(** The calls made on the manager about jobs, and what its goroutines run. *)
Inductive operation :=
| OpStart (jobID : string) (priority : Z)
| OpPause (jobID : string)
| OpResume (jobID : string)
| OpCancel (jobID : string) (deletePartialFiles : bool)
| OpDelete (jobID : string) (deleteFiles : bool)
| OpDeleteStopped (jobID : string) (deleteFiles : bool)
| OpRun (settingsPolicy : option string) (jobID : string)
| OpFinish (jobID : string).

Section operations.
Context (E : list Z → list Z → list Z) (gcm : AEAD) (secrets : SecretStore)
  (transfer : FileRow → path → bool → life ()) (conflictPolicy : string)
  `{!TransferSpec transfer}.

Definition perform (o : operation) : life () :=
  match o with
  | OpStart id priority => StartJobWithPriority id priority
  | OpPause id => _ ← PauseJob id; mret ()
  | OpResume id => ResumeJob id
  | OpCancel id del => _ ← CancelJob id del; mret ()
  | OpDelete id del => _ ← DeleteJob id del; mret ()
  | OpDeleteStopped id del => delete_stopped id del
  | OpRun policy id => runJob E gcm secrets transfer conflictPolicy policy id
  | OpFinish id => finishJob id
  end.

(** A history of the manager: operations one at a time, between which the
    dispatcher works on the queue, contexts are made and cancelled, and the
    clock, the pending failures and the files on disk change. *)
Inductive life_step : World → World → Prop :=
| step_operation o w : life_step w (perform o w).1
| step_elsewhere w w' : tables (w_db w') = tables (w_db w) → w_trail w' = w_trail w → life_step w w'.

Section keep.
Context (P : list jobs_seen → files_seen → Prop) (Hf : ∀ id, closed P id) (Hj : job_closed P)
  (Hd : ∀ id, holds P (on_db (DeleteDownloadJob id))).

Lemma keep_cancel id del : holds P (cancelPersistedJob id del).
Proof. unfold cancelPersistedJob, removePartialDirectory. repeat op_step. Qed.
Lemma keep_pause job : holds P (pauseJob job).
Proof. unfold pauseJob. repeat op_step. Qed.
Lemma keep_fail {A} job file e : holds P (failJob (A:=A) job file e).
Proof. unfold failJob. repeat op_step. Qed.
Lemma keep_quota job file quota : holds P (enterWaitingQuota job file quota).
Proof. unfold enterWaitingQuota. repeat op_step. Qed.
Lemma keep_start id priority : holds P (StartJobWithPriority id priority).
Proof. unfold StartJobWithPriority. repeat op_step. Qed.
#[local] Hint Resolve keep_cancel keep_pause keep_fail keep_quota keep_start : megadw.

Lemma keep_delete id del : holds P (delete_stopped id del).
Proof. unfold delete_stopped, removePartialDirectory, removeCompletedFiles. repeat op_step. Qed.
Lemma keep_CancelJob id del : holds P (CancelJob id del).
Proof. unfold CancelJob. repeat op_step. Qed.
#[local] Hint Resolve keep_delete keep_CancelJob : megadw.

Lemma keep_prepare job files : holds P (prepare_files E gcm secrets job files).
Proof.
  induction files as [|file files IH]; cbn [prepare_files]; repeat op_step.
Qed.
#[local] Hint Resolve keep_prepare : megadw.

Lemma keep_run policy id : holds P (runJob E gcm secrets transfer conflictPolicy policy id).
Proof. unfold runJob. repeat op_step. apply holds_process_files; auto. Qed.

Lemma keep_PauseJob id : holds P (PauseJob id).
Proof. unfold PauseJob. repeat op_step. Qed.
Lemma keep_ResumeJob id : holds P (ResumeJob id).
Proof. unfold ResumeJob, StartJob. repeat op_step. Qed.
Lemma keep_DeleteJob id del : holds P (DeleteJob id del).
Proof. unfold DeleteJob. repeat op_step. Qed.
Lemma keep_finishJob id : holds P (finishJob id).
Proof. unfold finishJob. repeat op_step. Qed.
#[local] Hint Resolve keep_run keep_PauseJob keep_ResumeJob keep_DeleteJob keep_finishJob : megadw.

Lemma keep_perform o : holds P (perform o).
Proof. destruct o; cbn [perform]; repeat op_step. Qed.
End keep.
End operations.

(** *** Well-formed states *)

(** Every persisted state is one of the enumerations', and rows carry their
    keys. *)
Definition states_typed (t : Tables) : Prop :=
  map_Forall (λ id j, jID j = id ∧ is_Some (parse_job_state (jState j))) (jobs t) ∧
  map_Forall (λ id f, fID f = id ∧ is_Some (parse_file_state (fState f))) (files t).

Definition files_typed (F : files_seen) : Prop :=
  map_Forall (λ id x, x.1.1 = id ∧ is_Some (parse_file_state x.2)) F.
Definition typed (J : jobs_seen) (F : files_seen) : Prop := jobs_typed J ∧ files_typed F.

Lemma states_typed_seen t : states_typed t ↔ seen typed t.
Proof.
  unfold states_typed, seen, typed, jobs_typed, files_typed, job_states, file_states.
  by rewrite !map_Forall_fmap.
Qed.

Lemma typed_closed id : closed (present typed) id.
Proof.
  intros H F st Hst [HJ HF]. split; [done|]. intros k x. unfold file_to.
  destruct (decide (k = id)) as [->|Hne].
  - rewrite lookup_alter_eq. intros (y&Hy&->)%fmap_Some. by destruct (HF id y Hy).
  - rewrite lookup_alter_ne by done. apply HF.
Qed.

Lemma typed_job_closed : job_closed (present typed).
Proof.
  intros H F id st Hst [HJ HF]. split; [|done]. rewrite now_next. intros k x. unfold job_to.
  destruct (decide (k = id)) as [->|Hne].
  - rewrite lookup_alter_eq. intros (y&Hy&->)%fmap_Some. by destruct (HJ id y Hy).
  - rewrite lookup_alter_ne by done. apply HJ.
Qed.

Lemma typed_delete id : holds (present typed) (on_db (DeleteDownloadJob id)).
Proof.
  apply holds_present. unfold DeleteDownloadJob. repeat keeps_step. apply keeps_exec. intros t t' n [HJ HF]%states_typed_seen.
  unfold delete_job_row. destruct (jobs t !! id) as [j|]; intros; simplify_eq/=;
    apply states_typed_seen; [|done]. split; simpl.
  - by apply map_Forall_delete.
  - intros k f [Hf _]%map_lookup_filter_Some. by apply HF.
Qed.

Lemma text_path s t S :
  parse_job_state s = Some S → rtc text_step s t → ∃ T, t = JobState_text T ∧ rtc job_step S T.
Proof.
  intros HS Hst. revert S HS. induction Hst as [s|s r t (R&->&HR) _ IH]; intros S HS.
  - exists S. split; [by apply parse_job_inv|done].
  - destruct (IH R (parse_job_text R)) as (T&->&HRT). exists T. split; [done|].
    eapply rtc_l; [|done]. unfold transition_job in HR. by rewrite HS in HR.
Qed.
