(* ===== verification/LifecycleRun.v ===== *)
(** * A job is completed only when its files are

    [runJob] followed through its loops over the files: what has been
    finished so far is an invariant of everything that happens to the other
    files. *)

From Stdlib Require Import ZArith Lia.
From stdpp Require Import base list gmap strings numbers pretty.
From S2P Require Import Prelude GoStrings GoErrors JobState Planner Retry Crypto Paths Store StoreDownloads FsRoot FsRootOps Secrets Queue Lifecycle LifecycleStates.

(** ** What has been finished *)

Definition file_done (id : string) (F : files_seen) : Prop := snd <$> F !! id = Some "completed".

(** The files are those of [S], with their owners, and the files of [X] are
    completed. *)
Definition progress (S : gmap string (string * string)) (X : gset string)
    (H : list jobs_seen) (F : files_seen) : Prop :=
  fst <$> F = S ∧ set_Forall (λ id, file_done id F) X.

(** Job [id] is not completed. *)
Definition unfinished (id : string) (H : list jobs_seen) (F : files_seen) : Prop :=
  snd <$> jobs_now H !! id ≠ Some "completed".

Lemma file_to_owners id st F : fst <$> file_to id st F = fst <$> F.
Proof.
  apply map_eq. intros k. rewrite !lookup_fmap. unfold file_to.
  destruct (decide (k = id)) as [->|Hne]; [|by rewrite lookup_alter_ne].
  rewrite lookup_alter_eq. by destruct (F !! id).
Qed.

Lemma file_to_done id id' st F : id' ≠ id → file_done id' F → file_done id' (file_to id st F).
Proof. intros Hne. unfold file_done, file_to. by rewrite lookup_alter_ne. Qed.

Lemma file_to_completed id F : is_Some (F !! id) → file_done id (file_to id "completed" F).
Proof. intros [x Hx]. unfold file_done, file_to. by rewrite lookup_alter_eq, Hx. Qed.

Lemma progress_closed S X id : id ∉ X → closed (progress S X) id.
Proof.
  intros Hid J F st _ [HS HX]. split; [by rewrite file_to_owners|].
  intros k Hk. apply file_to_done; [set_solver|by apply HX].
Qed.

Lemma progress_job_closed S X : job_closed (progress S X).
Proof. by intros J F id st _ ?. Qed.

Lemma progress_add S X id H F : progress S X H F → file_done id F → progress S ({[id]} ∪ X) H F.
Proof. intros [HS HX] Hid. split; [done|]. intros k [->%elem_of_singleton|Hk]%elem_of_union; [done|by apply HX]. Qed.

Lemma unfinished_closed id file : closed (unfinished id) file.
Proof. by intros J F st _ ?. Qed.

Lemma unfinished_to id k st H F : st ≠ "completed" → unfinished id H F →
  unfinished id (path_next H (job_to k st (jobs_now H))) F.
Proof.
  intros Hst. unfold unfinished, job_to. rewrite now_next. destruct (decide (id = k)) as [->|Hne].
  - rewrite lookup_alter_eq. destruct (jobs_now H !! k) as [[i s]|]; simpl; congruence.
  - by rewrite lookup_alter_ne.
Qed.

Section step.
Context (P : list jobs_seen → files_seen → Prop).

Definition and_done (id : string) (H : list jobs_seen) (F : files_seen) : Prop := P H F ∧ file_done id F.

Lemma hoare_complete id target when :
  closed P id →
  hoare (on P) (on_db (CompleteDownloadFile id target when)) (λ _, on (and_done id)) (on P).
Proof.
  intros Hc. eapply hoare_moves_file; [apply CompleteDownloadFile_moves| | |]; [|done|].
  - intros J F HP Hid. split; [apply Hc; [a_state|done]|by apply file_to_completed].
  - intros J F HP. apply Hc; [a_state|done].
Qed.

Lemma hoare_with_root {A} p (body : nat → life A) Q E :
  (∀ J F, P J F → E J F) → (∀ root, hoare (on P) (body root) (λ a, on (Q a)) (on E)) →
  hoare (on P) (with_root p body) (λ a, on (Q a)) (on E).
Proof.
  intros HE Hb. unfold with_root, fsRoot. apply hoare_quiet; [apply holds_on_fs|intros w; apply HE|].
  intros root; cbn beta. eapply hoare_bind; [by apply hoare_catch, Hb|]. intros r; cbn beta.
  eapply hoare_bind with (R := λ _ w, match r with Ok a => on (Q a) w | Err _ => on E w end).
  - apply hoare_ignore with (E := λ w, match r with Ok a => on (Q a) w | Err _ => on E w end); [|done].
    destruct r; apply hoare_inv, holds_on_fs.
  - intros ?; cbn beta. destruct r; [by apply hoare_ret|by apply hoare_throw].
Qed.
End step.

Section files.
Context (E : list Z → list Z → list Z) (gcm : AEAD) (secrets : SecretStore)
  (transfer : FileRow → path → bool → life ()) (conflictPolicy : string)
  `{!TransferSpec transfer}.
Context (P : list jobs_seen → files_seen → Prop).

Lemma hoare_quiet_on {A B} (m : life A) (k : A → life B) (Q : B → World → Prop) :
  holds P m → (∀ a, hoare (on P) (k a) Q (on P)) → hoare (on P) (x ← m; k x) Q (on P).
Proof. intros Hm Hk. by apply hoare_quiet. Qed.

Ltac hoare_step :=
  lazymatch goal with
  | |- hoare _ (mbind _ (on_db (CompleteDownloadFile _ _ _))) _ _ =>
    eapply hoare_bind; [by apply hoare_complete|intros ?; cbn beta zeta iota]
  | |- hoare _ (mbind _ (catch (on_db (CompleteDownloadFile _ _ _)))) _ _ =>
    eapply hoare_bind; [by apply hoare_catch, hoare_complete|intros ?; cbn beta zeta iota]
  | |- hoare _ (mbind _ _) _ _ => apply hoare_quiet_on; [by repeat seen_step|intros ?; cbn beta zeta iota]
  | |- hoare _ (throw _) _ _ => by apply hoare_throw
  | |- hoare _ (if ?b then _ else _) _ _ => destruct b
  | |- hoare _ (match ?r with _ => _ end) _ _ => destruct r
  end.

(** A file that recovery or processing reports finished is completed. *)
Lemma hoare_recover job file :
  closed P (fID file) →
  hoare (on P) (recoverMovedFile E gcm secrets job file)
    (λ b, on (λ J F, P J F ∧ (b = true → file_done (fID file) F))) (on P).
Proof.
  intros Hc. unfold recoverMovedFile. apply hoare_with_root; [done|]. intros ir.
  do 2 hoare_step. apply hoare_with_root; [done|]. intros cr.
  repeat hoare_step; apply hoare_ret; intros w; unfold on, seen, and_done; naive_solver.
Qed.

Lemma hoare_processFile settingsPolicy job file :
  closed P (fID file) →
  hoare (on P) (processFile E gcm secrets transfer conflictPolicy settingsPolicy job file)
    (λ _, on (and_done P (fID file))) (on P).
Proof.
  intros Hc. unfold processFile. do 8 hoare_step. apply hoare_with_root; [done|]. intros root.
  repeat hoare_step. eapply hoare_conseq; [apply hoare_inv, holds_publish|done|done|by intros w []].
Qed.
End files.

(** ** The loops of [runJob] *)

(** The files of [files] that are marked completed are in [X], the others
    are not. *)
Definition split_by (X : gset string) (files : list FileRow) : Prop :=
  Forall (λ f, fState f = "completed" ↔ fID f ∈ X) files.

Definition ids_of (files : list FileRow) : gset string := list_to_set (fID <$> files).

Lemma split_by_mono X X' files (Y : gset string) :
  split_by X files → X ⊆ X' → X' ⊆ X ∪ Y → ids_of files ## Y → split_by X' files.
Proof.
  intros Hs H1 H2 HY. apply Forall_forall. intros f Hf. rewrite (proj1 (Forall_forall _ _) Hs f Hf).
  assert (fID f ∈ ids_of files) by (apply elem_of_list_to_set, list_elem_of_fmap; eauto). set_solver.
Qed.

Section loops.
Context (E : list Z → list Z → list Z) (gcm : AEAD) (secrets : SecretStore)
  (transfer : FileRow → path → bool → life ()) (conflictPolicy : string)
  `{!TransferSpec transfer}.
Context (id : string) (S : gmap string (string * string)).

(** The job is not completed and the files of [X] are. *)
Definition running (X : gset string) (H : list jobs_seen) (F : files_seen) : Prop :=
  unfinished id H F ∧ progress S X H F.

Lemma running_closed X k : k ∉ X → closed (running X) k.
Proof. intros Hk J F st Hst [? ?]. split; [done|by apply progress_closed]. Qed.

Lemma running_unfinished X w : on (running X) w → on (unfinished id) w.
Proof. by intros []. Qed.

Lemma running_add X k J F : running X J F → file_done k F → running ({[k]} ∪ X) J F.
Proof. intros [? ?] ?. split; [done|by apply progress_add]. Qed.

(** What is left of the state when the job is paused, failed or waits. *)
Ltac unfinished_step :=
  first [ match goal with
          | |- preserves _ (set_job_state _ _) => apply holds_set_job; intros ??; by apply unfinished_to
          | |- preserves _ (on_db (SetDownloadQuotaState _ _ _ _ _ _ _)) =>
            eapply holds_moves_job; [apply SetDownloadQuotaState_moves|intros ??; by apply unfinished_to]
          end
        | seen_step ].

Lemma unfinished_pause job : holds (unfinished id) (pauseJob job).
Proof. pose proof (unfinished_closed id). unfold pauseJob. repeat unfinished_step. Qed.
Lemma unfinished_fail {A} job file e : holds (unfinished id) (failJob (A:=A) job file e).
Proof. pose proof (unfinished_closed id). unfold failJob. repeat unfinished_step. Qed.
Lemma unfinished_quota job file quota : holds (unfinished id) (enterWaitingQuota job file quota).
Proof. pose proof (unfinished_closed id). unfold enterWaitingQuota. repeat unfinished_step. Qed.

Lemma hoare_failJob_running {A} X job file e (Q : A → World → Prop) :
  hoare (on (running X)) (failJob job file e) Q (on (unfinished id)).
Proof.
  intros w Hw%running_unfinished. pose proof (unfinished_fail (A:=A) job file e w Hw) as H.
  destruct (failJob (A:=A) job file e w) as [w' [a|e']] eqn:Ef; [|done]. exfalso.
  unfold failJob, mbind, cmd_bind in Ef. repeat case_match; simplify_eq/=.
Qed.

(** The first loop on one file. *)
Definition prepared (X : gset string) (file f : FileRow) : gset string :=
  if decide (fState f = "completed") then {[fID file]} ∪ X else X.

Lemma hoare_prepare_one job file X :
  (fState file = "completed" ↔ fID file ∈ X) →
  hoare (on (running X)) (
    if bool_decide (fState file = "completed") then mret file
    else
      recovered ← (if bool_decide (fState file = "moving") then
                     r ← catch (recoverMovedFile E gcm secrets (rJob job) file);
                     match r with Ok b => mret b | Err e => failJob job (Some file) e end
                   else mret false);
      if (recovered : bool) then mret (file <| fState := "completed" |>)
      else
        match transition_file (fState file) FileDownloading with
        | Err e => failJob job (Some file) e
        | Ok _ =>
          _ ← set_file_state (fID file) "downloading" "" "";
          mret (file <| fState := "downloading" |>)
        end)
    (λ f w, (fID f = fID file ∧ (fState f ≠ "completed" → fID file ∉ X)) ∧
            on (running (prepared X file f)) w)
    (on (unfinished id)).
Proof.
  intros Hfile. unfold prepared. case_bool_decide as Hst.
  { apply hoare_ret. intros w Hw. split; [done|]. rewrite decide_True by done.
    by replace ({[fID file]} ∪ X) with X by set_solver. }
  assert (fID file ∉ X) as Hx by tauto. pose proof (running_closed X _ Hx) as Hc.
  eapply hoare_bind with (R := λ b, on (λ J F, running X J F ∧ (b = true → file_done (fID file) F))).
  { case_bool_decide; [|by apply hoare_ret].
    eapply hoare_bind; [apply hoare_catch; by apply hoare_recover|].
    intros [b|e]; cbn beta iota; [by apply hoare_ret|apply hoare_failJob_running]. }
  intros [|]; cbn beta iota.
  - apply hoare_ret. intros w [Hw Hd]. split; [done|]. simpl.
    apply running_add; auto.
  - apply hoare_weaken with (P := on (running X)); [by intros w []|].
    destruct (transition_file _ _); [|apply hoare_failJob_running].
    apply hoare_quiet; [by repeat seen_step|apply running_unfinished|]. intros ?; cbn beta.
    apply hoare_ret. intros w Hw. by split.
Qed.

Lemma hoare_prepare job files X :
  split_by X files → NoDup (fID <$> files) →
  hoare (on (running X)) (prepare_files E gcm secrets job files)
    (λ files' w, ∃ X', (split_by X' files' ∧ fID <$> files' = fID <$> files ∧
       X ⊆ X' ∧ X' ⊆ X ∪ ids_of files) ∧ on (running X') w) (on (unfinished id)).
Proof.
  revert X. induction files as [|file files IH]; intros X Hs Hnd; cbn [prepare_files].
  { apply hoare_ret. intros w Hw. exists X. split_and!; try done; set_solver. }
  apply Forall_cons in Hs as [Hfile Hs]. rewrite fmap_cons in Hnd. apply NoDup_cons in Hnd as [Hnew Hnd].
  eapply hoare_bind; [by apply hoare_prepare_one|]. intros f. apply hoare_pre. intros [Hf Hx].
  assert (fID file ∉ ids_of files) as Hnew' by (unfold ids_of; by rewrite elem_of_list_to_set).
  eapply hoare_bind; [apply (IH (prepared X file f))|]; [|done|].
  { eapply (split_by_mono X _ _ {[fID file]}); [done|..]; unfold prepared; try case_decide; set_solver. }
  intros files'; cbn beta. apply hoare_ret. intros w (X'&(Hs'&Hids&H1&H2)&Hw). exists X'.
  assert (ids_of (file :: files) = {[fID file]} ∪ ids_of files) as -> by done.
  split; [|done]. unfold prepared in *. split_and!.
  - apply Forall_cons. split; [|done]. rewrite Hf. case_decide; set_solver.
  - rewrite !fmap_cons. congruence.
  - case_decide; set_solver.
  - case_decide; set_solver.
Qed.

Lemma ctx_check_cancelled w w' e : ctx_check w = (w', Ok (Some e)) → w_ctx w' = Some (O, e).
Proof. unfold ctx_check. destruct (w_ctx w) as [[[|k] e']|] eqn:E'; intros; simplify_eq. done. Qed.

(** The workers: no error, and the context never found cancelled, means that
    every file is completed. *)
Lemma hoare_process settingsPolicy job files X :
  split_by X files → NoDup (fID <$> files) →
  hoare (on (running X))
    (process_files E gcm secrets transfer conflictPolicy settingsPolicy job files)
    (λ r w, on (unfinished id) w ∧
       (r = None → (∃ e, w_ctx w = Some (O, e)) ∨ on (running (X ∪ ids_of files)) w))
    (on (unfinished id)).
Proof.
  revert X. induction files as [|file files IH]; intros X Hs Hnd; cbn [process_files].
  { apply hoare_ret. intros w Hw. split; [by eapply running_unfinished|]. intros _. right.
    by replace (X ∪ ids_of []) with X by set_solver. }
  apply Forall_cons in Hs as [Hfile Hs]. rewrite fmap_cons in Hnd. apply NoDup_cons in Hnd as [Hnew Hnd].
  assert (fID file ∉ ids_of files) as Hnew' by (unfold ids_of; by rewrite elem_of_list_to_set).
  assert (ids_of (file :: files) = {[fID file]} ∪ ids_of files) as -> by done.
  case_bool_decide as Hst.
  { replace (X ∪ ({[fID file]} ∪ ids_of files)) with (X ∪ ids_of files) by set_solver. by apply IH. }
  assert (fID file ∉ X) as Hx by tauto. pose proof (running_closed X _ Hx) as Hc.
  eapply hoare_bind with (R := λ c w, (∀ e, c = Some e → w_ctx w = Some (O, e)) ∧ on (running X) w).
  { intros w Hw. pose proof (holds_ctx (running X) w Hw) as Hk.
    destruct (ctx_check w) as [w' [c|e]] eqn:Ec; simpl in *; [|by eapply running_unfinished].
    split; [|done]. intros e ->. by eapply ctx_check_cancelled. }
  intros [e|]; cbn beta iota.
  { apply hoare_ret. intros w [Hctx Hw]. split; [by eapply running_unfinished|].
    intros _. left. exists e. auto. }
  apply hoare_weaken with (P := on (running X)); [by intros w []|]. eapply hoare_bind; [apply hoare_catch; by apply hoare_processFile|].
  intros [?|e]; cbn beta iota.
  - replace (X ∪ ({[fID file]} ∪ ids_of files)) with (({[fID file]} ∪ X) ∪ ids_of files) by set_solver.
    eapply hoare_weaken; [|apply (IH ({[fID file]} ∪ X))]; [| |done].
    + intros w [Hw Hd]. by apply running_add.
    + eapply (split_by_mono X _ _ {[fID file]}); [done|set_solver..].
  - apply hoare_ret. intros w Hw. split; [by eapply running_unfinished|done].
Qed.

(** The files of the job, when it was read. *)
Definition own_files (files : list FileRow) : Prop :=
  NoDup (fID <$> files) ∧
  ∀ k i, S !! k = Some (i, id) → k ∈ ids_of files.

Definition finished_ids (files : list FileRow) : gset string :=
  ids_of (filter (λ f, fState f = "completed") files).

Lemma elem_of_ids_of k files : k ∈ ids_of files ↔ ∃ f, f ∈ files ∧ fID f = k.
Proof. unfold ids_of. rewrite elem_of_list_to_set, list_elem_of_fmap. naive_solver. Qed.

Lemma files_of_own t :
  map_Forall (λ k f, fID f = k) (files t) → fst <$> file_states t = S → own_files (files_of t id).
Proof.
  intros Hk HS. split.
  - apply NoDup_fmap_2_strong; [|by apply files_of_NoDup].
    intros f g (k&Hf&_)%elem_of_files_of (l&Hg&_)%elem_of_files_of Hfg.
    rewrite (Hk _ _ Hf), (Hk _ _ Hg) in Hfg. congruence.
  - intros k i. rewrite <- HS. unfold file_states. rewrite !lookup_fmap.
    destruct (files t !! k) as [f|] eqn:Ef; [|done]. simpl. intros [= _ Hid].
    apply elem_of_ids_of. exists f. split; [|by apply Hk]. apply elem_of_files_of. eauto.
Qed.

Lemma finished_sub files : finished_ids files ⊆ ids_of files.
Proof.
  intros k (f&[_ Hf]%list_elem_of_filter&Hk)%elem_of_ids_of. apply elem_of_ids_of. eauto.
Qed.

Lemma split_by_finished files : NoDup (fID <$> files) → split_by (finished_ids files) files.
Proof.
  intros Hnd. apply Forall_forall. intros f Hf. unfold finished_ids.
  rewrite elem_of_ids_of. split; [intros Hc; exists f; by rewrite list_elem_of_filter|].
  intros (g&[Hc Hg]%list_elem_of_filter&Hid). enough (g = f) as -> by done.
  apply list_elem_of_lookup in Hf as [i Hi]. apply list_elem_of_lookup in Hg as [j Hj].
  enough (j = i) as -> by congruence. eapply NoDup_lookup; [exact Hnd|..].
  - by rewrite list_lookup_fmap, Hj.
  - rewrite list_lookup_fmap, Hi. simpl. by f_equal.
Qed.

Lemma hoare_get_files :
  hoare (λ w, map_Forall (λ k f, fID f = k) (files (tables (w_db w))) ∧ on (running ∅) w)
    (on_db (GetDownloadJob id))
    (λ r w, own_files (rFiles r) ∧ on (running (finished_ids (rFiles r))) w) (on (unfinished id)).
Proof.
  intros w [Hk (Hu&HS&_)]. unfold on_db. destruct (GetDownloadJob id (w_db w)) as [d [r|e]] eqn:E'.
  - apply GetDownloadJob_ok in E' as (Hj&Hf&_&_&Ht&_). cbn [fst snd]. rewrite Hf. split; [by apply files_of_own|].
    apply (on_ran (running _) d w Ht). split; [done|]. split; [done|].
    intros k (f&[Hc (l&Hl&_)%elem_of_files_of]%list_elem_of_filter&Hid)%elem_of_ids_of.
    unfold file_done, file_states. rewrite lookup_fmap.
    assert (l = k) as -> by (rewrite <- Hid; symmetry; by apply Hk). rewrite Hl. simpl. by rewrite Hc.
  - pose proof (holds_unseen (unfinished id) _ (GetDownloadJob_unseen id) w Hu) as Hd. unfold on_db in Hd. by rewrite E' in Hd.
Qed.

(** What holds when [runJob] is over, whatever happened. *)
Definition run_over (files : list FileRow) (H : list jobs_seen) (F : files_seen) : Prop :=
  unfinished id H F ∨ progress S (ids_of files) H F.

Lemma run_over_unfinished files w : on (unfinished id) w → on (run_over files) w.
Proof. by left. Qed.

Lemma hoare_finalizing {A} files m (k : () → life A) st Q :
  m = set_job_state id st → st ≠ "completed" →
  (hoare (on (running (ids_of files))) (k ()) Q (on (run_over files))) →
  hoare (on (running (ids_of files))) (x ← m; k x) Q (on (run_over files)).
Proof.
  intros -> Hst Hk. apply hoare_quiet; [|intros w Hw; left; by destruct Hw|by intros []].
  apply holds_set_job. intros J F [Hu Hp]. split; [by apply unfinished_to|done].
Qed.

(** The end of [runJob], reached with every file completed. *)
Lemma hoare_complete_job files :
  hoare (on (running (ids_of files)))
    (_ ← life_of_result (transition_job "downloading" JobFinalizing);
     _ ← set_job_state id "finalizing";
     _ ← publishJobSnapshot id;
     _ ← life_of_result (transition_job "finalizing" JobCompleted);
     _ ← set_job_state id "completed";
     _ ← ignore (add_event id "" "completed" "download completed");
     publishJobSnapshot id) (λ _, on (run_over files)) (on (run_over files)).
Proof.
  assert (∀ w, on (running (ids_of files)) w → on (run_over files) w) as Hr by (intros w []; by right).
  apply hoare_quiet; [repeat seen_step|done|]. intros ?; cbn beta.
  eapply hoare_finalizing; [done|done|]. cbn beta.
  apply hoare_quiet; [repeat seen_step|done|]. intros ?; cbn beta.
  apply hoare_quiet; [repeat seen_step|done|]. intros ?; cbn beta.
  apply hoare_weaken with (P := on (progress S (ids_of files))); [by intros w []|].
  eapply hoare_conseq; [apply hoare_inv|done|by right|by right].
  assert (job_closed (progress S (ids_of files))) by apply progress_job_closed.
  repeat op_step.
Qed.

Lemma hoare_runJob_over settingsPolicy :
  hoare (λ w, map_Forall (λ k f, fID f = k) (files (tables (w_db w))) ∧ on (running ∅) w)
    (runJob E gcm secrets transfer conflictPolicy settingsPolicy id)
    (λ _ w, ∃ files, own_files files ∧ on (run_over files) w)
    (λ w, on (unfinished id) w ∨ ∃ files, own_files files ∧ on (run_over files) w).
Proof.
  unfold runJob. eapply hoare_bind.
  { eapply hoare_conseq; [apply hoare_get_files|done|intros r w Hw; exact Hw|by left]. }
  intros job. apply hoare_pre. intros Hown. set (files := rFiles job) in *.
  eapply hoare_conseq with (Q := λ _, on (run_over files)) (E := on (run_over files)); [|done|eauto|eauto].
  assert (∀ X w, on (running X) w → on (run_over files) w) as Hr by (intros X w []; by left).
  pose proof (λ X k, running_closed X k) as Hclosed.
  destruct (terminal_job _); [apply hoare_ret, Hr|].
  apply hoare_quiet; [repeat seen_step|apply Hr|]. intros ?; cbn beta.
  eapply hoare_quiet; [|apply Hr|].
  { apply holds_set_job. intros J F [Hu Hp]. split; [by apply unfinished_to|done]. }
  intros ?; cbn beta zeta. apply hoare_quiet; [repeat seen_step|apply Hr|]. intros ?; cbn beta.
  apply hoare_quiet; [repeat seen_step|apply Hr|]. intros ?; cbn beta.
  eapply hoare_bind.
  { eapply hoare_conseq; [apply hoare_prepare; [apply split_by_finished, Hown|apply Hown]|done| |].
    - intros files' w Hw. exact Hw.
    - by left. }
  intros files'. apply hoare_exists. intros X. apply hoare_pre. intros (Hs&Hids&HX1&HX2).
  assert (ids_of files' = ids_of files) as Hids' by (unfold ids_of; by rewrite Hids).
  assert (NoDup (fID <$> files')) as Hnd by (rewrite Hids; apply Hown).
  set (job' := _ <| rFiles := files' |>).
  assert (∀ X e, hoare (A:=()) (on (running X)) (_ ← pauseJob job'; throw e)
    (λ _, on (run_over files)) (on (run_over files))) as Hpause.
  { intros X' e. apply hoare_weaken with (P := on (unfinished id)); [apply running_unfinished|].
    apply hoare_quiet; [apply unfinished_pause|by left|]. intros ?; cbn beta. apply hoare_throw. by left. }
  apply hoare_quiet; [repeat seen_step|apply Hr|]. intros [ce|]; cbn beta iota; [apply Hpause|].
  eapply hoare_bind; [eapply hoare_conseq; [by apply (hoare_process _ _ files' X)|done| |by left]|].
  { intros r w Hw. exact Hw. }
  intros [[terr failed]|]; cbn beta iota.
  - apply hoare_weaken with (P := on (unfinished id)); [by intros w []|].
    eapply hoare_conseq; [apply hoare_inv|done|by left|by left].
    pose proof (unfinished_pause job'). pose proof (unfinished_closed id).
    repeat unfinished_step; try apply unfinished_quota; try apply unfinished_fail.
  - eapply hoare_bind with (R := λ c w, match c with
      | Some _ => on (unfinished id) w | None => on (running (X ∪ ids_of files')) w end).
    { intros w [Hw Hor]. specialize (Hor eq_refl). unfold ctx_check.
      destruct (w_ctx w) as [[[|k] e]|] eqn:Ectx; simpl; [done|..];
        destruct Hor as [[e' ?]|]; try done; congruence. }
    intros [ce|]; cbn beta iota.
    { apply hoare_quiet; [apply unfinished_pause|by left|]. intros ?; cbn beta. apply hoare_throw. by left. }
    assert (X ∪ ids_of files' = ids_of files) as ->; [|by apply hoare_complete_job].
    rewrite Hids'. pose proof (finished_sub files). set_solver.
Qed.
End loops.

(** ** A sample: one job with one file of three bytes *)

Definition sample_gcm : AEAD :=
  mkAEAD 12 16 (λ _ _ p, p ++ replicate 16 0) (λ _ _ c, Ok (take (length c - 16) c)).
Definition sample_secrets : SecretStore := mkSecretStore (replicate 32 0).
Definition sample_cipher : list Z → list Z → list Z := λ _ block, block.
(** AES key zero, nonce zero and the meta-MAC of the content. *)
Definition sample_key : list Z :=
  let tail := replicate 8 0 ++ [1; 2; 3; 0; 0; 0; 0; 0] in tail ++ tail.
Definition sealed (l : list Z) : list Z := SecretStore_Encrypt sample_gcm sample_secrets (replicate 12 0) l.

Definition sample_job (state : string) : JobRow :=
  mkJobRow "job" "file" "h" [1] "" "" "song" 3 "" "" "" "/dl" "/parts" state 1 1 None 0 "" "".
Definition sample_file (state : string) : FileRow :=
  mkFileRow "f1" "job" "n1" "song.mp3" "song.mp3" 3 16777216 1 [] 0 (sealed sample_key) (sealed [65]) ""
    state "" "" 1 1 None.

Definition sample_tables (js fs : string) : Tables :=
  mkTables {["job" := sample_job js]} {["f1" := sample_file fs]} [] 0 ∅ ∅ ∅ ∅ ∅.

Definition sample_tree (l : list (path * entry)) : FS :=
  mkFS (list_to_map ([([], EDir); (["dl"], EDir); (["parts"], EDir)] ++ l)) ∅ 0 [] [].

Definition sample_world (js fs : string) (tree : FS) : World :=
  mkWorld (mkDB (sample_tables js fs) 0 0 [] [] 1000 (New "constraint failed")) tree
    (empty_manager 1) [] None [].

(** Writes the content and checkpoints it. *)
Definition sample_transfer (file : FileRow) (partial : path) (existed : bool) : life () :=
  _ ← on_fs (sys (λ s, (s <| entries := <[partial := EFile [1; 2; 3]]> (entries s) |>, Ok ())));
  on_db (CheckpointDownloadFiles [mkCheckpointRow (fID file) [1] 3 "" "" "" 0]).

#[export] Instance sample_transfer_spec : TransferSpec sample_transfer.
Proof.
  intros file p existed P Hc. unfold sample_transfer. repeat seen_step.
  apply holds_on_db. intros H J0. apply CheckpointDownloadFiles_closed. intros u ->%list_elem_of_singleton.
  split; [|by left]. intros J F st Hst [-> HP]. split; [done|]. by apply Hc.
Qed.

Definition sample_run : operation := OpRun None "job".
Definition sample_start : World := sample_world "queued" "pending" (sample_tree []).
Definition sample_end : World :=
  (perform sample_cipher sample_gcm sample_secrets sample_transfer "rename" sample_run sample_start).1.

Lemma sample_start_typed : states_typed (tables (w_db sample_start)).
Proof. split; apply map_Forall_singleton; by vm_compute; eauto. Qed.

Lemma sample_step :
  life_step sample_cipher sample_gcm sample_secrets sample_transfer "rename" sample_start sample_end.
Proof. unfold sample_end. apply step_operation. Qed.

(** ** Properties *)

Section properties.
Context (E : list Z → list Z → list Z) (gcm : AEAD) (secrets : SecretStore)
  (transfer : FileRow → path → bool → life ()) (conflictPolicy : string)
  `{!TransferSpec transfer}.
Abbreviation history := (rtc (life_step E gcm secrets transfer conflictPolicy)).

Lemma life_step_holds P w w' :
  (∀ o, holds P (perform E gcm secrets transfer conflictPolicy o)) →
  life_step E gcm secrets transfer conflictPolicy w w' → on P w → on P w'.
Proof.
  intros HP [o w0|w0 w1 Ht Htr] Hw; [by apply HP|]. unfold on, job_path in *. by rewrite Htr, Ht.
Qed.

Lemma moved_perform X o :
  jobs_typed X → holds (moved X) (perform E gcm secrets transfer conflictPolicy o).
Proof.
  intros HX. destruct o; cbn [perform]; repeat first
    [ apply preserves_bind; [|intros; apply preserves_ret]
    | by apply hoare_preserves; auto using hoare_StartJobWithPriority, hoare_PauseJob,
        hoare_ResumeJob, hoare_CancelJob, hoare_DeleteJob, hoare_runJob, hoare_finishJob
    | by apply holds_delete_stopped ].
Qed.

(** What one write may do to the jobs: each that is left is the job it was, in
    its state or in one that [TransitionJobState] accepts from there. *)
Definition job_written (t t' : Tables) : Prop :=
  ∀ id j', jobs t' !! id = Some j' → ∃ j, jobs t !! id = Some j ∧ jID j = jID j' ∧
    (jState j' = jState j ∨
     ∃ s s', jState j = JobState_text s ∧ jState j' = JobState_text s' ∧ TransitionJobState s s' = Ok ()).

Lemma edge_written t t' : edge (job_states t) (job_states t') → job_written t t'.
Proof.
  intros He id j' Hj'. destruct (He id (jID j') (jState j')) as (s&Hs&Hst); [by unfold job_states; rewrite lookup_fmap, Hj'|].
  unfold job_states in Hs. rewrite lookup_fmap in Hs. destruct (jobs t !! id) as [j|]; simplify_eq/=.
  exists j. split; [done|]. split; [done|]. destruct Hst as [Hst|(T&HT&Htr)]; [by left|right].
  unfold transition_job in Htr. destruct (parse_job_state (jState j)) as [S|] eqn:E'; [|done].
  exists S, T. by rewrite (parse_job_inv _ _ E').
Qed.

Lemma history_moved w w' :
  states_typed (tables (w_db w)) → w_trail w = [] → history w w' → on (moved (job_states (tables (w_db w)))) w'.
Proof.
  intros [HJ _]%states_typed_seen Ht Hrun. eapply (rtc_invariant _ _ w w'); [|done|].
  - intros a b Hab Ha. eapply life_step_holds; [|done|done]. intros o. by apply moved_perform.
  - unfold on, job_path. rewrite Ht. split; [done|]. apply linked_nil.
Qed.

(** The tables before and after every call of the database, from the start of
    the history. *)
Definition all_tables (w w' : World) : list Tables :=
  tables (w_db w) :: w_trail w' ++ [tables (w_db w')].

Lemma moved_written w w' :
  on (moved (job_states (tables (w_db w)))) w' → linked job_written (all_tables w w').
Proof.
  intros [Hh Hl]. unfold job_path in Hh, Hl. eapply linked_impl; [apply edge_written|]. apply linked_fmap.
  unfold all_tables. rewrite fmap_cons. destruct (job_states <$> w_trail w' ++ [tables (w_db w')]) as [|J l].
  { apply linked_nil. }
  cbn [foldl] in Hh, Hl. change (path_next [] J) with [J] in Hh, Hl.
  pose proof (path_next_linked [J] l J eq_refl Hl) as Hl'. apply linked_cons. split; [|done].
  assert (∀ l H, head H = Some J → head (foldl path_next H l) = Some J) as Hhead.
  { clear. intros l. induction l as [|J' l IH]; intros H Hh; [done|]. cbn. apply IH. unfold path_next.
    case_decide; [done|]. by destruct H. }
  rewrite Hhead in Hh by done. injection Hh as ->. apply edge_refl.
Qed.

(** C8: the persisted states follow the transition table.  Along every
    history of starts, pauses, resumes, cancellations, deletions and runs,
    with any failure of the database, the disk or the transfer at any point,
    each single call of the database leaves every job that is still there in
    its state or takes it to one that [TransitionJobState] accepts from that
    state - also where the code writes a state without asking it.  So the job
    at the end is the job it was, reached by such transitions, and a completed
    or a cancelled job stays as it is.  (The writes of [Recover] are those of a
    start, in ManagerStart.) *)
Theorem job_states_follow_table w w' :
  states_typed (tables (w_db w)) → w_trail w = [] → history w w' →
  linked job_written (all_tables w w') ∧
  ∀ id j', jobs (tables (w_db w')) !! id = Some j' →
  ∃ j s s', jobs (tables (w_db w)) !! id = Some j ∧ jID j = jID j' ∧
    jState j = JobState_text s ∧ jState j' = JobState_text s' ∧ rtc job_step s s' ∧
    (s = JobCompleted ∨ s = JobCancelled → s' = s).
Proof.
  intros Htyped Ht Hrun. pose proof (history_moved w w' Htyped Ht Hrun) as Hw'.
  split; [by apply moved_written|]. intros id j' Hj'.
  apply states_typed_seen in Htyped as [HJ HF]. set (X := job_states (tables (w_db w))) in *.
  apply (moved_now _ _ (file_states (tables (w_db w')))) in Hw'. rewrite job_path_now in Hw'.
  destruct (Hw' id (jID j') (jState j')) as (s0&Hs0&Hpath).
  { unfold job_states. by rewrite lookup_fmap, Hj'. }
  destruct (HJ id _ Hs0) as [_ [s Hs]]. simpl in Hs.
  destruct (text_path s0 (jState j') s) as (s'&Hs'&Hrtc); [done|done|].
  unfold X, job_states in Hs0. rewrite lookup_fmap in Hs0.
  destruct (jobs (tables (w_db w)) !! id) as [j|]; simplify_eq/=.
  exists j, s, s'. split_and!; try done; [by apply parse_job_inv|].
  intros Hterm. clear -Hterm Hrtc. induction Hrtc as [|x y z Hxy _ IH]; [done|].
  assert (y = x) as ->; [|by auto].
  apply TransitionJobState_ok in Hxy as [<-|Hin]; [done|].
  by destruct Hterm as [-> | ->]; apply elem_of_nil in Hin.
Qed.

(** C40: persisted rows stay well typed.  Every operation, whatever
    fails in it, leaves each job in one of the eleven job states and each
    file in one of the nine file states, under its own key, so that every
    state read back later is one the transition functions know. *)
Theorem states_stay_typed w w' :
  states_typed (tables (w_db w)) → history w w' → states_typed (tables (w_db w')).
Proof.
  rewrite !states_typed_seen, <-!on_present. intros Hw Hrun.
  eapply (rtc_invariant _ (on (present typed)) w w'); [|done|done]. intros a b Hab Ha.
  eapply life_step_holds; [|done|done]. intros o.
  apply keep_perform; auto using typed_closed, typed_job_closed, typed_delete.
Qed.

(** C3: a job is completed only when its files are.  Whatever the
    run of a job meets - files already finished, moves to recover, transfer,
    integrity or database failures, a cancelled context, quota - if the job
    was not completed before and its persisted state is [completed]
    afterwards, then every one of its files is persisted as completed. *)
Theorem runJob_completes_files settingsPolicy jobID w :
  map_Forall (λ k f, fID f = k) (files (tables (w_db w))) →
  jState <$> jobs (tables (w_db w)) !! jobID ≠ Some "completed" →
  let w' := (runJob E gcm secrets transfer conflictPolicy settingsPolicy jobID w).1 in
  jState <$> jobs (tables (w_db w')) !! jobID = Some "completed" →
  ∀ k f, files (tables (w_db w')) !! k = Some f → fJobID f = jobID → fState f = "completed".
Proof.
  intros Hk Hst w' Hst' k f Hf Hown.
  assert (∀ w, on (unfinished jobID) w ↔ jState <$> jobs (tables (w_db w)) !! jobID ≠ Some "completed") as Hun.
  { intros w0. unfold on, unfinished. rewrite job_path_now. unfold job_states.
    by rewrite lookup_fmap, <- option_fmap_compose. }
  pose proof (hoare_runJob_over E gcm secrets transfer conflictPolicy jobID
    (fst <$> file_states (tables (w_db w))) settingsPolicy w) as H.
  assert (∃ files, own_files jobID (fst <$> file_states (tables (w_db w))) files ∧
    on (run_over jobID (fst <$> file_states (tables (w_db w))) files) w') as (fs&Hfs&[Hover|Hover]).
  { pose proof (H (conj Hk (conj (proj2 (Hun _) Hst) (conj eq_refl (set_Forall_empty _))))) as H1.
    unfold w' in *. destruct (runJob _ _ _ _ _ _ _ w) as [w1 [u|e]]; simpl in *; [done|].
    destruct H1 as [H1|H1]; [by apply Hun in H1|done]. }
  - by apply Hun in Hover.
  - destruct Hover as [HS HX]. destruct Hfs as [_ Hfs].
    assert (k ∈ ids_of fs) as Hin.
    { apply (Hfs k (fID f)). rewrite <- HS. unfold file_states.
      by rewrite !lookup_fmap, Hf, <- Hown. }
    specialize (HX k Hin). unfold file_done, file_states in HX. rewrite lookup_fmap, Hf in HX.
    by injection HX.
Qed.
End properties.

(** The states the job of the sample was seen in. *)
Definition states_seen : list (option string) :=
  (λ t, jState <$> jobs t !! "job") <$> all_tables sample_start sample_end.

Lemma job_states_follow_table_witness :
  states_typed (tables (w_db sample_start)) ∧ linked job_written (all_tables sample_start sample_end)
  ∧ remove_dups states_seen = Some <$> ["queued"; "downloading"; "finalizing"; "completed"]
  ∧ rtc job_step JobQueued JobCompleted.
Proof.
  split; [exact sample_start_typed|].
  destruct (job_states_follow_table sample_cipher sample_gcm sample_secrets sample_transfer "rename"
    sample_start sample_end sample_start_typed eq_refl) as [Hl Hend].
  { apply rtc_once, sample_step. }
  split; [exact Hl|]. split; [vm_compute; reflexivity|].
  destruct (jobs (tables (w_db sample_end)) !! "job") as [j'|] eqn:E; [|vm_compute in E; discriminate].
  destruct (Hend "job" j' E) as (j&s&s'&Hj&_&Hs&Hs'&Hrtc&_).
  vm_compute in E. injection E as <-. vm_compute in Hj. injection Hj as <-. simpl in *.
  change (JobState_text JobQueued = JobState_text s) in Hs.
  change (JobState_text JobCompleted = JobState_text s') in Hs'.
  apply JobState_text_inj in Hs, Hs'. subst. exact Hrtc.
Defined.

Lemma states_stay_typed_witness :
  states_typed (tables (w_db sample_start)) ∧ states_typed (tables (w_db sample_end)).
Proof.
  split; [exact sample_start_typed|].
  apply (states_stay_typed sample_cipher sample_gcm sample_secrets sample_transfer "rename"
    sample_start sample_end sample_start_typed).
  apply rtc_once, sample_step.
Defined.

Lemma runJob_completes_files_witness :
  jState <$> jobs (tables (w_db sample_end)) !! "job" = Some "completed" ∧
  fState <$> files (tables (w_db sample_end)) !! "f1" = Some "completed".
Proof.
  assert (jState <$> jobs (tables (w_db sample_end)) !! "job" = Some "completed") as Hj
    by (vm_compute; reflexivity).
  split; [exact Hj|].
  destruct (files (tables (w_db sample_end)) !! "f1") as [f|] eqn:E; [|vm_compute in E; discriminate].
  simpl. f_equal. apply (runJob_completes_files sample_cipher sample_gcm sample_secrets sample_transfer
    "rename" None "job" sample_start) with (k := "f1").
  - apply map_Forall_singleton. reflexivity.
  - vm_compute. discriminate.
  - exact Hj.
  - exact E.
  - vm_compute in E. injection E as <-. reflexivity.
Defined.
