(* ===== verification/Finalize.v ===== *)
(** * Publishing a finished file

    What [finalize] and [recoverMovedFile] do to the disk and the database
    together: the content of a download is never lost between the partial
    file and its final place, and a crash or failure on the way leaves the
    information recovery needs. *)

From Stdlib Require Import ZArith Lia.
From stdpp Require Import base list gmap strings numbers pretty.
From S2P Require Import Prelude GoStrings GoErrors JobState Planner Retry Crypto Paths Store StoreDownloads FsRoot FsRootOps Secrets Queue Lifecycle LifecycleStates LifecycleRun.

(** ** Opening a root *)

Lemma clean_step_names acc c :
  str_elem Slash c = false → Forall name_ok acc → Forall name_ok (clean_step true acc c).
Proof.
  intros Hc Hacc. unfold clean_step. destruct (_ || _) eqn:E1; [done|]. bool_to_prop.
  case_bool_decide as E2.
  - destruct acc as [|x rest]; [done|]. apply Forall_cons in Hacc as [Hx Hrest].
    case_bool_decide; [|done]. subst. by destruct Hx as (_&_&?&_).
  - constructor; [|done]. by repeat split.
Qed.

Lemma clean_names parts acc :
  Forall (λ c, str_elem Slash c = false) parts → Forall name_ok acc →
  Forall name_ok (foldl (clean_step true) acc parts).
Proof.
  intros Hp. revert acc. induction Hp as [|c parts Hc Hp IH]; intros acc Hacc; simpl; [done|].
  by apply IH, clean_step_names.
Qed.

(** A cleaned absolute path has only ordinary components. *)
Lemma absolute_components_Clean p :
  IsAbs p = true → Forall name_ok (absolute_components (Clean p)).
Proof.
  intros Hp. unfold Clean. rewrite Hp. unfold absolute_components. rewrite TrimPrefix_app.
  set (l := reverse _).
  assert (Forall name_ok l) as Hl by (apply Forall_reverse, clean_names; [apply Split_parts_no_sep|done]).
  destruct l as [|x l']; [constructor|]. assert (Split (Join (x :: l') "/") Slash = x :: l') as ->.
  - apply (Split_Join (x :: l') Slash); [done|]. eapply Forall_impl; [exact Hl|]. by intros c (_&_&_&?).
  - apply Forall_forall. intros c [_ Hc]%list_elem_of_filter. by eapply Forall_forall in Hl.
Qed.

(** No call on the tree makes a handle. *)
Lemma next_sys {A} (run : FS → FS * result error A) n :
  (∀ s, next_handle (run s).1 = next_handle s) → preserves (λ s, next_handle s = n) (sys run).
Proof.
  intros Hrun s Hs. unfold sys. destruct (sys_faults s) as [|[e|] rest]; simpl; [|done|];
    by rewrite Hrun.
Qed.

Ltac next_step :=
  match goal with
  | |- preserves _ (mbind _ _) => apply preserves_bind; [|intros ?]
  | |- preserves _ (catch _) => apply preserves_catch
  | |- preserves _ (mret _) => apply preserves_ret
  | |- preserves _ (throw _) => apply preserves_throw
  | |- preserves _ (sys _) => apply next_sys; intros ?; cbn; by repeat case_match
  | |- preserves _ (if _ then _ else _) => case_match
  | |- preserves _ (match _ with _ => _ end) => case_match
  end.

Lemma walk_next create wrap fd comps n :
  preserves (λ s, next_handle s = n) (walk create wrap fd comps).
Proof.
  revert fd. induction comps as [|c comps IH]; intros fd; cbn [walk]; [apply preserves_ret|].
  assert (preserves (λ s, next_handle s = n) (openDirectoryAt fd c)) as Hopen.
  { unfold openDirectoryAt, k_open_dir, k_fstatat. repeat next_step. }
  unfold fs_wrap, k_mkdirat. repeat first [exact Hopen|apply IH|next_step].
Qed.

(** [New] leaves the tree alone; the new handle is the next one. *)
Lemma fsroot_New_run p s :
  fs_ok s →
  let (s', r) := fsroot_New p s in
  fs_ok s' ∧ entries s' = entries s ∧
  ∀ h, r = Ok h → h = next_handle s ∧ next_handle s' = S h ∧
    root_at h (absolute_components (Clean p)) s' ∧
    ∀ k rp, k ≠ h → root_at k rp s → root_at k rp s'.
Proof.
  intros Hok. unfold fsroot_New. destruct (_ || _) eqn:Ep; [by split_and!|]. bool_to_prop.
  case_bool_decide; [by split_and!|].
  set (rp := absolute_components (Clean p)).
  assert (Forall name_ok rp) as Hrp by (by apply absolute_components_Clean).
  unfold openAbsoluteDirectory. fold rp.
  pose proof (spec_walk (λ _, False) false (λ _ e, e) [] rp Hrp ltac:(done) s Hok I) as (Hok1&[He Hh]&_).
  pose proof (walk_next false (λ _ e, e) [] rp _ s eq_refl) as Hn.
  unfold mbind, cmd_bind, catch. destruct (walk false (λ _ e, e) [] rp s) as [s1 r1].
  assert (entries s1 = entries s) as Hent by (apply map_eq; intros q; by destruct (He q) as [|[[] _]]).
  simpl in *.
  assert (∀ opened, let s2 := s1 <| handles := <[next_handle s1 := mkRootState rp (Clean p) opened false]>
       (handles s1) |> <| next_handle := S (next_handle s1) |> in
    fs_ok s2 ∧ entries s2 = entries s ∧ ∀ h, Ok (E:=error) (next_handle s1) = Ok h →
      h = next_handle s ∧ next_handle s2 = S h ∧ root_at h rp s2 ∧
      ∀ k rp, k ≠ h → root_at k rp s → root_at k rp s2) as Hadd.
  { intros opened. split_and!; [|done|].
    - destruct Hok1 as (Ht&Hr&Hf). split_and!; [done| |done]. simpl.
      by apply map_Forall_insert_2.
    - intros h [= <-]. split_and!; [done|done| |].
      + unfold root_at. simpl. by rewrite lookup_insert_eq.
      + intros k rp' Hk. unfold root_at. simpl. rewrite lookup_insert_ne by done. by rewrite Hh. }
  destruct r1 as [fd|e]; simpl; [apply Hadd|].
  destruct (errors_is e ENOENT); [apply Hadd|by split_and!].
Qed.

Lemma Root_Close_run h s :
  fs_ok s → let (s', r) := Root_Close h s in fs_ok s' ∧ entries s' = entries s.
Proof.
  intros Hok. pose proof (spec_set_root (λ _, False) h
    (λ r, r <| rt_closed := true |> <| rt_open := false |>) ltac:(done) s Hok I) as (?&[He _]&_).
  unfold Root_Close. destruct (set_root _ _ s) as [s' r]. simpl in *. split; [done|].
  apply map_eq. intros q. by destruct (He q) as [|[[] _]].
Qed.

(** ** The outcomes of [finalize] *)

(** Directories may have appeared; nothing else changed. *)
Definition grown (m m' : gmap path entry) : Prop :=
  ∀ p, m' !! p = m !! p ∨ (m !! p = None ∧ m' !! p = Some EDir).

(** The file moved from [src] to [dst]; everything elsewhere is still there. *)
Definition moved_file (overwrite : bool) (src dst : path) (m m' : gmap path entry) : Prop :=
  ∃ c, m !! src = Some (EFile c) ∧ m' !! dst = Some (EFile c) ∧
    (src ≠ dst → m' !! src = None) ∧ (overwrite = false → m !! dst = None) ∧
    ∀ p, p ≠ src → p ≠ dst → m' !! p = m !! p ∨ (m !! p = None ∧ m' !! p = Some EDir).

(** The database knows where the file is being moved. *)
Definition recorded (id target : string) (w : World) : Prop :=
  (λ f, (fState f, fFinalPath f)) <$> files (tables (w_db w)) !! id = Some ("moving", target).

Definition published (overwrite : bool) (id : string) (src rp : path) (m : gmap path entry)
    (out : World * result error string) : Prop :=
  let (w', r) := out in
  let at_target t := moved_file overwrite src (rp ++ components t) m (entries (w_fs w')) ∧
                     recorded id t w' in
  fs_ok (w_fs w') ∧
  match r with
  | Ok t => at_target t
  | Err e => grown m (entries (w_fs w')) ∨
             (errors_is e ErrFinalizationPending = true ∧ ∃ t, at_target t)
  end.

Lemma grown_refl m : grown m m.
Proof. by left. Qed.

Lemma grown_trans m1 m2 m3 : grown m1 m2 → grown m2 m3 → grown m1 m3.
Proof.
  intros H1 H2 p. destruct (H1 p) as [E1|[E1 E1']], (H2 p) as [E2|[E2 E2']]; [left|right|right|]; try congruence.
  all: try (split; congruence).
Qed.

Lemma grown_file m m' p c : grown m m' → m' !! p = Some (EFile c) → m !! p = Some (EFile c).
Proof. intros H Hp. destruct (H p) as [<-|[_ ?]]; congruence. Qed.

Lemma grown_none m m' p : grown m m' → m' !! p = None → m !! p = None.
Proof. intros H Hp. destruct (H p) as [<-|[? ?]]; congruence. Qed.

Lemma extends_grown U s s' : extends U s s' → grown (entries s) (entries s').
Proof. intros [He _] p. destruct (He p) as [|(_&?&?)]; auto. Qed.

Lemma moved_file_grown overwrite src dst m m1 m' :
  grown m m1 → moved_file overwrite src dst m1 m' → moved_file overwrite src dst m m'.
Proof.
  intros Hg (c&Hsrc&Hdst&Hgone&Hfree&Helse). exists c. split_and!; try done.
  - by eapply grown_file.
  - intros Ho. eapply grown_none; [done|]. auto.
  - intros p Hp1 Hp2. destruct (Helse p Hp1 Hp2) as [E|[E1 E2]].
    + rewrite E. apply Hg.
    + right. split; [by eapply grown_none|done].
Qed.

Lemma published_grown overwrite id src rp m m1 out :
  grown m m1 → published overwrite id src rp m1 out → published overwrite id src rp m out.
Proof.
  intros Hg. destruct out as [w' [t|e]]; simpl; intros [Hok H]; (split; [done|]).
  - split; [eapply moved_file_grown; [done|apply H]|apply H].
  - destruct H as [H|(?&t&?&?)]; [left; by eapply grown_trans|right].
    split; [done|]. exists t. split; [by eapply moved_file_grown|done].
Qed.

Lemma PrepareDownloadFileMove_ok id target when d d' u :
  PrepareDownloadFileMove id target when d = (d', Ok u) →
  (λ f, (fState f, fFinalPath f)) <$> files (tables d') !! id = Some ("moving", target).
Proof.
  unfold PrepareDownloadFileMove. intros H. op_inv.
  match goal with H : update_file_row _ _ _ = Some _ |- _ =>
    apply update_file_row_some in H as (f&Hf&Ht&_); [|done] end.
  use_tables. by rewrite lookup_insert_eq.
Qed.

(** ** The loop of [finalize] *)

Lemma moved_of_renamed U overwrite src dst s s' :
  renamed U overwrite src dst s (s', Ok ()) →
  fs_ok s' ∧ moved_file overwrite src dst (entries s) (entries s') ∧
  ∀ h rp, root_at h rp s → root_at h rp s'.
Proof.
  intros (Hok&c&mid&Hex&Hc&Hns&Hnd&Hno&He&Hh). split; [done|]. split.
  - exists c. rewrite He. split_and!.
    + by eapply extends_file.
    + by rewrite lookup_insert_eq.
    + intros Hne. rewrite lookup_insert_ne by done. by rewrite lookup_delete_eq.
    + intros Ho. eapply grown_none; [by eapply extends_grown|]. auto.
    + intros p Hp1 Hp2. rewrite lookup_insert_ne, lookup_delete_ne by done. by eapply extends_grown.
  - intros h rp. unfold root_at. by rewrite Hh.
Qed.

Lemma spec_Root_SyncDir h rp relative :
  spec (λ _, False) (root_at h rp) (Root_SyncDir h relative) (λ _ _, True).
Proof.
  unfold Root_SyncDir. eapply (rspec_of_result (growing (λ _, False))). intros safe _.
  eapply spec_bind; [eapply spec_weaken; [|apply spec_openDirectory]; by intros p [? _]|].
  intros fd. apply spec_sys; [|done]. intros s Hok _. split_and!; [exact Hok|by split; auto|done].
Qed.

Lemma SyncDir_run h rp relative s s' r :
  fs_ok s → root_at h rp s → Root_SyncDir h relative s = (s', r) →
  fs_ok s' ∧ entries s' = entries s ∧ ∀ k q, root_at k q s → root_at k q s'.
Proof.
  intros Hok Hat E. destruct (spec_Root_SyncDir h rp relative s Hok Hat) as (?&[He Hh]&_).
  rewrite E in *. simpl in *. split; [done|]. split.
  - apply map_eq. intros q. by destruct (He q) as [|[[] _]].
  - intros k q. unfold root_at. by rewrite Hh.
Qed.

(** Running a step on its part of the world. *)
Lemma bind_fs {A B} (m : fs_cmd A) (k : A → life B) w :
  (x ← on_fs m; k x) w =
  match m (w_fs w) with
  | (s, Ok a) => k a (w <| w_fs := s |>)
  | (s, Err e) => (w <| w_fs := s |>, Err e)
  end.
Proof. unfold mbind, cmd_bind, on_fs. by destruct (m (w_fs w)) as [s []]. Qed.

Lemma bind_catch_fs {A B} (m : fs_cmd A) (k : result error A → life B) w :
  (x ← catch (on_fs m); k x) w = k (m (w_fs w)).2 (w <| w_fs := (m (w_fs w)).1 |>).
Proof. unfold mbind, cmd_bind, catch, on_fs. by destruct (m (w_fs w)) as [s []]. Qed.

Lemma bind_db {A B} (m : store_cmd A) (k : A → life B) w :
  (x ← on_db m; k x) w =
  match m (w_db w) with
  | (d, Ok a) => k a (db_ran d w)
  | (d, Err e) => (db_ran d w, Err e)
  end.
Proof. unfold mbind, cmd_bind, on_db. by destruct (m (w_db w)) as [d []]. Qed.

Lemma bind_now {B} (k : Z → life B) w : (x ← m_now; k x) w = k (wall (w_db w)) w.
Proof. done. Qed.

Section loop.
Context (file : FileRow) (rel policy : string) (ir cr : nat) (sp rp : path).
Let overwrite := bool_decide (policy = ConflictOverwrite).
Let src := sp ++ components rel.

Lemma finalize_loop_published todo w :
  fs_ok (w_fs w) → root_at ir sp (w_fs w) → root_at cr rp (w_fs w) →
  published overwrite (fID file) src rp (entries (w_fs w)) (finalize_loop todo policy ir cr file rel w).
Proof.
  revert w. induction todo as [|todo IH]; intros w Hok Hir Hcr; cbn [finalize_loop].
  { split; [done|]. left. apply grown_refl. }
  rewrite bind_fs. destruct (Root_PlanConflict cr (fFinalPath file) policy (w_fs w)) as [s1 r1] eqn:Eplan.
  destruct (spec_Root_PlanConflict cr rp (fFinalPath file) policy (w_fs w) Hok Hcr) as (Hok1&Hex1&_).
  rewrite Eplan in Hok1, Hex1. simpl in Hok1, Hex1.
  apply (published_grown _ _ _ _ _ (entries s1)); [by eapply extends_grown|].
  assert (root_at ir sp s1 ∧ root_at cr rp s1) as [Hir1 Hcr1] by (split; by eapply extends_root).
  destruct r1 as [target|e]; [|split; [done|left; apply grown_refl]].
  rewrite bind_now, bind_db. cbn [db_ran w_db w_fs update_field].
  destruct (PrepareDownloadFileMove (fID file) target _ _) as [d1 r1] eqn:Eprep.
  destruct r1 as [[]|e]; [|split; [done|left; apply grown_refl]].
  apply PrepareDownloadFileMove_ok in Eprep. rewrite bind_catch_fs. cbn [db_ran w_db w_fs update_field].
  pose proof (Root_RenameFrom_renamed cr ir rp sp rel target overwrite s1 Hok1 Hcr1 Hir1) as Hren.
  fold overwrite. destruct (Root_RenameFrom cr ir rel target overwrite s1) as [s2 r2].
  cbn [fst snd]. destruct r2 as [[]|e].
  - apply moved_of_renamed in Hren as (Hok2&Hmoved&Hroots). rewrite bind_catch_fs. cbn [db_ran w_db w_fs update_field].
    destruct (Root_SyncDir cr (relativeParent target) s2) as [s3 r3] eqn:E3.
    apply (SyncDir_run cr rp) in E3 as (Hok3&He3&Hroots3); [|done|by apply Hroots].
    assert (∀ s4 : FS, entries s4 = entries s3 →
      moved_file overwrite src (rp ++ components target) (entries s1) (entries s4)) as Hm
      by (intros s4 ->; by rewrite He3).
    cbn [fst snd]. destruct r3 as [[]|e].
    2:{ split; [done|]. right. split; [apply errors_is_Wrap|]. exists target. split; [by apply Hm|done]. }
    rewrite bind_catch_fs. cbn [db_ran w_db w_fs update_field].
    destruct (Root_SyncDir ir (relativeParent rel) s3) as [s4 r4] eqn:E4.
    apply (SyncDir_run ir sp) in E4 as (Hok4&He4&_); [|done|by apply Hroots3, Hroots].
    cbn [fst snd]. destruct r4 as [[]|e].
    + split; [done|]. split; [by apply Hm|done].
    + split; [done|]. right. split; [apply errors_is_Wrap|]. exists target. split; [by apply Hm|done].
  - destruct Hren as [Hok2 Hex2]. destruct (errors_is e ErrConflict && _).
    + eapply published_grown; [by eapply extends_grown|]. apply IH; [done|by eapply extends_root..].
    + destruct (errors_is e EXDEV); (split; [done|left; by eapply extends_grown]).
Qed.
End loop.

(** ** Roots around a body *)

Definition close_root (h : nat) (w : World) : World := w <| w_fs := (Root_Close h (w_fs w)).1 |>.

Lemma close_root_ok h w :
  fs_ok (w_fs w) →
  fs_ok (w_fs (close_root h w)) ∧ entries (w_fs (close_root h w)) = entries (w_fs w).
Proof.
  intros Hok. pose proof (Root_Close_run h (w_fs w) Hok) as Hcl. unfold close_root.
  by destruct (Root_Close h (w_fs w)).
Qed.

Lemma with_root_run {A} p (body : nat → life A) w :
  with_root p body w =
  match fsroot_New p (w_fs w) with
  | (s, Ok h) => let (w', r) := body h (w <| w_fs := s |>) in (close_root h w', r)
  | (s, Err e) => (w <| w_fs := s |>, Err e)
  end.
Proof.
  unfold with_root, fsRoot. rewrite bind_fs. destruct (fsroot_New p (w_fs w)) as [s [h|e]]; [|done].
  unfold mbind, cmd_bind, catch, ignore, on_fs, close_root, life_of_result.
  destruct (body h _) as [w' r]. by destruct r.
Qed.

Definition root_path (p : string) : path := absolute_components (Clean p).

(** Both roots, opened one after the other. *)
Lemma two_roots {A} (G : World * result error A → Prop) p q (body : nat → nat → life A) w :
  fs_ok (w_fs w) →
  (∀ s e, fs_ok s → entries s = entries (w_fs w) → G (w <| w_fs := s |>, Err e)) →
  (∀ w' r h, fs_ok (w_fs w') → G (w', r) → G (close_root h w', r)) →
  (∀ s i c, fs_ok s → entries s = entries (w_fs w) → root_at i (root_path p) s →
     root_at c (root_path q) s → G (body i c (w <| w_fs := s |>)) ∧
     fs_ok (w_fs (body i c (w <| w_fs := s |>)).1)) →
  G (with_root p (λ i, with_root q (λ c, body i c)) w).
Proof.
  intros Hok Herr Hclose Hbody. rewrite with_root_run.
  pose proof (fsroot_New_run p (w_fs w) Hok) as Hp. destruct (fsroot_New p (w_fs w)) as [s1 [i|e]].
  2:{ destruct Hp as (?&?&_). by apply Herr. }
  destruct Hp as (Hok1&He1&Hi). destruct (Hi i eq_refl) as (_&Hnext&Hat&_).
  rewrite with_root_run. cbn [w_fs update_field].
  pose proof (fsroot_New_run q s1 Hok1) as Hq. destruct (fsroot_New q s1) as [s2 [c|e]].
  2:{ destruct Hq as (?&?&_). apply Hclose; [done|]. apply Herr; [done|]. congruence. }
  destruct Hq as (Hok2&He2&Hc). destruct (Hc c eq_refl) as (->&_&Hatc&Hother).
  change (w <| w_fs := s1 |> <| w_fs := s2 |>) with (w <| w_fs := s2 |>).
  destruct (Hbody s2 i (next_handle s1)) as [HG Hokb]; [done|congruence| |done|].
  { apply Hother; [lia|done]. }
  destruct (body i (next_handle s1) (w <| w_fs := s2 |>)) as [w' r]. simpl in Hokb.
  apply Hclose; [by apply close_root_ok|by apply Hclose].
Qed.

(** ** [finalize] *)

Lemma published_close overwrite id src rp m h w' r :
  fs_ok (w_fs w') → published overwrite id src rp m (w', r) →
  published overwrite id src rp m (close_root h w', r).
Proof.
  intros Hok [_ H]. destruct (close_root_ok h w' Hok) as [Hok' He].
  split; [done|]. rewrite He. exact H.
Qed.

Lemma published_ok overwrite id src rp m out : published overwrite id src rp m out → fs_ok (w_fs out.1).
Proof. destruct out. by intros []. Qed.

(** The policy [finalize] works with. *)
Definition chosen_policy (conflictPolicy : string) (settingsPolicy : option string) : string :=
  let policy := if bool_decide (conflictPolicy = "") then default "" settingsPolicy
                else conflictPolicy in
  if bool_decide (policy = "") then "rename" else policy.

Lemma finalize_published conflictPolicy settingsPolicy job file rel w :
  fs_ok (w_fs w) →
  published (bool_decide (chosen_policy conflictPolicy settingsPolicy = ConflictOverwrite)) (fID file)
    (root_path (jIncompleteRoot job) ++ components rel) (root_path (jCompleteRoot job))
    (entries (w_fs w)) (finalize conflictPolicy settingsPolicy job file rel w).
Proof.
  intros Hok. unfold finalize. apply two_roots; [done|..].
  - intros s e Hs He. split; [done|]. left. simpl. rewrite He. apply grown_refl.
  - intros w' r h ? ?. by apply published_close.
  - intros s i c Hs He Hi Hc.
    pose proof (finalize_loop_published file rel (chosen_policy conflictPolicy settingsPolicy) i c
      _ _ finalize_attempts (w <| w_fs := s |>) Hs Hi Hc) as Hp.
    change (w_fs (w <| w_fs := s |>)) with s in Hp. rewrite He in Hp.
    split; [exact Hp|]. by eapply published_ok.
Qed.

(** ** Commands that leave disk and database alone *)

Lemma rootDescriptor_next h create n : preserves (λ s, next_handle s = n) (rootDescriptor h create).
Proof.
  unfold rootDescriptor, fs_wrap, k_dup, set_root, openAbsoluteDirectory. repeat first
    [ apply walk_next | apply preserves_get | apply preserves_modify; by intros ? <- | next_step ].
Qed.

Lemma openDirectory_next h relative create n :
  preserves (λ s, next_handle s = n) (openDirectory h relative create).
Proof.
  unfold openDirectory, of_result.
  repeat first [ apply walk_next | apply rootDescriptor_next | next_step ].
Qed.

Lemma Root_Lstat_next h relative n : preserves (λ s, next_handle s = n) (Root_Lstat h relative).
Proof.
  unfold Root_Lstat, of_result, lstatAt, fs_wrap, k_fstatat.
  repeat first [ apply openDirectory_next | next_step ].
Qed.

Lemma Root_OpenFile_next h relative n :
  preserves (λ s, next_handle s = n) (Root_OpenFile h relative false false).
Proof.
  unfold Root_OpenFile, openFile, of_result, fs_wrap, k_open_file.
  repeat first [ apply openDirectory_next | next_step ].
Qed.

Lemma spec_k_open_read fd name : 
  name_ok name → spec (λ _, False) (λ _, True) (k_open_file fd name false false false)
    (λ f _, f = fd ++ [name]).
Proof.
  intros Hn. eapply spec_ext.
  - unfold k_open_file. apply (sys_ext _ (λ s, (s,
      match entries s !! at_path fd name with
      | Some (ESymlink _) => Err (Sentinel ELOOP)
      | Some _ => Ok (at_path fd name)
      | None => Err (Sentinel ENOENT) end))).
    intros s. cbn. by repeat case_match.
  - apply spec_sys_pure. intros s a. rewrite at_path_ok by done. repeat case_match; naive_solver.
Qed.

Lemma spec_Root_OpenFile_read h rp relative :
  spec (λ _, False) (root_at h rp) (Root_OpenFile h relative false false)
    (λ f _, f = rp ++ components relative).
Proof.
  unfold Root_OpenFile. eapply spec_bind with (mid := λ r _, r.1 = rp ++ components relative).
  2:{ intros r. by apply spec_ret. }
  unfold openFile. eapply (rspec_of_result (growing (λ _, False))). intros w Hs.
  case_bool_decide as Hne; [apply spec_throw|].
  destruct (split_sanitized _ _ Hs) as (->&init&name&Hc&Hsp&Hn&_&Hci); [done|].
  rewrite Hsp, Hc, app_assoc. eapply spec_bind.
  { eapply spec_weaken; [|by apply (spec_openDirectory_at h rp)]. by intros p [? _]. }
  intros fd. apply spec_pre. intros ->. apply rspec_drop.
  eapply spec_bind; [by apply spec_catch, spec_k_open_read|]. intros [f|e]; cbn [andb].
  - apply spec_ret. intros s Hf. by apply Hf.
  - apply spec_throw.
Qed.

Section calm.
Context (m : gmap path entry) (d : DB).

Definition calm (roots : list (nat * path)) (w : World) : Prop :=
  fs_ok (w_fs w) ∧ entries (w_fs w) = m ∧ w_db w = d ∧
  Forall (λ r, root_at r.1 r.2 (w_fs w) ∧ (r.1 < next_handle (w_fs w))%nat) roots.

Lemma calm_fs {A} roots h q (c : fs_cmd A) post :
  spec (λ _, False) (root_at h q) c post → (∀ n, preserves (λ s, next_handle s = n) c) →
  (h, q) ∈ roots →
  hoare (calm roots) (on_fs c) (λ a w, (∃ s, entries s = m ∧ post a s) ∧ calm roots w) (calm roots).
Proof.
  intros Hc Hn Hr w (Hok&He&Hd&Hroots). unfold on_fs.
  pose proof (proj1 (Forall_forall _ _) Hroots _ Hr) as [Hat _].
  destruct (Hc (w_fs w) Hok Hat) as (Hok1&[He1 Hh1]&Hpost). specialize (Hn _ (w_fs w) eq_refl).
  destruct (c (w_fs w)) as [s1 r]. simpl in *.
  assert (entries s1 = m) as Hm by (rewrite <- He; apply map_eq; intros p; by destruct (He1 p) as [|[[] _]]).
  assert (calm roots (w <| w_fs := s1 |>)) as Hcalm.
  { split_and!; [done|done|done|]. eapply Forall_impl; [exact Hroots|]. intros [k p] [Hk Hlt].
    simpl in *. unfold root_at. rewrite Hh1, Hn. done. }
  destruct r as [a|e]; [|done]. split; [|done]. exists s1. auto.
Qed.

Lemma calm_catch_fs {A} roots h q (c : fs_cmd A) post (E : World → Prop) :
  spec (λ _, False) (root_at h q) (catch c) post → (∀ n, preserves (λ s, next_handle s = n) c) →
  (h, q) ∈ roots →
  hoare (calm roots) (catch (on_fs c)) (λ r w, (∃ s, entries s = m ∧ post r s) ∧ calm roots w) E.
Proof.
  intros Hc Hn Hr w Hw.
  pose proof (calm_fs roots h q (catch c) post Hc ltac:(intros n; by apply preserves_catch) Hr w Hw) as H.
  unfold on_fs, catch in *. by destruct (c (w_fs w)) as [s1 r].
Qed.

Lemma calm_with_root {A} roots p (body : nat → life A) Q E :
  (∀ w, calm [] w → E w) →
  (∀ h a w, fs_ok (w_fs w) → Q a w → Q a (close_root h w)) →
  (∀ h w, fs_ok (w_fs w) → E w → E (close_root h w)) →
  (∀ w, E w → fs_ok (w_fs w)) → (∀ a w, Q a w → fs_ok (w_fs w)) →
  (∀ h, hoare (calm ((h, root_path p) :: roots)) (body h) Q E) →
  hoare (calm roots) (with_root p body) Q E.
Proof.
  intros HE HQc HEc HEok HQok Hb w Hw. pose proof Hw as (Hok&He&Hd&Hroots). rewrite with_root_run.
  pose proof (fsroot_New_run p (w_fs w) Hok) as Hp.
  destruct (fsroot_New p (w_fs w)) as [s1 [h|e]]; simpl.
  - destruct Hp as (Hok1&He1&Hh). destruct (Hh h eq_refl) as (Hnext&Hnext'&Hat&Hother).
    specialize (Hb h (w <| w_fs := s1 |>)).
    destruct (body h (w <| w_fs := s1 |>)) as [w' r]. simpl in *.
    assert (calm ((h, root_path p) :: roots) (w <| w_fs := s1 |>)) as Hcalm.
    { split_and!; [done|simpl; congruence|done|]. constructor; [simpl; split; [done|lia]|].
      eapply Forall_impl; [exact Hroots|]. intros [k q] [Hk Hlt]. simpl in *.
      split; [apply Hother; [lia|done]|lia]. }
    specialize (Hb Hcalm). destruct r; simpl in *; eauto.
  - destruct Hp as (Hok1&He1&_). apply HE. split_and!; [done|simpl; congruence|done|constructor].
Qed.

Lemma calm_forget roots w : calm roots w → calm [] w.
Proof. intros (?&?&?&_). by split_and!. Qed.

Lemma calm_keep {A} roots (c : life A) :
  (∀ w, fs_ok (w_fs w) → let w' := (c w).1 in w_db w' = w_db w ∧ w_fs w' = w_fs w) →
  hoare (calm roots) c (λ _, calm roots) (calm roots).
Proof.
  intros Hc. apply hoare_inv. intros w (Hok&He&Hd&Hr). destruct (Hc w Hok) as [Hd' Hf'].
  unfold calm. by rewrite Hd', Hf'.
Qed.

(** [Lstat] tells what is there. *)
Lemma calm_lstat roots h q relative head :
  relative ≠ "" → (h, q) ∈ roots →
  hoare (calm roots) (lstat_found h relative head)
    (λ o w, o = m !! (q ++ components relative) ∧ calm roots w) (calm roots).
Proof.
  intros Hne Hr. unfold lstat_found. eapply hoare_bind.
  { eapply calm_catch_fs; [by apply spec_catch_Root_Lstat|apply Root_Lstat_next|done]. }
  intros [info|e]; cbn beta iota.
  - apply hoare_ret. by intros w [(s&<-&[? _]) ?].
  - destruct (errors_is e ErrNotExist); [|apply hoare_throw; by intros w []].
    apply hoare_ret. intros w [(s&<-&[Hs _]) ?]. by rewrite Hs.
Qed.

(** Content that passed the check. *)
Definition intact (E : list Z → list Z → list Z) (key : FileKey) (size : Z) (f : path) : Prop :=
  ∃ c, m !! f = Some (EFile c) ∧ Z.of_nat (length c) = size ∧ VerifyIntegrity E c size key = Some (Ok ()).

Lemma calm_read roots f :
  hoare (calm roots) (on_fs (k_read f)) (λ c w, m !! f = Some (EFile c) ∧ calm roots w) (calm roots).
Proof.
  intros w (Hok&He&Hd&Hr). unfold on_fs, k_read, sys.
  assert (∀ fl, Forall fault_ok fl → calm roots (w <| w_fs := w_fs w <| sys_faults := fl |> |>)) as Hc.
  { intros fl Hfl. destruct Hok as (?&?&?). split_and!; [by split_and!|done|done|done]. }
  pose proof Hok as (_&_&Hfl).
  assert (calm roots (w <| w_fs := w_fs w |>)) as Hw by (by destruct w).
  destruct (sys_faults (w_fs w)) as [|[e|] rest] eqn:Ef; simpl.
  - rewrite He. destruct (m !! f) as [[|c|t]|]; simpl; done.
  - apply Hc. by inversion Hfl.
  - rewrite He. assert (Forall fault_ok rest) by (by inversion Hfl).
    destruct (m !! f) as [[|c|t]|]; simpl; try (split; [done|]); by apply Hc.
Qed.

Lemma calm_close roots f (E' : World → Prop) :
  hoare (calm roots) (catch (on_fs (k_close f))) (λ _, calm roots) E'.
Proof.
  intros w (Hok&He&Hd&Hr). unfold catch, on_fs, k_close, sys.
  assert (∀ fl, Forall fault_ok fl → calm roots (w <| w_fs := w_fs w <| sys_faults := fl |> |>)) as Hc.
  { intros fl Hfl. destruct Hok as (?&?&?). split_and!; [by split_and!|done|done|done]. }
  pose proof Hok as (_&_&Hfl). destruct (sys_faults (w_fs w)) as [|[e|] rest] eqn:Ef; simpl.
  - by destruct w.
  - apply Hc. by inversion Hfl.
  - apply Hc. by inversion Hfl.
Qed.

Lemma calm_ctx roots : hoare (calm roots) ctx_check (λ _, calm roots) (calm roots).
Proof. apply calm_keep. intros w _. unfold ctx_check. by destruct (w_ctx w) as [[[|k] e]|]. Qed.

Lemma calm_verify E roots f size key :
  hoare (calm roots) (VerifyPartialFileContext E f size key)
    (λ _ w, intact E key size f ∧ calm roots w) (calm roots).
Proof.
  unfold VerifyPartialFileContext. destruct (size <? 0); [by apply hoare_throw|].
  eapply hoare_bind; [apply calm_ctx|]. intros [e|]; cbn beta iota; [by apply hoare_throw|].
  eapply hoare_bind; [apply hoare_catch, calm_read|]. intros [c|e]; cbn beta iota; [|by apply hoare_throw].
  apply hoare_pre. intros Hc. destruct (Z.of_nat (length c) =? size) eqn:Hlen; simpl; [|by apply hoare_throw].
  apply Z.eqb_eq in Hlen. eapply hoare_bind; [apply calm_ctx|].
  intros o; cbn beta. destruct o as [ce|]; [by apply hoare_throw|].
  destruct (VerifyIntegrity E c size key) as [[[]|e]|] eqn:Ev.
  - apply hoare_ret. intros w Hw. split; [by exists c|done].
  - eapply hoare_bind; [apply calm_ctx|]. intros [ce|]; by apply hoare_throw.
  - by apply hoare_throw.
Qed.
End calm.

(** ** [recoverMovedFile] *)

Lemma CompleteDownloadFile_ok id target when d d' u :
  CompleteDownloadFile id target when d = (d', Ok u) →
  (λ f, (fState f, fFinalPath f)) <$> files (tables d') !! id = Some ("completed", target).
Proof.
  unfold CompleteDownloadFile. intros H. op_inv.
  match goal with H : update_file_row _ _ _ = Some _ |- _ =>
    apply update_file_row_some in H as (f&Hf&Ht&_); [|done] end.
  use_tables. by rewrite lookup_insert_eq.
Qed.

Section recovery.
Context (E : list Z → list Z → list Z) (gcm : AEAD) (secrets : SecretStore).
Context (job : JobRow) (file : FileRow) (rel : string) (m : gmap path entry) (d : DB).
Let src := root_path (jIncompleteRoot job) ++ components rel.
Let dst := root_path (jCompleteRoot job) ++ components (fFinalPath file).

(** The file is at its destination, and its content matches its key. *)
Definition verified_target : Prop := ∃ raw key,
  SecretStore_Decrypt gcm secrets (fKey file) = Ok raw ∧ decodeFileKeyBytes raw = Ok key ∧
  intact m E key (fSizeBytes file) dst.

Definition recovery_ok (b : bool) (w : World) : Prop :=
  fs_ok (w_fs w) ∧
  if b then verified_target ∧ entries (w_fs w) = delete src m ∧
    (λ f, (fState f, fFinalPath f)) <$> files (tables (w_db w)) !! fID file =
      Some ("completed", fFinalPath file)
  else entries (w_fs w) = m ∧ w_db w = d ∧ is_Some (m !! src).

Definition recovery_err (w : World) : Prop :=
  fs_ok (w_fs w) ∧
  (entries (w_fs w) = m ∨ verified_target ∧ entries (w_fs w) = delete src m).

Lemma calm_err roots w : calm m d roots w → recovery_err w.
Proof. intros (?&?&_). by split; [|left]. Qed.

Lemma recovery_ok_close h b w : fs_ok (w_fs w) → recovery_ok b w → recovery_ok b (close_root h w).
Proof. intros Hok [_ H]. destruct (close_root_ok h w Hok) as [? He]. split; [done|]. by rewrite He. Qed.
Lemma recovery_err_close h w : fs_ok (w_fs w) → recovery_err w → recovery_err (close_root h w).
Proof. intros Hok [_ H]. destruct (close_root_ok h w Hok) as [? He]. split; [done|]. by rewrite He. Qed.

(** The partial link is gone, and nothing else. *)
Definition gone (i : nat) (w : World) : Prop :=
  fs_ok (w_fs w) ∧ entries (w_fs w) = delete src m ∧ root_at i (root_path (jIncompleteRoot job)) (w_fs w).

Lemma hoare_remove_partial roots i (E' : World → Prop) :
  verified_target → (i, root_path (jIncompleteRoot job)) ∈ roots →
  hoare (calm m d roots) (catch (on_fs (Root_Remove i rel)))
    (λ r w, match r with Ok _ => gone i w | Err _ => recovery_err w end) E'.
Proof.
  intros Hv Hr w (Hok&He&_&Hroots).
  pose proof (proj1 (Forall_forall _ _) Hroots _ Hr) as [Hat _].
  destruct (spec_Root_Remove i _ rel (w_fs w) Hok Hat) as (Hok1&[Hs Hh]&Hpost).
  unfold catch, on_fs. destruct (Root_Remove i rel (w_fs w)) as [s1 r]. simpl in *.
  assert (∀ p, p ≠ src → entries s1 !! p = m !! p) as Helse.
  { intros p Hp. rewrite <- He. destruct (Hs p) as [|[<- _]]; done. }
  assert (entries s1 !! src = None → entries s1 = delete src m) as Hdel.
  { intros Hn. apply map_eq. intros p. destruct (decide (p = src)) as [->|Hne].
    - by rewrite lookup_delete_eq.
    - rewrite lookup_delete_ne by done. by apply Helse. }
  destruct r as [u|e].
  - split_and!; [done|by apply Hdel, (Hpost u)|]. unfold root_at. simpl. by rewrite Hh.
  - split; [done|]. destruct (Hs src) as [Hsame|(_&Hnone&_)].
    + left. apply map_eq. intros p. destruct (decide (p = src)) as [->|Hne]; [|by apply Helse].
      simpl. by rewrite Hsame, He.
    + right. split; [done|]. by apply Hdel.
Qed.

Lemma hoare_sync_partial i relative (E' : World → Prop) :
  hoare (gone i) (catch (on_fs (Root_SyncDir i relative))) (λ _, gone i) E'.
Proof.
  intros w (Hok&He&Hat). unfold catch, on_fs.
  destruct (Root_SyncDir i relative (w_fs w)) as [s1 r] eqn:Es.
  apply (SyncDir_run _ (root_path (jIncompleteRoot job))) in Es as (Hok1&He1&Hr); [|done|done].
  simpl. split_and!; [done|simpl; congruence|by apply Hr].
Qed.

Definition cleared_partial (w : World) : Prop := fs_ok (w_fs w) ∧ entries (w_fs w) = delete src m.

Lemma hoare_complete_recovered when (E' : World → Prop) :
  verified_target → (∀ w, cleared_partial w → E' w) →
  hoare cleared_partial (_ ← on_db (CompleteDownloadFile (fID file) (fFinalPath file) when); mret true)
    recovery_ok E'.
Proof.
  intros Hv HE w [Hok He]. rewrite bind_db.
  destruct (CompleteDownloadFile _ _ when (w_db w)) as [d' [u|e]] eqn:Ec; simpl.
  - apply CompleteDownloadFile_ok in Ec. by split_and!.
  - apply HE. by split.
Qed.

Lemma calm_bind {A B} roots (c : life A) (k : A → life B) R Q :
  hoare (calm m d roots) c R (calm m d roots) → (∀ a, hoare (R a) (k a) Q recovery_err) →
  hoare (calm m d roots) (x ← c; k x) Q recovery_err.
Proof.
  intros Hc Hk. eapply hoare_bind; [|exact Hk].
  eapply hoare_conseq; [exact Hc|done|done|]. intros w. apply calm_err.
Qed.

Lemma calm_throw {A} roots e (Q : A → World → Prop) : hoare (calm m d roots) (throw e) Q recovery_err.
Proof. apply hoare_throw, calm_err. Qed.

Lemma calm_result {A B} roots (r : result error A) (k : A → life B) Q :
  (∀ a, r = Ok a → hoare (calm m d roots) (k a) Q recovery_err) →
  hoare (calm m d roots) (x ← life_of_result r; k x) Q recovery_err.
Proof.
  intros Hk. eapply calm_bind; [by apply hoare_of_result|]. intros a. apply hoare_pre, Hk.
Qed.

(** The part after the target has been verified. *)
Lemma hoare_recover_verified roots i (partial : bool) :
  verified_target → (i, root_path (jIncompleteRoot job)) ∈ roots →
  (partial = false → m !! src = None) →
  hoare (calm m d roots) (
    _ ← (if partial then
           rm ← catch (on_fs (Root_Remove i rel));
           match rm with
           | Err e => throw (Wrapf "remove recovered partial link" e)
           | Ok _ =>
             sy ← catch (on_fs (Root_SyncDir i (relativeParent rel)));
             match sy with
             | Err e => throw (Wrapf "sync recovered incomplete directory" e)
             | Ok _ => mret ()
             end
           end
         else mret ());
    now ← m_now;
    _ ← on_db (CompleteDownloadFile (fID file) (fFinalPath file) now);
    mret true) recovery_ok recovery_err.
Proof.
  intros Hv Hi Hp. assert (∀ w, cleared_partial w → recovery_err w) as Hc by (intros w []; by split; [|right]).
  eapply hoare_bind with (R := λ _, cleared_partial).
  - destruct partial.
    + eapply hoare_bind; [by apply (hoare_remove_partial roots)|].
      intros [u|e]; cbn beta iota; [|by apply hoare_throw].
      eapply hoare_bind; [apply hoare_sync_partial|].
      intros [u'|e]; cbn beta iota; [apply hoare_ret|apply hoare_throw].
      * by intros w (?&?&_).
      * intros w (?&?&_). by apply Hc.
    + apply hoare_ret. intros w (Hok&He&_). split; [done|]. rewrite He. symmetry. apply delete_id. auto.
  - intros ?; cbn beta. intros w Hw. rewrite bind_now. by apply (hoare_complete_recovered _ recovery_err Hv Hc w).
Qed.

Lemma hoare_recovery :
  PartialRelativePath (jID job) (fRemotePath file) = Ok rel → rel ≠ "" → fFinalPath file ≠ "" →
  hoare (calm m d []) (recoverMovedFile E gcm secrets job file) recovery_ok recovery_err.
Proof.
  intros Hrel Hne Hfinal. unfold recoverMovedFile.
  apply calm_with_root; [apply calm_err|intros ????; by apply recovery_ok_close|
    intros ???; by apply recovery_err_close|by intros w []|by intros a w []|].
  intros i. apply calm_result. rewrite Hrel. intros ? [= <-].
  eapply calm_bind; [apply calm_lstat; [done|by left]|].
  intros partial. apply hoare_pre. intros Hpartial. fold src in Hpartial. cbv zeta.
  assert (∀ roots, bool_decide (is_Some partial) = true →
    hoare (calm m d roots) (mret false) recovery_ok recovery_err) as Hfalse.
  { intros roots Hb. apply hoare_ret. intros w (?&?&?&_). split_and!; try done.
    apply bool_decide_eq_true in Hb. by rewrite <- Hpartial. }
  apply calm_with_root; [apply calm_err|intros ????; by apply recovery_ok_close|
    intros ???; by apply recovery_err_close|by intros w []|by intros a w []|].
  intros c. set (roots := _ :: _).
  eapply calm_bind; [apply calm_lstat; [done|by left]|].
  intros target. apply hoare_pre. intros Htarget.
  destruct target as [info|].
  2:{ destruct (bool_decide _) eqn:Hb; [by apply Hfalse|apply calm_throw]. }
  destruct (IsSymlink info); [apply calm_throw|].
  apply calm_result. intros raw Hraw. apply calm_result. intros key Hkey.
  assert (SecretStore_Decrypt gcm secrets (fKey file) = Ok raw) as Hdec by (by destruct (SecretStore_Decrypt gcm secrets (fKey file)); simplify_eq).
  eapply hoare_bind.
  { apply (calm_catch_fs m d roots c (root_path (jCompleteRoot job))); [apply spec_catch, spec_Root_OpenFile_read|
      intros n; apply Root_OpenFile_next|by left]. }
  intros [f|e]; cbn beta iota; [|eapply hoare_weaken; [|apply calm_throw]; by intros w []].
  apply hoare_pre. intros (s0&_&Hf). specialize (Hf f eq_refl). fold dst in Hf. subst f.
  eapply hoare_bind; [apply hoare_catch, calm_verify|]. intros [u|e]; cbn beta iota.
  - apply hoare_pre. intros Hint. eapply hoare_bind; [apply calm_close|]. intros [u'|e]; cbn beta iota.
    2:{ intros w Hw. by apply calm_err in Hw. }
    apply (hoare_recover_verified roots i (bool_decide (is_Some partial))).
    + exists raw, key. by split_and!.
    + unfold roots. set_solver.
    + intros Hb%bool_decide_eq_false. rewrite <- Hpartial. by destruct partial; [destruct Hb|].
  - eapply hoare_bind; [apply calm_close|]. intros ?; cbn beta. destruct (bool_decide _) eqn:Hb; [by apply Hfalse|apply calm_throw].
Qed.
End recovery.

Lemma PartialRelativePath_nonempty job remote rel : PartialRelativePath job remote = Ok rel → rel ≠ "".
Proof. intros (init&name&_&Hc&_)%PartialRelativePath_ok ->. done. Qed.

(** ** Samples *)

Definition sample_partial : entry := EFile [1; 2; 3].
Definition sample_verifying : World := sample_world "downloading" "verifying"
  (sample_tree [(["parts"; "job"], EDir); (["parts"; "job"; "song.mp3.mega.part"], sample_partial);
                (["dl"; "song.mp3"], EFile [9])]).
(** A crash between the rename and the database update. *)
Definition sample_crashed : World := sample_world "downloading" "moving"
  (sample_tree [(["parts"; "job"], EDir); (["dl"; "song.mp3"], sample_partial)]).

Lemma sample_tree_ok l : tree_check (entries (sample_tree l)) = true → fs_ok (sample_tree l).
Proof. intros Hl. split_and!; [by apply tree_check_ok|apply map_Forall_empty|constructor]. Qed.

(** ** Properties *)

(** C2: publishing a file never loses its content.  When [finalize]
    succeeds, the partial file's bytes are at the returned path of the
    download root - which held nothing, unless the policy is "overwrite" -
    no longer at the partial path, and the database row is [moving] with
    that path; everything else on the disk is as it was, up to new parent
    directories.  When it fails, either the disk is unchanged up to such
    directories, or the error is [ErrFinalizationPending], the bytes have
    moved and the row says where, which is what recovery needs.  This holds
    for every schedule of system-call and database failures. *)
Theorem finalize_keeps_content conflictPolicy settingsPolicy job file rel w :
  fs_ok (w_fs w) →
  let src := root_path (jIncompleteRoot job) ++ components rel in
  let dst t := root_path (jCompleteRoot job) ++ components t in
  let overwrite := bool_decide (chosen_policy conflictPolicy settingsPolicy = ConflictOverwrite) in
  let m := entries (w_fs w) in
  let (w', r) := finalize conflictPolicy settingsPolicy job file rel w in
  let m' := entries (w_fs w') in
  let moved t := moved_file overwrite src (dst t) m m' ∧ recorded (fID file) t w' in
  fs_ok (w_fs w') ∧
  match r with
  | Ok t => moved t
  | Err e => grown m m' ∨ (errors_is e ErrFinalizationPending = true ∧ ∃ t, moved t)
  end ∧
  ∀ c, m !! src = Some (EFile c) →
    m' !! src = Some (EFile c) ∨ ∃ t, m' !! dst t = Some (EFile c) ∧ recorded (fID file) t w'.
Proof.
  intros Hok. cbv zeta.
  pose proof (finalize_published conflictPolicy settingsPolicy job file rel w Hok) as H.
  destruct (finalize _ _ _ _ _ w) as [w' r]. destruct H as [Hok' H]. split; [done|]. split; [exact H|].
  intros c Hc.
  assert (∀ t, moved_file (bool_decide (chosen_policy conflictPolicy settingsPolicy = ConflictOverwrite))
      (root_path (jIncompleteRoot job) ++ components rel)
      (root_path (jCompleteRoot job) ++ components t) (entries (w_fs w)) (entries (w_fs w')) →
      entries (w_fs w') !! (root_path (jCompleteRoot job) ++ components t) = Some (EFile c)) as Hm.
  { intros t (c'&Hc'&Ht&_). rewrite Hc in Hc'. by simplify_eq. }
  destruct r as [t|e].
  - right. exists t. destruct H as [H1 H2]. split; [by apply Hm|done].
  - destruct H as [Hg|(_&t&H1&H2)].
    + left. destruct (Hg (root_path (jIncompleteRoot job) ++ components rel)) as [->|[? _]]; congruence.
    + right. exists t. split; [by apply Hm|done].
Qed.

Lemma finalize_keeps_content_witness :
  let out := finalize "rename" None (sample_job "downloading") (sample_file "verifying")
               "job/song.mp3.mega.part" sample_verifying in
  out.2 = Ok "song (1).mp3" ∧ entries (w_fs out.1) !! ["dl"; "song (1).mp3"] = Some sample_partial ∧
  entries (w_fs out.1) !! ["dl"; "song.mp3"] = Some (EFile [9]) ∧ recorded "f1" "song (1).mp3" out.1.
Proof.
  cbv zeta.
  pose proof (finalize_keeps_content "rename" None (sample_job "downloading") (sample_file "verifying")
    "job/song.mp3.mega.part" sample_verifying ltac:(apply sample_tree_ok; vm_compute; reflexivity)) as H.
  cbv zeta in H.
  assert ((finalize "rename" None (sample_job "downloading") (sample_file "verifying")
    "job/song.mp3.mega.part" sample_verifying).2 = Ok "song (1).mp3") as Hr by (vm_compute; reflexivity).
  destruct (finalize _ _ _ _ _ _) as [w' r]. simpl in Hr. subst r. simpl.
  destruct H as (_&[(c&Hc&Hto&_&_&Helse) Hrec]&_).
  vm_compute in Hc. injection Hc as <-. split; [reflexivity|]. split; [exact Hto|]. split; [|exact Hrec].
  destruct (Helse ["dl"; "song.mp3"]) as [->|[Hn _]];
    [vm_compute; discriminate|vm_compute; discriminate|vm_compute; reflexivity|].
  vm_compute in Hn. discriminate.
Defined.

(** C6: recovery of a file that was being moved.  It reports the file
    recovered only when the recorded target holds content of the right size
    that passes the integrity check under the file's key; the row is then
    completed with that path and the leftover partial link is gone.  When it
    reports the file not recovered, the partial file is there and nothing
    has changed.  On an error at most the partial link is gone, and only
    after the target was verified: whatever fails, recovery never deletes
    the last copy of the content. *)
Theorem recovery_never_loses E gcm secrets job file rel w :
  fs_ok (w_fs w) → PartialRelativePath (jID job) (fRemotePath file) = Ok rel → fFinalPath file ≠ "" →
  let src := root_path (jIncompleteRoot job) ++ components rel in
  let dst := root_path (jCompleteRoot job) ++ components (fFinalPath file) in
  let m := entries (w_fs w) in
  let verified := ∃ raw key c, SecretStore_Decrypt gcm secrets (fKey file) = Ok raw ∧
    decodeFileKeyBytes raw = Ok key ∧ m !! dst = Some (EFile c) ∧
    Z.of_nat (length c) = fSizeBytes file ∧ VerifyIntegrity E c (fSizeBytes file) key = Some (Ok ()) in
  let (w', r) := recoverMovedFile E gcm secrets job file w in
  let m' := entries (w_fs w') in
  match r with
  | Ok true => verified ∧ m' = delete src m ∧
      (λ f, (fState f, fFinalPath f)) <$> files (tables (w_db w')) !! fID file =
        Some ("completed", fFinalPath file)
  | Ok false => is_Some (m !! src) ∧ m' = m ∧ w_db w' = w_db w
  | Err _ => m' = m ∨ verified ∧ m' = delete src m
  end.
Proof.
  intros Hok Hrel Hfinal. cbv zeta.
  pose proof (hoare_recovery E gcm secrets job file rel (entries (w_fs w)) (w_db w) Hrel
    (PartialRelativePath_nonempty _ _ _ Hrel) Hfinal w) as H.
  assert (verified_target E gcm secrets job file (entries (w_fs w)) →
    ∃ raw key c, SecretStore_Decrypt gcm secrets (fKey file) = Ok raw ∧ decodeFileKeyBytes raw = Ok key ∧
      entries (w_fs w) !! (root_path (jCompleteRoot job) ++ components (fFinalPath file)) = Some (EFile c) ∧
      Z.of_nat (length c) = fSizeBytes file ∧ VerifyIntegrity E c (fSizeBytes file) key = Some (Ok ())) as Hv
    by (intros (raw&key&?&?&c&?&?&?); exists raw, key, c; by split_and!).
  specialize (H ltac:(by split_and!)). destruct (recoverMovedFile _ _ _ _ _ w) as [w' r]. simpl in H.
  destruct r as [[|]|e].
  - destruct H as (_&?&?&?). split_and!; auto.
  - destruct H as (_&?&?&?). by split_and!.
  - destruct H as (_&[?|[? ?]]); [by left|right; auto].
Qed.

Lemma recovery_never_loses_witness :
  let out := recoverMovedFile sample_cipher sample_gcm sample_secrets (sample_job "downloading")
               (sample_file "moving") sample_crashed in
  out.2 = Ok true ∧ entries (w_fs out.1) !! ["dl"; "song.mp3"] = Some sample_partial ∧
  (λ f, (fState f, fFinalPath f)) <$> files (tables (w_db out.1)) !! "f1" = Some ("completed", "song.mp3").
Proof.
  cbv zeta.
  pose proof (recovery_never_loses sample_cipher sample_gcm sample_secrets (sample_job "downloading")
    (sample_file "moving") "job/song.mp3.mega.part" sample_crashed
    ltac:(apply sample_tree_ok; vm_compute; reflexivity) ltac:(vm_compute; reflexivity)
    ltac:(discriminate)) as H. cbv zeta in H.
  assert ((recoverMovedFile sample_cipher sample_gcm sample_secrets (sample_job "downloading")
    (sample_file "moving") sample_crashed).2 = Ok true) as Hr by (vm_compute; reflexivity).
  destruct (recoverMovedFile _ _ _ _ _ _) as [w' r]. simpl in Hr. subst r. simpl.
  destruct H as (_&->&Hrow). split; [reflexivity|]. split; [vm_compute; reflexivity|exact Hrow].
Defined.
