(* ===== verification/QuotaTimers.v ===== *)
(** * Quota retry timers (internal/download/manager.go)

    The timers that resume a job after its transfer quota ran out, as a state
    machine: scheduling, forgetting, firing and the steps of the callback, with
    the shutdown of the manager between any of them.  Every step is one
    critical section of the manager's lock or one step of a callback. *)

From Stdlib Require Import ZArith Lia.
From stdpp Require Import base list gmap sets strings numbers.
From S2P Require Import Prelude.

(** Where a timer is: armed; its callback before the check; inside [ResumeJob];
    before its deferred clean-up; before [finish]; done closed. *)
Inductive phase := Armed | Checking | Resuming | Unwinding | Leaving | Finished.
#[export] Instance phase_eq_dec : EqDecision phase.
Proof. solve_decision. Defined.

Record quotaTimer := mkTimer { qt_job : string; qt_delay : Z; qt_phase : phase }.

(** Shutting down: not asked for; [closed] set and the context cancelled; the
    timers collected that are waited for; returned. *)
Inductive closing := Open | Closing | Waiting (timers : gset nat) | Returned.

(** The timers of a manager that was started.  They are named by the order in
    which they are made: [ts_made] has them all, [ts_current] is
    [m.quotaTimers], [ts_all] is [m.quotaAll] and [ts_cancelled] says that
    [m.ctx] is cancelled. *)
Record Timers := mkTimers {
  ts_made : list quotaTimer;
  ts_current : gmap string nat;
  ts_all : gset nat;
  ts_cancelled : bool;
  ts_closing : closing }.

#[export] Instance quotaTimer_eta : Eta quotaTimer := λ q, mkTimer (qt_job q) (qt_delay q) (qt_phase q).
#[export] Instance Timers_eta : Eta Timers := λ t,
  mkTimers (ts_made t) (ts_current t) (ts_all t) (ts_cancelled t) (ts_closing t).

Definition phase_of (t : Timers) (i : nat) : option phase := qt_phase <$> ts_made t !! i.
Definition set_phase (i : nat) (p : phase) (t : Timers) : Timers :=
  t <| ts_made := alter (λ q, q <| qt_phase := p |>) i (ts_made t) |>.

(** [m.closed || m.ctx == nil || m.ctx.Err() != nil]; the context of a started
    manager is not nil. *)
Definition shut (t : Timers) : bool :=
  ts_cancelled t || match ts_closing t with Open => false | _ => true end.

(** [if timer.timer.Stop() { timer.finish(); delete(m.quotaAll, timer) }]. *)
Definition stop_timer (i : nat) (t : Timers) : Timers :=
  if bool_decide (phase_of t i = Some Armed)
  then set_phase i Finished t <| ts_all := ts_all t ∖ {[i]} |>
  else t.

Definition scheduleQuotaRetry (jobID : string) (delay : Z) (t : Timers) : Timers :=
  let delay := if delay <? 0 then 0 else delay in
  if shut t then t
  else
    let t := match ts_current t !! jobID with Some old => stop_timer old t | None => t end in
    let timer := length (ts_made t) in
    t <| ts_made := ts_made t ++ [mkTimer jobID delay Armed] |>
      <| ts_current := <[jobID := timer]> (ts_current t) |> <| ts_all := {[timer]} ∪ ts_all t |>.

(** The delay of a job found waiting at start-up. *)
Definition schedulePersistedQuotaRetry (jobID : string) (next : option Z) (now : Z) (t : Timers) : Timers :=
  let delay := match next with
               | Some at_ => if at_ - now <? 0 then 0 else at_ - now
               | None => 60 * 1000000000
               end in
  scheduleQuotaRetry jobID delay t.

(** The block at the head of [PauseJob] and [CancelJob] and inside [ResumeJob]. *)
Definition forget_timer (jobID : string) (t : Timers) : Timers :=
  match ts_current t !! jobID with
  | Some timer => let t := stop_timer timer t in t <| ts_current := delete jobID (ts_current t) |>
  | None => t
  end.

(** The deferred clean-up of the callback. *)
Definition cleanup (i : nat) (jobID : string) (t : Timers) : Timers :=
  let t := if bool_decide (ts_current t !! jobID = Some i) then t <| ts_current := delete jobID (ts_current t) |> else t in
  set_phase i Leaving t <| ts_all := ts_all t ∖ {[i]} |>.

(** [CloseContext] up to the first unlock, and its second critical section. *)
Definition close_begin (t : Timers) : Timers :=
  match ts_closing t with Open => t <| ts_closing := Closing |> <| ts_cancelled := true |> | _ => t end.
Definition close_collect (t : Timers) : Timers :=
  set_fold stop_timer t (ts_all t) <| ts_current := ∅ |> <| ts_all := ∅ |> <| ts_closing := Waiting (ts_all t) |>.

(** ** Steps *)

(** What a callback does by itself. *)
Inductive callback_step (t : Timers) : Timers → Prop :=
| StepExpire i : phase_of t i = Some Armed → callback_step t (set_phase i Checking t)
| StepCheck i : phase_of t i = Some Checking → callback_step t (set_phase i (if shut t then Unwinding else Resuming) t)
| StepResumed i : phase_of t i = Some Resuming → callback_step t (set_phase i Unwinding t)
| StepCleanup i q : ts_made t !! i = Some q → qt_phase q = Unwinding → callback_step t (cleanup i (qt_job q) t)
| StepFinish i : phase_of t i = Some Leaving → callback_step t (set_phase i Finished t).

(** All that can happen: jobs entering the quota wait, [PauseJob], [CancelJob]
    and [ResumeJob] (also the one inside a callback) forgetting a timer, the
    context of the program ending, and shutting down. *)
Inductive timer_step (t : Timers) : Timers → Prop :=
| StepCallback t' : callback_step t t' → timer_step t t'
| StepSchedule jobID delay : timer_step t (scheduleQuotaRetry jobID delay t)
| StepForget jobID : timer_step t (forget_timer jobID t)
| StepCancelled : timer_step t (t <| ts_cancelled := true |>)
| StepClose : timer_step t (close_begin t)
| StepCollect : ts_closing t = Closing → timer_step t (close_collect t)
| StepReturn g : ts_closing t = Waiting g → (∀ i, i ∈ g → phase_of t i = Some Finished) →
    timer_step t (t <| ts_closing := Returned |>).

Definition no_timers : Timers := mkTimers [] ∅ ∅ false Open.

(** ** Invariant *)

(** Armed, or its callback has not cleaned up. *)
Definition live (p : phase) : Prop := p ≠ Leaving ∧ p ≠ Finished.
#[export] Instance live_dec p : Decision (live p).
Proof. unfold live. apply _. Defined.

Definition live_at (t : Timers) (i : nat) : Prop := ∃ p, phase_of t i = Some p ∧ live p.

(** Before the timers are collected, the live ones are exactly those of
    [quotaAll]; afterwards none is armed and the live ones are waited for. *)
Definition accounted (t : Timers) : Prop :=
  match ts_closing t with
  | Open | Closing => (∀ i, live_at t i ↔ i ∈ ts_all t)
      ∧ ∀ i q, ts_made t !! i = Some q → qt_phase q = Armed → ts_current t !! qt_job q = Some i
  | Waiting g => (∀ i, live_at t i → i ∈ g ∧ phase_of t i ≠ Some Armed) ∧ (∀ i, i ∈ g → is_Some (ts_made t !! i)) ∧ ts_current t = ∅
  | Returned => (∀ i, ¬ live_at t i) ∧ ts_current t = ∅
  end.

Record timers_ok (t : Timers) : Prop := {
  tk_current : ∀ j i, ts_current t !! j = Some i → live_at t i ∧ qt_job <$> ts_made t !! i = Some j;
  tk_cancelled : ts_closing t ≠ Open → ts_cancelled t = true;
  tk_accounted : accounted t }.

Lemma phase_of_set i p t k : phase_of (set_phase i p t) k = if bool_decide (i = k ∧ is_Some (ts_made t !! i)) then Some p else phase_of t k.
Proof.
  unfold phase_of, set_phase. cbn. destruct (decide (i = k)) as [<-|Hne].
  - rewrite list_lookup_alter_eq. destruct (ts_made t !! i) as [q|] eqn:E.
    + by rewrite bool_decide_eq_true_2 by (split; [done|by eexists]).
    + by rewrite bool_decide_eq_false_2 by (intros [_ [? ?]]; done).
  - rewrite list_lookup_alter_ne by done. by rewrite bool_decide_eq_false_2 by (by intros [? _]).
Qed.

Lemma job_of_set i p t k : qt_job <$> ts_made (set_phase i p t) !! k = qt_job <$> ts_made t !! k.
Proof.
  unfold set_phase. cbn. destruct (decide (i = k)) as [<-|Hne].
  - rewrite list_lookup_alter_eq. by destruct (ts_made t !! i).
  - by rewrite list_lookup_alter_ne.
Qed.

Lemma phase_job t i q : ts_made t !! i = Some q → phase_of t i = Some (qt_phase q).
Proof. unfold phase_of. by intros ->. Qed.

Lemma phase_made t i p : phase_of t i = Some p → is_Some (ts_made t !! i).
Proof. unfold phase_of. destruct (ts_made t !! i); [by eexists|done]. Qed.

Lemma phase_set i p t k : is_Some (ts_made t !! i) → phase_of (set_phase i p t) k = if decide (i = k) then Some p else phase_of t k.
Proof.
  intros Hi. rewrite phase_of_set. destruct (decide (i = k)); [by rewrite bool_decide_eq_true_2|].
  by rewrite bool_decide_eq_false_2 by (by intros [? _]).
Qed.

Lemma made_set i p t k q : ts_made (set_phase i p t) !! k = Some q →
  ∃ q0, ts_made t !! k = Some q0 ∧ qt_job q = qt_job q0 ∧ (i ≠ k → q = q0) ∧ (i = k → qt_phase q = p).
Proof.
  unfold set_phase. cbn. destruct (decide (i = k)) as [<-|Hne].
  - rewrite list_lookup_alter_eq. destruct (ts_made t !! i) as [q0|]; [|done]. intros [= <-]. by exists q0.
  - rewrite list_lookup_alter_ne by done. intros H. by exists q.
Qed.

(** A callback moving on inside its life, or after it, changes nothing else. *)
Lemma ok_moved t i p p' : timers_ok t → phase_of t i = Some p → (live p ↔ live p') → p' ≠ Armed → timers_ok (set_phase i p' t).
Proof.
  intros [Hc Hcan Ha] Hp Hlive Hnew. pose proof (phase_made _ _ _ Hp) as Hi.
  assert (∀ k, live_at (set_phase i p' t) k ↔ live_at t k) as Hl.
  { intros k. unfold live_at. rewrite phase_set by done. destruct (decide (i = k)) as [<-|]; [|done].
    rewrite Hp. split; intros (? & [= <-] & H); eexists; (split; [done|]); by apply Hlive. }
  split; [|exact Hcan|].
  - intros j k Hj. destruct (Hc j k Hj) as [Hk Hq]. rewrite Hl, job_of_set. done.
  - unfold accounted in *. cbn [ts_closing set_phase update_field] in *.
    destruct (ts_closing t) as [| |g|].
    1,2: destruct Ha as [Ha1 Ha2]; split; [intros k; rewrite Hl; apply Ha1|];
      intros k q Hk Harm; apply made_set in Hk as (q0 & Hk & -> & Hne & He);
      destruct (decide (i = k)) as [->|Hd]; [by rewrite (He eq_refl) in Harm|];
      rewrite (Hne Hd) in Harm; by apply Ha2.
    + destruct Ha as (Ha1 & Ha2 & Ha3). split; [|split; [|done]].
      * intros k Hk%Hl. destruct (Ha1 k Hk) as [Hg Hn]. split; [done|]. rewrite phase_set by done.
        destruct (decide (i = k)); [congruence|done].
      * intros k Hk. cbn. destruct (Ha2 k Hk) as [q Hq]. destruct (decide (i = k)) as [<-|Hd].
        -- rewrite list_lookup_alter_eq, Hq. by eexists.
        -- rewrite list_lookup_alter_ne by done. by eexists.
    + destruct Ha as [Ha1 Ha2]. split; [|done]. intros k Hk%Hl. by apply (Ha1 k).
Qed.

Lemma current_waiting t : accounted t → match ts_closing t with Open | Closing => False | _ => True end → ts_current t = ∅.
Proof. unfold accounted. destruct (ts_closing t); try done; [by intros (_ & _ & ?)|by intros [_ ?]]. Qed.

(** Forgetting the timer of a job: stopped if it can be, and not current. *)
Lemma ok_forget t j : timers_ok t → timers_ok (forget_timer j t).
Proof.
  intros Hok. unfold forget_timer. destruct (ts_current t !! j) as [old|] eqn:Hj; [|done].
  destruct Hok as [Hc Hcan Ha]. destruct (Hc j old Hj) as [(p & Hp & Hlive) Hq].
  assert (match ts_closing t with Open | Closing => True | _ => False end) as Hopen.
  { destruct (ts_closing t) eqn:E; try done; exfalso;
      (assert (ts_current t = ∅) as He by (apply current_waiting; [done|by rewrite E])); by rewrite He, lookup_empty in Hj. }
  assert (∀ k, k ≠ old → phase_of (stop_timer old t) k = phase_of t k) as Hother.
  { intros k Hk. unfold stop_timer. case_bool_decide; [|done].
    change (phase_of (set_phase old Finished t) k = phase_of t k). rewrite phase_set by (by eapply phase_made).
    by destruct (decide (old = k)). }
  assert (∀ k, live_at (stop_timer old t) k ↔ live_at t k ∧ (k = old → p ≠ Armed)) as Hl.
  { intros k. destruct (decide (k = old)) as [->|Hk].
    - unfold live_at, stop_timer. case_bool_decide as Harm.
      + change (phase_of _ old) with (phase_of (set_phase old Finished t) old) at 1.
        rewrite phase_set by (by eapply phase_made). rewrite decide_True by done. split; [intros (? & [= <-] & _ & []); done|].
        intros [_ H]. by destruct (H eq_refl); congruence.
      + split; [intros H; split; [done|congruence]|by intros [? _]].
    - unfold live_at. rewrite Hother by done. split; [by intros|by intros [? _]]. }
  assert (ts_closing (stop_timer old t) = ts_closing t ∧ ts_cancelled (stop_timer old t) = ts_cancelled t
    ∧ ts_current (stop_timer old t) = ts_current t) as (E1 & E2 & E3) by (unfold stop_timer; by case_bool_decide).
  assert (∀ k, qt_job <$> ts_made (stop_timer old t) !! k = qt_job <$> ts_made t !! k) as Hjobs.
  { intros k. unfold stop_timer. case_bool_decide; [apply job_of_set|done]. }
  split; cbn.
  - intros j' k [Hne Hk]%lookup_delete_Some. rewrite E3 in Hk. destruct (Hc j' k Hk) as [Hlk Hqk].
    rewrite Hjobs. split; [|done]. apply Hl. split; [done|]. intros ->. congruence.
  - rewrite E1, E2. exact Hcan.
  - assert ((∀ i, live_at t i ↔ i ∈ ts_all t) ∧ ∀ i q, ts_made t !! i = Some q → qt_phase q = Armed → ts_current t !! qt_job q = Some i)
      as [Ha1 Ha2] by (unfold accounted in Ha; by destruct (ts_closing t)).
    assert ((∀ i, live_at (stop_timer old t) i ↔ i ∈ ts_all (stop_timer old t)) ∧ ∀ i q, ts_made (stop_timer old t) !! i = Some q →
      qt_phase q = Armed → delete j (ts_current (stop_timer old t)) !! qt_job q = Some i) as H.
    { split.
      - intros k. rewrite Hl, Ha1. unfold stop_timer. case_bool_decide as Harm; cbn; [set_solver by congruence|].
        split; [by intros [? _]|]. intros H. split; [done|congruence].
      - intros k q Hk Harm. rewrite E3.
        assert (phase_of (stop_timer old t) k = Some Armed) as Hpk by (unfold phase_of; by rewrite Hk, <-Harm).
        destruct (decide (k = old)) as [->|Hne].
        + exfalso. assert (live_at (stop_timer old t) old) as [_ Hp']%Hl by (exists Armed; by split).
          unfold stop_timer in Hpk. case_bool_decide as Hb; [|congruence]. apply (Hp' eq_refl). congruence.
        + rewrite Hother in Hpk by done. unfold phase_of in Hpk. destruct (ts_made t !! k) as [q0|] eqn:Hq0; [|done].
          specialize (Hjobs k). rewrite Hk, Hq0 in Hjobs. injection Hjobs as ->. injection Hpk as Hpk.
          pose proof (Ha2 k q0 Hq0 Hpk) as Hcur. rewrite lookup_delete_ne; [done|]. intros ->. congruence. }
    unfold accounted. cbn. rewrite E1. by destruct (ts_closing t).
Qed.

(** A scheduled timer takes the place of the one it finds. *)
Lemma schedule_forget j delay t : shut t = false →
  scheduleQuotaRetry j delay t =
    let t := forget_timer j t in
    let timer := length (ts_made t) in
    t <| ts_made := ts_made t ++ [mkTimer j (if delay <? 0 then 0 else delay) Armed] |>
      <| ts_current := <[j := timer]> (ts_current t) |> <| ts_all := {[timer]} ∪ ts_all t |>.
Proof.
  intros Hs. unfold scheduleQuotaRetry, forget_timer. rewrite Hs. destruct (ts_current t !! j) as [old|]; [|done].
  cbn. assert (ts_current (stop_timer old t) = ts_current t) as -> by (unfold stop_timer; by case_bool_decide).
  by rewrite insert_delete_eq.
Qed.

Lemma shut_open t : shut t = false → ts_closing t = Open ∧ ts_cancelled t = false.
Proof. unfold shut. destruct (ts_cancelled t), (ts_closing t); done. Qed.

Lemma forget_kept j t : ts_closing (forget_timer j t) = ts_closing t ∧ ts_cancelled (forget_timer j t) = ts_cancelled t
  ∧ ts_current (forget_timer j t) !! j = None.
Proof.
  unfold forget_timer. destruct (ts_current t !! j) as [old|] eqn:Hj; [|done]. cbn.
  split_and!; [unfold stop_timer; by case_bool_decide..|by rewrite lookup_delete_eq].
Qed.

Lemma ok_schedule t j delay : timers_ok t → timers_ok (scheduleQuotaRetry j delay t).
Proof.
  intros Hok. destruct (shut t) eqn:Hs; [unfold scheduleQuotaRetry; by rewrite Hs|]. rewrite schedule_forget by done.
  destruct (shut_open t Hs) as [Hopen Hcan]. destruct (forget_kept j t) as (E1 & E2 & Hnone).
  apply (ok_forget t j) in Hok. cbv zeta. set (t0 := forget_timer j t) in *. rewrite Hopen in E1. rewrite Hcan in E2.
  set (n := length (ts_made t0)). set (q := mkTimer j _ Armed).
  destruct Hok as [Hc _ Ha]. unfold accounted in Ha. rewrite E1 in Ha. destruct Ha as [Ha1 Ha2].
  assert (∀ i x, ts_made t0 !! i = Some x → i ≠ n ∧ (ts_made t0 ++ [q]) !! i = Some x) as Hold.
  { intros i x Hi. split; [apply lookup_lt_Some in Hi; unfold n; lia|by apply lookup_app_l_Some]. }
  assert ((ts_made t0 ++ [q]) !! n = Some q) as Hn by (unfold n; by rewrite lookup_app_r, Nat.sub_diag by lia).
  assert (∀ i x, (ts_made t0 ++ [q]) !! i = Some x → ts_made t0 !! i = Some x ∨ i = n ∧ x = q) as Hsplit.
  { intros i x [Hi|[Hge Hi]]%lookup_app_Some; [by left|right]. apply list_lookup_singleton_Some in Hi as [H0 <-].
    split; [unfold n; lia|done]. }
  split; cbn.
  - intros j' i [[<- <-]|[Hne Hi]]%lookup_insert_Some.
    + unfold live_at, phase_of. cbn. rewrite Hn. split; [exists Armed; by repeat split|done].
    + destruct (Hc j' i Hi) as [(p & Hp & Hl) Hq]. unfold phase_of in Hp. destruct (ts_made t0 !! i) as [x|] eqn:Hx; [|done].
      destruct (Hold i x Hx) as [_ Hx']. unfold live_at, phase_of. cbn. rewrite Hx'. split; [by exists p|done].
  - by rewrite E1.
  - unfold accounted. cbn. rewrite E1. split.
    + intros i. rewrite elem_of_union, elem_of_singleton, <-Ha1. unfold live_at, phase_of. cbn. split.
      * intros (p & Hp & Hl). destruct ((ts_made t0 ++ [q]) !! i) as [x|] eqn:Hx; [|done].
        destruct (Hsplit i x Hx) as [Hi|[-> _]]; [right|by left]. exists p. by rewrite Hi.
      * intros [->|(p & Hp & Hl)]; [exists Armed; rewrite Hn; by repeat split|].
        destruct (ts_made t0 !! i) as [x|] eqn:Hx; [|done]. destruct (Hold i x Hx) as [_ ->]. by exists p.
    + intros i x Hx Harm. destruct (Hsplit i x Hx) as [Hi|[-> ->]]; [|by rewrite lookup_insert_eq].
      pose proof (Ha2 i x Hi Harm) as Hcur. rewrite lookup_insert_ne; [done|]. intros Hj. rewrite <-Hj, Hnone in Hcur. done.
Qed.

(** The clean-up of a callback. *)
Lemma ok_cleanup t i q : timers_ok t → ts_made t !! i = Some q → qt_phase q = Unwinding → timers_ok (cleanup i (qt_job q) t).
Proof.
  intros [Hc Hcan Ha] Hi Hq. unfold cleanup.
  set (t1 := if bool_decide _ then _ else t).
  assert (ts_made t1 = ts_made t ∧ ts_all t1 = ts_all t ∧ ts_closing t1 = ts_closing t ∧ ts_cancelled t1 = ts_cancelled t)
    as (E1 & E2 & E3 & E4) by (unfold t1; by case_bool_decide).
  assert (∀ j k, ts_current t1 !! j = Some k → ts_current t !! j = Some k ∧ k ≠ i) as Hcur.
  { intros j k. unfold t1. case_bool_decide as Hb; cbn.
    - intros [Hne Hk]%lookup_delete_Some. split; [done|]. intros ->. destruct (Hc j i Hk) as [_ Hj]. rewrite Hi in Hj. by injection Hj.
    - intros Hk. split; [done|]. intros ->. destruct (Hc j i Hk) as [_ Hj]. rewrite Hi in Hj. injection Hj as <-. done. }
  assert (∀ k, live_at (set_phase i Leaving t1) k ↔ live_at t k ∧ k ≠ i) as Hl.
  { intros k. unfold live_at. rewrite phase_set by (rewrite E1; by eexists).
    destruct (decide (i = k)) as [<-|Hne].
    - split; [by intros (? & [= <-] & [] & _)|by intros [_ []]].
    - unfold phase_of. rewrite E1. split; [by intros|by intros [? _]]. }
  split; cbn.
  - intros j k Hk. destruct (Hcur j k Hk) as [Hk' Hne]. destruct (Hc j k Hk') as [Hlk Hj].
    rewrite list_lookup_alter_ne, E1 by done. split; [|done]. apply (Hl k). by split.
  - rewrite E3, E4. exact Hcan.
  - assert (∀ k, live_at (set_phase i Leaving t1 <| ts_all := ts_all t1 ∖ {[i]} |>) k ↔ live_at t k ∧ k ≠ i) as Hl' by exact Hl.
    assert (∀ k x, ts_made (set_phase i Leaving t1) !! k = Some x → qt_phase x = Armed →
      ts_made t !! k = Some x ∧ k ≠ i) as Harm.
    { intros k x Hx Hp. apply made_set in Hx as (x0 & Hx & _ & Hne & He). rewrite E1 in Hx.
      destruct (decide (i = k)) as [->|Hd]; [by rewrite (He eq_refl) in Hp|]. rewrite (Hne Hd). by split; [|intros ->]. }
    unfold accounted in *. cbn [ts_closing set_phase update_field ts_all ts_current ts_made] in *. rewrite E3.
    destruct (ts_closing t) as [| |g|] eqn:Ecl.
    1,2: destruct Ha as [Ha1 Ha2]; split; [intros k; rewrite Hl', Ha1, E2; set_solver|];
      intros k x Hx Hp; destruct (Harm k x Hx Hp) as [Hx' Hne]; pose proof (Ha2 k x Hx' Hp) as Hk;
      unfold t1; case_bool_decide; [|done]; cbn; rewrite lookup_delete_ne; [done|]; intros Hj; congruence.
    + destruct Ha as (Ha1 & Ha2 & Ha3). split; [|split].
      * intros k [Hk Hne]%Hl'. destruct (Ha1 k Hk) as [Hg Hn]. split; [done|].
        change (phase_of (set_phase i Leaving t1) k ≠ Some Armed). rewrite phase_set by (rewrite E1; by eexists).
        rewrite decide_False by done. unfold phase_of. by rewrite E1.
      * intros k Hk. cbn. rewrite E1. destruct (Ha2 k Hk) as [x Hx]. destruct (decide (i = k)) as [<-|Hd].
        -- rewrite list_lookup_alter_eq, Hx. by eexists.
        -- rewrite list_lookup_alter_ne by done. by eexists.
      * unfold t1. case_bool_decide; cbn; [|done]. by rewrite Ha3, delete_empty.
    + destruct Ha as [Ha1 Ha2]. split; [intros k [Hk _]%Hl'; by apply (Ha1 k)|].
      unfold t1. case_bool_decide; cbn; [|done]. by rewrite Ha2, delete_empty.
Qed.

Lemma stop_timer_phase i t k :
  phase_of (stop_timer i t) k = if bool_decide (i = k ∧ phase_of t k = Some Armed) then Some Finished else phase_of t k.
Proof.
  unfold stop_timer. case_bool_decide as Ha.
  - change (phase_of (set_phase i Finished t) k = if bool_decide (i = k ∧ phase_of t k = Some Armed) then Some Finished else phase_of t k).
    rewrite phase_set by (by eapply phase_made). destruct (decide (i = k)) as [<-|Hne].
    + by rewrite bool_decide_eq_true_2.
    + by rewrite bool_decide_eq_false_2 by (by intros [? _]).
  - rewrite bool_decide_eq_false_2; [done|]. by intros [-> ?].
Qed.

Lemma stop_timers_phase l t k :
  phase_of (foldr stop_timer t l) k = if bool_decide (k ∈ l ∧ phase_of t k = Some Armed) then Some Finished else phase_of t k.
Proof.
  induction l as [|i l IH]; cbn.
  - rewrite bool_decide_eq_false_2; [done|]. intros [H _]. inversion H.
  - rewrite stop_timer_phase, IH.
    repeat case_bool_decide; rewrite ?elem_of_cons in *; naive_solver.
Qed.

(** Collecting: no timer stays armed, and every live one is waited for. *)
Lemma ok_collect t : timers_ok t → ts_closing t = Closing → timers_ok (close_collect t).
Proof.
  intros [Hc Hcan Ha] Hcl. unfold accounted in Ha. rewrite Hcl in Ha. destruct Ha as [Ha1 Ha2].
  assert (∀ k, phase_of (close_collect t) k
    = if bool_decide (k ∈ elements (ts_all t) ∧ phase_of t k = Some Armed) then Some Finished else phase_of t k) as Hp.
  { intros k. change (phase_of (set_fold stop_timer t (ts_all t)) k
      = if bool_decide (k ∈ elements (ts_all t) ∧ phase_of t k = Some Armed) then Some Finished else phase_of t k).
    apply stop_timers_phase. }
  split.
  - intros j i. cbn. by rewrite lookup_empty.
  - intros _. assert (ts_cancelled t = true) as <- by (apply Hcan; congruence).
    change (ts_cancelled (foldr stop_timer t (elements (ts_all t))) = ts_cancelled t).
    clear Hp. induction (elements (ts_all t)) as [|i l IH]; [done|]. cbn. unfold stop_timer at 1. case_bool_decide; exact IH.
  - unfold accounted. change (ts_closing (close_collect t)) with (Waiting (ts_all t)). cbv iota. split; [|split; [|done]].
    + intros i (p & Hpi & Hl). rewrite Hp in *. case_bool_decide as Hb.
      * injection Hpi as <-. by destruct Hl.
      * assert (live_at t i) as Hli by (by exists p). split; [by apply Ha1|]. rewrite Hpi. intros [= ->]. apply Hb.
        split; [|done]. apply elem_of_elements. by apply Ha1.
    + intros i Hi. destruct (proj2 (Ha1 i) Hi) as (p & Hpi & _). specialize (Hp i). apply (phase_made (close_collect t) i (default Finished (phase_of (close_collect t) i))).
      rewrite Hp. case_bool_decide; [done|by rewrite Hpi].
Qed.

Lemma ok_new : timers_ok no_timers.
Proof.
  split; [by intros j i|done|]. split; cbn.
  - intros i. split; [by intros (p & [=] & _)|set_solver].
  - by intros i q.
Qed.

Lemma timer_step_ok t t' : timer_step t t' → timers_ok t → timers_ok t'.
Proof.
  intros Hstep Hok. destruct Hstep as [t' Hcb|j delay|j| | |Hcl|g Hcl Hdone].
  - destruct Hcb as [i Hp|i Hp|i Hp|i q Hq Hp|i Hp].
    + eapply ok_moved; [done|exact Hp|by split|done].
    + eapply ok_moved; [done|exact Hp| |by destruct (shut t)]. by destruct (shut t); split.
    + eapply ok_moved; [done|exact Hp|by split|done].
    + by eapply ok_cleanup.
    + eapply ok_moved; [done|exact Hp| |done]. split; intros [H1 H2]; done.
  - by apply ok_schedule.
  - by apply ok_forget.
  - destruct Hok as [Hc Hcan Ha]. by split.
  - destruct Hok as [Hc Hcan Ha]. unfold close_begin. destruct (ts_closing t) eqn:E; [|split; try done; by rewrite E..].
    split; [done|done|]. unfold accounted in *. by rewrite E in Ha.
  - by apply ok_collect.
  - destruct Hok as [Hc Hcan Ha]. unfold accounted in Ha. rewrite Hcl in Ha. destruct Ha as (Ha1 & Ha2 & Ha3).
    split; [done|intros _; apply Hcan; congruence|]. split; [|done]. intros i Hli. destruct (Ha1 i Hli) as [Hg _].
    destruct Hli as (p & Hp & Hl). specialize (Hdone i Hg). unfold phase_of in *. cbn in Hp. rewrite Hdone in Hp. injection Hp as <-.
    by destruct Hl.
Qed.

(** ** Shutting down *)

(** How many steps a callback has left once the manager is shut. *)
Definition weight (p : phase) : nat :=
  match p with Armed => 4 | Checking | Resuming => 3 | Unwinding => 2 | Leaving => 1 | Finished => 0 end.
Definition work (l : list quotaTimer) : nat := sum_list_with (λ q, weight (qt_phase q)) l.

Lemma work_alter l i q p : l !! i = Some q → (weight p < weight (qt_phase q))%nat →
  (work (alter (λ q, q <| qt_phase := p |>) i l) < work l)%nat.
Proof.
  revert i. induction l as [|x l IH]; intros [|i]; cbn; [done|done| |].
  - intros [= ->] Hw. unfold work. cbn. lia.
  - intros Hi Hw. specialize (IH i Hi Hw). unfold work in *. cbn. lia.
Qed.

Lemma work_set t i p p' : phase_of t i = Some p → (weight p' < weight p)%nat → (work (ts_made (set_phase i p' t)) < work (ts_made t))%nat.
Proof.
  unfold phase_of. destruct (ts_made t !! i) as [q|] eqn:Hi; [|done]. intros [= <-] Hw. by eapply work_alter.
Qed.

Lemma callback_work t t' : callback_step t t' → shut t = true →
  (work (ts_made t') < work (ts_made t))%nat ∧ ts_closing t' = ts_closing t ∧ ts_cancelled t' = ts_cancelled t.
Proof.
  intros Hstep Hs. destruct Hstep as [i Hp|i Hp|i Hp|i q Hq Hp|i Hp].
  1,2,3,5: split; [eapply work_set; [exact Hp|rewrite ?Hs; cbn; lia]|done].
  unfold cleanup. set (t1 := if bool_decide _ then _ else t).
  assert (ts_made t1 = ts_made t ∧ ts_closing t1 = ts_closing t ∧ ts_cancelled t1 = ts_cancelled t) as (E1 & E2 & E3)
    by (unfold t1; by case_bool_decide).
  split; [|done]. cbn. rewrite E1. eapply work_alter; [exact Hq|rewrite Hp; cbn; lia].
Qed.

Lemma callbacks_bounded n t t' : nsteps callback_step n t t' → shut t = true →
  (n + work (ts_made t') ≤ work (ts_made t))%nat ∧ ts_closing t' = ts_closing t ∧ shut t' = true.
Proof.
  induction 1 as [t|n t t1 t2 Hstep _ IH]; intros Hs; [by split_and!|].
  destruct (callback_work t t1 Hstep Hs) as (Hw & E1 & E2).
  assert (shut t1 = true) as Hs1 by (unfold shut in *; by rewrite E1, E2). destruct (IH Hs1) as (Hn & E3 & Hs2).
  split; [lia|]. split; [congruence|done].
Qed.

Lemma work_bound l : (work l ≤ 4 * length l)%nat.
Proof. induction l as [|q l IH]; [done|]. unfold work in *. cbn. destruct (qt_phase q); cbn; lia. Qed.

(** A callback that is not finished can go on. *)
Lemma callback_enabled t i p : phase_of t i = Some p → p ≠ Finished → ∃ t', callback_step t t'.
Proof.
  intros Hp Hne. destruct p; [eexists; by eapply StepExpire|eexists; by eapply StepCheck|eexists; by eapply StepResumed| |
    eexists; by eapply StepFinish|done].
  unfold phase_of in Hp. destruct (ts_made t !! i) as [q|] eqn:Hq; [|done]. injection Hp as Hp. eexists. by eapply StepCleanup.
Qed.

Lemma callbacks_made n t t' i : nsteps callback_step n t t' → is_Some (ts_made t !! i) → is_Some (ts_made t' !! i).
Proof.
  assert (∀ (k : nat) p (l : list quotaTimer), is_Some (l !! i) → is_Some (alter (λ q, q <| qt_phase := p |>) k l !! i)) as Halter.
  { intros k p l [q Hq]. destruct (decide (k = i)) as [->|Hne]; [rewrite list_lookup_alter_eq, Hq|rewrite list_lookup_alter_ne, Hq by done];
      by eexists. }
  induction 1 as [t|n t t1 t2 Hstep _ IH]; [done|]. intros Hi. apply IH. destruct Hstep; try (by apply Halter).
  unfold cleanup. cbn. apply Halter. by case_bool_decide.
Qed.

Lemma no_new_resume n t t' i : nsteps callback_step n t t' → shut t = true →
  phase_of t' i = Some Resuming → phase_of t i = Some Resuming.
Proof.
  induction 1 as [t|n t t1 t2 Hstep _ IH]; [done|]. intros Hs Hi.
  destruct (callback_work t t1 Hstep Hs) as (_ & E1 & E2).
  assert (phase_of t1 i = Some Resuming) as H1 by (apply IH; [unfold shut in *; by rewrite E1, E2|done]).
  destruct Hstep as [k Hp|k Hp|k Hp|k q Hq Hp|k Hp].
  1,2,3,5: rewrite phase_set in H1 by (by eapply phase_made); rewrite ?Hs in H1; by destruct (decide (k = i)).
  unfold cleanup in H1. set (t1' := if bool_decide _ then _ else t) in H1.
  assert (ts_made t1' = ts_made t) as E by (unfold t1'; by case_bool_decide).
  change (phase_of (set_phase k Leaving t1') i = Some Resuming) in H1.
  rewrite phase_set in H1 by (rewrite E; by eexists). destruct (decide (k = i)); [done|]. unfold phase_of in *. by rewrite <-E.
Qed.

(** C17: However schedules, pauses, cancellations, firings and the shutdown are
    interleaved, a job has at most one armed timer; once the manager is shut no
    callback enters [ResumeJob]; while [CloseContext] waits, the callbacks have
    at most four steps each left, whatever order they run in, and when none of
    them can go on it returns; and when it has returned no timer is armed and no
    callback can still resume a job. *)
Theorem close_stops_retries t (Hrun : rtc timer_step no_timers t) :
  (∀ i k q q', ts_made t !! i = Some q → ts_made t !! k = Some q' → qt_phase q = Armed → qt_phase q' = Armed →
     qt_job q = qt_job q' → i = k)
  ∧ (∀ g, ts_closing t = Waiting g → ∀ n t', nsteps callback_step n t t' →
       (n ≤ 4 * length (ts_made t))%nat ∧ (∀ i, phase_of t' i = Some Resuming → phase_of t i = Some Resuming)
       ∧ ((∀ t2, ¬ callback_step t' t2) → timer_step t' (t' <| ts_closing := Returned |>)))
  ∧ (ts_closing t = Returned → ∀ i p, phase_of t i = Some p → p = Leaving ∨ p = Finished).
Proof.
  assert (timers_ok t) as [Hc Hcan Ha] by (eapply (rtc_invariant timer_step timers_ok); [apply timer_step_ok|exact Hrun|apply ok_new]).
  split; [|split].
  - intros i k q q' Hq Hq' Harm Harm' Hj.
    assert (∀ i q, ts_made t !! i = Some q → qt_phase q = Armed → live_at t i) as Hl.
    { intros i' q0 H0 H1. exists Armed. split; [unfold phase_of; by rewrite H0, <-H1|by split]. }
    unfold accounted in Ha. destruct (ts_closing t) as [| |g|].
    1,2: destruct Ha as [_ Ha]; pose proof (Ha i q Hq Harm); pose proof (Ha k q' Hq' Harm'); congruence.
    + destruct Ha as (Ha & _). destruct (Ha i (Hl i q Hq Harm)) as [_ []]. by rewrite (phase_job _ _ _ Hq), Harm.
    + destruct Ha as [Ha _]. by destruct (Ha i (Hl i q Hq Harm)).
  - intros g Hg n t' Hn.
    assert (shut t = true) as Hs by (unfold shut; by rewrite Hcan by congruence).
    destruct (callbacks_bounded n t t' Hn Hs) as (Hw & E1 & Hs'). pose proof (work_bound (ts_made t)) as Hb.
    split; [lia|]. split; [intros i; by eapply no_new_resume|]. intros Hstuck. eapply StepReturn; [by rewrite E1|].
    unfold accounted in Ha. rewrite Hg in Ha. destruct Ha as (_ & Hmade & _). intros i Hi.
    destruct (Hmade i Hi) as [q Hq].
    assert (is_Some (ts_made t' !! i)) as [q' Hq'] by (eapply callbacks_made; [exact Hn|by eexists]).
    destruct (decide (qt_phase q' = Finished)) as [<-|Hne]; [by apply phase_job|].
    destruct (callback_enabled t' i (qt_phase q')) as [t2 Ht2]; [by apply phase_job|done|by destruct (Hstuck t2)].
  - intros Hret i p Hp. unfold accounted in Ha. rewrite Hret in Ha. destruct Ha as [Ha _].
    destruct p; try (exfalso; apply (Ha i); eexists; split; [exact Hp|by split]); by auto.
Qed.

(** A job whose quota timer has fired is resumed although it is paused in the
    meantime: [PauseJob] cannot stop the timer any more, and the callback goes
    on after it. *)
Example pause_overtaken : ∃ t,
  rtc timer_step no_timers t
  ∧ phase_of t 0 = Some Resuming ∧ ts_current t !! "j1" = None
  ∧ qt_job <$> ts_made t !! 0%nat = Some "j1".
Proof.
  exists (forget_timer "j1" (set_phase 0 Resuming (set_phase 0 Checking (scheduleQuotaRetry "j1" 5 no_timers)))).
  split; [|vm_compute; by split_and!].
  eapply rtc_l; [apply (StepSchedule _ "j1" 5)|]. eapply rtc_l; [apply StepCallback, (StepExpire _ 0); reflexivity|].
  eapply rtc_l; [apply StepCallback, (StepCheck _ 0); reflexivity|]. apply rtc_once, StepForget.
Qed.

Lemma close_stops_retries_witness :
  let t := close_begin (set_phase 0 Checking (scheduleQuotaRetry "j1" 5 no_timers)) in
  let t := close_collect t in
  ts_closing t = Waiting {[0%nat]}
  ∧ ∀ n t', nsteps callback_step n t t' → (n ≤ 4)%nat ∧ (∀ i, phase_of t' i = Some Resuming → phase_of t i = Some Resuming).
Proof.
  cbv zeta. set (t := close_collect _).
  assert (ts_closing t = Waiting {[0%nat]}) as Hcl by reflexivity.
  split; [exact Hcl|]. intros n t' Hn.
  assert (rtc timer_step no_timers t) as Hrun.
  { eapply rtc_l; [apply (StepSchedule _ "j1" 5)|]. eapply rtc_l; [apply StepCallback, (StepExpire _ 0); reflexivity|].
    eapply rtc_l; [apply StepClose|]. apply rtc_once, StepCollect. reflexivity. }
  destruct (close_stops_retries t Hrun) as (_ & H & _). destruct (H _ Hcl n t' Hn) as (Hb & Hr & _).
  split; [exact Hb|exact Hr].
Defined.
