(* ===== verification/Events.v ===== *)
(** * Event delivery (internal/events)

    The coalescer that keeps the latest value per job, the subscribers with
    their bounded queues, and the bus that fans events out.  The values of an
    event's data are of an arbitrary type. *)

From Stdlib Require Import ZArith Lia.
From stdpp Require Import base list gmap strings numbers pretty.
From S2P Require Import Prelude GoStrings GoErrors.

(** ** Events *)

Definition JobUpdated : string := "job.updated".
Definition FileUpdated : string := "file.updated".
Definition SpeedUpdated : string := "speed.updated".
Definition QueueUpdated : string := "queue.updated".
Definition AccountUpdated : string := "account.updated".
Definition SettingsUpdated : string := "settings.updated".

Definition defaultPendingEvents : Z := 128.
Definition maxEventsPerSecond : Z := 4.
Definition coalesceInterval : Z := Second `quot` maxEventsPerSecond.
Definition defaultSubscriberQueue : nat := 4.
Definition maxBlockedFlushes : Z := 4.

Section events.
Context {any : Type}.

Record Event := mkEvent {
  Name : string;
  JobID : string;
  FileID : string;
  Timestamp : Z;
  Data : gmap string any }.

#[global] Instance Event_eta : Eta Event := λ e,
  mkEvent (Name e) (JobID e) (FileID e) (Timestamp e) (Data e).

(** The zero value a map lookup gives for a missing key. *)
Definition zero_event : Event := mkEvent "" "" "" 0 ∅.

Definition isCoalescible (event : Event) : bool :=
  bool_decide (Name event ∈ [JobUpdated; FileUpdated; SpeedUpdated; QueueUpdated])
  && (bool_decide (JobID event ≠ "") || bool_decide (FileID event ≠ "")).

Definition eventKey (event : Event) : string :=
  if isCoalescible event && bool_decide (JobID event ≠ "") then "job:" +:+ JobID event
  else if isCoalescible event && bool_decide (FileID event ≠ "") then "file:" +:+ FileID event
  else Name event +:+ ":" +:+ JobID event +:+ ":" +:+ FileID event.

Definition merge (previous latest : Event) : Event :=
  let merged := latest in
  let merged := if Timestamp merged <? Timestamp previous
                then merged <| Timestamp := Timestamp previous |> else merged in
  let merged := if bool_decide (Data previous = ∅) && bool_decide (Data latest = ∅) then merged
                else merged <| Data := Data latest ∪ Data previous |> in
  let merged := if bool_decide (JobID merged = "") then merged <| JobID := JobID previous |> else merged in
  if bool_decide (FileID merged = "") then merged <| FileID := FileID previous |> else merged.

(** ** The coalescer (coalesce.go)

    [pending] is the Go map, [order] the slice of its keys in arrival order. *)

Record Coalescer := mkCoalescer {
  maxPending : Z;
  pending : gmap string Event;
  order : list string }.

#[global] Instance Coalescer_eta : Eta Coalescer := λ c,
  mkCoalescer (maxPending c) (pending c) (order c).

Definition NewCoalescer (max : Z) : Coalescer :=
  let max := if max <? 1 then defaultPendingEvents else max in
  mkCoalescer max ∅ [].

Definition pending_event (c : Coalescer) (key : string) : Event :=
  default zero_event (pending c !! key).

(** The loop that drops the oldest replaceable item and stops there. *)
Fixpoint drop_oldest (todo : list string) (index : nat) (c : Coalescer) : Coalescer :=
  match todo with
  | [] => c
  | oldest :: todo =>
      if isCoalescible (pending_event c oldest)
      then c <| pending := delete oldest (pending c) |>
             <| order := take index (order c) ++ drop (S index) (order c) |>
      else drop_oldest todo (S index) c
  end.

Definition Coalescer_Add (c : Coalescer) (event : Event) : Coalescer * bool :=
  if bool_decide (Name event = "") then (c, false)
  else
    let key := eventKey event in
    match pending c !! key with
    | Some previous => (c <| pending := <[key := merge previous event]> (pending c) |>, true)
    | None =>
        let insert_new c :=
          (c <| pending := <[key := event]> (pending c) |> <| order := order c ++ [key] |>, true) in
        if maxPending c <=? Z.of_nat (size (pending c)) then
          if negb (isCoalescible event) then (c, false)
          else
            let c := drop_oldest (order c) 0 c in
            if maxPending c <=? Z.of_nat (size (pending c)) then (c, false) else insert_new c
        else insert_new c
    end.

Definition Coalescer_Flush (c : Coalescer) : Coalescer * list Event :=
  if bool_decide (size (pending c) = 0%nat) then (c, [])
  else (c <| pending := ∅ |> <| order := [] |>, omap (λ key, pending c !! key) (order c)).

Fixpoint add_all (es : list Event) (c : Coalescer) : Coalescer * list bool :=
  match es with
  | [] => (c, [])
  | e :: es => let '(c, ok) := Coalescer_Add c e in
               let '(c, oks) := add_all es c in (c, ok :: oks)
  end.

(** ** What a coalescer promises

    A queue of groups: the events accepted under one key since the last flush,
    in the order they came.  A flush delivers one event per group, the merge of
    the group. *)

Record group := mkGroup { g_key : string; g_first : Event; g_rest : list Event }.

Definition merged (g : group) : Event := foldl merge (g_first g) (g_rest g).

(** The groups before and after the oldest replaceable one. *)
Fixpoint spec_drop (l : list group) : list group :=
  match l with
  | [] => []
  | g :: l => if isCoalescible (merged g) then l else g :: spec_drop l
  end.

Definition has_key (key : string) (g : group) : Prop := g_key g = key.
#[global] Instance has_key_dec key g : Decision (has_key key g) := decide (g_key g = key).

Definition append_to (e : Event) (g : group) : group :=
  if decide (has_key (eventKey e) g) then mkGroup (g_key g) (g_first g) (g_rest g ++ [e]) else g.

Definition spec_add (max : nat) (e : Event) (l : list group) : list group * bool :=
  if decide (Name e = "") then (l, false)
  else if decide (Exists (has_key (eventKey e)) l) then (append_to e <$> l, true)
  else if decide (length l < max)%nat then (l ++ [mkGroup (eventKey e) e []], true)
  else if isCoalescible e && bool_decide (length (spec_drop l) < max)%nat
  then (spec_drop l ++ [mkGroup (eventKey e) e []], true)
  else (l, false).

Fixpoint spec_add_all (max : nat) (es : list Event) (l : list group) : list group * list bool :=
  match es with
  | [] => (l, [])
  | e :: es => let '(l, ok) := spec_add max e l in
               let '(l, oks) := spec_add_all max es l in (l, ok :: oks)
  end.

Definition represents (c : Coalescer) (l : list group) : Prop :=
  NoDup (g_key <$> l) ∧ order c = g_key <$> l
  ∧ pending c = list_to_map ((λ g, (g_key g, merged g)) <$> l)
  ∧ (0 < maxPending c) ∧ Z.of_nat (length l) ≤ maxPending c.

(** ** The coalescer keeps its promise *)

Lemma represents_new max : represents (NewCoalescer max) [].
Proof.
  unfold NewCoalescer, represents; cbn. split_and!; try done; [constructor|..];
    case_match; unfold defaultPendingEvents; lia.
Qed.

Lemma pair_keys (l : list group) : ((λ g, (g_key g, merged g)) <$> l).*1 = g_key <$> l.
Proof. by rewrite <-list_fmap_compose. Qed.

Lemma represents_lookup c l key ev : represents c l →
  pending c !! key = Some ev ↔ ∃ g, g ∈ l ∧ g_key g = key ∧ merged g = ev.
Proof.
  intros (Hnd & _ & -> & _). rewrite <-elem_of_list_to_map.
  - rewrite list_elem_of_fmap. naive_solver.
  - by rewrite pair_keys.
Qed.

Lemma represents_size c l : represents c l → size (pending c) = length l.
Proof.
  intros (Hnd & _ & -> & _). rewrite map_size_list_to_map, length_fmap; [done|].
  by rewrite pair_keys.
Qed.

Lemma represents_fresh c l key : represents c l → pending c !! key = None ↔ ¬ Exists (has_key key) l.
Proof.
  intros H. rewrite eq_None_not_Some, Exists_exists. split; intros Hn Hx; apply Hn.
  - destruct Hx as (g & Hg & Hk). exists (merged g). by apply (represents_lookup _ _ _ _ H); eauto.
  - destruct Hx as [ev Hev]. apply (represents_lookup _ _ _ _ H) in Hev.
    destruct Hev as (g & ? & ? & ?). by exists g.
Qed.

Lemma represents_snoc c l key e : represents c l →
  pending c !! key = None → Z.of_nat (length l) < maxPending c →
  represents (c <| pending := <[key := e]> (pending c) |> <| order := order c ++ [key] |>)
             (l ++ [mkGroup key e []]).
Proof.
  intros H Hnone Hroom. pose proof H as (Hnd & Hord & Hpend & Hpos & Hlen).
  assert (Hfresh : key ∉ g_key <$> l).
  { apply (represents_fresh _ _ _ H) in Hnone. contradict Hnone.
    apply list_elem_of_fmap in Hnone as (g & -> & Hg). apply Exists_exists. by exists g. }
  split_and!; cbn; rewrite ?fmap_app, ?length_app; cbn; try lia.
  - apply NoDup_app. split_and!; [done| |apply NoDup_singleton]. intros k Hk ->%list_elem_of_singleton. done.
  - by rewrite Hord.
  - rewrite list_to_map_snoc, Hpend; [done|]. by rewrite pair_keys.
Qed.

Lemma merged_append e g : has_key (eventKey e) g → merged (append_to e g) = merge (merged g) e.
Proof.
  intros H. unfold append_to, merged. rewrite decide_True by done. cbn. by rewrite foldl_snoc.
Qed.

Lemma append_to_key e g : g_key (append_to e g) = g_key g.
Proof. unfold append_to. by case_decide. Qed.

Lemma represents_append c l e previous : represents c l →
  pending c !! eventKey e = Some previous →
  represents (c <| pending := <[eventKey e := merge previous e]> (pending c) |>) (append_to e <$> l).
Proof.
  intros H Hp. pose proof H as (Hnd & Hord & Hpend & Hpos & Hlen).
  assert (Hkeys : g_key <$> (append_to e <$> l) = g_key <$> l).
  { rewrite <-list_fmap_compose. apply list_fmap_ext. intros; apply append_to_key. }
  split_and!; cbn; rewrite ?Hkeys, ?length_fmap; try done.
  apply map_eq. intros k. apply option_eq. intros ev.
  rewrite <-elem_of_list_to_map by (by rewrite pair_keys, Hkeys).
  rewrite lookup_insert_Some, (represents_lookup _ _ _ _ H).
  rewrite <-list_fmap_compose, list_elem_of_fmap. cbn.
  split.
  - intros [[<- <-]|[Hk (g & Hg & <- & <-)]].
    + apply (represents_lookup _ _ _ _ H) in Hp as (g & Hg & Hkg & <-).
      exists g. by rewrite append_to_key, merged_append, Hkg.
    + exists g. split; [|done]. unfold append_to. by rewrite decide_False by (unfold has_key; done).
  - intros (g & [= -> ->] & Hg). rewrite append_to_key.
    destruct (decide (eventKey e = g_key g)) as [Hk|Hk].
    + left. split; [done|]. rewrite merged_append by done. f_equal.
      assert (pending c !! eventKey e = Some (merged g)) as Heq by (apply (represents_lookup _ _ _ _ H); eauto).
      congruence.
    + right. split; [done|]. exists g. unfold append_to. by rewrite decide_False by (unfold has_key; done).
Qed.

Lemma represents_without c l1 g l2 : represents c (l1 ++ g :: l2) →
  represents (c <| pending := delete (g_key g) (pending c) |>
                <| order := take (length l1) (order c) ++ drop (S (length l1)) (order c) |>) (l1 ++ l2).
Proof.
  intros (Hnd & Hord & Hpend & Hpos & Hlen). rewrite fmap_app in Hnd, Hord. cbn in *.
  rewrite Hord. replace (length l1) with (length (g_key <$> l1)) by apply length_fmap.
  rewrite take_app_length, drop_app_ge by lia.
  replace (S (length (g_key <$> l1)) - length (g_key <$> l1))%nat with 1%nat by lia. cbn.
  apply NoDup_app in Hnd as (H1 & Hdis & H2). apply NoDup_cons in H2 as [Hg H2].
  rewrite length_app in *. cbn in *.
  split_and!; cbn; rewrite ?fmap_app, ?length_app; try done; try lia.
  - apply NoDup_app. split_and!; [done| |done]. intros k Hk Hk2. apply (Hdis k Hk). by right.
  - rewrite Hpend, !fmap_app, !list_to_map_app. cbn. rewrite delete_union, delete_insert_eq.
    rewrite !delete_id; [done|..]; apply not_elem_of_list_to_map_1; rewrite pair_keys.
    + done.
    + intros Hin. apply (Hdis _ Hin). by left.
Qed.

Lemma drop_oldest_represents l1 l2 c : represents c (l1 ++ l2) →
  represents (drop_oldest (g_key <$> l2) (length l1) c) (l1 ++ spec_drop l2).
Proof.
  revert l1 c. induction l2 as [|g l2 IH]; intros l1 c H; [done|]. cbn.
  assert (pending_event c (g_key g) = merged g) as ->.
  { unfold pending_event. rewrite (proj2 (represents_lookup c _ (g_key g) (merged g) H)); [done|].
    exists g. set_solver. }
  destruct (isCoalescible (merged g)); [by apply represents_without|].
  specialize (IH (l1 ++ [g]) c). rewrite <-!app_assoc in IH.
  rewrite length_app, Nat.add_comm in IH. by apply IH.
Qed.
Lemma spec_drop_length l : (length (spec_drop l) ≤ length l)%nat.
Proof. induction l as [|g l IH]; cbn; [lia|]. case_match; cbn; lia. Qed.

Lemma elem_of_spec_drop g l : g ∈ spec_drop l → g ∈ l.
Proof. induction l as [|g' l IH]; cbn; [done|]. case_match; set_solver. Qed.

Lemma drop_oldest_frame l index c : maxPending (drop_oldest l index c) = maxPending c.
Proof. revert index. induction l as [|k l IH]; intros index; cbn; [done|]. by case_match. Qed.

Lemma spec_drop_fresh c l key : represents c l → pending c !! key = None →
  represents (drop_oldest (order c) 0 c) (spec_drop l) →
  pending (drop_oldest (order c) 0 c) !! key = None.
Proof.
  intros H Hnone H'. apply (represents_fresh _ _ _ H').
  apply (represents_fresh _ _ _ H) in Hnone. contradict Hnone.
  apply Exists_exists in Hnone as (g & Hg & Hk). apply Exists_exists. exists g.
  split; [by apply elem_of_spec_drop|done].
Qed.

Lemma Coalescer_Add_refines c l e : represents c l →
  represents (Coalescer_Add c e).1 (spec_add (Z.to_nat (maxPending c)) e l).1
  ∧ (Coalescer_Add c e).2 = (spec_add (Z.to_nat (maxPending c)) e l).2
  ∧ maxPending (Coalescer_Add c e).1 = maxPending c.
Proof.
  intros H. unfold Coalescer_Add, spec_add. rewrite (represents_size _ _ H).
  case_bool_decide as Hn; [by rewrite decide_True|]. rewrite (decide_False (P:=Name e = "")) by done.
  destruct (pending c !! eventKey e) as [previous|] eqn:Hp.
  { rewrite decide_True; [by split; [apply represents_append|]|].
    destruct (decide (Exists (has_key (eventKey e)) l)) as [|Hx]; [done|].
    apply (represents_fresh _ _ _ H) in Hx. congruence. }
  rewrite decide_False by (by apply (represents_fresh _ _ _ H)).
  pose proof H as (_ & Hord & _ & Hpos & Hlen).
  case_match eqn:Hfull; [apply Z.leb_le in Hfull|apply Z.leb_gt in Hfull].
  2: { rewrite decide_True by lia. split; [by apply represents_snoc|done]. }
  rewrite decide_False by lia. destruct (isCoalescible e); cbn; [|done].
  assert (represents (drop_oldest (order c) 0 c) (spec_drop l)) as Hd.
  { rewrite Hord. by apply (drop_oldest_represents [] l c). }
  rewrite (represents_size _ _ Hd), drop_oldest_frame.
  case_match eqn:Hstill; [apply Z.leb_le in Hstill|apply Z.leb_gt in Hstill].
  - rewrite bool_decide_eq_false_2 by lia. cbn. pose proof (spec_drop_length l).
    split; [|by rewrite drop_oldest_frame].
    replace l with (spec_drop l) at 1; [done|].
    clear -Hstill Hlen. assert (length (spec_drop l) = length l) as Heq.
    { pose proof (spec_drop_length l). lia. }
    clear Hstill Hlen. induction l as [|g l IH]; [done|]. cbn in *. case_match; cbn in *.
    + exfalso. lia.
    + f_equal. apply IH. lia.
  - rewrite bool_decide_eq_true_2 by lia. cbn. rewrite drop_oldest_frame.
    split; [|done]. apply represents_snoc; rewrite ?drop_oldest_frame; try done.
    by apply (spec_drop_fresh _ l).
Qed.

Lemma Coalescer_Flush_refines c l : represents c l →
  represents (Coalescer_Flush c).1 [] ∧ (Coalescer_Flush c).2 = merged <$> l
  ∧ maxPending (Coalescer_Flush c).1 = maxPending c.
Proof.
  intros H. unfold Coalescer_Flush. rewrite (represents_size _ _ H).
  pose proof H as (Hnd & Hord & Hpend & Hpos & Hlen). case_bool_decide as H0.
  { destruct l; [|done]. done. }
  cbn. split_and!; [split_and!; cbn; try done; [constructor|lia]| |done].
  rewrite Hord. assert (∀ g, g ∈ l → pending c !! g_key g = Some (merged g)) as Hl.
  { intros g Hg. apply (represents_lookup _ _ _ _ H). by exists g. }
  clear -Hl. induction l as [|g l IH]; [done|]. cbn.
  rewrite Hl by (by left). f_equal. apply IH. intros g' ?. apply Hl. by right.
Qed.

Lemma add_all_refines es c l : represents c l →
  represents (add_all es c).1 (spec_add_all (Z.to_nat (maxPending c)) es l).1
  ∧ (add_all es c).2 = (spec_add_all (Z.to_nat (maxPending c)) es l).2
  ∧ maxPending (add_all es c).1 = maxPending c.
Proof.
  revert c l. induction es as [|e es IH]; intros c l H; [done|]. cbn.
  destruct (Coalescer_Add_refines c l e H) as (Hr & Hok & Hm).
  destruct (Coalescer_Add c e) as [c' ok], (spec_add _ e l) as [l' ok']. cbn in *. subst ok'.
  destruct (IH c' l' Hr) as (Hr' & Hoks & Hm'). rewrite Hm in *.
  destruct (add_all es c'), (spec_add_all _ es l'). cbn in *. by subst.
Qed.
(** ** Merging a group *)

Definition members (g : group) : list Event := g_first g :: g_rest g.

(** The latest non-empty identifier of a list of events. *)
Definition latest_id (id : Event → string) (g : list Event) : string :=
  default "" (last (filter (λ s, s ≠ "") (id <$> g))).

(** What one delivered event says of the events it stands for: the latest
    name, the latest value of each data field, the greatest time. *)
Record summary (g : list Event) (out : Event) : Prop := {
  summary_name : Name <$> last g = Some (Name out);
  summary_job : JobID out = latest_id JobID g;
  summary_file : FileID out = latest_id FileID g;
  summary_time : Timestamp out ∈ Timestamp <$> g;
  summary_latest : ∀ e, e ∈ g → Timestamp e ≤ Timestamp out;
  summary_data : ∀ field, Data out !! field = last (omap (λ e, Data e !! field) g) }.

Lemma latest_id_snoc id g e :
  latest_id id (g ++ [e]) = if bool_decide (id e = "") then latest_id id g else id e.
Proof.
  unfold latest_id. rewrite fmap_app, filter_app.
  change (id <$> [e]) with [id e]. rewrite filter_cons, filter_nil.
  case_bool_decide as H.
  - rewrite decide_False by (intros Hn; done). by rewrite app_nil_r.
  - rewrite decide_True by done. by rewrite last_snoc.
Qed.

Lemma Data_merge previous latest field :
  Data (merge previous latest) !! field
  = match Data latest !! field with Some v => Some v | None => Data previous !! field end.
Proof.
  assert (Data (merge previous latest) = Data latest ∪ Data previous) as ->.
  { unfold merge. destruct (_ && _) eqn:Hd; [|by repeat case_match].
    apply andb_true_iff in Hd as [H1%bool_decide_eq_true H2%bool_decide_eq_true].
    rewrite H1, H2, (left_id_L ∅ _). repeat case_match; cbn in *; done. }
  rewrite lookup_union. by destruct (Data latest !! field), (Data previous !! field).
Qed.

Lemma merge_fields previous latest :
  Name (merge previous latest) = Name latest
  ∧ JobID (merge previous latest) = (if bool_decide (JobID latest = "") then JobID previous else JobID latest)
  ∧ FileID (merge previous latest) = (if bool_decide (FileID latest = "") then FileID previous else FileID latest)
  ∧ Timestamp (merge previous latest) = Z.max (Timestamp previous) (Timestamp latest).
Proof. unfold merge. repeat case_match; bool_to_prop; cbn in *; split_and!; try done; try lia; congruence. Qed.

Lemma summary_single e : summary [e] e.
Proof.
  split; try done.
  - unfold latest_id. cbn. by destruct (JobID e).
  - unfold latest_id. cbn. by destruct (FileID e).
  - by left.
  - by intros e' ->%list_elem_of_singleton.
  - intros field. cbn. by destruct (Data e !! field).
Qed.

Lemma summary_snoc g out e : summary g out → summary (g ++ [e]) (merge out e).
Proof.
  intros [Hn Hj Hf Ht Hl Hd]. destruct (merge_fields out e) as (En & Ej & Ef & Et).
  split.
  - by rewrite last_snoc, En.
  - by rewrite latest_id_snoc, Ej, Hj.
  - by rewrite latest_id_snoc, Ef, Hf.
  - rewrite Et, fmap_app, elem_of_app. change (Timestamp <$> [e]) with [Timestamp e].
    rewrite list_elem_of_singleton.
    destruct (Z.max_spec (Timestamp out) (Timestamp e)) as [[_ ->]|[_ ->]]; auto.
  - intros e' [He'|He'%list_elem_of_singleton]%elem_of_app; rewrite Et; [apply Hl in He'; lia|subst; lia].
  - intros field. rewrite Data_merge, Hd, omap_app. cbn.
    destruct (Data e !! field); [by rewrite last_snoc|by rewrite app_nil_r].
Qed.

Lemma merged_summary g : summary (members g) (merged g).
Proof.
  unfold members, merged. induction (g_rest g) as [|e r IH] using rev_ind; [apply summary_single|].
  rewrite foldl_snoc, app_comm_cons. by apply summary_snoc.
Qed.
(** ** Without overflow: one event per key *)

(** The keys of a list of events in the order of their first arrival. *)
Fixpoint arrivals (keys : list string) : list string :=
  match keys with
  | [] => []
  | key :: keys => key :: filter (λ k, k ≠ key) (arrivals keys)
  end.

Definition with_key (key : string) (es : list Event) : list Event :=
  filter (λ e, eventKey e = key) es.

Lemma elem_of_arrivals key keys : key ∈ arrivals keys ↔ key ∈ keys.
Proof.
  induction keys as [|k keys IH]; cbn; [done|]. rewrite !elem_of_cons, list_elem_of_filter, IH.
  destruct (decide (key = k)); naive_solver.
Qed.

Lemma arrivals_snoc keys key :
  arrivals (keys ++ [key]) = if decide (key ∈ keys) then arrivals keys else arrivals keys ++ [key].
Proof.
  induction keys as [|k keys IH]; [done|]. cbn. rewrite IH.
  destruct (decide (key = k)) as [->|Hk].
  - rewrite (decide_True (P:=k ∈ k :: keys)) by (by left). case_decide; [done|].
    rewrite filter_app. change (filter (λ k0, k0 ≠ k) [k]) with (if decide (k ≠ k) then [k] else []).
    rewrite decide_False by (intros Hn; done). by rewrite app_nil_r.
  - case_decide as H1; [rewrite decide_True by (by right); done|].
    rewrite decide_False by set_solver. rewrite filter_app.
    change (filter (λ k0, k0 ≠ k) [key]) with (if decide (key ≠ k) then [key] else []).
    by rewrite decide_True.
Qed.

(** The groups an unbounded coalescer would hold. *)
Definition gathered (es : list Event) (l : list group) : Prop :=
  g_key <$> l = arrivals (eventKey <$> es) ∧ Forall (λ g, members g = with_key (g_key g) es) l.

Lemma with_key_snoc key es e :
  with_key key (es ++ [e]) = with_key key es ++ (if decide (eventKey e = key) then [e] else []).
Proof. unfold with_key. rewrite filter_app. f_equal. Qed.

Lemma with_key_fresh es key : key ∉ eventKey <$> es → with_key key es = [].
Proof.
  intros H. apply filter_none. intros e He Hk. apply H. apply list_elem_of_fmap. by exists e.
Qed.

Lemma gathered_exists es l key : gathered es l → Exists (has_key key) l ↔ key ∈ eventKey <$> es.
Proof.
  intros [Hk _]. rewrite <-elem_of_arrivals, <-Hk, Exists_exists, list_elem_of_fmap. unfold has_key.
  naive_solver.
Qed.

Lemma members_append e g : members (append_to e g)
  = members g ++ (if decide (eventKey e = g_key g) then [e] else []).
Proof.
  unfold append_to. case_decide as H; case_decide as H'; unfold has_key in *; try congruence; [done|].
  by rewrite app_nil_r.
Qed.

Lemma gathered_add max es l e : gathered es l → Name e ≠ "" →
  (length (arrivals (eventKey <$> es ++ [e])) ≤ max)%nat →
  (spec_add max e l).2 = true ∧ gathered (es ++ [e]) (spec_add max e l).1.
Proof.
  intros Hg Hn Hlen. pose proof Hg as [Hk Hm]. unfold spec_add. rewrite decide_False by done.
  rewrite fmap_app in *. change (eventKey <$> [e]) with [eventKey e] in *. rewrite arrivals_snoc in Hlen.
  destruct (decide (Exists _ l)) as [Hx|Hx]; rewrite (gathered_exists _ _ _ Hg) in Hx.
  - split; [done|]. split; cbn.
    + rewrite fmap_app. change (eventKey <$> [e]) with [eventKey e]. rewrite arrivals_snoc, decide_True by done.
      rewrite <-Hk, <-list_fmap_compose. apply list_fmap_ext. intros; apply append_to_key.
    + apply Forall_fmap. eapply Forall_impl; [exact Hm|]. intros g Hg'. cbn.
      by rewrite append_to_key, with_key_snoc, members_append, Hg'.
  - rewrite decide_False in Hlen by done. rewrite length_app in Hlen. cbn in Hlen.
    assert (length l = length (arrivals (eventKey <$> es))) as Hl by (by rewrite <-Hk, length_fmap).
    rewrite decide_True by lia. split; [done|]. split; cbn.
    + rewrite !fmap_app. change (eventKey <$> [e]) with [eventKey e].
      by rewrite arrivals_snoc, decide_False, Hk.
    + apply Forall_app. split; [|constructor; [|done]]; cbn.
      * apply Forall_forall. intros g Hin. rewrite with_key_snoc, decide_False.
        { rewrite app_nil_r. rewrite Forall_forall in Hm. by apply Hm. }
        intros Heq. apply Hx. apply (gathered_exists _ _ _ Hg). apply Exists_exists. by exists g.
      * by rewrite with_key_snoc, decide_True, with_key_fresh.
Qed.
Lemma spec_add_all_gathered max es1 es2 l : gathered es1 l →
  Forall (λ e, Name e ≠ "") es2 →
  (length (arrivals (eventKey <$> es1 ++ es2)) ≤ max)%nat →
  Forall (eq true) (spec_add_all max es2 l).2 ∧ gathered (es1 ++ es2) (spec_add_all max es2 l).1.
Proof.
  revert es1 l. induction es2 as [|e es2 IH]; intros es1 l Hg Hn Hlen; cbn.
  { by rewrite app_nil_r. }
  apply Forall_cons in Hn as [He Hn]. rewrite cons_middle, app_assoc in Hlen |- *.
  destruct (gathered_add max es1 l e Hg He) as [Hok Hg'].
  { etrans; [|exact Hlen]. rewrite (fmap_app _ (es1 ++ [e])). clear.
    induction (eventKey <$> es2) as [|k ks IH] using rev_ind; [by rewrite app_nil_r|].
    rewrite app_assoc, arrivals_snoc. case_decide; [done|]. rewrite length_app. lia. }
  destruct (spec_add max e l) as [l' ok]. cbn in *. subst ok.
  destruct (IH (es1 ++ [e]) l' Hg' Hn Hlen) as [Hoks Hg''].
  destruct (spec_add_all max es2 l'). cbn in *. by split; [constructor|].
Qed.

Definition flushed (max : Z) (es0 : list Event) : Coalescer :=
  (Coalescer_Flush (add_all es0 (NewCoalescer max)).1).1.

Lemma flushed_represents max es0 :
  represents (flushed max es0) [] ∧ maxPending (flushed max es0) = maxPending (NewCoalescer max).
Proof.
  destruct (add_all_refines es0 _ [] (represents_new max)) as (Hr & _ & Hm).
  destruct (Coalescer_Flush_refines _ _ Hr) as (Hf & _ & Hm'). unfold flushed.
  split; [done|congruence].
Qed.

(** From an empty coalescer: everything is accepted and delivered. *)
Lemma gathered_delivers c es : represents c [] → Forall (λ e, Name e ≠ "") es →
  Z.of_nat (length (arrivals (eventKey <$> es))) ≤ maxPending c →
  Forall (eq true) (add_all es c).2
  ∧ Forall2 (λ key out, summary (with_key key es) out)
      (arrivals (eventKey <$> es)) (Coalescer_Flush (add_all es c).1).2.
Proof.
  intros Hr Hnamed Hfits. destruct (add_all_refines es _ _ Hr) as (Hr' & -> & _).
  destruct (spec_add_all_gathered (Z.to_nat (maxPending c)) [] es []) as [Hoks [Hk Hm]];
    [by split|done|rewrite app_nil_l; lia|].
  split; [done|]. destruct (Coalescer_Flush_refines _ _ Hr') as (_ & -> & _).
  rewrite app_nil_l in Hk, Hm. rewrite <-Hk, Forall2_fmap. apply Forall_Forall2_diag.
  eapply Forall_impl; [exact Hm|]. intros g Hg.
  change (summary (with_key (g_key g) es) (merged g)). rewrite <-Hg. apply merged_summary.
Qed.

(** C29: Between two flushes, as long as the events carry no more distinct keys
    than the coalescer may hold, every event is accepted and the flush delivers
    exactly one event per key, in the order the keys first arrived; each one
    carries the latest name, the latest value of every data field and the
    greatest time of all the events under its key, whatever came before the
    previous flush. *)
Theorem coalescer_delivers max es0 es
    (Hnamed : Forall (λ e, Name e ≠ "") es)
    (Hfits : Z.of_nat (length (arrivals (eventKey <$> es))) ≤ maxPending (NewCoalescer max)) :
  let c := add_all es (flushed max es0) in
  Forall (eq true) c.2
  ∧ Forall2 (λ key out, summary (with_key key es) out)
      (arrivals (eventKey <$> es)) (Coalescer_Flush c.1).2.
Proof.
  destruct (flushed_represents max es0) as [Hr Hmax]. apply gathered_delivers; [done|done|by rewrite Hmax].
Qed.

(** ** Under overflow *)

(** The names the application publishes. *)
Definition published (e : Event) : Prop :=
  Name e ∈ [JobUpdated; FileUpdated; SpeedUpdated; QueueUpdated; AccountUpdated; SettingsUpdated].

(** Events that may share a group. *)
Definition kin (p e : Event) : Prop :=
  isCoalescible p = isCoalescible e ∧ (isCoalescible e = false → Name p = Name e).

Lemma isCoalescible_false e : isCoalescible e = false →
  Name e ∉ [JobUpdated; FileUpdated; SpeedUpdated; QueueUpdated] ∨ JobID e = "" ∧ FileID e = "".
Proof.
  unfold isCoalescible. intros [H%bool_decide_eq_false|H]%andb_false_iff; [by left|right].
  apply orb_false_iff in H as [H1%bool_decide_eq_false H2%bool_decide_eq_false].
  by split; apply dec_stable.
Qed.

Lemma eventKey_coalescible e : isCoalescible e = true →
  ∃ k, eventKey e = "job:" +:+ k ∨ eventKey e = "file:" +:+ k.
Proof.
  intros H. unfold eventKey. rewrite H. cbn. case_bool_decide as Hj; [by eauto|].
  case_bool_decide as Hf; [by eauto|]. exfalso. unfold isCoalescible in H.
  rewrite Hj, Hf in H. cbn in H. by rewrite andb_false_r in H.
Qed.

Lemma eventKey_plain e : isCoalescible e = false →
  eventKey e = Name e +:+ ":" +:+ JobID e +:+ ":" +:+ FileID e.
Proof. intros H. unfold eventKey. by rewrite H. Qed.

Ltac six_names H :=
  unfold published in H; rewrite !elem_of_cons, elem_of_nil in H;
  destruct H as [H|[H|[H|[H|[H|[H|[]]]]]]].

Lemma plain_key_differs p e : published e → isCoalescible p = true → isCoalescible e = false →
  eventKey p ≠ eventKey e.
Proof.
  intros He Cp Ce Hk. rewrite (eventKey_plain e Ce) in Hk.
  apply eventKey_coalescible in Cp as [k [Ek|Ek]]; rewrite Ek in Hk;
    six_names He; rewrite He in Hk; discriminate.
Qed.

Lemma same_key_kin p e : published p → published e → eventKey p = eventKey e → kin p e.
Proof.
  intros Hp He Hk. unfold kin. destruct (isCoalescible p) eqn:Cp, (isCoalescible e) eqn:Ce.
  - done.
  - by destruct (plain_key_differs p e He Cp Ce).
  - by destruct (plain_key_differs e p Hp Ce Cp).
  - split; [done|]. intros _. rewrite (eventKey_plain p Cp), (eventKey_plain e Ce) in Hk.
    six_names Hp; rewrite Hp in Hk |- *; six_names He; rewrite He in Hk |- *;
      first [reflexivity|discriminate].
Qed.

Lemma kin_merge p e : published p → published e → kin p e →
  published (merge p e) ∧ kin (merge p e) e.
Proof.
  intros Hp He [Hc Hn]. destruct (merge_fields p e) as (En & Ej & Ef & _).
  split; [unfold published; by rewrite En|]. split; [|by rewrite En].
  destruct (isCoalescible e) eqn:Ce.
  - unfold isCoalescible in *. rewrite En, Ej, Ef. apply andb_true_iff in Ce as [-> Hid].
    cbn. revert Hid. repeat case_bool_decide; cbn; try done; intros; tauto.
  - unfold isCoalescible. rewrite En. specialize (Hn eq_refl).
    destruct (isCoalescible_false e Ce) as [Hx|[Hj Hf]]; [by rewrite bool_decide_eq_false_2|].
    destruct (isCoalescible_false p Hc) as [Hx|[Hj' Hf']];
      [by rewrite bool_decide_eq_false_2 by (by rewrite <-Hn)|].
    rewrite Ej, Ef, Hj, Hf, Hj', Hf'. cbn. by rewrite andb_false_r.
Qed.

(** Groups of published events under one key. *)
Definition uniform (g : group) : Prop := ∀ e, e ∈ members g → published e ∧ eventKey e = g_key g.

Lemma merged_kin g e : uniform g → e ∈ members g → kin (merged g) e.
Proof.
  unfold uniform, members, merged. intros Hu He.
  assert (published (foldl merge (g_first g) (g_rest g))
    ∧ ∀ e, e ∈ g_first g :: g_rest g → kin (foldl merge (g_first g) (g_rest g)) e) as [_ H]; [|by apply H].
  clear e He. induction (g_rest g) as [|x r IH] using rev_ind; cbn in *.
  - destruct (Hu (g_first g)) as [Hp _]; [by left|]. split; [done|].
    by intros e ->%list_elem_of_singleton.
  - rewrite foldl_snoc. destruct IH as [Hp Hk]; [intros e He; apply Hu; set_solver|].
    destruct (Hu x) as [Hpx Hkx]; [set_solver|]. destruct (Hu (g_first g)) as [Hp1 Hk1]; [by left|].
    assert (kin (foldl merge (g_first g) r) x) as [Kc Kn].
    { destruct (Hk (g_first g)) as [A B]; [by left|].
      destruct (same_key_kin (g_first g) x) as [A' B']; [done..|congruence|].
      split; [congruence|]. intros Hx. rewrite B; [by apply B'|congruence]. }
    destruct (kin_merge _ x Hp Hpx (conj Kc Kn)) as [Hp' [Mc Mn]]. split; [done|].
    intros e He. destruct (Hu e) as [Hpe Hke]; [set_solver|].
    destruct (same_key_kin x e) as [A' B']; [done..|congruence|].
    split; [congruence|]. intros Hx. rewrite Mn; [by apply B'|congruence].
Qed.

(** An event that may not be dropped, once in a group, stays in one. *)
Definition kept (e : Event) (l : list group) : Prop :=
  isCoalescible e = false ∧ Exists (λ g, e ∈ members g) l.

Lemma kept_app e l1 l2 : kept e l1 → kept e (l1 ++ l2).
Proof. intros [Hc Hx]. split; [done|]. apply Exists_app. by left. Qed.

Lemma kept_spec_drop e l : Forall uniform l → kept e l → kept e (spec_drop l).
Proof.
  intros Hu [Hc Hx]. split; [done|]. induction Hx as [g l Hg|g l Hx IH]; cbn; inversion Hu; subst.
  - destruct (merged_kin g e) as [Hk _]; [done..|]. rewrite Hk, Hc. by left.
  - case_match; [done|]. right. by apply IH.
Qed.

Lemma uniform_new e : published e → uniform (mkGroup (eventKey e) e []).
Proof. intros H e' ->%list_elem_of_singleton. done. Qed.

Lemma uniform_drop l : Forall uniform l → Forall uniform (spec_drop l).
Proof.
  rewrite !Forall_forall. intros H g Hg%elem_of_spec_drop. by apply H.
Qed.

Lemma spec_add_uniform max e l : published e → Forall uniform l → Forall uniform (spec_add max e l).1.
Proof.
  intros He Hl. pose proof (uniform_new e He). unfold spec_add. repeat case_match; cbn; try done.
  - apply Forall_fmap. eapply Forall_impl; [exact Hl|]. intros g Hg e'. cbn.
    rewrite members_append, append_to_key, elem_of_app. intros [?|Hin]; [by apply Hg|].
    case_decide; [|by apply elem_of_nil in Hin]. by apply list_elem_of_singleton in Hin as ->.
  - apply Forall_app_2; [done|]. by constructor.
  - apply Forall_app_2; [by apply uniform_drop|]. by constructor.
Qed.

Lemma spec_add_keeps max e e' l : published e' → Forall uniform l → kept e l → kept e (spec_add max e' l).1.
Proof.
  intros He Hl Hk. unfold spec_add. repeat case_match; cbn; try done; try by apply kept_app.
  - destruct Hk as [Hc Hx]. split; [done|]. apply Exists_fmap. eapply Exists_impl; [exact Hx|].
    intros g Hg. cbn. rewrite members_append. set_solver.
  - apply kept_app. by apply kept_spec_drop.
Qed.

Lemma spec_add_accepts max e l : isCoalescible e = false → (spec_add max e l).2 = true →
  kept e (spec_add max e l).1.
Proof.
  intros Hc. unfold spec_add. repeat case_match; cbn; try done; intros _; (split; [done|]).
  - apply Exists_fmap. eapply Exists_impl; [done|]. intros g Hg. cbn.
    rewrite members_append, decide_True by done. set_solver.
  - apply Exists_app. right. left. by left.
  - exfalso. match goal with H : _ && _ = true |- _ => rewrite Hc in H; done end.
Qed.

Lemma spec_add_all_keeps max es l e : Forall published es → Forall uniform l → kept e l →
  kept e (spec_add_all max es l).1.
Proof.
  revert l. induction es as [|x es IH]; intros l Hes Hl Hk; [done|]. cbn.
  apply Forall_cons in Hes as [Hx Hes].
  pose proof (spec_add_uniform max x l Hx Hl). pose proof (spec_add_keeps max e x l Hx Hl Hk).
  destruct (spec_add max x l) as [l' ok]. cbn in *. specialize (IH l').
  destruct (spec_add_all max es l'). cbn in *. by apply IH.
Qed.
Lemma spec_add_all_uniform max es l : Forall published es → Forall uniform l →
  Forall uniform (spec_add_all max es l).1.
Proof.
  revert l. induction es as [|x es IH]; intros l Hes Hl; [done|]. cbn.
  apply Forall_cons in Hes as [Hx Hes]. pose proof (spec_add_uniform max x l Hx Hl).
  destruct (spec_add max x l) as [l' ok]. cbn in *. specialize (IH l').
  destruct (spec_add_all max es l'). cbn in *. by apply IH.
Qed.

Lemma summary_covers g out e field : summary g out → e ∈ g → is_Some (Data e !! field) →
  is_Some (Data out !! field).
Proof.
  intros Hs He [v Hv]. rewrite (summary_data _ _ Hs), last_is_Some. intros Hnil.
  eapply not_elem_of_nil. rewrite <-Hnil. apply list_elem_of_omap. by exists e.
Qed.

(** C28: However many events arrive between two flushes, a flush never delivers
    more than the coalescer's bound, and an event that was accepted and may not
    be coalesced is never dropped: a delivered event has its name, a time no
    earlier, and a value for each of its data fields. *)
Theorem coalescer_keeps_durable max es0 es1 e es2
    (Hes1 : Forall published es1) (Hes2 : Forall published es2) (He : published e)
    (Hdurable : isCoalescible e = false)
    (Haccepted : (Coalescer_Add (add_all es1 (flushed max es0)).1 e).2 = true) :
  let c := (Coalescer_Add (add_all es1 (flushed max es0)).1 e).1 in
  let outs := (Coalescer_Flush (add_all es2 c).1).2 in
  Z.of_nat (length outs) ≤ maxPending (NewCoalescer max)
  ∧ ∃ out, out ∈ outs ∧ Name out = Name e ∧ Timestamp e ≤ Timestamp out
      ∧ ∀ field, is_Some (Data e !! field) → is_Some (Data out !! field).
Proof.
  cbv zeta. destruct (flushed_represents max es0) as [Hr Hmax].
  destruct (add_all_refines es1 _ _ Hr) as (Hr1 & _ & Hm1).
  destruct (Coalescer_Add_refines _ _ e Hr1) as (Hr2 & Hok & Hm2). rewrite Hok in Haccepted. clear Hok.
  destruct (add_all_refines es2 _ _ Hr2) as (Hr3 & _ & Hm3).
  destruct (Coalescer_Flush_refines _ _ Hr3) as (_ & -> & _).
  pose proof Hr3 as (_ & _ & _ & _ & Hlen). rewrite Hm3 in Hlen.
  rewrite Hm2, Hm1, Hmax in Hlen |- *. rewrite Hm1, Hmax in Haccepted.
  split; [by rewrite length_fmap|].
  pose proof (spec_add_all_uniform (Z.to_nat (maxPending (NewCoalescer max))) es1 [] Hes1
    (Forall_nil_2 _)) as Hu1.
  apply spec_add_accepts in Haccepted as Hk; [|done].
  assert (Hu2 := spec_add_uniform (Z.to_nat (maxPending (NewCoalescer max))) e _ He Hu1).
  assert (Hu3 := spec_add_all_uniform (Z.to_nat (maxPending (NewCoalescer max))) es2 _ Hes2 Hu2).
  assert (Hk3 := spec_add_all_keeps (Z.to_nat (maxPending (NewCoalescer max))) es2 _ e Hes2 Hu2 Hk).
  destruct Hk3 as [_ Hx]. apply Exists_exists in Hx as (g & Hg & Hin).
  exists (merged g). split; [apply list_elem_of_fmap; by exists g|].
  rewrite Forall_forall in Hu3. destruct (merged_kin g e (Hu3 g Hg) Hin) as [_ Hn].
  pose proof (merged_summary g) as Hs. split; [by apply Hn|].
  split; [by apply (summary_latest _ _ Hs)|]. intros field. by apply (summary_covers (members g)).
Qed.
(** ** Subscribers and the bus (bus.go)

    A subscriber's [stream] is a channel of [queueSize] slots; its [stop] and
    [done] channels are closed once and never reopened. *)

Record subscriber := mkSubscriber {
  stream : list Event;
  stopped : bool;
  done : bool;
  coalescer : Coalescer;
  blocked : Z }.

#[global] Instance subscriber_eta : Eta subscriber := λ s,
  mkSubscriber (stream s) (stopped s) (done s) (coalescer s) (blocked s).

(** [subs] is the Go set of registered subscribers, by address; [objects] holds
    every subscriber ever created. *)
Record Bus := mkBus {
  objects : gmap nat subscriber;
  subs : gset nat;
  closed : bool;
  queueSize : nat;
  bus_maxPending : Z }.

#[global] Instance Bus_eta : Eta Bus := λ b,
  mkBus (objects b) (subs b) (closed b) (queueSize b) (bus_maxPending b).

Definition NewBus : Bus := mkBus ∅ ∅ false defaultSubscriberQueue defaultPendingEvents.

Definition enqueue (s : subscriber) (event : Event) : subscriber * bool :=
  if stopped s then (s, false)
  else let '(c, ok) := Coalescer_Add (coalescer s) event in (s <| coalescer := c |>, ok).

Definition subscriber_close (s : subscriber) : subscriber := s <| stopped := true |>.

(** The events of a flush go out one by one; [reads] says how many events the
    client takes from the stream just before each of them. *)
Fixpoint send_events (room : nat) (events : list Event) (reads : list nat) (s : subscriber)
    : subscriber * bool :=
  match events with
  | [] => (s, true)
  | event :: events =>
      let s := s <| stream := drop (hd 0%nat reads) (stream s) |> in
      if (length (stream s) <? room)%nat
      then send_events room events (tl reads) (s <| stream := stream s ++ [event] |> <| blocked := 0 |>)
      else
        let s := s <| blocked := blocked s + 1 |> in
        if maxBlockedFlushes <=? blocked s then (s, false)
        else send_events room events (tl reads) s
  end.

Definition flush (room : nat) (reads : list nat) (s : subscriber) : subscriber * bool :=
  let '(c, events) := Coalescer_Flush (coalescer s) in
  let s := s <| coalescer := c |> in
  match events with
  | [] => (s <| blocked := 0 |>, true)
  | _ => send_events room events reads s
  end.

Definition Subscribe (b : Bus) : Bus * nat :=
  let id := fresh (dom (objects b)) in
  let s := mkSubscriber [] false false (NewCoalescer (bus_maxPending b)) 0 in
  if closed b then (b <| objects := <[id := s <| stopped := true |> <| done := true |>]> (objects b) |>, id)
  else (b <| objects := <[id := s]> (objects b) |> <| subs := {[id]} ∪ subs b |>, id).

(** One round of the loop over the registered subscribers. *)
Definition publish_to (event : Event) (b : Bus) (accepted : bool) (id : nat) : Bus * bool :=
  match objects b !! id with
  | None => (b, accepted)
  | Some s =>
      let '(s, ok) := enqueue s event in
      if ok then (b <| objects := <[id := s]> (objects b) |>, accepted)
      else (b <| objects := <[id := subscriber_close s]> (objects b) |>, false)
  end.

(** [Publish]: [now] is the clock; the map is ranged over in the order [ids]. *)
Definition Publish (now : Z) (ids : list nat) (event : Event) (b : Bus) : Bus * bool :=
  if bool_decide (Name event = "") then (b, false)
  else
    let event := if Timestamp event =? 0 then event <| Timestamp := now |> else event in
    if closed b then (b, false)
    else foldl (λ p id, publish_to event p.1 p.2 id) (b, true) ids.

(** [Close]: marking the bus and telling every subscriber to stop is one step
    here.  In the code another goroutine may run between the two, when no
    subscriber can be added and nothing published any more. *)
Definition Bus_Close (b : Bus) : Bus :=
  if closed b then b
  else b <| closed := true |>
         <| objects := map_imap (λ id s, Some (if decide (id ∈ subs b) then subscriber_close s else s)) (objects b) |>.

Definition remove (id : nat) (b : Bus) : Bus := b <| subs := subs b ∖ {[id]} |>.
(** One iteration of a subscriber's goroutine: the stop branch and the ticker
    branch of its select. *)
Definition run_stop (id : nat) (s : subscriber) (b : Bus) : Bus :=
  remove id b <| objects := <[id := s <| done := true |>]> (objects b) |>.

Definition run_tick (id : nat) (reads : list nat) (s : subscriber) (b : Bus) : Bus :=
  let '(s, ok) := flush (queueSize b) reads s in
  if ok then b <| objects := <[id := s]> (objects b) |> else run_stop id s b.

(** The bus, its subscribers' goroutines and their clients, interleaved. *)
Inductive bus_step (b : Bus) : Bus → Prop :=
| step_subscribe : bus_step b (Subscribe b).1
| step_publish now ids event : ids ≡ₚ elements (subs b) → bus_step b (Publish now ids event b).1
| step_close : bus_step b (Bus_Close b)
| step_client_close id s : objects b !! id = Some s →
    bus_step b (b <| objects := <[id := subscriber_close s]> (objects b) |>)
| step_client_reads id s n : objects b !! id = Some s →
    bus_step b (b <| objects := <[id := s <| stream := drop n (stream s) |>]> (objects b) |>)
| step_run_stop id s : objects b !! id = Some s → done s = false → stopped s = true →
    bus_step b (run_stop id s b)
| step_run_tick id s reads : objects b !! id = Some s → done s = false →
    bus_step b (run_tick id reads s b).

(** What every subscriber keeps: it never holds more than its bounds allow. *)
Definition subscriber_bounded (b : Bus) (s : subscriber) : Prop :=
  (length (stream s) ≤ queueSize b)%nat
  ∧ 0 ≤ blocked s ≤ maxBlockedFlushes
  ∧ (blocked s = maxBlockedFlushes → done s = true)
  ∧ maxPending (coalescer s) = maxPending (NewCoalescer (bus_maxPending b))
  ∧ ∃ l, represents (coalescer s) l.

Record bus_ok (b : Bus) : Prop := {
  ok_bounded id s : objects b !! id = Some s → subscriber_bounded b s;
  ok_registered id : id ∈ subs b → ∃ s, objects b !! id = Some s ∧ done s = false;
  ok_running id s : objects b !! id = Some s → done s = false → id ∈ subs b;
  ok_closed id s : closed b = true → objects b !! id = Some s → done s = false → stopped s = true }.
(** ** The bus keeps its bounds *)

Lemma bus_ok_update b id s s' : bus_ok b → objects b !! id = Some s →
  (subscriber_bounded b s → subscriber_bounded b s') → done s' = done s →
  (stopped s = true → stopped s' = true) →
  bus_ok (b <| objects := <[id := s']> (objects b) |>).
Proof.
  intros [Hb Hr Hn Hc] Hs Hb' Hd Hst. split; cbn.
  - intros id' s0 [[<- <-]|[_ H]]%lookup_insert_Some; [by apply Hb', Hb with id|by apply (Hb id')].
  - intros id' Hin. destruct (Hr id' Hin) as (s0 & H & Hd0). destruct (decide (id = id')) as [<-|Hne].
    + exists s'. rewrite lookup_insert_eq. split; [done|]. congruence.
    + exists s0. by rewrite lookup_insert_ne.
  - intros id' s0 [[<- <-]|[_ H]]%lookup_insert_Some Hd0; [|by apply (Hn id' s0)].
    rewrite Hd in Hd0. by apply (Hn id s).
  - intros id' s0 Hcl [[<- <-]|[_ H]]%lookup_insert_Some Hd0; [|by apply (Hc id')].
    rewrite Hd in Hd0. by apply Hst, (Hc id).
Qed.

Lemma bus_ok_run_stop b id s s' : bus_ok b → objects b !! id = Some s →
  subscriber_bounded b (s' <| done := true |>) → bus_ok (run_stop id s' b).
Proof.
  intros [Hb Hr Hn Hc] Hs Hb'. split; cbn.
  - intros id' s0 [[<- <-]|[_ H]]%lookup_insert_Some; [done|by apply (Hb id')].
  - intros id' [Hin Hne%not_elem_of_singleton]%elem_of_difference.
    destruct (Hr id' Hin) as (s0 & H & Hd0). exists s0. by rewrite lookup_insert_ne.
  - intros id' s0 [[<- <-]|[Hne H]]%lookup_insert_Some Hd0; [done|].
    apply elem_of_difference. split; [by apply (Hn id' s0)|set_solver].
  - intros id' s0 Hcl [[<- <-]|[_ H]]%lookup_insert_Some Hd0; [done|by apply (Hc id')].
Qed.

Lemma enqueue_bounded b s event : subscriber_bounded b s → subscriber_bounded b (enqueue s event).1.
Proof.
  intros H. unfold enqueue. destruct (stopped s); [done|].
  destruct H as (? & [? ?] & ? & Hm & l & Hl). destruct (Coalescer_Add_refines _ _ event Hl) as (Hr & _ & Hm').
  destruct (Coalescer_Add _ _). cbn in *. split_and!; cbn; try done; [congruence|by eexists].
Qed.

Lemma enqueue_frame s event : done (enqueue s event).1 = done s ∧ stopped (enqueue s event).1 = stopped s.
Proof. unfold enqueue. case_match; [done|]. by destruct (Coalescer_Add _ _). Qed.

Lemma publish_to_ok event b accepted id : bus_ok b → bus_ok (publish_to event b accepted id).1.
Proof.
  intros H. unfold publish_to. destruct (objects b !! id) as [s|] eqn:Hs; [|done].
  pose proof (enqueue_bounded b s event) as Hb. destruct (enqueue_frame s event) as [Hd Hst].
  destruct (enqueue s event) as [s' ok]. cbn in *.
  destruct ok; cbn; apply (bus_ok_update b id s); cbn; try done; congruence.
Qed.

Lemma publish_loop_ok event ids p : bus_ok p.1 →
  bus_ok (foldl (λ p id, publish_to event p.1 p.2 id) p ids).1.
Proof. revert p. induction ids as [|id ids IH]; intros p H; [done|]. cbn. by apply IH, publish_to_ok. Qed.

Lemma send_events_bounded b events reads s :
  (length (stream s) ≤ queueSize b)%nat → 0 ≤ blocked s < maxBlockedFlushes →
  let p := send_events (queueSize b) events reads s in
  (length (stream p.1) ≤ queueSize b)%nat
  ∧ 0 ≤ blocked p.1 ≤ maxBlockedFlushes
  ∧ (p.2 = true → blocked p.1 < maxBlockedFlushes)
  ∧ coalescer p.1 = coalescer s ∧ done p.1 = done s ∧ stopped p.1 = stopped s.
Proof.
  revert reads s. induction events as [|e events IH]; intros reads s Hs Hb; cbn [send_events]; [repeat split; try done; cbn; lia|].
  assert (length (drop (hd 0%nat reads) (stream s)) ≤ length (stream s))%nat as Hlen
    by (rewrite length_drop; lia).
  destruct (_ <? _)%nat eqn:Hroom.
  - apply Nat.ltb_lt in Hroom. match goal with |- context [send_events _ _ ?r ?s1] => apply (IH r s1); cbn end.
    + rewrite length_app. cbn in *. lia.
    + done.
  - destruct (_ <=? _) eqn:Hmax; cbn.
    + apply Z.leb_le in Hmax. repeat split; try done; lia.
    + apply Z.leb_gt in Hmax. match goal with |- context [send_events _ _ ?r ?s1] => apply (IH r s1); cbn in *; lia end.
Qed.

Lemma flush_bounded b reads s : subscriber_bounded b s → done s = false →
  let p := flush (queueSize b) reads s in
  (if p.2 then subscriber_bounded b p.1 else subscriber_bounded b (p.1 <| done := true |>))
  ∧ done p.1 = done s ∧ stopped p.1 = stopped s.
Proof.
  intros (Hs & [Hbl Hbu] & Hblm & Hm & l & Hl) Hd. unfold flush.
  destruct (Coalescer_Flush_refines _ _ Hl) as (Hr & _ & Hm').
  destruct (Coalescer_Flush (coalescer s)) as [c events]. cbn in Hr, Hm' |- *.
  assert (blocked s ≠ maxBlockedFlushes) as Hlt by (intros Heq%Hblm; congruence).
  destruct events as [|e events].
  { cbn. split_and!; try done. split_and!; cbn; try done; [by rewrite Hm'|by eexists]. }
  destruct (send_events_bounded b (e :: events) reads (s <| coalescer := c |>)) as (H1 & [H2 H2'] & H3 & H4 & H5 & H6);
    [done|cbn; lia|].
  destruct (send_events _ _ _ _) as [s' ok]. cbn in *. split; [|done].
  destruct ok; split_and!; cbn; try done; rewrite ?H4; cbn; try (by rewrite Hm'); try by eexists.
  - intros Heq. specialize (H3 eq_refl). lia.
Qed.

Lemma bus_step_ok b b' : bus_step b b' → bus_ok b → bus_ok b'.
Proof.
  intros Hstep Hok. pose proof Hok as [Hb Hr Hn Hc]. destruct Hstep.
  - unfold Subscribe. assert (objects b !! fresh (dom (objects b)) = None) as Hf
      by (apply not_elem_of_dom, is_fresh).
    generalize dependent (fresh (dom (objects b))); intros id Hf.
    assert (∀ st dn, subscriber_bounded b (mkSubscriber [] st dn (NewCoalescer (bus_maxPending b)) 0)) as Hnew.
    { intros. split_and!; cbn; try done; [lia|]. exists []. apply represents_new. }
    destruct (closed b) eqn:Hcl; cbn; split; cbn; intros id'.
    + intros s' [[<- <-]|[_ H]]%lookup_insert_Some; [apply Hnew|by apply (Hb id')].
    + intros Hin. destruct (Hr id' Hin) as (s & H & ?). exists s. rewrite lookup_insert_ne; [done|congruence].
    + intros s' [[<- <-]|[_ H]]%lookup_insert_Some Hd; [done|by apply (Hn id' s')].
    + intros s' _ [[<- <-]|[_ H]]%lookup_insert_Some Hd; [done|by apply (Hc id')].
    + intros s' [[<- <-]|[_ H]]%lookup_insert_Some; [apply Hnew|by apply (Hb id')].
    + intros [->%elem_of_singleton|Hin]%elem_of_union; [rewrite lookup_insert_eq; by eexists|].
      destruct (Hr id' Hin) as (s & H & ?). exists s. rewrite lookup_insert_ne; [done|congruence].
    + intros s' [[<- <-]|[_ H]]%lookup_insert_Some Hd; [set_solver|].
      apply elem_of_union. right. by apply (Hn id' s').
    + congruence.
  - unfold Publish. repeat case_match; try done; by apply publish_loop_ok.
  - unfold Bus_Close. destruct (closed b) eqn:Hcl; [done|]. split; cbn; intros id'.
    + intros s'. rewrite map_lookup_imap. intros (s & H & [= <-])%bind_Some.
      case_decide; [|by apply (Hb id')]. exact (Hb id' s H).
    + intros Hin. destruct (Hr id' Hin) as (s & H & Hd). exists (subscriber_close s).
      rewrite map_lookup_imap, H. cbn. by rewrite decide_True.
    + intros s'. rewrite map_lookup_imap. intros (s & H & [= <-])%bind_Some Hd.
      apply (Hn id' s H). by case_decide.
    + intros s' _. rewrite map_lookup_imap. intros (s & H & [= <-])%bind_Some.
      case_decide as Hin; [done|]. intros Hd. by destruct Hin; apply (Hn id' s).
  - by apply (bus_ok_update b id s).
  - apply (bus_ok_update b id s); try done. intros (? & ?). split; [cbn|done]. rewrite length_drop. lia.
  - apply (bus_ok_run_stop b id s); [done..|]. apply (Hb id) in H as (? & [? ?] & ? & ? & ?). by split_and!.
  - unfold run_tick. destruct (flush_bounded b reads s (Hb id s H) H0) as (H1 & H2 & H3).
    destruct (flush (queueSize b) reads s) as [s' ok]. cbn in *.
    destruct ok; [apply (bus_ok_update b id s)|apply (bus_ok_run_stop b id s)]; try done; congruence.
Qed.
Lemma bus_ok_new : bus_ok NewBus.
Proof. split; cbn; intros id; set_solver. Qed.

Lemma publish_loop_frame event ids p :
  let b := (foldl (λ p id, publish_to event p.1 p.2 id) p ids).1 in
  queueSize b = queueSize p.1 ∧ bus_maxPending b = bus_maxPending p.1 ∧ closed b = closed p.1.
Proof.
  revert p. induction ids as [|id ids IH]; intros p; [done|]. cbn. specialize (IH (publish_to event p.1 p.2 id)).
  destruct IH as (-> & -> & ->). unfold publish_to. repeat case_match; done.
Qed.

Lemma bus_step_frame b b' : bus_step b b' →
  queueSize b' = queueSize b ∧ bus_maxPending b' = bus_maxPending b ∧ (closed b = true → closed b' = true).
Proof.
  destruct 1; cbn; try done.
  - unfold Subscribe. by case_match.
  - unfold Publish. repeat case_match; try done;
      match goal with |- context [foldl (λ q j, publish_to ?e q.1 q.2 j) ?p ?l] =>
        destruct (publish_loop_frame e l p) as (-> & -> & ->) end; done.
  - unfold Bus_Close. by case_match.
  - unfold run_tick. by repeat case_match.
Qed.

(** C30: At any moment of any run of the bus, with subscribers coming and going,
    events published and clients reading or not, a subscriber holds at most
    four undelivered events and a hundred and twenty-eight pending ones; a
    subscriber whose goroutine still runs is registered, and once the bus is
    closed every such subscriber has been told to stop. *)
Theorem bus_stays_bounded b id s (Hrun : rtc bus_step NewBus b) (Hs : objects b !! id = Some s) :
  (length (stream s) ≤ 4)%nat
  ∧ (size (pending (coalescer s)) ≤ 128)%nat
  ∧ (done s = false → id ∈ subs b)
  ∧ (closed b = true → done s = false → stopped s = true).
Proof.
  assert (bus_ok b ∧ queueSize b = 4%nat ∧ bus_maxPending b = 128) as ([Hb Hr Hn Hc] & Hq & Hm).
  { eapply (rtc_invariant bus_step (λ b, bus_ok b ∧ queueSize b = 4%nat ∧ bus_maxPending b = 128)); [|exact Hrun|].
    - intros b1 b2 Hstep (Hok & Hq & Hm). destruct (bus_step_frame _ _ Hstep) as (-> & -> & _).
      split_and!; [by eapply bus_step_ok|done..].
    - split_and!; [apply bus_ok_new|done..]. }
  destruct (Hb id s Hs) as (Hst & _ & _ & Hmax & l & Hl). rewrite Hq in Hst. rewrite Hm in Hmax.
  split_and!; [done| |by apply Hn|intros; by apply (Hc id)].
  rewrite (represents_size _ _ Hl). destruct Hl as (_ & _ & _ & _ & Hlen).
  rewrite Hmax in Hlen. cbn in Hlen. lia.
Qed.

(** ** A client that reads nothing during a flush *)

Lemma no_read (s : subscriber) : s <| stream := drop 0 (stream s) |> = s.
Proof. by destruct s. Qed.

Lemma send_events_full room events s :
  length (stream s) = room → 0 ≤ blocked s < maxBlockedFlushes →
  (send_events room events [] s).2
    = bool_decide (blocked s + Z.of_nat (length events) < maxBlockedFlushes)
  ∧ stream (send_events room events [] s).1 = stream s.
Proof.
  revert s. induction events as [|e events IH]; intros s Hs Hb; cbn [send_events].
  { rewrite bool_decide_eq_true_2; [done|]. cbn. lia. }
  cbn [hd tl]. rewrite no_read, Hs, Nat.ltb_irrefl. cbn [blocked stream].
  destruct (_ <=? _) eqn:Hmax; [apply Z.leb_le in Hmax|apply Z.leb_gt in Hmax]; cbn in Hmax.
  - split; [|done]. rewrite bool_decide_eq_false_2; [done|]. cbn. lia.
  - destruct (IH (s <| blocked := blocked s + 1 |>)) as [-> ->]; [done|cbn; lia|].
    split; [|done]. apply bool_decide_ext. cbn. lia.
Qed.

Lemma send_events_none_read room events s :
  (length (stream s) ≤ room)%nat → blocked s = 0 →
  let free := (room - length (stream s))%nat in
  (send_events room events [] s).2 = bool_decide (length events - free < 4)%nat
  ∧ stream (send_events room events [] s).1 = stream s ++ take free events.
Proof.
  revert s. induction events as [|e events IH]; intros s Hs Hb; cbn [send_events].
  { rewrite bool_decide_eq_true_2 by (cbn; lia). by rewrite take_nil, app_nil_r. }
  destruct (decide (length (stream s) = room)) as [Hfull|Hroom].
  - destruct (send_events_full room (e :: events) s Hfull) as [H1 H2]; [by rewrite Hb|].
    cbn [send_events] in H1, H2. rewrite H1, H2, Hfull, Nat.sub_diag. cbn [take].
    rewrite app_nil_r. split; [|done]. apply bool_decide_ext. rewrite Hb. unfold maxBlockedFlushes. cbn. lia.
  - cbn [hd tl]. rewrite no_read. assert (length (stream s) <? room = true)%nat as -> by (apply Nat.ltb_lt; lia).
    destruct (IH (s <| stream := stream s ++ [e] |> <| blocked := 0 |>)) as [-> ->]; [|done|].
    { cbn. rewrite length_app. cbn. lia. }
    cbn. rewrite length_app. cbn. destruct (room - length (stream s))%nat as [|n] eqn:Hn; [lia|].
    replace (room - (length (stream s) + 1))%nat with n by lia.
    rewrite <-app_assoc. split; [|done]. done.
Qed.

(** What one flush does for a client that takes nothing from its stream
    meanwhile and was not blocked before: the pending events fill the free slots
    of the stream in order, the rest are lost, and the client stays connected
    exactly when fewer than four are lost in this one flush; eight pending
    events disconnect a client whose stream was empty. *)
Theorem flush_outcome room s
    (Hstream : (length (stream s) ≤ room)%nat) (Hblocked : blocked s = 0) :
  let events := (Coalescer_Flush (coalescer s)).2 in
  let free := (room - length (stream s))%nat in
  (flush room [] s).2 = bool_decide (length events - free < 4)%nat
  ∧ stream (flush room [] s).1 = stream s ++ take free events.
Proof.
  cbv zeta. unfold flush. destruct (Coalescer_Flush (coalescer s)) as [c events]. cbn [fst snd].
  destruct events as [|e events].
  { rewrite bool_decide_eq_true_2 by (cbn; lia). by rewrite take_nil, app_nil_r. }
  destruct (send_events_none_read room (e :: events) (s <| coalescer := c |>)) as [-> ->]; [done..|].
  split; [by apply bool_decide_ext|done].
Qed.
End events.
Arguments Event : clear implicits.
Arguments subscriber : clear implicits.
Arguments Bus : clear implicits.

(** ** Witnesses *)

Definition sample_progress (job : string) (at_ percent : Z) : Event Z :=
  mkEvent JobUpdated job "" at_ {["percent" := percent]}.
Definition sample_account (id : string) : Event Z := mkEvent AccountUpdated "" "" 5 {["state" := 1]}.

Lemma coalescer_delivers_witness :
  let es := [sample_progress "a" 1 10; sample_progress "b" 2 20; sample_progress "a" 3 30] in
  arrivals (eventKey <$> es) = ["job:a"; "job:b"]
  ∧ let c := add_all es (flushed 2 [sample_progress "c" 0 0]) in
    Forall (eq true) c.2
    ∧ Forall2 (λ key out, summary (with_key key es) out)
        (arrivals (eventKey <$> es)) (Coalescer_Flush c.1).2.
Proof.
  split; [by vm_compute|]. apply coalescer_delivers; [|vm_compute; discriminate].
  repeat constructor; discriminate.
Defined.

Lemma coalescer_keeps_durable_witness :
  let c := (Coalescer_Add (add_all [sample_progress "a" 1 10] (flushed 2 [])).1 (sample_account "x")).1 in
  let outs := (Coalescer_Flush (add_all [sample_progress "b" 2 20; sample_progress "d" 2 20] c).1).2 in
  Z.of_nat (length outs) ≤ maxPending (NewCoalescer (any:=Z) 2)
  ∧ ∃ out, out ∈ outs ∧ Name out = Name (sample_account "x") ∧ Timestamp (sample_account "x") ≤ Timestamp out
      ∧ ∀ field, is_Some (Data (sample_account "x") !! field) → is_Some (Data out !! field).
Proof.
  apply coalescer_keeps_durable; [..|by vm_compute|by vm_compute];
    repeat constructor; unfold published; cbn; set_solver.
Defined.

Definition sample_bus : Bus Z := (Publish 1 [0%nat] (sample_progress "a" 1 10) (Subscribe NewBus).1).1.

Lemma bus_stays_bounded_witness :
  ∃ s, objects sample_bus !! 0%nat = Some s
  ∧ (length (stream s) ≤ 4)%nat ∧ (size (pending (coalescer s)) ≤ 128)%nat
  ∧ (done s = false → 0%nat ∈ subs sample_bus)
  ∧ (closed sample_bus = true → done s = false → stopped s = true).
Proof.
  eexists. split; [reflexivity|]. apply (bus_stays_bounded sample_bus 0%nat); [|reflexivity].
  eapply rtc_l; [apply step_subscribe|]. eapply rtc_l; [|apply rtc_refl].
  by apply step_publish.
Defined.

(** A client with an empty stream and eight jobs' progress pending. *)
Definition sample_busy : subscriber Z :=
  mkSubscriber [] false false
    (add_all ((λ k, sample_progress k 1 1) <$> ["a"; "b"; "c"; "d"; "e"; "f"; "g"; "h"]) (NewCoalescer 128)).1 0.

Lemma flush_outcome_witness :
  (flush 4 [] sample_busy).2 = false
  ∧ (flush 4 [] sample_busy).2
      = bool_decide (length (Coalescer_Flush (coalescer sample_busy)).2 - (4 - length (stream sample_busy)) < 4)%nat
  ∧ stream (flush 4 [] sample_busy).1
      = stream sample_busy ++ take (4 - length (stream sample_busy)) (Coalescer_Flush (coalescer sample_busy)).2.
Proof. split; [by vm_compute|]. by apply (flush_outcome 4 sample_busy); [cbn; lia|]. Defined.
