(* ===== verification/MegaValues.v ===== *)
(** * Decoded MEGA values and protocol keys (internal/mega/crypto.go, client.go)

    JSON values as the decoder hands them to the program, the accessors of
    client.go and account_auth.go, and the decoding of keys and attributes.
    The base64 primitive of go-mega, the AES block operations and the JSON
    decoder of the standard library are arguments: nothing is assumed of
    them. *)

From Stdlib Require Import ZArith Lia Ascii.
From stdpp Require Import base list gmap strings numbers pretty.
From S2P Require Import Prelude GoStrings GoErrors GoBase64 Crypto.

(** ** Values of type [any] that come out of the decoder *)

#[warnings="-register-all"]
Inductive any :=
| JNull
| JBool (b : bool)
| JNumber (text : string)
| JString (s : string)
| JArray (l : list any)
| JObject (fields : gmap string any).

Definition stringValue (value : option any) : string :=
  match value with Some (JString s) => s | _ => "" end.

(** The decoder runs with [UseNumber], so every number is a [json.Number]. *)
Definition numberValue (value : option any) : option Z :=
  match value with Some (JNumber text) => ParseInt text | _ => None end.

Definition intValue (value : option any) : option Z := numberValue value.

Definition uintValue (value : option any) : option Z :=
  match value with
  | Some (JNumber text) => v ← parse_nat text; if v <? 2 ^ 64 then Some v else None
  | _ => None
  end.

(** [object["k"] == nil]: absent or null. *)
Definition is_nil (value : option any) : bool :=
  match value with None | Some JNull => true | _ => false end.

Definition firstObject (result : list any) : Prelude.result error (gmap string any) :=
  match result with
  | [] => Err (Wrap ErrInvalidLink ": empty response")
  | JObject fields :: _ => Ok fields
  | _ :: _ => Err (Wrap ErrInvalidLink ": response item is not an object")
  end.

Definition attributeStrings (attributes : gmap string any) : gmap string string :=
  omap (λ v, match v with JString s => Some s | _ => None end) attributes.

Definition cloneStringMap (values : gmap string string) : gmap string string := values.

(** ** Keys and attributes *)

Section keys.
(** [upstream.Base64ToBytes] of go-mega, [block.Decrypt] of the AES cipher made
    from a key, and [json.Unmarshal] into a map. *)
Context (Base64ToBytes : string → result error (list Z)).
Context (D : list Z → list Z → list Z).
Context (Unmarshal : list Z → result error (gmap string any)).

Definition decodeURLBase64 (value : string) : result error (list Z) := Base64ToBytes value.

Definition DecodeFileKey (encoded : string) : result error FileKey :=
  match decodeURLBase64 encoded with
  | Err e => Err (Wrap ErrInvalidKey (": file key is not URL-safe base64: " +:+ Error e))
  | Ok decoded => decodeFileKeyBytes decoded
  end.

Definition DecodeNodeKey (encoded : string) : result error NodeKey :=
  match decodeURLBase64 encoded with
  | Err e => Err (Wrap ErrInvalidKey (": node key is not URL-safe base64: " +:+ Error e))
  | Ok decoded => decodeNodeKeyBytes decoded
  end.

(** The blocks of an aligned byte string; [fuel] is their number. *)
Fixpoint map_blocks (f : list Z → list Z) (fuel : nat) (data : list Z) : list Z :=
  match fuel with
  | O => []
  | S fuel => f (take 16 data) ++ map_blocks f fuel (drop 16 data)
  end.

Definition aligned (data : list Z) : bool :=
  negb (bool_decide (data = [])) && (Z.of_nat (length data) `rem` BlockSize =? 0).

(** [aes.NewCipher] accepts keys of 16, 24 and 32 bytes. *)
Definition cipher_key_ok (key : list Z) : bool :=
  bool_decide (length key = 16%nat) || bool_decide (length key = 24%nat) || bool_decide (length key = 32%nat).

Definition key_size_error (key : list Z) : string :=
  "crypto/aes: invalid key size " +:+ FormatInt (Z.of_nat (length key)).

Definition DecryptNodeKey (encoded : string) (master : NodeKey) : result error (list Z) :=
  match decodeURLBase64 encoded with
  | Err e => Err (Wrap ErrInvalidKey (": encrypted node key: " +:+ Error e))
  | Ok ciphertext =>
      if negb (aligned ciphertext)
      then Err (Wrap ErrInvalidKey ": encrypted node key is not AES-block aligned")
      else if negb (cipher_key_ok (nAESKey master))
      then Err (Wrap ErrInvalidKey (": node key cipher: " +:+ key_size_error (nAESKey master)))
      else
        let plaintext := map_blocks (D (nAESKey master)) (length ciphertext / 16) ciphertext in
        if bool_decide (length plaintext ≠ 16%nat) && bool_decide (length plaintext ≠ 32%nat)
        then Err (Wrap ErrInvalidKey (": decrypted node key has "
                    +:+ FormatInt (Z.of_nat (length plaintext)) +:+ " bytes"))
        else Ok plaintext
  end.

(** A CBC decrypter: each block is decrypted and xored with the ciphertext block
    before it. *)
Fixpoint cbc_decrypt (key iv : list Z) (fuel : nat) (data : list Z) : list Z :=
  match fuel with
  | O => []
  | S fuel => xor_bytes (D key (take 16 data)) iv ++ cbc_decrypt key (take 16 data) fuel (drop 16 data)
  end.

(** [strings.TrimRight(s, "\x00")]. *)
Fixpoint trim_right_zeros (l : list Z) : list Z :=
  match l with
  | [] => []
  | b :: l => match trim_right_zeros l with
              | [] => if b =? 0 then [] else [b]
              | l' => b :: l'
              end
  end.

Definition DecryptAttributes (encoded : string) (aesKey : list Z) : result error (gmap string any) :=
  match decodeURLBase64 encoded with
  | Err e => Err (Wrap ErrInvalidAttributes (": attribute base64: " +:+ Error e))
  | Ok ciphertext =>
      if negb (aligned ciphertext)
      then Err (Wrap ErrInvalidAttributes ": attribute ciphertext is not AES-block aligned")
      else if negb (cipher_key_ok aesKey)
      then Err (Wrap ErrInvalidAttributes (": attribute cipher: " +:+ key_size_error aesKey))
      else
        let plaintext := cbc_decrypt aesKey (replicate 16 0) (length ciphertext / 16) ciphertext in
        if (length plaintext <? 4)%nat || bool_decide (take 4 plaintext ≠ to_bytes "MEGA")
        then Err (Wrap ErrInvalidAttributes ": missing MEGA prefix")
        else match Unmarshal (trim_right_zeros (drop 4 plaintext)) with
        | Err e => Err (Wrap ErrInvalidAttributes (": JSON: " +:+ Error e))
        | Ok attributes => Ok attributes
        end
  end.
End keys.
