(* ===== verification/Links.v ===== *)
(** * Public links (internal/mega/links.go)

    Parsing of the modern and legacy link forms.  [url.Parse] is an argument
    that yields the components the program reads; nothing is assumed of it. *)

From Stdlib Require Import ZArith Lia Ascii.
From stdpp Require Import base list gmap strings numbers pretty.
From S2P Require Import Prelude GoStrings GoErrors GoBase64.

(** ** URLs *)

(** The components of a [url.URL] the program reads: [User] says whether there
    is a userinfo part, [Hostname] and [Port] are the parts of [Host]. *)
Record URL := mkURL {
  Scheme : string;
  User : bool;
  Host : string;
  Hostname : string;
  Port : string;
  EscapedPath : string;
  Fragment : string }.

Definition unhex (c : ascii) : option Z :=
  let n := char_byte c in
  if (48 <=? n) && (n <=? 57) then Some (n - 48)
  else if (97 <=? n) && (n <=? 102) then Some (n - 97 + 10)
  else if (65 <=? n) && (n <=? 70) then Some (n - 65 + 10)
  else None.

(** [url.PathUnescape]: a percent sign must be followed by two hex digits. *)
Fixpoint PathUnescape (s : string) : option string :=
  match s with
  | EmptyString => Some ""
  | String c rest =>
      if bool_decide (c = "%"%char) then
        match rest with
        | String a (String b rest) =>
            x ← unhex a; y ← unhex b; t ← PathUnescape rest;
            Some (String (byte_char (x * 16 + y)) t)
        | _ => None
        end
      else String c <$> PathUnescape rest
  end.

(** ** Links *)

Inductive LinkKind := LinkKindFile | LinkKindFolder.
#[export] Instance LinkKind_eq_dec : EqDecision LinkKind.
Proof. solve_decision. Defined.

Definition LinkKind_text (k : LinkKind) : string :=
  match k with LinkKindFile => "file" | LinkKindFolder => "folder" end.

Record PublicLink := mkLink {
  Kind : LinkKind;
  Handle : string;
  Key : string;
  SelectedPath : string;
  SelectedNode : string }.

#[export] Instance PublicLink_eta : Eta PublicLink := λ l,
  mkLink (Kind l) (Handle l) (Key l) (SelectedPath l) (SelectedNode l).

Definition isMEGAHost (host : string) : bool :=
  bool_decide (ToLower host ∈ ["mega.nz"; "www.mega.nz"; "mega.co.nz"; "www.mega.co.nz"]).

Definition token_char (c : ascii) : bool :=
  let n := char_byte c in
  (n =? 45) || (n =? 95) || ((48 <=? n) && (n <=? 57)) || ((65 <=? n) && (n <=? 90))
  || ((97 <=? n) && (n <=? 122)).

Fixpoint all_chars (P : ascii → bool) (s : string) : bool :=
  match s with EmptyString => true | String c s => P c && all_chars P s end.

Definition validateLinkToken (value label : string) : result error () :=
  if bool_decide (value = "") || (1024 <? String.length value)%nat
  then Err (Wrap ErrInvalidLink (": missing " +:+ label))
  else if all_chars token_char value then Ok ()
  else Err (Wrap ErrInvalidLink (": invalid " +:+ label)).

Definition parseLegacyLink (kind : LinkKind) (value : string) : result error PublicLink :=
  let '(handle, key, found) := Cut value "!" in
  if negb found then Err (Wrap ErrInvalidLink ": legacy link is missing a key")
  else
    _ ← validateLinkToken handle "handle";
    _ ← validateLinkToken key "key";
    Ok (mkLink kind handle key "" "").

(** The decoded path segments, in order; empty ones are skipped. *)
Fixpoint path_parts (parts : list string) : result error (list string) :=
  match parts with
  | [] => Ok []
  | part :: parts =>
      if bool_decide (part = "") then path_parts parts
      else match PathUnescape part with
      | None => Err (Wrap ErrInvalidLink ": invalid path escape")
      | Some decoded => rest ← path_parts parts; Ok (decoded :: rest)
      end
  end.

Definition modern_kind (part : string) : option LinkKind :=
  if bool_decide (part = "file") then Some LinkKindFile
  else if bool_decide (part = "folder") then Some LinkKindFolder else None.

(** The selection after the key of a folder link. *)
Definition with_selection (link : PublicLink) (tail : string) : result error PublicLink :=
  if bool_decide (Kind link ≠ LinkKindFolder)
  then Err (Wrap ErrInvalidLink ": file links cannot select a folder path")
  else
    let '(selectionKind, selectedNode, selected) := Cut tail "/" in
    if negb selected || negb (bool_decide (selectionKind ∈ ["file"; "folder"]))
    then Err (Wrap ErrInvalidLink ": invalid folder-link selection")
    else
      _ ← validateLinkToken selectedNode "selected node";
      Ok (link <| SelectedNode := selectedNode |>).

Definition modern_link (kind : LinkKind) (handle fragment : string) : result error PublicLink :=
  let '(before, tail, found) := Cut fragment "/" in
  let key := if found then before else fragment in
  _ ← validateLinkToken handle "handle";
  _ ← validateLinkToken key "key";
  let link := mkLink kind handle key "" "" in
  if found && negb (bool_decide (tail = "")) then with_selection link tail else Ok link.

Definition legacy_link (fragment : string) : result error PublicLink :=
  if HasPrefix fragment "F!" then parseLegacyLink LinkKindFolder (TrimPrefix fragment "F!")
  else if HasPrefix fragment "!" then parseLegacyLink LinkKindFile (TrimPrefix fragment "!")
  else Err (Wrap ErrInvalidLink ": unsupported path and fragment form").

Section parse.
Context (url_Parse : string → result error URL).

Definition ParseLink (rawURL : string) : result error PublicLink :=
  let trimmed := TrimSpace rawURL in
  if bool_decide (trimmed = "") then Err (Wrap ErrInvalidLink ": empty URL")
  else match url_Parse trimmed with
  | Err e => Err (Wrap ErrInvalidLink (": " +:+ Error e))
  | Ok parsed =>
      if bool_decide (Scheme parsed ≠ "https") || User parsed || negb (bool_decide (Port parsed = ""))
      then Err (Wrap ErrInvalidLink ": HTTPS MEGA links without userinfo or ports are required")
      else if negb (isMEGAHost (Hostname parsed))
      then Err (Wrap ErrInvalidLink (": unsupported host " +:+ quote (Host parsed)))
      else
        pathParts ← path_parts (Split (EscapedPath parsed) "/");
        match pathParts with
        | [first; handle] =>
            match modern_kind first with
            | Some kind => modern_link kind handle (Fragment parsed)
            | None => legacy_link (Fragment parsed)
            end
        | _ => legacy_link (Fragment parsed)
        end
  end.
End parse.

(** ** Tokens *)

Definition token (s : string) : Prop :=
  s ≠ "" ∧ (String.length s ≤ 1024)%nat ∧ all_chars token_char s = true.

Lemma validateLinkToken_ok value label : validateLinkToken value label = Ok () ↔ token value.
Proof.
  unfold validateLinkToken, token. case_bool_decide; cbn [orb]; [split; [done|tauto]|].
  destruct (_ <? _)%nat eqn:Hl; [apply Nat.ltb_lt in Hl|apply Nat.ltb_ge in Hl].
  - split; [done|lia].
  - destruct (all_chars token_char value); split; try done; intros (_ & _ & Hx); done.
Qed.

Lemma validate_inv {A} value label (k : () → result error A) a :
  (validateLinkToken value label ≫= k) = Ok a → token value ∧ k () = Ok a.
Proof.
  destruct (validateLinkToken value label) as [[]|e] eqn:H; [|done].
  intros Hk. split; [by apply (validateLinkToken_ok value label)|done].
Qed.

Lemma validate_step {A} value label (k : () → result error A) : token value →
  (validateLinkToken value label ≫= k) = k ().
Proof. intros H. by rewrite (proj2 (validateLinkToken_ok value label) H). Qed.

(** What the program may rely on once a link was accepted. *)
Definition link_ok (link : PublicLink) : Prop :=
  token (Handle link) ∧ token (Key link) ∧ SelectedPath link = ""
  ∧ (SelectedNode link = "" ∨ token (SelectedNode link) ∧ Kind link = LinkKindFolder).

Lemma parseLegacyLink_ok kind value link : parseLegacyLink kind value = Ok link → link_ok link.
Proof.
  unfold parseLegacyLink. destruct (Cut value "!") as [[handle key] found]. destruct found; [|done]. cbn [negb].
  intros [Hh [Hk [= <-]]%validate_inv]%validate_inv. unfold link_ok. cbn. tauto.
Qed.

Lemma legacy_link_ok fragment link : legacy_link fragment = Ok link → link_ok link.
Proof. unfold legacy_link. repeat case_match; [apply parseLegacyLink_ok..|done]. Qed.

Lemma modern_link_ok kind handle fragment link : modern_link kind handle fragment = Ok link → link_ok link.
Proof.
  unfold modern_link. destruct (Cut fragment "/") as [[before tail] found]. intros [Hh [Hk H]%validate_inv]%validate_inv.
  destruct (found && _); [|injection H as <-; unfold link_ok; cbn; tauto].
  unfold with_selection in H. case_bool_decide as Hf; [done|].
  destruct (Cut tail "/") as [[sk node] selected]. destruct (_ || _); [done|].
  apply validate_inv in H as [Hn [= <-]]. unfold link_ok. cbn in *. tauto.
Qed.

(** A link is only accepted from an https URL of a MEGA host without userinfo
    or port, and its handle, key and selected node are non-empty strings of at
    most 1024 URL-safe base64 characters; only folder links select a node. *)
Theorem ParseLink_accepts_only url_Parse rawURL link (Hok : ParseLink url_Parse rawURL = Ok link) :
  link_ok link
  ∧ ∃ u, url_Parse (TrimSpace rawURL) = Ok u ∧ Scheme u = "https" ∧ User u = false ∧ Port u = ""
      ∧ ToLower (Hostname u) ∈ ["mega.nz"; "www.mega.nz"; "mega.co.nz"; "www.mega.co.nz"].
Proof.
  unfold ParseLink in Hok. case_bool_decide; [done|]. destruct (url_Parse (TrimSpace rawURL)) as [u|e]; [|done].
  destruct (_ || _) eqn:Hs in Hok; [done|].
  apply orb_false_iff in Hs as [[Hs%bool_decide_eq_false Hu]%orb_false_iff Hp%negb_false_iff%bool_decide_eq_true].
  apply dec_stable in Hs. destruct (isMEGAHost (Hostname u)) eqn:Hh; [|done].
  apply bool_decide_eq_true in Hh. split; [|by exists u].
  cbn [negb] in Hok. destruct (path_parts _) as [parts|e]; [|done]. cbn in Hok.
  repeat case_match; solve [by eapply modern_link_ok|by eapply legacy_link_ok].
Qed.

(** ** Printed links parse back *)

(** The components [url.Parse] finds in the two printed forms of a link. *)
Definition modern_url (link : PublicLink) (host : string) (u : URL) : Prop :=
  Scheme u = "https" ∧ User u = false ∧ Port u = "" ∧ Hostname u = host ∧ isMEGAHost host = true
  ∧ EscapedPath u = "/" +:+ LinkKind_text (Kind link) +:+ "/" +:+ Handle link
  ∧ Fragment u = Key link +:+ (if bool_decide (SelectedNode link = "") then ""
                               else "/folder/" +:+ SelectedNode link).

Definition legacy_url (link : PublicLink) (host : string) (u : URL) : Prop :=
  Scheme u = "https" ∧ User u = false ∧ Port u = "" ∧ Hostname u = host ∧ isMEGAHost host = true
  ∧ EscapedPath u = "/"
  ∧ Fragment u = (match Kind link with LinkKindFolder => "F!" | LinkKindFile => "!" end)
                 +:+ Handle link +:+ "!" +:+ Key link.

Lemma token_no c s : token_char c = false → token s → str_elem c s = false.
Proof.
  intros Hc (_ & _ & H). induction s as [|a s IH]; [done|]. cbn in *. apply andb_true_iff in H as [Ha H].
  rewrite IH, orb_false_r by done. apply bool_decide_eq_false. congruence.
Qed.

Lemma Cut_none s c : str_elem c s = false → Cut s (String c "") = (s, "", false).
Proof.
  induction s as [|a s IH]; intros H; [done|]. cbn in H. apply orb_false_iff in H as [Ha%bool_decide_eq_false H].
  cbn. rewrite bool_decide_eq_false_2 by congruence. cbn. by rewrite IH.
Qed.

Lemma PathUnescape_token s : str_elem "%" s = false → PathUnescape s = Some s.
Proof.
  induction s as [|a s IH]; intros H; [done|]. cbn in H. apply orb_false_iff in H as [Ha H].
  cbn [PathUnescape]. rewrite Ha, IH by done. done.
Qed.

Lemma path_parts_token s rest : token s →
  path_parts (s :: rest) = r ← path_parts rest; Ok (s :: r).
Proof.
  intros Ht. cbn [path_parts]. rewrite bool_decide_eq_false_2 by apply Ht.
  by rewrite PathUnescape_token by (by apply token_no).
Qed.

Lemma path_parts_empty rest : path_parts ("" :: rest) = path_parts rest.
Proof. done. Qed.

Lemma kind_token k : token (LinkKind_text k).
Proof. destruct k; (split; [done|split; [cbn; lia|done]]). Qed.

Lemma modern_kind_text k : modern_kind (LinkKind_text k) = Some k.
Proof. by destruct k. Qed.

(** The modern and the legacy form of every well-formed link parse back to
    the link: whatever URL has those components, [ParseLink] recovers kind,
    handle, key and, for the modern form, the selected node. *)
Theorem ParseLink_roundtrip url_Parse rawURL link host u
    (Hlink : link_ok link) (Hraw : TrimSpace rawURL ≠ "") (Hparse : url_Parse (TrimSpace rawURL) = Ok u) :
  (modern_url link host u → ParseLink url_Parse rawURL = Ok link)
  ∧ (SelectedNode link = "" → legacy_url link host u → ParseLink url_Parse rawURL = Ok link).
Proof.
  destruct Hlink as (Hh & Hk & Hsp & Hn).
  split; [intros (Hs & Hu & Hp & Hho & Hm & He & Hf)|intros Hn0 (Hs & Hu & Hp & Hho & Hm & He & Hf)];
    unfold ParseLink; rewrite bool_decide_eq_false_2, Hparse, Hs, Hu, Hp, Hho, Hm, He, Hf by done; cbn [orb negb];
    rewrite (bool_decide_eq_false_2 ("https" ≠ "https")) by (intros Hx; done);
    rewrite (bool_decide_eq_true_2 ("" = "")) by done; cbn [negb orb].
  - change ("/" +:+ LinkKind_text (Kind link) +:+ "/" +:+ Handle link)
      with ("" +:+ String "/" (LinkKind_text (Kind link) +:+ String "/" (Handle link))).
    rewrite (Split_app_sep "") by done.
    rewrite Split_app_sep by (apply token_no; [done|apply kind_token]).
    rewrite Split_no_sep by (by apply token_no).
    rewrite path_parts_empty, path_parts_token by apply kind_token. rewrite path_parts_token by done.
    cbn [path_parts mbind result_bind]. rewrite modern_kind_text. unfold modern_link.
    case_bool_decide as Hsel.
    + rewrite str_app_nil_r, Cut_none by (by apply token_no). rewrite !validate_step by done. cbn.
      destruct link; cbn in *; by subst.
    + destruct Hn as [Hn|[Hn Hkind]]; [done|].
      change ("/folder/" +:+ SelectedNode link) with (String "/" ("folder" +:+ String "/" (SelectedNode link))).
      rewrite Cut_char_app by (by apply token_no). rewrite !validate_step by done. cbn [negb andb].
      rewrite bool_decide_eq_false_2 by done. cbn [negb andb].
      unfold with_selection. cbn [Kind]. rewrite Hkind, bool_decide_eq_false_2 by (intros H; done).
      rewrite Cut_char_app by done. cbn [negb orb].
      rewrite bool_decide_eq_true_2 by set_solver. rewrite validate_step by done.
      destruct link; cbn in *; by subst.
  - change (Split "/" "/") with ["";""]. rewrite !path_parts_empty.
    cbn [path_parts mbind result_bind]. unfold legacy_link.
    assert (parseLegacyLink (Kind link) (Handle link +:+ "!" +:+ Key link) = Ok link) as Hleg.
    { change ("!" +:+ Key link) with (String "!" (Key link)). unfold parseLegacyLink. rewrite Cut_char_app by (by apply token_no). cbn [negb].
      rewrite !validate_step by done. destruct link; cbn in *; by subst. }
    destruct (Kind link); [|by rewrite HasPrefix_app, TrimPrefix_app].
    rewrite HasPrefix_app, TrimPrefix_app. cbn. done.
Qed.

(** ** Witnesses *)

Definition sample_link : PublicLink := mkLink LinkKindFolder "AbCd1234" "0_-aZ9" "" "node5678".
Definition sample_url : URL :=
  mkURL "https" false "Mega.nz" "Mega.nz" "" "/folder/AbCd1234" "0_-aZ9/folder/node5678".
Definition sample_url_Parse (s : string) : result error URL :=
  if bool_decide (s = "https://Mega.nz/folder/AbCd1234#0_-aZ9/folder/node5678") then Ok sample_url
  else Err (New "parse").
Definition sample_raw : string := " https://Mega.nz/folder/AbCd1234#0_-aZ9/folder/node5678 ".

Lemma ParseLink_accepts_only_witness :
  link_ok sample_link
  ∧ ∃ u, sample_url_Parse (TrimSpace sample_raw) = Ok u ∧ Scheme u = "https" ∧ User u = false ∧ Port u = ""
      ∧ ToLower (Hostname u) ∈ ["mega.nz"; "www.mega.nz"; "mega.co.nz"; "www.mega.co.nz"].
Proof. apply (ParseLink_accepts_only sample_url_Parse sample_raw). by vm_compute. Defined.

Lemma sample_link_ok : link_ok sample_link.
Proof.
  unfold link_ok, token. split_and!; try done; try (cbn; lia). right.
  split_and!; try done. cbn. lia.
Qed.

Lemma ParseLink_roundtrip_witness :
  modern_url sample_link "Mega.nz" sample_url
  ∧ (modern_url sample_link "Mega.nz" sample_url → ParseLink sample_url_Parse sample_raw = Ok sample_link)
  ∧ (SelectedNode sample_link = "" → legacy_url sample_link "Mega.nz" sample_url →
     ParseLink sample_url_Parse sample_raw = Ok sample_link).
Proof.
  split; [by split_and!|].
  apply ParseLink_roundtrip; [apply sample_link_ok|by vm_compute|by vm_compute].
Defined.
