(* ===== verification/Hashcash.v ===== *)
(** * Proof of work for MEGA authentication (internal/mega/hashcash.go)

    Parsing a challenge and the search for a prefix whose digest is small
    enough.  SHA-256 is an argument. *)

From Stdlib Require Import ZArith Lia Ascii.
From stdpp Require Import base list strings numbers pretty.
From S2P Require Import Prelude GoStrings GoErrors GoBase64 Crypto.

Definition hashcashReplications : nat := Z.to_nat 262144.
Definition hashcashTokenSlot : nat := 48.

Record hashcashChallenge := mkChallenge { easiness : Z; challenge_token : string }.

Definition parseHashcashChallenge (header : string) : option hashcashChallenge :=
  match Split header ":" with
  | [version; easy; _; token] =>
      if bool_decide (version ≠ "1") then None
      else match ParseInt easy with
      | Some easiness =>
          if (easiness <? 0) || (255 <? easiness) || bool_decide (token = "") then None
          else match DecodeString RawURLEncoding token with
          | Some raw =>
              if bool_decide (raw = []) || (hashcashTokenSlot <? length raw)%nat then None
              else Some (mkChallenge easiness token)
          | None => None
          end
      | None => None
      end
  | _ => None
  end.

(** [copy(dst[offset:], src)]. *)
Definition copy_at (dst : list Z) (offset : nat) (src : list Z) : list Z :=
  let n := Nat.min (length dst - offset) (length src) in
  take offset dst ++ take n src ++ drop (offset + n) dst.

(** The token padded with zeros to a multiple of sixteen bytes. *)
Definition pad_token (tokenBytes : list Z) : list Z :=
  let remainder := Nat.modulo (length tokenBytes) 16 in
  if (remainder =? 0)%nat then tokenBytes else tokenBytes ++ replicate (16 - remainder) 0.

Definition token_buffer (tokenBytes : list Z) : list Z :=
  foldl (λ buffer index, copy_at buffer (4 + index * hashcashTokenSlot) tokenBytes)
    (replicate (4 + hashcashReplications * hashcashTokenSlot) 0) (seq 0 hashcashReplications).

(** [uint32((((easiness & 63) << 1) + 1) << ((easiness>>6)*7 + 3))]. *)
Definition hash_threshold (easiness : Z) : Z :=
  Z.shiftl (Z.shiftl (Z.land easiness 63) 1 + 1) (Z.shiftr easiness 6 * 7 + 3) `mod` 2 ^ 32.

(** [binary.LittleEndian.PutUint32(buffer[:4], prefix)]. *)
Definition le_bytes4 (x : Z) : list Z :=
  [x `mod` 256; (x `div` 256) `mod` 256; (x `div` 65536) `mod` 256; (x `div` 16777216) `mod` 256].

Definition with_prefix (buffer : list Z) (prefix : Z) : list Z := le_bytes4 prefix ++ drop 4 buffer.

Section hashcash.
Context (Sum256 : list Z → list Z).

Definition accepted (buffer : list Z) (threshold prefix : Z) : bool :=
  be_value (take 4 (Sum256 (with_prefix buffer prefix))) <=? threshold.

(** The search: [fuel] bounds its iterations, [cancelled] says whether the
    context is done when one starts. *)
Fixpoint search (buffer : list Z) (threshold stride : Z) (cancelled : Z → bool) (fuel : nat) (prefix : Z)
    : option string :=
  match fuel with
  | O => None
  | S fuel =>
      if cancelled prefix then Some ""
      else if accepted buffer threshold prefix
      then Some (EncodeToString RawURLEncoding (take 4 (with_prefix buffer prefix)))
      else
        let next := (prefix + stride) `mod` 2 ^ 32 in
        if next <? prefix then Some ""
        else search buffer threshold stride cancelled fuel next
  end.

Definition generateHashcash (cancelled : Z → bool) (fuel : nat) (token : string) (easiness prefix stride : Z)
    : option string :=
  if ContainsAny token "+/=" then Some ""
  else match DecodeString RawURLEncoding token with
  | None => Some ""
  | Some tokenBytes =>
      let buffer := token_buffer (pad_token tokenBytes) in
      let stride := if stride =? 0 then 1 else stride in
      search buffer (hash_threshold easiness) stride cancelled fuel prefix
  end.

(** The goroutines of [solveHashcash]: one or two workers that interleave the
    prefixes; a result is a worker's solution, or an error of the context. *)
Definition hashcash_workers (gomaxprocs : Z) : Z :=
  let workers := gomaxprocs `quot` 2 in
  let workers := if workers <? 1 then 1 else workers in
  if 2 <? workers then 2 else workers.

Inductive solveHashcash (gomaxprocs : Z) (challenge : hashcashChallenge) : result error string → Prop :=
| solved worker cancelled fuel value :
    0 ≤ worker < hashcash_workers gomaxprocs →
    generateHashcash cancelled fuel (challenge_token challenge) (easiness challenge)
      (worker + 1) (hashcash_workers gomaxprocs) = Some value →
    value ≠ "" → solveHashcash gomaxprocs challenge (Ok value)
| timed_out e : solveHashcash gomaxprocs challenge (Err e).

(** ** The search as a scan of an arithmetic progression *)

Definition attempts (prefix stride : Z) : list Z :=
  (λ k, prefix + k * stride) <$> seqZ 0 ((2 ^ 32 - 1 - prefix) `div` stride + 1).

Fixpoint first_solution (buffer : list Z) (threshold : Z) (cancelled : Z → bool) (l : list Z) : string :=
  match l with
  | [] => ""
  | p :: l =>
      if cancelled p then ""
      else if accepted buffer threshold p
      then EncodeToString RawURLEncoding (take 4 (with_prefix buffer p))
      else first_solution buffer threshold cancelled l
  end.

Lemma attempts_cons prefix stride : 0 ≤ prefix < 2 ^ 32 → 0 < stride →
  attempts prefix stride
  = prefix :: (if prefix + stride <? 2 ^ 32 then attempts (prefix + stride) stride else []).
Proof.
  intros Hp Hs. unfold attempts.
  assert (0 ≤ (2 ^ 32 - 1 - prefix) `div` stride) as Hq by (apply Z.div_pos; lia).
  rewrite seqZ_cons by lia. cbn [fmap list_fmap]. f_equal; [lia|].
  destruct (prefix + stride <? 2 ^ 32) eqn:H; [apply Z.ltb_lt in H|apply Z.ltb_ge in H].
  - replace (2 ^ 32 - 1 - (prefix + stride)) with (2 ^ 32 - 1 - prefix + (-1) * stride) by lia.
    rewrite Z.div_add by lia. rewrite <-(fmap_add_seqZ 1 0).
    replace (Z.pred ((2 ^ 32 - 1 - prefix) `div` stride + 1)) with ((2 ^ 32 - 1 - prefix) `div` stride + -1 + 1) by lia.
    rewrite <-list_fmap_compose. apply list_fmap_ext. intros _ k _. cbn. lia.
  - rewrite Z.div_small by lia. done.
Qed.

Lemma search_scans buffer threshold stride cancelled fuel prefix :
  0 ≤ prefix < 2 ^ 32 → 0 < stride < 2 ^ 32 → (length (attempts prefix stride) ≤ fuel)%nat →
  search buffer threshold stride cancelled fuel prefix
  = Some (first_solution buffer threshold cancelled (attempts prefix stride)).
Proof.
  revert prefix. induction fuel as [|fuel IH]; intros prefix Hp Hs; rewrite attempts_cons by lia; [cbn; lia|].
  cbn [length search first_solution]. intros Hf.
  destruct (cancelled prefix); [done|]. destruct (accepted buffer threshold prefix); [done|].
  destruct (prefix + stride <? 2 ^ 32) eqn:H; [apply Z.ltb_lt in H|apply Z.ltb_ge in H].
  - rewrite Z.mod_small by lia. rewrite (proj2 (Z.ltb_ge _ _)) by lia. apply IH; lia.
  - replace ((prefix + stride) `mod` 2 ^ 32) with (prefix + stride - 2 ^ 32) by (Z.to_euclidean_division_equations; lia).
    by rewrite (proj2 (Z.ltb_lt _ _)) by lia.
Qed.

Lemma EncodeToString_nonempty enc x l : EncodeToString enc (x :: l) ≠ "".
Proof. unfold EncodeToString. by destruct l as [|y [|z l]]. Qed.

Lemma first_solution_spec buffer threshold cancelled l :
  let v := first_solution buffer threshold cancelled l in
  (v ≠ "" → ∃ before p after, l = before ++ p :: after
     ∧ v = EncodeToString RawURLEncoding (le_bytes4 p) ∧ accepted buffer threshold p = true
     ∧ Forall (λ q, accepted buffer threshold q = false) before)
  ∧ (v = "" → (∀ q, q ∈ l → cancelled q = false) → ∀ q, q ∈ l → accepted buffer threshold q = false).
Proof.
  cbv zeta. induction l as [|p l [IH1 IH2]]; cbn [first_solution].
  { split; [done|]. intros _ _ q Hq. by apply elem_of_nil in Hq. }
  destruct (cancelled p) eqn:Hc.
  { split; [done|]. intros _ Hn. exfalso. rewrite (Hn p) in Hc; [done|by left]. }
  destruct (accepted buffer threshold p) eqn:Ha.
  - split; [|intros Hv; by apply EncodeToString_nonempty in Hv].
    intros _. exists [], p, l. done.
  - split.
    + intros Hv. destruct (IH1 Hv) as (before & q & after & -> & ? & ? & ?).
      exists (p :: before), q, after. split_and!; try done. by constructor.
    + intros Hv Hn q [->|Hq]%elem_of_cons; [done|]. apply IH2; try done. intros q' Hq'. apply Hn. by right.
Qed.

Lemma parse_inv header c : parseHashcashChallenge header = Some c →
  0 ≤ easiness c ≤ 255 ∧ ∃ raw, DecodeString RawURLEncoding (challenge_token c) = Some raw
    ∧ (0 < length raw ≤ hashcashTokenSlot)%nat.
Proof.
  unfold parseHashcashChallenge. destruct (Split header ":") as [|v [|e [|x [|tok [|]]]]]; try done.
  case_bool_decide; [done|]. destruct (ParseInt e) as [n|]; [|done].
  destruct ((n <? 0) || (255 <? n) || bool_decide (tok = "")) eqn:Hb; [done|].
  destruct (DecodeString RawURLEncoding tok) as [raw|] eqn:Hd; [|done].
  destruct (bool_decide (raw = []) || (hashcashTokenSlot <? length raw)%nat) eqn:Hr; [done|].
  intros [= <-]. cbn. apply orb_false_iff in Hb as [[Hb1%Z.ltb_ge Hb2%Z.ltb_ge]%orb_false_iff _].
  apply orb_false_iff in Hr as [Hr1%bool_decide_eq_false Hr2%Nat.ltb_ge].
  split; [lia|]. exists raw. split; [done|]. destruct raw; [done|]. cbn in *. lia.
Qed.

Lemma special_char c : str_elem c "+/=" = true →
  bool_decide (char_byte c = 10) || bool_decide (char_byte c = 13) = false
  ∧ decode_digit RawURLEncoding c = None.
Proof.
  cbn. rewrite !orb_true_iff, !bool_decide_eq_true. intros [<-|[<-|[<-|?]]]; by vm_compute.
Qed.

Lemma decodes_no_special s l : digits RawURLEncoding s = Some l → ContainsAny s "+/=" = false.
Proof.
  revert l. induction s as [|c s IH]; intros l; [done|]. cbn [digits ContainsAny].
  destruct (str_elem c "+/=") eqn:Hc.
  - destruct (special_char c Hc) as [-> ->]. done.
  - cbn [orb]. case_match; [apply IH|]. intros (v & _ & (l' & Hl' & _)%bind_Some)%bind_Some. by apply (IH l').
Qed.

Lemma threshold_exact e : 0 ≤ e ≤ 255 →
  hash_threshold e = (2 * (e `mod` 64) + 1) * 2 ^ (7 * (e `div` 64) + 3)
  ∧ 0 < hash_threshold e < 2 ^ 32.
Proof.
  intros He.
  assert (Forall (λ e, hash_threshold e = (2 * (e `mod` 64) + 1) * 2 ^ (7 * (e `div` 64) + 3)
    ∧ 0 < hash_threshold e < 2 ^ 32) (seqZ 0 256)) as H by (apply (bool_decide_unpack _); by vm_compute).
  rewrite Forall_forall in H. apply H, elem_of_seqZ. lia.
Qed.

Lemma workers_range g : 1 ≤ hashcash_workers g ≤ 2.
Proof.
  unfold hashcash_workers. destruct (g `quot` 2 <? 1) eqn:H; [done|]. apply Z.ltb_ge in H.
  destruct (2 <? g `quot` 2) eqn:H'; [lia|]. apply Z.ltb_ge in H'. lia.
Qed.

Lemma attempts_cover g p : 0 < p < 2 ^ 32 →
  ∃ worker, 0 ≤ worker < hashcash_workers g ∧ p ∈ attempts (worker + 1) (hashcash_workers g).
Proof.
  intros Hp. pose proof (workers_range g) as Hw. set (w := hashcash_workers g) in *.
  exists ((p - 1) `mod` w). split; [apply Z.mod_pos_bound; lia|].
  apply list_elem_of_fmap. exists ((p - 1) `div` w). split; [Z.to_euclidean_division_equations; lia|].
  apply elem_of_seqZ. split; [apply Z.div_pos; lia|].
  assert ((p - 1) `div` w ≤ (2 ^ 32 - 1 - ((p - 1) `mod` w + 1)) `div` w); [|lia].
  apply Z.div_le_lower_bound; [lia|]. pose proof (Z.div_mod (p - 1) w ltac:(lia)). lia.
Qed.

Lemma le_bytes4_ok p : Forall byte_ok (le_bytes4 p).
Proof. unfold le_bytes4, byte_ok. repeat constructor; apply Z.mod_pos_bound; lia. Qed.

Definition challenge_buffer (c : hashcashChallenge) : list Z :=
  token_buffer (pad_token (default [] (DecodeString RawURLEncoding (challenge_token c)))).

(** For a challenge the program accepts, the threshold is the exact 32-bit
    number its easiness encodes; a worker's search ends within its share of the
    32-bit prefixes, what it returns decodes to a four-byte prefix whose digest
    meets the threshold, and an uncancelled search that returns nothing has
    found every prefix of its share wanting; the shares of the workers together
    hold every prefix from 1 on. *)
Theorem hashcash_search header c g worker cancelled fuel
    (Hc : parseHashcashChallenge header = Some c) (Hw : 0 ≤ worker < hashcash_workers g)
    (Hfuel : (length (attempts (worker + 1) (hashcash_workers g)) ≤ fuel)%nat) :
  let share := attempts (worker + 1) (hashcash_workers g) in
  let meets p := be_value (take 4 (Sum256 (le_bytes4 p ++ drop 4 (challenge_buffer c)))) ≤ hash_threshold (easiness c) in
  (hash_threshold (easiness c) = (2 * (easiness c `mod` 64) + 1) * 2 ^ (7 * (easiness c `div` 64) + 3)
   ∧ hash_threshold (easiness c) < 2 ^ 32)
  ∧ (∃ v, generateHashcash cancelled fuel (challenge_token c) (easiness c) (worker + 1) (hashcash_workers g) = Some v
      ∧ (v ≠ "" → ∃ p, p ∈ share ∧ DecodeString RawURLEncoding v = Some (le_bytes4 p) ∧ meets p)
      ∧ (v = "" → (∀ p, p ∈ share → cancelled p = false) → ∀ p, p ∈ share → ¬ meets p))
  ∧ (∀ p, 0 < p < 2 ^ 32 → ∃ w, 0 ≤ w < hashcash_workers g ∧ p ∈ attempts (w + 1) (hashcash_workers g)).
Proof.
  cbv zeta. destruct (parse_inv _ _ Hc) as (He & raw & Hraw & Hlen).
  destruct (threshold_exact (easiness c) He) as [Ht1 [_ Ht2]]. split; [done|].
  split; [|by intros; apply attempts_cover]. pose proof (workers_range g) as Hg.
  unfold generateHashcash, challenge_buffer. rewrite Hraw. cbn [default].
  assert (ContainsAny (challenge_token c) "+/=" = false) as ->.
  { unfold DecodeString in Hraw. apply bind_Some in Hraw as (l & Hl & _). by eapply decodes_no_special. }
  assert (hashcash_workers g =? 0 = false) as -> by (apply Z.eqb_neq; lia).
  rewrite search_scans by (lia || done). eexists. split; [done|].
  destruct (first_solution_spec (token_buffer (pad_token raw)) (hash_threshold (easiness c)) cancelled
    (attempts (worker + 1) (hashcash_workers g))) as [H1 H2]. split.
  - intros Hv. destruct (H1 Hv) as (before & p & after & -> & -> & Ha & _).
    exists p. split; [apply elem_of_app; right; by left|]. rewrite DecodeString_EncodeToString by (apply _ || apply le_bytes4_ok).
    split; [done|]. by apply Z.leb_le in Ha.
  - intros Hv Hn p Hp. specialize (H2 Hv Hn p Hp). apply Z.leb_gt in H2. intros Hle. exact (Z.lt_irrefl _ (Z.lt_le_trans _ _ _ H2 Hle)).
Qed.
End hashcash.

Definition hashcashHeader (challenge : hashcashChallenge) (solution : string) : string :=
  "1:" +:+ challenge_token challenge +:+ ":" +:+ solution.

(** ** Witness *)

(** A digest that is the first byte of its input plus one, in the last place. *)
Definition sample_digest (l : list Z) : list Z := [0; 0; 0; hd 0 l].
Definition sample_challenge : hashcashChallenge := mkChallenge 0 "AAAA".

Lemma hashcash_search_witness :
  let c := sample_challenge in
  let share := attempts 1 1 in
  let meets p := be_value (take 4 (sample_digest (le_bytes4 p ++ drop 4 (challenge_buffer c)))) ≤ hash_threshold (easiness c) in
  (hash_threshold (easiness c) = (2 * (easiness c `mod` 64) + 1) * 2 ^ (7 * (easiness c `div` 64) + 3)
   ∧ hash_threshold (easiness c) < 2 ^ 32)
  ∧ (∃ v, generateHashcash sample_digest (λ _, false) (length share) (challenge_token c) (easiness c) 1 1 = Some v
      ∧ (v ≠ "" → ∃ p, p ∈ share ∧ DecodeString RawURLEncoding v = Some (le_bytes4 p) ∧ meets p)
      ∧ (v = "" → (∀ p, p ∈ share → false = false) → ∀ p, p ∈ share → ¬ meets p))
  ∧ (∀ p, 0 < p < 2 ^ 32 → ∃ w, 0 ≤ w < 1 ∧ p ∈ attempts (w + 1) 1).
Proof.
  apply (hashcash_search sample_digest "1:0:1700000000:AAAA" sample_challenge 2 0 (λ _, false));
    [by vm_compute|by split|apply Nat.le_refl].
Defined.
