(* ===== verification/MegaClient.v ===== *)
(** * The MEGA command client (internal/mega/client.go)

    One API command with its single proof-of-work retry, payload URLs, and the
    resolution of file and folder links.  The HTTP transport is a schedule of
    replies; the requests sent are recorded in order. *)

From Stdlib Require Import ZArith Lia.
From stdpp Require Import base list gmap strings numbers pretty.
From S2P Require Import Prelude GoStrings GoErrors GoBase64 Crypto MegaValues Links Hashcash.

(** ** One command *)

Record Request := mkRequest {
  rq_id : Z;
  rq_folder : string;
  rq_session : string;
  rq_payload : list (gmap string any);
  rq_hashcash : option string }.

(** What happens to one request.  [Unsendable]: it cannot be built.
    [NoResponse]: the transport failed, with the context's error if it is done.
    [Response]: status, the X-Hashcash header, what the solver makes of a
    challenge, the decoded body and the error of closing it. *)
Inductive Reply :=
| Unsendable (e : error)
| NoResponse (ctx_err : option error)
| Response (status : Z) (header : string) (solution : result error string)
    (body : result error (list any)) (close_err : option error).

Record Client := mkClient {
  api_url_error : option error;
  sequence : Z;
  session : string;
  replies : list Reply;
  sent : list Request }.

#[export] Instance Client_eta : Eta Client := λ c,
  mkClient (api_url_error c) (sequence c) (session c) (replies c) (sent c).

Abbreviation api := (cmd error Client).

Definition StatusPaymentRequired : Z := 402.

(** [c.httpClient.Do]. *)
Definition Do (r : Request) : api Reply := λ c,
  let c := c <| sent := sent c ++ [r] |> in
  match replies c with
  | [] => (c, Ok (NoResponse None))
  | reply :: rest => (c <| replies := rest |>, Ok reply)
  end.

Definition WithSession (c : Client) (s : string) : Client := c <| session := s |> <| sequence := 0 |>.

(** A reply that ends the command. *)
Definition finish (authenticated : bool) (status : Z) (body : result error (list any)) (close_err : option error)
    : result error (list any) :=
  if (status <? 200) || (300 <=? status) then
    if authenticated && ((status =? 401) || (status =? 403)) then Err (Sentinel ErrSessionRejected)
    else Err (APIHTTPError status)
  else match body, close_err with
  | Err e, _ => Err (Wrapf "decode MEGA API response" e)
  | Ok _, Some e => Err (Wrapf "close MEGA API response" e)
  | Ok [], None => Err (Wrap ErrInvalidLink ": empty MEGA API response")
  | Ok (first :: rest), None =>
      match numberValue (Some first) with
      | Some code =>
          if code <? 0 then Err (if code =? -26 then Sentinel ErrMFAUnsupported else APIError code)
          else Ok (first :: rest)
      | None => Ok (first :: rest)
      end
  end.

Definition to_api {A} (r : result error A) : api A :=
  match r with Ok a => mret a | Err e => throw e end.

(** The attempts of [doCommand]; [challenged] is the header of a solved
    challenge. *)
Fixpoint attempt_loop (id : Z) (payload : list (gmap string any)) (folderHandle : string) (allowHashcash : bool)
    (attempts : nat) (challenged : option string) : api (list any) :=
  match attempts with
  | O => throw (New "MEGA API request failed")
  | S attempts =>
      c ← get;
      reply ← Do (mkRequest id folderHandle (session c) payload challenged);
      match reply with
      | Unsendable e => throw (Wrapf "create MEGA API request" e)
      | NoResponse (Some e) => throw e
      | NoResponse None => throw (New "MEGA API request failed")
      | Response status header solution body close_err =>
          if (status =? StatusPaymentRequired) && allowHashcash && bool_decide (challenged = None) then
            match parseHashcashChallenge header with
            | None => throw (New "MEGA hashcash challenge is invalid")
            | Some challenge =>
                cash ← to_api solution;
                attempt_loop id payload folderHandle allowHashcash attempts (Some (hashcashHeader challenge cash))
            end
          else to_api (finish (negb (bool_decide (session c = ""))) status body close_err)
      end
  end.

Definition doCommand (payload : list (gmap string any)) (folderHandle : string) (allowHashcash : bool)
    : api (list any) :=
  c ← get;
  match api_url_error c with
  | Some e => throw (Wrapf "parse MEGA API URL" e)
  | None =>
      let id := (sequence c + 1) `mod` 2 ^ 64 in
      _ ← modify (λ c, c <| sequence := id |>);
      attempt_loop id payload folderHandle allowHashcash 2 None
  end.

Definition command (payload : list (gmap string any)) (folderHandle : string) : api (list any) :=
  doCommand payload folderHandle true.

Definition payloadFromCommand (cmd : gmap string any) (folderHandle : string) : api string :=
  response ← command [cmd] folderHandle;
  object ← to_api (firstObject response);
  let payload := stringValue (object !! "g") in
  if bool_decide (payload = "") then throw (Wrap ErrInvalidLink ": refreshed payload URL is missing")
  else mret payload.

Definition JInt (n : Z) : any := JNumber (FormatInt n).

Definition RefreshPayloadURL (link : PublicLink) (nodeID : string) : api string :=
  if bool_decide (Kind link = LinkKindFile)
  then payloadFromCommand {["a" := JString "g"; "g" := JInt 1; "p" := JString (Handle link)]} ""
  else payloadFromCommand {["a" := JString "g"; "g" := JInt 1; "n" := JString nodeID]} (Handle link).

Definition payloadURL (nodeHandle folderHandle : string) : api string :=
  response ← command [{["a" := JString "g"; "g" := JInt 1; "n" := JString nodeHandle]}] folderHandle;
  object ← to_api (firstObject response);
  let payloadURL := stringValue (object !! "g") in
  if bool_decide (payloadURL = "")
  then throw (Wrap ErrInvalidLink (": payload URL missing for node " +:+ quote nodeHandle))
  else mret payloadURL.

(** ** Payload ranges *)

Inductive RangeReply := RangeNoResponse (ctx_err : option error) | RangeResponse (status : Z) | RangeUnsendable (e : error).

(** [FetchPayloadRange]: the value of the Range header, or the error. *)
Definition range_header (start end_ : Z) : string :=
  "bytes=" +:+ FormatInt start +:+ "-" +:+ FormatInt end_.

Definition FetchPayloadRange (payloadURL : string) (start end_ : Z) (reply : RangeReply)
    : result error (string * Z) :=
  if bool_decide (payloadURL = "") || (start <? 0) || (end_ <? start) then Err (New "invalid MEGA payload range")
  else match reply with
  | RangeUnsendable e => Err (Wrapf "create MEGA payload request" e)
  | RangeNoResponse (Some e) => Err e
  | RangeNoResponse None => Err (New "MEGA payload request failed")
  | RangeResponse status => Ok (range_header start end_, status)
  end.

(** ** What a command sends and what its errors may reveal *)

Definition request_of (c : Client) (payload : list (gmap string any)) (folder : string) (h : option string) : Request :=
  mkRequest ((sequence c + 1) `mod` 2 ^ 64) folder (session c) payload h.

(** The requests of one command: none, one, or two of which the second answers
    a proof-of-work challenge. *)
Definition exchange (c : Client) (payload : list (gmap string any)) (folder : string) (allow : bool)
    (reqs : list Request) : Prop :=
  reqs = [] ∨ reqs = [request_of c payload folder None]
  ∨ allow = true ∧ ∃ header challenge cash,
      parseHashcashChallenge header = Some challenge
      ∧ reqs = [request_of c payload folder None; request_of c payload folder (Some (hashcashHeader challenge cash))].

Lemma to_api_state {A} (r : result error A) c : to_api r c = (c, r).
Proof. by destruct r. Qed.

(** One attempt, run. *)
Lemma attempt_run id payload folder allow n h c :
  attempt_loop id payload folder allow (S n) h c =
  let c1 := c <| sent := sent c ++ [mkRequest id folder (session c) payload h] |> <| replies := tail (replies c) |> in
  match hd (NoResponse None) (replies c) with
  | Unsendable e => (c1, Err (Wrapf "create MEGA API request" e))
  | NoResponse (Some e) => (c1, Err e)
  | NoResponse None => (c1, Err (New "MEGA API request failed"))
  | Response status header solution body close_err =>
      if (status =? StatusPaymentRequired) && allow && bool_decide (h = None) then
        match parseHashcashChallenge header, solution with
        | None, _ => (c1, Err (New "MEGA hashcash challenge is invalid"))
        | Some _, Err e => (c1, Err e)
        | Some ch, Ok cash => attempt_loop id payload folder allow n (Some (hashcashHeader ch cash)) c1
        end
      else (c1, finish (negb (bool_decide (session c = ""))) status body close_err)
  end.
Proof.
  change (attempt_loop id payload folder allow (S n) h c) with
    (match Do (mkRequest id folder (session c) payload h) c with
     | (c1, Ok reply) =>
       match reply with
       | Unsendable e => throw (Wrapf "create MEGA API request" e)
       | NoResponse (Some e) => throw e
       | NoResponse None => throw (New "MEGA API request failed")
       | Response status header solution body close_err =>
           if (status =? StatusPaymentRequired) && allow && bool_decide (h = None) then
             match parseHashcashChallenge header with
             | None => throw (New "MEGA hashcash challenge is invalid")
             | Some challenge =>
                 cash ← to_api solution;
                 attempt_loop id payload folder allow n (Some (hashcashHeader challenge cash))
             end
           else to_api (finish (negb (bool_decide (session c = ""))) status body close_err)
       end c1
     | (c1, Err e) => (c1, Err e)
     end).
  unfold Do. cbn [replies]. destruct c as [u q s [|reply rest] se]; [done|]. cbn -[attempt_loop finish].
  destruct reply as [e|[e|]|status header sol body ce]; try done.
  destruct (_ && _ && _); [|apply to_api_state].
  destruct (parseHashcashChallenge header); [|done]. by destruct sol.
Qed.

Lemma last_attempt id payload folder allow n h c :
  sent (attempt_loop id payload folder allow (S n) (Some h) c).1
  = sent c ++ [mkRequest id folder (session c) payload (Some h)].
Proof.
  rewrite attempt_run. cbv zeta.
  destruct (hd (NoResponse None) (replies c)) as [e|[e|]|status header sol body ce]; try done.
  destruct (_ && _ && _) eqn:Hf; [|done].
  by apply andb_true_iff in Hf as [_ Hf%bool_decide_eq_true].
Qed.

Lemma attempts_sent id payload folder allow c :
  let p := attempt_loop id payload folder allow 2 None c in
  let r h := mkRequest id folder (session c) payload h in
  sent p.1 = sent c ++ [r None]
  ∨ allow = true ∧ ∃ header challenge cash, parseHashcashChallenge header = Some challenge
      ∧ sent p.1 = sent c ++ [r None; r (Some (hashcashHeader challenge cash))].
Proof.
  cbv zeta. rewrite attempt_run. cbv zeta.
  destruct (hd (NoResponse None) (replies c)) as [e|[e|]|status header sol body ce]; try by left.
  destruct (_ && _ && _) eqn:Hh; [|by left]. apply andb_true_iff in Hh as [[_ Ha]%andb_true_iff _].
  destruct (parseHashcashChallenge header) as [ch|] eqn:Hp; [|by left].
  destruct sol as [cash|e]; [|by left]. right. split; [done|]. exists header, ch, cash. split; [done|].
  rewrite last_attempt. cbn. by rewrite <-app_assoc.
Qed.

(** Two states of the client that differ in the text of a session only. *)
Definition same_but_session (c1 c2 : Client) : Prop :=
  api_url_error c1 = api_url_error c2 ∧ sequence c1 = sequence c2 ∧ replies c1 = replies c2
  ∧ (session c1 = "" ↔ session c2 = "").

Lemma attempts_session id payload folder allow n h c1 c2 : same_but_session c1 c2 →
  (attempt_loop id payload folder allow n h c1).2 = (attempt_loop id payload folder allow n h c2).2.
Proof.
  revert h c1 c2. induction n as [|n IH]; intros h c1 c2 (Hu & Hq & Hr & Hs); [done|].
  rewrite !attempt_run. cbv zeta. rewrite Hr.
  destruct (hd (NoResponse None) (replies c2)) as [e|[e|]|status header sol body ce]; try done.
  destruct (_ && bool_decide (h = None)); [|cbn; by rewrite (bool_decide_ext _ _ Hs)].
  destruct (parseHashcashChallenge header) as [ch|]; [|done]. destruct sol as [cash|e]; [|done].
  apply IH. split; [done|split; [done|split; [done|exact Hs]]].
Qed.

Lemma doCommand_run payload folder allow c :
  doCommand payload folder allow c =
  match api_url_error c with
  | Some e => (c, Err (Wrapf "parse MEGA API URL" e))
  | None =>
      let id := (sequence c + 1) `mod` 2 ^ 64 in
      attempt_loop id payload folder allow 2 None (c <| sequence := id |>)
  end.
Proof. unfold doCommand. rewrite get_bind. by destruct (api_url_error c). Qed.

Lemma doCommand_sends payload folder allow c :
  ∃ reqs, sent (doCommand payload folder allow c).1 = sent c ++ reqs ∧ exchange c payload folder allow reqs.
Proof.
  rewrite doCommand_run. destruct (api_url_error c) as [e|].
  { exists []. rewrite app_nil_r. split; [done|by left]. }
  destruct (attempts_sent ((sequence c + 1) `mod` 2 ^ 64) payload folder allow
    (c <| sequence := (sequence c + 1) `mod` 2 ^ 64 |>)) as [H|(Ha & header & ch & cash & Hp & H)].
  + eexists. split; [exact H|]. right. by left.
  + eexists. split; [exact H|]. right. right. split; [done|]. by exists header, ch, cash.
Qed.

(** A command sends at most two requests, all with the client's session and
    the same fresh identifier, and the second only to answer a valid
    proof-of-work challenge; whatever the transport does, what the caller gets
    does not depend on the text of the session, so no error can reveal it. *)
Theorem doCommand_exchange payload folder allow c c' :
  (∃ reqs, sent (doCommand payload folder allow c).1 = sent c ++ reqs ∧ exchange c payload folder allow reqs)
  ∧ (same_but_session c c' → (doCommand payload folder allow c).2 = (doCommand payload folder allow c').2).
Proof.
  split; [apply doCommand_sends|].
  intros (Hu & Hq & Hr & Hs). rewrite !doCommand_run, Hu, Hq.
  destruct (api_url_error c') eqn:Hu'; [done|]. apply attempts_session.
  split; [cbn; congruence|split; [done|split; [done|exact Hs]]].
Qed.
