(* ===== verification/Folder.v ===== *)
(** * Resolving file and folder links (internal/mega/client.go)

    Decoding of the nodes a folder listing holds, the selection of a subtree,
    the paths of its files, and the jobs that result. *)

From Stdlib Require Import ZArith Lia Ascii.
From stdpp Require Import base list gmap strings numbers pretty.
From S2P Require Import Prelude GoStrings GoErrors GoBase64 Crypto MegaValues Links Hashcash MegaClient.

(** ** Data *)

Record folderNode := mkNode {
  nHandle : string;
  nParent : string;
  nKind : Z;
  nSize : Z;
  nName : string;
  nAttributes : gmap string string;
  nNodeKey : NodeKey;
  nFileKey : FileKey }.

Record ResolvedFile := mkResolvedFile {
  rf_NodeID : string;
  rf_RelativePath : string;
  rf_Size : Z;
  rf_FileKey : list Z;
  rf_Attributes : gmap string string;
  rf_Key : FileKey;
  rf_PayloadURL : string;
  rf_PayloadContext : string }.

Record ResolvedJob := mkResolvedJob {
  rj_Kind : LinkKind;
  rj_DisplayName : string;
  rj_TotalBytes : Z;
  rj_Files : list ResolvedFile }.

Definition zero_FileKey : FileKey :=
  mkFileKey (replicate 32 0) (replicate 16 0) (replicate 8 0) (replicate 8 0).
Definition zero_NodeKey : NodeKey := mkNodeKey [] (replicate 16 0).

(** ** Keys in a listing: a slash-separated list of owner:key *)

Fixpoint find_owner (candidates : list string) (owner : string) : option string :=
  match candidates with
  | [] => None
  | candidate :: candidates =>
      let '(candidateOwner, key, found) := Cut candidate ":" in
      if found && bool_decide (candidateOwner = owner) then Some key else find_owner candidates owner
  end.

Definition hasNodeKeyOwner (value : option any) (owner : string) : bool :=
  match value with
  | Some (JString encoded) => bool_decide (is_Some (find_owner (Split encoded "/") owner))
  | _ => false
  end.

Definition extractNodeKey (value : option any) (ownerHandle : string) : string :=
  match value with
  | Some (JString encoded) =>
      if bool_decide (encoded = "") then "" else default "" (find_owner (Split encoded "/") ownerHandle)
  | _ => ""
  end.

(** The two passes over the listing. *)
Fixpoint owned_root (items : list any) (index : Z) : result error (option string) :=
  match items with
  | [] => Ok None
  | JObject object :: items =>
      let handle := stringValue (object !! "h") in
      if negb (bool_decide (handle = "")) && hasNodeKeyOwner (object !! "k") handle then Ok (Some handle)
      else owned_root items (index + 1)
  | _ :: _ => Err (Wrap ErrInvalidLink (": folder node " +:+ FormatInt index +:+ " is not an object"))
  end.

Definition legacy_root (publicHandle : string) (item : any) : bool :=
  match item with
  | JObject object => bool_decide (stringValue (object !! "h") = publicHandle) && is_nil (object !! "k")
  | _ => false
  end.

Definition publicFolderRootHandle (items : list any) (publicHandle : string) : result error string :=
  owned ← owned_root items 0;
  match owned with
  | Some handle => Ok handle
  | None => if existsb (legacy_root publicHandle) items then Ok publicHandle
            else Err (Wrap ErrInvalidLink ": public folder root is missing")
  end.

(** ** Selection and paths *)

Section tree.
Context (byHandle : gmap string folderNode).

(** Both loops follow parents; [fuel] bounds the number of nodes visited. *)
Fixpoint within_go (selected : folderNode) (fuel : nat) (seen : gset string) (current : folderNode) : option bool :=
  match fuel with
  | O => None
  | S fuel =>
      if bool_decide (nHandle current = nHandle selected) then Some true
      else if bool_decide (nHandle current ∈ seen) then Some false
      else
        let seen := {[nHandle current]} ∪ seen in
        if bool_decide (nParent current = "") then Some false
        else match byHandle !! nParent current with
        | None => Some false
        | Some parent => within_go selected fuel seen parent
        end
  end.

Definition tree_fuel : nat := S (S (size byHandle)).

Definition nodeIsWithinSelection (node selected : folderNode) : option bool :=
  within_go selected tree_fuel ∅ node.

Definition is_selected (selectedRoot : option folderNode) (node : folderNode) : bool :=
  match selectedRoot with
  | Some s => bool_decide (nHandle node = nHandle s)
  | None => false
  end.

(** The names gathered so far are in [parts], the deepest first. *)
Fixpoint path_go (node : folderNode) (selectedRoot : option folderNode) (fuel : nat)
    (parts : list string) (seen : gset string) (parent : string) : option (result error (list string)) :=
  match fuel with
  | O => None
  | S fuel =>
      if bool_decide (parent = "") then Some (Ok parts)
      else if bool_decide (parent ∈ seen)
      then Some (Err (Wrap ErrInvalidLink (": folder node cycle at " +:+ quote parent)))
      else
        let seen := {[parent]} ∪ seen in
        match byHandle !! parent with
        | None => Some (Err (Wrap ErrInvalidLink
            (": missing parent " +:+ quote parent +:+ " for node " +:+ quote (nHandle node))))
        | Some parentNode =>
            let parts := parts ++ [nName parentNode] in
            if is_selected selectedRoot parentNode then Some (Ok parts)
            else path_go node selectedRoot fuel parts seen (nParent parentNode)
        end
  end.

Definition folderNodePathFrom (node : folderNode) (selectedRoot : option folderNode)
    : option (result error string) :=
  if is_selected selectedRoot node then Some (Ok (nName node))
  else
    r ← path_go node selectedRoot tree_fuel [nName node] {[nHandle node]} (nParent node);
    Some (parts ← r; Ok (Join (reverse parts) "/")).
End tree.

Definition index_nodes (nodes : list folderNode) : gmap string folderNode :=
  foldl (λ m node, if bool_decide (nHandle node = "") then m else <[nHandle node := node]> m) ∅ nodes.

Definition out_of_fuel : error := New "unreachable".

Section resolve.
Context (Base64ToBytes : string → result error (list Z)).
Context (D : list Z → list Z → list Z).
Context (Unmarshal : list Z → result error (gmap string any)).
Context (url_Parse : string → result error URL).

(** ** Files *)

Definition fileFromMetadata (object : gmap string any) (handle folderHandle : string) (key : FileKey)
    : result error ResolvedFile :=
  match numberValue (object !! "s") with
  | None => Err (Wrap ErrInvalidLink ": file metadata has an invalid size")
  | Some size =>
      if size <? 0 then Err (Wrap ErrInvalidLink ": negative file size")
      else
        let encodedAttributes := stringValue (object !! "at") in
        if bool_decide (encodedAttributes = "") then Err (Wrap ErrInvalidLink ": file metadata has no attributes")
        else
          attributes ← DecryptAttributes Base64ToBytes D Unmarshal encodedAttributes (AESKey key);
          let payloadURL := stringValue (object !! "g") in
          if bool_decide (payloadURL = "") then Err (Wrap ErrInvalidLink ": file metadata has no payload URL")
          else
            let name := stringValue (attributes !! "n") in
            let name := if bool_decide (name = "") then handle else name in
            Ok (mkResolvedFile handle name size (Raw key) (attributeStrings attributes) key payloadURL folderHandle)
  end.

Definition resolveFile (link : PublicLink) : api ResolvedFile :=
  key ← to_api (DecodeFileKey Base64ToBytes (Key link));
  response ← command [{["a" := JString "g"; "g" := JInt 1; "p" := JString (Handle link)]}] "";
  object ← to_api (firstObject response);
  to_api (fileFromMetadata object (Handle link) "" key).

(** ** Nodes *)

(** The keys of a node and the AES key of its attributes. *)
Definition node_keys (object : gmap string any) (handle rootHandle : string) (kind : Z) (masterKey : NodeKey)
    : result error (NodeKey * FileKey * list Z) :=
  if bool_decide (handle = rootHandle) && negb (kind =? 0) && is_nil (object !! "k")
  then Ok (masterKey, zero_FileKey, nAESKey masterKey)
  else
    let encryptedKey := extractNodeKey (object !! "k") rootHandle in
    if bool_decide (encryptedKey = "")
    then Err (Wrap ErrInvalidLink (": node " +:+ quote handle +:+ " has no encrypted key"))
    else match DecryptNodeKey Base64ToBytes D encryptedKey masterKey with
    | Err e => Err (Wrapf ("decode node " +:+ quote handle) e)
    | Ok decrypted =>
        if kind =? 0 then
          match decodeFileKeyBytes decrypted with
          | Err e => Err (Wrapf ("decode file node " +:+ quote handle) e)
          | Ok key => Ok (zero_NodeKey, key, AESKey key)
          end
        else match decodeNodeKeyBytes decrypted with
        | Err e => Err (Wrapf ("decode folder node " +:+ quote handle) e)
        | Ok key => Ok (key, zero_FileKey, nAESKey key)
        end
    end.

Definition decodeFolderNode (object : gmap string any) (rootHandle : string) (masterKey : NodeKey)
    : result error folderNode :=
  let handle := stringValue (object !! "h") in
  let parent := stringValue (object !! "p") in
  if bool_decide (handle = "") then Err (Wrap ErrInvalidLink ": folder node has no handle")
  else match numberValue (object !! "t") with
  | None => Err (Wrap ErrInvalidLink (": node " +:+ quote handle +:+ " has an invalid type"))
  | Some kind =>
      size ← match object !! "s" with
             | None => Ok 0
             | Some rawSize =>
                 match numberValue (Some rawSize) with
                 | None => Err (Wrap ErrInvalidLink (": node " +:+ quote handle +:+ " has an invalid size"))
                 | Some size => Ok size
                 end
             end;
      if size <? 0 then Err (Wrap ErrInvalidLink (": node " +:+ quote handle +:+ " has a negative size"))
      else
        let parent := if bool_decide (handle = rootHandle) then "" else parent in
        keys ← node_keys object handle rootHandle kind masterKey;
        let '(nodeKey, fileKey, aesKey) := keys in
        let encodedAttributes := stringValue (object !! "a") in
        attributes ←
          (if bool_decide (encodedAttributes = "") then Ok ∅
           else match DecryptAttributes Base64ToBytes D Unmarshal encodedAttributes aesKey with
           | Err e => Err (Wrapf ("decode attributes for node " +:+ quote handle) e)
           | Ok attributes => Ok (attributeStrings attributes)
           end);
        let name := default "" (attributes !! "n") in
        let name := if bool_decide (name = "") then handle else name in
        Ok (mkNode handle parent kind size name attributes nodeKey fileKey)
  end.

Fixpoint decode_nodes (items : list any) (index : Z) (rootHandle : string) (masterKey : NodeKey)
    : result error (list folderNode) :=
  match items with
  | [] => Ok []
  | JObject object :: items =>
      node ← decodeFolderNode object rootHandle masterKey;
      nodes ← decode_nodes items (index + 1) rootHandle masterKey;
      Ok (node :: nodes)
  | _ :: _ => Err (Wrap ErrInvalidLink (": folder node " +:+ FormatInt index +:+ " is not an object"))
  end.

(** ** Folders *)

Definition max_int64 : Z := 2 ^ 63 - 1.

(** The loop over the nodes of the listing. *)
Fixpoint collect_files (link : PublicLink) (byHandle : gmap string folderNode) (selectedRoot : option folderNode)
    (nodes : list folderNode) (total : Z) : api (list ResolvedFile * Z) :=
  match nodes with
  | [] => mret ([], total)
  | node :: nodes =>
      let continue := collect_files link byHandle selectedRoot nodes in
      if negb (nKind node =? 0) then continue total
      else
        within ← match selectedRoot with
                 | None => mret true
                 | Some s => match nodeIsWithinSelection byHandle node s with
                             | Some b => mret b
                             | None => throw out_of_fuel
                             end
                 end;
        if negb within then continue total
        else if nSize node <? 0
        then throw (Wrap ErrInvalidLink (": file " +:+ quote (nHandle node) +:+ " has a negative size"))
        else if max_int64 - nSize node <? total
        then throw (Wrap ErrInvalidLink ": folder size overflows int64")
        else
          relativePath ← match folderNodePathFrom byHandle node selectedRoot with
                         | Some r => to_api r
                         | None => throw out_of_fuel
                         end;
          url ← payloadURL (nHandle node) (Handle link);
          let file := mkResolvedFile (nHandle node) relativePath (nSize node) (Raw (nFileKey node))
                        (cloneStringMap (nAttributes node)) (nFileKey node) url (Handle link) in
          rest ← continue (total + nSize node);
          mret (file :: rest.1, rest.2)
  end.

Definition resolveFolder (link : PublicLink) : api ResolvedJob :=
  masterKey ← to_api (DecodeNodeKey Base64ToBytes (Key link));
  response ← command [{["a" := JString "f"; "c" := JInt 1; "r" := JInt 1; "ca" := JInt 1]}] (Handle link);
  root ← to_api (firstObject response);
  match root !! "f" with
  | Some (JArray items) =>
      rootHandle ← to_api (publicFolderRootHandle items (Handle link));
      nodes ← to_api (decode_nodes items 0 rootHandle masterKey);
      let byHandle := index_nodes nodes in
      let rootName := match byHandle !! rootHandle with
                      | Some rootNode => if bool_decide (nName rootNode = "") then rootHandle else nName rootNode
                      | None => rootHandle
                      end in
      let selectedRoot := byHandle !! SelectedNode link in
      rootName ←
        (if bool_decide (SelectedNode link = "") then mret rootName
         else match selectedRoot with
         | None => throw (Wrap ErrInvalidLink
             (": selected folder node " +:+ quote (SelectedNode link) +:+ " is missing"))
         | Some s => mret (nName s)
         end);
      collected ← collect_files link byHandle selectedRoot nodes 0;
      if bool_decide (collected.1 = []) then throw (Wrap ErrInvalidLink ": folder contains no files")
      else mret (mkResolvedJob LinkKindFolder rootName collected.2 collected.1)
  | _ => throw (Wrap ErrInvalidLink ": folder response has no node list")
  end.

Definition ResolveLink (rawURL : string) : api ResolvedJob :=
  link ← to_api (ParseLink url_Parse rawURL);
  if bool_decide (Kind link = LinkKindFile) then
    file ← resolveFile link;
    mret (mkResolvedJob LinkKindFile (rf_RelativePath file) (rf_Size file) [file])
  else resolveFolder link.
End resolve.

(** ** Following parents *)

Section tree_facts.
Context (byHandle : gmap string folderNode).
Context (indexed : ∀ h n, byHandle !! h = Some n → nHandle n = h).

Definition parent_of (n p : folderNode) : Prop := nParent n ≠ "" ∧ byHandle !! nParent n = Some p.
Definition in_tree (n : folderNode) : Prop := byHandle !! nHandle n = Some n.

(** [n] lies in the subtree of a node with the handle of [s]. *)
Definition descends (n s : folderNode) : Prop := ∃ a, rtc parent_of n a ∧ nHandle a = nHandle s.

Lemma parent_in_tree n p : parent_of n p → in_tree p.
Proof. intros [_ H]. unfold in_tree. by rewrite (indexed _ _ H). Qed.

Lemma parent_unique n p q : parent_of n p → parent_of n q → p = q.
Proof. intros [_ H1] [_ H2]. congruence. Qed.

(** The handles seen by a loop: its start and nodes of the tree. *)
Definition seen_ok (start : string) (seen : gset string) : Prop := seen ⊆ {[start]} ∪ dom byHandle.

Lemma seen_bound start seen : seen_ok start seen → (size seen ≤ S (size byHandle))%nat.
Proof.
  unfold seen_ok. intros H%subseteq_size. etrans; [exact H|]. rewrite size_union_alt, size_singleton, <-size_dom.
  pose proof (subseteq_size (dom byHandle ∖ {[start]}) (dom byHandle) ltac:(set_solver)). lia.
Qed.

Lemma seen_grows (h : string) (seen : gset string) : h ∉ seen → size ({[h]} ∪ seen) = S (size seen).
Proof. intros H. rewrite size_union by set_solver. by rewrite size_singleton. Qed.

Lemma within_go_total selected start fuel seen current :
  seen_ok start seen → nHandle current = start ∨ in_tree current →
  (tree_fuel byHandle ≤ fuel + size seen)%nat →
  is_Some (within_go byHandle selected fuel seen current).
Proof.
  unfold tree_fuel. revert seen current. induction fuel as [|fuel IH]; intros seen current Hs Hc Hf.
  { pose proof (seen_bound _ _ Hs). lia. }
  cbn [within_go]. case_bool_decide; [done|]. case_bool_decide as Hseen; [done|].
  case_bool_decide; [done|]. destruct (byHandle !! nParent current) as [p|] eqn:Hp; [|done].
  apply IH.
  - unfold seen_ok in *. destruct Hc as [<-|Hc]; [set_solver|].
    apply elem_of_dom_2 in Hc. set_solver.
  - right. unfold in_tree. by rewrite (indexed _ _ Hp).
  - rewrite seen_grows by done. lia.
Qed.

Lemma within_go_true selected fuel seen current :
  within_go byHandle selected fuel seen current = Some true → descends current selected.
Proof.
  revert seen current. induction fuel as [|fuel IH]; intros seen current; [done|]. cbn [within_go].
  case_bool_decide as Hh; [intros _; by exists current|]. case_bool_decide; [done|].
  case_bool_decide as Hp; [done|]. destruct (byHandle !! nParent current) as [p|] eqn:Hl; [|done].
  intros (a & Ha & Hs)%IH. exists a. split; [|done]. eapply rtc_l; [|exact Ha]. done.
Qed.

(** What the loop knows of the nodes it has passed. *)
Definition passed (selected current : folderNode) (seen : gset string) : Prop :=
  ∀ n, in_tree n → nHandle n ∈ seen →
    nHandle n ≠ nHandle selected ∧ ∀ p, parent_of n p → nHandle p ∈ seen ∨ p = current.

Lemma within_go_false selected fuel seen current :
  passed selected current seen → in_tree current →
  within_go byHandle selected fuel seen current = Some false → ¬ descends current selected.
Proof.
  revert seen current. induction fuel as [|fuel IH]; intros seen current Hpass Hc; [done|]. cbn [within_go].
  case_bool_decide as Hh; [done|]. case_bool_decide as Hseen.
  { intros _ (a & Ha & Hs). assert (in_tree a ∧ nHandle a ∈ seen) as [Hta Hsa].
    { clear Hs. revert a Ha. apply (rtc_ind_r (λ a, in_tree a ∧ nHandle a ∈ seen)); [done|].
      intros y z _ Hyz [Hy Hys]. split; [by eapply parent_in_tree|].
      by destruct (proj2 (Hpass y Hy Hys) z Hyz) as [?| ->]. }
    by destruct (Hpass a Hta Hsa). }
  case_bool_decide as Hp.
  { intros _ (a & Ha & Hs). apply rtc_inv in Ha as [->|(y & [Hy _] & _)]; done. }
  destruct (byHandle !! nParent current) as [p|] eqn:Hl.
  - intros Hf (a & Ha & Hs). apply rtc_inv in Ha as [->|(y & Hy & Hya)]; [done|].
    assert (y = p) as -> by (apply (parent_unique current); done).
    eapply (IH _ p); [|by eapply parent_in_tree|exact Hf|by exists a].
    intros n Hn Hin. apply elem_of_union in Hin as [Hin%elem_of_singleton|Hin].
    + assert (n = current) as -> by (unfold in_tree in *; rewrite Hin in Hn; congruence).
      split; [done|]. intros q Hq. right. by apply (parent_unique current).
    + destruct (Hpass n Hn Hin) as [Hne Hpar]. split; [done|]. intros q Hq.
      left. destruct (Hpar q Hq) as [Hq'|<-]; set_solver.
  - intros _ (a & Ha & Hs). apply rtc_inv in Ha as [->|(y & [_ Hy] & _)]; [done|congruence].
Qed.

Lemma nodeIsWithinSelection_spec node selected :
  (∃ b, nodeIsWithinSelection byHandle node selected = Some b ∧ (b = true → descends node selected))
  ∧ (in_tree node → nodeIsWithinSelection byHandle node selected = Some false → ¬ descends node selected).
Proof.
  unfold nodeIsWithinSelection. split.
  - destruct (within_go_total selected (nHandle node) (tree_fuel byHandle) ∅ node) as [b Hb];
      [set_solver|by left|lia|].
    exists b. split; [done|]. intros ->. by eapply within_go_true.
  - intros Hn. apply within_go_false; [|done]. intros n _ Hin. set_solver.
Qed.

(** ** Paths *)

(** [ancestry sel n names]: the names from the selection, or from a node
    without parent, down to [n]. *)
Inductive ancestry (selectedRoot : option folderNode) : folderNode → list string → Prop :=
| anc_selected n : is_selected selectedRoot n = true → ancestry selectedRoot n [nName n]
| anc_top n : is_selected selectedRoot n = false → nParent n = "" → ancestry selectedRoot n [nName n]
| anc_step n p names : is_selected selectedRoot n = false → parent_of n p →
    ancestry selectedRoot p names → ancestry selectedRoot n (names ++ [nName n]).

Lemma path_go_total node sel fuel parts seen parent :
  seen_ok (nHandle node) seen → (tree_fuel byHandle ≤ fuel + size seen)%nat →
  is_Some (path_go byHandle node sel fuel parts seen parent).
Proof.
  unfold tree_fuel. revert parts seen parent. induction fuel as [|fuel IH]; intros parts seen parent Hs Hf.
  { pose proof (seen_bound _ _ Hs). lia. }
  cbn [path_go]. case_bool_decide; [done|]. case_bool_decide; [done|].
  destruct (byHandle !! parent) as [p|] eqn:Hp; [|done]. destruct (is_selected sel p); [done|].
  apply IH; [|rewrite seen_grows by done; lia].
  apply elem_of_dom_2 in Hp. unfold seen_ok in *. set_solver.
Qed.

Lemma path_go_spec node sel fuel parts seen n parts' :
  is_selected sel n = false →
  path_go byHandle node sel fuel (parts ++ [nName n]) seen (nParent n) = Some (Ok parts') →
  ∃ names, ancestry sel n names ∧ parts' = parts ++ reverse names.
Proof.
  revert parts seen n. induction fuel as [|fuel IH]; intros parts seen n Hn; [done|]. cbn [path_go].
  case_bool_decide as Hp.
  { intros [= <-]. exists [nName n]. split; [by apply anc_top|done]. }
  case_bool_decide; [done|]. destruct (byHandle !! nParent n) as [p|] eqn:Hl; [|done].
  assert (parent_of n p) as Hpar by done. destruct (is_selected sel p) eqn:Hsel.
  - intros [= <-]. exists ([nName p] ++ [nName n]).
    split; [apply (anc_step _ _ p); [done..|by apply anc_selected]|by rewrite <-app_assoc].
  - intros Hgo. destruct (IH (parts ++ [nName n]) _ p Hsel Hgo) as (names & Ha & ->).
    exists (names ++ [nName n]). split; [by apply (anc_step _ _ p)|].
    by rewrite reverse_app, <-app_assoc.
Qed.

Lemma folderNodePathFrom_spec node sel :
  ∃ r, folderNodePathFrom byHandle node sel = Some r
    ∧ ∀ path, r = Ok path → ∃ names, ancestry sel node names ∧ path = Join names "/".
Proof.
  unfold folderNodePathFrom. destruct (is_selected sel node) eqn:Hsel.
  { eexists. split; [done|]. intros path [= <-]. exists [nName node]. split; [by apply anc_selected|done]. }
  destruct (path_go_total node sel (tree_fuel byHandle) [nName node] {[nHandle node]} (nParent node)) as [r Hr];
    [unfold seen_ok; set_solver|lia|].
  rewrite Hr. eexists. split; [done|]. intros path Hp. destruct r as [parts|e]; [|done]. cbn in Hp.
  injection Hp as <-. destruct (path_go_spec node sel _ [] _ _ _ Hsel Hr) as (names & Ha & ->).
  exists names. split; [done|]. by rewrite app_nil_l, reverse_involutive.
Qed.
End tree_facts.

(** ** The index of a listing *)

Lemma index_nodes_indexed nodes h n : index_nodes nodes !! h = Some n → nHandle n = h.
Proof.
  unfold index_nodes. assert (∀ m : gmap string folderNode,
    (∀ h n, m !! h = Some n → nHandle n = h) → ∀ h n, foldl (λ m node,
      if bool_decide (nHandle node = "") then m else <[nHandle node := node]> m) m nodes !! h = Some n →
    nHandle n = h) as Hgen; [|by apply Hgen].
  clear h n. induction nodes as [|x nodes IH]; intros m Hm h n; [apply Hm|]. apply IH.
  intros h' n'. case_bool_decide; [apply Hm|].
  intros [[<- <-]|[_ H']]%lookup_insert_Some; [done|by apply Hm].
Qed.

Lemma index_nodes_snoc nodes x : index_nodes (nodes ++ [x])
  = if bool_decide (nHandle x = "") then index_nodes nodes else <[nHandle x := x]> (index_nodes nodes).
Proof. unfold index_nodes. by rewrite foldl_snoc. Qed.

Lemma index_nodes_distinct nodes n :
  NoDup (nHandle <$> nodes) → nHandle n ≠ "" → n ∈ nodes → index_nodes nodes !! nHandle n = Some n.
Proof.
  induction nodes as [|x nodes IH] using rev_ind; intros Hnd Hne Hin; [by apply elem_of_nil in Hin|].
  rewrite fmap_app in Hnd. apply NoDup_app in Hnd as (Hnd & Hdis & _). rewrite index_nodes_snoc.
  apply elem_of_app in Hin as [Hin|Hin%list_elem_of_singleton].
  - assert (nHandle x ≠ nHandle n).
    { intros Heq. apply (Hdis (nHandle n)); [apply list_elem_of_fmap; by exists n|]. rewrite <-Heq. by left. }
    case_bool_decide; [by apply IH|]. rewrite lookup_insert_ne by done. by apply IH.
  - subst. rewrite bool_decide_eq_false_2 by done. by rewrite lookup_insert_eq.
Qed.

(** ** What a resolved folder holds *)

Lemma decodeFolderNode_ok B D U object root master n :
  decodeFolderNode B D U object root master = Ok n →
  nHandle n = stringValue (object !! "h") ∧ nHandle n ≠ "" ∧ 0 ≤ nSize n
  ∧ (nHandle n = root → nParent n = "").
Proof.
  unfold decodeFolderNode. case_bool_decide as Hh; [done|].
  destruct (numberValue (object !! "t")) as [kind|]; [|done].
  destruct (match object !! "s" with Some _ => _ | None => _ end) as [size|e]; [|done].
  cbn [mbind result_bind]. destruct (size <? 0) eqn:Hs; [done|]. apply Z.ltb_ge in Hs.
  destruct (node_keys B D object (stringValue (object !! "h")) root kind master) as [[[nk fk] ak]|e]; [|done].
  cbn [mbind result_bind].
  destruct (if bool_decide (stringValue (object !! "a") = "") then _ else _) as [attrs|e]; [|done]. cbn [mbind result_bind].
  intros [= <-]. cbn. split_and!; try done. intros ->. by rewrite bool_decide_eq_true_2.
Qed.

Lemma decode_nodes_ok B D U items index root master nodes :
  decode_nodes B D U items index root master = Ok nodes →
  Forall (λ n, nHandle n ≠ "" ∧ 0 ≤ nSize n ∧ (nHandle n = root → nParent n = "")) nodes.
Proof.
  revert index nodes. induction items as [|item items IH]; intros index nodes; [by intros [= <-]|].
  cbn [decode_nodes]. destruct item; try done.
  destruct (decodeFolderNode B D U fields root master) as [n|e] eqn:Hn; [|done].
  cbn [mbind result_bind]. destruct (decode_nodes B D U items (index + 1) root master) as [ns|e] eqn:Hns; [|done].
  intros [= <-]. constructor; [|by eapply IH].
  apply decodeFolderNode_ok in Hn as (_ & ? & ? & ?). done.
Qed.

(** The nodes a resolution takes. *)
Definition in_selection (byHandle : gmap string folderNode) (sel : option folderNode) (n : folderNode) : bool :=
  match sel with
  | None => true
  | Some s => bool_decide (nodeIsWithinSelection byHandle n s = Some true)
  end.

Definition chosen (byHandle : gmap string folderNode) (sel : option folderNode) (n : folderNode) : Prop :=
  nKind n = 0 ∧ in_selection byHandle sel n = true.
#[export] Instance chosen_dec byHandle sel n : Decision (chosen byHandle sel n).
Proof. unfold chosen. apply _. Defined.

(** The file a node becomes. *)
Record file_of (link : PublicLink) (byHandle : gmap string folderNode) (sel : option folderNode)
    (n : folderNode) (f : ResolvedFile) : Prop := {
  file_node : rf_NodeID f = nHandle n;
  file_size : rf_Size f = nSize n;
  file_key : rf_Key f = nFileKey n ∧ rf_FileKey f = Raw (nFileKey n);
  file_context : rf_PayloadContext f = Handle link ∧ rf_PayloadURL f ≠ "";
  file_path : ∃ names, ancestry byHandle sel n names ∧ rf_RelativePath f = Join names "/" }.

Definition total_size (files : list ResolvedFile) : Z := foldr Z.add 0 (rf_Size <$> files).

Lemma payloadURL_ok h f c c' url : payloadURL h f c = (c', Ok url) → url ≠ "".
Proof.
  unfold payloadURL. intros (r & c1 & _ & H)%cmd_bind_inv. apply cmd_bind_inv in H as (o & c2 & _ & H).
  case_bool_decide; [done|]. by injection H as _ <-.
Qed.

Lemma within_result byHandle s (Hi : ∀ h n, byHandle !! h = Some n → nHandle n = h) n :
  ∃ b, nodeIsWithinSelection byHandle n s = Some b ∧ in_selection byHandle (Some s) n = b.
Proof.
  destruct (nodeIsWithinSelection_spec byHandle Hi n s) as [(b & Hb & _) _]. exists b. split; [done|].
  unfold in_selection. rewrite Hb. destruct b; [by apply bool_decide_eq_true|by apply bool_decide_eq_false].
Qed.

Lemma collect_files_ok link byHandle sel nodes total c c' files total' :
  (∀ h n, byHandle !! h = Some n → nHandle n = h) →
  total ≤ max_int64 →
  collect_files link byHandle sel nodes total c = (c', Ok (files, total')) →
  Forall2 (file_of link byHandle sel) (filter (chosen byHandle sel) nodes) files
  ∧ total' = total + total_size files ∧ total' ≤ max_int64
  ∧ Forall (λ f, 0 ≤ rf_Size f) files.
Proof.
  intros Hi. revert total c files total'. induction nodes as [|n nodes IH]; intros total c files total' Ht.
  { intros [= <- <- <-]. unfold total_size. cbn. split_and!; [constructor|lia|lia|constructor]. }
  cbn [collect_files]. destruct (nKind n =? 0) eqn:Hk; cbn [negb].
  2: { apply Z.eqb_neq in Hk. rewrite filter_cons_False by (by intros [? _]). apply IH. done. }
  apply Z.eqb_eq in Hk. intros (b & c1 & Hb & H)%cmd_bind_inv.
  assert (in_selection byHandle sel n = b ∧ c1 = c) as [Hsel ->].
  { destruct sel as [s|]; [|by injection Hb as <- <-].
    destruct (within_result byHandle s Hi n) as (b' & Hw & Hs). rewrite Hw in Hb. by injection Hb as <- <-. }
  destruct b; cbn [negb] in H.
  2: { rewrite filter_cons_False by (intros [_ ?]; congruence). by apply IH in H. }
  destruct (nSize n <? 0) eqn:Hneg; [done|]. apply Z.ltb_ge in Hneg.
  destruct (max_int64 - nSize n <? total) eqn:Hov; [done|]. apply Z.ltb_ge in Hov.
  apply cmd_bind_inv in H as (path & c2 & Hpath & H).
  apply cmd_bind_inv in H as (url & c3 & Hurl & H). apply cmd_bind_inv in H as ([fs tot] & c4 & Hrest & H).
  injection H as <- <- <-. apply IH in Hrest as (Hf & -> & Hmax & Hpos); [|lia].
  rewrite filter_cons_True by done. unfold total_size. cbn. fold (total_size fs).
  split_and!; [|lia|lia|by constructor].
  constructor; [|done].
  destruct (folderNodePathFrom_spec byHandle Hi n sel) as (r & Hr & Hspec). rewrite Hr, to_api_state in Hpath.
  injection Hpath as <- ->. split; try done; cbn; [split; [done|by eapply payloadURL_ok]|by apply Hspec].
Qed.

(** C36: A resolved folder lists, in the order of the listing MEGA answered,
    exactly the file nodes of the listing that lie in the selected subtree (all of them without a
    selection), each with its own handle, size and key, a payload URL and a path
    made of the names from the selection, or from the top, down to the file; its
    total is the sum of the sizes and fits an int64. *)
Theorem resolveFolder_lists_selection B D U link c c' job
    (Hok : resolveFolder B D U link c = (c', Ok job)) :
  ∃ listing rest items root master nodes,
    (command [{["a" := JString "f"; "c" := JInt 1; "r" := JInt 1; "ca" := JInt 1]}] (Handle link) c).2
      = Ok (JObject listing :: rest)
    ∧ listing !! "f" = Some (JArray items)
    ∧ DecodeNodeKey B (Key link) = Ok master ∧ publicFolderRootHandle items (Handle link) = Ok root
    ∧ decode_nodes B D U items 0 root master = Ok nodes
    ∧ let byHandle := index_nodes nodes in
      let sel := byHandle !! SelectedNode link in
      rj_Files job ≠ []
      ∧ Forall2 (file_of link byHandle sel) (filter (chosen byHandle sel) nodes) (rj_Files job)
      ∧ rj_TotalBytes job = total_size (rj_Files job) ∧ rj_TotalBytes job ≤ max_int64
      ∧ (SelectedNode link ≠ "" → is_Some sel)
      ∧ (∀ n s, sel = Some s → chosen byHandle sel n → descends byHandle n s)
      ∧ (NoDup (nHandle <$> nodes) → ∀ n s, n ∈ nodes → nKind n = 0 →
           sel = Some s → descends byHandle n s → chosen byHandle sel n).
Proof.
  unfold resolveFolder in Hok. apply cmd_bind_inv in Hok as (master & c1 & Hm & H).
  apply cmd_bind_inv in H as (resp & c2 & Hresp & H). apply cmd_bind_inv in H as (obj & c3 & Hobj & H).
  destruct (obj !! "f") as [[| | | |items|]|] eqn:Hitems; try done.
  apply cmd_bind_inv in H as (root & c4 & Hroot & H). apply cmd_bind_inv in H as (nodes & c5 & Hnodes & H).
  rewrite to_api_state in Hm. rewrite to_api_state in Hroot. rewrite to_api_state in Hnodes.
  injection Hm as <- Hm. injection Hroot as <- Hroot.
  injection Hnodes as <- Hnodes. rewrite to_api_state in Hobj. injection Hobj as _ Hobj.
  destruct resp as [|[| | | | |listing] rest]; try done. injection Hobj as ->.
  exists obj, rest, items, root, master, nodes. split; [by rewrite Hresp|]. do 4 (split; [done|]).
  cbv zeta. pose proof (index_nodes_indexed nodes) as Hi.
  apply cmd_bind_inv in H as (name & c6 & Hname & H). apply cmd_bind_inv in H as ([fs tot] & c7 & Hcol & H).
  cbn [fst snd] in H. case_bool_decide as Hfs; [done|]. injection H as <- <-. cbn [rj_Files rj_TotalBytes].
  apply collect_files_ok in Hcol as (Hf & Htot & Hmax & _); [|done|by vm_compute].
  split_and!; try done.
  - intros Hne. rewrite bool_decide_eq_false_2 in Hname by done. by destruct (_ !! SelectedNode link).
  - intros n s Hs [_ Hin]. rewrite Hs in Hin. apply bool_decide_eq_true in Hin.
    destruct (nodeIsWithinSelection_spec _ Hi n s) as [(b & Hb & Hd) _]. apply Hd. congruence.
  - intros Hnd n s Hin Hk Hs Hd. split; [done|]. rewrite Hs. apply bool_decide_eq_true.
    destruct (nodeIsWithinSelection_spec _ Hi n s) as [(b & Hb & _) Hfalse].
    destruct b; [done|]. exfalso. apply Hfalse; try done. apply index_nodes_distinct; try done.
    apply decode_nodes_ok in Hnodes. rewrite Forall_forall in Hnodes. by apply (Hnodes n).
Qed.

(** Whatever listing MEGA sends, with missing, duplicate or cyclic parents,
    the loops that select a node and build its path end within the number of
    nodes: they never run out of the fuel of the model. *)
Theorem folder_loops_terminate nodes node selected sel :
  let byHandle := index_nodes nodes in
  is_Some (nodeIsWithinSelection byHandle node selected) ∧ is_Some (folderNodePathFrom byHandle node sel).
Proof.
  cbv zeta. pose proof (index_nodes_indexed nodes) as Hi. split.
  - destruct (nodeIsWithinSelection_spec _ Hi node selected) as [(b & -> & _) _]. done.
  - destruct (folderNodePathFrom_spec (index_nodes nodes) Hi node sel) as (r & -> & _). done.
Qed.

(** ** Witness: a folder with a subfolder and a selection *)

(** Base64 is read as go-mega does for well-formed input; the block cipher is
    the identity. *)
Definition sample_base64 (s : string) : result error (list Z) :=
  match DecodeString RawURLEncoding s with Some l => Ok l | None => Err (New "illegal base64 data") end.
Definition sample_D (_ block : list Z) : list Z := block.
Definition sample_unmarshal (_ : list Z) : result error (gmap string any) := Err (New "unused").

Definition sample_key : string := EncodeToString RawURLEncoding (replicate 16 0).
Definition sample_file_key : string := "root:" +:+ EncodeToString RawURLEncoding (replicate 32 7).
Definition sample_node_key : string := "root:" +:+ EncodeToString RawURLEncoding (replicate 16 7).

Definition sample_item (h p k : string) (t s : Z) : any :=
  JObject {["h" := JString h; "p" := JString p; "k" := JString k; "t" := JInt t; "s" := JInt s]}.

Definition sample_items : list any :=
  [sample_item "root" "owner" sample_node_key 1 0; sample_item "sub" "root" sample_node_key 1 0;
   sample_item "f1" "root" sample_file_key 0 10; sample_item "f2" "sub" sample_file_key 0 20].

Definition sample_folder_link : PublicLink := mkLink LinkKindFolder "AbCd1234" sample_key "" "sub".
Definition sample_client : Client :=
  mkClient None 0 "" [Response 200 "" (Err (New "")) (Ok [JObject {["f" := JArray sample_items]}]) None;
                      Response 200 "" (Err (New "")) (Ok [JObject {["g" := JString "https://payload"]}]) None] [].

Definition sample_resolved := resolveFolder sample_base64 sample_D sample_unmarshal sample_folder_link sample_client.

Definition sample_job : ResolvedJob :=
  match sample_resolved.2 with Ok job => job | Err _ => mkResolvedJob LinkKindFile "" 0 [] end.

Example sample_job_files :
  (λ f, (rf_NodeID f, rf_RelativePath f, rf_Size f)) <$> rj_Files sample_job = [("f2", "sub/f2", 20)].
Proof. by vm_compute. Qed.

Lemma resolveFolder_lists_selection_witness :
  ∃ listing rest items root master nodes,
    (command [{["a" := JString "f"; "c" := JInt 1; "r" := JInt 1; "ca" := JInt 1]}]
       (Handle sample_folder_link) sample_client).2 = Ok (JObject listing :: rest)
    ∧ listing !! "f" = Some (JArray items)
    ∧ DecodeNodeKey sample_base64 (Key sample_folder_link) = Ok master
    ∧ publicFolderRootHandle items (Handle sample_folder_link) = Ok root
    ∧ decode_nodes sample_base64 sample_D sample_unmarshal items 0 root master = Ok nodes
    ∧ let byHandle := index_nodes nodes in
      let sel := byHandle !! SelectedNode sample_folder_link in
      rj_Files sample_job ≠ []
      ∧ Forall2 (file_of sample_folder_link byHandle sel) (filter (chosen byHandle sel) nodes) (rj_Files sample_job)
      ∧ rj_TotalBytes sample_job = total_size (rj_Files sample_job) ∧ rj_TotalBytes sample_job ≤ max_int64
      ∧ (SelectedNode sample_folder_link ≠ "" → is_Some sel)
      ∧ (∀ n s, sel = Some s → chosen byHandle sel n → descends byHandle n s)
      ∧ (NoDup (nHandle <$> nodes) → ∀ n s, n ∈ nodes → nKind n = 0 →
           sel = Some s → descends byHandle n s → chosen byHandle sel n).
Proof.
  apply (resolveFolder_lists_selection sample_base64 sample_D sample_unmarshal sample_folder_link sample_client
    sample_resolved.1). unfold sample_job, sample_resolved. by vm_compute.
Defined.
