(* ===== verification/MegaAccounts.v ===== *)
(** * MEGA account sessions (internal/mega/account_auth.go, accounts.go)

    Password login, validation of a stored session with one password fallback,
    and the persistence of the outcome.  PBKDF2, AES and the error of the
    context after a failure are arguments. *)

From Stdlib Require Import ZArith Lia Ascii Zpow_facts.
From stdpp Require Import base list gmap strings numbers pretty.
From S2P Require Import Prelude GoStrings GoErrors GoBase64 Crypto Store StoreDownloads StoreAccounts Secrets MegaValues Links Hashcash MegaClient.

(** ** Password keys *)

Definition accountVersionLegacy : Z := 1.
Definition accountVersionModern : Z := 2.
Definition accountKeyIterations : Z := 100000.

Definition zeroPad (value : list Z) (size : nat) : list Z :=
  if (size =? 0)%nat || bool_decide (value = []) then value
  else
    let remainder := Nat.modulo (length value) size in
    if (remainder =? 0)%nat then value else value ++ replicate (size - remainder) 0.

(** The 16-byte pieces of a password, each padded with zeros to a key. *)
Fixpoint key_blocks (fuel : nat) (padded : list Z) : list (list Z) :=
  match fuel with
  | O => []
  | S fuel =>
      match padded with
      | [] => []
      | _ => (take 16 padded ++ replicate (16 - length (take 16 padded)) 0) :: key_blocks fuel (drop 16 padded)
      end
  end.

Definition legacy_seed : list Z :=
  [147; 196; 103; 227; 125; 176; 199; 164; 209; 190; 63; 129; 1; 82; 203; 86].

(** [words[(offset/4)&3] ^= ...] over the words of the padded value. *)
Fixpoint fold_words (padded : list Z) (fuel index : nat) (words : list Z) : list Z :=
  match fuel with
  | O => words
  | S fuel =>
      match padded with
      | [] => words
      | _ => fold_words (drop 4 padded) fuel (S index)
               (alter (λ w, Z.lxor w (be_value (take 4 padded))) (Nat.modulo index 4) words)
      end
  end.

(** ** RSA private keys and session identifiers *)

Definition readMPI (value : list Z) : result error (Z * list Z) :=
  if (length value <? 2)%nat then Err (Sentinel ErrAuthenticationFailed)
  else
    let bits := be_value (take 2 value) in
    let length_ := (bits + 7) `quot` 8 in
    if (bits <=? 0) || (length_ <=? 0) || (Z.of_nat (length value) <? 2 + length_)
    then Err (Sentinel ErrAuthenticationFailed)
    else
      let n := Z.to_nat length_ in
      Ok (be_value (take n (drop 2 value)), drop (2 + n) value).

Definition readRSAKey (value : list Z) : result error (Z * Z * Z * list Z) :=
  p ← readMPI value;
  q ← readMPI p.2;
  d ← readMPI q.2;
  if (p.1 <=? 0) || (q.1 <=? 0) || (d.1 <=? 0) then Err (Sentinel ErrAuthenticationFailed)
  else Ok (p.1, q.1, d.1, d.2).

(** [big.Int.Bytes]: big-endian without leading zeros. *)
Definition int_bytes (n : Z) : list Z :=
  if n <=? 0 then [] else be_bytes (Z.to_nat (Z.log2 n `div` 8 + 1)) n.

Record AccountHealth := mkHealth { StorageBytes : Z; UsedBytes : Z }.

Record AccountSession := mkAccountSession {
  SessionID : string;
  Health : AccountHealth;
  Restored : bool;
  Reauthenticated : bool }.

Section accounts.
Context (Base64ToBytes : string → result error (list Z)).
Context (E D : list Z → list Z → list Z).
(** [pbkdf2.Key] with SHA-512. *)
Context (pbkdf2_Key : list Z → list Z → Z → nat → list Z).
(** [ctx.Err()] when it is looked at after a failure. *)
Context (ctx_Err : Client → option error).

Definition legacyPasswordKey (password : list Z) : list Z :=
  let padded := zeroPad password 4 in
  let keys := key_blocks (length padded) padded in
  Nat.iter (Z.to_nat 65536) (λ result, foldl (λ block key, E key block) result keys) legacy_seed.

Definition legacyStringHash (value : list Z) (key : list Z) : result error string :=
  let padded := zeroPad value 4 in
  let words := fold_words padded (length padded) 0 [0; 0; 0; 0] in
  if negb (cipher_key_ok key) then Err (New (key_size_error key))
  else
    let data := Nat.iter (Z.to_nat 16384) (E key) (flat_map (be_bytes 4) words) in
    Ok (EncodeToString RawURLEncoding (take 4 data ++ take 4 (drop 8 data))).

Definition decryptAccountSessionID (encodedPrivate encodedSession : string) (masterKey : list Z)
    : result error string :=
  let failed {A} : result error A := Err (Sentinel ErrAuthenticationFailed) in
  match decodeURLBase64 Base64ToBytes encodedPrivate with
  | Err _ => failed
  | Ok privateCiphertext =>
      if negb (aligned privateCiphertext) || negb (cipher_key_ok masterKey) then failed
      else
        let privateKey := map_blocks (D masterKey) (length privateCiphertext / 16) privateCiphertext in
        match readRSAKey privateKey with
        | Err _ => failed
        | Ok (p, q, d, _) =>
            match decodeURLBase64 Base64ToBytes encodedSession with
            | Err _ => failed
            | Ok ciphertext =>
                match readMPI ciphertext with
                | Err _ => failed
                | Ok (message, _) =>
                    let plain := int_bytes (Zpow_mod message d (p * q)) in
                    if (length plain <? 43)%nat then failed
                    else Ok (EncodeToString RawURLEncoding (take 43 plain))
                end
            end
        end
  end.

(** ** Commands *)

Definition us0_payload (email : string) : list (gmap string any) :=
  [{["a" := JString "us0"; "user" := JString email]}].
Definition us_payload (email userHandle : string) (sek : option string) : list (gmap string any) :=
  [<["a" := JString "us"]> (<["user" := JString email]> (<["uh" := JString userHandle]>
     (match sek with Some s => {["sek" := JString s]} | None => ∅ end)))].
Definition uq_payload : list (gmap string any) := [{["a" := JString "uq"; "xfer" := JInt 1; "strg" := JInt 1]}].

Definition authCommand (payload : list (gmap string any)) : api (list any) := doCommand payload "" true.

Definition prelogin (email : string) : api (Z * list Z) :=
  let failed {A} : api A := throw (Sentinel ErrAuthenticationFailed) in
  result ← authCommand (us0_payload email);
  match firstObject result with
  | Err _ => failed
  | Ok object =>
      match intValue (object !! "v") with
      | None => failed
      | Some version =>
          if (version =? 0) || (negb (version =? accountVersionLegacy) && negb (version =? accountVersionModern))
          then failed
          else if version =? accountVersionLegacy then mret (version, [])
          else
            let saltText := stringValue (object !! "s") in
            if bool_decide (saltText = "") then failed
            else match decodeURLBase64 Base64ToBytes saltText with
            | Err _ => failed
            | Ok salt => if bool_decide (salt = []) then failed else mret (version, salt)
            end
      end
  end.

(** A failure of a command during login: MFA is reported, then a done context,
    and nothing else about it. *)
Definition login_failure {A} (e : error) : api A :=
  if errors_is e ErrMFAUnsupported then throw e
  else c ← get;
       match ctx_Err c with
       | Some ctxErr => throw ctxErr
       | None => throw (Sentinel ErrAuthenticationFailed)
       end.

(** The password key and the user handle sent instead of the password. *)
Definition password_keys (version : Z) (salt : list Z) (email password : string) : result error (list Z * string) :=
  if version =? accountVersionLegacy then
    let passkey := legacyPasswordKey (to_bytes password) in
    handle ← legacyStringHash (to_bytes email) passkey;
    Ok (passkey, handle)
  else
    let derived := pbkdf2_Key (to_bytes password) salt accountKeyIterations 32 in
    Ok (take 16 derived, EncodeToString RawURLEncoding (drop 16 derived)).

(** The session identifier in a login response. *)
Definition login_session (response : gmap string any) (passkey : list Z) : result error string :=
  let failed {A} : result error A := Err (Sentinel ErrAuthenticationFailed) in
  let encodedMasterKey := stringValue (response !! "k") in
  let encodedPrivateKey := stringValue (response !! "privk") in
  let encodedSession := stringValue (response !! "csid") in
  if bool_decide (encodedMasterKey = "") || bool_decide (encodedPrivateKey = "") || bool_decide (encodedSession = "")
  then failed
  else match decodeURLBase64 Base64ToBytes encodedMasterKey with
  | Err _ => failed
  | Ok masterKey =>
      if bool_decide (length masterKey ≠ 16%nat) || negb (cipher_key_ok passkey) then failed
      else match decryptAccountSessionID encodedPrivateKey encodedSession (D passkey masterKey) with
      | Err _ => failed
      | Ok sessionID => if bool_decide (sessionID = "") then failed else Ok sessionID
      end
  end.

(** [draw] is what [rand.Read] gives for the session key. *)
Definition LoginAccountContext (email password : string) (draw : result error (list Z)) : api string :=
  let failed {A} : api A := throw (Sentinel ErrAuthenticationFailed) in
  let email := ToLower (TrimSpace email) in
  if bool_decide (email = "") || bool_decide (password = "") then failed
  else
    pre ← catch (prelogin email);
    match pre with
    | Err e => login_failure e
    | Ok (version, salt) =>
        match password_keys version salt email password with
        | Err _ => failed
        | Ok (passkey, userHandle) =>
            if bool_decide (userHandle = "") then failed
            else
              sek ← (if version =? accountVersionModern then
                       match draw with
                       | Err _ => failed
                       | Ok sessionKey => mret (Some (EncodeToString RawURLEncoding sessionKey))
                       end
                     else mret None);
              res ← catch (authCommand (us_payload email userHandle sek));
              match res with
              | Err e => login_failure e
              | Ok result =>
                  match firstObject result with
                  | Err _ => failed
                  | Ok response =>
                      match login_session response passkey with
                      | Err _ => failed
                      | Ok sessionID => mret sessionID
                      end
                  end
              end
        end
    end.

(** A client bound to a session is a new one over the same transport. *)
Definition with_session {A} (s : string) (m : api A) : api A := λ c,
  let '(c', r) := m (WithSession c s) in
  (c' <| session := session c |> <| sequence := sequence c |>, r).

Definition fetch_health : api AccountHealth :=
  result ← command uq_payload "";
  object ← to_api (firstObject result);
  mret (mkHealth (default 0 (uintValue (object !! "mstrg"))) (default 0 (uintValue (object !! "cstrg")))).

Definition ValidateSession : api AccountHealth :=
  c ← get;
  if bool_decide (session c = "") then throw (Sentinel ErrSessionRejected) else fetch_health.

Definition LoginAndValidate (email password : string) (draw : result error (list Z)) : api AccountSession :=
  sessionID ← LoginAccountContext email password draw;
  r ← catch (with_session sessionID ValidateSession);
  match r with
  | Ok health => mret (mkAccountSession sessionID health false true)
  | Err _ =>
      c ← get;
      match ctx_Err c with
      | Some ctxErr => throw ctxErr
      | None => throw (Sentinel ErrAuthenticationFailed)
      end
  end.

Definition EnsureSession (email : string) (storedSession password : list Z) (draw : result error (list Z))
    : api AccountSession :=
  let fresh := if bool_decide (password = []) then throw (Sentinel ErrReauthRequired)
               else LoginAndValidate email (of_bytes password) draw in
  if bool_decide (storedSession = []) then fresh
  else
    let sessionID := of_bytes storedSession in
    r ← catch (with_session sessionID ValidateSession);
    match r with
    | Ok health => mret (mkAccountSession sessionID health true false)
    | Err e =>
        c ← get;
        match ctx_Err c with
        | Some ctxErr => throw ctxErr
        | None => if errors_is e ErrSessionRejected then fresh else throw e
        end
    end.

(** ** The persisted lifecycle (accounts.go) *)

Record AccountLifecycle := mkLifecycle { al_client : Client; al_db : DB }.
#[global] Instance AccountLifecycle_eta : Eta AccountLifecycle := λ l, mkLifecycle (al_client l) (al_db l).

Definition on_client {A} (m : api A) : cmd error AccountLifecycle A := λ l,
  let '(c, r) := m (al_client l) in (l <| al_client := c |>, r).
Definition on_store {A} (m : store_cmd A) : cmd error AccountLifecycle A := λ l,
  let '(d, r) := m (al_db l) in (l <| al_db := d |>, r).

Context (gcm : AEAD).
Context (secrets : SecretStore).

(** A ciphertext that is missing or cannot be opened reads as no secret. *)
Definition open_or_nil (ciphertext : list Z) : list Z :=
  if bool_decide (ciphertext = []) then []
  else match SecretStore_Decrypt gcm secrets ciphertext with Ok plaintext => plaintext | Err _ => [] end.

(** What [rand.Read] gives for the nonce of a sealed session. *)
Definition seal_session (nonce : result error (list Z)) (sessionID : string) : result error (list Z) :=
  match nonce with
  | Err e => Err e
  | Ok nonce => Ok (SecretStore_Encrypt gcm secrets nonce (to_bytes sessionID))
  end.

(** The part [ClientFor] and [Test] share: read the account, ensure a session,
    persist the outcome.  [mark_error] is what [Test] does on other errors. *)
Definition account_session (mark_error : bool) (accountID : string) (draw nonce : result error (list Z)) (now : Z)
    : cmd error AccountLifecycle AccountSession :=
  account ← on_store (GetMegaAccount accountID);
  ciphertexts ← on_store (MegaAccountSecrets accountID);
  let '(credentialCiphertext, sessionCiphertext) := ciphertexts in
  result ← catch (on_client (EnsureSession (arEmail account) (open_or_nil sessionCiphertext)
                                (open_or_nil credentialCiphertext) draw));
  match result with
  | Err e =>
      if errors_is e ErrReauthRequired then
        _ ← ignore (on_store (ReplaceMegaAccountSession accountID [] "requires_auth" now));
        throw (Sentinel ErrReauthRequired)
      else
        _ ← (if mark_error then ignore (on_store (MarkMegaAccountChecked accountID "error" now)) else mret ());
        throw e
  | Ok s =>
      if Reauthenticated s then
        match seal_session nonce (SessionID s) with
        | Err _ => throw (New "protect account session")
        | Ok encrypted =>
            r ← catch (on_store (ReplaceMegaAccountSession accountID encrypted "active" now));
            match r with
            | Err _ => throw (New "persist account session")
            | Ok _ => mret s
            end
        end
      else
        _ ← on_store (MarkMegaAccountChecked accountID "active" now);
        mret s
  end.

(** The client returned is bound to the session. *)
Definition ClientFor (accountID : string) (draw nonce : result error (list Z)) (now : Z)
    : cmd error AccountLifecycle string :=
  s ← account_session false accountID draw nonce now; mret (SessionID s).

Definition AccountTest (accountID : string) (draw nonce : result error (list Z)) (now : Z)
    : cmd error AccountLifecycle AccountHealth :=
  s ← account_session true accountID draw nonce now; mret (Health s).

(** ** The requests of a session check *)

Definition extends (c c' : Client) (P : list Request → Prop) : Prop :=
  ∃ reqs, sent c' = sent c ++ reqs ∧ P reqs.

(** One command under session [s]: at most two requests with this payload, the
    second only for a proof of work. *)
Definition one_command (s : string) (payload : list (gmap string any) → Prop) (reqs : list Request) : Prop :=
  (length reqs ≤ 2)%nat
  ∧ Forall (λ r, rq_session r = s ∧ payload (rq_payload r)) reqs
  ∧ (length reqs = 2 → ∃ r, last reqs = Some r ∧ rq_hashcash r ≠ None)%nat.

Lemma exchange_one_command c payload folder allow reqs (P : list (gmap string any) → Prop) :
  P payload → exchange c payload folder allow reqs → one_command (session c) P reqs.
Proof.
  intros HP [->|[->|(_ & h & ch & cash & _ & ->)]]; (split; [cbn; lia|split]); try done.
  - by constructor.
  - by repeat constructor.
  - intros _. eexists. by split.
Qed.

Lemma doCommand_one payload folder allow c (P : list (gmap string any) → Prop) : P payload →
  extends c (doCommand payload folder allow c).1 (one_command (session c) P)
  ∧ session (doCommand payload folder allow c).1 = session c.
Proof.
  intros HP. destruct (doCommand_sends payload folder allow c) as (reqs & Hs & Hx).
  split; [exists reqs; split; [done|by eapply exchange_one_command]|].
  rewrite doCommand_run. destruct (api_url_error c); [done|]. cbv zeta.
  rewrite attempt_run. cbv zeta.
  destruct (hd (NoResponse None) _) as [e|[e|]|status header sol body ce]; try done.
  destruct (_ && _ && _); [|done]. destruct (parseHashcashChallenge header); [|done]. destruct sol; [|done].
  rewrite attempt_run. cbv zeta.
  destruct (hd (NoResponse None) _) as [e|[e|]|status' header' sol' body' ce']; try done.
  destruct (_ && _ && bool_decide (Some _ = None)) eqn:Hf; [|done].
  by apply andb_true_iff in Hf as [_ Hf%bool_decide_eq_true].
Qed.

Definition is_us0 (p : list (gmap string any)) : Prop := ∃ email, p = us0_payload email.
Definition is_us (p : list (gmap string any)) : Prop := ∃ email handle sek, p = us_payload email handle sek.

(** [sends m P]: the requests [m] sends satisfy [P], which may mention the
    session the client has, and the session stays. *)
Definition sends {A} (m : api A) (P : string → list Request → Prop) : Prop :=
  ∀ c, extends c (m c).1 (P (session c)) ∧ session (m c).1 = session c.

Definition nothing (_ : string) (reqs : list Request) : Prop := reqs = [].
Definition then_sends (P Q : string → list Request → Prop) (s : string) (reqs : list Request) : Prop :=
  ∃ a b, reqs = a ++ b ∧ P s a ∧ Q s b.

Lemma one_command_nil s P : one_command s P [].
Proof. split; [cbn; lia|split]; [constructor|done]. Qed.

Lemma sends_quiet {A} (m : api A) (P : string → list Request → Prop) :
  (∀ s, P s []) → (∀ c, (m c).1 = c) → sends m P.
Proof. intros HP Hm c. rewrite Hm. split; [|done]. exists []. by rewrite app_nil_r. Qed.

Lemma sends_bind {A B} (m : api A) (k : A → api B) P Q :
  sends m P → (∀ s, Q s []) → (∀ a, sends (k a) Q) → sends (m ≫= k) (then_sends P Q).
Proof.
  intros Hm HQ Hk c. destruct (Hm c) as [(r1 & Hs1 & H1) Hc1].
  unfold mbind, cmd_bind. destruct (m c) as [c1 [a|e]]; cbn in *.
  - destruct (Hk a c1) as [(r2 & Hs2 & H2) Hc2]. split; [|congruence].
    exists (r1 ++ r2). rewrite Hs2, Hs1, <-app_assoc. split; [done|].
    exists r1, r2. rewrite Hc1 in H2. done.
  - split; [|done]. exists r1. split; [done|]. exists r1, []. by rewrite app_nil_r.
Qed.

Lemma sends_catch {A} (m : api A) P : sends m P → sends (catch m) P.
Proof. intros Hm c. apply Hm. Qed.

Lemma sends_weaken {A} (m : api A) (P Q : string → list Request → Prop) :
  sends m P → (∀ s l, P s l → Q s l) → sends m Q.
Proof. intros Hm HPQ c. destruct (Hm c) as [(r & Hs & H) Hc]. split; [|done]. exists r. auto. Qed.

Lemma sends_command payload folder allow (P : list (gmap string any) → Prop) : P payload →
  sends (doCommand payload folder allow) (λ s, one_command s P).
Proof. intros HP c. by apply doCommand_one. Qed.

(** Steps that send nothing, after and before. *)
Lemma sends_then_quiet {A B} (m : api A) (k : A → api B) P :
  sends m P → (∀ a c, (k a c).1 = c) → sends (m ≫= k) P.
Proof.
  intros Hm Hk. apply (sends_weaken _ (then_sends P nothing)).
  - apply sends_bind; [done|done|]. intros a. apply sends_quiet; [done|apply Hk].
  - intros s l (a & b & -> & Ha & ->). by rewrite app_nil_r.
Qed.

Lemma sends_after_quiet {A B} (m : api A) (k : A → api B) P :
  (∀ c, (m c).1 = c) → (∀ s, P s []) → (∀ a, sends (k a) P) → sends (m ≫= k) P.
Proof.
  intros Hm HP Hk. apply (sends_weaken _ (then_sends nothing P)).
  - apply sends_bind; [|done|done]. by apply sends_quiet.
  - by intros s l (a & b & -> & -> & Hb).
Qed.

Lemma login_failure_state {A} e c : (login_failure (A:=A) e c).1 = c.
Proof. unfold login_failure. case_match; [done|]. rewrite get_bind. by case_match. Qed.

Lemma prelogin_sends email : sends (prelogin email) (λ s, one_command s is_us0).
Proof.
  apply sends_then_quiet; [apply sends_command; by exists email|].
  intros r c. unfold throw, mret, cmd_ret. cbv zeta. repeat case_match; done.
Qed.

Definition login_sends (s : string) : list Request → Prop :=
  then_sends (λ s, one_command s is_us0) (λ s, one_command s is_us) s.

Lemma login_sends_nil s : login_sends s [].
Proof. exists [], []. split; [done|]. split; apply one_command_nil. Qed.

Lemma LoginAccountContext_sends email password draw : sends (LoginAccountContext email password draw) login_sends.
Proof.
  unfold LoginAccountContext. case_match; [apply sends_quiet; [apply login_sends_nil|done]|].
  apply sends_bind; [apply sends_catch, prelogin_sends|intros; apply one_command_nil|].
  assert (∀ (A : Type) (m : api A), (∀ c, (m c).1 = c) → sends m (λ s, one_command s is_us)) as Hquiet
    by (intros; apply sends_quiet; [intros; apply one_command_nil|done]).
  intros [[version salt]|e]; [|apply Hquiet; intros; apply login_failure_state].
  destruct (password_keys version salt _ password) as [[passkey handle]|e]; [|by apply Hquiet].
  case_match; [by apply Hquiet|].
  apply sends_after_quiet; [intros c; by repeat case_match|intros; apply one_command_nil|intros sek].
  apply sends_then_quiet; [apply sends_catch, sends_command; by eexists _, _, _|].
  intros [r|e] c; [|apply login_failure_state]. unfold throw, mret, cmd_ret. repeat case_match; done.
Qed.

Lemma validate_sends s c :
  extends c (with_session s ValidateSession c).1 (one_command s (eq uq_payload))
  ∧ session (with_session s ValidateSession c).1 = session c
  ∧ (s = "" → sent (with_session s ValidateSession c).1 = sent c).
Proof.
  assert (sends fetch_health (λ s, one_command s (eq uq_payload))) as Hs.
  { apply sends_then_quiet; [by apply sends_command|]. intros r c'. by destruct (firstObject r). }
  unfold with_session, ValidateSession. rewrite get_bind.
  case_bool_decide as Hempty; cbn in Hempty.
  - cbn. split_and!; try done. exists []. rewrite app_nil_r. split; [done|apply one_command_nil].
  - destruct (Hs (WithSession c s)) as [(reqs & H1 & H2) _].
    destruct (fetch_health (WithSession c s)) as [c' r]. cbn in *. split_and!; try done. by exists reqs.
Qed.

Lemma run_bind {A B} (m : api A) (k : A → api B) c :
  (m ≫= k) c = match m c with (c1, Ok a) => k a c1 | (c1, Err e) => (c1, Err e) end.
Proof. done. Qed.

Lemma LoginAndValidate_spec email password draw c :
  extends c (LoginAndValidate email password draw c).1 (λ reqs, ∃ l v s, reqs = l ++ v
    ∧ login_sends (session c) l ∧ one_command s (eq uq_payload) v)
  ∧ ∀ a, (LoginAndValidate email password draw c).2 = Ok a → Reauthenticated a = true ∧ Restored a = false.
Proof.
  unfold LoginAndValidate. destruct (LoginAccountContext_sends email password draw c) as [(l & Hl & Hls) _].
  rewrite run_bind. destruct (LoginAccountContext email password draw c) as [c1 [s|e]]; cbn in Hl.
  2: { split; [|done]. exists l. split; [done|]. exists l, [], "". rewrite app_nil_r.
       split; [done|]. split; [done|apply one_command_nil]. }
  destruct (validate_sends s c1) as [(v & Hv & Hvs) _].
  rewrite run_bind. unfold catch. destruct (with_session s ValidateSession c1) as [c2 [h|e]]; cbn in Hv |- *.
  - split; [|by intros a [= <-]]. exists (l ++ v). rewrite Hv, Hl, <-app_assoc. split; [done|]. by exists l, v, s.
  - rewrite get_bind. split; [|by destruct (ctx_Err c2)].
    exists (l ++ v). destruct (ctx_Err c2); cbn; rewrite Hv, Hl, <-app_assoc; (split; [done|by exists l, v, s]).
Qed.

(** Ensuring a session sends at most one status command with the stored
    session; a password is sent at most once, by one prelogin and one login
    command, and only when there is a password and there was no stored session
    or MEGA rejected it; a restored session is the stored one, unchanged, and
    costs no login. *)
Theorem EnsureSession_one_login email stored password draw c :
  let p := EnsureSession email stored password draw c in
  let check := (with_session (of_bytes stored) ValidateSession c).2 in
  ∃ checks logins fresh s,
    sent p.1 = sent c ++ checks ++ logins ++ fresh
    ∧ one_command (of_bytes stored) (eq uq_payload) checks
    ∧ login_sends (session c) logins ∧ one_command s (eq uq_payload) fresh
    ∧ (logins ≠ [] → password ≠ []
        ∧ (stored = [] ∨ ∃ e, check = Err e ∧ errors_is e ErrSessionRejected = true))
    ∧ ∀ a, p.2 = Ok a → (Restored a = true ∧ Reauthenticated a = false ∧ SessionID a = of_bytes stored
                          ∧ logins = [] ∧ fresh = [])
                       ∨ (Restored a = false ∧ Reauthenticated a = true ∧ password ≠ []).
Proof.
  cbv zeta. unfold EnsureSession.
  set (fresh := if bool_decide (password = []) then throw (Sentinel ErrReauthRequired)
                else LoginAndValidate email (of_bytes password) draw).
  assert (∀ c0, ∃ l v s, sent (fresh c0).1 = sent c0 ++ l ++ v ∧ login_sends (session c0) l
    ∧ one_command s (eq uq_payload) v ∧ (l ≠ [] → password ≠ [])
    ∧ ∀ a, (fresh c0).2 = Ok a → Restored a = false ∧ Reauthenticated a = true ∧ password ≠ []) as Hfresh.
  { intros c0. subst fresh. case_bool_decide as Hp.
    - exists [], [], "". cbn. rewrite app_nil_r. split_and!; try done; [apply login_sends_nil|apply one_command_nil].
    - destruct (LoginAndValidate_spec email (of_bytes password) draw c0) as [(reqs & Hs & l & v & s & -> & Hl & Hv) Ha].
      exists l, v, s. split_and!; try done. intros a H. destruct (Ha a H). done. }
  case_bool_decide as Hst.
  { destruct (Hfresh c) as (l & v & s & Hs & Hl & Hv & Hp & Ha). exists [], l, v, s.
    split; [done|]. split; [apply one_command_nil|]. split; [done|]. split; [done|].
    split; [intros Hne; split; [by apply Hp|by left]|]. intros a H. right. by apply Ha. }
  destruct (validate_sends (of_bytes stored) c) as [(ck & Hck & Hcks) [Hsess _]].
  rewrite run_bind. unfold catch.
  destruct (with_session (of_bytes stored) ValidateSession c) as [c1 [h|e]]; cbn in Hck, Hsess |- *.
  - exists ck, [], [], "". rewrite !app_nil_r. split; [done|]. split; [done|].
    split; [apply login_sends_nil|]. split; [apply one_command_nil|]. split; [done|].
    intros a [= <-]. by left.
  - assert (∀ e', ∃ checks logins fresh s, sent c1 = sent c ++ checks ++ logins ++ fresh
      ∧ one_command (of_bytes stored) (eq uq_payload) checks ∧ login_sends (session c) logins
      ∧ one_command s (eq uq_payload) fresh ∧ (logins ≠ [] → password ≠ []
        ∧ (stored = [] ∨ ∃ e0 : error, Err e = (Err e0 : result error AccountHealth) ∧ errors_is e0 ErrSessionRejected = true))
      ∧ ∀ a : AccountSession, (Err e' : result error AccountSession) = Ok a → (Restored a = true ∧ Reauthenticated a = false
         ∧ SessionID a = of_bytes stored ∧ logins = [] ∧ fresh = [])
        ∨ (Restored a = false ∧ Reauthenticated a = true ∧ password ≠ [])) as Hquiet.
    { intros e'. exists ck, [], [], "". rewrite !app_nil_r. split; [done|]. split; [done|].
      split; [apply login_sends_nil|]. split; [apply one_command_nil|]. done. }
    rewrite get_bind. destruct (ctx_Err c1) as [ce|]; [apply (Hquiet ce)|].
    destruct (errors_is e ErrSessionRejected) eqn:Hrej; [|apply (Hquiet e)].
    destruct (Hfresh c1) as (l & v & s & Hs & Hl & Hv & Hp & Ha). exists ck, l, v, s.
    rewrite Hs, Hck, <-app_assoc, <-Hsess. split; [done|]. split; [done|]. split; [done|]. split; [done|].
    split; [intros Hne; split; [by apply Hp|right; by exists e]|]. intros a H. right. by apply Ha.
Qed.
(** ** The persisted outcome *)

Lemma update_account_run id g a d :
  faults d = [] → accounts (tables d) !! id = Some a →
  exec (update_account_row id g) d
  = (d <| tables := tables d <| accounts := <[id := g a]> (accounts (tables d)) |> |>, Ok 1).
Proof. intros Hd Ha. apply exec_run; [done|]. unfold update_account_row. by rewrite Ha. Qed.

Lemma one_affected_run d : faults d = [] → one_or_not_found 1 d = (d, Ok ()).
Proof. intros Hd. unfold one_or_not_found. by rewrite (cmd_bind_ok _ _ _ _ _ (rows_zero_run 1 d Hd)). Qed.

Lemma one_update_run id g a d :
  faults d = [] → accounts (tables d) !! id = Some a →
  (n ← exec (update_account_row id g); one_or_not_found n) d
  = (d <| tables := tables d <| accounts := <[id := g a]> (accounts (tables d)) |> |>, Ok ()).
Proof.
  intros Hd Ha. rewrite (cmd_bind_ok _ _ _ _ _ (update_account_run id g a d Hd Ha)). by apply one_affected_run.
Qed.

Lemma MarkMegaAccountChecked_run id status now a d :
  faults d = [] → accounts (tables d) !! id = Some a →
  let when := if now =? 0 then wall d else now in
  MarkMegaAccountChecked id status now d
  = (d <| tables := tables d <| accounts := <[id :=
        a <| aStatus := status |> <| aLastChecked := Some when |> <| aUpdatedAt := when |>]>
        (accounts (tables d)) |> |>, Ok ()).
Proof.
  intros Hd Ha when. unfold MarkMegaAccountChecked. rewrite (cmd_bind_ok _ _ _ _ _ (or_now_eq now d)).
  exact (one_update_run id _ a d Hd Ha).
Qed.

Lemma on_store_ok {A} (m : store_cmd A) l d x :
  m (al_db l) = (d, Ok x) → on_store m l = (l <| al_db := d |>, Ok x).
Proof. intros H. unfold on_store. by rewrite H. Qed.

Lemma on_store_read {A} (m : store_cmd A) l x : m (al_db l) = (al_db l, Ok x) → on_store m l = (l, Ok x).
Proof. intros H. rewrite (on_store_ok _ _ _ _ H). by destruct l. Qed.

Lemma ReplaceMegaAccountSession_run id sealed status now a d :
  faults d = [] → accounts (tables d) !! id = Some a →
  let when := if now =? 0 then wall d else now in
  ReplaceMegaAccountSession id sealed status now d
  = (d <| tables := tables d <| accounts := <[id :=
        a <| aSession := sealed |> <| aStatus := status |> <| aLastChecked := Some when |>
          <| aUpdatedAt := when |>]> (accounts (tables d)) |> |>
       <| writeTransactions := writeTransactions d + 1 |>, Ok ()).
Proof.
  intros Hd Ha when. unfold ReplaceMegaAccountSession. rewrite (cmd_bind_ok _ _ _ _ _ (or_now_eq now d)).
  by rewrite (WithTx_run _ d _ Hd (one_update_run id _ a d Hd Ha)).
Qed.

Lemma open_or_nil_sealed nonce s : aead_ok gcm → length nonce = NonceSize gcm →
  open_or_nil (SecretStore_Encrypt gcm secrets nonce (to_bytes s)) = to_bytes s.
Proof.
  intros Hg Hn. unfold open_or_nil. rewrite (Decrypt_Encrypt gcm secrets nonce _ Hg Hn).
  case_bool_decide as He; [|done]. unfold SecretStore_Encrypt in He.
  apply (f_equal length) in He. rewrite length_app, (length_seal gcm Hg) in He.
  destruct (to_bytes s); [done|cbn in He; lia].
Qed.

(** The row after an ensured session: the sealed new session, or the old one. *)
Definition ensured_row (a : AccountRow) (nonce : list Z) (s : AccountSession) (when : Z) : AccountRow :=
  a <| aSession := if Reauthenticated s
                   then SecretStore_Encrypt gcm secrets nonce (to_bytes (SessionID s)) else aSession a |>
    <| aStatus := "active" |> <| aLastChecked := Some when |> <| aUpdatedAt := when |>.

(** The row after a failure. *)
Definition failed_row (a : AccountRow) (mark_error : bool) (e : error) (when : Z) : AccountRow :=
  if errors_is e ErrReauthRequired then
    a <| aSession := [] |> <| aStatus := "requires_auth" |> <| aLastChecked := Some when |> <| aUpdatedAt := when |>
  else if mark_error then
    a <| aStatus := "error" |> <| aLastChecked := Some when |> <| aUpdatedAt := when |>
  else a.

Definition row_outcome (a : AccountRow) (mark_error : bool) (nonce : list Z) (r : result error AccountSession)
    (when : Z) : AccountRow :=
  match r with Ok s => ensured_row a nonce s when | Err e => failed_row a mark_error e when end.

Definition caller_outcome (r : result error AccountSession) : result error AccountSession :=
  match r with
  | Ok s => Ok s
  | Err e => Err (if errors_is e ErrReauthRequired then Sentinel ErrReauthRequired else e)
  end.

Lemma account_read id a d : faults d = [] → accounts (tables d) !! id = Some a →
  GetMegaAccount id d = (d, Ok (scanMegaAccount a))
  ∧ MegaAccountSecrets id d = (d, Ok (aCredential a, aSession a)).
Proof.
  intros Hd Ha. unfold GetMegaAccount, MegaAccountSecrets.
  rewrite (cmd_bind_ok _ _ _ _ _ (wrapped_run _ _ _ _ _ (query_run _ _ Hd))).
  rewrite (cmd_bind_ok _ _ _ _ _ (query_run _ _ Hd)). by rewrite Ha.
Qed.

Lemma row_unchanged id a d : accounts (tables d) !! id = Some a →
  d = d <| tables := tables d <| accounts := <[id := a]> (accounts (tables d)) |> |>
        <| writeTransactions := writeTransactions d |>.
Proof. intros Ha. rewrite insert_id by done. by destruct d as [[]]. Qed.

Lemma account_session_run mark_error id draw nonce now (l : AccountLifecycle) a :
  faults (al_db l) = [] → accounts (tables (al_db l)) !! id = Some a →
  let d := al_db l in
  let when := if now =? 0 then wall d else now in
  let ensured := EnsureSession (aEmail a) (open_or_nil (aSession a)) (open_or_nil (aCredential a)) draw (al_client l) in
  let row := row_outcome a mark_error nonce ensured.2 when in
  ∃ n, account_session mark_error id draw (Ok nonce) now l
  = (mkLifecycle ensured.1 (d <| tables := tables d <| accounts := <[id := row]> (accounts (tables d)) |> |>
                              <| writeTransactions := n |>), caller_outcome ensured.2).
Proof.
  intros Hd Ha d when ensured row. destruct (account_read id a d Hd Ha) as [Hget Hsec].
  unfold account_session. rewrite (cmd_bind_ok _ _ _ _ _ (on_store_read _ _ _ Hget)).
  rewrite (cmd_bind_ok _ _ _ _ _ (on_store_read _ _ _ Hsec)).
  change (arEmail (scanMegaAccount a)) with (aEmail a).
  rewrite (cmd_bind_ok _ _ l (mkLifecycle ensured.1 d) ensured.2)
    by (unfold catch, on_client; subst ensured; by destruct (EnsureSession _ _ _ _ _)).
  set (l1 := mkLifecycle ensured.1 d). subst row. unfold row_outcome, ensured_row, failed_row, caller_outcome.
  pose proof (λ sealed status, on_store_ok _ l1 _ _ (ReplaceMegaAccountSession_run id sealed status now a d Hd Ha)) as Hrep.
  pose proof (λ status, on_store_ok _ l1 _ _ (MarkMegaAccountChecked_run id status now a d Hd Ha)) as Hmark.
  fold when in Hrep, Hmark. destruct ensured.2 as [s|e].
  - destruct (Reauthenticated s).
    + eexists. unfold seal_session. unfold catch, mbind, cmd_bind. rewrite Hrep. reflexivity.
    + eexists. rewrite (cmd_bind_ok _ _ _ _ _ (Hmark _)). reflexivity.
  - destruct (errors_is e ErrReauthRequired).
    + eexists. unfold ignore, mbind, cmd_bind. rewrite Hrep. reflexivity.
    + destruct mark_error.
      * eexists. unfold ignore, mbind, cmd_bind. rewrite Hmark. reflexivity.
      * exists (writeTransactions d). rewrite <-(row_unchanged id a d Ha). done.
Qed.

(** C35: With a working database and random source, checking an account leaves
    the client where the session check left it, and changes the row of this
    account alone: a session got with the password is stored sealed, and the
    next check opens exactly that session; a restored session keeps its
    ciphertext; a rejected session without a password is erased and the account
    marked for re-authentication, and any other failure keeps the stored
    session.  The caller gets the session, or the error. *)
Theorem account_session_persists mark_error id draw nonce now (l : AccountLifecycle) a :
  aead_ok gcm → length nonce = NonceSize gcm →
  faults (al_db l) = [] → accounts (tables (al_db l)) !! id = Some a →
  let when := if now =? 0 then wall (al_db l) else now in
  let ensured := EnsureSession (aEmail a) (open_or_nil (aSession a)) (open_or_nil (aCredential a)) draw (al_client l) in
  let p := account_session mark_error id draw (Ok nonce) now l in
  let row := row_outcome a mark_error nonce ensured.2 when in
  al_client p.1 = ensured.1
  ∧ accounts (tables (al_db p.1)) = <[id := row]> (accounts (tables (al_db l)))
  ∧ jobs (tables (al_db p.1)) = jobs (tables (al_db l))
  ∧ p.2 = caller_outcome ensured.2
  ∧ open_or_nil (aSession row) = match ensured.2 with
      | Ok s => if Reauthenticated s then to_bytes (SessionID s) else open_or_nil (aSession a)
      | Err e => if errors_is e ErrReauthRequired then [] else open_or_nil (aSession a)
      end.
Proof.
  intros Hg Hn Hd Ha when ensured p row.
  assert (open_or_nil (aSession row) = match ensured.2 with
      | Ok s => if Reauthenticated s then to_bytes (SessionID s) else open_or_nil (aSession a)
      | Err e => if errors_is e ErrReauthRequired then [] else open_or_nil (aSession a) end) as Hopen.
  { subst row. unfold row_outcome, ensured_row, failed_row. destruct ensured.2 as [s|e]; cbn.
    - destruct (Reauthenticated s); [by apply open_or_nil_sealed|done].
    - destruct (errors_is e ErrReauthRequired); [done|by destruct mark_error]. }
  destruct (account_session_run mark_error id draw nonce now l a Hd Ha) as (n & Hp).
  fold when ensured row in Hp. unfold p. rewrite Hp. cbn. done.
Qed.
End accounts.

(** A cipher that appends one byte. *)
Definition tag_aead : AEAD :=
  mkAEAD 2 1 (λ _ _ plaintext, plaintext ++ [0]) (λ _ _ ciphertext, Ok (removelast ciphertext)).

Lemma tag_aead_ok : aead_ok tag_aead.
Proof.
  split; cbn.
  - intros _ nonce plaintext _. by rewrite removelast_last.
  - intros _ _ plaintext. rewrite length_app. cbn. lia.
Qed.

Lemma account_session_persists_witness :
  let a := mkAccountRow "a" "main" "m@x" [] ([9; 9] ++ to_bytes "sid" ++ [0]) "unknown" true None 1 1 in
  let d := mkDB (empty_tables <| accounts := {[ "a" := a ]} |>) 0 0 [] [] 7 (New "constraint failed") in
  let ok := Response 200 "" (Err (New "none")) (Ok [JObject {["mstrg" := JNumber "10"; "cstrg" := JNumber "3"]}]) None in
  let l c := mkLifecycle (mkClient None 0 "" c []) d in
  let run c := account_session (λ _, Err (New "no")) (λ _ b, b) (λ _ b, b) (λ _ _ _ _, []) (λ _, None)
                 tag_aead (mkSecretStore []) true "a" (Ok []) (Ok [5; 6]) 100 (l c) in
  (run [ok]).2 = Ok (mkAccountSession "sid" (mkHealth 10 3) true false)
  ∧ accounts (tables (al_db (run [ok]).1))
    = {["a" := a <| aStatus := "active" |> <| aLastChecked := Some 100 |> <| aUpdatedAt := 100 |>]}
  ∧ accounts (tables (al_db (run [Response 401 "" (Err (New "none")) (Ok []) None]).1))
    = {["a" := a <| aSession := [] |> <| aStatus := "requires_auth" |>
                 <| aLastChecked := Some 100 |> <| aUpdatedAt := 100 |>]}.
Proof.
  intros a d ok l run.
  pose proof (λ c, account_session_persists (λ _, Err (New "no")) (λ _ b, b) (λ _ b, b) (λ _ _ _ _, []) (λ _, None)
    tag_aead (mkSecretStore []) true "a" (Ok []) [5; 6] 100 (l c) a tag_aead_ok eq_refl eq_refl eq_refl) as H.
  split; [|split].
  - destruct (H [ok]) as (_ & _ & _ & E & _). etransitivity; [exact E|vm_compute; reflexivity].
  - destruct (H [ok]) as (_ & E & _). etransitivity; [exact E|vm_compute; reflexivity].
  - destruct (H [Response 401 "" (Err (New "none")) (Ok []) None]) as (_ & E & _). etransitivity; [exact E|vm_compute; reflexivity].
Defined.
