(* ===== verification/Settings.v ===== *)
(** * Application settings (internal/settings, internal/store/settings.go)

    The settings object with its defaults and validation, its rows in the
    database, and the service that reads and replaces them as a whole.
    [encoding/json] is an argument with the law the service relies on; the
    order in which Go ranges over a map is arbitrary. *)

From Stdlib Require Import ZArith Lia.
From stdpp Require Import base list gmap strings numbers pretty.
From S2P Require Import Prelude GoStrings GoErrors GoBase64 Paths Store Planner FsRoot Finalize.

(** ** The settings object (model.go) *)

Definition settings_DefaultSegmentSize : Z := Z.shiftl 8 20.

Record PathsSettings := mkPathsSettings { IncompleteRoot : string; CompleteRoot : string }.

Definition Configured (p : PathsSettings) : bool :=
  negb (bool_decide (IncompleteRoot p = "")) && negb (bool_decide (CompleteRoot p = "")).

Record DownloadSettings := mkDownloadSettings {
  AutoStart : bool;
  SegmentSizeBytes : Z;
  WorkersPerFile : Z;
  MaxActiveFiles : Z;
  MaxGlobalWorkers : Z;
  GlobalSpeedLimitBytesPerSecond : Z;
  PerJobDefaultLimitBytesPerSecond : Z;
  ConflictPolicy : string;
  CheckpointIntervalMs : Z;
  CheckpointBytes : Z;
  NormalRetryLimit : Z }.

Record NetworkSettings := mkNetworkSettings {
  ConnectTimeoutSeconds : Z;
  ResponseHeaderTimeoutSeconds : Z;
  ReadIdleTimeoutSeconds : Z }.

Record UISettings := mkUISettings { Theme : string; Locale : string }.

Record Settings := mkSettings {
  sPaths : PathsSettings;
  sDownloads : DownloadSettings;
  sNetwork : NetworkSettings;
  sUI : UISettings }.

#[export] Instance Settings_eta : Eta Settings := λ s,
  mkSettings (sPaths s) (sDownloads s) (sNetwork s) (sUI s).

Definition Default : Settings :=
  mkSettings (mkPathsSettings "" "")
    (mkDownloadSettings true settings_DefaultSegmentSize 4 2 8 0 0 "rename" 2000 (Z.shiftl 256 20) 5)
    (mkNetworkSettings 15 30 90) (mkUISettings "system" "en").

Definition checkRoot (name value : string) : list string :=
  if bool_decide (value = "") then []
  else if bool_decide (TrimSpace value = "") then [name +:+ " must be empty or an absolute path"]
  else if str_elem Nul value then [name +:+ " contains NUL"]
  else if negb (IsAbs value) then [name +:+ " must be absolute"]
  else if bool_decide (Clean value = "/") then [name +:+ " must not be the filesystem root"]
  else [].

(** [if b { problems = append(problems, text) }]. *)
Definition problem (b : bool) (text : string) : list string := if b then [text] else [].

Definition outside (low high x : Z) : bool := (x <? low) || (high <? x).

Definition problems (s : Settings) : list string :=
  let p := sPaths s in let d := sDownloads s in let n := sNetwork s in let u := sUI s in
  checkRoot "paths.incompleteRoot" (IncompleteRoot p)
  ++ checkRoot "paths.completeRoot" (CompleteRoot p)
  ++ problem (negb (Bool.eqb (bool_decide (IncompleteRoot p = "")) (bool_decide (CompleteRoot p = ""))))
       "paths.incompleteRoot and paths.completeRoot must both be empty or both be configured"
  ++ problem (outside (Z.shiftl 1 20) (Z.shiftl 64 20) (SegmentSizeBytes d))
       "downloads.segmentSizeBytes must be between 1048576 and 67108864"
  ++ problem (outside 1 16 (WorkersPerFile d)) "downloads.workersPerFile must be between 1 and 16"
  ++ problem (outside 1 16 (MaxActiveFiles d)) "downloads.maxActiveFiles must be between 1 and 16"
  ++ problem (outside 1 64 (MaxGlobalWorkers d)) "downloads.maxGlobalWorkers must be between 1 and 64"
  ++ problem ((GlobalSpeedLimitBytesPerSecond d <? 0) || (PerJobDefaultLimitBytesPerSecond d <? 0))
       "download speed limits must not be negative"
  ++ problem (bool_decide (ConflictPolicy d ∉ ["rename"; "overwrite"; "fail"]))
       "downloads.conflictPolicy must be rename, overwrite, or fail"
  ++ problem (outside 100 60000 (CheckpointIntervalMs d))
       "downloads.checkpointIntervalMs must be between 100 and 60000"
  ++ problem (outside (Z.shiftl 1 20) (Z.shiftl 1 40) (CheckpointBytes d))
       "downloads.checkpointBytes is outside the safe range"
  ++ problem (outside 0 20 (NormalRetryLimit d)) "downloads.normalRetryLimit must be between 0 and 20"
  ++ problem (outside 1 300 (ConnectTimeoutSeconds n)) "network.connectTimeoutSeconds must be between 1 and 300"
  ++ problem (outside 1 600 (ResponseHeaderTimeoutSeconds n))
       "network.responseHeaderTimeoutSeconds must be between 1 and 600"
  ++ problem (outside 1 3600 (ReadIdleTimeoutSeconds n))
       "network.readIdleTimeoutSeconds must be between 1 and 3600"
  ++ problem (bool_decide (Theme u ∉ ["light"; "dark"; "system"])) "ui.theme must be light, dark, or system"
  ++ problem (bool_decide (Locale u ≠ "en")) "ui.locale must be en".

Definition Settings_Validate (s : Settings) : result error () :=
  match problems s with
  | [] => Ok ()
  | l => Err (New ("invalid settings: " +:+ Join l "; "))
  end.

(** ** Rows (store/settings.go) *)

(** [json.Marshal] and [json.Unmarshal] into a value that already has fields. *)
Record Codec (T : Type) := mkCodec {
  Marshal : T → result error (list Z);
  Unmarshal : list Z → T → result error T }.
Arguments Marshal {T} _ _.
Arguments Unmarshal {T} _ _ _.
Arguments mkCodec {T} _ _.

Record SettingValue := mkSettingValue { svKey : string; svValue : list Z; svTime : Z }.

Section service.
(** The order in which [range] visits a map. *)
Context (range : ∀ {A}, gmap string A → list (string * A)).
Context (paths_json : Codec PathsSettings) (downloads_json : Codec DownloadSettings).
Context (network_json : Codec NetworkSettings) (ui_json : Codec UISettings).

Definition ReadSettings : store_cmd (gmap string SettingValue) :=
  rows ← wrapped "read settings" (query (λ t, map_imap (λ key row,
           Some (mkSettingValue key (svJSON row) (svUpdatedAt row))) (settings t)));
  _ ← wrapped "read settings rows" (query (λ _, ()));
  mret rows.

Definition put_setting (key : string) (raw : list Z) (when : Z) (t : Tables) : option (Tables * ()) :=
  Some (t <| settings := <[key := mkSettingRow raw when]> (settings t) |>, ()).

(** One iteration of the loop of [ReplaceSettings]. *)
Definition write_setting (now : Z) (kr : string * list Z) : store_cmd () :=
  let '(key, raw) := kr in
  _ ← guard_err (bool_decide (key = "") || bool_decide (raw = []))
        (New ("setting " +:+ quote key +:+ " has no JSON value"));
  wrapped ("write setting " +:+ quote key) (exec (put_setting key raw now)).

Definition ReplaceSettings (values : gmap string (list Z)) (now : Z) : store_cmd () :=
  WithTx (for_each (range _ values) (write_setting now)).

(** ** The service (service.go) *)

Definition marshal_section {T} (c : Codec T) (key : string) (section : T) : result error (list Z) :=
  match Marshal c section with
  | Err e => Err (Wrapf ("marshal settings." +:+ key) e)
  | Ok encoded => Ok encoded
  end.

Definition marshalSections (value : Settings) : result error (gmap string (list Z)) :=
  paths ← marshal_section paths_json "paths" (sPaths value);
  downloads ← marshal_section downloads_json "downloads" (sDownloads value);
  network ← marshal_section network_json "network" (sNetwork value);
  ui ← marshal_section ui_json "ui" (sUI value);
  Ok {["paths" := paths; "downloads" := downloads; "network" := network; "ui" := ui]}.

Definition Service_Update (value : Settings) (now : Z) : store_cmd () :=
  _ ← lift_result (Settings_Validate value);
  sections ← lift_result (marshalSections value);
  ReplaceSettings sections now.

(** One row decoded into the section it names; other keys are skipped. *)
Definition decode_section (key : string) (raw : list Z) (s : Settings) : result error Settings :=
  let failed e := Err (Wrapf ("decode settings." +:+ key) e) in
  if bool_decide (key = "paths") then
    match Unmarshal paths_json raw (sPaths s) with Ok v => Ok (s <| sPaths := v |>) | Err e => failed e end
  else if bool_decide (key = "downloads") then
    match Unmarshal downloads_json raw (sDownloads s) with Ok v => Ok (s <| sDownloads := v |>) | Err e => failed e end
  else if bool_decide (key = "network") then
    match Unmarshal network_json raw (sNetwork s) with Ok v => Ok (s <| sNetwork := v |>) | Err e => failed e end
  else if bool_decide (key = "ui") then
    match Unmarshal ui_json raw (sUI s) with Ok v => Ok (s <| sUI := v |>) | Err e => failed e end
  else Ok s.

Fixpoint decode_sections (rows : list (string * SettingValue)) (s : Settings) : result error Settings :=
  match rows with
  | [] => Ok s
  | (key, raw) :: rows => s ← decode_section key (svValue raw) s; decode_sections rows s
  end.

Definition Service_Get (now : Z) : store_cmd Settings :=
  values ← ReadSettings;
  if bool_decide (values = ∅) then
    _ ← Service_Update Default now;
    mret Default
  else
    settings ← lift_result (decode_sections (range _ values) Default);
    _ ← lift_result (Settings_Validate settings);
    mret settings.

(** A service is only handed out over readable settings. *)
Definition NewService (now : Z) : store_cmd () := _ ← Service_Get now; mret ().
End service.

(** ** What validation accepts *)

Definition root_ok (value : string) : Prop :=
  value = "" ∨ IsAbs value = true ∧ str_elem Nul value = false ∧ Clean value ≠ "/".

Record settings_ok (s : Settings) : Prop := {
  ok_incomplete : root_ok (IncompleteRoot (sPaths s));
  ok_complete : root_ok (CompleteRoot (sPaths s));
  ok_both : IncompleteRoot (sPaths s) = "" ↔ CompleteRoot (sPaths s) = "";
  ok_segment : 2 ^ 20 ≤ SegmentSizeBytes (sDownloads s) ≤ 2 ^ 26;
  ok_workers : 1 ≤ WorkersPerFile (sDownloads s) ≤ 16;
  ok_active : 1 ≤ MaxActiveFiles (sDownloads s) ≤ 16;
  ok_global : 1 ≤ MaxGlobalWorkers (sDownloads s) ≤ 64;
  ok_limits : 0 ≤ GlobalSpeedLimitBytesPerSecond (sDownloads s)
              ∧ 0 ≤ PerJobDefaultLimitBytesPerSecond (sDownloads s);
  ok_policy : ConflictPolicy (sDownloads s) ∈ ["rename"; "overwrite"; "fail"];
  ok_interval : 100 ≤ CheckpointIntervalMs (sDownloads s) ≤ 60000;
  ok_checkpoint : 2 ^ 20 ≤ CheckpointBytes (sDownloads s) ≤ 2 ^ 40;
  ok_retries : 0 ≤ NormalRetryLimit (sDownloads s) ≤ 20;
  ok_connect : 1 ≤ ConnectTimeoutSeconds (sNetwork s) ≤ 300;
  ok_header : 1 ≤ ResponseHeaderTimeoutSeconds (sNetwork s) ≤ 600;
  ok_idle : 1 ≤ ReadIdleTimeoutSeconds (sNetwork s) ≤ 3600;
  ok_theme : Theme (sUI s) ∈ ["light"; "dark"; "system"];
  ok_locale : Locale (sUI s) = "en" }.

Lemma problem_nil b text : problem b text = [] ↔ b = false.
Proof. by destruct b. Qed.

Lemma outside_false low high x : outside low high x = false ↔ low ≤ x ≤ high.
Proof. unfold outside. rewrite orb_false_iff, !Z.ltb_ge. lia. Qed.

(** Trimming white space keeps every byte that no space is made of. *)
Lemma trim_left_elem c encs s :
  Forall (λ e, str_elem c e = false) encs → str_elem c (trim_left encs s) = str_elem c s.
Proof.
  intros He. unfold trim_left. generalize (String.length s) as fuel. intros fuel. revert s.
  induction fuel as [|fuel IH]; intros s; [done|]. cbn.
  destruct (find (HasPrefix s) encs) as [e|] eqn:Hf; [|done].
  apply find_some in Hf as [Hin Hp]. rewrite IH. apply HasPrefix_true in Hp. rewrite Hp at 2.
  rewrite str_elem_app. rewrite Forall_forall in He. by rewrite (He e) by (by apply list_elem_of_In).
Qed.

Lemma TrimSpace_slash s : str_elem Slash s = true → TrimSpace s ≠ "".
Proof.
  intros Hs Ht. assert (str_elem Slash (TrimSpace s) = true) as H; [|by rewrite Ht in H].
  unfold TrimSpace. rewrite str_elem_rev, trim_left_elem, str_elem_rev, trim_left_elem; [done|..];
    by repeat constructor.
Qed.

(** White space alone is never an absolute path. *)
Lemma checkRoot_nil name value : checkRoot name value = [] ↔ root_ok value.
Proof.
  unfold checkRoot, root_ok. case_bool_decide as He; [tauto|].
  case_bool_decide as Ht.
  - split; [done|]. intros [?|(Ha & _ & Hc)]; [done|]. exfalso. revert Ht. apply TrimSpace_slash.
    rewrite IsAbs_spec in Ha. destruct value as [|c v]; [done|]. apply bool_decide_eq_true in Ha as ->. done.
  - destruct (str_elem Nul value); [split; [done|]; by intros [?|(_ & ? & _)]|].
    destruct (IsAbs value); cbn [negb]; [|split; [done|]; by intros [?|(? & _)]].
    case_bool_decide; split; try done; [by intros [?|(_ & _ & ?)]|by right].
Qed.

Lemma Validate_ok s : Settings_Validate s = Ok () ↔ settings_ok s.
Proof.
  assert (Settings_Validate s = Ok () ↔ problems s = []) as ->.
  { unfold Settings_Validate. by destruct (problems s). }
  unfold problems. cbv zeta. rewrite !app_nil, !checkRoot_nil, !problem_nil, !outside_false, !orb_false_iff, !Z.ltb_ge.
  rewrite !bool_decide_eq_false, negb_false_iff, eqb_true_iff.
  split.
  - intros (H1&H2&H3&H4&H5&H6&H7&H8&H9&H10&H11&H12&H13&H14&H15&H16&H17).
    split; try done; try by apply dec_stable.
    by rewrite <-(bool_decide_eq_true (IncompleteRoot _ = "")), H3, bool_decide_eq_true.
  - intros []. split_and!; try done; try tauto. by apply bool_decide_ext.
Qed.

(** ** UTF-8 (what [json.Marshal] keeps unchanged) *)

Definition continuation (b : Z) : bool := (128 <=? b) && (b <=? 191).

Fixpoint utf8_valid (l : list Z) : bool :=
  match l with
  | [] => true
  | b0 :: l0 =>
      if b0 <? 128 then utf8_valid l0
      else match l0 with
      | [] => false
      | b1 :: l1 =>
          if (194 <=? b0) && (b0 <=? 223) && continuation b1 then utf8_valid l1
          else match l1 with
          | [] => false
          | b2 :: l2 =>
              let second := if b0 =? 224 then (160 <=? b1) && (b1 <=? 191)
                            else if b0 =? 237 then (128 <=? b1) && (b1 <=? 159)
                            else continuation b1 in
              if (224 <=? b0) && (b0 <=? 239) && second && continuation b2 then utf8_valid l2
              else match l2 with
              | [] => false
              | b3 :: l3 =>
                  let second := if b0 =? 240 then (144 <=? b1) && (b1 <=? 191)
                                else if b0 =? 244 then (128 <=? b1) && (b1 <=? 143)
                                else continuation b1 in
                  if (240 <=? b0) && (b0 <=? 244) && second && continuation b2 && continuation b3
                  then utf8_valid l3 else false
              end
          end
      end
  end.

Definition text_ok (s : string) : Prop := utf8_valid (to_bytes s) = true.

(** A section is written to a non-empty text and reads back, whatever the value
    it is read into: every field is written, none is omitted. *)
Definition codec_ok {T} (P : T → Prop) (c : Codec T) : Prop :=
  ∀ v, P v → ∃ raw, Marshal c v = Ok raw ∧ raw ≠ [] ∧ ∀ old, Unmarshal c raw old = Ok v.

Lemma configured_root p : IsAbs p = true → Clean p ≠ "/" → root_path p ≠ [] ∧ Forall name_ok (root_path p).
Proof.
  intros Ha Hc. split; [|by apply absolute_components_Clean].
  revert Hc. unfold root_path, absolute_components, Clean. rewrite Ha, TrimPrefix_app. set (l := reverse _). intros Hc.
  assert (Forall name_ok l) as Hl by (apply Forall_reverse, clean_names; [apply Split_parts_no_sep|done]).
  destruct l as [|x l]; [done|]. intros He.
  assert (Split (Join (x :: l) "/") Slash = x :: l) as Hs.
  { apply (Split_Join (x :: l) Slash); [done|]. eapply Forall_impl; [exact Hl|]. by intros c (_&_&_&?). }
  rewrite Hs in He. apply Forall_cons in Hl as [Hx _]. rewrite filter_cons_True in He; [done|]. split; apply Hx.
Qed.

Section laws.
Context (range : ∀ {A}, gmap string A → list (string * A)).
Context (paths_json : Codec PathsSettings) (downloads_json : Codec DownloadSettings).
Context (network_json : Codec NetworkSettings) (ui_json : Codec UISettings).
Context (range_perm : ∀ A (m : gmap string A), range _ m ≡ₚ map_to_list m).
Context (paths_ok : codec_ok (λ p, text_ok (IncompleteRoot p) ∧ text_ok (CompleteRoot p)) paths_json).
Context (downloads_ok : codec_ok (λ d, text_ok (ConflictPolicy d)) downloads_json).
Context (network_ok : codec_ok (λ _, True) network_json).
Context (ui_ok : codec_ok (λ u, text_ok (Theme u) ∧ text_ok (Locale u)) ui_json).

Definition put_row (now : Z) (t : Tables) (kr : string * list Z) : Tables :=
  t <| settings := <[kr.1 := mkSettingRow kr.2 now]> (settings t) |>.

Lemma put_rows_ok now rows d d' :
  for_each rows (write_setting now) d = (d', Ok ()) → tables d' = foldl (put_row now) (tables d) rows.
Proof.
  revert d. induction rows as [|[key raw] rows IH]; intros d; cbn [for_each foldl]; [by intros [= ->]|].
  intros ([] & d1 & H1 & H)%cmd_bind_inv. rewrite (IH _ H). f_equal.
  unfold write_setting in H1. apply cmd_bind_inv in H1 as ([] & d2 & Hg & Hw).
  apply wrapped_ok, exec_ok in Hw as (Hf & _). injection Hf as <-.
  unfold guard_err in Hg. destruct (_ || _); [done|]. by injection Hg as <-.
Qed.

Lemma put_rows_run now rows d : faults d = [] → Forall (λ kr, kr.1 ≠ "" ∧ kr.2 ≠ []) rows →
  ∃ d', for_each rows (write_setting now) d = (d', Ok ()) ∧ faults d' = [].
Proof.
  intros Hd Hrows. revert d Hd. induction Hrows as [|[key raw] rows [Hk Hr] _ IH]; intros d Hd; [by exists d|].
  cbn in Hk, Hr. cbn [for_each].
  rewrite (cmd_bind_ok _ _ d (d <| tables := put_row now (tables d) (key, raw) |>) ()); [by apply IH|].
  unfold write_setting. rewrite (cmd_bind_ok _ _ d d ()) by (unfold guard_err; by rewrite !bool_decide_eq_false_2).
  by apply wrapped_run, exec_run.
Qed.

(** The rows written are those of the map, whatever the order. *)
Lemma put_rows_lookup now rows t key : NoDup rows.*1 →
  settings (foldl (put_row now) t rows) !! key
  = match (list_to_map rows : gmap string (list Z)) !! key with
    | Some raw => Some (mkSettingRow raw now)
    | None => settings t !! key
    end.
Proof.
  revert t. induction rows as [|[k raw] rows IH]; intros t; [done|]. cbn. intros [Hk Hnd]%NoDup_cons.
  rewrite IH by done. destruct (decide (k = key)) as [->|Hne].
  - rewrite lookup_insert_eq. rewrite not_elem_of_list_to_map_1 by done. cbn. by rewrite lookup_insert_eq.
  - rewrite lookup_insert_ne by done. case_match; [done|]. cbn. by rewrite lookup_insert_ne.
Qed.

Lemma put_rows_frame now rows t : foldl (put_row now) t rows = t <| settings := settings (foldl (put_row now) t rows) |>.
Proof.
  revert t. induction rows as [|kr rows IH]; intros t; [by destruct t|]. cbn. rewrite IH. by destruct t.
Qed.

Lemma range_map {A} (m : gmap string A) : NoDup (range _ m).*1 ∧ list_to_map (range _ m) = m.
Proof.
  assert (NoDup (range _ m).*1) as Hnd by (rewrite range_perm; apply NoDup_fst_map_to_list).
  split; [done|]. rewrite <-(list_to_map_to_list m) at 2. by apply list_to_map_proper.
Qed.

(** Reading: every row of a known key gives that section, others nothing. *)
Definition decodes (v : Settings) (kr : string * SettingValue) : Prop :=
  let '(key, row) := kr in let raw := svValue row in
  (key = "paths" → ∀ old, Unmarshal paths_json raw old = Ok (sPaths v))
  ∧ (key = "downloads" → ∀ old, Unmarshal downloads_json raw old = Ok (sDownloads v))
  ∧ (key = "network" → ∀ old, Unmarshal network_json raw old = Ok (sNetwork v))
  ∧ (key = "ui" → ∀ old, Unmarshal ui_json raw old = Ok (sUI v)).

Definition pick {A} (key : string) (keys : list string) (a b : A) : A :=
  if bool_decide (key ∈ keys) then a else b.

Definition mixed (v s : Settings) (keys : list string) : Settings :=
  mkSettings (pick "paths" keys (sPaths v) (sPaths s)) (pick "downloads" keys (sDownloads v) (sDownloads s))
    (pick "network" keys (sNetwork v) (sNetwork s)) (pick "ui" keys (sUI v) (sUI s)).

Lemma pick_cons {A} key k keys (a b : A) : pick key (k :: keys) a b = pick key keys a (pick key [k] a b).
Proof.
  unfold pick. repeat case_bool_decide; try done; exfalso; set_solver.
Qed.

Lemma decode_section_picks v key row s : decodes v (key, row) →
  decode_section paths_json downloads_json network_json ui_json key (svValue row) s = Ok (mixed v s [key]).
Proof.
  intros (H1 & H2 & H3 & H4). unfold decode_section, mixed.
  assert (∀ A k (a b : A), key ≠ k → pick k [key] a b = b) as Hout
    by (intros A k a b Hne; unfold pick; by rewrite bool_decide_eq_false_2 by set_solver).
  case_bool_decide as Hk; [subst key; rewrite H1 by done; vm_compute; reflexivity|].
  case_bool_decide as Hk2; [subst key; rewrite H2 by done; vm_compute; reflexivity|].
  case_bool_decide as Hk3; [subst key; rewrite H3 by done; vm_compute; reflexivity|].
  case_bool_decide as Hk4; [subst key; rewrite H4 by done; vm_compute; reflexivity|].
  rewrite !Hout by done. by destruct s.
Qed.

Lemma decode_sections_picks v rows s : Forall (decodes v) rows →
  decode_sections paths_json downloads_json network_json ui_json rows s = Ok (mixed v s rows.*1).
Proof.
  intros H. revert s. induction H as [|[key row] rows Hr _ IH]; intros s; [by destruct s|].
  cbn [decode_sections]. rewrite (decode_section_picks v) by done. cbn [mbind result_bind]. rewrite IH.
  cbn [fmap list_fmap fst]. unfold mixed. cbn. f_equal. f_equal; symmetry; apply pick_cons.
Qed.

Definition row_value (key : string) (row : SettingRow) : SettingValue :=
  mkSettingValue key (svJSON row) (svUpdatedAt row).

Lemma ReadSettings_run d : faults d = [] →
  ReadSettings d = (d, Ok (map_imap (λ key row, Some (row_value key row)) (settings (tables d)))).
Proof.
  intros Hd. unfold ReadSettings. rewrite (cmd_bind_ok _ _ _ _ _ (wrapped_run _ _ _ _ _ (query_run _ _ Hd))).
  by rewrite (cmd_bind_ok _ _ _ _ _ (wrapped_run _ _ _ _ _ (query_run _ _ Hd))).
Qed.

Definition settings_text (v : Settings) : Prop :=
  (text_ok (IncompleteRoot (sPaths v)) ∧ text_ok (CompleteRoot (sPaths v)))
  ∧ text_ok (ConflictPolicy (sDownloads v)) ∧ (text_ok (Theme (sUI v)) ∧ text_ok (Locale (sUI v))).

Abbreviation Update := (Service_Update range paths_json downloads_json network_json ui_json).
Abbreviation Get := (Service_Get range paths_json downloads_json network_json ui_json).
Abbreviation sections := (marshalSections paths_json downloads_json network_json ui_json).

Lemma four_lookup (p d n u raw : list Z) key :
  ({["paths" := p; "downloads" := d; "network" := n; "ui" := u]} : gmap string (list Z)) !! key = Some raw ↔
  key = "paths" ∧ raw = p ∨ key = "downloads" ∧ raw = d ∨ key = "network" ∧ raw = n ∨ key = "ui" ∧ raw = u.
Proof.
  rewrite !lookup_insert_Some, lookup_singleton_Some. split; [naive_solver|].
  intros [[-> ->]|[[-> ->]|[[-> ->]|[-> ->]]]]; naive_solver.
Qed.

Lemma sections_of v : settings_text v → ∃ p d n u,
  sections v = Ok {["paths" := p; "downloads" := d; "network" := n; "ui" := u]}
  ∧ Forall (λ raw, raw ≠ []) [p; d; n; u]
  ∧ ∀ key raw now, ({["paths" := p; "downloads" := d; "network" := n; "ui" := u]} : gmap string (list Z)) !! key = Some raw →
      decodes v (key, mkSettingValue key raw now).
Proof.
  intros (Hp & Hd & Hu). destruct (paths_ok _ Hp) as (p & Mp & Np & Up). destruct (downloads_ok _ Hd) as (d & Md & Nd & Ud).
  destruct (network_ok (sNetwork v) I) as (n & Mn & Nn & Un). destruct (ui_ok _ Hu) as (u & Mu & Nu & Uu).
  exists p, d, n, u. split; [|split].
  - unfold marshalSections, marshal_section. by rewrite Mp, Md, Mn, Mu.
  - by repeat constructor.
  - intros key raw now Hraw%four_lookup. unfold decodes. cbn. naive_solver.
Qed.

Lemma Update_inv v now d d' : settings_text v → Update v now d = (d', Ok ()) →
  settings_ok v ∧ ∃ sec, sections v = Ok sec ∧ tables d' = foldl (put_row now) (tables d) (range _ sec).
Proof.
  intros Hv. unfold Service_Update. intros ([] & d1 & H1 & H)%cmd_bind_inv.
  injection H1 as <- Hval. apply cmd_bind_inv in H as (sec & d2 & H2 & H). injection H2 as <- Hsec.
  split; [by apply Validate_ok|]. exists sec. split; [done|].
  apply WithTx_ok in H as (d3 & d4 & Hf & Ht & _ & _ & -> & _). apply put_rows_ok in Hf. by rewrite Hf, Ht.
Qed.

Lemma Update_run v now d : settings_text v → faults d = [] → settings_ok v → (Update v now d).2 = Ok ().
Proof.
  intros Hv Hd Hok. unfold Service_Update.
  rewrite (cmd_bind_ok _ _ d d ()) by (unfold lift_result; by rewrite (proj2 (Validate_ok v) Hok)).
  destruct (sections_of v Hv) as (p & dl & n & u & Hsec & Hne & _).
  rewrite (cmd_bind_ok _ _ d d _) by (unfold lift_result; by rewrite Hsec).
  set (sec := _ : gmap string (list Z)). unfold ReplaceSettings.
  destruct (put_rows_run now (range _ sec) d Hd) as (d' & Hrun & Hd').
  - rewrite range_perm. apply Forall_forall. intros [key raw] Hin%elem_of_map_to_list. cbn.
    rewrite !Forall_cons in Hne. apply four_lookup in Hin. naive_solver.
  - by rewrite (WithTx_run _ _ _ Hd Hrun Hd').
Qed.

(** What a database with the rows of [v] reads as. *)
Lemma Get_run v sec now now' t d : settings_text v → settings_ok v → sections v = Ok sec → faults d = [] →
  settings (tables d) = settings (foldl (put_row now) t (range _ sec)) → Get now' d = (d, Ok v).
Proof.
  intros Hv Hok Hsec Hd Hs. destruct (sections_of v Hv) as (p & dl & n & u & Hsec' & _ & Hdec).
  rewrite Hsec in Hsec'. injection Hsec' as ->. set (m := _ : gmap string (list Z)) in *.
  destruct (range_map m) as [Hnd Hl].
  assert (∀ key, settings (tables d) !! key = match m !! key with
    | Some raw => Some (mkSettingRow raw now) | None => settings t !! key end) as Hrow.
  { intros key. rewrite Hs, put_rows_lookup by done. by rewrite Hl. }
  unfold Service_Get. rewrite (cmd_bind_ok _ _ _ _ _ (ReadSettings_run d Hd)).
  set (rows := map_imap _ _). assert (∀ key, rows !! key = row_value key <$> settings (tables d) !! key) as Hrows
    by (intros key; unfold rows; rewrite map_lookup_imap; by destruct (settings (tables d) !! key)).
  assert (∀ key, is_Some (m !! key) → key ∈ (range _ rows).*1) as Hin.
  { intros key [raw Hraw]. rewrite range_perm. apply list_elem_of_fmap. exists (key, row_value key (mkSettingRow raw now)).
    split; [done|]. apply elem_of_map_to_list. by rewrite Hrows, Hrow, Hraw. }
  rewrite bool_decide_eq_false_2.
  2: { intros He. specialize (Hin "paths" ltac:(by eexists)). rewrite range_perm, He, map_to_list_empty in Hin. set_solver. }
  rewrite (cmd_bind_ok _ _ d d v).
  - by rewrite (cmd_bind_ok _ _ d d ()) by (unfold lift_result; by rewrite (proj2 (Validate_ok v) Hok)).
  - unfold lift_result. rewrite (decode_sections_picks v).
    + unfold mixed, pick. rewrite !bool_decide_eq_true_2 by (apply Hin; by eexists). by destruct v.
    + rewrite range_perm. apply Forall_forall. intros [key row] Hk%elem_of_map_to_list.
      rewrite Hrows, Hrow in Hk. destruct (m !! key) as [raw|] eqn:Hraw.
      * injection Hk as <-. by apply (Hdec key raw now).
      * assert (∀ k, is_Some (m !! k) → key ≠ k) as Hno by (intros k [? ?] ->; congruence).
        unfold decodes. split_and!; intros ->; exfalso; eapply Hno; try done; by eexists.
Qed.

(** C22: Replacing the settings is all or nothing under every schedule of
    database failures: after an error the tables are as before, and invalid
    settings are refused before anything is touched; after success only the
    settings table changed, and whoever reads it later, in whatever order the
    rows come and with whatever unknown rows beside them, gets exactly the
    settings that were written.  A first start stores and returns the defaults. *)
Theorem settings_replaced_whole v now now' d : settings_text v →
  let p := Update v now d in
  (∀ e, p.2 = Err e → tables p.1 = tables d)
  ∧ (¬ settings_ok v → p.1 = d ∧ is_ok p.2 = false)
  ∧ (p.2 = Ok () → settings_ok v ∧ tables p.1 = tables d <| settings := settings (tables p.1) |>
      ∧ ∀ d2, faults d2 = [] → settings (tables d2) = settings (tables p.1) → Get now' d2 = (d2, Ok v))
  ∧ (faults d = [] → settings_ok v → p.2 = Ok ())
  ∧ (faults d = [] → settings (tables d) = ∅ → Get now d = ((Update Default now d).1, Ok Default)).
Proof.
  intros Hv p.
  assert (¬ settings_ok v → p.1 = d ∧ is_ok p.2 = false) as Hbad.
  { intros Hn. rewrite <-Validate_ok in Hn. unfold p, Service_Update, mbind, cmd_bind, lift_result.
    by destruct (Settings_Validate v) as [[]|e]. }
  split; [|split; [exact Hbad|split; [|split]]].
  - intros e He. destruct (Settings_Validate v) as [[]|ve] eqn:Hval.
    2: { by rewrite (proj1 (Hbad ltac:(rewrite <-Validate_ok, Hval; done))). }
    revert He. unfold p, Service_Update.
    rewrite (cmd_bind_ok _ _ d d ()) by (unfold lift_result; by rewrite Hval).
    destruct (sections_of v Hv) as (? & ? & ? & ? & Hsec & _).
    rewrite (cmd_bind_ok _ _ d d _) by (unfold lift_result; by rewrite Hsec).
    unfold ReplaceSettings. destruct (WithTx _ d) as [d' r] eqn:Htx. cbn. intros ->. by eapply WithTx_err.
  - intros Hp. destruct p as [d' r] eqn:Hpe. cbn in Hp. subst r. destruct (Update_inv v now d d' Hv Hpe) as (Hok & sec & Hsec & Ht).
    cbn. split; [done|]. rewrite Ht. split; [apply put_rows_frame|]. intros d2 Hd2 Hs. by eapply Get_run.
  - intros Hd Hok. by apply Update_run.
  - intros Hd He. unfold Service_Get. rewrite (cmd_bind_ok _ _ _ _ _ (ReadSettings_run d Hd)). rewrite He.
    rewrite bool_decide_eq_true_2 by done.
    assert (settings_ok Default) as Hdef by (by apply Validate_ok).
    assert (settings_text Default) as Htext by done.
    pose proof (Update_run Default now d Htext Hd Hdef) as Hu. unfold mbind, cmd_bind.
    destruct (Update Default now d) as [d' r]. cbn in Hu |- *. by subst r.
Qed.

(** ST2: Settings the service returns are usable everywhere: every bound holds,
    configured roots are proper absolute directories, never the filesystem root,
    and for every file that leaves one segment of room below 2^63 the segment
    planner accepts the configured segment size. *)
Theorem Get_usable now d d' s : Get now d = (d', Ok s) →
  settings_ok s
  ∧ (Configured (sPaths s) = true → ∀ root, root ∈ [IncompleteRoot (sPaths s); CompleteRoot (sPaths s)] →
      root_path root ≠ [] ∧ Forall name_ok (root_path root))
  ∧ ∀ size, 0 ≤ size ≤ int64_max - SegmentSizeBytes (sDownloads s) →
      ∃ planner, NewSegmentPlanner size (SegmentSizeBytes (sDownloads s)) = Ok planner ∧ planner_ok planner.
Proof.
  intros H. assert (settings_ok s) as Hok.
  { unfold Service_Get in H. apply cmd_bind_inv in H as (values & d1 & _ & H). case_bool_decide.
    - apply cmd_bind_inv in H as (? & d2 & _ & H). injection H as _ <-. by apply Validate_ok.
    - apply cmd_bind_inv in H as (s' & d2 & _ & H). apply cmd_bind_inv in H as ([] & d3 & Hv & H).
      injection H as _ <-. injection Hv as _ Hv. by apply Validate_ok. }
  split; [done|split].
  - intros Hc root Hr. assert (root_ok root ∧ root ≠ "") as [[?|(Ha & _ & Hroot)] Hne]; [|done|].
    { unfold Configured in Hc. bool_to_prop. destruct Hok.
      apply elem_of_cons in Hr as [->|Hr]; [done|]. by apply list_elem_of_singleton in Hr as ->. }
    by apply configured_root.
  - intros size Hsize. destruct (ok_segment s Hok) as [Hl Hh]. set (seg := SegmentSizeBytes (sDownloads s)) in *.
    unfold NewSegmentPlanner at 1. rewrite (proj2 (Z.ltb_ge size 0)) by lia. rewrite (proj2 (Z.leb_gt seg 0)) by lia.
    eexists. split; [reflexivity|]. unfold planner_ok. cbn. unfold NewSegmentPlanner.
    rewrite (proj2 (Z.ltb_ge size 0)) by lia. rewrite (proj2 (Z.leb_gt seg 0)) by lia.
    split; [done|]. unfold int64_ok, int64_min, int64_max in *. lia.
Qed.
End laws.

(** ** Witnesses *)

(** A codec that writes one number. *)
Definition number_codec {T U} `{Countable U} (to : T → U) (back : U → T) : Codec T :=
  mkCodec (λ v, Ok [Zpos (encode (to v))])
    (λ raw _, match raw with
              | [Zpos p] => match decode p with Some u => Ok (back u) | None => Err (New "malformed") end
              | _ => Err (New "malformed")
              end).

Lemma number_codec_ok {T U} `{Countable U} (to : T → U) (back : U → T) P : (∀ v, back (to v) = v) → codec_ok P (number_codec to back).
Proof.
  intros Hback v _. eexists. split; [done|]. split; [done|]. intros old. cbn [Unmarshal number_codec].
  by rewrite decode_encode, Hback.
Qed.

Definition sample_paths_json := number_codec (λ p, (IncompleteRoot p, CompleteRoot p)) (λ '(a, b), mkPathsSettings a b).
Definition sample_downloads_json := number_codec
  (λ d, ((AutoStart d, SegmentSizeBytes d, WorkersPerFile d, MaxActiveFiles d, MaxGlobalWorkers d),
         (GlobalSpeedLimitBytesPerSecond d, PerJobDefaultLimitBytesPerSecond d, ConflictPolicy d),
         (CheckpointIntervalMs d, CheckpointBytes d, NormalRetryLimit d)))
  (λ '((a, b, c, e, f), (g, h, i), (j, k, l)), mkDownloadSettings a b c e f g h i j k l).
Definition sample_network_json := number_codec
  (λ n, (ConnectTimeoutSeconds n, ResponseHeaderTimeoutSeconds n, ReadIdleTimeoutSeconds n))
  (λ '(a, b, c), mkNetworkSettings a b c).
Definition sample_ui_json := number_codec (λ u, (Theme u, Locale u)) (λ '(a, b), mkUISettings a b).

Definition sample_settings : Settings := Default <| sPaths := mkPathsSettings "/data/incomplete" "/data/complete" |>.
Definition sample_settings_db : DB :=
  mkDB (empty_tables <| settings := {["legacy" := mkSettingRow [123; 125] 1]} |>) 0 0 [] [] 7 (New "constraint failed").

Lemma settings_replaced_whole_witness :
  let Update := Service_Update (λ A, @map_to_list _ _ _ _) sample_paths_json sample_downloads_json sample_network_json sample_ui_json in
  let Get := Service_Get (λ A, @map_to_list _ _ _ _) sample_paths_json sample_downloads_json sample_network_json sample_ui_json in
  let d := (Update sample_settings 100 sample_settings_db).1 in
  settings (tables d) !! "legacy" = Some (mkSettingRow [123; 125] 1)
  ∧ Get 200 d = (d, Ok sample_settings).
Proof.
  cbv zeta. split; [reflexivity|].
  destruct (settings_replaced_whole (λ A, @map_to_list _ _ _ _) sample_paths_json sample_downloads_json sample_network_json
    sample_ui_json ltac:(done) ltac:(by apply number_codec_ok; intros []) ltac:(by apply number_codec_ok; intros [])
    ltac:(by apply number_codec_ok; intros []) ltac:(by apply number_codec_ok; intros [])
    sample_settings 100 200 sample_settings_db ltac:(repeat split)) as (_ & _ & Hread & Hrun & _).
  destruct Hread as (_ & _ & Hread); [|by apply Hread].
  apply Hrun; [done|]. by apply Validate_ok.
Defined.

Definition sample_start : DB * result error Settings :=
  Service_Get (λ A, @map_to_list _ _ _ _) sample_paths_json sample_downloads_json sample_network_json sample_ui_json 5
    (mkDB empty_tables 0 0 [] [] 7 (New "constraint failed")).

Lemma Get_usable_witness :
  sample_start.2 = Ok Default ∧ settings_ok Default
  ∧ ∃ planner, NewSegmentPlanner 1000000000 (SegmentSizeBytes (sDownloads Default)) = Ok planner ∧ planner_ok planner.
Proof.
  assert (sample_start = (sample_start.1, Ok Default)) as Hs by (vm_compute; reflexivity).
  destruct (Get_usable _ _ _ _ _ _ _ _ _ Hs) as (Hok & _ & Hp).
  split; [by rewrite Hs|]. split; [exact Hok|]. apply Hp. vm_compute. split; discriminate.
Defined.
