(* ===== verification/Runtime.v ===== *)
(** * What a manager is configured with (internal/download/manager.go)

    [NewManager] with its defaults and limits, the settings that may change
    while the manager runs, and how [ApplySettings] changes them. *)

From Stdlib Require Import ZArith Lia.
From stdpp Require Import base list gmap strings numbers.
From S2P Require Import Prelude GoStrings GoErrors Store Settings.

Definition defaultCheckpointInterval : Z := 2 * Second.
Definition defaultCheckpointBytes : Z := Z.shiftl 256 20.
Definition defaultWorkersPerFile : Z := 4.
Definition defaultMaxActiveFiles : Z := 2.
Definition defaultMaxGlobalWorkers : Z := 8.
Definition defaultReadIdleTimeout : Z := 90 * Second.

(** The parts of the configuration that [NewManager] looks at; a settings
    service comes with what reading it returns. *)
Record ManagerConfig := mkManagerConfig {
  mc_DB : bool;
  mc_Secrets : bool;
  mc_Mega : bool;
  mc_Settings : option (result error Settings);
  mc_CheckpointInterval : Z;
  mc_CheckpointBytes : Z;
  mc_ConflictPolicy : string;
  mc_WorkersPerFile : Z;
  mc_MaxActiveFiles : Z;
  mc_MaxGlobalWorkers : Z;
  mc_GlobalSpeedLimit : Z;
  mc_PerJobLimit : Z;
  mc_PerJobLimitLong : Z;
  mc_ReadIdleTimeout : Z;
  mc_NormalRetryLimit : Z }.

#[export] Instance ManagerConfig_eta : Eta ManagerConfig := λ c,
  mkManagerConfig (mc_DB c) (mc_Secrets c) (mc_Mega c) (mc_Settings c) (mc_CheckpointInterval c) (mc_CheckpointBytes c)
    (mc_ConflictPolicy c) (mc_WorkersPerFile c) (mc_MaxActiveFiles c) (mc_MaxGlobalWorkers c) (mc_GlobalSpeedLimit c)
    (mc_PerJobLimit c) (mc_PerJobLimitLong c) (mc_ReadIdleTimeout c) (mc_NormalRetryLimit c).

Record runtimeSettings := mkRuntime {
  checkpointInterval : Z;
  checkpointBytes : Z;
  conflictPolicy : string;
  workersPerFile : Z;
  perJobLimit : Z;
  readIdleTimeout : Z;
  normalRetryLimit : Z }.

(** A manager's limits: fixed at the start, the rate of the limiter it shares
    with every job, and the settings of the moment. *)
Record Limits := mkLimits {
  maxActiveFiles : Z;
  maxGlobalWorkers : Z;
  globalRate : Z;
  runtime : runtimeSettings }.

#[export] Instance Limits_eta : Eta Limits := λ l, mkLimits (maxActiveFiles l) (maxGlobalWorkers l) (globalRate l) (runtime l).

(** [if value == 0 { value = fallback }]. *)
Definition or_default (value fallback : Z) : Z := if value =? 0 then fallback else value.
Definition or_policy (value fallback : string) : string := if bool_decide (value = "") then fallback else value.

(** [NewBandwidthLimiter] and [SetRate] treat a negative rate as none. *)
Definition limiter_rate (rate : Z) : Z := if rate <? 0 then 0 else rate.

(** [time.Duration(n) * unit] on int64. *)
Definition duration (n unit_ : Z) : Z := wrap64 (n * unit_).

(** What is not configured comes from the settings. *)
Definition fill_settings (config : ManagerConfig) (value : Settings) : ManagerConfig :=
  let d := sDownloads value in
  config
    <| mc_CheckpointInterval := or_default (mc_CheckpointInterval config) (duration (CheckpointIntervalMs d) Millisecond) |>
    <| mc_CheckpointBytes := or_default (mc_CheckpointBytes config) (CheckpointBytes d) |>
    <| mc_ConflictPolicy := or_policy (mc_ConflictPolicy config) (ConflictPolicy d) |>
    <| mc_WorkersPerFile := or_default (mc_WorkersPerFile config) (WorkersPerFile d) |>
    <| mc_MaxActiveFiles := or_default (mc_MaxActiveFiles config) (MaxActiveFiles d) |>
    <| mc_MaxGlobalWorkers := or_default (mc_MaxGlobalWorkers config) (MaxGlobalWorkers d) |>
    <| mc_GlobalSpeedLimit := or_default (mc_GlobalSpeedLimit config) (GlobalSpeedLimitBytesPerSecond d) |>
    <| mc_PerJobLimit := or_default (mc_PerJobLimit config) (PerJobDefaultLimitBytesPerSecond d) |>
    <| mc_ReadIdleTimeout := or_default (mc_ReadIdleTimeout config) (duration (ReadIdleTimeoutSeconds (sNetwork value)) Second) |>
    <| mc_NormalRetryLimit := or_default (mc_NormalRetryLimit config) (NormalRetryLimit d) |>.

Definition outside_error (b : bool) (text : string) : result error () := if b then Err (New text) else Ok ().

Definition with_defaults (config : ManagerConfig) (settingsProvided : bool) : ManagerConfig :=
  config
    <| mc_PerJobLimit := or_default (mc_PerJobLimit config) (mc_PerJobLimitLong config) |>
    <| mc_CheckpointInterval := or_default (mc_CheckpointInterval config) defaultCheckpointInterval |>
    <| mc_CheckpointBytes := or_default (mc_CheckpointBytes config) defaultCheckpointBytes |>
    <| mc_WorkersPerFile := or_default (mc_WorkersPerFile config) defaultWorkersPerFile |>
    <| mc_MaxActiveFiles := or_default (mc_MaxActiveFiles config) defaultMaxActiveFiles |>
    <| mc_MaxGlobalWorkers := or_default (mc_MaxGlobalWorkers config) defaultMaxGlobalWorkers |>
    <| mc_ReadIdleTimeout := or_default (mc_ReadIdleTimeout config) defaultReadIdleTimeout |>
    <| mc_NormalRetryLimit := if settingsProvided then mc_NormalRetryLimit config else or_default (mc_NormalRetryLimit config) 5 |>.

(** The defaults only fill in zeros, so that the checks may follow them. *)
Definition NewManager (config : ManagerConfig) : result error Limits :=
  _ ← outside_error (negb (mc_DB config)) "download database is required";
  _ ← outside_error (negb (mc_Secrets config)) "download secret store is required";
  _ ← outside_error (negb (mc_Mega config)) "MEGA client is required";
  config ← match mc_Settings config with
           | None => Ok (with_defaults config false)
           | Some (Err e) => Err (Wrapf "read download settings" e)
           | Some (Ok value) => Ok (with_defaults (fill_settings config value) true)
           end;
  _ ← outside_error (outside (100 * Millisecond) Minute (mc_CheckpointInterval config))
        "checkpoint interval is outside the safe range";
  _ ← outside_error (mc_CheckpointBytes config <? Z.shiftl 1 20) "checkpoint byte threshold is outside the safe range";
  _ ← outside_error (outside 1 16 (mc_WorkersPerFile config)) "workers per file is outside the safe range";
  _ ← outside_error (outside 1 16 (mc_MaxActiveFiles config)) "active file count is outside the safe range";
  _ ← outside_error (outside 1 64 (mc_MaxGlobalWorkers config)) "global worker count is outside the safe range";
  _ ← outside_error ((mc_GlobalSpeedLimit config <? 0) || (mc_PerJobLimit config <? 0)) "speed limits must not be negative";
  _ ← outside_error (outside 0 20 (mc_NormalRetryLimit config)) "normal retry limit is outside the safe range";
  _ ← outside_error (outside Second Hour (mc_ReadIdleTimeout config)) "read idle timeout is outside the safe range";
  Ok (mkLimits (mc_MaxActiveFiles config) (mc_MaxGlobalWorkers config) (limiter_rate (mc_GlobalSpeedLimit config))
        (mkRuntime (mc_CheckpointInterval config) (mc_CheckpointBytes config) (mc_ConflictPolicy config)
           (mc_WorkersPerFile config) (mc_PerJobLimit config) (mc_ReadIdleTimeout config) (mc_NormalRetryLimit config))).

Definition ApplySettings (value : Settings) (m : Limits) : Limits :=
  let d := sDownloads value in
  m <| globalRate := limiter_rate (GlobalSpeedLimitBytesPerSecond d) |>
    <| runtime := mkRuntime (duration (CheckpointIntervalMs d) Millisecond) (CheckpointBytes d) (ConflictPolicy d)
         (WorkersPerFile d) (PerJobDefaultLimitBytesPerSecond d)
         (duration (ReadIdleTimeoutSeconds (sNetwork value)) Second) (NormalRetryLimit d) |>.

(** ** Limits that a transfer may rely on *)

Record limits_ok (l : Limits) : Prop := {
  lo_active : 1 ≤ maxActiveFiles l ≤ 16;
  lo_global : 1 ≤ maxGlobalWorkers l ≤ 64;
  lo_rate : 0 ≤ globalRate l;
  lo_interval : 100 * Millisecond ≤ checkpointInterval (runtime l) ≤ Minute;
  lo_bytes : 2 ^ 20 ≤ checkpointBytes (runtime l);
  lo_workers : 1 ≤ workersPerFile (runtime l) ≤ 16;
  lo_job : 0 ≤ perJobLimit (runtime l);
  lo_idle : Second ≤ readIdleTimeout (runtime l) ≤ Hour;
  lo_retries : 0 ≤ normalRetryLimit (runtime l) ≤ 20 }.

Lemma outside_error_ok {A} b text (k : () → result error A) a :
  (outside_error b text ≫= k) = Ok a → b = false ∧ k () = Ok a.
Proof. by destruct b. Qed.

Lemma NewManager_limits config l : NewManager config = Ok l → limits_ok l.
Proof.
  unfold NewManager. intros H. do 3 apply outside_error_ok in H as [_ H].
  destruct (match mc_Settings config with None => _ | Some _ => _ end) as [c|e]; [|done]. cbn in H.
  repeat match type of H with (outside_error _ _ ≫= _) = _ =>
    let Hb := fresh "Hb" in apply outside_error_ok in H as [Hb H];
    first [apply outside_false in Hb|apply Z.ltb_ge in Hb|apply orb_false_iff in Hb as [?%Z.ltb_ge ?%Z.ltb_ge]] end.
  injection H as <-. change (Z.shiftl 1 20) with (2 ^ 20) in *.
  split; cbn; try done; try lia. unfold limiter_rate. destruct (Z.ltb_spec (mc_GlobalSpeedLimit c) 0); lia.
Qed.

Lemma duration_id n u : 0 ≤ n ≤ 2 ^ 20 → 0 ≤ u ≤ 2 ^ 31 → duration n u = n * u.
Proof.
  intros Hn Hu. apply wrap64_id. unfold int64_ok, int64_min, int64_max.
  pose proof (Z.mul_le_mono_nonneg n (2 ^ 20) u (2 ^ 31)). pose proof (Z.mul_nonneg_nonneg n u). lia.
Qed.

(** An unconfigured manager takes everything from its settings service. *)
Definition plain_config (value : result error Settings) : ManagerConfig :=
  mkManagerConfig true true true (Some value) 0 0 "" 0 0 0 0 0 0 0 0.

Lemma or_default_zero v : or_default 0 v = v.
Proof. done. Qed.
Lemma or_default_given v d : v ≠ 0 → or_default v d = v.
Proof. unfold or_default. by intros ->%Z.eqb_neq. Qed.
Lemma or_default_none v : or_default v 0 = v.
Proof. unfold or_default. destruct (Z.eqb_spec v 0); congruence. Qed.
Lemma limiter_rate_given v : 0 ≤ v → limiter_rate v = v.
Proof. unfold limiter_rate. by intros ->%Z.ltb_ge. Qed.

Lemma outside_error_pass {A} b text (k : () → result error A) : b = false → (outside_error b text ≫= k) = k ().
Proof. by intros ->. Qed.

(** The settings a manager was started from, and those it was told later. *)
Definition from_settings (value : Settings) : Limits :=
  let d := sDownloads value in
  mkLimits (MaxActiveFiles d) (MaxGlobalWorkers d) (GlobalSpeedLimitBytesPerSecond d)
    (mkRuntime (CheckpointIntervalMs d * Millisecond) (CheckpointBytes d) (ConflictPolicy d) (WorkersPerFile d)
       (PerJobDefaultLimitBytesPerSecond d) (ReadIdleTimeoutSeconds (sNetwork value) * Second) (NormalRetryLimit d)).

Lemma interval_duration value : settings_ok value →
  duration (CheckpointIntervalMs (sDownloads value)) Millisecond = CheckpointIntervalMs (sDownloads value) * Millisecond
  ∧ duration (ReadIdleTimeoutSeconds (sNetwork value)) Second = ReadIdleTimeoutSeconds (sNetwork value) * Second.
Proof. intros []. split; apply duration_id; try lia; unfold Second, Millisecond, Microsecond, Nanosecond; lia. Qed.

Lemma ApplySettings_valid value l : settings_ok value →
  ApplySettings value l = from_settings value <| maxActiveFiles := maxActiveFiles l |> <| maxGlobalWorkers := maxGlobalWorkers l |>.
Proof.
  intros Hv. destruct (interval_duration value Hv) as [E1 E2]. destruct Hv. unfold ApplySettings.
  rewrite E1, E2, limiter_rate_given by lia. done.
Qed.

Lemma settings_limits value : settings_ok value → limits_ok (from_settings value).
Proof. intros []. split; cbn -[Z.pow]; unfold Hour, Minute, Second, Millisecond, Microsecond, Nanosecond; lia. Qed.

Lemma ApplySettings_limits value l : settings_ok value → limits_ok l → limits_ok (ApplySettings value l).
Proof.
  intros Hv Hl. rewrite ApplySettings_valid by done. destruct Hl, (settings_limits value Hv). by split.
Qed.

(** The configuration of a manager that was given nothing but its settings:
    each of them, as none of those with a default is zero. *)
Lemma fill_plain value interval idle :
  let d := sDownloads value in
  duration (CheckpointIntervalMs d) Millisecond = interval → duration (ReadIdleTimeoutSeconds (sNetwork value)) Second = idle →
  interval ≠ 0 → idle ≠ 0 → CheckpointBytes d ≠ 0 → WorkersPerFile d ≠ 0 → MaxActiveFiles d ≠ 0 → MaxGlobalWorkers d ≠ 0 →
  with_defaults (fill_settings (plain_config (Ok value)) value) true
  = mkManagerConfig true true true (Some (Ok value)) interval (CheckpointBytes d) (ConflictPolicy d) (WorkersPerFile d)
      (MaxActiveFiles d) (MaxGlobalWorkers d) (GlobalSpeedLimitBytesPerSecond d) (PerJobDefaultLimitBytesPerSecond d) 0 idle
      (NormalRetryLimit d).
Proof.
  cbv zeta. intros E1 E2 ? ? ? ? ? ?. unfold with_defaults, fill_settings, plain_config.
  cbn [update_field mc_DB mc_Secrets mc_Mega mc_Settings mc_CheckpointInterval mc_CheckpointBytes mc_ConflictPolicy mc_WorkersPerFile
    mc_MaxActiveFiles mc_MaxGlobalWorkers mc_GlobalSpeedLimit mc_PerJobLimit mc_PerJobLimitLong mc_ReadIdleTimeout mc_NormalRetryLimit].
  rewrite !or_default_zero, E1, E2, or_default_none, !or_default_given by done. reflexivity.
Qed.

Lemma NewManager_settings value : settings_ok value → NewManager (plain_config (Ok value)) = Ok (from_settings value).
Proof.
  intros Hv. destruct (interval_duration value Hv) as [E1 E2]. pose proof (settings_limits value Hv) as Hl.
  destruct Hl as [? ? ? Hi ? ? ? Hr ?]. cbn [from_settings maxActiveFiles maxGlobalWorkers globalRate runtime checkpointInterval
    checkpointBytes workersPerFile perJobLimit readIdleTimeout normalRetryLimit] in *.
  unfold from_settings. revert E1 E2 Hi Hr.
  generalize (CheckpointIntervalMs (sDownloads value) * Millisecond), (ReadIdleTimeoutSeconds (sNetwork value) * Second).
  intros interval idle E1 E2 Hi Hr. assert (0 < 100 * Millisecond ∧ 0 < Second) as [? ?] by done.
  unfold NewManager. rewrite !outside_error_pass by done.
  change (mc_Settings (plain_config (Ok value))) with (Some (Ok value : result error Settings)). cbv iota.
  rewrite (fill_plain value interval idle) by first [done|lia].
  cbn [mbind result_bind]. rewrite !outside_error_pass by
    (rewrite ?outside_false, ?orb_false_iff, ?Z.ltb_ge; cbn [mc_CheckpointInterval mc_CheckpointBytes mc_WorkersPerFile
       mc_MaxActiveFiles mc_MaxGlobalWorkers mc_GlobalSpeedLimit mc_PerJobLimit mc_ReadIdleTimeout mc_NormalRetryLimit];
     first [done|lia]).
  f_equal. rewrite limiter_rate_given by done. reflexivity.
Qed.

(** A manager that is created has limits in the safe ranges, and applying
    any valid settings keeps it there; a manager started from valid settings is
    always created, and runs with exactly what applying the same settings to a
    running manager gives, so that a restart changes nothing but the number of
    files and workers at once, which only a restart changes; without a settings
    service the documented defaults are used. *)
Theorem runtime_settings_agree :
  (∀ config l, NewManager config = Ok l → limits_ok l)
  ∧ (∀ value l, settings_ok value → limits_ok l →
       limits_ok (ApplySettings value l)
       ∧ ∃ fresh, NewManager (plain_config (Ok value)) = Ok fresh
         ∧ maxActiveFiles fresh = MaxActiveFiles (sDownloads value)
         ∧ maxGlobalWorkers fresh = MaxGlobalWorkers (sDownloads value)
         ∧ ApplySettings value l = fresh <| maxActiveFiles := maxActiveFiles l |> <| maxGlobalWorkers := maxGlobalWorkers l |>)
  ∧ (∀ e, NewManager (plain_config (Err e)) = Err (Wrapf "read download settings" e))
  ∧ NewManager (plain_config (Ok Default) <| mc_Settings := None |> <| mc_ConflictPolicy := "rename" |>)
    = NewManager (plain_config (Ok Default)).
Proof.
  split; [apply NewManager_limits|]. split; [|split; [done|vm_compute; reflexivity]].
  intros value l Hv Hl. split; [by apply ApplySettings_limits|]. rewrite ApplySettings_valid by done. exists (from_settings value). split; [by apply NewManager_settings|done].
Qed.

Lemma runtime_settings_agree_witness :
  NewManager (plain_config (Ok Default)) = Ok (from_settings Default)
  ∧ ApplySettings Default (from_settings sample_settings) = from_settings Default.
Proof.
  split; [|vm_compute; reflexivity].
  destruct runtime_settings_agree as (_ & H & _).
  destruct (H Default (from_settings Default)) as (_ & fresh & Hn & _).
  - apply Validate_ok. vm_compute. reflexivity.
  - apply settings_limits, Validate_ok. vm_compute. reflexivity.
  - rewrite Hn. vm_compute in Hn. injection Hn as <-. vm_compute. reflexivity.
Defined.
