(* ===== verification/Network.v ===== *)
(** * Proxies (internal/network/transport.go)

    Proxy profiles, the clients built from them, the pool that keeps one
    client per profile, and the SOCKS5 handshake over a byte stream whose
    other end, faults included, is arbitrary. *)

From Stdlib Require Import ZArith Lia Ascii.
From stdpp Require Import base list gmap strings numbers pretty.
From S2P Require Import Prelude GoStrings GoErrors GoBase64 Crypto Links.

(** ** Host and port (package net) *)

(** The parts around the last occurrence of a byte. *)
Fixpoint last_cut (s : string) (c : ascii) : option (string * string) :=
  match s with
  | EmptyString => None
  | String a s' =>
      match last_cut s' c with
      | Some (before, after) => Some (String a before, after)
      | None => if bool_decide (a = c) then Some ("", s') else None
      end
  end.

Definition AddrError (addr why : string) : error :=
  New (if bool_decide (addr = "") then why else "address " +:+ addr +:+ ": " +:+ why).

Definition SplitHostPort (hostport : string) : result error (string * string) :=
  let fail why := Err (AddrError hostport why) in
  match last_cut hostport ":" with
  | None => fail "missing port in address"
  | Some (before, port) =>
      if HasPrefix hostport "[" then
        let rest := drop_str 1 hostport in
        let '(host, after, found) := Cut rest "]" in
        if negb found then fail "missing ']' in address"
        else if negb (HasPrefix after ":") then fail "missing port in address"
        else if str_elem ":" (drop_str 1 after) then fail "too many colons in address"
        else if str_elem "[" rest then fail "unexpected '[' in address"
        else if str_elem "]" after then fail "unexpected ']' in address"
        else Ok (host, port)
      else if str_elem ":" before then fail "too many colons in address"
      else if str_elem "[" hostport then fail "unexpected '[' in address"
      else if str_elem "]" hostport then fail "unexpected ']' in address"
      else Ok (before, port)
  end.

Definition JoinHostPort (host port : string) : string :=
  if str_elem ":" host then "[" +:+ host +:+ "]:" +:+ port else host +:+ ":" +:+ port.

(** ** Profiles and clients *)

Record TransportConfig := mkTransportConfig {
  ConnectTimeout : Z;
  ResponseHeaderTimeout : Z;
  MaxConnectionsPerHost : Z }.

Definition ProxyDirect : string := "direct".
Definition ProxyHTTP : string := "http".
Definition ProxyHTTPS : string := "https".
Definition ProxySOCKS5 : string := "socks5".

Record ProxyProfile := mkProfile {
  ppID : string;
  ppName : string;
  ppType : string;
  ppHost : string;
  ppPort : Z;
  ppUsername : string;
  ppPassword : string;
  ppTimeout : Z;
  ppEnabled : bool }.

#[export] Instance ProxyProfile_eq_dec : EqDecision ProxyProfile.
Proof. solve_decision. Defined.

Definition ProxyProfile_Validate (p : ProxyProfile) : result error () :=
  if bool_decide (ppType p ∉ [ProxyHTTP; ProxyHTTPS; ProxySOCKS5])
  then Err (New ("unsupported proxy type " +:+ quote (ppType p)))
  else if bool_decide (TrimSpace (ppHost p) = "") || (ppPort p <? 1) || (65535 <? ppPort p)
  then Err (New "proxy host and port are invalid")
  else if ppTimeout p <=? 0 then Err (New "proxy timeout must be positive")
  else Ok ().

(** How a client reaches the network. *)
Inductive Route :=
| DirectDial
| ViaProxyURL (url : URL) (user : option (string * string))
| ViaSOCKS5 (host : string) (port : Z) (username password : string).

Record HTTPClient := mkHTTPClient {
  hc_route : Route;
  hc_dialTimeout : Z;
  hc_tlsTimeout : Z;
  hc_headerTimeout : Z;
  hc_maxIdle : Z;
  hc_maxPerHost : Z }.

Definition positive_or (x fallback : Z) : Z := if x <=? 0 then fallback else x.

Definition newHTTPClient (config : TransportConfig) (timeout : Z) (route : Route) : HTTPClient :=
  let connect := positive_or (ConnectTimeout config) (15 * Second) in
  let header := positive_or (ResponseHeaderTimeout config) (30 * Second) in
  let perHost := positive_or (MaxConnectionsPerHost config) 8 in
  let timeout := positive_or timeout connect in
  mkHTTPClient route timeout timeout header (wrap64 (perHost * 2)) perHost.

Definition NewHTTPClient (config : TransportConfig) : HTTPClient :=
  newHTTPClient config (ConnectTimeout config) DirectDial.

Section transport.
Context (url_Parse : string → result error URL).

Definition NewClientForProxy (config : TransportConfig) (profile : ProxyProfile) : result error HTTPClient :=
  _ ← ProxyProfile_Validate profile;
  let address := JoinHostPort (ppHost profile) (FormatInt (ppPort profile)) in
  if bool_decide (ppType profile = ProxyHTTP) || bool_decide (ppType profile = ProxyHTTPS) then
    let scheme := if bool_decide (ppType profile = ProxyHTTPS) then "https" else "http" in
    match url_Parse (scheme +:+ "://" +:+ address) with
    | Err e => Err (Wrapf "parse proxy address" e)
    | Ok url =>
        let user := if bool_decide (ppUsername profile = "") then None
                    else Some (ppUsername profile, ppPassword profile) in
        Ok (newHTTPClient config (ppTimeout profile) (ViaProxyURL url user))
    end
  else Ok (newHTTPClient config (ppTimeout profile)
             (ViaSOCKS5 (ppHost profile) (ppPort profile) (ppUsername profile) (ppPassword profile))).

(** ** The pool

    Clients are shared by reference, so each has an identity; the idle
    connections closed are recorded in order. *)
Record TransportPool := mkPool {
  tp_profiles : gmap string ProxyProfile;
  tp_clients : gmap string nat;
  tp_config : TransportConfig;
  tp_made : list HTTPClient;
  tp_idle_closed : list nat }.

#[export] Instance TransportPool_eta : Eta TransportPool := λ p,
  mkPool (tp_profiles p) (tp_clients p) (tp_config p) (tp_made p) (tp_idle_closed p).

Abbreviation pool := (cmd error TransportPool).

Definition NewTransportPool (config : TransportConfig) : TransportPool := mkPool ∅ ∅ config [] [].

(** A new client: its identity is its place among those made. *)
Definition make_client (c : HTTPClient) : pool nat := λ p,
  (p <| tp_made := tp_made p ++ [c] |>, Ok (length (tp_made p))).

Definition CloseIdleConnections (c : nat) : pool () :=
  modify (λ p, p <| tp_idle_closed := tp_idle_closed p ++ [c] |>).

Definition close_current (id : string) : pool () :=
  p ← get;
  match tp_clients p !! id with Some old => CloseIdleConnections old | None => mret () end.

Definition replace_client (profile : ProxyProfile) : pool nat :=
  _ ← close_current (ppID profile);
  p ← get;
  built ← lift_result (NewClientForProxy (tp_config p) profile);
  client ← make_client built;
  _ ← modify (λ p, p <| tp_profiles := <[ppID profile := profile]> (tp_profiles p) |>
                     <| tp_clients := <[ppID profile := client]> (tp_clients p) |>);
  mret client.

Definition Pool_Client (profile : ProxyProfile) : pool nat :=
  p ← get;
  if bool_decide (ppType profile = ProxyDirect) then make_client (NewHTTPClient (tp_config p))
  else
    match tp_profiles p !! ppID profile, tp_clients p !! ppID profile with
    | Some old, Some client => if bool_decide (old = profile) then mret client else replace_client profile
    | _, _ => replace_client profile
    end.

Definition Pool_Remove (id : string) : pool () :=
  _ ← close_current id;
  modify (λ p, p <| tp_clients := delete id (tp_clients p) |> <| tp_profiles := delete id (tp_profiles p) |>).

Definition Pool_Close : pool () :=
  p ← get;
  _ ← for_each (map_to_list (tp_clients p)) (λ '(id, c),
        _ ← CloseIdleConnections c;
        modify (λ p, p <| tp_clients := delete id (tp_clients p) |>));
  modify (λ p, p <| tp_profiles := ∅ |>).

(** ** The pool keeps one client per profile *)

Inductive PoolOp := PoolClient (profile : ProxyProfile) | PoolRemove (id : string) | PoolClose.

Definition pool_step (p : TransportPool) (op : PoolOp) : TransportPool :=
  match op with
  | PoolClient profile => (Pool_Client profile p).1
  | PoolRemove id => (Pool_Remove id p).1
  | PoolClose => (Pool_Close p).1
  end.

(** Client [c] was built for this profile. *)
Definition built_for (p : TransportPool) (profile : ProxyProfile) (c : nat) : Prop :=
  ∃ hc, tp_made p !! c = Some hc ∧ NewClientForProxy (tp_config p) profile = Ok hc.

Record pool_ok (p : TransportPool) : Prop := {
  pool_profile : ∀ id c, tp_clients p !! id = Some c →
    ∃ profile, tp_profiles p !! id = Some profile ∧ ppID profile = id ∧ built_for p profile c;
  pool_known : ∀ id, is_Some (tp_profiles p !! id) → is_Some (tp_clients p !! id);
  pool_distinct : ∀ id id' c, tp_clients p !! id = Some c → tp_clients p !! id' = Some c → id = id';
  pool_stale : ∀ c hc, tp_made p !! c = Some hc → hc_route hc ≠ DirectDial →
    c ∈ tp_idle_closed p ∨ ∃ id, tp_clients p !! id = Some c }.

(** Nothing current changed: idle connections closed and clients made on the
    side do not matter. *)
Lemma built_for_extends p p' profile c :
  tp_config p' = tp_config p → (∃ l, tp_made p' = tp_made p ++ l) → built_for p profile c → built_for p' profile c.
Proof.
  intros Hc [l Hl] (hc & Hm & Hb). exists hc. rewrite Hl, Hc. split; [|done]. by apply lookup_app_l_Some.
Qed.

Lemma close_current_run id p :
  close_current id p = (p <| tp_idle_closed := tp_idle_closed p ++ option_list (tp_clients p !! id) |>, Ok ()).
Proof.
  unfold close_current. rewrite get_bind. destruct (tp_clients p !! id); [done|].
  cbn. rewrite app_nil_r. by destruct p.
Qed.

Lemma pool_ok_closed p l : pool_ok p → pool_ok (p <| tp_idle_closed := tp_idle_closed p ++ l |>).
Proof.
  intros []. split; cbn; [|done|done|].
  - intros id c Hc. destruct (pool_profile0 id c Hc) as (profile & ? & ? & ?). by exists profile.
  - intros c hc Hm Hr. destruct (pool_stale0 c hc Hm Hr); [left; apply elem_of_app; by left|by right].
Qed.

Lemma not_direct config profile hc : NewClientForProxy config profile = Ok hc → hc_route hc ≠ DirectDial.
Proof.
  unfold NewClientForProxy. destruct (ProxyProfile_Validate profile) as [[]|]; [|done]. cbn.
  destruct (_ || _); [destruct (url_Parse _); [|done]|]; by intros [= <-].
Qed.

Lemma pool_ok_delete id p l : pool_ok p → (∀ c, tp_clients p !! id = Some c → c ∈ l) →
  pool_ok (p <| tp_idle_closed := tp_idle_closed p ++ l |> <| tp_clients := delete id (tp_clients p) |>
             <| tp_profiles := delete id (tp_profiles p) |>).
Proof.
  intros [] Hl. split; cbn.
  - intros id' c [Hne Hc]%lookup_delete_Some. destruct (pool_profile0 id' c Hc) as (profile & ? & ? & ?).
    exists profile. by rewrite lookup_delete_ne.
  - intros id'. destruct (decide (id = id')) as [->|Hne].
    + rewrite !lookup_delete_eq. by intros [].
    + rewrite !lookup_delete_ne by done. apply pool_known0.
  - intros id1 id2 c [_ H1]%lookup_delete_Some [_ H2]%lookup_delete_Some. by eapply pool_distinct0.
  - intros c hc Hm Hr. destruct (pool_stale0 c hc Hm Hr) as [Hc|[id' Hc]].
    + left. apply elem_of_app. by left.
    + destruct (decide (id = id')) as [->|Hne].
      * left. apply elem_of_app. right. by apply Hl.
      * right. exists id'. by rewrite lookup_delete_ne.
Qed.

Lemma replace_client_run profile p :
  let p1 := p <| tp_idle_closed := tp_idle_closed p ++ option_list (tp_clients p !! ppID profile) |> in
  let c := length (tp_made p) in
  replace_client profile p =
  match NewClientForProxy (tp_config p) profile with
  | Err e => (p1, Err e)
  | Ok hc => (p1 <| tp_made := tp_made p ++ [hc] |>
                 <| tp_profiles := <[ppID profile := profile]> (tp_profiles p) |>
                 <| tp_clients := <[ppID profile := c]> (tp_clients p) |>, Ok c)
  end.
Proof.
  cbv zeta. unfold replace_client. rewrite (cmd_bind_ok _ _ _ _ _ (close_current_run (ppID profile) p)), get_bind.
  cbn [tp_config update_field]. by destruct (NewClientForProxy (tp_config p) profile).
Qed.

Lemma replace_client_ok profile p : pool_ok p →
  let q := replace_client profile p in
  pool_ok q.1 ∧ tp_config q.1 = tp_config p ∧ ∀ c, q.2 = Ok c → built_for q.1 profile c.
Proof.
  intros Hp. rewrite replace_client_run. cbv zeta.
  destruct (NewClientForProxy (tp_config p) profile) as [hc|e] eqn:Hb.
  2: { cbn. split; [by apply pool_ok_closed|done]. }
  cbn. set (c := length (tp_made p)).
  set (q := _ : TransportPool). assert (built_for q profile c) as Hnew.
  { exists hc. cbn. split; [|done]. by rewrite lookup_app_r, Nat.sub_diag by lia. }
  destruct Hp. split; [split; cbn|split; [done|by intros ? [= <-]]].
  - intros id c' [[<- <-]|[Hne Hc]]%lookup_insert_Some.
    + exists profile. rewrite lookup_insert_eq. done.
    + destruct (pool_profile0 id c' Hc) as (pr & Hpr & Hid & Hbf). exists pr. rewrite lookup_insert_ne by done.
      split; [done|split; [done|]]. eapply built_for_extends; [| |exact Hbf]; [done|by exists [hc]].
  - intros id. destruct (decide (ppID profile = id)) as [->|Hne].
    + rewrite !lookup_insert_eq. done.
    + rewrite !lookup_insert_ne by done. apply pool_known0.
  - assert (∀ id c', tp_clients p !! id = Some c' → c' < length (tp_made p))%nat as Hlt.
    { intros id c' Hc. destruct (pool_profile0 id c' Hc) as (_ & _ & _ & h & Hm & _). by apply lookup_lt_Some in Hm. }
    intros id1 id2 c' [[H1 H1']|[Hne1 H1]]%lookup_insert_Some [[H2 H2']|[Hne2 H2]]%lookup_insert_Some;
      [congruence|apply Hlt in H2; lia|apply Hlt in H1; lia|by eapply pool_distinct0].
  - intros c' h Hm Hr. apply lookup_app_Some in Hm as [Hm|[Hge Hm]].
    + destruct (pool_stale0 c' h Hm Hr) as [Hc|[id Hc]]; [left; apply elem_of_app; by left|].
      destruct (decide (ppID profile = id)) as [<-|Hne].
      * left. apply elem_of_app. right. rewrite Hc. by left.
      * right. exists id. by rewrite lookup_insert_ne.
    + apply list_lookup_singleton_Some in Hm as [Heq ->]. right. exists (ppID profile).
      rewrite lookup_insert_eq. f_equal. lia.
Qed.

Lemma Pool_Client_ok profile p : pool_ok p →
  let q := Pool_Client profile p in
  pool_ok q.1 ∧ tp_config q.1 = tp_config p
  ∧ ∀ c, q.2 = Ok c → ppType profile ≠ ProxyDirect → built_for q.1 profile c.
Proof.
  intros Hp. unfold Pool_Client. rewrite get_bind. case_bool_decide as Hd.
  { split; [|done]. destruct Hp. split; cbn; [|done|done|].
    - intros id c Hc. destruct (pool_profile0 id c Hc) as (pr & ? & ? & Hbf). exists pr.
      do 2 (split; [done|]). eapply built_for_extends; [| |exact Hbf]; [done|by eexists].
    - intros c h Hm Hr. apply lookup_app_Some in Hm as [Hm|[_ Hm]]; [by eapply pool_stale0|].
      by apply list_lookup_singleton_Some in Hm as [_ <-]. }
  destruct (replace_client_ok profile p Hp) as (H1 & H2 & H3).
  destruct (tp_profiles p !! ppID profile) as [old|] eqn:Ho; [|by split_and!; auto].
  destruct (tp_clients p !! ppID profile) as [c|] eqn:Hc; [|by split_and!; auto].
  case_bool_decide as He; [subst old|by split_and!; auto].
  split; [done|split; [done|]]. intros c' [= <-] _. destruct Hp.
  destruct (pool_profile0 _ _ Hc) as (pr & Hpr & _ & Hbf). by assert (pr = profile) as -> by congruence.
Qed.

Lemma Pool_Remove_ok id p : pool_ok p → pool_ok (Pool_Remove id p).1 ∧ tp_config (Pool_Remove id p).1 = tp_config p.
Proof.
  intros Hp. unfold Pool_Remove. rewrite (cmd_bind_ok _ _ _ _ _ (close_current_run id p)). split; [|done].
  refine (pool_ok_delete id p (option_list (tp_clients p !! id)) Hp _). intros c ->. by left.
Qed.

Lemma close_all_run l p :
  for_each l (λ '(id, c), _ ← CloseIdleConnections c;
    modify (λ p, p <| tp_clients := delete id (tp_clients p) |>)) p
  = (p <| tp_idle_closed := tp_idle_closed p ++ l.*2 |>
       <| tp_clients := foldl (λ m id, delete id m) (tp_clients p) l.*1 |>, Ok ()).
Proof.
  revert p. induction l as [|[id c] l IH]; intros p; cbn [for_each fmap list_fmap fst snd foldl].
  - rewrite app_nil_r. by destruct p.
  - erewrite cmd_bind_ok by reflexivity. rewrite IH. cbn. by rewrite <-app_assoc.
Qed.

Lemma delete_all_lookup (m : gmap string nat) l id :
  foldl (λ m id, delete id m) m l !! id = if decide (id ∈ l) then None else m !! id.
Proof.
  revert m. induction l as [|k l IH]; intros m; cbn [foldl]; [by rewrite decide_False by set_solver|].
  rewrite IH. destruct (decide (id ∈ l)); [by rewrite decide_True by set_solver|].
  destruct (decide (k = id)) as [->|Hne].
  - rewrite lookup_delete_eq. by rewrite decide_True by set_solver.
  - rewrite lookup_delete_ne by done. by rewrite decide_False by set_solver.
Qed.

Lemma Pool_Close_ok p : pool_ok p → pool_ok (Pool_Close p).1 ∧ tp_config (Pool_Close p).1 = tp_config p.
Proof.
  intros []. unfold Pool_Close. rewrite get_bind, (cmd_bind_ok _ _ _ _ _ (close_all_run _ p)). split; [|done].
  cbn. assert (foldl (λ m id, delete id m) (tp_clients p) (map_to_list (tp_clients p)).*1 = ∅) as ->.
  { apply map_eq. intros id. rewrite delete_all_lookup, lookup_empty. case_decide as Hin; [done|].
    destruct (tp_clients p !! id) as [c|] eqn:Hc; [|done]. destruct Hin. apply list_elem_of_fmap.
    exists (id, c). split; [done|]. by apply elem_of_map_to_list. }
  split; cbn.
  - intros id c. by rewrite lookup_empty.
  - intros id. rewrite lookup_empty. by intros [].
  - intros id id' c. by rewrite lookup_empty.
  - intros c hc Hm Hr. left. apply elem_of_app. destruct (pool_stale0 c hc Hm Hr) as [?|[id Hc]]; [by left|right].
    apply list_elem_of_fmap. exists (id, c). split; [done|]. by apply elem_of_map_to_list.
Qed.

Lemma pool_step_ok op p : pool_ok p → pool_ok (pool_step p op) ∧ tp_config (pool_step p op) = tp_config p.
Proof.
  intros Hp. destruct op as [profile|id|]; cbn [pool_step].
  - by destruct (Pool_Client_ok profile p Hp) as (? & ? & _).
  - by apply Pool_Remove_ok.
  - by apply Pool_Close_ok.
Qed.

(** Along every history of lookups, removals and closings, the pool holds
    for each profile one client, not shared with another profile and built from
    the profile as it was last asked for; a client that is no longer current has
    had its idle connections closed; and a lookup that succeeds gives a client
    built from exactly the profile asked for, never from an earlier version. *)
Theorem pool_serves_current_profile config ops profile :
  let p := foldl pool_step (NewTransportPool config) ops in
  pool_ok p
  ∧ ∀ c, (Pool_Client profile p).2 = Ok c → ppType profile ≠ ProxyDirect →
      ∃ hc, tp_made (Pool_Client profile p).1 !! c = Some hc ∧ NewClientForProxy config profile = Ok hc.
Proof.
  cbv zeta. assert (∀ p, pool_ok p → let q := foldl pool_step p ops in pool_ok q ∧ tp_config q = tp_config p) as Hrun.
  { induction ops as [|op ops IH]; intros p Hp; [done|]. cbn [foldl].
    destruct (pool_step_ok op p Hp) as [H1 H2]. destruct (IH _ H1) as [H3 H4]. split; [done|congruence]. }
  destruct (Hrun (NewTransportPool config)) as [Hok Hc].
  { split; cbn; try (intros *; rewrite ?lookup_empty; done); intros id; rewrite !lookup_empty; by intros []. }
  split; [done|]. intros c Hcl Hd. destruct (Pool_Client_ok profile _ Hok) as (_ & Hcfg & Hb).
  destruct (Hb c Hcl Hd) as (hc & ? & Hbuilt). exists hc. rewrite Hcfg, Hc in Hbuilt. done.
Qed.
End transport.
