(* ===== verification/Socks.v ===== *)
(** * The SOCKS5 handshake (dialSOCKS5 in internal/network/transport.go)

    The connection is a byte stream: what the proxy will send, what was sent to
    it, and a schedule of failing calls.  A grammar of the messages of RFC 1928
    and RFC 1929, written apart from the code, says what a successful
    handshake exchanged. *)

From Stdlib Require Import ZArith Lia Ascii.
From stdpp Require Import base list gmap strings numbers pretty.
From S2P Require Import Prelude GoStrings GoErrors GoBase64 Crypto Paths Links Network.

(** ** The connection *)

Record Conn := mkConn {
  cn_incoming : list Z;
  cn_outgoing : list Z;
  cn_faults : list (option error);
  cn_deadline : bool;
  cn_open : bool }.

#[export] Instance Conn_eta : Eta Conn := λ c,
  mkConn (cn_incoming c) (cn_outgoing c) (cn_faults c) (cn_deadline c) (cn_open c).

Abbreviation io := (cmd error Conn).

Definition call {A} (run : io A) : io A := λ c,
  match cn_faults c with
  | Some e :: rest => (c <| cn_faults := rest |>, Err e)
  | None :: rest => run (c <| cn_faults := rest |>)
  | [] => run c
  end.

Definition Write (data : list Z) : io () :=
  call (λ c, (c <| cn_outgoing := cn_outgoing c ++ data |>, Ok ())).

(** [io.ReadFull]: the next [n] bytes, or an error after whatever was there. *)
Definition ReadFull (n : nat) : io (list Z) :=
  call (λ c,
    let data := cn_incoming c in
    if (n <=? length data)%nat then (c <| cn_incoming := drop n data |>, Ok (take n data))
    else (c <| cn_incoming := [] |>,
          Err (Sentinel (if bool_decide (data = []) then EOF else ErrUnexpectedEOF)))).

Definition SetDeadline (b : bool) : io () := modify (λ c, c <| cn_deadline := b |>).
Definition Close : io () := modify (λ c, c <| cn_open := false |>).
Definition fail {A} (e : error) : io A := _ ← Close; throw e.

(** [if _, err = call; err != nil { return fail(err) }]. *)
Definition or_fail {A} (m : io A) : io A :=
  r ← catch m; match r with Ok a => mret a | Err e => fail e end.

(** ** Messages *)

Definition greeting (username : string) : list Z :=
  [5; 1; if bool_decide (username = "") then 0 else 2].

Definition auth_message (username password : string) : list Z :=
  let ub := to_bytes username in let pb := to_bytes password in
  1 :: wrap8 (Z.of_nat (length ub)) :: ub ++ wrap8 (Z.of_nat (length pb)) :: pb.

Definition connect_message (host : string) (port : Z) : list Z :=
  let target := to_bytes host in
  [5; 1; 0; 3; wrap8 (Z.of_nat (length target))] ++ target ++ be_bytes 2 port.

(** ** The handshake *)

(** The answer to the offered method, with the credentials if it asks for them. *)
Definition authenticate (username password : string) (method : Z) : io () :=
  if method =? 2 then
    if bool_decide (username = "") then fail (New "SOCKS5 authentication required")
    else if (255 <? length (to_bytes username))%nat || (255 <? length (to_bytes password))%nat
    then fail (New "SOCKS5 credentials are too long")
    else
      _ ← or_fail (Write (auth_message username password));
      authReply ← catch (ReadFull 2);
      match authReply with
      | Ok [_; 0] => mret ()
      | _ => fail (New "SOCKS5 authentication failed")
      end
  else if negb (method =? 0) then fail (New "SOCKS5 authentication method rejected")
  else mret ().

(** The host and port of the target address. *)
Definition socks_target (targetAddress : string) : result error (string * Z) :=
  match SplitHostPort targetAddress with
  | Err e => Err (Wrapf "SOCKS5 target address is invalid" e)
  | Ok (host, portText) =>
      match ParseInt portText with
      | None => Err (New "SOCKS5 target port is invalid")
      | Some port =>
          if (port <? 0) || (65535 <? port) then Err (New "SOCKS5 target port is invalid")
          else if (255 <? length (to_bytes host))%nat then Err (New "SOCKS5 target host is too long")
          else Ok (host, port)
      end
  end.

Definition connect_reply : io () :=
  reply ← or_fail (ReadFull 4);
  match reply with
  | [version; status; _; kind] =>
      if negb (version =? 5) || negb (status =? 0)
      then fail (New ("SOCKS5 connect failed: " +:+ FormatInt status))
      else
        addressLength ←
          (if kind =? 1 then mret 4%nat
           else if kind =? 4 then mret 16%nat
           else if kind =? 3 then
             one ← or_fail (ReadFull 1);
             mret (Z.to_nat (hd 0 one))
           else fail (New "SOCKS5 invalid address type"));
        _ ← or_fail (ReadFull (addressLength + 2));
        mret ()
  | _ => mret ()
  end.

(** [dialed] is the outcome of connecting to the proxy itself. *)
Definition dialSOCKS5 (dialed : result error ()) (targetAddress username password : string) : io () :=
  match dialed with
  | Err e => throw e
  | Ok _ =>
      _ ← modify (λ c, c <| cn_open := true |>);
      _ ← SetDeadline true;
      _ ← or_fail (Write (greeting username));
      reply ← or_fail (ReadFull 2);
      match reply with
      | [version; method] =>
          if negb (version =? 5) then fail (New "SOCKS5 invalid version")
          else
            _ ← authenticate username password method;
            match socks_target targetAddress with
            | Err e => fail e
            | Ok (host, port) =>
                _ ← or_fail (Write (connect_message host port));
                _ ← connect_reply;
                SetDeadline false
            end
      | _ => mret ()
      end
  end.

(** ** The grammar of the messages *)

(** A CONNECT request by name: version, command, reserved, name length, name, port. *)
Definition parse_connect (msg : list Z) : option (list Z * Z) :=
  match msg with
  | 5 :: 1 :: 0 :: 3 :: n :: rest =>
      if bool_decide (length rest = Z.to_nat n + 2)%nat
      then Some (take (Z.to_nat n) rest, be_value (drop (Z.to_nat n) rest)) else None
  | _ => None
  end.

(** A user name and password: version, two length-prefixed strings. *)
Definition parse_credentials (msg : list Z) : option (list Z * list Z) :=
  match msg with
  | 1 :: n :: rest =>
      match drop (Z.to_nat n) rest with
      | m :: pb => if bool_decide (length pb = Z.to_nat m) then Some (take (Z.to_nat n) rest, pb) else None
      | [] => None
      end
  | _ => None
  end.

(** What authentication sends after the greeting, and what it receives. *)
Inductive auth_dialog (username password : string) : list Z → list Z → Prop :=
| auth_none : auth_dialog username password [] [5; 0]
| auth_password msg version : username ≠ "" →
    parse_credentials msg = Some (to_bytes username, to_bytes password) →
    auth_dialog username password msg [5; 2; version; 0].

(** A successful answer to CONNECT, with the address the proxy bound. *)
Inductive bound_reply : list Z → Prop :=
| bound_ipv4 reserved addr port : length addr = 4%nat → length port = 2%nat →
    bound_reply ([5; 0; reserved; 1] ++ addr ++ port)
| bound_ipv6 reserved addr port : length addr = 16%nat → length port = 2%nat →
    bound_reply ([5; 0; reserved; 4] ++ addr ++ port)
| bound_name reserved n addr port : length addr = Z.to_nat n → length port = 2%nat →
    bound_reply ([5; 0; reserved; 3; n] ++ addr ++ port).

(** ** What the calls do *)

(** [m] only adds to the stream sent, takes from the stream received, and
    leaves the deadline and the connection as they are. *)
Definition exchanged (c c' : Conn) (sent received : list Z) : Prop :=
  cn_outgoing c' = cn_outgoing c ++ sent ∧ cn_incoming c = received ++ cn_incoming c'
  ∧ cn_deadline c' = cn_deadline c ∧ cn_open c' = cn_open c.

Lemma exchanged_refl c : exchanged c c [] [].
Proof. unfold exchanged. by rewrite app_nil_r. Qed.

Lemma exchanged_trans c1 c2 c3 s1 r1 s2 r2 :
  exchanged c1 c2 s1 r1 → exchanged c2 c3 s2 r2 → exchanged c1 c3 (s1 ++ s2) (r1 ++ r2).
Proof.
  intros (H1 & H2 & H3 & H4) (K1 & K2 & K3 & K4). unfold exchanged. rewrite K1, H1, H2, K2, !app_assoc.
  split_and!; congruence.
Qed.

Lemma call_ok {A} (run : io A) c c' a : call run c = (c', Ok a) →
  ∃ f, run (c <| cn_faults := f |>) = (c', Ok a).
Proof.
  unfold call. destruct (cn_faults c) as [|[e|] rest] eqn:Hf; [|done|eauto].
  intros H. exists []. rewrite <-Hf. by destruct c.
Qed.

Lemma Write_ok data c c' x : Write data c = (c', Ok x) → exchanged c c' data [].
Proof. intros (f & [= <- _])%call_ok. done. Qed.

Lemma ReadFull_ok n c c' data : ReadFull n c = (c', Ok data) → exchanged c c' [] data ∧ length data = n.
Proof.
  intros (f & H)%call_ok. cbn in H. destruct (n <=? _)%nat eqn:Hn; [|done]. apply Nat.leb_le in Hn.
  injection H as <- <-. unfold exchanged. cbn. rewrite app_nil_r, take_drop, length_take. split; [done|lia].
Qed.

Lemma or_fail_ok {A} (m : io A) c c' a : or_fail m c = (c', Ok a) → m c = (c', Ok a).
Proof.
  unfold or_fail, mbind, cmd_bind, catch. destruct (m c) as [c1 [b|e]]; cbn; [by intros [= -> ->]|done].
Qed.

Lemma run_call {A} (run : io A) c : cn_faults c = [] → call run c = run c.
Proof. unfold call. by intros ->. Qed.

(** Without failing calls. *)
Lemma Write_run data c : cn_faults c = [] →
  or_fail (Write data) c = (c <| cn_outgoing := cn_outgoing c ++ data |>, Ok ()).
Proof. intros Hc. unfold or_fail, Write, mbind, cmd_bind, catch. by rewrite run_call. Qed.

Lemma ReadFull_run n c data rest : cn_faults c = [] → cn_incoming c = data ++ rest → length data = n →
  ReadFull n c = (c <| cn_incoming := rest |>, Ok data).
Proof.
  intros Hc Hd Hn. unfold ReadFull. rewrite run_call by done. cbv zeta. rewrite Hd, length_app.
  rewrite (proj2 (Nat.leb_le _ _)) by lia. by rewrite drop_app_length', take_app_length' by done.
Qed.

Lemma or_fail_run {A} (m : io A) c c' a : m c = (c', Ok a) → or_fail m c = (c', Ok a).
Proof. intros H. unfold or_fail, mbind, cmd_bind, catch. by rewrite H. Qed.

(** ** Every error closes the connection *)

Definition closes {A} (m : io A) : Prop := ∀ c c' e, m c = (c', Err e) → cn_open c' = false.

Lemma closes_bind {A B} (m : io A) (k : A → io B) : closes m → (∀ a, closes (k a)) → closes (m ≫= k).
Proof.
  intros Hm Hk c c' e. unfold mbind, cmd_bind. destruct (m c) as [c1 [a|e1]] eqn:H; [apply Hk|].
  intros [= <- <-]. by eapply Hm.
Qed.
Lemma closes_fail {A} e : closes (A:=A) (fail e).
Proof. by intros c c' e' [= <- <-]. Qed.
Lemma closes_ret {A} (a : A) : closes (mret a).
Proof. by intros c c' e' [=]. Qed.
Lemma closes_modify f : closes (modify f).
Proof. by intros c c' e' [=]. Qed.
Lemma closes_catch {A} (m : io A) : closes (catch m).
Proof. by intros c c' e' [=]. Qed.
Lemma closes_or_fail {A} (m : io A) : closes (or_fail m).
Proof. apply closes_bind; [apply closes_catch|]. intros [a|e]; [apply closes_ret|apply closes_fail]. Qed.

Create HintDb socks discriminated.
#[local] Hint Resolve closes_fail closes_ret closes_modify closes_catch closes_or_fail : socks.

Ltac closes_tac :=
  repeat first [solve [eauto with socks] | apply closes_bind; [|intros] | case_match].

Lemma closes_authenticate u p m : closes (authenticate u p m).
Proof. unfold authenticate. closes_tac. Qed.
Lemma closes_connect_reply : closes connect_reply.
Proof. unfold connect_reply. closes_tac. Qed.
#[local] Hint Resolve closes_authenticate closes_connect_reply : socks.

Lemma closes_dial target u p : closes (dialSOCKS5 (Ok ()) target u p).
Proof. unfold dialSOCKS5, SetDeadline. closes_tac. Qed.

(** ** Messages parse *)

Lemma parse_connect_message host port : (length (to_bytes host) ≤ 255)%nat → 0 ≤ port ≤ 65535 →
  parse_connect (connect_message host port) = Some (to_bytes host, port).
Proof.
  intros Hl Hp. unfold connect_message, parse_connect. cbn -[be_bytes to_bytes].
  unfold wrap8. rewrite Z.mod_small by lia. rewrite Nat2Z.id, length_app, length_be_bytes.
  rewrite bool_decide_eq_true_2 by lia. rewrite take_app_length, drop_app_length.
  rewrite be_value_bytes. rewrite Z.mod_small by lia. done.
Qed.

Lemma parse_auth_message u p : (length (to_bytes u) ≤ 255)%nat → (length (to_bytes p) ≤ 255)%nat →
  parse_credentials (auth_message u p) = Some (to_bytes u, to_bytes p).
Proof.
  intros Hu Hp. unfold auth_message, parse_credentials, wrap8. rewrite !Z.mod_small by lia.
  rewrite Nat2Z.id, drop_app_length, take_app_length, Nat2Z.id. by rewrite bool_decide_eq_true_2.
Qed.

Lemma socks_target_bounds t host port : socks_target t = Ok (host, port) →
  (length (to_bytes host) ≤ 255)%nat ∧ 0 ≤ port ≤ 65535.
Proof.
  unfold socks_target. destruct (SplitHostPort t) as [[h pt]|]; [|done]. destruct (ParseInt pt) as [n|]; [|done].
  destruct (_ || _) eqn:Hn; [done|]. destruct (_ <? _)%nat eqn:Hl; [done|]. intros [= <- <-].
  bool_to_prop. apply Nat.ltb_ge in Hl. lia.
Qed.

(** ** A successful handshake followed the grammar *)

Lemma length_two {A} (l : list A) : length l = 2%nat → ∃ a b, l = [a; b].
Proof. destruct l as [|a [|b [|]]]; try done. eauto. Qed.
Lemma length_four {A} (l : list A) : length l = 4%nat → ∃ a b c d, l = [a; b; c; d].
Proof. destruct l as [|a [|b [|c [|d [|]]]]]; try done. eauto. Qed.
Lemma length_split {A} (l : list A) n m : length l = (n + m)%nat → ∃ a b, l = a ++ b ∧ length a = n ∧ length b = m.
Proof.
  intros H. exists (take n l), (drop n l). rewrite take_drop, length_take, length_drop. split_and!; [done|lia|lia].
Qed.

Lemma authenticate_ok u p method c c' x : authenticate u p method c = (c', Ok x) →
  ∃ sent received, exchanged c c' sent received ∧ auth_dialog u p sent ([5; method] ++ received).
Proof.
  unfold authenticate. destruct (method =? 2) eqn:Hm; [apply Z.eqb_eq in Hm as ->|].
  - case_bool_decide as Hu; [done|]. destruct (_ || _) eqn:Hl; [done|].
    apply orb_false_iff in Hl as [H1%Nat.ltb_ge H2%Nat.ltb_ge].
    intros ([] & c1 & Hw%or_fail_ok%Write_ok & H)%cmd_bind_inv. apply cmd_bind_inv in H as (r & c2 & Hr & H).
    unfold catch in Hr. destruct (ReadFull 2 c1) as [c3 [reply|e]] eqn:Hread; injection Hr as <- <-; [|done].
    apply ReadFull_ok in Hread as [Hread Hlen]. apply length_two in Hlen as (v & s & ->).
    destruct s; try done. injection H as <- _. exists (auth_message u p), [v; 0]. split.
    + eapply (exchanged_trans _ _ _ _ _ [] [v; 0]) in Hread; [|exact Hw]. by rewrite app_nil_r in Hread.
    + apply (auth_password _ _ _ v); [done|by apply parse_auth_message].
  - destruct (method =? 0) eqn:H0; [apply Z.eqb_eq in H0 as ->|done]. intros [= <- _].
    exists [], []. split; [apply exchanged_refl|constructor].
Qed.

Lemma connect_reply_ok c c' x : connect_reply c = (c', Ok x) →
  ∃ received, exchanged c c' [] received ∧ bound_reply received.
Proof.
  unfold connect_reply. intros (reply & c1 & Hr%or_fail_ok & H)%cmd_bind_inv.
  apply ReadFull_ok in Hr as [Hr Hlen]. apply length_four in Hlen as (v & s & rsv & kind & ->).
  destruct (_ || _) eqn:Hvs; [done|]. bool_to_prop. subst v s.
  apply cmd_bind_inv in H as (n & c2 & Hn & H). apply cmd_bind_inv in H as (data & c3 & Hd%or_fail_ok & H).
  injection H as <- _. apply ReadFull_ok in Hd as [Hd Hlen]. apply length_split in Hlen as (addr & port & -> & Ha & Hp).
  destruct (kind =? 1) eqn:H1; [apply Z.eqb_eq in H1 as ->|destruct (kind =? 4) eqn:H4; [apply Z.eqb_eq in H4 as ->|
    destruct (kind =? 3) eqn:H3; [apply Z.eqb_eq in H3 as ->|done]]].
  - injection Hn as <- <-. eexists. split; [by eapply (exchanged_trans _ _ _ [] _ [])|by constructor].
  - injection Hn as <- <-. eexists. split; [by eapply (exchanged_trans _ _ _ [] _ [])|by constructor].
  - apply cmd_bind_inv in Hn as (one & c4 & Ho%or_fail_ok & Hn). injection Hn as <- <-.
    apply ReadFull_ok in Ho as [Ho Hl]. destruct one as [|n [|]]; try done. cbn in Ha.
    exists ([5; 0; rsv; 3] ++ [n] ++ addr ++ port). split; [|by constructor].
    eapply (exchanged_trans _ _ _ [] _ []); [done|]. by eapply (exchanged_trans _ _ _ [] _ []).
Qed.

Lemma dial_ok target u p c c' x : dialSOCKS5 (Ok ()) target u p c = (c', Ok x) →
  ∃ host port auth request received1 received2,
    socks_target target = Ok (host, port)
    ∧ cn_outgoing c' = cn_outgoing c ++ greeting u ++ auth ++ request
    ∧ cn_incoming c = received1 ++ received2 ++ cn_incoming c'
    ∧ parse_connect request = Some (to_bytes host, port)
    ∧ auth_dialog u p auth received1 ∧ bound_reply received2
    ∧ cn_open c' = true ∧ cn_deadline c' = false.
Proof.
  unfold dialSOCKS5. rewrite modify_bind. unfold SetDeadline. rewrite modify_bind.
  intros ([] & c1 & Hw%or_fail_ok%Write_ok & H)%cmd_bind_inv.
  apply cmd_bind_inv in H as (reply & c2 & Hr%or_fail_ok & H). apply ReadFull_ok in Hr as [Hr Hlen].
  apply length_two in Hlen as (version & method & ->). destruct (version =? 5) eqn:Hv; [|done].
  apply Z.eqb_eq in Hv as ->. cbn [negb] in H. apply cmd_bind_inv in H as ([] & c3 & Ha & H).
  apply authenticate_ok in Ha as (auth & areply & Ha & Hdialog).
  destruct (socks_target target) as [[host port]|e] eqn:Ht; [|done].
  apply cmd_bind_inv in H as ([] & c4 & Hm%or_fail_ok%Write_ok & H).
  apply cmd_bind_inv in H as ([] & c5 & Hc & H). apply connect_reply_ok in Hc as (received & Hc & Hbound).
  injection H as <- _. destruct (socks_target_bounds _ _ _ Ht) as [Hh Hp].
  pose proof (exchanged_trans _ _ _ _ _ _ _ Hw (exchanged_trans _ _ _ _ _ _ _ Hr (exchanged_trans _ _ _ _ _ _ _ Ha
    (exchanged_trans _ _ _ _ _ _ _ Hm Hc)))) as (Ho & Hi & _ & Hop).
  exists host, port, auth, (connect_message host port), ([5; method] ++ areply), received.
  cbn [cn_outgoing cn_incoming cn_open cn_deadline update_field] in *.
  split_and!; try done.
  - rewrite Ho. by rewrite !app_nil_r.
  - rewrite Hi. by rewrite !app_nil_l, <-!app_assoc.
  - by apply parse_connect_message.
Qed.

(** ** A proxy that follows the grammar is understood *)

Lemma connect_reply_run c received rest : cn_faults c = [] → cn_incoming c = received ++ rest →
  bound_reply received → connect_reply c = (c <| cn_incoming := rest |>, Ok ()).
Proof.
  intros Hf Hi Hb. unfold connect_reply.
  destruct Hb as [rsv addr port Ha Hp|rsv addr port Ha Hp|rsv n addr port Ha Hp].
  - rewrite (cmd_bind_ok _ _ _ _ _ (or_fail_run _ _ _ _ (ReadFull_run 4 c [5; 0; rsv; 1] (addr ++ port ++ rest) Hf
      ltac:(rewrite Hi; cbn; by rewrite <-app_assoc) eq_refl))).
    cbn -[ReadFull or_fail]. set (c1 := c <| cn_incoming := addr ++ port ++ rest |>).
    erewrite cmd_bind_ok by reflexivity.
    rewrite (cmd_bind_ok _ _ _ _ _ (or_fail_run _ _ _ _ (ReadFull_run 6 c1
      (addr ++ port) rest Hf (app_assoc addr port rest) ltac:(rewrite length_app; lia)))). done.
  - rewrite (cmd_bind_ok _ _ _ _ _ (or_fail_run _ _ _ _ (ReadFull_run 4 c [5; 0; rsv; 4] (addr ++ port ++ rest) Hf
      ltac:(rewrite Hi; cbn; by rewrite <-app_assoc) eq_refl))).
    cbn -[ReadFull or_fail]. set (c1 := c <| cn_incoming := addr ++ port ++ rest |>).
    erewrite cmd_bind_ok by reflexivity.
    rewrite (cmd_bind_ok _ _ _ _ _ (or_fail_run _ _ _ _ (ReadFull_run 18 c1
      (addr ++ port) rest Hf (app_assoc addr port rest) ltac:(rewrite length_app; lia)))). done.
  - rewrite (cmd_bind_ok _ _ _ _ _ (or_fail_run _ _ _ _ (ReadFull_run 4 c [5; 0; rsv; 3] (n :: addr ++ port ++ rest) Hf
      ltac:(rewrite Hi; cbn; by rewrite <-app_assoc) eq_refl))).
    cbn -[ReadFull or_fail]. set (c1 := c <| cn_incoming := n :: addr ++ port ++ rest |>).
    set (c2 := c1 <| cn_incoming := addr ++ port ++ rest |>).
    rewrite (cmd_bind_ok _ _ c1 c2 (Z.to_nat n)).
    2: { by rewrite (cmd_bind_ok _ _ _ _ _ (or_fail_run _ _ _ _ (ReadFull_run 1 c1 [n] (addr ++ port ++ rest) Hf eq_refl eq_refl))). }
    rewrite (cmd_bind_ok _ _ _ _ _ (or_fail_run _ _ _ _ (ReadFull_run (Z.to_nat n + 2) c2
      (addr ++ port) rest Hf (app_assoc addr port rest) ltac:(rewrite length_app; lia)))). done.
Qed.

Lemma authenticate_run u p auth method received c rest :
  cn_faults c = [] → cn_incoming c = received ++ rest → auth_dialog u p auth ([5; method] ++ received) →
  (length (to_bytes u) ≤ 255)%nat → (length (to_bytes p) ≤ 255)%nat →
  ∃ sent, authenticate u p method c
    = (c <| cn_outgoing := cn_outgoing c ++ sent |> <| cn_incoming := rest |>, Ok ()).
Proof.
  intros Hf Hi Hd Hu Hp. unfold authenticate. cbn in Hd. remember (5 :: method :: received) as r eqn:Hr.
  destruct Hd as [|msg v Hne Hmsg]; injection Hr as <- <-.
  - exists []. rewrite app_nil_r. cbn. destruct c. cbn in *. by subst.
  - exists (auth_message u p). cbn [Z.eqb Pos.eqb]. rewrite bool_decide_eq_false_2 by done.
    rewrite !(proj2 (Nat.ltb_ge _ _)) by lia. cbn [orb].
    rewrite (cmd_bind_ok _ _ _ _ _ (Write_run _ c Hf)).
    set (c1 := c <| cn_outgoing := cn_outgoing c ++ auth_message u p |>).
    rewrite (cmd_bind_ok _ _ c1 (c1 <| cn_incoming := rest |>) (Ok [v; 0])); [done|].
    unfold catch. by rewrite (ReadFull_run 2 c1 [v; 0] rest Hf Hi eq_refl).
Qed.

Lemma dial_run target u p host port auth received1 received2 rest c :
  cn_faults c = [] → socks_target target = Ok (host, port) →
  (length (to_bytes u) ≤ 255)%nat → (length (to_bytes p) ≤ 255)%nat →
  cn_incoming c = received1 ++ received2 ++ rest →
  auth_dialog u p auth received1 → bound_reply received2 →
  (dialSOCKS5 (Ok ()) target u p c).2 = Ok () ∧ cn_incoming (dialSOCKS5 (Ok ()) target u p c).1 = rest.
Proof.
  intros Hf Ht Hu Hp Hi Hd Hb. assert (∃ method areply, received1 = [5; method] ++ areply) as (method & areply & ->)
    by (destruct Hd; [by exists 0, []|by exists 2, [version; 0]]).
  unfold dialSOCKS5. rewrite modify_bind. unfold SetDeadline. rewrite modify_bind.
  set (c0 := _ <| cn_deadline := true |>).
  rewrite (cmd_bind_ok _ _ _ _ _ (Write_run (greeting u) c0 Hf)). set (c1 := _ <| cn_outgoing := _ |>).
  rewrite (cmd_bind_ok _ _ _ _ _ (or_fail_run _ _ _ _ (ReadFull_run 2 c1 [5; method] (areply ++ received2 ++ rest) Hf
    ltac:(cbn; by rewrite Hi, <-app_assoc) eq_refl))).
  cbn [Z.eqb Pos.eqb negb]. set (c2 := c1 <| cn_incoming := _ |>).
  destruct (authenticate_run u p auth method areply c2 (received2 ++ rest) Hf eq_refl Hd Hu Hp) as (sent & Ha).
  rewrite (cmd_bind_ok _ _ _ _ _ Ha), Ht. set (c3 := _ <| cn_incoming := received2 ++ rest |>).
  rewrite (cmd_bind_ok _ _ _ _ _ (Write_run _ c3 Hf)). set (c4 := c3 <| cn_outgoing := _ |>).
  rewrite (cmd_bind_ok _ _ _ _ _ (connect_reply_run c4 received2 rest Hf eq_refl Hb)). done.
Qed.

(** ** The password stays here unless it is asked for *)

Lemma bind_ext {A B} (m : io A) (k k' : A → io B) c :
  (∀ c' a, m c = (c', Ok a) → k a c' = k' a c') → (m ≫= k) c = (m ≫= k') c.
Proof. intros H. unfold mbind, cmd_bind. destruct (m c) as [c' [a|e]]; [by apply H|done]. Qed.

Lemma dial_password target u p p' c : take 2 (cn_incoming c) ≠ [5; 2] →
  dialSOCKS5 (Ok ()) target u p c = dialSOCKS5 (Ok ()) target u p' c.
Proof.
  intros Hm. unfold dialSOCKS5. apply bind_ext. intros c0 [] [= <-]. apply bind_ext. intros c1 [] [= <-].
  apply bind_ext. intros c2 [] (_ & Hw & _)%or_fail_ok%Write_ok.
  apply bind_ext. intros c3 reply [(_ & Hr & _) Hlen]%or_fail_ok%ReadFull_ok. cbn in Hw. rewrite Hr in Hw.
  apply length_two in Hlen as (version & method & ->). destruct (version =? 5) eqn:Hv; [|done].
  apply Z.eqb_eq in Hv as ->. cbn [negb]. assert (method =? 2 = false) as Hne.
  { apply Z.eqb_neq. intros ->. apply Hm. by rewrite Hw. }
  unfold authenticate. by rewrite Hne.
Qed.

(** C33: When the SOCKS5 handshake succeeds, the proxy got the greeting, then
    name and password exactly if it chose that method, then a CONNECT request
    that parses to the host and port asked for, and it answered each message by
    the grammar; every byte up to the end of its answer is consumed and none
    after, the connection is open and its deadline cleared.  Every failure leaves
    it closed.  A proxy that answers by the grammar is always understood.  What
    is sent does not depend on the password unless the proxy chose the password
    method. *)
Theorem dialSOCKS5_protocol target u p c :
  let q := dialSOCKS5 (Ok ()) target u p c in
  (q.2 = Ok () → ∃ host port auth request received1 received2,
    socks_target target = Ok (host, port)
    ∧ cn_outgoing q.1 = cn_outgoing c ++ greeting u ++ auth ++ request
    ∧ cn_incoming c = received1 ++ received2 ++ cn_incoming q.1
    ∧ parse_connect request = Some (to_bytes host, port)
    ∧ auth_dialog u p auth received1 ∧ bound_reply received2
    ∧ cn_open q.1 = true ∧ cn_deadline q.1 = false)
  ∧ (∀ e, q.2 = Err e → cn_open q.1 = false)
  ∧ (∀ host port auth received1 received2 rest,
      cn_faults c = [] → socks_target target = Ok (host, port) →
      (length (to_bytes u) ≤ 255)%nat → (length (to_bytes p) ≤ 255)%nat →
      cn_incoming c = received1 ++ received2 ++ rest →
      auth_dialog u p auth received1 → bound_reply received2 → q.2 = Ok () ∧ cn_incoming q.1 = rest)
  ∧ (take 2 (cn_incoming c) ≠ [5; 2] → ∀ p', dialSOCKS5 (Ok ()) target u p' c = q).
Proof.
  intros q. destruct q as [c' r] eqn:Hq. cbn [fst snd]. split_and!.
  - intros ->. by eapply dial_ok.
  - intros e ->. by eapply closes_dial.
  - intros host port auth received1 received2 rest Hf Ht Hu Hp Hi Hd Hb.
    pose proof (dial_run target u p host port auth received1 received2 rest c Hf Ht Hu Hp Hi Hd Hb) as [H1 H2].
    unfold q in Hq. by rewrite Hq in H1, H2.
  - intros Hm p'. rewrite <-Hq. by apply dial_password.
Qed.

(** ** Host and port *)

Lemma last_cut_app s c t : str_elem c t = false → last_cut (s +:+ String c t) c = Some (s, t).
Proof.
  intros Ht. assert (last_cut t c = None) as Hn.
  { induction t as [|a t IH]; [done|]. cbn in *. apply orb_false_iff in Ht as [Ha Ht].
    rewrite IH by done. apply bool_decide_eq_false in Ha. by rewrite bool_decide_eq_false_2. }
  induction s as [|a s IH].
  - change ("" +:+ String c t) with (String c t). cbn [last_cut]. rewrite Hn. by rewrite bool_decide_eq_true_2.
  - change (last_cut (String a s +:+ String c t) c) with
      (match last_cut (s +:+ String c t) c with
       | Some (before, after) => Some (String a before, after)
       | None => if bool_decide (a = c) then Some ("", s +:+ String c t) else None
       end). by rewrite IH.
Qed.

Lemma last_cut_eq s c t whole : whole = s +:+ String c t → str_elem c t = false → last_cut whole c = Some (s, t).
Proof. intros ->. apply last_cut_app. Qed.

Lemma HasPrefix_nil s : HasPrefix s "" = true.
Proof. by destruct s. Qed.

(** SK2: A proxy or target address built by joining a host, a name or an IPv4 or
    IPv6 address, with a port splits into the same host and port, so what the
    handshake asks the proxy for is what the program meant to reach. *)
Theorem JoinHostPort_roundtrip host port :
  str_elem "[" host = false → str_elem "]" host = false →
  (length (to_bytes host) ≤ 255)%nat → 0 ≤ port ≤ 65535 →
  SplitHostPort (JoinHostPort host (FormatInt port)) = Ok (host, FormatInt port)
  ∧ socks_target (JoinHostPort host (FormatInt port)) = Ok (host, port).
Proof.
  intros Hl Hr Hlen Hp.
  assert (∀ c, digit_val c = None → str_elem c (FormatInt port) = false) as Hport.
  { intros c Hc. apply all_digits_no_elem; [done|apply FormatInt_digits; lia]. }
  assert (SplitHostPort (JoinHostPort host (FormatInt port)) = Ok (host, FormatInt port)) as Hs.
  { unfold JoinHostPort. destruct (str_elem ":" host) eqn:Hc; unfold SplitHostPort.
    - change ("[" +:+ host +:+ "]:" +:+ FormatInt port) with ((String "[" host) +:+ String "]" (String ":" (FormatInt port))).
      rewrite (last_cut_eq (String "[" host +:+ "]") ":" (FormatInt port));
        [|by rewrite (str_app_assoc (String "[" host) "]" (String ":" (FormatInt port)))|by apply Hport].
      change (HasPrefix (String "[" host +:+ String "]" (String ":" (FormatInt port))) "[") with
        (bool_decide ("["%char = "["%char) && HasPrefix (host +:+ String "]" (String ":" (FormatInt port))) "").
      rewrite bool_decide_eq_true_2, HasPrefix_nil by done. cbn [andb].
      change (drop_str 1 (String "[" host +:+ String "]" (String ":" (FormatInt port)))) with
        (host +:+ String "]" (String ":" (FormatInt port))).
      rewrite Cut_char_app by done. cbn [negb]. rewrite !str_elem_app, Hl. cbn [HasPrefix drop_str str_elem].
      rewrite HasPrefix_nil, !Hport by done. done.
    - change (host +:+ ":" +:+ FormatInt port) with (host +:+ String ":" (FormatInt port)).
      rewrite last_cut_app by (by apply Hport). rewrite Hc, !str_elem_app, Hl, Hr. cbn [str_elem].
      rewrite !Hport by done. destruct host as [|a h]; [done|]. cbn in Hl. apply orb_false_iff in Hl as [Ha _].
      change (HasPrefix (String a h +:+ String ":" (FormatInt port)) "[") with
        (bool_decide ("["%char = a) && HasPrefix (h +:+ String ":" (FormatInt port)) "").
      apply bool_decide_eq_false in Ha. rewrite bool_decide_eq_false_2 by congruence. done. }
  split; [done|]. unfold socks_target. rewrite Hs, ParseInt_FormatInt by (unfold int64_ok, int64_min, int64_max; lia).
  rewrite (proj2 (Z.ltb_ge port 0)), (proj2 (Z.ltb_ge 65535 port)) by lia. cbn [orb].
  by rewrite (proj2 (Nat.ltb_ge _ _)) by lia.
Qed.

Lemma JoinHostPort_roundtrip_witness :
  JoinHostPort "2001:db8::1" "443" = "[2001:db8::1]:443"
  ∧ socks_target "[2001:db8::1]:443" = Ok ("2001:db8::1", 443)
  ∧ socks_target "g.api.mega.co.nz:443" = Ok ("g.api.mega.co.nz", 443).
Proof.
  split; [reflexivity|]. split.
  - apply (JoinHostPort_roundtrip "2001:db8::1" 443); [done|done|vm_compute; lia|lia].
  - apply (JoinHostPort_roundtrip "g.api.mega.co.nz" 443); [done|done|vm_compute; lia|lia].
Defined.

(** A handshake with credentials; the last byte already belongs to the target. *)
Example dialSOCKS5_sample :
  let c := mkConn [5; 2; 1; 0; 5; 0; 0; 1; 127; 0; 0; 1; 4; 56; 77] [] [] false false in
  dialSOCKS5 (Ok ()) "a.b:80" "me" "pw" c
  = (mkConn [77] [5; 1; 2; 1; 2; 109; 101; 2; 112; 119; 5; 1; 0; 3; 3; 97; 46; 98; 0; 80] [] false true, Ok ()).
Proof. reflexivity. Qed.
