(* ===== verification/Float64.v ===== *)
(** * The float64 arithmetic of the limiter and the speed meter

    Go's float64 operations are those of IEEE 754 with 53 bits and rounding to
    nearest even, which the Standard Library specifies and computes
    ([SpecFloat]).  The theorems bound what rounding can add: a result is
    larger than the exact one by at most one part in 2^52, or by the smallest
    positive number. *)

From Stdlib Require Import ZArith Lia SpecFloat.
From stdpp Require Import base numbers.
From S2P Require Import Prelude.

Definition float64 : Type := spec_float.

(** [float64(z)] and the four operations. *)
Definition of_int (z : Z) : float64 := binary_normalize 53 1024 z 0 false.
Definition fadd : float64 → float64 → float64 := SFadd 53 1024.
Definition fsub : float64 → float64 → float64 := SFsub 53 1024.
Definition fmul : float64 → float64 → float64 := SFmul 53 1024.
Definition fdiv : float64 → float64 → float64 := SFdiv 53 1024.

(** [int64(x)] for an [x] that fits: towards zero. *)
Definition to_int (x : float64) : Z :=
  match x with
  | S754_finite s m e =>
      let magnitude := if 0 <=? e then Z.pos m * 2 ^ e else Z.pos m / 2 ^ (- e) in
      if s then - magnitude else magnitude
  | _ => 0
  end.

(** [d.Seconds()] of a [time.Duration]. *)
Definition Seconds (d : Z) : float64 := fadd (of_int (d `quot` Second)) (fdiv (of_int (d `rem` Second)) (of_int Second)).

(** ** Digits and exponents *)

Definition digits (m : Z) : Z := if m <=? 0 then 0 else Z.log2 m + 1.

Lemma digits_pos p : Z.pos (digits2_pos p) = digits (Z.pos p).
Proof.
  unfold digits. cbn [Z.leb Z.compare]. induction p as [p IH|p IH|]; [..|done]; cbn [digits2_pos];
    rewrite Pos2Z.inj_succ, IH.
  - change (Z.pos p~1) with (2 * Z.pos p + 1). rewrite Z.log2_succ_double by lia. lia.
  - change (Z.pos p~0) with (2 * Z.pos p). rewrite Z.log2_double by lia. lia.
Qed.

Lemma Zdigits2_digits m : 0 ≤ m → Zdigits2 m = digits m.
Proof. destruct m as [|p|p]; [done| |lia]. intros _. apply digits_pos. Qed.

Lemma digits_bounds m : 0 < m → 2 ^ (digits m - 1) ≤ m < 2 ^ digits m.
Proof.
  intros H. unfold digits. rewrite (proj2 (Z.leb_gt _ _) H). destruct (Z.log2_spec m H). split; [|done].
  by replace (Z.log2 m + 1 - 1) with (Z.log2 m) by lia.
Qed.

Lemma digits_nonneg m : 0 ≤ digits m ∧ (0 < m → 1 ≤ digits m).
Proof. unfold digits. case_match; [lia|]. pose proof (Z.log2_nonneg m). lia. Qed.

Lemma digits_unique m d : 0 < m → 2 ^ (d - 1) ≤ m < 2 ^ d → digits m = d.
Proof.
  intros H [H1 H2]. unfold digits. rewrite (proj2 (Z.leb_gt _ _) H).
  assert (0 < d) by (destruct (Z.lt_ge_cases 0 d); [done|]; assert (2 ^ d ≤ 2 ^ 0) by (by apply Z.pow_le_mono_r); cbn in *; lia).
  rewrite (Z.log2_unique' m (d - 1) (m - 2 ^ (d - 1))); [lia|lia| |lia]. replace d with (Z.succ (d - 1)) in H2 by lia.
  rewrite Z.pow_succ_r in H2 by lia. lia.
Qed.

Lemma digits_mono a b : a ≤ b → digits a ≤ digits b.
Proof. intros H. unfold digits. repeat case_match; bool_to_prop; try lia. - pose proof (Z.log2_nonneg b). lia. - pose proof (Z.log2_le_mono a b H). lia. Qed.

Lemma digits_shift m n : 0 ≤ n → n < digits m → digits (m / 2 ^ n) = digits m - n.
Proof.
  intros Hn Hd. destruct (Z.le_gt_cases m 0) as [Hm|Hm]; [unfold digits in Hd; rewrite (proj2 (Z.leb_le _ _) Hm) in Hd; lia|].
  destruct (digits_bounds m Hm) as [H1 H2]. assert (0 < 2 ^ n) by lia.
  assert (2 ^ (digits m - n - 1) ≤ m / 2 ^ n) as L.
  { apply Z.div_le_lower_bound; [done|]. rewrite <-Z.pow_add_r by lia. by replace (n + (digits m - n - 1)) with (digits m - 1) by lia. }
  apply digits_unique; [assert (0 < 2 ^ (digits m - n - 1)) by lia; lia|]. split; [done|].
  apply Z.div_lt_upper_bound; [done|]. rewrite <-Z.pow_add_r by lia. by replace (n + (digits m - n)) with (digits m) by lia.
Qed.

Lemma digits_scale m n : 0 < m → 0 ≤ n → digits (m * 2 ^ n) = digits m + n.
Proof.
  intros H Hn. destruct (digits_bounds m H) as [H1 H2]. assert (0 < 2 ^ n) by lia. pose proof (digits_nonneg m) as [_ Hd].
  apply digits_unique; [nia|]. replace (digits m + n - 1) with (digits m - 1 + n) by lia. rewrite !Z.pow_add_r by (specialize (Hd H); lia). nia.
Qed.

Definition fexp64 (e : Z) : Z := Z.max (e - 53) (-1074).

Lemma fexp_eq e : fexp 53 1024 e = fexp64 e.
Proof. unfold fexp, emin, fexp64. lia. Qed.

(** ** Shifting and rounding *)

Lemma shr_1_half r : 0 ≤ shr_m r → shr_m (shr_1 r) = shr_m r / 2.
Proof.
  destruct r as [m rr s]; cbn [shr_m]. intros H. rewrite <-Z.div2_div. destruct m as [|p|p]; [done| |lia]. by destruct p.
Qed.

Lemma iter_shr n r : 0 ≤ shr_m r → shr_m (SpecFloat.iter_pos shr_1 n r) = shr_m r / 2 ^ Z.pos n.
Proof.
  revert r. induction n as [n IH|n IH|]; intros r H; cbn [SpecFloat.iter_pos].
  - pose proof (shr_1_half r H) as E. assert (0 ≤ shr_m (shr_1 r)) as H1 by (rewrite E; apply Z.div_pos; lia).
    assert (0 ≤ shr_m (SpecFloat.iter_pos shr_1 n (shr_1 r))) as H2 by (rewrite IH by done; apply Z.div_pos; lia).
    rewrite IH, IH, E, !Z.div_div by lia. f_equal. rewrite (Pos2Z.inj_xI n), Z.pow_add_r, <-Z.pow_twice_r by lia. change (2 ^ 1) with 2. nia.
  - assert (0 ≤ shr_m (SpecFloat.iter_pos shr_1 n r)) as H2 by (rewrite IH by done; apply Z.div_pos; lia).
    rewrite IH, IH, !Z.div_div by lia. f_equal. rewrite (Pos2Z.inj_xO n), <-Z.pow_twice_r by lia. nia.
  - rewrite shr_1_half by done. done.
Qed.

(** The mantissa and exponent of a shift. *)
Lemma shr_spec r e n : 0 ≤ shr_m r →
  shr_m (shr r e n).1 = shr_m r / 2 ^ Z.max 0 n ∧ (shr r e n).2 = e + Z.max 0 n ∧ (n ≤ 0 → (shr r e n).1 = r).
Proof.
  intros H. destruct n as [|p|p]; cbn [shr fst snd].
  - rewrite Z.div_1_r. split_and!; [done|lia|done].
  - rewrite iter_shr by done. rewrite Z.max_r by lia. split_and!; [done..|lia].
  - rewrite Z.max_l by lia. rewrite Z.div_1_r. split_and!; [done|lia|done].
Qed.

Lemma shr_fexp_spec m e l : 0 ≤ m →
  let n := Z.max 0 (fexp64 (digits m + e) - e) in
  let r := shr_fexp 53 1024 m e l in
  shr_m r.1 = m / 2 ^ n ∧ r.2 = e + n ∧ (n = 0 → l = loc_Exact → loc_of_shr_record r.1 = loc_Exact).
Proof.
  intros H. cbv zeta. unfold shr_fexp. rewrite Zdigits2_digits, fexp_eq by done.
  assert (shr_m (shr_record_of_loc m l) = m) as E by (by destruct l as [|[]]).
  destruct (shr_spec (shr_record_of_loc m l) e (fexp64 (digits m + e) - e)) as (H1 & H2 & H3); [by rewrite E|].
  rewrite E in H1. split_and!; [done..|]. intros Hn ->. rewrite H3 by lia. done.
Qed.

Lemma round_cases m l : (l = loc_Exact → round_nearest_even m l = m) ∧ m ≤ round_nearest_even m l ≤ m + 1.
Proof. unfold round_nearest_even. destruct l as [|[]]; repeat case_match; split; try done; lia. Qed.

(** ** Values

    Every exponent that occurs is above [- K]; [units] is a value in units of
    [2 ^ (- K)]. *)

Section values.
Context (K : Z) (HK : 4000 ≤ K).

Definition units (x : float64) : Z :=
  match x with S754_finite s m e => (if s then -1 else 1) * (Z.pos m * 2 ^ (e + K)) | _ => 0 end.

(** Finite, not negative and normalised. *)
Definition plain (x : float64) : Prop :=
  match x with
  | S754_zero _ => True
  | S754_finite false m e => fexp64 (digits (Z.pos m) + e) = e ∧ e ≤ 971
  | _ => False
  end.

Lemma plain_units x : plain x → 0 ≤ units x.
Proof. destruct x as [| | |[] m e]; cbn; try done. intros [H1 H2]. unfold fexp64 in H1. assert (0 < 2 ^ (e + K)) by lia. nia. Qed.

(** What rounding makes of the value [m * 2 ^ e]. *)
Lemma round_aux_spec m e l :
  0 < m → e ≤ fexp64 (digits m + e) → digits m + e ≤ 1000 → 1 - K ≤ e →
  let x := binary_round_aux 53 1024 false m e l in
  let f := fexp64 (digits m + e) in
  plain x ∧ units x ≤ m * 2 ^ (e + K) + 2 ^ (f + K)
  ∧ (l = loc_Exact → e = f → units x = m * 2 ^ (e + K))
  ∧ (-1074 < f → 2 ^ (digits m + e - 1 + K) ≤ units x).
Proof.
  intros Hm He Hd HeK. cbv zeta. set (f := fexp64 (digits m + e)) in *. unfold binary_round_aux.
  destruct (shr_fexp_spec m e l) as (E1 & E2 & E3); [lia|]. cbv zeta in E1, E2, E3.
  destruct (shr_fexp 53 1024 m e l) as [r1 e1]. cbn [fst snd] in E1, E2, E3. fold f in E1, E2, E3.
  rewrite (Z.max_r 0 (f - e)) in E1, E2, E3 by lia. assert (e1 = f) as -> by lia. clear E2.
  destruct (round_cases (shr_m r1) (loc_of_shr_record r1)) as [R1 R2]. set (m1 := round_nearest_even _ _) in *.
  assert (0 < 2 ^ (f - e)) by lia. assert (0 ≤ shr_m r1) by (rewrite E1; apply Z.div_pos; lia).
  destruct (shr_fexp_spec m1 f loc_Exact) as (F1 & F2 & _); [lia|]. cbv zeta in F1, F2.
  destruct (shr_fexp 53 1024 m1 f loc_Exact) as [r2 e2]. cbn [fst snd] in F1, F2.
  assert (-1074 ≤ f) as Hf by (unfold f, fexp64; lia). pose proof (digits_nonneg m) as [_ Hdm]. specialize (Hdm Hm).
  assert (m / 2 ^ (f - e) * 2 ^ (f - e) ≤ m) as Hdiv by (rewrite Z.mul_comm; by apply Z.mul_div_le).
  assert (2 ^ (f + K) = 2 ^ (f - e) * 2 ^ (e + K)) as Epow by (rewrite <-Z.pow_add_r by lia; f_equal; lia).
  assert (0 < 2 ^ (e + K)) by lia. assert (0 < 2 ^ (f + K)) by lia.
  assert (m1 * 2 ^ (f + K) ≤ m * 2 ^ (e + K) + 2 ^ (f + K)) as Hval by (rewrite E1 in R2; rewrite Epow; nia).
  assert (digits m - (f - e) ≤ digits m1 ∧ digits m1 ≤ Z.max 0 (digits m - (f - e)) + 1) as [Hd1 Hd1'].
  { destruct (Z.lt_ge_cases (f - e) (digits m)) as [Hlt|Hge].
    - assert (digits (shr_m r1) = digits m - (f - e)) as Er by (rewrite E1; apply digits_shift; lia).
      pose proof (digits_mono (shr_m r1) m1). split; [lia|]. pose proof (digits_bounds m Hm) as [_ Hub].
      assert (m1 ≤ 2 ^ (digits m - (f - e))) as Hm1.
      { assert (0 < shr_m r1) as Hp. { destruct (Z.eq_dec (shr_m r1) 0) as [E0|]; [|lia]. rewrite E0 in Er. cbn in Er. lia. }
        pose proof (digits_bounds (shr_m r1) Hp) as [_ Hb]. rewrite Er in Hb. lia. }
      transitivity (digits (2 ^ (digits m - (f - e)))); [by apply digits_mono|].
      rewrite <-(Z.mul_1_l (2 ^ _)), digits_scale by lia. cbn. lia.
    - pose proof (digits_nonneg m1). split; [lia|]. pose proof (digits_bounds m Hm) as [_ Hub].
      assert (2 ^ digits m ≤ 2 ^ (f - e)) by (apply Z.pow_le_mono_r; lia).
      assert (shr_m r1 = 0) as E0 by (rewrite E1; apply Z.div_small; lia). transitivity (digits 1); [apply digits_mono; lia|]. cbn. lia. }
  destruct (Z.eq_dec m1 0) as [Hz|Hz].
  { rewrite Hz in F1. rewrite Z.div_0_l in F1 by lia. rewrite F1. cbn [units plain]. split_and!; [done|nia| |].
    - intros Hl Hef. rewrite R1 in Hz by (apply E3; [lia|done]). rewrite E1, Hef, Z.sub_diag, Z.div_1_r in Hz. lia.
    - intros Hf2. rewrite Hz in Hd1. change (digits 0) with 0 in Hd1. unfold f, fexp64 in *. lia. }
  assert (digits m + e ≤ digits m1 + f) as Hmono by lia. pose proof (digits_nonneg m1) as [_ Hdm1]. specialize (Hdm1 ltac:(lia)).
  set (f2 := fexp64 (digits m1 + f)) in *. assert (f ≤ f2) as Hff by (unfold f, f2, fexp64 in *; lia).
  rewrite Z.max_r in F1, F2 by lia. assert (e2 = f2) as -> by lia. clear F2.
  assert (f2 - f < digits m1) as Hn2 by (unfold f2, fexp64; lia).
  assert (digits (m1 / 2 ^ (f2 - f)) = digits m1 - (f2 - f)) as Ed2 by (apply digits_shift; lia).
  assert (0 < m1 / 2 ^ (f2 - f)) as Hm2.
  { destruct (Z.lt_ge_cases 0 (m1 / 2 ^ (f2 - f))) as [|Hle]; [done|]. unfold digits at 1 in Ed2. rewrite (proj2 (Z.leb_le _ _) Hle) in Ed2. lia. }
  assert (f2 ≤ 971) as Hemax by (unfold f2, f, fexp64 in *; lia).
  rewrite F1. set (m2 := m1 / 2 ^ (f2 - f)) in *. destruct m2 as [|p|p] eqn:Em2; [lia| |lia]. change (1024 - 53) with 971.
  rewrite (proj2 (Z.leb_le _ _) Hemax). cbn [units plain].
  assert (Z.pos p * 2 ^ (f2 - f) ≤ m1) as Hm21 by (rewrite <-Em2, Z.mul_comm; apply Z.mul_div_le; lia).
  assert (2 ^ (f2 + K) = 2 ^ (f2 - f) * 2 ^ (f + K)) as Epow2 by (rewrite <-Z.pow_add_r by lia; f_equal; lia).
  assert (fexp64 (digits (Z.pos p) + f2) = f2) as Hcan by (rewrite Ed2; unfold f2 at 2; f_equal; lia).
  split_and!; [done|done|rewrite Epow2; nia| |].
  - intros Hl Hef. assert (m1 = m) as Emm. { rewrite R1 by (apply E3; [lia|done]). by rewrite E1, Hef, Z.sub_diag, Z.div_1_r. }
    assert (f2 = f) as Ef2 by (unfold f2; rewrite Emm, <-Hef; exact (eq_sym Hef)). rewrite Ef2, Hef. assert (m1 / 2 ^ (f2 - f) = Z.pos p) as Ep by exact Em2. rewrite Ef2, Z.sub_diag, Z.pow_0_r, Z.div_1_r in Ep. nia.
  - intros _. destruct (digits_bounds (Z.pos p)) as [Hlow _]; [lia|]. rewrite Ed2 in Hlow.
    assert (2 ^ (digits m1 - (f2 - f) - 1) * 2 ^ (f2 + K) = 2 ^ (digits m1 + f - 1 + K)) as E by (rewrite <-Z.pow_add_r by lia; f_equal; lia).
    assert (2 ^ (digits m + e - 1 + K) ≤ 2 ^ (digits m1 + f - 1 + K)) by (apply Z.pow_le_mono_r; lia).
    assert (0 < 2 ^ (f2 + K)) by lia. nia.
Qed.

(** The smallest positive number, and what a rounded result may be. *)
Definition tiny : Z := 2 ^ (K - 1074).
Definition near (x : float64) (exact : Z) : Prop := plain x ∧ 2 ^ 52 * units x ≤ (2 ^ 52 + 1) * exact + 2 ^ 52 * tiny.

Lemma tiny_pos : 0 < tiny.
Proof. unfold tiny. lia. Qed.

Lemma near_exact x : plain x → near x (units x).
Proof. intros H. split; [done|]. pose proof (plain_units x H). pose proof tiny_pos. lia. Qed.

(** One unit in the last place is small. *)
Lemma ulp_small m e : 0 < m → 1 - K ≤ e →
  2 ^ 52 * 2 ^ (fexp64 (digits m + e) + K) ≤ m * 2 ^ (e + K) + 2 ^ 52 * tiny.
Proof.
  intros Hm He. pose proof tiny_pos. assert (0 < 2 ^ (e + K)) by lia. unfold fexp64.
  destruct (Z.max_spec (digits m + e - 53) (-1074)) as [[_ ->]|[H1 ->]].
  - replace (2 ^ (-1074 + K)) with tiny by (unfold tiny; f_equal; lia). lia.
  - destruct (digits_bounds m Hm) as [Hl _]. pose proof (digits_nonneg m) as [_ Hd]. specialize (Hd Hm).
    rewrite <-Z.pow_add_r by lia. replace (52 + (digits m + e - 53 + K)) with (digits m - 1 + (e + K)) by lia.
    rewrite Z.pow_add_r by lia. nia.
Qed.

Lemma near_round x m e : 0 < m → 1 - K ≤ e → plain x →
  units x ≤ m * 2 ^ (e + K) + 2 ^ (fexp64 (digits m + e) + K) → near x (m * 2 ^ (e + K)).
Proof. intros Hm He Hp Hu. split; [done|]. pose proof (ulp_small m e Hm He). lia. Qed.

Lemma shift_xO m d : Z.pos (Pos.iter xO m d) = Z.pos m * 2 ^ Z.pos d.
Proof.
  induction d as [|d IH] using Pos.peano_ind; [cbn; lia|]. rewrite Pos.iter_succ, Pos2Z.inj_succ, Z.pow_succ_r by lia.
  change (Z.pos (Pos.iter xO m d)~0) with (2 * Z.pos (Pos.iter xO m d)). rewrite IH. lia.
Qed.

Lemma shl_align_spec m e e' : Z.pos (shl_align m e e').1 = Z.pos m * 2 ^ Z.max 0 (e - e') ∧ (shl_align m e e').2 = Z.min e e'.
Proof.
  unfold shl_align. destruct (e' - e) as [|d|d] eqn:E; cbn [fst snd].
  - rewrite Z.max_l by lia. split; [cbn; lia|lia].
  - rewrite Z.max_l by lia. split; [cbn; lia|lia].
  - rewrite shift_xO, Z.max_r by lia. split; [f_equal; f_equal; lia|lia].
Qed.

Lemma binary_round_spec p e :
  digits (Z.pos p) + e ≤ 1000 → 1 - K ≤ e →
  let x := binary_round 53 1024 false p e in
  let f := fexp64 (digits (Z.pos p) + e) in
  near x (Z.pos p * 2 ^ (e + K)) ∧ (f ≤ e → units x = Z.pos p * 2 ^ (e + K))
  ∧ (-1074 < f → 2 ^ (digits (Z.pos p) + e - 1 + K) ≤ units x).
Proof.
  intros Hd He. cbv zeta. unfold binary_round. rewrite digits_pos, fexp_eq. set (f := fexp64 (digits (Z.pos p) + e)).
  destruct (shl_align_spec p e f) as [E1 E2]. destruct (shl_align p e f) as [m e1]. cbn [fst snd] in E1, E2.
  assert (-1074 ≤ f) by (unfold f, fexp64; lia).
  assert (digits (Z.pos m) + e1 = digits (Z.pos p) + e) as Ed by (rewrite E1, digits_scale by lia; lia).
  assert (Z.pos m * 2 ^ (e1 + K) = Z.pos p * 2 ^ (e + K)) as Ev.
  { rewrite E1, <-Z.mul_assoc, <-Z.pow_add_r by lia. f_equal. f_equal. lia. }
  destruct (round_aux_spec (Z.pos m) e1 loc_Exact) as (H1 & H2 & H3 & H4); [lia|rewrite Ed; fold f; lia|lia|lia|].
  cbv zeta in *. rewrite Ed in *. fold f in H2, H3, H4. rewrite Ev in *. split_and!; [|intros Hf; apply H3; [done|lia]|done].
  rewrite <-Ev. apply near_round; [lia|lia|done|]. rewrite Ed. fold f. by rewrite Ev.
Qed.

(** The exponent of a number below [2 ^ n]. *)
Definition below (n : Z) (x : float64) : Prop := plain x ∧ units x < 2 ^ (n + K).

Lemma plain_finite m e : plain (S754_finite false m e) → -1074 ≤ e ∧ digits (Z.pos m) ≤ 53 ∧ (-1074 < e → digits (Z.pos m) = 53).
Proof. intros [H _]. unfold fexp64 in H. lia. Qed.

Lemma top_below n m e : 0 < m → - K < e → m * 2 ^ (e + K) < 2 ^ (n + K) → digits m + e ≤ n.
Proof.
  intros Hm He H. destruct (Z.le_gt_cases (digits m + e) n) as [|Hgt]; [done|exfalso].
  destruct (digits_bounds m Hm) as [Hl _]. pose proof (digits_nonneg m) as [_ Hd]. specialize (Hd Hm).
  assert (2 ^ (n + K) ≤ 2 ^ (digits m - 1 + (e + K))) by (apply Z.pow_le_mono_r; lia). rewrite (Z.pow_add_r 2 (digits m - 1)) in H0 by lia.
  assert (0 < 2 ^ (e + K)) by lia. nia.
Qed.

Lemma of_int_spec z : 0 ≤ z → digits z ≤ 1000 →
  near (of_int z) (z * 2 ^ K) ∧ (z < 2 ^ 53 → units (of_int z) = z * 2 ^ K) ∧ (0 < z → 2 ^ (digits z - 1 + K) ≤ units (of_int z)).
Proof.
  intros Hz Hd. unfold of_int. destruct z as [|p|p]; [|..|lia].
  { cbn. pose proof tiny_pos. split_and!; [split; [done|]; cbn; lia|done|lia]. }
  cbn [binary_normalize]. destruct (binary_round_spec p 0) as (H1 & H2 & H3); [lia|lia|]. cbv zeta in *.
  rewrite Z.add_0_l, Z.add_0_r in *. pose proof (digits_nonneg (Z.pos p)) as [_ Hd1]. specialize (Hd1 ltac:(lia)).
  split_and!; [done| |intros _; apply H3; unfold fexp64; lia].
  intros Hlt. apply H2. destruct (digits_bounds (Z.pos p)) as [Hl _]; [lia|].
  assert (digits (Z.pos p) - 1 < 53) by (apply (Z.pow_lt_mono_r_iff 2); lia). unfold fexp64. lia.
Qed.

(** ** The operations *)

Lemma plain_cases x : plain x → units x = 0 ∧ (∃ s, x = S754_zero s) ∨ 0 < units x ∧ ∃ m e, x = S754_finite false m e ∧ plain x
  ∧ units x = Z.pos m * 2 ^ (e + K) ∧ -1074 ≤ e ≤ 971.
Proof.
  destruct x as [s| | |[] m e]; intros H; try done; [left; split; [done|by exists s]|right].
  destruct (plain_finite m e H) as [He _]. pose proof (proj2 H) as He2. cbn [units]. rewrite Z.mul_1_l.
  assert (0 < 2 ^ (e + K)) by lia. split; [lia|]. exists m, e. by split_and!.
Qed.

Lemma near_zero s : near (S754_zero s) 0.
Proof. split; [done|]. cbn. pose proof tiny_pos. lia. Qed.

Lemma fmul_spec x y nx ny : below nx x → below ny y → nx + ny ≤ 1000 →
  ∃ v, v * 2 ^ K = units x * units y ∧ near (fmul x y) v.
Proof.
  intros [Hx Bx] [Hy By] Hn.
  destruct (plain_cases x Hx) as [[Ux [s ->]]|(Px & mx & ex & -> & _ & Ux & Ex)].
  { exists 0. split; [cbn; lia|]. destruct (plain_cases y Hy) as [[_ [s' ->]]|(_ & my & ey & -> & _)]; apply near_zero. }
  destruct (plain_cases y Hy) as [[Uy [s ->]]|(Py & my & ey & -> & _ & Uy & Ey)].
  { exists 0. split; [cbn; lia|]. apply near_zero. }
  destruct (plain_finite _ _ Hx) as (_ & Dx & Dx'), (plain_finite _ _ Hy) as (_ & Dy & Dy').
  rewrite Ux in Bx. rewrite Uy in By. apply top_below in Bx; [|lia|lia]. apply top_below in By; [|lia|lia].
  exists (Z.pos (mx * my) * 2 ^ (ex + ey + K)). split.
  { rewrite Ux, Uy, Pos2Z.inj_mul. replace (Z.pos mx * 2 ^ (ex + K) * (Z.pos my * 2 ^ (ey + K)))
      with (Z.pos mx * Z.pos my * (2 ^ (ex + K) * 2 ^ (ey + K))) by lia.
    rewrite <-Z.mul_assoc, <-!Z.pow_add_r by lia. do 2 f_equal. lia. }
  unfold fmul. cbn [SFmul xorb]. rewrite Pos2Z.inj_mul.
  assert (digits (Z.pos mx) + digits (Z.pos my) - 1 ≤ digits (Z.pos mx * Z.pos my) ≤ digits (Z.pos mx) + digits (Z.pos my)) as [L1 L2].
  { destruct (digits_bounds (Z.pos mx)) as [A1 A2]; [lia|]. destruct (digits_bounds (Z.pos my)) as [B1 B2]; [lia|].
    destruct (digits_bounds (Z.pos mx * Z.pos my)) as [C1 C2]; [lia|].
    pose proof (digits_nonneg (Z.pos mx)) as [_ ?]. pose proof (digits_nonneg (Z.pos my)) as [_ ?].
    pose proof (digits_nonneg (Z.pos mx * Z.pos my)) as [_ ?]. split.
    - assert (2 ^ (digits (Z.pos mx) - 1 + (digits (Z.pos my) - 1)) < 2 ^ digits (Z.pos mx * Z.pos my)) as Hlt by (rewrite Z.pow_add_r by lia; nia).
      apply Z.pow_lt_mono_r_iff in Hlt; lia.
    - assert (2 ^ (digits (Z.pos mx * Z.pos my) - 1) < 2 ^ (digits (Z.pos mx) + digits (Z.pos my))) as Hlt by (rewrite (Z.pow_add_r 2 (digits (Z.pos mx))) by lia; nia).
      apply Z.pow_lt_mono_r_iff in Hlt; lia. }
  pose proof (digits_nonneg (Z.pos mx)) as [_ Px1]. pose proof (digits_nonneg (Z.pos my)) as [_ Py1].
  specialize (Px1 ltac:(lia)). specialize (Py1 ltac:(lia)).
  destruct (round_aux_spec (Z.pos mx * Z.pos my) (ex + ey) loc_Exact) as (H1 & H2 & _); [lia| |lia|lia|].
  { destruct (Z.eq_dec ex (-1074)), (Z.eq_dec ey (-1074)); unfold fexp64; lia. }
  apply near_round; [lia|lia|done|done].
Qed.

(** A quotient that is not too small. *)
Lemma fdiv_spec x y : plain x → plain y → 0 < units y → units x = 0 ∨ units y ≤ units x * 2 ^ 900 →
  units x < 2 ^ (900 + K) → 2 ^ K ≤ units y → ∃ v, v * units y ≤ units x * 2 ^ K ∧ 0 ≤ v ∧ near (fdiv x y) v.
Proof.
  intros Hx Hy Hpos Hsmall Bx By. destruct (plain_cases y Hy) as [[Uy _]|(Py & my & ey & -> & _ & Uy & Ey)]; [lia|].
  destruct (plain_cases x Hx) as [[Ux [s ->]]|(Px & mx & ex & -> & _ & Ux & Ex)].
  { exists 0. split_and!; [lia|done|apply near_zero]. }
  destruct Hsmall as [|Hsmall]; [lia|].
  destruct (plain_finite _ _ Hx) as (_ & Dx & _), (plain_finite _ _ Hy) as (_ & Dy & _).
  destruct (digits_bounds (Z.pos mx)) as [X1 X2]; [lia|]. destruct (digits_bounds (Z.pos my)) as [Y1 Y2]; [lia|].
  pose proof (digits_nonneg (Z.pos mx)) as [_ Px1]. pose proof (digits_nonneg (Z.pos my)) as [_ Py1].
  specialize (Px1 ltac:(lia)). specialize (Py1 ltac:(lia)).
  set (dx := digits (Z.pos mx)) in *. set (dy := digits (Z.pos my)) in *.
  assert (0 < 2 ^ (ex + K)) by lia. assert (0 < 2 ^ (ey + K)) by lia.
  assert (dx + ex ≤ 900) as Tx by (rewrite Ux in Bx; apply (top_below 900); lia).
  assert (0 < dy + ey) as Ty.
  { assert (2 ^ K < 2 ^ (dy + (ey + K))) as Hlt by (rewrite Z.pow_add_r by lia; nia). apply Z.pow_lt_mono_r_iff in Hlt; lia. }
  assert (-902 ≤ dx + ex - (dy + ey)) as Tq.
  { rewrite Ux, Uy in Hsmall. assert (2 ^ (dy - 1 + (ey + K)) < 2 ^ (dx + (ex + K) + 900)) as Hlt.
    { rewrite (Z.pow_add_r 2 (dy - 1)), (Z.pow_add_r 2 (dx + (ex + K))), (Z.pow_add_r 2 dx) by lia. nia. }
    apply Z.pow_lt_mono_r_iff in Hlt; lia. }
  unfold fdiv. cbn [SFdiv xorb]. unfold SFdiv_core_binary. rewrite !Zdigits2_digits, fexp_eq by lia. fold dx dy.
  set (e' := Z.min _ _). assert (e' = dx + ex - (dy + ey) - 53) as Ee by (unfold e', fexp64; lia).
  replace (ex - ey - e') with (53 - dx + dy) by lia. set (s := 53 - dx + dy).
  assert (match s with Z.pos _ => Z.shiftl (Z.pos mx) s | 0 => Z.pos mx | Z.neg _ => 0 end = Z.pos mx * 2 ^ s) as ->.
  { destruct s as [|p|p] eqn:Es; [lia|apply Z.shiftl_mul_pow2; lia|lia]. }
  destruct (Z.div_eucl (Z.pos mx * 2 ^ s) (Z.pos my)) as [q r] eqn:Eq.
  assert (q = Z.pos mx * 2 ^ s / Z.pos my) as -> by (unfold Z.div; by rewrite Eq). clear Eq. set (q := Z.pos mx * 2 ^ s / Z.pos my).
  assert (q * Z.pos my ≤ Z.pos mx * 2 ^ s) as Q1 by (unfold q; rewrite Z.mul_comm; by apply Z.mul_div_le).
  assert (2 ^ 52 ≤ q) as Q2.
  { apply Z.div_le_lower_bound; [done|]. transitivity (2 ^ (dx - 1) * 2 ^ s); [|apply Z.mul_le_mono_nonneg_r; lia].
    rewrite <-Z.pow_add_r by lia. replace (dx - 1 + s) with (dy + 52) by lia. rewrite Z.pow_add_r by lia. nia. }
  assert (53 ≤ digits q ≤ 54) as [G1 G2].
  { split; [change 53 with (digits (2 ^ 52)); by apply digits_mono|]. destruct (digits_bounds q) as [G _]; [lia|].
    assert (2 ^ (digits q - 1) < 2 ^ 54) as Hlt; [|apply Z.pow_lt_mono_r_iff in Hlt; lia].
    assert (q < 2 ^ 54); [|lia]. apply Z.div_lt_upper_bound; [done|].
    assert (Z.pos mx * 2 ^ s < 2 ^ (dx + s)) as H2 by (rewrite Z.pow_add_r by lia; apply Z.mul_lt_mono_pos_r; lia).
    replace (dx + s) with (dy - 1 + 54) in H2 by lia. rewrite Z.pow_add_r in H2 by lia. nia. }
  exists (q * 2 ^ (e' + K)). split_and!.
  - rewrite Ux, Uy. assert (2 ^ s * 2 ^ (e' + K) * 2 ^ (ey + K) = 2 ^ (ex + K) * 2 ^ K) as Epow.
    { rewrite <-!Z.pow_add_r by lia. f_equal. lia. }
    assert (0 < 2 ^ (e' + K)) by lia. assert (0 < 2 ^ (e' + K) * 2 ^ (ey + K)) by nia. nia.
  - assert (0 < 2 ^ (e' + K)) by lia. nia.
  - destruct (round_aux_spec q e' (new_location (Z.pos my) r)) as (H1 & H2 & _); [lia|unfold fexp64; lia|lia|lia|].
    apply near_round; [lia|lia|done|done].
Qed.

(** A sum of aligned mantissas. *)
Lemma normalize_spec v e n : 0 ≤ v → -1074 ≤ e → v * 2 ^ (e + K) < 2 ^ (n + K) → n ≤ 1000 →
  near (binary_normalize 53 1024 v e false) (v * 2 ^ (e + K)).
Proof.
  intros Hv He Hb Hn. destruct v as [|p|p]; [apply near_zero| |lia]. cbn [binary_normalize].
  apply top_below in Hb; [|lia|lia]. apply binary_round_spec; lia.
Qed.

Lemma aligned m e e' : e' ≤ e → -1074 ≤ e' →
  Z.pos (shl_align m e e').1 * 2 ^ (e' + K) = Z.pos m * 2 ^ (e + K).
Proof.
  intros H1 H2. destruct (shl_align_spec m e e') as [-> _]. rewrite <-Z.mul_assoc, <-Z.pow_add_r by lia. do 2 f_equal. lia.
Qed.

Lemma fadd_spec x y n : plain x → plain y → units x + units y < 2 ^ (n + K) → n ≤ 1000 → near (fadd x y) (units x + units y).
Proof.
  intros Hx Hy Hb Hn. destruct (plain_cases x Hx) as [[Ux [s ->]]|(Px & mx & ex & -> & _ & Ux & Ex)].
  { rewrite Ux, Z.add_0_l. destruct (plain_cases y Hy) as [[Uy [s' ->]]|(Py & my & ey & -> & _ & Uy & Ey)].
    - rewrite Uy. unfold fadd. cbn [SFadd]. destruct s, s'; apply near_zero.
    - by apply near_exact. }
  destruct (plain_cases y Hy) as [[Uy [s ->]]|(Py & my & ey & -> & _ & Uy & Ey)].
  { rewrite Uy, Z.add_0_r. by apply near_exact. }
  unfold fadd. cbn [SFadd cond_Zopp]. set (ez := Z.min ex ey).
  pose proof (aligned mx ex ez ltac:(lia) ltac:(lia)) as A. pose proof (aligned my ey ez ltac:(lia) ltac:(lia)) as B.
  assert (units (S754_finite false mx ex) + units (S754_finite false my ey)
    = (Z.pos (shl_align mx ex ez).1 + Z.pos (shl_align my ey ez).1) * 2 ^ (ez + K)) as E by lia.
  rewrite E in *. apply (normalize_spec _ _ n); [lia|lia|done|done].
Qed.

Lemma fsub_spec x y n : plain x → plain y → units y ≤ units x → units x < 2 ^ (n + K) → n ≤ 1000 → near (fsub x y) (units x - units y).
Proof.
  intros Hx Hy Hle Hb Hn. destruct (plain_cases y Hy) as [[Uy [s ->]]|(Py & my & ey & -> & _ & Uy & Ey)].
  { rewrite Uy, Z.sub_0_r. destruct (plain_cases x Hx) as [[Ux [s' ->]]|(Px & mx & ex & -> & _ & Ux & Ex)].
    - rewrite Ux. unfold fsub. cbn [SFsub]. destruct s, s'; apply near_zero.
    - by apply near_exact. }
  destruct (plain_cases x Hx) as [[Ux [s' ->]]|(Px & mx & ex & -> & _ & Ux & Ex)]; [lia|].
  unfold fsub. cbn [SFsub cond_Zopp]. set (ez := Z.min ex ey).
  pose proof (aligned mx ex ez ltac:(lia) ltac:(lia)) as A. pose proof (aligned my ey ez ltac:(lia) ltac:(lia)) as B.
  assert (0 < 2 ^ (ez + K)) by lia.
  assert (units (S754_finite false mx ex) - units (S754_finite false my ey)
    = (Z.pos (shl_align mx ex ez).1 - Z.pos (shl_align my ey ez).1) * 2 ^ (ez + K)) as E by lia.
  rewrite E. apply (normalize_spec _ _ n); [nia|lia|rewrite <-E; lia|done].
Qed.

(** Comparing plain numbers compares their values. *)
Lemma compare_spec x y : plain x → plain y → SFcompare x y = Some (units x ?= units y).
Proof.
  intros Hx Hy. destruct (plain_cases x Hx) as [[Ux [s ->]]|(Px & mx & ex & -> & _ & Ux & Ex)];
    destruct (plain_cases y Hy) as [[Uy [s' ->]]|(Py & my & ey & -> & _ & Uy & Ey)].
  - by rewrite Ux, Uy.
  - cbn [SFcompare]. rewrite Ux. f_equal. symmetry. by apply Z.compare_lt_iff.
  - cbn [SFcompare]. rewrite Uy. f_equal. symmetry. by apply Z.compare_gt_iff.
  - destruct (plain_finite _ _ Hx) as (_ & Dx & Dx'), (plain_finite _ _ Hy) as (_ & Dy & Dy').
    destruct (digits_bounds (Z.pos mx)) as [X1 X2]; [lia|]. destruct (digits_bounds (Z.pos my)) as [Y1 Y2]; [lia|].
    assert (∀ m1 e1 m2 e2, 0 < m1 → digits m1 ≤ 53 → 2 ^ (digits m2 - 1) ≤ m2 → digits m2 = 53 → -1074 ≤ e1 < e2 →
      m1 * 2 ^ (e1 + K) < m2 * 2 ^ (e2 + K)) as Hord.
    { intros m1 e1 m2 e2 Hm1 H1 H2 H3 H4. rewrite H3 in H2. pose proof (digits_bounds m1 Hm1) as [_ Hb1].
      assert (2 ^ digits m1 ≤ 2 ^ 53) by (apply Z.pow_le_mono_r; lia).
      replace (e2 + K) with (1 + (e2 - e1 - 1) + (e1 + K)) by lia.
      rewrite (Z.pow_add_r 2 (1 + (e2 - e1 - 1))), (Z.pow_add_r 2 1) by lia.
      assert (0 < 2 ^ (e1 + K)) by lia. assert (1 ≤ 2 ^ (e2 - e1 - 1)) by lia. change (2 ^ 1) with 2.
      change (2 ^ 53) with (2 * 2 ^ (53 - 1)) in *. assert (m1 < m2 * (2 * 2 ^ (e2 - e1 - 1))) by nia. nia. }
    cbn [SFcompare]. rewrite Ux, Uy. f_equal. destruct (Z.compare_spec ex ey) as [->|Hlt|Hgt].
    + change (Pos.compare_cont Eq mx my) with (Z.pos mx ?= Z.pos my). assert (0 < 2 ^ (ey + K)) by lia.
      destruct (Z.compare_spec (Z.pos mx) (Z.pos my)) as [->|E|E]; symmetry; [apply Z.compare_refl|apply Z.compare_lt_iff|apply Z.compare_gt_iff]; nia.
    + symmetry. apply Z.compare_lt_iff. apply Hord; [lia|lia|done|apply Dy'; lia|lia].
    + symmetry. apply Z.compare_gt_iff. apply Hord; [lia|lia|done|apply Dx'; lia|lia].
Qed.

Lemma leb_spec x y : plain x → plain y → SFleb x y = (units x <=? units y).
Proof. intros Hx Hy. unfold SFleb. rewrite compare_spec by done. unfold Z.leb. by destruct (_ ?= _). Qed.

Lemma ltb_spec x y : plain x → plain y → SFltb x y = (units x <? units y).
Proof. intros Hx Hy. unfold SFltb. rewrite compare_spec by done. unfold Z.ltb. by destruct (_ ?= _). Qed.
End values.
