(* ===== verification/Limiter.v ===== *)
(** * The bandwidth limiter (internal/download/limiter.go)

    The token bucket, with its float64 arithmetic as it is rounded.  A critical
    section of [WaitN] is an [attempt]; the attempts of several workers follow
    one another in any order. *)

From Stdlib Require Import ZArith Lia SpecFloat.
From stdpp Require Import base list numbers pretty.
From S2P Require Import Prelude GoErrors Float64.

(** Times are nanoseconds; 0 is Go's zero time. *)
Record BandwidthLimiter := mkLimiter { rate : Z; burst : float64; tokens : float64; last_refill : Z }.

#[export] Instance BandwidthLimiter_eta : Eta BandwidthLimiter := λ l,
  mkLimiter (rate l) (burst l) (tokens l) (last_refill l).

Definition maxBurst : Z := Z.shiftl 1 20.

Definition bounded_rate (rate : Z) : Z := if rate <? 0 then 0 else rate.
Definition burst_of (rate : Z) : float64 :=
  let burst := of_int rate in
  let burst := if SFltb burst (of_int 1) then of_int 1 else burst in
  if SFltb (of_int maxBurst) burst then of_int maxBurst else burst.

Definition NewBandwidthLimiter (rate now : Z) : BandwidthLimiter :=
  let rate := bounded_rate rate in
  mkLimiter rate (burst_of rate) (burst_of rate) now.

(** The tokens of the time since the last refill; [now.Sub(last)] saturates. *)
Definition refillLocked (now : Z) (l : BandwidthLimiter) : BandwidthLimiter :=
  if last_refill l =? 0 then l <| last_refill := now |>
  else if now <? last_refill l then l <| last_refill := now |>
  else
    let l :=
      if 0 <? rate l then
        let filled := fadd (tokens l) (fmul (Seconds (Z.min (now - last_refill l) int64_max)) (of_int (rate l))) in
        l <| tokens := if SFltb (burst l) filled then burst l else filled |>
      else l in
    l <| last_refill := now |>.

Definition SetRate (new now : Z) (l : BandwidthLimiter) : BandwidthLimiter :=
  let l := refillLocked now l <| rate := bounded_rate new |> <| burst := burst_of (bounded_rate new) |> in
  if SFltb (burst l) (tokens l) then l <| tokens := burst l |> else l.

(** [math.Min] of two numbers. *)
Definition fmin (x y : float64) : float64 := if SFltb x y then x else y.

Inductive outcome := Unlimited | Granted (n : Z) | MustWait (wait : Z).

(** One turn of the loop of [WaitN] up to the unlocking. *)
Definition attempt (now remaining : Z) (l : BandwidthLimiter) : BandwidthLimiter * outcome :=
  let l := refillLocked now l in
  if rate l <=? 0 then (l, Unlimited)
  else
    let request := fmin (burst l) (of_int remaining) in
    if SFleb request (tokens l) then (l <| tokens := fsub (tokens l) request |>, Granted (to_int request))
    else
      let deficit := fsub request (tokens l) in
      let wait := to_int (fmul (fdiv deficit (of_int (rate l))) (of_int Second)) in
      (l, MustWait (if wait <? Microsecond then Microsecond else wait)).

(** A turn has a reading of the clock, what the other workers did before it, and
    whether the context ends while it waits.  [None]: the turns are used up. *)
Record turn := mkTurn { tn_now : Z; tn_others : BandwidthLimiter → BandwidthLimiter; tn_ctx : option error }.

Fixpoint WaitN_loop (turns : list turn) (remaining : Z) (l : BandwidthLimiter) : BandwidthLimiter * Z * option (result error ()) :=
  if remaining <=? 0 then (l, remaining, Some (Ok ()))
  else
    match turns with
    | [] => (l, remaining, None)
    | t :: turns =>
        match attempt (tn_now t) remaining (tn_others t l) with
        | (l, Unlimited) => (l, remaining, Some (Ok ()))
        | (l, Granted n) => WaitN_loop turns (remaining - n) l
        | (l, MustWait _) =>
            match tn_ctx t with
            | Some e => (l, remaining, Some (Err e))
            | None => WaitN_loop turns remaining l
            end
        end
    end.
Definition WaitN (turns : list turn) (n : Z) (l : BandwidthLimiter) : BandwidthLimiter * Z * option (result error ()) :=
  if n <=? 0 then (l, 0, Some (Ok ())) else WaitN_loop turns n l.

(** The attempts of all workers, by clock and by what each still has to get,
    with the bytes granted. *)
Fixpoint attempts (l : BandwidthLimiter) (ts : list (Z * Z)) : BandwidthLimiter * Z :=
  match ts with
  | [] => (l, 0)
  | (now, remaining) :: ts =>
      let (l, o) := attempt now remaining l in
      let (l, granted) := attempts l ts in
      (l, granted + match o with Granted n => n | _ => 0 end)
  end.

(** At 1000 bytes a second a second brings exactly 1000 tokens. *)
Example refilled :
  let l := (attempt 5 1000 (NewBandwidthLimiter 1000 5)).1 in
  (attempt 5 500 l).2 = MustWait (Second / 2) ∧ (attempt (5 + Second) 1000 l).2 = Granted 1000.
Proof. vm_compute. by split. Qed.

(** ** What an attempt adds and takes *)

Section bounds.
Context (K : Z) (HK : 4000 ≤ K).

Local Notation "'one'" := (2 ^ K).

Lemma one_pos : 0 < one.
Proof. lia. Qed.

Lemma tiny_small : 2 ^ 900 * tiny K ≤ one.
Proof. unfold tiny. rewrite <-Z.pow_add_r by lia. apply Z.pow_le_mono_r; lia. Qed.

Lemma of_int_exact z : 0 ≤ z < 2 ^ 53 → plain (of_int z) ∧ units K (of_int z) = z * one.
Proof.
  intros [H1 H2]. assert (digits z ≤ 1000) as Hd.
  { transitivity (digits (2 ^ 53)); [apply digits_mono; lia|]. by vm_compute. }
  destruct (of_int_spec K HK z H1 Hd) as ([Hp _] & He & _). split; [done|by apply He].
Qed.

Lemma digits_int64 z : z ≤ int64_max → digits z ≤ 63.
Proof. intros H. transitivity (digits int64_max); [by apply digits_mono|]. by vm_compute. Qed.

Lemma of_int_bound z : 0 ≤ z ≤ int64_max → plain (of_int z) ∧ 2 ^ 52 * units K (of_int z) ≤ (2 ^ 52 + 2) * z * one
  ∧ (0 < z → 2 ^ (digits z - 1 + K) ≤ units K (of_int z)).
Proof.
  intros [H1 H2]. pose proof (digits_int64 z H2). destruct (of_int_spec K HK z H1) as ([Hp Hn] & Hs & Hl); [lia|].
  split; [done|]. split; [|done]. destruct (Z.eq_dec z 0) as [->|Hz]; [rewrite (Hs ltac:(lia)); lia|].
  pose proof tiny_small. pose proof (tiny_pos K HK). assert (one ≤ z * one) by (pose proof one_pos; nia). lia.
Qed.

Lemma below_of x n v : plain x → units K x ≤ v → v < 2 ^ (n + K) → below K n x.
Proof. intros Hp H1 H2. split; [done|lia]. Qed.

(** Seconds of a duration. *)
Lemma Seconds_bound d : 0 ≤ d ≤ int64_max →
  plain (Seconds d) ∧ 10 ^ 9 * 2 ^ 104 * units K (Seconds d) ≤ (2 ^ 52 + 1) ^ 2 * d * one + 3 * 10 ^ 9 * 2 ^ 104 * tiny K.
Proof.
  intros [Hd1 Hd2]. unfold Seconds. pose proof one_pos as Hone. pose proof (tiny_pos K HK) as Htiny. pose proof tiny_small as Hts.
  assert (Second = 10 ^ 9) as Es by done. set (s := d `quot` Second). set (ns := d `rem` Second).
  assert (d = 10 ^ 9 * s + ns ∧ 0 ≤ s < 2 ^ 53 ∧ 0 ≤ ns < 10 ^ 9) as (Ed & Hs & Hns).
  { pose proof (Z.quot_rem' d Second). pose proof (Z.rem_bound_pos d Second ltac:(lia) ltac:(lia)). unfold int64_max in Hd2. fold s ns in H, H0. lia. }
  clearbody s ns.
  destruct (of_int_exact s Hs) as [P1 U1]. destruct (of_int_exact ns ltac:(lia)) as [P2 U2].
  destruct (of_int_exact Second ltac:(rewrite Es; lia)) as [P3 U3]. rewrite Es in U3 at 2.
  assert (one * 2 ^ 40 = 2 ^ (40 + K)) as E40 by (rewrite Z.pow_add_r by lia; lia).
  assert (2 ^ (40 + K) ≤ 2 ^ (900 + K)) by (apply Z.pow_le_mono_r; lia).
  destruct (fdiv_spec K HK (of_int ns) (of_int Second)) as (v & V1 & V2 & [P4 N4]); [done|done|lia| |nia|nia|].
  { rewrite U2, U3. destruct (Z.eq_dec ns 0) as [->|]; [left; lia|right]. change (2 ^ 900) with (2 ^ 40 * 2 ^ 860).
    assert (1 ≤ 2 ^ 860) by lia. nia. }
  rewrite U2, U3 in V1. assert (v * 10 ^ 9 ≤ ns * one) as Hv by nia.
  destruct (fadd_spec K HK (of_int s) (fdiv (of_int ns) (of_int Second)) 900) as [P5 N5]; [done|done| |lia|].
  { rewrite U1. assert (v < 2 ^ 2 * one) by nia. assert (units K (fdiv (of_int ns) (of_int Second)) ≤ 2 ^ 4 * one) by lia.
    assert (s * one ≤ 2 ^ 53 * one) by nia. assert (2 ^ 60 * one = 2 ^ (60 + K)) as E60 by (rewrite Z.pow_add_r by lia; lia).
    assert (2 ^ (60 + K) ≤ 2 ^ (900 + K)) by (apply Z.pow_le_mono_r; lia). lia. }
  split; [done|]. rewrite U1 in N5. set (u4 := units K (fdiv _ _)) in *. set (u5 := units K (fadd _ _)) in *. clearbody u4 u5. rewrite Ed. lia.
Qed.

(** The tokens a refill brings, before the bucket is full. *)
Lemma gain_bound r d : 0 < r ≤ int64_max → 0 ≤ d ≤ int64_max →
  plain (fmul (Seconds d) (of_int r))
  ∧ 10 ^ 9 * 2 ^ 49 * units K (fmul (Seconds d) (of_int r)) ≤ (2 ^ 49 + 1) * d * r * one + one.
Proof.
  intros Hr Hd. pose proof one_pos as Hone. pose proof (tiny_pos K HK) as Htiny. pose proof tiny_small as Hts.
  destruct (Seconds_bound d Hd) as [P1 N1]. destruct (of_int_bound r ltac:(lia)) as (P2 & N2 & _).
  set (us := units K (Seconds d)) in *. set (ur := units K (of_int r)) in *.
  assert (0 ≤ us) by (by apply plain_units). assert (0 ≤ ur) by (by apply plain_units).
  assert (one * 2 ^ 60 = 2 ^ (60 + K)) as E60 by (rewrite Z.pow_add_r by lia; lia).
  assert (one * 2 ^ 70 = 2 ^ (70 + K)) as E70 by (rewrite Z.pow_add_r by lia; lia).
  assert (d * one ≤ int64_max * one ∧ r * one ≤ int64_max * one) as [Ld Lr] by nia. unfold int64_max in *.
  destruct (fmul_spec K HK (Seconds d) (of_int r) 60 70) as (v & V & [P3 N3]); [split; [done|fold us; lia]|split; [done|fold ur; lia]|lia|].
  fold us ur in V. split; [done|]. set (ug := units K (fmul _ _)) in *. clearbody us ur ug.
  assert (10 ^ 9 * 2 ^ 104 * us * (2 ^ 52 * ur) ≤ ((2 ^ 52 + 1) ^ 2 * d * one + 3 * 10 ^ 9 * 2 ^ 104 * tiny K) * ((2 ^ 52 + 2) * r * one)) as Hprod
    by (apply Z.mul_le_mono_nonneg; lia).
  assert (10 ^ 9 * 2 ^ 156 * v ≤ (2 ^ 52 + 1) ^ 2 * (2 ^ 52 + 2) * (d * r * one) + 3 * 10 ^ 9 * 2 ^ 104 * (2 ^ 52 + 2) * (r * tiny K)) as Hv.
  { apply (Z.mul_le_mono_pos_r _ _ one); [done|]. replace (10 ^ 9 * 2 ^ 156 * v * one) with (10 ^ 9 * 2 ^ 156 * (us * ur)) by (rewrite <-V; lia). lia. }
  assert (r * tiny K ≤ 2 ^ 63 * tiny K) by nia. replace ((2 ^ 49 + 1) * d * r * one) with ((2 ^ 49 + 1) * (d * r * one)) by lia.
  assert (0 ≤ d * r * one) by nia. set (X := d * r * one) in *. set (Y := r * tiny K) in *. clearbody X Y. clear Hprod V E60 E70. lia.
Qed.

(** ** The bucket *)

Definition burst_bytes (r : Z) : Z := Z.max 1 (Z.min r maxBurst).

Lemma maxBurst_eq : maxBurst = 2 ^ 20.
Proof. done. Qed.

Lemma large_int z : 2 ^ 53 ≤ z ≤ int64_max → 2 ^ 53 * one ≤ units K (of_int z).
Proof.
  intros [H1 H2]. destruct (of_int_bound z ltac:(lia)) as (_ & _ & Hl). specialize (Hl ltac:(lia)).
  assert (54 ≤ digits z) as Hd by (change 54 with (digits (2 ^ 53)); by apply digits_mono).
  assert (2 ^ (53 + K) ≤ 2 ^ (digits z - 1 + K)) by (apply Z.pow_le_mono_r; lia). rewrite (Z.pow_add_r 2 53) in H by lia. lia.
Qed.

Lemma burst_of_spec r : 0 ≤ r ≤ int64_max → plain (burst_of r) ∧ units K (burst_of r) = burst_bytes r * one.
Proof.
  intros Hr. unfold burst_of, burst_bytes. rewrite maxBurst_eq. pose proof one_pos.
  destruct (of_int_exact 1 ltac:(lia)) as [P1 U1]. destruct (of_int_exact (2 ^ 20) ltac:(lia)) as [P2 U2].
  destruct (of_int_bound r Hr) as (P3 & _ & _). rewrite (ltb_spec K HK (of_int r)) by done. rewrite U1.
  assert ((r < 2 ^ 53 ∧ units K (of_int r) = r * one) ∨ (2 ^ 53 ≤ r ∧ 2 ^ 53 * one ≤ units K (of_int r))) as Hcase.
  { destruct (Z.lt_ge_cases r (2 ^ 53)); [left; split; [done|]; apply of_int_exact; lia|right; split; [done|apply large_int; lia]]. }
  set (ur := units K (of_int r)) in *. destruct (ur <? 1 * one) eqn:E1; bool_to_prop.
  - rewrite (ltb_spec K HK), U1, U2 by done. rewrite (proj2 (Z.ltb_ge _ _)) by lia. split; [done|]. rewrite U1.
    assert (r = 0) by nia. rewrite Z.max_l by lia. lia.
  - rewrite (ltb_spec K HK), U2 by done. fold ur. destruct (2 ^ 20 * one <? ur) eqn:E2; bool_to_prop.
    + split; [done|]. rewrite U2. assert (2 ^ 20 < r) by nia. lia.
    + split; [done|]. fold ur. destruct Hcase as [[_ ->]|[_ H3]]; [|lia]. assert (1 ≤ r ≤ 2 ^ 20) by nia. f_equal. lia.
Qed.

Lemma to_int_spec x z : plain x → units K x = z * one → to_int x = z.
Proof.
  intros Hp Hu. pose proof one_pos. destruct (plain_cases K HK x Hp) as [[U [s ->]]|(P & m & e & -> & _ & U & E)]; [cbn; nia|].
  rewrite U in Hu. cbn [to_int]. destruct (0 <=? e) eqn:Ee; bool_to_prop.
  - rewrite Z.pow_add_r in Hu by lia. nia.
  - assert (one = 2 ^ (- e) * 2 ^ (e + K)) as Eo by (rewrite <-Z.pow_add_r by lia; f_equal; lia).
    assert (0 < 2 ^ (e + K)) by lia. assert (Z.pos m = z * 2 ^ (- e)) as -> by (rewrite Eo in Hu; nia). apply Z.div_mul. lia.
Qed.

Lemma request_spec r n : 0 < r ≤ int64_max → 0 < n ≤ int64_max →
  let request := fmin (burst_of r) (of_int n) in
  plain request ∧ units K request = Z.min (burst_bytes r) n * one ∧ to_int request = Z.min (burst_bytes r) n.
Proof.
  intros Hr Hn. cbv zeta. pose proof one_pos. destruct (burst_of_spec r ltac:(lia)) as [P1 U1].
  destruct (of_int_bound n ltac:(lia)) as (P2 & _ & _).
  assert (burst_bytes r ≤ 2 ^ 20) as HB by (unfold burst_bytes; rewrite maxBurst_eq; lia).
  assert (plain (fmin (burst_of r) (of_int n)) ∧ units K (fmin (burst_of r) (of_int n)) = Z.min (burst_bytes r) n * one) as [P U].
  { unfold fmin. rewrite (ltb_spec K HK), U1 by done. destruct (Z.lt_ge_cases n (2 ^ 53)) as [Hs|Hl].
    - destruct (of_int_exact n ltac:(lia)) as [_ U2]. rewrite U2. destruct (_ <? _) eqn:E; bool_to_prop; (split; [done|]).
      + rewrite U1. f_equal. nia.
      + rewrite U2. f_equal. nia.
    - pose proof (large_int n ltac:(lia)). rewrite (proj2 (Z.ltb_lt _ _)) by nia. split; [done|]. rewrite U1. f_equal. lia. }
  split; [done|]. split; [done|]. by apply to_int_spec.
Qed.

Record good (r : Z) (l : BandwidthLimiter) : Prop := {
  gd_rate : rate l = r;
  gd_burst : burst l = burst_of r;
  gd_tokens : plain (tokens l);
  gd_full : units K (tokens l) ≤ burst_bytes r * one;
  gd_last : 0 < last_refill l }.

Lemma refill_spec r l now : 0 < r ≤ int64_max → good r l → last_refill l ≤ now →
  let l' := refillLocked now l in
  good r l' ∧ last_refill l' = now
  ∧ 2 ^ 40 * 10 ^ 9 * units K (tokens l') ≤ 2 ^ 40 * 10 ^ 9 * units K (tokens l) + (2 ^ 40 + 1) * (r * (now - last_refill l) * one) + 2 ^ 9 * 10 ^ 9 * one.
Proof.
  intros Hr [G1 G2 G3 G4 G5] Hnow. cbv zeta. pose proof one_pos as Hone. pose proof (tiny_pos K HK) as Htiny. pose proof tiny_small as Hts.
  unfold refillLocked. rewrite (proj2 (Z.eqb_neq _ _)), (proj2 (Z.ltb_ge now _)) by lia. rewrite G1, (proj2 (Z.ltb_lt 0 r)) by lia.
  set (d := Z.min (now - last_refill l) int64_max). destruct (gain_bound r d) as [P1 N1]; [done|unfold d, int64_max in *; lia|].
  set (g := fmul (Seconds d) (of_int r)) in *. set (ug := units K g) in *.
  destruct (burst_of_spec r ltac:(lia)) as [PB UB].
  assert (burst_bytes r ≤ 2 ^ 20) as HB by (unfold burst_bytes; rewrite maxBurst_eq; lia).
  assert (units K (tokens l) ≤ 2 ^ 20 * one) as HT by nia. assert (0 ≤ units K (tokens l)) as HT0 by (by apply plain_units).
  assert (0 ≤ d ≤ 2 ^ 63 ∧ d ≤ now - last_refill l) as [Hd Hdn] by (unfold d, int64_max; lia).
  assert (0 ≤ ug) by (by apply plain_units).
  assert (d * r ≤ r * (now - last_refill l)) as Hdr by nia. assert (0 ≤ d * r ≤ 2 ^ 126) as Hdr2 by (unfold int64_max in Hr; nia).
  assert ((2 ^ 49 + 1) * d * r * one = (2 ^ 49 + 1) * (d * r * one)) as Ex by lia. rewrite Ex in N1.
  assert (d * r * one ≤ 2 ^ 126 * one) as Hx by nia. assert (d * r * one ≤ r * (now - last_refill l) * one) as Hx2 by nia.
  assert (one * 2 ^ 140 = 2 ^ (140 + K)) as E140 by (rewrite Z.pow_add_r by lia; lia).
  destruct (fadd_spec K HK (tokens l) g 140) as [P2 N2]; [done|done|fold ug; lia|lia|]. fold ug in N2. clear Ex.
  assert (2 ^ 40 * 10 ^ 9 * units K (fadd (tokens l) g) ≤ 2 ^ 40 * 10 ^ 9 * units K (tokens l) + (2 ^ 40 + 1) * (r * (now - last_refill l) * one) + 2 ^ 9 * 10 ^ 9 * one) as N3.
  { set (X := d * r * one) in *. set (Y := r * (now - last_refill l) * one) in *. set (ut := units K (tokens l)) in *.
    set (us := units K (fadd _ _)) in *. clearbody X Y ut us ug. clear - N1 N2 Hx2 HT HT0 Hone Hts Htiny H HB. lia. }
  rewrite G2, (ltb_spec K HK), UB by done. destruct (_ <? _) eqn:Ef; bool_to_prop.
  - split; [split; cbn; try done; [by rewrite UB|lia]|]. split; [done|]. cbn. rewrite UB. lia.
  - split; [split; cbn; try done; lia|]. split; [done|]. cbn. lia.
Qed.

(** One attempt of a limited bucket. *)
Lemma attempt_spec r l now n l' o : 0 < r ≤ int64_max → good r l → last_refill l ≤ now → 0 < n ≤ int64_max → attempt now n l = (l', o) →
  good r l' ∧ last_refill l' = now
  ∧ match o with
    | Unlimited => False
    | Granted g => g = Z.min (burst_bytes r) n
    | MustWait w => Microsecond ≤ w
    end
  ∧ 2 ^ 30 * 10 ^ 9 * (match o with Granted g => g | _ => 0 end * one + units K (tokens l'))
      ≤ 2 ^ 30 * 10 ^ 9 * units K (tokens l) + (2 ^ 30 + 1) * (r * (now - last_refill l) * one) + 10 ^ 9 * one.
Proof.
  intros Hr Hg Hnow Hn H. destruct (refill_spec r l now Hr Hg Hnow) as ([G1 G2 G3 G4 G5] & L1 & N1). unfold attempt in H.
  pose proof one_pos as Hone. pose proof (tiny_pos K HK) as Htiny. pose proof tiny_small as Hts.
  set (l1 := refillLocked now l) in *. rewrite G1, (proj2 (Z.leb_gt r 0)) in H by lia. rewrite G2 in H.
  destruct (request_spec r n Hr Hn) as (P1 & U1 & I1). set (req := fmin _ _) in *.
  assert (1 ≤ burst_bytes r ≤ 2 ^ 20) as HB by (unfold burst_bytes; rewrite maxBurst_eq; lia).
  assert (0 ≤ r * (now - last_refill l) * one) as HX by (apply Z.mul_nonneg_nonneg; [apply Z.mul_nonneg_nonneg; lia|lia]).
  set (X := r * (now - last_refill l) * one) in *.
  assert (0 ≤ units K (tokens l1)) as HT0 by (by apply plain_units). assert (units K (tokens l1) ≤ 2 ^ 20 * one) as HT by nia.
  rewrite (leb_spec K HK) in H by done. destruct (_ <=? _) eqn:El; bool_to_prop; injection H as <- <-.
  - rewrite U1 in El. assert (one * 2 ^ 40 = 2 ^ (40 + K)) as E40 by (rewrite Z.pow_add_r by lia; lia).
    destruct (fsub_spec K HK (tokens l1) req 40) as [P2 N2]; [done|done|lia|lia|lia|]. rewrite U1 in N2. rewrite I1.
    set (q := Z.min (burst_bytes r) n) in *. assert (1 ≤ q) as Hq by lia. assert (one ≤ q * one) as Hq2 by nia.
    assert (units K (fsub (tokens l1) req) ≤ burst_bytes r * one) as Hfull.
    { set (us := units K (fsub _ _)) in *. set (qo := q * one) in *. set (bo := burst_bytes r * one) in *. set (ut := units K (tokens l1)) in *.
      clearbody us ut qo bo. clear - N2 HT Hone Hts Htiny Hq2 G4. lia. }
    assert (2 ^ 30 * 10 ^ 9 * (q * one + units K (fsub (tokens l1) req)) ≤ 2 ^ 30 * 10 ^ 9 * units K (tokens l) + (2 ^ 30 + 1) * X + 10 ^ 9 * one) as Hpot.
    { set (us := units K (fsub _ _)) in *. set (qo := q * one) in *. set (ut := units K (tokens l1)) in *.
      clearbody us ut qo X. clear - N1 N2 HT Hone Hts Htiny HX Hq2. lia. }
    split; [exact (Build_good r (mkLimiter (rate l1) (burst l1) (fsub (tokens l1) req) (last_refill l1)) G1 G2 P2 Hfull G5)|]. split; [exact L1|]. split; [done|exact Hpot].
  - split; [exact (Build_good r l1 G1 G2 G3 G4 G5)|]. split; [exact L1|]. split; [case_match; bool_to_prop; lia|].
    set (ut := units K (tokens l1)) in *. clearbody ut X. clear - N1 Hone HX. lia.
Qed.

(** ** Many attempts *)

Fixpoint in_order (t : Z) (ts : list (Z * Z)) : Prop :=
  match ts with
  | [] => True
  | (now, n) :: ts => t ≤ now ∧ 0 < n ≤ int64_max ∧ in_order now ts
  end.

Lemma attempts_spec r ts l l' total : 0 < r ≤ int64_max → good r l → in_order (last_refill l) ts → attempts l ts = (l', total) →
  good r l' ∧ last_refill l ≤ last_refill l'
  ∧ 2 ^ 30 * 10 ^ 9 * (total * one + units K (tokens l'))
      ≤ 2 ^ 30 * 10 ^ 9 * units K (tokens l) + (2 ^ 30 + 1) * (r * (last_refill l' - last_refill l) * one) + 10 ^ 9 * Z.of_nat (length ts) * one.
Proof.
  intros Hr. revert l l' total. induction ts as [|[now n] ts IH]; intros l l' total Hg Ho H; cbn [attempts] in H.
  { injection H as <- <-. split; [done|]. split; [lia|]. rewrite Z.sub_diag, Z.mul_0_r. cbn [length Z.of_nat]. lia. }
  destruct Ho as (Hnow & Hn & Ho). destruct (attempt now n l) as [l1 o] eqn:E1.
  destruct (attempt_spec r l now n l1 o Hr Hg Hnow Hn E1) as (Hg1 & L1 & _ & N1). rewrite <-L1 in Ho.
  destruct (attempts l1 ts) as [l2 total1] eqn:E2. injection H as <- <-. destruct (IH l1 l2 total1 Hg1 Ho E2) as (Hg2 & L2 & N2).
  split; [done|]. split; [lia|]. cbn [length]. rewrite Nat2Z.inj_succ.
  set (g := match o with Granted g => g | _ => 0 end) in *. rewrite <-L1 in N1.
  replace (r * (last_refill l2 - last_refill l) * one) with (r * (last_refill l2 - last_refill l1) * one + r * (last_refill l1 - last_refill l) * one) by lia. lia.
Qed.

Lemma new_good r t0 : 0 < r ≤ int64_max → 0 < t0 → good r (NewBandwidthLimiter r t0) ∧ units K (tokens (NewBandwidthLimiter r t0)) = burst_bytes r * one.
Proof.
  intros Hr Ht. unfold NewBandwidthLimiter, bounded_rate. rewrite (proj2 (Z.ltb_ge r 0)) by lia.
  destruct (burst_of_spec r ltac:(lia)) as [P U]. split; [|exact U]. split; cbn [rate burst tokens last_refill]; [done..|rewrite U; lia|done].
Qed.

Lemma attempts_bounded r t0 ts l' total : 0 < r ≤ int64_max → 0 < t0 → in_order t0 ts → attempts (NewBandwidthLimiter r t0) ts = (l', total) →
  2 ^ 30 * 10 ^ 9 * total ≤ 2 ^ 30 * 10 ^ 9 * burst_bytes r + (2 ^ 30 + 1) * (r * (last_refill l' - t0)) + 10 ^ 9 * Z.of_nat (length ts).
Proof.
  intros Hr Ht Ho H. destruct (new_good r t0 Hr Ht) as [Hg Hu]. pose proof one_pos as Hone.
  destruct (attempts_spec r ts _ l' total Hr Hg Ho H) as ([_ _ P _ _] & _ & N). rewrite Hu in N. cbn [last_refill NewBandwidthLimiter] in N.
  pose proof (plain_units K HK _ P). apply (Z.mul_le_mono_pos_r _ _ one); [done|]. lia.
Qed.

(** The bucket of a rate, however full. *)
Definition limited (r : Z) (l : BandwidthLimiter) : Prop := rate l = r ∧ burst l = burst_of r.

Lemma attempt_limited r l now n l' o : 0 < r ≤ int64_max → limited r l → 0 < n ≤ int64_max → attempt now n l = (l', o) →
  limited r l' ∧ match o with Unlimited => False | Granted g => 1 ≤ g ≤ n ∧ g ≤ maxBurst | MustWait w => Microsecond ≤ w end.
Proof.
  intros Hr [L1 L2] Hn H. unfold attempt in H.
  assert (rate (refillLocked now l) = r ∧ burst (refillLocked now l) = burst_of r) as [E1 E2] by (unfold refillLocked; repeat case_match; done).
  rewrite E1, (proj2 (Z.leb_gt r 0)), E2 in H by lia. destruct (request_spec r n Hr Hn) as (_ & _ & I).
  assert (1 ≤ burst_bytes r ≤ maxBurst) by (unfold burst_bytes; rewrite maxBurst_eq; lia).
  destruct (SFleb _ _); injection H as <- <-; (split; [by split|]); [rewrite I; lia|]. case_match; bool_to_prop; lia.
Qed.

Lemma WaitN_loop_spec r turns n l l' left status : 0 < r ≤ int64_max → limited r l → 0 ≤ n ≤ int64_max →
  Forall (λ t, ∀ l, limited r l → limited r (tn_others t l)) turns →
  WaitN_loop turns n l = (l', left, status) →
  left ≤ n ∧ match status with
             | None => 0 < left
             | Some (Ok _) => left = 0
             | Some (Err e) => 0 < left ∧ Exists (λ t, tn_ctx t = Some e) turns
             end.
Proof.
  intros Hr. revert n l. induction turns as [|t turns IH]; intros n l Hl Hn Ho H; cbn [WaitN_loop] in H.
  { destruct (n <=? 0) eqn:E; bool_to_prop; injection H as <- <- <-; split; lia. }
  destruct (n <=? 0) eqn:E; bool_to_prop; [injection H as <- <- <-; split; lia|]. apply Forall_cons in Ho as [Ho1 Ho2].
  destruct (attempt _ n _) as [l1 o] eqn:E1. destruct (attempt_limited r _ _ n l1 o Hr (Ho1 l Hl) ltac:(lia) E1) as [Hl1 Hres].
  destruct o as [|g|w]; [done| |].
  - destruct (IH (n - g) l1 Hl1 ltac:(lia) Ho2 H) as [I1 I2]. split; [lia|]. destruct status as [[[]|e]|]; [done| |done].
    destruct I2. split; [done|by right].
  - destruct (tn_ctx t) as [e|] eqn:Et.
    + injection H as <- <- <-. split; [lia|]. split; [lia|by left].
    + destruct (IH n l1 Hl1 ltac:(lia) Ho2 H) as [I1 I2]. split; [done|]. destruct status as [[[]|e]|]; [done| |done].
      destruct I2. split; [done|by right].
Qed.
End bounds.

(** C19: However the attempts of the workers follow one another, what a limiter
    grants in all is at most its burst, of at most 1 MiB, and the rate times the
    time that has passed, with one part in 2^30 and a 2^30th of a byte an attempt
    for the rounding of float64.  A wait for [n] bytes that returns without error
    was granted exactly [n], and otherwise reports the end of its context. *)
Theorem bandwidth_bounded r t0 ts l total turns n l' left status :
  0 < r ≤ int64_max → 0 < t0 → in_order t0 ts → attempts (NewBandwidthLimiter r t0) ts = (l, total) →
  0 < n ≤ int64_max → Forall (λ t, ∀ l, limited r l → limited r (tn_others t l)) turns →
  WaitN turns n (NewBandwidthLimiter r t0) = (l', left, status) →
  2 ^ 30 * 10 ^ 9 * total ≤ 2 ^ 30 * 10 ^ 9 * burst_bytes r + (2 ^ 30 + 1) * (r * (last_refill l - t0)) + 10 ^ 9 * Z.of_nat (length ts)
  ∧ burst_bytes r ≤ 2 ^ 20 ∧ left ≤ n
  ∧ match status with
    | None => 0 < left
    | Some (Ok _) => left = 0
    | Some (Err e) => 0 < left ∧ Exists (λ t, tn_ctx t = Some e) turns
    end.
Proof.
  intros Hr Ht Ho Ha Hn Hothers Hw. split; [by eapply (attempts_bounded 4000)|]. split; [unfold burst_bytes; rewrite maxBurst_eq; lia|].
  unfold WaitN in Hw. rewrite (proj2 (Z.leb_gt n 0)) in Hw by lia.
  apply (WaitN_loop_spec 4000 ltac:(lia) r turns n (NewBandwidthLimiter r t0) l'); [done| |lia|done|done].
  destruct (new_good 4000 ltac:(lia) r t0 Hr Ht) as [[G1 G2 _ _ _] _]. by split.
Qed.

(** A worker that waits for 3000 bytes while another takes 500 in between. *)
Definition sample_attempts : list (Z * Z) := [(5, 3000); (5, 500); (6 + Second, 2000); (7 + 2 * Second, 1000)].
Definition sample_turns : list turn := [mkTurn 5 id None; mkTurn (5 + Second) (λ l, (attempt (5 + Second) 500 l).1) None; mkTurn (5 + Second) id (Some (New "context canceled"))].

Lemma bandwidth_bounded_witness :
  2 ^ 30 * 10 ^ 9 * (attempts (NewBandwidthLimiter 1000 5) sample_attempts).2
    ≤ 2 ^ 30 * 10 ^ 9 * 1000 + (2 ^ 30 + 1) * (1000 * (2 + 2 * Second)) + 10 ^ 9 * 4
  ∧ (attempts (NewBandwidthLimiter 1000 5) sample_attempts).2 = 3000.
Proof.
  split; [|vm_compute; reflexivity].
  destruct (bandwidth_bounded 1000 5 sample_attempts
    (attempts (NewBandwidthLimiter 1000 5) sample_attempts).1 (attempts (NewBandwidthLimiter 1000 5) sample_attempts).2
    sample_turns 3000 (WaitN sample_turns 3000 (NewBandwidthLimiter 1000 5)).1.1
    (WaitN sample_turns 3000 (NewBandwidthLimiter 1000 5)).1.2 (WaitN sample_turns 3000 (NewBandwidthLimiter 1000 5)).2) as [H _].
  - by vm_compute.
  - done.
  - by vm_compute.
  - apply surjective_pairing.
  - by vm_compute.
  - assert (∀ l, limited 1000 l → limited 1000 (attempt (5 + Second) 500 l).1) as Hk.
    { intros l Hl. destruct (attempt (5 + Second) 500 l) as [l' o] eqn:E.
      apply (attempt_limited 4000 ltac:(lia) 1000 l (5 + Second) 500 l' o); [by vm_compute|done|by vm_compute|done]. }
    unfold sample_turns. apply Forall_cons. split; [done|]. apply Forall_cons. split; [exact Hk|]. apply Forall_cons. split; [done|apply Forall_nil_2].
  - by vm_compute.
  - exact H.
Defined.
