(* ===== verification/Speed.v ===== *)
(** * The speed meter (internal/download/speed.go)

    Transferred bytes collected into 250 ms buckets over a rolling window, with
    the float64 rate computed from a snapshot's bytes and window. *)

From Stdlib Require Import ZArith Lia.
From stdpp Require Import base list numbers sorting.
From S2P Require Import Prelude Float64.

(** ** The meter *)

Definition defaultSpeedWindow : Z := 30 * Second.
Definition speedSampleInterval : Z := 250 * Millisecond.
Definition maxSpeedSampleBucket : nat := 128.

Record speedSample := mkSample { ss_start : Z; ss_bytes : Z }.

(** [sn_bytes] is what the rate of the snapshot is computed from. *)
Record SpeedSnapshot := mkSnapshot { sn_bytes : Z; TotalBytes : Z; Window : Z }.

Definition BytesPerSecond (s : SpeedSnapshot) : float64 :=
  if (0 <? sn_bytes s) && (0 <? Window s) then fdiv (of_int (sn_bytes s)) (Seconds (Window s)) else of_int 0.

Record SpeedMeter := mkMeter { sm_window : Z; samples : list speedSample; sm_total : Z }.

#[export] Instance speedSample_eta : Eta speedSample := λ s, mkSample (ss_start s) (ss_bytes s).
#[export] Instance SpeedMeter_eta : Eta SpeedMeter := λ m, mkMeter (sm_window m) (samples m) (sm_total m).

Definition NewSpeedMeter (window : Z) : SpeedMeter :=
  let window := if window <=? 0 then defaultSpeedWindow else window in
  let window := if window <? speedSampleInterval then speedSampleInterval else window in
  mkMeter window [] 0.

(** [t.Truncate(d)], for times since the zero time. *)
Definition Truncate (t d : Z) : Z := t - t `mod` d.

Fixpoint expire (cutoff : Z) (l : list speedSample) : list speedSample :=
  match l with
  | [] => []
  | s :: l' => if ss_start s + speedSampleInterval <? cutoff then expire cutoff l' else l
  end.

Definition expireLocked (now : Z) (m : SpeedMeter) : SpeedMeter :=
  m <| samples := expire (now - sm_window m) (samples m) |>.

Definition trimCapacityLocked (m : SpeedMeter) : SpeedMeter :=
  if (length (samples m) <=? maxSpeedSampleBucket)%nat then m
  else m <| samples := drop (length (samples m) - maxSpeedSampleBucket) (samples m) |>.

(** The last bucket gets the bytes; a new one is started when the time moved on. *)
Definition add_sample (bucket n : Z) (l : list speedSample) : list speedSample :=
  match reverse l with
  | last :: init =>
      if ss_start last =? bucket
      then reverse init ++ [last <| ss_bytes := wrap64 (ss_bytes last + n) |>]
      else l ++ [mkSample bucket (wrap64 (0 + n))]
  | [] => [mkSample bucket (wrap64 (0 + n))]
  end.

Definition SpeedMeter_Add (n now : Z) (m : SpeedMeter) : SpeedMeter :=
  if n <=? 0 then m
  else
    let m := expireLocked now m in
    let bucket := Truncate now speedSampleInterval in
    trimCapacityLocked (m <| samples := add_sample bucket n (samples m) |>
                          <| sm_total := wrap64 (sm_total m + n) |>).

Definition sum_bytes (l : list speedSample) : Z := foldl (λ bytes s, wrap64 (bytes + ss_bytes s)) 0 l.

Definition Snapshot (now : Z) (m : SpeedMeter) : SpeedMeter * SpeedSnapshot :=
  let m := expireLocked now m in
  let window :=
    match samples m with
    | first :: _ =>
        let elapsed := now - ss_start first in
        let elapsed := if elapsed <? speedSampleInterval then speedSampleInterval else elapsed in
        if (0 <? elapsed) && (elapsed <? sm_window m) then elapsed else sm_window m
    | [] => sm_window m
    end in
  (m, mkSnapshot (sum_bytes (samples m)) (sm_total m) window).

Definition Reset (m : SpeedMeter) : SpeedMeter := m <| samples := [] |> <| sm_total := 0 |>.

(** ** What the meter remembers *)

(** Bytes of the buckets, and of the additions, that end at [cutoff] or later. *)
Definition live (cutoff : Z) (l : list speedSample) : Z :=
  foldr Z.add 0 (ss_bytes <$> filter (λ s, cutoff ≤ ss_start s + speedSampleInterval) l).

Definition additions (evs : list (Z * Z)) (P : Z → Prop) `{∀ t, Decision (P t)} : Z :=
  foldr Z.add 0 (snd <$> filter (λ tn, 0 < tn.2 ∧ P tn.1) evs).

Definition added (cutoff : Z) (evs : list (Z * Z)) : Z :=
  additions evs (λ t, cutoff ≤ Truncate t speedSampleInterval + speedSampleInterval).

Definition add_event (m : SpeedMeter) (tn : Z * Z) : SpeedMeter := SpeedMeter_Add tn.2 tn.1 m.

Definition all_bytes (l : list speedSample) : Z := foldr Z.add 0 (ss_bytes <$> l).
Definition all_added (evs : list (Z * Z)) : Z := additions evs (λ _, True).

Lemma sum_app (l1 l2 : list Z) : foldr Z.add 0 (l1 ++ l2) = foldr Z.add 0 l1 + foldr Z.add 0 l2.
Proof. induction l1 as [|x l1 IH]; cbn; [done|]. rewrite IH. lia. Qed.

Lemma live_app c l1 l2 : live c (l1 ++ l2) = live c l1 + live c l2.
Proof. unfold live. by rewrite filter_app, fmap_app, sum_app. Qed.

Lemma live_one c s : live c [s] = if decide (c ≤ ss_start s + speedSampleInterval) then ss_bytes s else 0.
Proof. unfold live. rewrite filter_cons. case_decide; cbn; [lia|done]. Qed.

Lemma additions_snoc evs t n P `{∀ t, Decision (P t)} :
  additions (evs ++ [(t, n)]) P = additions evs P + if decide (0 < n ∧ P t) then n else 0.
Proof.
  unfold additions. rewrite filter_app, fmap_app, sum_app. f_equal. rewrite filter_cons. cbn [fst snd].
  case_decide; cbn; lia.
Qed.

(** Expiry only drops buckets that ended before the cutoff. *)
Lemma live_expire c cutoff l : cutoff ≤ c → live c (expire cutoff l) = live c l.
Proof.
  intros Hc. induction l as [|s l IH]; [done|]. cbn [expire]. destruct (_ <? cutoff) eqn:Hs; [|done].
  apply Z.ltb_lt in Hs. rewrite IH. change (s :: l) with ([s] ++ l). rewrite live_app, live_one, decide_False by lia. lia.
Qed.

Lemma expire_suffix cutoff l : ∃ l', l = l' ++ expire cutoff l.
Proof.
  induction l as [|s l [l' IH]]; [by exists []|]. cbn. destruct (_ <? cutoff); [exists (s :: l'); by rewrite IH at 1|by exists []].
Qed.

Lemma all_bytes_app l1 l2 : all_bytes (l1 ++ l2) = all_bytes l1 + all_bytes l2.
Proof. unfold all_bytes. by rewrite fmap_app, sum_app. Qed.

Lemma live_all c l : Forall (λ s, c ≤ ss_start s + speedSampleInterval) l → live c l = all_bytes l.
Proof. intros H. unfold live, all_bytes. do 2 f_equal.
  induction H as [|s l Hs Hl IH]; [done|]. by rewrite filter_cons_True, IH. Qed.

Lemma Truncate_spec t : 0 ≤ t →
  Truncate t speedSampleInterval `mod` speedSampleInterval = 0
  ∧ Truncate t speedSampleInterval ≤ t < Truncate t speedSampleInterval + speedSampleInterval.
Proof.
  unfold Truncate, speedSampleInterval, Millisecond, Microsecond, Nanosecond. intros Ht.
  set (d := 250 * _). assert (0 < d) as Hd by (unfold d; lia). pose proof (Z.mod_pos_bound t d Hd).
  split; [|lia]. rewrite Zminus_mod, Z.mod_mod, Z.sub_diag by lia. done.
Qed.

(** Multiples of the interval that are apart are a whole interval apart. *)
Lemma grid_step a b : a `mod` speedSampleInterval = 0 → b `mod` speedSampleInterval = 0 → a < b →
  a + speedSampleInterval ≤ b.
Proof.
  assert (0 < speedSampleInterval) as Hd by done. generalize dependent speedSampleInterval. intros d Hd Ha Hb Hab.
  apply Z.mod_divide in Ha as [x ->]; [|lia]. apply Z.mod_divide in Hb as [y ->]; [|lia].
  apply Z.mul_lt_mono_pos_r in Hab; [|done]. nia.
Qed.

Lemma grid_floor a t : a `mod` speedSampleInterval = 0 → 0 ≤ t → a ≤ t → a ≤ Truncate t speedSampleInterval.
Proof.
  intros Ha Ht Hat. destruct (Truncate_spec t Ht) as [Hg Hb].
  destruct (Z.le_gt_cases a (Truncate t speedSampleInterval)) as [|Hgt]; [done|].
  apply grid_step in Hgt; [lia|done|done].
Qed.

Definition earlier (a b : speedSample) : Prop := ss_start a < ss_start b.

(** Few buckets fit between two times. *)
Lemma grid_length l a b : StronglySorted earlier l → l ≠ [] →
  Forall (λ s, ss_start s `mod` speedSampleInterval = 0 ∧ a ≤ ss_start s ≤ b) l →
  (Z.of_nat (length l) - 1) * speedSampleInterval ≤ b - a.
Proof.
  intros Hs. revert a. induction Hs as [|s l Hs IH Hall]; intros a Hne Hf; [done|].
  apply Forall_cons in Hf as [[Hg [Ha Hb]] Hf]. destruct l as [|s' l'] eqn:Hl; [cbn; lia|]. rewrite <-Hl in *.
  assert ((Z.of_nat (length l) - 1) * speedSampleInterval ≤ b - (ss_start s + speedSampleInterval)) as H.
  { apply IH; [by rewrite Hl|]. rewrite Forall_forall in Hall, Hf |- *. intros x Hx.
    destruct (Hf x Hx) as (Hgx & _ & Hbx). split; [done|]. split; [|done]. apply grid_step; [done|done|by apply Hall]. }
  cbn [length]. assert (0 < speedSampleInterval) by done. nia.
Qed.

(** After the additions [evs], the last of them at [T]. *)
Record meter_ok (evs : list (Z * Z)) (T : Z) (m : SpeedMeter) : Prop := {
  mo_window : speedSampleInterval ≤ sm_window m ≤ defaultSpeedWindow;
  mo_sorted : StronglySorted earlier (samples m);
  mo_grid : Forall (λ s, ss_start s `mod` speedSampleInterval = 0 ∧ 0 < ss_bytes s ∧ ss_start s ≤ T
                         ∧ T - sm_window m ≤ ss_start s + speedSampleInterval) (samples m);
  mo_live : ∀ c, T - sm_window m ≤ c → live c (samples m) = added c evs;
  mo_sum : all_bytes (samples m) ≤ all_added evs;
  mo_total : sm_total m = all_added evs }.

Lemma sorted_suffix (l l' : list speedSample) : StronglySorted earlier (l ++ l') → StronglySorted earlier l'.
Proof. induction l as [|s l IH]; [done|]. intros [H _]%StronglySorted_inv. by apply IH. Qed.

Lemma expire_kept cutoff l : StronglySorted earlier l →
  Forall (λ s, cutoff ≤ ss_start s + speedSampleInterval) (expire cutoff l).
Proof.
  intros Hs. induction Hs as [|s l Hs IH Hall]; [constructor|]. cbn [expire].
  destruct (_ <? cutoff) eqn:Hc; [done|]. apply Z.ltb_ge in Hc. constructor; [lia|].
  eapply Forall_impl; [exact Hall|]. unfold earlier. intros x. cbn. lia.
Qed.

Lemma all_bytes_nonneg l : Forall (λ s, 0 < ss_bytes s) l → 0 ≤ all_bytes l.
Proof. induction 1 as [|s l Hs Hl IH]; [done|]. unfold all_bytes in *. cbn. lia. Qed.

Lemma meter_expire evs T now m : meter_ok evs T m → T ≤ now → meter_ok evs now (expireLocked now m).
Proof.
  intros [] Hnow. unfold expireLocked. destruct (expire_suffix (now - sm_window m) (samples m)) as [l' Hl'].
  split; cbn [sm_window samples sm_total update_field]; try done.
  - rewrite Hl' in mo_sorted0. by eapply sorted_suffix.
  - pose proof (expire_kept (now - sm_window m) _ mo_sorted0) as Hk.
    rewrite Hl', Forall_app in mo_grid0. destruct mo_grid0 as [_ Hg]. rewrite Forall_forall in Hk, Hg |- *.
    intros s Hin. destruct (Hg s Hin) as (? & ? & ? & ?). specialize (Hk s Hin). cbn in Hk. split_and!; [done|done|lia|lia].
  - intros c Hc. rewrite live_expire by lia. apply mo_live0. lia.
  - rewrite Hl', all_bytes_app in mo_sum0. rewrite Hl', Forall_app in mo_grid0.
    assert (0 ≤ all_bytes l'); [|lia]. apply all_bytes_nonneg. eapply Forall_impl; [exact (proj1 mo_grid0)|].
    by intros s (_ & ? & _).
Qed.

Lemma added_nonneg evs P `{∀ t, Decision (P t)} : 0 ≤ additions evs P.
Proof.
  unfold additions. induction evs as [|[t n] evs IH]; [done|]. rewrite filter_cons. case_decide as Hd; [|done].
  cbn. cbn in Hd. lia.
Qed.

Lemma sorted_snoc (l : list speedSample) s : StronglySorted earlier l → Forall (λ x, earlier x s) l →
  StronglySorted earlier (l ++ [s]).
Proof.
  intros Hl Hs. induction Hl as [|x l Hl IH Hx]; [repeat constructor|]. apply Forall_cons in Hs as [Hxs Hs].
  cbn. constructor; [by apply IH|]. apply Forall_app. split; [done|by repeat constructor].
Qed.

Lemma sorted_last (l : list speedSample) s : StronglySorted earlier (l ++ [s]) → Forall (λ x, earlier x s) l.
Proof.
  induction l as [|x l IH]; [constructor|]. intros [H Hx]%StronglySorted_inv. constructor; [|by apply IH].
  apply Forall_app in Hx as [_ Hx]. by apply Forall_cons in Hx as [? _].
Qed.

(** One bucket more, or more bytes in the last one. *)
Definition grew (l l' : list speedSample) (bucket n : Z) : Prop :=
  (∃ init last, l = init ++ [last] ∧ ss_start last = bucket
     ∧ l' = init ++ [mkSample bucket (ss_bytes last + n)])
  ∨ (Forall (λ s, ss_start s < bucket) l ∧ l' = l ++ [mkSample bucket n]).

Lemma add_sample_grew l bucket n : StronglySorted earlier l → 0 < n →
  Forall (λ s, ss_start s ≤ bucket ∧ 0 < ss_bytes s) l → all_bytes l + n ≤ int64_max →
  grew l (add_sample bucket n l) bucket n.
Proof.
  intros Hs Hn Hf Hmax. unfold add_sample. destruct l as [|last init] using rev_ind; [right|clear IHinit].
  - cbn. rewrite wrap64_id; [by split|]. unfold all_bytes in Hmax. cbn in Hmax. int_lia.
  - rewrite reverse_snoc, reverse_involutive. apply Forall_app in Hf as [Hi Hl].
    apply Forall_cons in Hl as [[Hl Hlb] _]. rewrite all_bytes_app in Hmax.
    assert (0 ≤ all_bytes init) by (apply all_bytes_nonneg; eapply Forall_impl; [exact Hi|by intros s [_ ?]]).
    unfold all_bytes at 2 in Hmax. cbn in Hmax. destruct (ss_start last =? bucket) eqn:Hb.
    + apply Z.eqb_eq in Hb. left. exists init, last. split; [done|]. split; [done|]. f_equal. f_equal.
      rewrite wrap64_id by int_lia. destruct last. cbn in *. by subst.
    + apply Z.eqb_neq in Hb. right. rewrite wrap64_id by int_lia. split; [|done].
      apply Forall_app. split; [|repeat constructor; lia]. apply sorted_last in Hs.
      rewrite Forall_forall in Hs |- *. intros x Hx. specialize (Hs x Hx). unfold earlier in Hs. lia.
Qed.

Lemma grew_live l l' bucket n c : grew l l' bucket n →
  live c l' = live c l + if decide (c ≤ bucket + speedSampleInterval) then n else 0.
Proof.
  intros [(init & last & -> & Hb & ->)|[_ ->]]; rewrite !live_app, !live_one; cbn; rewrite ?Hb; case_decide; lia.
Qed.

Lemma grew_sorted l l' bucket n : grew l l' bucket n → StronglySorted earlier l → StronglySorted earlier l'.
Proof.
  intros [(init & last & -> & Hb & ->)|[Hf ->]] Hs.
  - assert (Forall (λ x, earlier x (mkSample bucket (ss_bytes last + n))) init) as Hi.
    { apply sorted_last in Hs. eapply Forall_impl; [exact Hs|]. unfold earlier. cbn. intros. lia. }
    apply sorted_snoc; [|done]. clear Hi. induction init as [|x init IH]; [constructor|].
    apply StronglySorted_inv in Hs as [Hs Hx]. constructor; [by apply IH|]. by apply Forall_app in Hx as [? _].
  - by apply sorted_snoc.
Qed.

Lemma grew_bytes l l' bucket n : grew l l' bucket n → all_bytes l' = all_bytes l + n.
Proof.
  intros [(init & last & -> & Hb & ->)|[_ ->]]; rewrite !all_bytes_app; unfold all_bytes; cbn; lia.
Qed.

Lemma grew_forall l l' bucket n (P : speedSample → Prop) : grew l l' bucket n → Forall P l →
  (∀ s, P s → ss_start s = bucket → P (mkSample bucket (ss_bytes s + n))) → P (mkSample bucket n) → Forall P l'.
Proof.
  intros [(init & last & -> & Hb & ->)|[_ ->]] Hf Hm Hn; apply Forall_app.
  - apply Forall_app in Hf as [Hi Hl]. apply Forall_cons in Hl as [Hl _]. split; [done|]. repeat constructor. by apply Hm.
  - split; [done|by repeat constructor].
Qed.

Lemma all_added_snoc evs t n : 0 < n → all_added (evs ++ [(t, n)]) = all_added evs + n.
Proof. intros Hn. unfold all_added. rewrite additions_snoc, decide_True by done. done. Qed.

Lemma meter_ok_few evs T m : meter_ok evs T m → (length (samples m) ≤ 122)%nat.
Proof.
  intros [[_ Hw] Hs Hg _ _ _]. destruct (samples m) as [|s l] eqn:Hl; [cbn; lia|].
  rewrite <-Hl in *. assert ((Z.of_nat (length (samples m)) - 1) * speedSampleInterval ≤ T - (T - sm_window m - speedSampleInterval)) as H.
  { apply grid_length; [done|by rewrite Hl|]. eapply Forall_impl; [exact Hg|]. cbn. intros x (? & ? & ? & ?). split; [done|lia]. }
  unfold defaultSpeedWindow, speedSampleInterval, Second, Millisecond, Microsecond, Nanosecond in *. lia.
Qed.

Lemma meter_add evs T m t n : meter_ok evs T m → 0 ≤ T → T ≤ t → all_added (evs ++ [(t, n)]) ≤ int64_max →
  meter_ok (evs ++ [(t, n)]) (if decide (0 < n) then t else T) (SpeedMeter_Add n t m).
Proof.
  intros Hm HT Ht Hmax. unfold SpeedMeter_Add. destruct (n <=? 0) eqn:Hn.
  { apply Z.leb_le in Hn. rewrite decide_False by lia. destruct Hm. split; try done.
    - intros c Hc. unfold added. rewrite additions_snoc, decide_False by lia. rewrite mo_live0 by done. unfold added. lia.
    - unfold all_added in *. rewrite additions_snoc, decide_False by lia. lia.
    - unfold all_added in *. rewrite additions_snoc, decide_False by lia. lia. }
  apply Z.leb_gt in Hn. rewrite decide_True by done. pose proof (meter_expire evs T t m Hm Ht) as Hm'. cbv zeta.
  set (m' := expireLocked t m) in *. destruct Hm' as [Hw Hs Hg Hl Hb Htot].
  destruct (Truncate_spec t ltac:(lia)) as [Hgrid Hbound]. set (bucket := Truncate t speedSampleInterval) in *.
  rewrite all_added_snoc in Hmax by done. pose proof (added_nonneg evs (λ _, True)) as Hnn. fold (all_added evs) in Hnn.
  assert (grew (samples m') (add_sample bucket n (samples m')) bucket n) as Hgrew.
  { apply add_sample_grew; [done|done| |lia]. eapply Forall_impl; [exact Hg|]. cbn. intros s (? & ? & ? & ?).
    split; [|done]. apply grid_floor; [done|lia|lia]. }
  assert (meter_ok (evs ++ [(t, n)]) t (m' <| samples := add_sample bucket n (samples m') |>
                                           <| sm_total := wrap64 (sm_total m' + n) |>)) as Hok.
  { split; cbn [sm_window samples sm_total update_field].
    - done.
    - by eapply grew_sorted.
    - eapply grew_forall; [exact Hgrew|exact Hg| |].
      + cbn [ss_start ss_bytes]. intros s (? & ? & ? & ?) <-. split_and!; [done|lia|lia|done].
      + cbn [ss_start ss_bytes]. assert (0 < speedSampleInterval) by done. split_and!; [done|done|lia|lia].
    - intros c Hc. rewrite (grew_live _ _ _ _ c Hgrew), Hl by done. unfold added. rewrite additions_snoc.
      f_equal. fold bucket. repeat case_decide; tauto || lia.
    - rewrite (grew_bytes _ _ _ _ Hgrew), all_added_snoc by done. lia.
    - rewrite all_added_snoc, Htot by done. apply wrap64_id. int_lia. }
  unfold trimCapacityLocked. apply meter_ok_few in Hok as Hfew.
  rewrite (proj2 (Nat.leb_le _ _)) by (unfold maxSpeedSampleBucket; lia). done.
Qed.

Lemma all_added_prefix evs evs' : all_added evs ≤ all_added (evs ++ evs').
Proof.
  unfold all_added, additions. rewrite filter_app, fmap_app, sum_app.
  pose proof (added_nonneg evs' (λ _, True)) as H. unfold additions in H. lia.
Qed.

Definition in_order (evs : list (Z * Z)) : Prop := StronglySorted (λ a b, a.1 ≤ b.1) evs.

Lemma meter_new w : w ≤ defaultSpeedWindow → meter_ok [] 0 (NewSpeedMeter w).
Proof.
  intros Hw. unfold NewSpeedMeter. split; cbn [sm_window samples sm_total]; try done; try by constructor.
  assert (speedSampleInterval ≤ defaultSpeedWindow) by done.
  destruct (w <=? 0); [done|]. destruct (w <? speedSampleInterval) eqn:Hi; [done|]. apply Z.ltb_ge in Hi. lia.
Qed.

Lemma meter_run w evs now : w ≤ defaultSpeedWindow → in_order evs → Forall (λ tn, 0 ≤ tn.1 ≤ now) evs → 0 ≤ now →
  all_added evs ≤ int64_max → ∃ T, 0 ≤ T ≤ now ∧ meter_ok evs T (foldl add_event (NewSpeedMeter w) evs).
Proof.
  intros Hw. revert now. induction evs as [|[t n] evs IH] using rev_ind; intros now Hs Hf Hnow Hmax.
  { exists 0. split; [lia|by apply meter_new]. }
  apply StronglySorted_app in Hs as (Hle & Hs & _). apply Forall_app in Hf as [Hf Ht].
  apply Forall_cons in Ht as [Ht _]. cbn in Ht.
  destruct (IH t Hs) as (T & HT & Hm).
  - rewrite Forall_forall in Hf |- *. intros x Hx. specialize (Hf x Hx). specialize (Hle x (t, n) Hx ltac:(by left)). cbn in Hle, Hf |- *. lia.
  - lia.
  - pose proof (all_added_prefix evs [(t, n)]). lia.
  - exists (if decide (0 < n) then t else T). rewrite foldl_app. split; [case_decide; lia|]. apply (meter_add evs T _ t n); [done|lia|lia|done].
Qed.

Lemma sum_bytes_all l : Forall (λ s, 0 < ss_bytes s) l → all_bytes l ≤ int64_max → sum_bytes l = all_bytes l.
Proof.
  intros Hf. assert (∀ acc, 0 ≤ acc → acc + all_bytes l ≤ int64_max →
    foldl (λ bytes s, wrap64 (bytes + ss_bytes s)) acc l = acc + all_bytes l) as H.
  { induction Hf as [|s l Hs Hf IH]; intros acc Ha Hmax; [cbn; unfold all_bytes; cbn; lia|].
    cbn [foldl]. assert (all_bytes (s :: l) = ss_bytes s + all_bytes l) as Hc by done. rewrite Hc in *.
    pose proof (all_bytes_nonneg l Hf). rewrite wrap64_id by int_lia. rewrite IH by lia. lia. }
  intros Hmax. unfold sum_bytes. rewrite H by lia. lia.
Qed.

(** A meter of at most the default window that got its additions in time
    order reports exactly the bytes whose 250 ms bucket ends within the window,
    never more than 122 buckets, and the lifetime total; the rate is taken over
    between 250 ms and the whole window, so it is never a division by zero. *)
Theorem speed_window w evs now :
  w ≤ defaultSpeedWindow → in_order evs → Forall (λ tn, 0 ≤ tn.1 ≤ now) evs → 0 ≤ now → all_added evs ≤ int64_max →
  let m := foldl add_event (NewSpeedMeter w) evs in
  let (m', s) := Snapshot now m in
  (length (samples m') ≤ 122)%nat
  ∧ TotalBytes s = all_added evs
  ∧ sn_bytes s = added (now - sm_window m) evs
  ∧ speedSampleInterval ≤ Window s ≤ sm_window m.
Proof.
  intros Hw Hs Hf Hnow Hmax. cbv zeta. destruct (meter_run w evs now Hw Hs Hf Hnow Hmax) as (T & HT & Hm).
  set (m := foldl add_event (NewSpeedMeter w) evs) in *. unfold Snapshot. cbv zeta.
  pose proof (meter_expire evs T now m Hm ltac:(lia)) as Hm'. assert (sm_window (expireLocked now m) = sm_window m) as Hwin by done.
  set (m' := expireLocked now m) in *. pose proof Hm' as [Hwb Hs' Hg Hl Hb Htot].
  split_and!.
  - by eapply meter_ok_few.
  - done.
  - cbn [sn_bytes]. rewrite sum_bytes_all; [|eapply Forall_impl; [exact Hg|]; by intros s (_ & ? & _)|lia].
    rewrite <-Hwin, <-Hl by lia. symmetry. apply live_all. eapply Forall_impl; [exact Hg|]. by intros s (_ & _ & _ & ?).
  - cbn [Window]. destruct (samples m'); [lia|]. destruct (now - ss_start _ <? speedSampleInterval) eqn:He;
      destruct (_ && _) eqn:Hc; bool_to_prop; lia.
  - cbn [Window]. destruct (samples m'); [lia|]. destruct (now - ss_start _ <? speedSampleInterval) eqn:He;
      destruct (_ && _) eqn:Hc; bool_to_prop; lia.
Qed.

Lemma speed_window_witness :
  let evs := [(1000 * Second, 7); (1000 * Second + 100 * Millisecond, 5); (1040 * Second, 3)] in
  let m := foldl add_event (NewSpeedMeter 0) evs in
  sn_bytes (Snapshot (1041 * Second) m).2 = 3 ∧ TotalBytes (Snapshot (1041 * Second) m).2 = 15.
Proof.
  cbv zeta. pose proof (speed_window 0 [(1000 * Second, 7); (1000 * Second + 100 * Millisecond, 5); (1040 * Second, 3)]
    (1041 * Second) ltac:(by vm_compute) ltac:(repeat constructor; vm_compute; discriminate)
    ltac:(repeat constructor; vm_compute; discriminate) ltac:(by vm_compute) ltac:(by vm_compute)) as H.
  cbv zeta in H. destruct (Snapshot _ _) as [m' s]. destruct H as (_ & H1 & H2 & _). cbn [snd].
  rewrite H1, H2. split; vm_compute; reflexivity.
Defined.
