(* ===== verification/Api.v ===== *)
(** * The HTTP API: requests and who may make them (internal/api/api.go)

    The routes, the host and origin checks in front of every state change, the
    session check in front of every protected handler.  [url.Parse] of an Origin
    header is an argument. *)

From Stdlib Require Import ZArith Lia.
From stdpp Require Import base list gmap strings numbers pretty.
From S2P Require Import Prelude GoStrings GoErrors GoBase64 Store Auth.

(** ** Requests *)

(** What [url.Parse] gives for an Origin header. *)
Record OriginURL := mkOrigin {
  oScheme : string;
  oUser : bool;
  oHost : string;
  oPath : string;
  oRawQuery : string;
  oFragment : string }.

(** [rq_path] are the segments of the path, [rq_origin] the Origin header,
    empty when it is absent. *)
Record HTTPRequest := mkHTTPRequest {
  hr_method : string;
  hr_path : list string;
  hr_host : string;
  hr_origin : string;
  hr_tls : bool;
  hr_cookies : string → option string }.

Definition MethodGet : string := "GET".
Definition MethodHead : string := "HEAD".
Definition MethodPost : string := "POST".
Definition MethodPut : string := "PUT".
Definition MethodPatch : string := "PATCH".
Definition MethodDelete : string := "DELETE".

Definition StatusForbidden : Z := 403.
Definition StatusUnauthorized : Z := 401.
Definition StatusNotFound : Z := 404.
Definition StatusMethodNotAllowed : Z := 405.
Definition StatusInternalServerError : Z := 500.

(** ** Host and origin *)

Definition normalizeHost (host : string) : string := ToLower (TrimSuffix (TrimSpace host) ".").

Definition requestHostAllowed (request : HTTPRequest) (allowedHosts : list string) : bool :=
  match allowedHosts with
  | [] => negb (bool_decide (hr_host request = ""))
  | _ => bool_decide (normalizeHost (hr_host request) ∈ allowedHosts)
  end.

(** The set [NewServer] builds from the configuration. *)
Definition allowed_hosts (configured : list string) : list string :=
  filter (λ h, h ≠ "") (normalizeHost <$> configured).

Section guard.
Context (url_Parse : string → result error OriginURL).

Definition requestHasSameOrigin (request : HTTPRequest) (allowHTTPSProxyOrigin : bool) : bool :=
  if bool_decide (hr_origin request = "") then negb (bool_decide (hr_host request = ""))
  else match url_Parse (hr_origin request) with
  | Err _ => false
  | Ok parsed =>
      if bool_decide (oHost parsed = "") || oUser parsed || negb (bool_decide (oPath parsed = ""))
         || negb (bool_decide (oRawQuery parsed = "")) || negb (bool_decide (oFragment parsed = ""))
      then false
      else if negb (bool_decide (normalizeHost (oHost parsed) = normalizeHost (hr_host request))) then false
      else if hr_tls request then bool_decide (oScheme parsed = "https")
      else bool_decide (oScheme parsed = "http") || (allowHTTPSProxyOrigin && bool_decide (oScheme parsed = "https"))
  end.

Definition unsafe_method (method : string) : bool :=
  bool_decide (method ∈ [MethodPost; MethodPut; MethodPatch; MethodDelete]).

(** [sameOrigin]: whether the request goes on to the router. *)
Definition origin_allowed (allowedHosts : list string) (allowHTTPSProxyOrigin : bool) (request : HTTPRequest) : bool :=
  negb (unsafe_method (hr_method request))
  || (requestHostAllowed request allowedHosts && requestHasSameOrigin request allowHTTPSProxyOrigin).

(** ** Routes *)

Inductive Handler :=
| handleHealth | handleVersion | handleDashboard | handleAuthStatus | handleSetup | handleLogin | handleLogout | handleMe
| handleGetSettings | handlePutSettings | handleResolve | handleCreateDownload | handleListDownloads
| handleGetDownload (id : string) | handleDownloadEvents (id : string) | handlePauseDownload (id : string)
| handleResumeDownload (id : string) | handleRetryDownload (id : string) | handleCancelDownload (id : string)
| handleDeleteDownload (id : string) | handlePauseQueue | handleResumeQueue
| handleListAccounts | handleCreateAccount | handleTestAccount (id : string) | handleUpdateAccount (id : string)
| handleDeleteAccount (id : string) | handleListProxies | handleCreateProxy | handleTestProxy (id : string)
| handleUpdateProxy (id : string) | handleDeleteProxy (id : string) | handleEvents.

Inductive Access := Public | WithAuth.

(** A segment of a pattern below /api/v1: a literal, or [{id}]. *)
Inductive segment := Lit (s : string) | Id.

(** The patterns [Server.Handler] registers. *)
Definition routes : list (string * list segment * Access * (string → Handler)) :=
  [(MethodGet, [Lit "health"], Public, λ _, handleHealth);
   (MethodGet, [Lit "version"], Public, λ _, handleVersion);
   (MethodGet, [Lit "dashboard"], WithAuth, λ _, handleDashboard);
   (MethodGet, [Lit "auth"; Lit "status"], Public, λ _, handleAuthStatus);
   (MethodPost, [Lit "auth"; Lit "setup"], Public, λ _, handleSetup);
   (MethodPost, [Lit "setup"], Public, λ _, handleSetup);
   (MethodPost, [Lit "auth"; Lit "login"], Public, λ _, handleLogin);
   (MethodPost, [Lit "auth"; Lit "logout"], Public, λ _, handleLogout);
   (MethodGet, [Lit "auth"; Lit "me"], Public, λ _, handleMe);
   (MethodGet, [Lit "settings"], WithAuth, λ _, handleGetSettings);
   (MethodPut, [Lit "settings"], WithAuth, λ _, handlePutSettings);
   (MethodPost, [Lit "downloads"; Lit "resolve"], WithAuth, λ _, handleResolve);
   (MethodPost, [Lit "downloads"], WithAuth, λ _, handleCreateDownload);
   (MethodGet, [Lit "downloads"], WithAuth, λ _, handleListDownloads);
   (MethodGet, [Lit "downloads"; Id], WithAuth, handleGetDownload);
   (MethodGet, [Lit "downloads"; Id; Lit "events"], WithAuth, handleDownloadEvents);
   (MethodPost, [Lit "downloads"; Id; Lit "pause"], WithAuth, handlePauseDownload);
   (MethodPost, [Lit "downloads"; Id; Lit "resume"], WithAuth, handleResumeDownload);
   (MethodPost, [Lit "downloads"; Id; Lit "retry"], WithAuth, handleRetryDownload);
   (MethodPost, [Lit "downloads"; Id; Lit "cancel"], WithAuth, handleCancelDownload);
   (MethodDelete, [Lit "downloads"; Id], WithAuth, handleDeleteDownload);
   (MethodPost, [Lit "queue"; Lit "pause"], WithAuth, λ _, handlePauseQueue);
   (MethodPost, [Lit "queue"; Lit "resume"], WithAuth, λ _, handleResumeQueue);
   (MethodGet, [Lit "accounts"], WithAuth, λ _, handleListAccounts);
   (MethodPost, [Lit "accounts"], WithAuth, λ _, handleCreateAccount);
   (MethodPost, [Lit "accounts"; Id; Lit "test"], WithAuth, handleTestAccount);
   (MethodPut, [Lit "accounts"; Id], WithAuth, handleUpdateAccount);
   (MethodDelete, [Lit "accounts"; Id], WithAuth, handleDeleteAccount);
   (MethodGet, [Lit "proxies"], WithAuth, λ _, handleListProxies);
   (MethodPost, [Lit "proxies"], WithAuth, λ _, handleCreateProxy);
   (MethodPost, [Lit "proxies"; Id; Lit "test"], WithAuth, handleTestProxy);
   (MethodPut, [Lit "proxies"; Id], WithAuth, handleUpdateProxy);
   (MethodDelete, [Lit "proxies"; Id], WithAuth, handleDeleteProxy);
   (MethodGet, [Lit "events"], WithAuth, λ _, handleEvents)].

(** The value of [{id}] when the path matches, empty when there is none. *)
Fixpoint match_path (pattern : list segment) (path : list string) (id : string) : option string :=
  match pattern, path with
  | [], [] => Some id
  | Lit s :: pattern, part :: path => if bool_decide (s = part) then match_path pattern path id else None
  | Id :: pattern, part :: path => if bool_decide (part = "") then None else match_path pattern path part
  | _, _ => None
  end.

Fixpoint find_route (table : list (string * list segment * Access * (string → Handler))) (method : string)
    (path : list string) : option (Access * Handler) :=
  match table with
  | [] => None
  | (m, pattern, access, handler) :: table =>
      match (if bool_decide (m = method) then match_path pattern path "" else None) with
      | Some id => Some (access, handler id)
      | None => find_route table method path
      end
  end.

(** The part of the path after /api/v1. *)
Definition api_path (path : list string) : option (list string) :=
  match path with
  | api :: v1 :: rest => if bool_decide (api = "api") && bool_decide (v1 = "v1") then Some rest else None
  | _ => None
  end.

(** [http.ServeMux]: a GET pattern also matches HEAD. *)
Definition route (method : string) (path : list string) : option (Access * Handler) :=
  rest ← api_path path; find_route routes (if bool_decide (method = MethodHead) then MethodGet else method) rest.

(** What the mux answers without a pattern: 405 when another method has one. *)
Definition no_route (path : list string) : Z :=
  match api_path path with
  | Some rest =>
      if existsb (λ '(_, pattern, _, _), bool_decide (is_Some (match_path pattern rest ""))) routes
      then StatusMethodNotAllowed else StatusNotFound
  | None => StatusNotFound
  end.

(** ** Serving a request *)

Inductive Outcome :=
| Refused (status : Z) (code : string)
| Reached (handler : Handler) (principal : option Principal).

Context (Sum256 : list Z → list Z).

(** The server: without an authentication manager every protected handler is
    refused. *)
Record ServerConfig := mkServerConfig {
  sc_auth : option Manager;
  sc_AllowedHosts : list string;
  sc_secureCookies : bool }.

Definition withAuth (config : ServerConfig) (handler : Handler) (request : HTTPRequest) (now : Z) : store_cmd Outcome :=
  match sc_auth config with
  | None => mret (Refused StatusInternalServerError "auth_unavailable")
  | Some m =>
      principal ← Manager_Principal Sum256 m (hr_cookies request) now;
      match principal with
      | None => mret (Refused StatusUnauthorized "auth_required")
      | Some principal => mret (Reached handler (Some principal))
      end
  end.

Definition ServeHTTP (config : ServerConfig) (request : HTTPRequest) (now : Z) : store_cmd Outcome :=
  if negb (origin_allowed (allowed_hosts (sc_AllowedHosts config)) (sc_secureCookies config) request)
  then mret (Refused StatusForbidden "origin_forbidden")
  else match route (hr_method request) (hr_path request) with
  | None => mret (Refused (no_route (hr_path request)) "")
  | Some (Public, handler) => mret (Reached handler None)
  | Some (WithAuth, handler) => withAuth config handler request now
  end.

(** ** What a request that reaches a handler has passed *)

(** The handlers a visitor without a session may call. *)
Definition is_public (handler : Handler) : bool :=
  match handler with
  | handleHealth | handleVersion | handleAuthStatus | handleSetup | handleLogin | handleLogout | handleMe => true
  | _ => false
  end.

(** The handlers that only read. *)
Definition only_reads (handler : Handler) : bool :=
  match handler with
  | handleHealth | handleVersion | handleDashboard | handleAuthStatus | handleMe | handleGetSettings
  | handleListDownloads | handleGetDownload _ | handleDownloadEvents _ | handleListAccounts | handleListProxies
  | handleEvents => true
  | _ => false
  end.

Lemma find_route_elem table method path access handler : find_route table method path = Some (access, handler) →
  ∃ pattern h id, (method, pattern, access, h) ∈ table ∧ handler = h id.
Proof.
  induction table as [|[[[m pattern] a] h] table IH]; [done|]. cbn.
  destruct (bool_decide (m = method)) eqn:Hm; [apply bool_decide_eq_true in Hm as ->; destruct (match_path pattern path "")|].
  - intros [= <- <-]. eexists _, _, _. split; [left|done].
  - intros (p & h' & i & ? & ?)%IH. eexists p, h', i. split; [by right|done].
  - intros (p & h' & i & ? & ?)%IH. eexists p, h', i. split; [by right|done].
Qed.

(** What the table of routes guarantees for each entry. *)
Lemma routes_sound method pattern access h id : (method, pattern, access, h) ∈ routes →
  access = (if is_public (h id) then Public else WithAuth) ∧ (only_reads (h id) = false → unsafe_method method = true).
Proof.
  intros Hin. unfold routes in Hin.
  repeat (apply elem_of_cons in Hin as [[= -> -> -> ->]|Hin]; [by split|]). by apply elem_of_nil in Hin.
Qed.

Lemma route_sound method path access handler : route method path = Some (access, handler) →
  access = (if is_public handler then Public else WithAuth)
  ∧ (only_reads handler = false → unsafe_method method = true).
Proof.
  unfold route. intros H. apply bind_Some in H as (rest & _ & H). revert H.
  intros (pattern & h & id & Hin & ->)%find_route_elem. apply (routes_sound _ _ _ _ id) in Hin as [Ha Hu].
  split; [done|]. intros Hr. specialize (Hu Hr). by destruct (bool_decide_reflect (method = MethodHead)).
Qed.

(** The Origin of a request names the host the request was sent to. *)
Definition names_host (request : HTTPRequest) (allowHTTPSProxyOrigin : bool) (parsed : OriginURL) : Prop :=
  oHost parsed ≠ "" ∧ oUser parsed = false ∧ oPath parsed = "" ∧ oRawQuery parsed = "" ∧ oFragment parsed = ""
  ∧ normalizeHost (oHost parsed) = normalizeHost (hr_host request)
  ∧ (oScheme parsed = "https" ∧ (hr_tls request = true ∨ allowHTTPSProxyOrigin = true)
     ∨ oScheme parsed = "http" ∧ hr_tls request = false).

Lemma requestHasSameOrigin_iff request proxy :
  requestHasSameOrigin request proxy = true ↔
  hr_origin request = "" ∧ hr_host request ≠ ""
  ∨ hr_origin request ≠ "" ∧ ∃ parsed, url_Parse (hr_origin request) = Ok parsed ∧ names_host request proxy parsed.
Proof.
  unfold requestHasSameOrigin. case_bool_decide as Ho.
  { rewrite negb_true_iff, bool_decide_eq_false. naive_solver. }
  destruct (url_Parse (hr_origin request)) as [parsed|]; [|naive_solver]. unfold names_host. split.
  - intros H. right. split; [done|]. exists parsed. split; [done|].
    repeat case_bool_decide; destruct (oUser parsed), (hr_tls request), proxy; cbn in *; naive_solver.
  - intros [[? _]|(_ & ? & [= <-] & H1 & -> & -> & -> & -> & -> & H2)]; [done|].
    rewrite (bool_decide_eq_false_2 _ H1), !bool_decide_eq_true_2 by done. cbn.
    destruct H2 as [[-> [-> | ->]]|[-> ->]], (hr_tls request); done.
Qed.

(** The host a request was sent to is one the server answers to. *)
Definition for_this_server (config : ServerConfig) (request : HTTPRequest) : Prop :=
  hr_host request ≠ ""
  ∧ ((∀ h, h ∈ sc_AllowedHosts config → normalizeHost h = "")
     ∨ normalizeHost (hr_host request) ≠ ""
       ∧ ∃ h, h ∈ sc_AllowedHosts config ∧ normalizeHost h = normalizeHost (hr_host request)).

(** The page a request was made from, where the browser names it, is served by
    that host. *)
Definition from_own_site (config : ServerConfig) (request : HTTPRequest) : Prop :=
  for_this_server config request
  ∧ (hr_origin request = ""
     ∨ ∃ parsed, url_Parse (hr_origin request) = Ok parsed ∧ names_host request (sc_secureCookies config) parsed).

Lemma requestHostAllowed_iff config request :
  hr_host request ≠ "" →
  requestHostAllowed request (allowed_hosts (sc_AllowedHosts config)) = true ↔ for_this_server config request.
Proof.
  intros Hne. assert (allowed_hosts (sc_AllowedHosts config) = [] ↔ ∀ h, h ∈ sc_AllowedHosts config → normalizeHost h = "") as Hnil.
  { unfold allowed_hosts. split.
    - intros H h Hh. apply dec_stable. intros Hn. eapply (filter_nil_not_elem_of (λ h, h ≠ "")); [exact H|exact Hn|].
      apply list_elem_of_fmap. by exists h.
    - intros H. destruct (filter _ _) as [|x l] eqn:Hx; [done|]. assert (x ∈ x :: l) as Hin by left. rewrite <-Hx in Hin.
      apply list_elem_of_filter in Hin as [Hn (h & -> & Hh)%list_elem_of_fmap]. by destruct Hn; apply H. }
  unfold requestHostAllowed, for_this_server. rewrite <-Hnil.
  destruct (allowed_hosts (sc_AllowedHosts config)) as [|a l] eqn:He.
  { rewrite bool_decide_eq_false_2 by done. naive_solver. }
  rewrite <-He, bool_decide_eq_true. unfold allowed_hosts at 1. rewrite list_elem_of_filter, list_elem_of_fmap.
  rewrite He. naive_solver.
Qed.

Lemma requestHostAllowed_host request configured :
  requestHostAllowed request (allowed_hosts configured) = true → hr_host request ≠ "".
Proof.
  unfold requestHostAllowed. destruct (allowed_hosts configured) as [|a l] eqn:He.
  { by intros H%negb_true_iff%bool_decide_eq_false. }
  rewrite <-He. intros [Hne _]%bool_decide_eq_true%list_elem_of_filter Hem. rewrite Hem in Hne. by apply Hne.
Qed.

(** The checks in front of the router pass a request exactly when it changes
    nothing or comes from the server's own site. *)
Lemma origin_allowed_iff config request :
  origin_allowed (allowed_hosts (sc_AllowedHosts config)) (sc_secureCookies config) request = true ↔
  (unsafe_method (hr_method request) = true → from_own_site config request).
Proof.
  unfold origin_allowed. destruct (unsafe_method (hr_method request)); [|done]. cbn [negb orb].
  rewrite andb_true_iff, requestHasSameOrigin_iff. unfold from_own_site. split.
  - intros [Hh Hs] _. pose proof (requestHostAllowed_host _ _ Hh) as Hne.
    apply requestHostAllowed_iff in Hh; [|done]. naive_solver.
  - intros H. destruct (H eq_refl) as [Hh Ho]. pose proof Hh as [Hne _]. split; [by apply requestHostAllowed_iff|].
    destruct (decide (hr_origin request = "")); [by left|right; naive_solver].
Qed.

(** ** What the router offers *)

(** Some pattern of the method matches the path. *)
Definition offered (method : string) (path : list string) : Prop :=
  ∃ rest pattern access h, api_path path = Some rest ∧ (method, pattern, access, h) ∈ routes
    ∧ is_Some (match_path pattern rest "").

(** HEAD is answered by the patterns of GET. *)
Definition asked_method (method : string) : string :=
  if bool_decide (method = MethodHead) then MethodGet else method.

Lemma find_route_none table method path :
  find_route table method path = None ↔
  ∀ pattern access h, (method, pattern, access, h) ∈ table → match_path pattern path "" = None.
Proof.
  induction table as [|[[[m pattern] a] h] table IH]; cbn.
  { split; [|done]. intros _ ??? H. by apply elem_of_nil in H. }
  setoid_rewrite elem_of_cons. case_bool_decide as Hm.
  - subst m. destruct (match_path pattern path "") eqn:Hp.
    + split; [done|]. intros H. rewrite (H pattern a h) in Hp by by left. done.
    + rewrite IH. naive_solver.
  - rewrite IH. naive_solver.
Qed.

Lemma route_none method path : route method path = None ↔ ¬ offered (asked_method method) path.
Proof.
  unfold route, offered. destruct (api_path path) as [rest|]; [|cbn; naive_solver].
  fold (asked_method method). cbn [mbind option_bind]. rewrite find_route_none. split.
  - intros H (rest' & p & a & h & [= <-] & Hin & Hs). rewrite (H _ _ _ Hin) in Hs. by destruct Hs.
  - intros H p a h Hin. apply eq_None_not_Some. intros Hs. apply H. by exists rest, p, a, h.
Qed.

Lemma no_route_spec path :
  no_route path = StatusMethodNotAllowed ∧ (∃ m, offered m path)
  ∨ no_route path = StatusNotFound ∧ ∀ m, ¬ offered m path.
Proof.
  unfold no_route, offered. destruct (api_path path) as [rest|]; [|right; naive_solver].
  destruct (existsb _ routes) eqn:He.
  - left. split; [done|]. apply existsb_exists in He as ([[[m p] a] h] & Hin%list_elem_of_In & Hs%bool_decide_eq_true).
    by exists m, rest, p, a, h.
  - right. split; [done|]. intros m (rest' & p & a & h & [= <-] & Hin & Hs).
    assert (existsb (λ '(_, pattern, _, _), bool_decide (is_Some (match_path pattern rest ""))) routes = true) as Ht; [|by rewrite Ht in He].
    apply existsb_exists. exists (m, p, a, h). split; [by apply list_elem_of_In|]. by apply bool_decide_eq_true.
Qed.

Lemma keeps_UserForSession P digest now : keeps P (UserForSession digest now).
Proof.
  unfold UserForSession, guard_err. destruct (bool_decide _); (apply preserves_bind;
    [apply preserves_throw || apply preserves_ret|intros _]);
    (apply preserves_bind; [apply keeps_wrapped, keeps_query|intros [u|]; apply preserves_ret || apply preserves_throw]).
Qed.

(** The session a request presents and its user. *)
Definition signed_in (m : Manager) (request : HTTPRequest) (now : Z) (t : Tables) (u : UserRow) : Prop :=
  ∃ token, session_cookie m (hr_cookies request) = Some token
    ∧ session_user (TokenDigest Sum256 token) now t = Some u.

Lemma Principal_tables m request now d : ∃ d' p, Manager_Principal Sum256 m (hr_cookies request) now d = (d', Ok p)
  ∧ tables d' = tables d
  ∧ match p with
    | Some q => ∃ u, signed_in m request now (tables d) u ∧ q = mkPrincipal (uID u) (uUsername u)
    | None => faults d = [] → (∀ l, length (Sum256 l) = 32%nat) → ∀ u, ¬ signed_in m request now (tables d) u
    end.
Proof.
  unfold signed_in. destruct (session_cookie m (hr_cookies request)) as [token|] eqn:Hc.
  2:{ unfold Manager_Principal. rewrite Hc. exists d, None. naive_solver. }
  pose proof (Principal_run Sum256 m (hr_cookies request) token now d) as Hps.
  unfold Manager_Principal in *. rewrite Hc in *.
  unfold mbind, cmd_bind, catch in *.
  destruct (UserForSession (TokenDigest Sum256 token) now d) as [d' r] eqn:Hu.
  eexists d', _. split; [done|].
  assert (tables d' = tables d) as Ht.
  { change d' with (d', r).1. rewrite <-Hu. by apply (keeps_UserForSession (λ t, t = tables d)). }
  split; [done|]. destruct r as [u|e].
  - exists u. split; [|done]. exists token. split; [done|].
    unfold UserForSession in Hu. apply cmd_bind_inv in Hu as ([] & d1 & Hg & Hu).
    unfold guard_err in Hg. destruct (bool_decide _); [done|]. injection Hg as <-.
    apply cmd_bind_inv in Hu as (row & d2 & Hq & Hs). apply wrapped_ok, query_ok in Hq as (-> & _).
    unfold scanUser in Hs. destruct (session_user _ now (tables d)) as [u0|] eqn:Hu0; [|done].
    by injection Hs as <- <-.
  - intros Hf Hl u (t & [= <-] & Hus). specialize (Hps Hf eq_refl (TokenDigest_length _ Hl _)). by rewrite Hus in Hps.
Qed.

(** C12: Whatever the state of the database, a request is answered by exactly
    one of these outcomes, and the tables are untouched until its handler runs.
    A request whose method may change something and that is not sent to one of
    the allowed hosts, from the plain http or https address of that host where
    an Origin header names one, is answered 403.  Any other is answered 404 or
    405 exactly when no pattern of its method matches the path, 405 where a
    pattern of another method does.  One for a handler other than the health,
    version, login and setup ones is answered 500 without an authentication
    manager and 401 when no live session is found, which on a working database
    means that its cookie names none in the tables.  Otherwise the handler of
    the matching pattern runs, a protected one as the user of the session in the
    tables; and a handler that does more than read only for a request from the
    own site. *)
Theorem requests_guarded config request now d :
  ∃ d' outcome, ServeHTTP config request now d = (d', Ok outcome) ∧ tables d' = tables d ∧
  let acceptable := unsafe_method (hr_method request) = true → from_own_site config request in
  match outcome with
  | Refused status code =>
      status = StatusForbidden ∧ code = "origin_forbidden"
        ∧ unsafe_method (hr_method request) = true ∧ ¬ from_own_site config request
      ∨ acceptable ∧ code = "" ∧ ¬ offered (asked_method (hr_method request)) (hr_path request)
        ∧ (status = StatusMethodNotAllowed ∧ (∃ m, offered m (hr_path request))
           ∨ status = StatusNotFound ∧ ∀ m, ¬ offered m (hr_path request))
      ∨ acceptable ∧ ∃ handler, route (hr_method request) (hr_path request) = Some (WithAuth, handler)
        ∧ is_public handler = false
        ∧ (status = StatusInternalServerError ∧ code = "auth_unavailable" ∧ sc_auth config = None
           ∨ status = StatusUnauthorized ∧ code = "auth_required"
             ∧ ∃ m, sc_auth config = Some m
               ∧ (faults d = [] → (∀ l, length (Sum256 l) = 32%nat) → ∀ u, ¬ signed_in m request now (tables d) u))
  | Reached handler principal =>
      acceptable ∧ (∃ access, route (hr_method request) (hr_path request) = Some (access, handler))
      ∧ (only_reads handler = false → unsafe_method (hr_method request) = true ∧ from_own_site config request)
      ∧ (is_public handler = true → principal = None)
      ∧ (is_public handler = false → ∃ m u, sc_auth config = Some m ∧ signed_in m request now (tables d) u
           ∧ principal = Some (mkPrincipal (uID u) (uUsername u)))
  end.
Proof.
  unfold ServeHTTP. destruct (origin_allowed _ _ request) eqn:Ho; cbn [negb].
  2:{ eexists d, _. split_and!; [done|done|]. left. split_and!; [done|done|..].
      - unfold origin_allowed in Ho. by destruct (unsafe_method _).
      - intros Hs. assert (unsafe_method (hr_method request) = true → from_own_site config request) as H by done.
        apply origin_allowed_iff in H. by rewrite H in Ho. }
  pose proof (proj1 (origin_allowed_iff _ _) Ho) as Hown. destruct (route (hr_method request) (hr_path request)) as [[access handler]|] eqn:Hr.
  2:{ eexists d, _. split_and!; [done|done|]. right; left. split_and!; [done|done|by apply route_none|]. apply no_route_spec. }
  destruct (route_sound _ _ _ _ Hr) as [Ha Hun].
  assert (only_reads handler = false → unsafe_method (hr_method request) = true ∧ from_own_site config request) as Hmay
    by (intros H; exact (conj (Hun H) (Hown (Hun H)))).
  destruct access.
  { exists d, (Reached handler None). do 3 (split; [done|]). split; [by eexists|]. do 2 (split; [done|]).
    by destruct (is_public handler). }
  assert (is_public handler = false) as Hp by by destruct (is_public handler).
  unfold withAuth. destruct (sc_auth config) as [m|] eqn:Hm.
  2:{ eexists d, _. do 2 (split; [done|]). right; right. split; [done|]. exists handler. do 2 (split; [done|]). by left. }
  destruct (Principal_tables m request now d) as (d' & p & Hp' & Ht & Hsome).
  rewrite (cmd_bind_ok _ _ _ _ _ Hp'). exists d'. destruct p as [q|]; eexists; (split; [done|]); (split; [done|]).
  - split; [done|]. split; [by eexists|]. split; [done|]. rewrite Hp. split; [done|]. intros _.
    destruct Hsome as (u & Hu & ->). by exists m, u.
  - right; right. split; [done|]. exists handler. do 2 (split; [done|]). right. do 2 (split; [done|]). by exists m.
Qed.
End guard.
