(* ===== verification/Destinations.v ===== *)
(** * Names of new downloads (internal/api/api.go)

    Joining a destination directory with a path, and finding a name that no
    other file of the same job has; every new name is longer than the one it
    replaces, which is why planning ends. *)

From Stdlib Require Import ZArith Lia Ascii.
From stdpp Require Import base list gmap strings numbers pretty.
From S2P Require Import Prelude GoStrings GoErrors Paths FsRoot FsRootOps Network.

(** ** Destinations *)

Definition joinRelative (prefix value : string) : string :=
  if bool_decide (prefix = "") then value
  else if bool_decide (value = "") then prefix
  else prefix +:+ "/" +:+ value.

(** The loop over the counter; it stops before the fuel of the caller. *)
Fixpoint unused_candidate (base ext : string) (seen : gset string) (fuel : nat) (index : Z) : string :=
  let candidate := candidate_name base ext index in
  match fuel with
  | O => candidate
  | S fuel => if bool_decide (candidate ∈ seen) then unused_candidate base ext seen fuel (index + 1) else candidate
  end.

Definition uniqueRelativePath (value : string) (seen : gset string) : string :=
  if bool_decide (value ∈ seen) then
    let '(base, ext) := match last_cut value "." with
                        | Some (before, after) => if bool_decide (before = "") then (value, "") else (before, "." +:+ after)
                        | None => (value, "")
                        end in
    unused_candidate base ext seen (size seen) 1
  else value.

(** ** Lemmas on strings *)

Lemma last_cut_join s c before after : last_cut s c = Some (before, after) → s = before +:+ String c after.
Proof.
  revert before after. induction s as [|a s IH]; intros before after; [done|]. cbn [last_cut].
  destruct (last_cut s c) as [[b t]|].
  - intros [= <- <-]. rewrite (IH b t eq_refl). done.
  - case_bool_decide as Ha; [|done]. intros [= <- <-]. by rewrite Ha.
Qed.

Lemma length_rev_app a b : String.length (String.rev_app a b) = (String.length a + String.length b)%nat.
Proof. revert b. induction a as [|c a IH]; intros b; [done|]. cbn. rewrite IH. cbn. lia. Qed.

Lemma str_elem_rev_app c a b : str_elem c (String.rev_app a b) = str_elem c a || str_elem c b.
Proof.
  revert b. induction a as [|x a IH]; intros b; [done|]. cbn. rewrite IH. cbn.
  by rewrite orb_assoc, (orb_comm (str_elem c a)).
Qed.

Lemma length_drop_str n s : String.length (drop_str n s) = (String.length s - n)%nat.
Proof. revert s. induction n as [|n IH]; intros [|c s]; cbn; auto. Qed.

Lemma str_elem_drop c n s : str_elem c s = false → str_elem c (drop_str n s) = false.
Proof.
  revert s. induction n as [|n IH]; intros [|x s]; cbn; try done. intros [_ H]%orb_false_iff. by apply IH.
Qed.

Lemma length_TrimSuffix s p : (String.length s ≤ String.length (TrimSuffix s p) + String.length p)%nat.
Proof.
  unfold TrimSuffix, rev_str, String.rev. destruct (HasSuffix s p); [|lia].
  rewrite length_rev_app, length_drop_str, length_rev_app. cbn. lia.
Qed.

Lemma str_elem_TrimSuffix c s p : str_elem c s = false → str_elem c (TrimSuffix s p) = false.
Proof.
  intros H. unfold TrimSuffix, rev_str, String.rev. destruct (HasSuffix s p); [|done].
  rewrite str_elem_rev_app, str_elem_drop; [done|]. by rewrite str_elem_rev_app, H.
Qed.

Lemma str_elem_Ext c s : str_elem c s = false → str_elem c (Ext s) = false.
Proof.
  intros H. unfold Ext. assert (∀ back acc, str_elem c back = false → str_elem c acc = false →
    str_elem c (ext_scan back acc) = false) as Hscan.
  { induction back as [|x back IH]; intros acc; [done|]. cbn [str_elem ext_scan]. intros [Hx Hb]%orb_false_iff Ha.
    destruct (bool_decide (x = "."%char)); [|destruct (bool_decide (x = Slash)); [done|]; apply IH; [done|]];
      cbn [str_elem]; rewrite Hx; exact Ha. }
  apply Hscan; [|done]. unfold rev_str, String.rev. by rewrite str_elem_rev_app, H.
Qed.

Lemma FormatInt_inj i j : 0 ≤ i → 0 ≤ j → FormatInt i = FormatInt j → i = j.
Proof.
  intros Hi Hj. rewrite !FormatInt_nonneg by done. intros H%(inj pretty). lia.
Qed.

Lemma candidate_inj stem ext i j : 0 ≤ i → 0 ≤ j → candidate_name stem ext i = candidate_name stem ext j → i = j.
Proof.
  intros Hi Hj. unfold candidate_name. intros H%(inj (String.app stem))%(inj (String.app " (")).
  apply FormatInt_inj; [done..|]. eapply str_app_inj_r. exact H.
Qed.

Lemma length_candidate stem ext i :
  (String.length stem + String.length ext < String.length (candidate_name stem ext i))%nat.
Proof. unfold candidate_name. rewrite !str_length_app. cbn. lia. Qed.

(** ** A name nobody has *)

Lemma unused_candidate_form base ext seen fuel index :
  ∃ i, index ≤ i ≤ index + Z.of_nat fuel ∧ unused_candidate base ext seen fuel index = candidate_name base ext i
    ∧ (∀ j, index ≤ j < i → candidate_name base ext j ∈ seen)
    ∧ (i < index + Z.of_nat fuel → candidate_name base ext i ∉ seen).
Proof.
  revert index. induction fuel as [|fuel IH]; intros index; cbn [unused_candidate].
  { exists index. split_and!; [lia|lia|done|intros; lia|intros; lia]. }
  case_bool_decide as Hin.
  - destruct (IH (index + 1)) as (i & Hi & Heq & Hlow & Hlast). exists i. split_and!; [lia|lia|done| |].
    + intros j Hj. destruct (decide (j = index)) as [->|]; [done|]. apply Hlow. lia.
    + intros H. apply Hlast. lia.
  - exists index. split_and!; [lia|lia|done|intros; lia|done].
Qed.

(** As many candidates as there are names taken, and one more. *)
Lemma unused_candidate_fresh base ext seen : unused_candidate base ext seen (size seen) 1 ∉ seen.
Proof.
  destruct (unused_candidate_form base ext seen (size seen) 1) as (i & Hi & -> & Hlow & Hlast).
  destruct (decide (i < 1 + Z.of_nat (size seen))) as [Hlt|Hge]; [by apply Hlast|]. intros Hin.
  set (names := list_to_set (candidate_name base ext <$> seqZ 1 (Z.of_nat (S (size seen)))) : gset string).
  assert (names ⊆ seen) as Hsub.
  { intros x (j & -> & Hj%elem_of_seqZ)%elem_of_list_to_set%list_elem_of_fmap.
    destruct (decide (j = i)) as [->|]; [done|]. apply Hlow. lia. }
  apply subseteq_size in Hsub. revert Hsub. unfold names. rewrite size_list_to_set.
  - rewrite length_fmap, length_seqZ. lia.
  - apply NoDup_fmap_2_strong; [|apply NoDup_seqZ].
    intros j k Hj%elem_of_seqZ Hk%elem_of_seqZ. apply candidate_inj; lia.
Qed.

Lemma uniqueRelativePath_fresh value seen : uniqueRelativePath value seen ∉ seen.
Proof.
  unfold uniqueRelativePath. case_bool_decide as Hin; [|done].
  destruct (last_cut value ".") as [[before after]|]; [case_bool_decide|]; apply unused_candidate_fresh.
Qed.

Lemma uniqueRelativePath_longer value seen : value ∈ seen →
  (String.length value < String.length (uniqueRelativePath value seen))%nat.
Proof.
  intros Hin. unfold uniqueRelativePath. rewrite bool_decide_eq_true_2 by done.
  assert (∀ base ext, (String.length value ≤ String.length base + String.length ext)%nat →
    (String.length value < String.length (unused_candidate base ext seen (size seen) 1))%nat) as Hlong.
  { intros base ext Hl. destruct (unused_candidate_form base ext seen (size seen) 1) as (i & _ & -> & _).
    pose proof (length_candidate base ext i). lia. }
  destruct (last_cut value ".") as [[before after]|] eqn:Hc; [|apply Hlong; cbn; lia].
  case_bool_decide; apply Hlong; [cbn; lia|].
  rewrite (last_cut_join _ _ _ _ Hc), !str_length_app. cbn. lia.
Qed.

(** ** The names conflict planning tries *)

Lemma candidate_valid name ext i : 0 ≤ i → valid_component name → ext = "" ∨ ext = Ext name →
  valid_component (candidate_name (TrimSuffix name ext) ext i).
Proof.
  intros Hi Hname Hext. apply Is_true_true, valid_component_spec in Hname as (_ & _ & _ & H1 & H2 & H3).
  assert (∀ c, digit_val c = None → str_elem c " (" = false → str_elem c ")" = false → str_elem c name = false →
    str_elem c (candidate_name (TrimSuffix name ext) ext i) = false) as Hno.
  { intros c Hd Hp Hq Hc. unfold candidate_name.
    rewrite !str_elem_app, str_elem_TrimSuffix, Hp, Hq, all_digits_no_elem by (done || by apply FormatInt_digits).
    destruct Hext as [->| ->]; [done|by apply str_elem_Ext]. }
  pose proof (length_candidate (TrimSuffix name ext) ext i) as Hl.
  assert (∀ s, (String.length s ≤ 2)%nat → candidate_name (TrimSuffix name ext) ext i ≠ s) as Hlen.
  { intros s Hs <-. revert Hs. unfold candidate_name. rewrite !str_length_app. cbn. lia. }
  apply Is_true_true, valid_component_spec. split_and!; try (apply Hlen; cbn; lia); by apply Hno.
Qed.

Lemma Join_two_levels l c : l ≠ [] → Join [Join l "/"; c] "/" = Join (l ++ [c]) "/".
Proof.
  rewrite (Join_cons (Join l "/") [c]) by done. change (Join [c] "/") with c.
  induction l as [|x l IH]; [done|]. intros _. destruct l as [|y l]; [done|].
  change ((x :: y :: l) ++ [c]) with (x :: ((y :: l) ++ [c])).
  rewrite (Join_cons x ((y :: l) ++ [c])), (Join_cons x (y :: l)) by done. rewrite <-IH by done.
  by rewrite !str_app_assoc.
Qed.

Lemma filepath_Join_snoc init c : Forall valid_component (init ++ [c]) →
  filepath_Join [Join init "/"; c] = Join (init ++ [c]) "/".
Proof.
  intros Hall. destruct init as [|x init].
  - change (filepath_Join [c] = Join [c] "/"). by apply filepath_Join_valid.
  - pose proof Hall as [Hi _]%Forall_app. cbn [filepath_Join].
    rewrite bool_decide_eq_false_2 by (by apply Join_nonempty).
    rewrite Join_two_levels by done. by apply Clean_valid.
Qed.

(** A counter only makes a path longer. *)
Lemma candidate_path_longer relative i : 0 ≤ i → relative ≠ "" → Forall valid_component (components relative) →
  (String.length relative < String.length (candidate_path relative i))%nat.
Proof.
  intros Hi Hne Hval. pose proof (Join_components relative Hne) as Hj.
  destruct (components relative) as [|name init _] eqn:Hc using rev_ind; [by apply components_nonempty in Hne|].
  pose proof Hval as [Hinit [Hname _]%Forall_cons]%Forall_app.
  unfold candidate_path. rewrite <-Hj at 2. rewrite splitRelative_valid by done.
  set (ext := if bool_decide (Ext name = name) then "" else Ext name).
  assert (ext = "" ∨ ext = Ext name) as Hext by (unfold ext; case_bool_decide; auto).
  rewrite filepath_Join_snoc.
  2:{ apply Forall_app. split; [done|]. constructor; [|constructor]. by apply candidate_valid. }
  rewrite <-Hj. pose proof (length_TrimSuffix name ext). pose proof (length_candidate (TrimSuffix name ext) ext i).
  assert (∀ c d, (String.length c < String.length d)%nat →
    (String.length (Join (init ++ [c]) "/") < String.length (Join (init ++ [d]) "/"))%nat) as Hlen.
  { intros c d Hcd. destruct init as [|x init]; [done|]. rewrite <-!Join_two_levels by done.
    rewrite !(Join_cons (Join (x :: init) "/")) by done. rewrite !str_length_app. cbn. lia. }
  apply Hlen. lia.
Qed.
