(* ===== verification/ApiServer.v ===== *)
(** * The API server: its state and the MEGA clients it uses (internal/api/api.go)

    What the handlers work on, how they answer, and how a request gets a MEGA
    client: through a proxy profile, for an account, and for resolving a link.
    The functions of the platform and of third-party packages are one record. *)

From Stdlib Require Import ZArith Lia Ascii.
From stdpp Require Import base list gmap strings numbers pretty.
From S2P Require Import Prelude GoStrings GoErrors GoBase64 Crypto Paths Store StoreDownloads StoreAccounts FsRoot FsRootOps Secrets Queue Lifecycle MegaValues Links MegaClient Folder MegaAccounts Settings Network.

(** ** Answers *)

Record HTTPError := mkHTTPError { he_status : Z; he_code : string; he_message : string }.

Definition StatusOK : Z := 200.
Definition StatusCreated : Z := 201.
Definition StatusBadRequest : Z := 400.
Definition StatusNotFound : Z := 404.
Definition StatusConflict : Z := 409.
Definition StatusInternalServerError : Z := 500.
Definition StatusServiceUnavailable : Z := 503.

(** A request body read through its size limit, as the JSON decoder finds it:
    empty, not the JSON wanted, followed by more than one value, or one value. *)
Inductive Body (A : Type) :=
| EmptyBody
| BadBody
| TrailingBody (value : A)
| OneValue (value : A).
Arguments EmptyBody {A}.
Arguments BadBody {A}.
Arguments TrailingBody {A} _.
Arguments OneValue {A} _.

(** ** The server *)

(** What lies outside the repository's code. *)
Record Platform := mkPlatform {
  url_Parse : string → result error URL;
  Base64ToBytes : string → result error (list Z);
  aes_E : list Z → list Z → list Z;
  aes_D : list Z → list Z → list Z;
  pbkdf2 : list Z → list Z → Z → nat → list Z;
  ctx_Err : Client → option error;
  json_object : list Z → result error (gmap string any);
  gcm : AEAD;
  range : ∀ A, gmap string A → list (string * A);
  paths_json : Codec PathsSettings;
  downloads_json : Codec DownloadSettings;
  network_json : Codec NetworkSettings;
  ui_json : Codec UISettings;
  (** The [n] bytes of the k-th read of [crypto/rand]. *)
  rand : nat → nat → result error (list Z);
  (** The device of a directory. *)
  device : path → Z }.

(** The parts of the configuration that may be missing. *)
Record Config := mkConfig {
  cfg_DB : bool;
  cfg_Secrets : option SecretStore;
  cfg_Settings : bool;
  cfg_Mega : bool;
  cfg_Downloads : bool }.

(** What the API publishes on the event bus. *)
Inductive APIEvent :=
| JobCreated (id : string) (totalBytes : Z)
| AccountUpdated (id : string) (deleted : bool)
| ProxyUpdated (id : string) (deleted : bool)
| SettingsUpdated (value : Settings).

(** [sv_mega] is the shared client; the network's coming replies are in
    [sv_replies], and [sv_sent] has every request with the HTTP client of the
    pool that carried it, [None] for the server's own.  [sv_made] are the clients
    the download manager has made, each with its HTTP client, and
    [sv_account_clients] which of them it keeps, by account and proxy. *)
Record Server := mkServer {
  sv_world : World;
  sv_pool : TransportPool;
  sv_mega : Client;
  sv_replies : list Reply;
  sv_sent : list (option nat * Request);
  sv_account_clients : gmap string nat;
  sv_made : list (option nat * Client);
  sv_draws : nat;
  sv_published : list APIEvent }.

#[export] Instance Server_eta : Eta Server := λ s,
  mkServer (sv_world s) (sv_pool s) (sv_mega s) (sv_replies s) (sv_sent s) (sv_account_clients s) (sv_made s)
    (sv_draws s) (sv_published s).

Abbreviation srv := (cmd error Server).
Abbreviation handler := (cmd HTTPError Server).

Definition on_world {A} (m : life A) : srv A := λ s,
  let (w, r) := m (sv_world s) in (s <| sv_world := w |>, r).
Definition on_pool {A} (m : cmd error TransportPool A) : srv A := λ s,
  let (p, r) := m (sv_pool s) in (s <| sv_pool := p |>, r).
Definition on_rows {A} (m : store_cmd A) : srv A := on_world (on_db m).
Definition on_files {A} (m : fs_cmd A) : srv A := on_world (on_fs m).

Definition server_now : srv Z := λ s, (s, Ok (wall (w_db (sv_world s)))).
Definition publish (e : APIEvent) : handler () :=
  modify (λ s, s <| sv_published := sv_published s ++ [e] |>).

(** [writeError] ends a handler; what was done stays done. *)
Definition writeError {A} (status : Z) (code message : string) : handler A :=
  throw (mkHTTPError status code message).
Definition writeJSON {A} (status : Z) (data : A) : handler (Z * A) := mret (status, data).

(** [if err != nil { writeError(...); return }]. *)
Definition or_write {A} (m : srv A) (answer : error → HTTPError) : handler A := λ s,
  match m s with
  | (s, Ok a) => (s, Ok a)
  | (s, Err e) => (s, Err (answer e))
  end.
Definition attempt {A} (m : srv A) : handler (result error A) := λ s,
  let (s, r) := m s in (s, Ok r).
Definition require (b : bool) (status : Z) (code message : string) : handler () :=
  if b then mret () else writeError status code message.

Definition decodeJSON {A} (body : Body A) : handler A :=
  match body with
  | OneValue value => mret value
  | EmptyBody => writeError StatusBadRequest "empty_body" "request body is invalid"
  | BadBody => writeError StatusBadRequest "invalid_json" "request body is invalid"
  | TrailingBody _ => writeError StatusBadRequest "invalid_json" "request body must contain one JSON value"
  end.

Definition errorCode (e : error) : string :=
  if errors_is e ErrInvalidLink || errors_is e ErrInvalidKey then "link_invalid"
  else if errors_is e ErrReauthRequired then "account_reauth_required"
  else if errors_is e ErrMFAUnsupported then "account_mfa_unsupported"
  else "resolve_failed".

(** ** Cached account clients of the manager (manager.go) *)

Definition NulString : string := String Nul "".

(** [accountID + "\x00" + proxyID]. *)
Definition account_key (accountID proxyID : string) : string := accountID +:+ NulString +:+ proxyID.

Definition InvalidateAccountSession (accountID : string) : srv () :=
  if bool_decide (accountID = "") then mret ()
  else modify (λ s, s <| sv_account_clients :=
         filter (λ kc, HasPrefix kc.1 (accountID +:+ NulString) = false) (sv_account_clients s) |>).

Definition InvalidateProxySessions (proxyID : string) : srv () :=
  if bool_decide (proxyID = "") then mret ()
  else modify (λ s, s <| sv_account_clients :=
         filter (λ kc, HasSuffix kc.1 (NulString +:+ proxyID) = false) (sv_account_clients s) |>).

(** ** Identifiers *)

Definition hex_digit (n : Z) : string :=
  String (ascii_of_N (Z.to_N (if n <? 10 then 48 + n else 87 + n))) "".
Definition hex_bytes (l : list Z) : string :=
  foldr (λ b s, hex_digit (b `div` 16) +:+ hex_digit (b `mod` 16) +:+ s) "" l.
Fixpoint hex_digits (fuel : nat) (n : Z) (acc : string) : string :=
  match fuel with
  | O => acc
  | S fuel => if n <? 16 then hex_digit n +:+ acc else hex_digits fuel (n `div` 16) (hex_digit (n `mod` 16) +:+ acc)
  end.
(** [fmt.Sprintf("%x", n)]; sixteen digits hold every int64. *)
Definition hex_int (n : Z) : string := if n <? 0 then "-" +:+ hex_digits 16 (- n) "" else hex_digits 16 n "".

(** [UnixNano] of a time since year 1. *)
Definition UnixNano (t : Z) : Z := wrap64 (t - 62135596800 * Second).

Section server.
Context (pf : Platform) (config : Config).

Definition read_random (n : nat) : srv (list Z) := λ s,
  (s <| sv_draws := S (sv_draws s) |>, rand pf (sv_draws s) n).

Definition randomID : srv string :=
  r ← catch (read_random 16);
  match r with
  | Ok raw => mret (hex_bytes raw)
  | Err _ => now ← server_now; mret (hex_int (UnixNano now))
  end.

(** [SecretStore.Encrypt] with the nonce it reads. *)
Definition Encrypt (secrets : SecretStore) (plaintext : list Z) : srv (list Z) :=
  nonce ← read_random (NonceSize (gcm pf));
  mret (SecretStore_Encrypt (gcm pf) secrets nonce plaintext).

(** ** MEGA clients *)

(** A [*mega.Client]: the server's, or one made for this request over an HTTP
    client. *)
Inductive MegaClient :=
| Shared
| Separate (http : option nat) (c : Client).

Definition client_route (m : MegaClient) : option nat :=
  match m with Shared => None | Separate http _ => http end.
Definition client_base (m : MegaClient) (s : Server) : Client :=
  match m with Shared => sv_mega s | Separate _ c => c end.

(** Commands over a client and the database, as an account lifecycle has them,
    with the client they leave behind. *)
Definition run_client {A} (http : option nat) (c : Client) (run : cmd error AccountLifecycle A) (s : Server)
    : Server * Client * result error A :=
  let (l, r) := run (mkLifecycle (c <| replies := sv_replies s |> <| sent := [] |>) (w_db (sv_world s))) in
  let c := al_client l in
  (s <| sv_replies := replies c |> <| sv_sent := sv_sent s ++ (pair http <$> sent c) |>
     <| sv_world := sv_world s <| w_db := al_db l |> |>, c, r).

Definition on_lifecycle {A} (m : MegaClient) (run : cmd error AccountLifecycle A) : srv A := λ s,
  let '(s', c, r) := run_client (client_route m) (client_base m s) run s in
  (match m with Shared => s' <| sv_mega := c |> | Separate _ _ => s' end, r).

Definition on_mega {A} (m : MegaClient) (run : api A) : srv A := on_lifecycle m (on_client run).

(** [client.WithSession]. *)
Definition client_with_session (m : MegaClient) (session : string) : srv MegaClient := λ s,
  (s, Ok (Separate (client_route m) (WithSession (client_base m s) session))).

(** The profile as the transport pool takes it. *)
Definition transport_profile (r : ProxyProfileRecord) (password : string) : ProxyProfile :=
  mkProfile (prID r) (prName r) (prType r) (prHost r) (prPort r) (prUsername r) password
    (wrap64 (prTimeout r * Second)) (prEnabled r).

(** The connection of a profile that was read, with its password opened. *)
Definition proxy_transport (secrets : SecretStore) (proxyID : string) (profile : ProxyProfileRecord) : srv nat :=
  _ ← guard_err (negb (prEnabled profile)) (New "proxy profile is disabled");
  ciphertext ← on_rows (ProxySecret proxyID);
  password ←
    (if bool_decide (ciphertext = []) then mret ""
     else match SecretStore_Decrypt (gcm pf) secrets ciphertext with
     | Ok plain => mret (of_bytes plain)
     | Err _ => throw (New "proxy credentials are unavailable")
     end);
  on_pool (Pool_Client (url_Parse pf) (transport_profile profile password)).

Definition clientForProxy (proxyID : string) : srv MegaClient :=
  if bool_decide (proxyID = "") then mret Shared
  else match cfg_Secrets config with
  | Some secrets =>
      _ ← guard_err (negb (cfg_DB config && cfg_Mega config)) (New "proxy transport is unavailable");
      profile ← on_rows (GetProxyProfile proxyID);
      http ← proxy_transport secrets proxyID profile;
      s ← get;
      mret (Separate (Some http) (sv_mega s <| sequence := 0 |>))
  | None => throw (New "proxy transport is unavailable")
  end.

Definition clientForAccountWithProxy (accountID proxyID : string) : srv MegaClient :=
  if bool_decide (accountID = "") then clientForProxy proxyID
  else match cfg_Secrets config with
  | Some secrets =>
      _ ← guard_err (negb (cfg_DB config)) (New "account storage is unavailable");
      client ← clientForProxy proxyID;
      draw ← catch (read_random 16);
      nonce ← catch (read_random (NonceSize (gcm pf)));
      now ← server_now;
      session ← on_lifecycle client (ClientFor (Base64ToBytes pf) (aes_E pf) (aes_D pf) (pbkdf2 pf) (ctx_Err pf)
                  (gcm pf) secrets accountID draw nonce now);
      _ ← (if cfg_Downloads config then InvalidateAccountSession accountID else mret ());
      client_with_session client session
  | None => throw (New "account storage is unavailable")
  end.

Definition clientForAccount (accountID : string) : srv MegaClient := clientForAccountWithProxy accountID "".

(** ** Resolving a link *)

Record resolveRequest := mkResolveRequest { rrURL : string; rrAccountID : string; rrProxyID : string }.
Record resolvedFileResponse := mkResolvedFileResponse { rsNodeID : string; rsRelativePath : string; rsSize : Z }.
Record resolvedResponse := mkResolvedResponse {
  rsKind : LinkKind;
  rsDisplayName : string;
  rsTotalBytes : Z;
  rsFileCount : Z;
  rsFiles : list resolvedFileResponse }.

Fixpoint safe_files (files : list ResolvedFile) : result error (list resolvedFileResponse) :=
  match files with
  | [] => Ok []
  | file :: files =>
      match SanitizeRelativePath (rf_RelativePath file) with
      | Err e => Err (Wrapf ("remote path " +:+ quote (rf_RelativePath file)) e)
      | Ok safePath =>
          rest ← safe_files files;
          Ok (mkResolvedFileResponse (rf_NodeID file) safePath (rf_Size file) :: rest)
      end
  end.

Definition resolve (input : resolveRequest) : srv (PublicLink * ResolvedJob * resolvedResponse) :=
  _ ← guard_err (bool_decide (TrimSpace (rrURL input) = "")) (New "URL is required");
  link ← lift_result (ParseLink (url_Parse pf) (rrURL input));
  _ ← guard_err (negb (cfg_Mega config)) (New "MEGA resolver is unavailable");
  client ← clientForAccountWithProxy (rrAccountID input) (rrProxyID input);
  job ← on_mega client (ResolveLink (Base64ToBytes pf) (aes_D pf) (json_object pf) (url_Parse pf) (rrURL input));
  files ← lift_result (safe_files (rj_Files job));
  mret (link, job, mkResolvedResponse (rj_Kind job) (rj_DisplayName job) (rj_TotalBytes job)
                     (Z.of_nat (length files)) files).

Definition handleResolve (body : Body resolveRequest) : handler (Z * resolvedResponse) :=
  input ← decodeJSON body;
  resolved ← or_write (resolve input) (λ e, mkHTTPError StatusBadRequest (errorCode e) (Error e));
  writeJSON StatusOK resolved.2.
End server.

(** ** Running handler steps *)

Lemma or_write_inv {A} (m : srv A) answer s s' a : or_write m answer s = (s', Ok a) → m s = (s', Ok a).
Proof. unfold or_write. destruct (m s) as [s1 [b|e]]; [by intros [= <- <-]|done]. Qed.

Lemma preserves_or_write {A} I (m : srv A) answer : preserves I m → preserves I (or_write m answer).
Proof. intros Hm s Hs. specialize (Hm s Hs). unfold or_write. by destruct (m s) as [s1 [b|e]]. Qed.

Lemma preserves_world {A} I (m : life A) : (∀ s, I s → I (s <| sv_world := (m (sv_world s)).1 |>)) → preserves I (on_world m).
Proof. intros H s Hs. specialize (H s Hs). unfold on_world. by destruct (m (sv_world s)). Qed.

Lemma preserves_rows {A} I (m : store_cmd A) :
  (∀ s, I s → I (s <| sv_world := db_ran (m (w_db (sv_world s))).1 (sv_world s) |>)) → preserves I (on_rows m).
Proof.
  intros H. apply preserves_world. intros s Hs. specialize (H s Hs). unfold on_db. by destruct (m (w_db (sv_world s))).
Qed.

Lemma preserves_pool {A} I (m : cmd error TransportPool A) :
  (∀ s p, I s → I (s <| sv_pool := p |>)) → preserves I (on_pool m).
Proof. intros H s Hs. unfold on_pool. destruct (m (sv_pool s)). by apply H. Qed.

(** Facts of a predicate on the server for commands that cannot break it. *)
Ltac server_step :=
  lazymatch goal with
  | |- preserves _ (mbind _ _) => apply preserves_bind; [|intros ?]
  | |- preserves _ (mret _) => apply preserves_ret
  | |- preserves _ (throw _) => apply preserves_throw
  | |- preserves _ get => apply preserves_get
  | |- preserves _ (catch _) => apply preserves_catch
  | |- preserves _ (ignore _) => apply preserves_ignore
  | |- preserves _ (guard_err ?b _) => unfold guard_err; destruct b
  | |- preserves _ (lift_result _) => intros ? ?; assumption
  | |- preserves _ (or_write _ _) => apply preserves_or_write
  | |- preserves _ server_now => intros ? ?; assumption
  | |- preserves _ (client_with_session _ _) => intros ? ?; assumption
  | |- preserves _ (match ?x with _ => _ end) => destruct x
  end.

(** ** Requests go through the chosen proxy *)

Section proxied.
Context (pf : Platform) (config : Config).

(** What has been sent since [s0] went through [http], and the shared client,
    the pool and the proxies are those of [s0]. *)
Definition via (http : option nat) (s0 s : Server) : Prop :=
  (∃ reqs, sv_sent s = sv_sent s0 ++ (pair http <$> reqs)) ∧ sv_mega s = sv_mega s0 ∧ sv_pool s = sv_pool s0.

Lemma via_refl http s : via http s s.
Proof. split; [exists []; by rewrite app_nil_r|done]. Qed.

Lemma via_rows http s0 {A} (m : store_cmd A) : preserves (via http s0) (on_rows m).
Proof. by apply preserves_rows. Qed.

Lemma via_random http s0 n : preserves (via http s0) (read_random pf n).
Proof. by intros s Hs. Qed.

Lemma via_invalidate http s0 id : preserves (via http s0) (InvalidateAccountSession id).
Proof. unfold InvalidateAccountSession. server_step; [apply preserves_ret|by apply preserves_modify]. Qed.

Lemma via_lifecycle http c s0 {A} (run : cmd error AccountLifecycle A) :
  preserves (via http s0) (on_lifecycle (Separate http c) run).
Proof.
  intros s ((reqs & Hr) & Hm & Hp). unfold on_lifecycle, run_client. destruct (run _) as [l r]. cbn.
  split; [|done]. exists (reqs ++ sent (al_client l)). cbn. by rewrite Hr, fmap_app, app_assoc.
Qed.

(** The password stored with a profile, opened. *)
Definition proxy_password (row : ProxyRow) (password : string) : Prop :=
  pPassword row = [] ∧ password = ""
  ∨ ∃ secrets plain, cfg_Secrets config = Some secrets
      ∧ SecretStore_Decrypt (gcm pf) secrets (pPassword row) = Ok plain ∧ password = of_bytes plain.

(** The HTTP client of a request that names a proxy. *)
Definition proxy_client (proxyID : string) (s : Server) (http : nat) (s' : Server) : Prop :=
  ∃ row password, proxies (tables (w_db (sv_world s))) !! proxyID = Some row ∧ pEnabled row = true
    ∧ proxy_password row password
    ∧ (pType row ≠ ProxyDirect → built_for (url_Parse pf) (sv_pool s') (transport_profile (scanProxy row) password) http).

Lemma on_rows_inv {A} (m : store_cmd A) s s' r : on_rows m s = (s', r) →
  ∃ d, m (w_db (sv_world s)) = (d, r) ∧ s' = s <| sv_world := db_ran d (sv_world s) |>.
Proof.
  unfold on_rows, on_world, on_db. destruct (m (w_db (sv_world s))) as [d r0]. intros [= <- <-]. by exists d.
Qed.

Lemma GetProxyProfile_ok id d d' p : GetProxyProfile id d = (d', Ok p) →
  ∃ row, proxies (tables d) !! id = Some row ∧ p = scanProxy row ∧ tables d' = tables d.
Proof.
  unfold GetProxyProfile. intros (row & d1 & (-> & Ht & _)%query_ok & H)%cmd_bind_inv.
  destruct (proxies (tables d) !! id) as [row|]; [|done]. injection H as <- <-. by exists row.
Qed.

Lemma ProxySecret_ok id d d' c : ProxySecret id d = (d', Ok c) →
  ∃ row, proxies (tables d) !! id = Some row ∧ c = pPassword row ∧ tables d' = tables d.
Proof.
  unfold ProxySecret. intros (row & d1 & (-> & Ht & _)%query_ok & H)%cmd_bind_inv.
  destruct (proxies (tables d) !! id) as [row|]; [|done]. injection H as <- <-. by exists row.
Qed.

Lemma clientForProxy_sends proxyID s0 : preserves (λ s, sv_sent s = sv_sent s0 ∧ sv_mega s = sv_mega s0) (clientForProxy pf config proxyID).
Proof.
  unfold clientForProxy, proxy_transport. repeat server_step; by (apply preserves_rows || apply preserves_pool).
Qed.

Lemma proxy_transport_ok secrets proxyID row s s' http : cfg_Secrets config = Some secrets →
  pool_ok (url_Parse pf) (sv_pool s) → proxies (tables (w_db (sv_world s))) !! proxyID = Some row →
  proxy_transport pf secrets proxyID (scanProxy row) s = (s', Ok http) →
  proxy_client proxyID s http s' ∧ proxies (tables (w_db (sv_world s'))) = proxies (tables (w_db (sv_world s))).
Proof.
  intros Hsec Hpool Hrow H. unfold proxy_transport in H.
  apply cmd_bind_inv in H as ([] & s3 & Hg & H). unfold guard_err in Hg. destruct (prEnabled (scanProxy row)) eqn:Hen; [|done].
  injection Hg as <-. apply cmd_bind_inv in H as (ciphertext & s4 & Hc & H). apply on_rows_inv in Hc as (d2 & Hc & ->).
  apply ProxySecret_ok in Hc as (row' & Hrow' & -> & Ht). rewrite Hrow in Hrow'. injection Hrow' as <-.
  apply cmd_bind_inv in H as (password & s5 & Hpw & Hh).
  assert (s5 = s <| sv_world := db_ran d2 (sv_world s) |> ∧ proxy_password row password) as [-> Hpass].
  { unfold proxy_password. case_bool_decide as He; [injection Hpw as <- <-; by auto|].
    destruct (SecretStore_Decrypt _ _ _) as [plain|] eqn:Hd; [|done]. injection Hpw as <- <-. split; [done|].
    right. by exists secrets, plain. }
  unfold on_pool in Hh. pose proof (Pool_Client_ok (url_Parse pf) (transport_profile (scanProxy row) password) (sv_pool s)) as Hcl.
  cbv zeta in Hcl. cbn in Hh. destruct (Pool_Client _ _ (sv_pool s)) as [p r]. injection Hh as <- ->. cbn.
  split; [|by rewrite Ht]. exists row, password. do 3 (split; [done|]). cbn in Hcl. by apply Hcl.
Qed.

Lemma clientForProxy_ok proxyID s s' m : proxyID ≠ "" → pool_ok (url_Parse pf) (sv_pool s) →
  clientForProxy pf config proxyID s = (s', Ok m) →
  ∃ http c, m = Separate (Some http) c ∧ proxy_client proxyID s http s'.
Proof.
  intros Hne Hpool. unfold clientForProxy. rewrite bool_decide_eq_false_2 by done.
  destruct (cfg_Secrets config) as [secrets|] eqn:Hsec; [|done].
  intros ([] & s1 & Hg & H)%cmd_bind_inv. unfold guard_err in Hg. destruct (negb (_ && _)); [done|]. injection Hg as <-.
  apply cmd_bind_inv in H as (profile & s2 & Hp & H). apply on_rows_inv in Hp as (d & Hp & ->).
  apply GetProxyProfile_ok in Hp as (row & Hrow & -> & Ht).
  apply cmd_bind_inv in H as (http & s3 & Hh & H). injection H as <- <-.
  eapply proxy_transport_ok in Hh as [(row' & password & Hrow' & Hc) _]; [|done|done|by cbn; rewrite Ht].
  exists http. eexists. split; [done|]. exists row', password. cbn in Hrow'. by rewrite Ht in Hrow'.
Qed.

(** The client of an account over a proxy sends everything through it too. *)
Lemma clientForAccount_via accountID proxyID s s' r : proxyID ≠ "" → pool_ok (url_Parse pf) (sv_pool s) →
  clientForAccountWithProxy pf config accountID proxyID s = (s', r) →
  (sv_sent s' = sv_sent s ∧ sv_mega s' = sv_mega s ∧ is_ok r = false)
  ∨ ∃ http s1, sv_sent s1 = sv_sent s ∧ sv_mega s1 = sv_mega s ∧ proxy_client proxyID s http s1
      ∧ via (Some http) s1 s' ∧ ∀ m, r = Ok m → ∃ c, m = Separate (Some http) c.
Proof.
  intros Hne Hpool. pose proof (clientForProxy_sends proxyID s s (conj eq_refl eq_refl)) as Hs.
  destruct (clientForProxy pf config proxyID s) as [s1 r1] eqn:Hc. cbn in Hs. destruct Hs as [Hs Hm].
  unfold clientForAccountWithProxy. case_bool_decide as Ha.
  { rewrite Hc. intros [= <- <-]. destruct r1 as [m|e]; [|by left].
    right. destruct (clientForProxy_ok _ _ _ _ Hne Hpool Hc) as (http & c & -> & Hp).
    exists http, s1. split_and!; [done|done|done|apply via_refl|]. intros m [= <-]. by exists c. }
  destruct (cfg_Secrets config) as [secrets|]; [|intros [= <- <-]; by left].
  unfold guard_err. destruct (negb (cfg_DB config)); [intros [= <- <-]; by left|].
  destruct r1 as [m|e].
  2:{ intros H. rewrite (cmd_bind_ok _ _ s s ()), (cmd_bind_err _ _ _ _ _ Hc) in H by done. injection H as <- <-. by left. }
  destruct (clientForProxy_ok _ _ _ _ Hne Hpool Hc) as (http & c & -> & Hp).
  intros H. right. exists http, s1. do 3 (split; [done|]).
  rewrite (cmd_bind_ok _ _ s s ()), (cmd_bind_ok _ _ _ _ _ Hc) in H by done.
  split.
  - change s' with (s', r).1. rewrite <-H.
    match goal with |- via _ _ (?m _).1 => assert (preserves (via (Some http) s1) m) as Hv; [|apply Hv, via_refl] end.
    repeat first [server_step|apply via_random|apply via_lifecycle|apply via_invalidate].
  - intros m ->. do 4 (apply cmd_bind_inv in H as (? & ? & _ & H)). apply cmd_bind_inv in H as (? & ? & _ & H).
    injection H as _ <-. by eexists.
Qed.

(** C31: When a link is resolved through a proxy profile, the profile is stored
    and enabled, every request to MEGA, those of an account login included, is
    carried by the HTTP client built from that profile, and the server's own
    connection is not used; without a usable profile nothing is sent at all.
    This holds however resolving ends. *)
Theorem proxy_carries_everything input s
    (Hproxy : rrProxyID input ≠ "") (Hpool : pool_ok (url_Parse pf) (sv_pool s)) :
  let s' := (resolve pf config input s).1 in
  sv_mega s' = sv_mega s ∧
  (sv_sent s' = sv_sent s ∨
   ∃ http reqs, sv_sent s' = sv_sent s ++ (pair (Some http) <$> reqs) ∧ proxy_client (rrProxyID input) s http s').
Proof.
  cbv zeta. unfold resolve, guard_err.
  destruct (bool_decide _); [by auto|]. rewrite (cmd_bind_ok _ _ s s ()) by done.
  destruct (ParseLink (url_Parse pf) (rrURL input)) as [link|e] eqn:Hl; [|by rewrite (cmd_bind_err _ _ s s e); auto].
  rewrite (cmd_bind_ok _ _ s s link) by done.
  destruct (negb (cfg_Mega config)); [by auto|]. rewrite (cmd_bind_ok _ _ s s ()) by done.
  destruct (clientForAccountWithProxy pf config (rrAccountID input) (rrProxyID input) s) as [s2 r] eqn:Hc.
  destruct (clientForAccount_via _ _ _ _ _ Hproxy Hpool Hc) as [(Hs & Hm & Hr)|(http & s1 & Hs & Hm & Hp & Hv & Hsep)].
  { destruct r; [done|]. rewrite (cmd_bind_err _ _ _ _ _ Hc). by auto. }
  assert (∀ s', via (Some http) s1 s' → sv_mega s' = sv_mega s ∧ (sv_sent s' = sv_sent s ∨
    ∃ http reqs, sv_sent s' = sv_sent s ++ (pair (Some http) <$> reqs) ∧ proxy_client (rrProxyID input) s http s')) as Hdone.
  { intros s' ((reqs & Hq) & Hm' & Hpl). split; [congruence|]. right. exists http, reqs. split; [congruence|].
    destruct Hp as (row & password & ? & ? & ? & ?). exists row, password. by rewrite Hpl. }
  destruct r as [m|e]; [|rewrite (cmd_bind_err _ _ _ _ _ Hc); by apply Hdone].
  rewrite (cmd_bind_ok _ _ _ _ _ Hc). destruct (Hsep m eq_refl) as (c & ->). apply Hdone. revert s2 Hv Hc.
  refine (λ s2 Hv _, (_ : preserves (via (Some http) s1) _) s2 Hv).
  repeat first [server_step|apply via_lifecycle].
Qed.
End proxied.

(** ** Samples *)

Definition plain_codec (T : Type) (v : T) : Codec T := mkCodec (λ _, Ok [1]) (λ _ _, Ok v).

Definition sample_share : string := "https://mega.nz/folder/AbCd1234".
Definition sample_parse (s : string) : result error URL :=
  if bool_decide (s = sample_share)
  then Ok (mkURL "https" false "mega.nz" "mega.nz" "" "/folder/AbCd1234" sample_key) else Err (New "parse").

Definition payload_reply : Reply := Response 200 "" (Err (New "")) (Ok [JObject {["g" := JString "https://payload"]}]) None.
Definition sample_replies : list Reply :=
  [Response 200 "" (Err (New "")) (Ok [JObject {["f" := JArray sample_items]}]) None; payload_reply; payload_reply].

Definition sample_platform : Platform :=
  mkPlatform sample_parse sample_base64 (λ _ b, b) (λ _ b, b) (λ _ _ _ n, replicate n 0) (λ _, None)
    (λ _, Err (New "no attributes")) tag_aead (λ A, @map_to_list _ _ _ _)
    (plain_codec _ (mkPathsSettings "/parts" "/dl")) (plain_codec _ (sDownloads Default))
    (plain_codec _ (sNetwork Default)) (plain_codec _ (sUI Default))
    (λ k n, Ok (replicate n (Z.of_nat k `mod` 256))) (λ _, 7).

Definition sample_secrets : SecretStore := mkSecretStore (replicate 32 5).
Definition sample_config : Config := mkConfig true (Some sample_secrets) true true true.

Definition sample_proxy : ProxyRow := mkProxyRow "p1" "relay" "socks5" "10.0.0.1" 1080 "" [] 15 true false 0 0.

Definition sample_server : Server :=
  mkServer
    (mkWorld (mkDB (empty_tables <| proxies := {["p1" := sample_proxy]} |>
                      <| settings := {["paths" := mkSettingRow [1] 0]} |>) 0 0 [] [] 7 (New "constraint failed"))
       sample_fs (empty_manager 2) [] None [])
    (NewTransportPool (mkTransportConfig 0 0 0)) (mkClient None 0 "" [] []) sample_replies [] ∅ [] 0 [].

Lemma new_pool_ok parse c : pool_ok parse (NewTransportPool c).
Proof.
  split; cbn; intros *; try (intros [? H]); try (intros H); rewrite ?lookup_empty, ?lookup_nil in *; done.
Qed.

Lemma proxy_carries_everything_witness :
  let s' := (resolve sample_platform sample_config (mkResolveRequest sample_share "" "p1") sample_server).1 in
  length (sv_sent s') = 3%nat
  ∧ ∃ http reqs, sv_sent s' = pair (Some http) <$> reqs ∧ proxy_client sample_platform sample_config "p1" sample_server http s'.
Proof.
  pose proof (proxy_carries_everything sample_platform sample_config (mkResolveRequest sample_share "" "p1") sample_server
    ltac:(done)) as H. cbv zeta in H |- *.
  assert (length (sv_sent (resolve sample_platform sample_config (mkResolveRequest sample_share "" "p1") sample_server).1)
          = 3%nat) as Hl by (vm_compute; reflexivity).
  split; [exact Hl|]. revert Hl H. generalize (resolve sample_platform sample_config (mkResolveRequest sample_share "" "p1") sample_server).1.
  intros s' Hl H.
  destruct H as (_ & [Hs|(http & reqs & Hs & Hp)]).
  - apply new_pool_ok.
  - rewrite Hs in Hl. discriminate Hl.
  - exists http, reqs. split; [exact Hs|exact Hp].
Defined.
