(* ===== verification/ApiDownloads.v ===== *)
(** * Creating and controlling downloads over the API (internal/api/api.go)

    Checking the transfer roots, planning a free and distinct destination for
    every file of a link, sealing its keys, inserting and queueing the job, and
    the handlers that act on existing downloads. *)

From Stdlib Require Import ZArith Lia Ascii.
From stdpp Require Import base list gmap strings numbers pretty.
From S2P Require Import Prelude GoStrings GoErrors GoBase64 Crypto Planner Paths Store StoreDownloads StoreAccounts FsRoot FsRootOps Secrets Queue Lifecycle Finalize MegaValues Links MegaClient Folder MegaAccounts Settings Network Destinations ApiServer.

(** ** Checks on a root (internal/fsroot/root.go) *)

(** [faccessat(fd, ".", W_OK|X_OK)]: whether it fails is the schedule's. *)
Definition k_faccessat : fs_cmd () := sys (λ s, (s, Ok ())).

Definition Root_RequireWritable (h : nat) : fs_cmd () :=
  _ ← rootDescriptor h false;
  r ← catch k_faccessat;
  match r with
  | Ok _ => mret ()
  | Err e => s ← get; throw (wrapPathError "check root access" (default "" (rt_name <$> handles s !! h)) e)
  end.

Definition Root_DeviceID (device : path → Z) (h : nat) : fs_cmd Z :=
  fd ← rootDescriptor h false;
  fs_wrap (Wrapf "stat root descriptor") (sys (λ s, (s, Ok (device fd)))).

(** ** Transfer roots *)

Definition wrap_error {A} (head : string) (m : fs_cmd A) : fs_cmd A := fs_wrap (Wrapf head) m.

(** One root: opened, created when missing, and writable; [body] runs before
    the deferred close. *)
Definition with_checked_root {A} (name p : string) (body : nat → fs_cmd A) : fs_cmd A :=
  let head what := "configured " +:+ name +:+ " root is " +:+ what in
  root ← wrap_error (head "invalid") (fsroot_New p);
  r ← catch (_ ← wrap_error (head "not writable") (Root_Ensure root);
             _ ← wrap_error (head "not writable") (Root_RequireWritable root);
             body root);
  _ ← ignore (Root_Close root);
  of_result r.

Definition validateTransferRoots (device : path → Z) (paths : PathsSettings) : fs_cmd () :=
  with_checked_root "incomplete" (IncompleteRoot paths) (λ incomplete,
    with_checked_root "complete" (CompleteRoot paths) (λ complete,
      incompleteDevice ← wrap_error "inspect incomplete root filesystem" (Root_DeviceID device incomplete);
      completeDevice ← wrap_error "inspect complete root filesystem" (Root_DeviceID device complete);
      guard_err (negb (incompleteDevice =? completeDevice))
        (New "incomplete and complete roots must be on the same filesystem"))).

(** ** Creating a download *)

Record createDownloadRequest := mkCreateRequest {
  crURL : string;
  crAccountID : string;
  crProxyID : string;
  crDestinationSubdirectory : string;
  crStartImmediately : option bool }.

(** [defer]: [final] runs however [m] ends. *)
Definition deferred {A} (final : srv ()) (m : handler A) : handler A := λ s,
  let (s, r) := m s in ((final s).1, r).

Section create.
Context (pf : Platform) (config : Config).

Definition current_settings (now : Z) : store_cmd Settings :=
  Service_Get (range pf) (paths_json pf) (downloads_json pf) (network_json pf) (ui_json pf) now.

(** The loop that looks for a destination no file of the job has taken. *)
Fixpoint plan_destination (root : nat) (policy : string) (seen : gset string) (fuel : nat) (finalRelativePath : string)
    : handler string :=
  match fuel with
  | O => writeError StatusInternalServerError "" ""
  | S fuel =>
      planned ← or_write (on_files (Root_PlanConflict root finalRelativePath policy))
                  (λ e, mkHTTPError StatusBadRequest "destination_conflict" (Error e));
      if bool_decide (planned ∈ seen)
      then plan_destination root policy seen fuel (uniqueRelativePath planned seen)
      else mret planned
  end.

Definition segment_count (size segment : Z) : Z :=
  if 0 <? size then wrap64 (wrap64 (wrap64 (size + segment) - 1) `quot` segment) else 0.

Definition plan_file (secrets : SecretStore) (current : Settings) (destination : string) (root : nat)
    (seen : gset string) (file : ResolvedFile) : handler DownloadFileInput :=
  relativePath ← or_write (lift_result (SanitizeRelativePath (rf_RelativePath file)))
                   (λ e, mkHTTPError StatusBadRequest "destination_invalid" (Error e));
  let relativePath := uniqueRelativePath relativePath seen in
  finalRelativePath ← plan_destination root (ConflictPolicy (sDownloads current)) seen (S (size seen))
                        (joinRelative destination relativePath);
  keyCiphertext ← or_write (Encrypt pf secrets (rf_FileKey file))
                    (λ _, mkHTTPError StatusInternalServerError "encryption_error" "could not protect file key");
  payloadCiphertext ← or_write (Encrypt pf secrets (to_bytes (rf_PayloadURL file)))
                        (λ _, mkHTTPError StatusInternalServerError "encryption_error" "could not protect payload location");
  id ← or_write (randomID pf) (λ _, mkHTTPError StatusInternalServerError "" "");
  let segment := SegmentSizeBytes (sDownloads current) in
  mret (mkFileInput id (rf_NodeID file) relativePath finalRelativePath (rf_Size file) segment
          (segment_count (rf_Size file) segment) keyCiphertext payloadCiphertext (rf_PayloadContext file) "pending").

Fixpoint plan_files (secrets : SecretStore) (current : Settings) (destination : string) (root : nat)
    (seen : gset string) (files : list ResolvedFile) : handler (list DownloadFileInput) :=
  match files with
  | [] => mret []
  | file :: files =>
      planned ← plan_file secrets current destination root seen file;
      rest ← plan_files secrets current destination root ({[fiFinalPath planned]} ∪ seen) files;
      mret (planned :: rest)
  end.

Definition account_known (id : string) : handler () :=
  if bool_decide (id = "") then mret ()
  else
    _ ← or_write (on_rows (GetMegaAccount id))
          (λ _, mkHTTPError StatusBadRequest "account_invalid" "selected account was not found");
    mret ().

Definition proxy_usable (id : string) : handler () :=
  let unavailable := mkHTTPError StatusBadRequest "proxy_invalid" "selected proxy profile is unavailable" in
  if bool_decide (id = "") then mret ()
  else
    profile ← or_write (on_rows (GetProxyProfile id)) (λ _, unavailable);
    if prEnabled profile then mret () else throw unavailable.

(** The row inserted, the job queued and its creation published. *)
Definition store_download (startImmediately : bool) (row : DownloadJobInput) : handler (Z * DownloadJobRecord) :=
  record ← or_write (on_rows (InsertDownloadJob row))
             (λ _, mkHTTPError StatusInternalServerError "database_error" "could not create download");
  _ ← (if startImmediately && cfg_Downloads config
       then or_write (on_world (StartJob (jID (rJob record))))
              (λ _, mkHTTPError StatusServiceUnavailable "download_queue_unavailable"
                      "download was saved but could not be started")
       else mret ());
  _ ← publish (JobCreated (jID (rJob record)) (jTotalBytes (rJob record)));
  writeJSON StatusCreated record.

(** Everything after the link is resolved and its key sealed. *)
Definition insert_download (secrets : SecretStore) (input : createDownloadRequest) (current : Settings)
    (destination : string) (link : PublicLink) (job : ResolvedJob) (sourceCiphertext : list Z)
    : handler (Z * DownloadJobRecord) :=
  jobID ← or_write (randomID pf) (λ _, mkHTTPError StatusInternalServerError "" "");
  let startImmediately := default (AutoStart (sDownloads current)) (crStartImmediately input) in
  let state := if startImmediately then "queued" else "ready" in
  completeRoot ← or_write (on_files (fsroot_New (CompleteRoot (sPaths current))))
                   (λ _, mkHTTPError StatusInternalServerError "settings_error" "configured complete root is invalid");
  deferred (on_files (Root_Close completeRoot)) (
    files ← plan_files secrets current destination completeRoot ∅ (rj_Files job);
    store_download startImmediately
      (mkJobInput jobID (LinkKind_text (Kind link)) (Handle link) sourceCiphertext (SelectedPath link)
         (SelectedNode link) (rj_DisplayName job) (rj_TotalBytes job) (crAccountID input) (crProxyID input)
         destination (CompleteRoot (sPaths current)) (IncompleteRoot (sPaths current)) state 0 0 files)).

Definition handleCreateDownload (body : Body createDownloadRequest) : handler (Z * DownloadJobRecord) :=
  input ← decodeJSON body;
  match cfg_Secrets config with
  | Some secrets =>
      _ ← require (cfg_Settings config && cfg_DB config) StatusInternalServerError "storage_unavailable"
            "download storage is unavailable";
      now ← or_write server_now (λ _, mkHTTPError StatusInternalServerError "" "");
      current ← or_write (on_rows (current_settings now))
                  (λ _, mkHTTPError StatusInternalServerError "settings_error" "could not read settings");
      _ ← require (Configured (sPaths current)) StatusConflict "transfer_paths_unconfigured"
            "configure both transfer roots before creating a download";
      _ ← or_write (on_files (validateTransferRoots (device pf) (sPaths current)))
            (λ e, mkHTTPError StatusBadRequest "settings_invalid" (Error e));
      _ ← account_known (crAccountID input);
      _ ← proxy_usable (crProxyID input);
      destination ← or_write (lift_result (SanitizeDestinationSubdirectory (crDestinationSubdirectory input)))
                      (λ e, mkHTTPError StatusBadRequest "destination_invalid" (Error e));
      resolved ← or_write (resolve pf config (mkResolveRequest (crURL input) (crAccountID input) (crProxyID input)))
                   (λ e, mkHTTPError StatusBadRequest (errorCode e) (Error e));
      let '(link, job, _) := resolved in
      sourceCiphertext ← or_write (Encrypt pf secrets (to_bytes (Key link)))
                           (λ _, mkHTTPError StatusInternalServerError "encryption_error" "could not protect download source");
      insert_download secrets input current destination link job sourceCiphertext
  | None => writeError StatusInternalServerError "storage_unavailable" "download storage is unavailable"
  end.
End create.

(** ** Planning one destination *)

(** The server apart from its file tree, whose entries are the same. *)
Definition same_files (h : nat) (rp : path) (s s' : Server) : Prop :=
  fs_ok (w_fs (sv_world s')) ∧ root_at h rp (w_fs (sv_world s'))
  ∧ entries (w_fs (sv_world s')) = entries (w_fs (sv_world s)) ∧ w_db (sv_world s') = w_db (sv_world s).

Lemma same_files_trans h rp s1 s2 s3 : same_files h rp s1 s2 → same_files h rp s2 s3 → same_files h rp s1 s3.
Proof. intros (_ & _ & H1 & H2) (? & ? & H3 & H4). split_and!; congruence. Qed.

(** A destination that may be written to. *)
Definition free_destination (rp : path) (policy dest : string) (m : gmap path entry) : Prop :=
  dest ≠ "" ∧ Forall valid_component (components dest)
  ∧ (policy = ConflictOverwrite ∨ m !! (rp ++ components dest) = None)
  ∧ ∀ t, m !! (rp ++ components dest) ≠ Some (ESymlink t).

Lemma PlanConflict_run h rp relative policy s : fs_ok s → root_at h rp s →
  let (s', r) := Root_PlanConflict h relative policy s in
  fs_ok s' ∧ root_at h rp s' ∧ entries s' = entries s ∧
  ∀ dest, r = Ok dest → free_destination rp policy dest (entries s')
    ∧ (String.length relative ≤ String.length dest)%nat.
Proof.
  intros Hok Hat. pose proof (spec_Root_PlanConflict h rp relative policy s Hok Hat) as (Hok' & [He Hh] & Hpost).
  assert (∀ dest, (Root_PlanConflict h relative policy s).2 = Ok dest →
    relative ≠ "" ∧ Forall valid_component (components relative)) as Hvalid.
  { unfold Root_PlanConflict, mbind, cmd_bind, of_result.
    destruct (SanitizeRelativePath relative) as [safe|e] eqn:Hs; [|done]. apply SanitizeRelativePath_ok in Hs as [-> Hv].
    cbn. case_bool_decide; [done|]. intros. done. }
  destruct (Root_PlanConflict h relative policy s) as [s' r]. cbn in *.
  split; [done|]. split; [unfold root_at; by rewrite Hh|].
  split; [apply map_eq; intros p; by destruct (He p) as [|[[] _]]|].
  intros dest ->. destruct (Hvalid dest eq_refl) as [Hne Hv]. destruct (Hpost dest eq_refl) as [[Hval Hcases] Hlink].
  assert (String.length relative ≤ String.length dest)%nat as Hlen.
  { destruct Hcases as [[-> _]|(_ & _ & _ & i & Hi & -> & _)]; [done|].
    apply Nat.lt_le_incl, candidate_path_longer; [lia|done|done]. }
  split; [|done]. split.
  { intros ->. destruct relative; [done|]. cbn in Hlen. lia. }
  split; [done|]. split; [|done]. destruct Hcases as [[_ H]|(_ & _ & H & _)]; auto.
Qed.

(** The names taken that a longer name can still meet. *)
Definition longer_names (seen : gset string) (n : nat) : nat :=
  size (filter (λ x, n ≤ String.length x)%nat seen).

Lemma longer_names_less seen planned n : planned ∈ seen → (n ≤ String.length planned)%nat →
  ∀ k, (String.length planned < k)%nat → (longer_names seen k < longer_names seen n)%nat.
Proof.
  intros Hin Hn k Hk. apply subset_size. split; [set_solver by lia|]. intros Hsub.
  assert (planned ∈ filter (λ x, (k ≤ String.length x)%nat) seen) as Hp; [|set_solver by lia].
  apply Hsub. set_solver.
Qed.

Lemma longer_names_bound seen n : (longer_names seen n < S (size seen))%nat.
Proof. apply Nat.lt_succ_r, subseteq_size. set_solver. Qed.

Lemma plan_destination_run root rp policy seen fuel final s :
  fs_ok (w_fs (sv_world s)) → root_at root rp (w_fs (sv_world s)) → (longer_names seen (String.length final) < fuel)%nat →
  let (s', r) := plan_destination root policy seen fuel final s in
  same_files root rp s s' ∧ sv_draws s' = sv_draws s
  ∧ match r with
    | Ok dest => dest ∉ seen ∧ free_destination rp policy dest (entries (w_fs (sv_world s')))
    | Err e => he_code e = "destination_conflict"
    end.
Proof.
  revert final s. induction fuel as [|fuel IH]; intros final s Hok Hat Hfuel; [lia|]. cbn [plan_destination].
  pose proof (PlanConflict_run root rp final policy (w_fs (sv_world s)) Hok Hat) as Hp.
  unfold mbind, cmd_bind, or_write, on_files, on_world, on_fs.
  destruct (Root_PlanConflict root final policy (w_fs (sv_world s))) as [fs [planned|e]];
    destruct Hp as (Hok' & Hat' & He & Hres); cbn.
  2:{ by split_and!. }
  destruct (Hres planned eq_refl) as [Hfree Hlen]. case_bool_decide as Hin; cbn.
  - set (s1 := s <| sv_world := sv_world s <| w_fs := fs |> |>).
    specialize (IH (uniqueRelativePath planned seen) s1 Hok' Hat').
    destruct (plan_destination root policy seen fuel _ s1) as [s' r].
    destruct IH as (Hs & Hd & Hr).
    { pose proof (longer_names_less seen planned _ Hin Hlen (String.length (uniqueRelativePath planned seen))
        (uniqueRelativePath_longer planned seen Hin)). lia. }
    split; [|done]. eapply same_files_trans; [|exact Hs]. by split_and!.
  - by split_and!.
Qed.

(** ** Planning all files of a link *)

Section plan.
Context (pf : Platform) (secrets : SecretStore) (current : Settings).
Context (rand_length : ∀ k n l, rand pf k n = Ok l → length l = n).
Context (gcm_ok : aead_ok (gcm pf)).

Notation policy := (ConflictPolicy (sDownloads current)).
Notation opens c plaintext := (SecretStore_Decrypt (gcm pf) secrets c = Ok plaintext).

(** The row planned for a file: its identity and size, its keys sealed so that
    they open again, and a destination that is free in the tree [m]. *)
Record planned_file (rp : path) (m : gmap path entry) (file : ResolvedFile) (input : DownloadFileInput) : Prop := {
  pf_node : fiRemoteNodeID input = rf_NodeID file;
  pf_size : fiSizeBytes input = rf_Size file;
  pf_source : Forall valid_component (components (rf_RelativePath file));
  pf_final : free_destination rp policy (fiFinalPath input) m;
  pf_key : opens (fiKey input) (rf_FileKey file);
  pf_url : opens (fiPayloadURL input) (to_bytes (rf_PayloadURL file));
  pf_context : fiPayloadContext input = rf_PayloadContext file;
  pf_segment : fiSegmentSize input = SegmentSizeBytes (sDownloads current);
  pf_count : ∀ planner, NewSegmentPlanner (fiSizeBytes input) (fiSegmentSize input) = Ok planner →
    fiSizeBytes input ≤ int64_max - fiSegmentSize input → fiSegmentCount input = pCount planner;
  pf_state : fiState input = "pending" }.

Lemma Encrypt_run plaintext s :
  let (s', r) := Encrypt pf secrets plaintext s in
  s' = s <| sv_draws := S (sv_draws s) |> ∧ ∀ c, r = Ok c → opens c plaintext.
Proof.
  unfold Encrypt, read_random, mbind, cmd_bind.
  destruct (rand pf (sv_draws s) (NonceSize (gcm pf))) as [nonce|e] eqn:Hr; cbn; split; [done| |done|done].
  intros c [= <-]. by apply Decrypt_Encrypt, (rand_length _ _ _ Hr).
Qed.

Lemma seal_step {B} plaintext answer (k : list Z → handler B) s :
  ∃ r, (∀ c, r = Ok c → opens c plaintext)
    ∧ (or_write (Encrypt pf secrets plaintext) answer ≫= k) s
      = match r with
        | Ok c => k c (s <| sv_draws := S (sv_draws s) |>)
        | Err e => (s <| sv_draws := S (sv_draws s) |>, Err (answer e))
        end.
Proof.
  pose proof (Encrypt_run plaintext s) as Hrun. destruct (Encrypt pf secrets plaintext s) as [s1 r] eqn:E.
  destruct Hrun as [-> Hrun]. exists r. split; [done|]. unfold mbind, cmd_bind, or_write. rewrite E. by destruct r.
Qed.

Ltac seal_key r H :=
  match goal with
  | |- context [(or_write (Encrypt _ _ ?p) ?a ≫= ?k) ?s] => destruct (seal_step p a k s) as (r & H & ->)
  end.

Lemma randomID_run s : ∃ id, randomID pf s = (s <| sv_draws := S (sv_draws s) |>, Ok id).
Proof.
  unfold randomID, read_random, mbind, cmd_bind, catch. cbn.
  destruct (rand pf (sv_draws s) 16) as [raw|e]; by eexists.
Qed.

Lemma segment_count_planner size segment planner : NewSegmentPlanner size segment = Ok planner →
  size ≤ int64_max - segment → segment_count size segment = pCount planner.
Proof.
  unfold NewSegmentPlanner, segment_count. destruct (size <? 0) eqn:H0; [done|]. destruct (segment <=? 0) eqn:H1; [done|].
  intros [= <-] Hle. cbn. destruct (0 <? size) eqn:H2; [|done]. bool_to_prop. unfold int64_max in Hle.
  rewrite (wrap64_id (size + segment)) by (unfold int64_ok, int64_min, int64_max; lia).
  rewrite (wrap64_id (size + segment - 1)) by (unfold int64_ok, int64_min, int64_max; lia).
  rewrite !quot_div_nonneg by lia. replace (size + segment - 1) with (size - 1 + 1 * segment) by lia.
  rewrite Z.div_add by lia. rewrite wrap64_id; [done|]. unfold int64_ok, int64_min, int64_max.
  pose proof (Z.div_pos (size - 1) segment). assert ((size - 1) `div` segment ≤ size - 1) by (apply Z.div_le_upper_bound; nia). lia.
Qed.

Lemma plan_file_run destination root rp seen file s :
  fs_ok (w_fs (sv_world s)) → root_at root rp (w_fs (sv_world s)) →
  let (s', r) := plan_file pf secrets current destination root seen file s in
  same_files root rp s s' ∧
  match r with
  | Ok input => planned_file rp (entries (w_fs (sv_world s'))) file input ∧ fiFinalPath input ∉ seen
  | Err e => he_code e ∈ ["destination_invalid"; "destination_conflict"; "encryption_error"]
  end.
Proof.
  intros Hok Hat. unfold plan_file.
  assert (same_files root rp s s) as Hrefl by (by split_and!).
  destruct (SanitizeRelativePath (rf_RelativePath file)) as [relative|e] eqn:Hrel.
  2:{ unfold mbind, cmd_bind, or_write, lift_result. cbn. split; [done|set_solver]. }
  apply SanitizeRelativePath_ok in Hrel as [-> Hval]. rewrite (cmd_bind_ok _ _ s s (rf_RelativePath file)) by done.
  cbv zeta. set (relative := uniqueRelativePath _ _).
  pose proof (plan_destination_run root rp policy seen (S (size seen)) (joinRelative destination relative) s Hok Hat
    (longer_names_bound _ _)) as Hp.
  destruct (plan_destination _ _ _ _ _ s) as [s1 [final|e]] eqn:Hplan.
  2:{ destruct Hp as (Hs & _ & He). rewrite (cmd_bind_err _ _ _ _ _ Hplan). split; [done|]. rewrite He. set_solver. }
  rewrite (cmd_bind_ok _ _ _ _ _ Hplan). destruct Hp as (Hs & _ & Hnew & Hfree).
  seal_key rk Hk. destruct rk as [key|e]; [|split; [done|set_solver]].
  set (s2 := s1 <| sv_draws := S (sv_draws s1) |>).
  seal_key ru Hu. destruct ru as [url|e]; [|split; [done|set_solver]].
  destruct (randomID_run (s2 <| sv_draws := S (sv_draws s2) |>)) as [id Hid].
  unfold or_write, mbind, cmd_bind. rewrite Hid. cbn. split; [done|]. split; [|done].
  split; cbn; try done; [by apply Hk|by apply Hu|]. intros planner Hpl Hle. by apply segment_count_planner.
Qed.

(** Planning the files of a link ends for every list of files, names
    already taken and state of the file tree, and writes nothing: it either
    answers an error, of an invalid path, a conflict or the sealing of a key, or
    plans every file, in order, with its keys sealed so that they open again and
    a destination below the root that is free (or may be overwritten), no link,
    and different from the destinations taken before and from each other. *)
Lemma plan_files_run destination root rp seen resolved s :
  fs_ok (w_fs (sv_world s)) → root_at root rp (w_fs (sv_world s)) →
  let (s', r) := plan_files pf secrets current destination root seen resolved s in
  same_files root rp s s' ∧
  match r with
  | Ok inputs =>
      Forall2 (planned_file rp (entries (w_fs (sv_world s')))) resolved inputs
      ∧ NoDup (fiFinalPath <$> inputs) ∧ Forall (λ input, fiFinalPath input ∉ seen) inputs
  | Err e => he_code e ∈ ["destination_invalid"; "destination_conflict"; "encryption_error"]
  end.
Proof.
  revert seen s. induction resolved as [|file resolved IH]; intros seen s Hok Hat; cbn [plan_files].
  { cbn. split; [by split_and!|]. split_and!; constructor. }
  pose proof (plan_file_run destination root rp seen file s Hok Hat) as Hp.
  destruct (plan_file _ _ _ _ _ _ _ s) as [s1 [input|e]] eqn:E1; destruct Hp as [Hs1 Hp];
    [rewrite (cmd_bind_ok _ _ _ _ _ E1)|by rewrite (cmd_bind_err _ _ _ _ _ E1)].
  destruct Hp as [Hinput Hnew]. pose proof Hs1 as (Hok1 & Hat1 & He1 & _).
  specialize (IH ({[fiFinalPath input]} ∪ seen) s1 Hok1 Hat1).
  destruct (plan_files _ _ _ _ _ _ resolved s1) as [s2 [inputs|e]] eqn:E2; destruct IH as [Hs2 IH];
    [rewrite (cmd_bind_ok _ _ _ _ _ E2)|rewrite (cmd_bind_err _ _ _ _ _ E2)];
    (split; [by eapply same_files_trans|]); [|done].
  destruct IH as (Hall & Hnd & Hout). destruct Hs2 as (_ & _ & He2 & _). split_and!.
  - constructor; [|done]. by rewrite He2.
  - cbn. constructor; [|done]. intros (i & Hi & Hin)%list_elem_of_fmap.
    rewrite Forall_forall in Hout. apply (Hout i Hin). set_solver.
  - constructor; [done|]. eapply Forall_impl; [exact Hout|]. intros i Hi. set_solver.
Qed.
End plan.

(** ** What a handler leaves in order *)

Section frame.
Context (m0 : gmap path entry) (t0 : Tables).

(** The tree is well formed and has only gained directories since [m0]. *)
Definition tree_grown (f : FS) : Prop := fs_ok f ∧ grown m0 (entries f).
Definition in_order (s : Server) : Prop := tree_grown (w_fs (sv_world s)) ∧ db_ok (w_db (sv_world s)).

(** No download has been stored, changed or removed since [t0]. *)
Definition same_downloads (t : Tables) : Prop := jobs t = jobs t0 ∧ files t = files t0.
Definition undisturbed (t : Tables) : Prop := tables_ok t ∧ same_downloads t.
Definition untouched (s : Server) : Prop := tree_grown (w_fs (sv_world s)) ∧ undisturbed (tables (w_db (sv_world s))).

Lemma untouched_order s : untouched s → in_order s.
Proof. by intros (? & ? & _). Qed.

Lemma keeps_undisturbed {A} (m : store_cmd A) : keeps tables_ok m → keeps same_downloads m → keeps undisturbed m.
Proof. intros H1 H2 d []. split; [by apply H1|by apply H2]. Qed.

Lemma account_row_elsewhere id g : keeps same_downloads (exec (update_account_row id g)).
Proof. apply keeps_exec. intros t t' n Ht. unfold update_account_row. case_match; by intros [= <- <-]. Qed.

Lemma tree_grown_spec {A} U pre (m : fs_cmd A) post f : spec U pre m post → pre f → tree_grown f → tree_grown (m f).1.
Proof.
  intros Hm Hpre [Hok Hg]. destruct (Hm f Hok Hpre) as (? & He & _). split; [done|].
  eapply grown_trans; [exact Hg|exact (extends_grown U _ _ He)].
Qed.

Lemma tree_grown_New p : preserves tree_grown (fsroot_New p).
Proof.
  intros f [Hok Hg]. pose proof (fsroot_New_run p f Hok) as H. destruct (fsroot_New p f) as [f' r].
  destruct H as (? & He & _). split; [done|]. cbn. by rewrite He.
Qed.

Lemma tree_grown_Close h : preserves tree_grown (Root_Close h).
Proof.
  intros f [Hok Hg]. pose proof (Root_Close_run h f Hok) as H. destruct (Root_Close h f) as [f' r].
  destruct H as (? & He). split; [done|]. cbn. by rewrite He.
Qed.

Lemma tree_grown_descriptor h create : preserves tree_grown (rootDescriptor h create).
Proof.
  intros f Hf. destruct (handles f !! h) as [r|] eqn:Hh.
  - eapply tree_grown_spec; [apply (spec_rootDescriptor h (rt_path r))| |done]. unfold root_at. by rewrite Hh.
  - unfold rootDescriptor. rewrite get_bind, Hh. done.
Qed.

Lemma tree_grown_sys {A} (f : FS → result error A) : preserves tree_grown (sys (λ s, (s, f s))).
Proof.
  intros s Hs. apply (tree_grown_spec (λ _, False) (λ _, True) (sys (λ s, (s, f s))) (λ _ _, True)); [|done|done].
  by apply spec_sys_pure.
Qed.

Ltac tree_step :=
  lazymatch goal with
  | |- preserves _ (mbind _ _) => apply preserves_bind; [|intros ?]
  | |- preserves _ (mret _) => apply preserves_ret
  | |- preserves _ (throw _) => apply preserves_throw
  | |- preserves _ get => apply preserves_get
  | |- preserves _ (catch _) => apply preserves_catch
  | |- preserves _ (ignore _) => apply preserves_ignore
  | |- preserves _ (guard_err ?b _) => unfold guard_err; destruct b
  | |- preserves _ (fs_wrap _ _) => unfold fs_wrap
  | |- preserves _ (of_result ?r) => unfold of_result; destruct r
  | |- preserves _ (fsroot_New _) => apply tree_grown_New
  | |- preserves _ (Root_Close _) => apply tree_grown_Close
  | |- preserves _ (rootDescriptor _ _) => apply tree_grown_descriptor
  | |- preserves _ (sys _) => apply tree_grown_sys
  | |- preserves _ (match ?x with _ => _ end) => destruct x
  end.

Lemma tree_grown_checked {A} name p (body : nat → fs_cmd A) :
  (∀ h, preserves tree_grown (body h)) → preserves tree_grown (with_checked_root name p body).
Proof.
  intros Hb. unfold with_checked_root, wrap_error, Root_Ensure, Root_RequireWritable, k_faccessat.
  repeat first [apply Hb|tree_step].
Qed.

Lemma tree_grown_roots device paths : preserves tree_grown (validateTransferRoots device paths).
Proof.
  unfold validateTransferRoots, wrap_error, Root_DeviceID. do 2 (apply tree_grown_checked; intros ?). repeat tree_step.
Qed.

Lemma order_rows {A} (m : store_cmd A) : keeps undisturbed m → preserves untouched (on_rows m).
Proof. intros Hm. apply preserves_rows. intros s [Ht Hd]. split; [done|]. by apply Hm. Qed.

Lemma order_files {A} (m : fs_cmd A) : preserves tree_grown m → preserves untouched (on_files m).
Proof.
  intros Hm. apply preserves_world. intros s [Ht Hd]. specialize (Hm _ Ht). unfold on_fs.
  destruct (m (w_fs (sv_world s))). by split.
Qed.

Lemma order_lifecycle {A} c (run : cmd error AccountLifecycle A) :
  preserves (λ l, undisturbed (tables (al_db l))) run → preserves untouched (on_lifecycle c run).
Proof.
  intros Hrun s [Ht Hd]. unfold on_lifecycle, run_client. specialize (Hrun (mkLifecycle
    (client_base c s <| replies := sv_replies s |> <| sent := [] |>) (w_db (sv_world s))) Hd).
  destruct (run _) as [l r]. by destruct c.
Qed.

Lemma order_client {A} (m : api A) : preserves (λ l, undisturbed (tables (al_db l))) (on_client m).
Proof. intros l Hl. unfold on_client. by destruct (m (al_client l)). Qed.

Lemma order_store {A} (m : store_cmd A) : keeps undisturbed m → preserves (λ l, undisturbed (tables (al_db l))) (on_store m).
Proof. intros Hm l Hl. specialize (Hm _ Hl). unfold on_store. by destruct (m (al_db l)). Qed.

Lemma order_ClientFor b D E' k c g secrets id draw nonce now :
  preserves (λ l, undisturbed (tables (al_db l))) (ClientFor b D E' k c g secrets id draw nonce now).
Proof.
  unfold ClientFor, account_session.
  repeat first [server_step|apply order_client|apply order_store|apply GetMegaAccount_keeps].
  all: try (apply keeps_undisturbed; [by auto using ReplaceMegaAccountSession_keeps, MarkMegaAccountChecked_keeps|]).
  all: unfold MegaAccountSecrets, ReplaceMegaAccountSession, MarkMegaAccountChecked, one_or_not_found;
    repeat first [apply account_row_elsewhere|keeps_step].
Qed.

Section handlers.
Context (pf : Platform) (config : Config).

Lemma order_random n : preserves untouched (read_random pf n).
Proof. by intros s Hs. Qed.

Lemma order_invalidate id : preserves untouched (InvalidateAccountSession id).
Proof. unfold InvalidateAccountSession. server_step; [apply preserves_ret|by apply preserves_modify]. Qed.

Lemma order_clientForProxy id : preserves untouched (clientForProxy pf config id).
Proof.
  unfold clientForProxy, proxy_transport. repeat first [server_step|apply order_rows|by apply preserves_pool].
  - apply GetProxyProfile_keeps.
  - unfold ProxySecret. repeat keeps_step.
Qed.

Lemma order_resolve input : preserves untouched (resolve pf config input).
Proof.
  unfold resolve, clientForAccountWithProxy, on_mega.
  repeat first [server_step|apply order_clientForProxy|apply order_lifecycle|apply order_random|apply order_invalidate
    |apply order_ClientFor|apply order_client].
Qed.

Lemma order_settings now : keeps undisturbed (current_settings pf now).
Proof.
  unfold current_settings, Service_Get, ReadSettings, Service_Update, ReplaceSettings.
  repeat first [server_step|keeps_step|by apply preserves_ret].
  generalize (range pf (list Z) a1) as rows. intros rows.
  induction rows as [|[key raw] rows IH]; [apply preserves_ret|]. cbn [for_each].
  apply preserves_bind; [|intros ?; exact IH]. unfold write_setting. repeat keeps_step.
  apply keeps_exec. intros t t' b Ht. unfold put_setting. intros [= <-]. destruct Ht as [[] ?]. by split.
Qed.

(** Starting a job opens and closes its roots, and changes no entry and no row. *)
Lemma StartJob_keeps (P : FS → Prop) (I : Tables → Prop) id : (∀ f, P f → fs_ok f) →
  (∀ f f', P f → fs_ok f' → entries f' = entries f → P f') →
  preserves (λ s, P (w_fs (sv_world s)) ∧ I (tables (w_db (sv_world s)))) (on_world (StartJob id)).
Proof.
  intros HP1 HP2. apply preserves_world. intros s [Ht Hd]. unfold StartJob.
  assert (preserves (λ w, P (w_fs w) ∧ I (tables (w_db w))) (StartJobWithPriority id 0)) as Hs; [|by apply Hs].
  assert (∀ A (m : fs_cmd A), preserves P m → preserves (λ w, P (w_fs w) ∧ I (tables (w_db w))) (on_fs m)) as Hfs.
  { intros A m Hm w [Hw Hdb]. specialize (Hm _ Hw). unfold on_fs. by destruct (m (w_fs w)). }
  assert (∀ A (m : store_cmd A), keeps I m → preserves (λ w, P (w_fs w) ∧ I (tables (w_db w))) (on_db m)) as Hdb.
  { intros A m Hm w [Hw Hdb]. specialize (Hm _ Hdb). unfold on_db. by destruct (m (w_db w)). }
  assert (∀ p, preserves P (fsroot_New p)) as HN.
  { intros p f Hf. pose proof (fsroot_New_run p f (HP1 f Hf)) as H. destruct (fsroot_New p f). naive_solver. }
  assert (∀ h, preserves P (Root_Close h)) as HC.
  { intros h f Hf. pose proof (Root_Close_run h f (HP1 f Hf)) as H. destruct (Root_Close h f). naive_solver. }
  unfold StartJobWithPriority, Lifecycle.validateTransferRoots, on_mgr.
  repeat first [server_step|apply Hfs, HN|apply Hfs, HC|apply Hdb, GetDownloadJob_keeps
    |apply preserves_modify; by intros ? ?].
Qed.

(** What a queued job is after its start. *)
Lemma StartJob_queued id s s' : on_world (StartJob id) s = (s', Ok ()) →
  id ∈ m_pending (w_mgr (sv_world s')) ∨ id ∈ m_active (w_mgr (sv_world s')).
Proof.
  unfold on_world. destruct (StartJob id (sv_world s)) as [w r] eqn:H. intros [= <- ->]. cbn.
  unfold StartJob, StartJobWithPriority in H.
  do 2 (apply cmd_bind_inv in H as (? & ? & _ & H)). apply cmd_bind_inv in H as (? & w0 & _ & H). rewrite get_bind in H.
  destruct (start_job_locked id 0 (w_mgr w0)) as [m outcome] eqn:Hs.
  apply cmd_bind_inv in H as ([] & w2 & Hm & H). injection Hm as <-.
  unfold start_job_locked in Hs. destruct (m_closed (w_mgr w0)); [by injection Hs as <- <-|].
  destruct (_ || _) eqn:Hin.
  { injection Hs as <- <-. injection H as <-. cbn. apply orb_true_iff in Hin as [Hi|Hi]; apply bool_decide_eq_true in Hi; auto. }
  destruct (_ <=? _)%nat; [by injection Hs as <- <-|]. injection Hs as <- <-. injection H as <-. left. cbn.
  destruct (m_started _); [|set_solver]. unfold signalLocked, compactQueueLocked.
  repeat case_match; cbn; set_solver.
Qed.

(** The errors that a saved download can be answered with: the commit succeeded
    and reading the job back or queueing it did not. *)
Definition saved_codes : list string := ["database_error"; "download_queue_unavailable"].

(** What a created download consists of: the job row points at the link and the
    configured roots, its key opens, and every file of the link has one row,
    planned as [planned_file] says, with destinations all different. *)
Record created (secrets : SecretStore) (input : createDownloadRequest) (current : Settings) (destination : string)
    (link : PublicLink) (job : ResolvedJob) (record : DownloadJobRecord) (m : gmap path entry) : Prop := {
  cr_kind : jSourceKind (rJob record) = LinkKind_text (Kind link);
  cr_handle : jSourceHandle (rJob record) = Handle link;
  cr_node : jSelectedNode (rJob record) = SelectedNode link;
  cr_key : SecretStore_Decrypt (gcm pf) secrets (jSourceKey (rJob record)) = Ok (to_bytes (Key link));
  cr_total : jTotalBytes (rJob record) = rj_TotalBytes job;
  cr_selection : jAccountID (rJob record) = crAccountID input ∧ jProxyID (rJob record) = crProxyID input;
  cr_roots : jCompleteRoot (rJob record) = CompleteRoot (sPaths current)
             ∧ jIncompleteRoot (rJob record) = IncompleteRoot (sPaths current);
  cr_state : jState (rJob record)
             = if default (AutoStart (sDownloads current)) (crStartImmediately input) then "queued" else "ready";
  cr_files : ∃ inputs rows when updated,
    Forall2 (planned_file pf secrets current (root_path (CompleteRoot (sPaths current))) m) (rj_Files job) inputs
    ∧ Forall2 (inserted (jID (rJob record)) when updated) inputs rows
    ∧ rFiles record ≡ₚ rows ∧ NoDup (fFinalPath <$> rFiles record) }.

(** A record is the one job that the tables have gained, with all its files. *)
Definition stored_whole (t t' : Tables) (record : DownloadJobRecord) : Prop :=
  let id := jID (rJob record) in
  jobs t !! id = None ∧ jobs t' = <[id := rJob record]> (jobs t) ∧ rFiles record = files_of t' id
  ∧ ∀ id', id' ≠ id → files_of t' id' ≡ₚ files_of t id'.

Context (rand_length : ∀ k n l, rand pf k n = Ok l → length l = n).
Context (gcm_ok : aead_ok (gcm pf)).

Lemma inserted_final id when updated inputs rows : Forall2 (inserted id when updated) inputs rows →
  fFinalPath <$> rows = fiFinalPath <$> inputs.
Proof. induction 1 as [|i r inputs rows [Hr _] _ IH]; [done|]. cbn. rewrite IH. f_equal. by rewrite Hr. Qed.

(** The row and the files of a stored job, and what a read of it returns. *)
Definition job_stored (row : DownloadJobInput) (t t' : Tables) (record : DownloadJobRecord) : Prop :=
  let id := jID (rJob record) in
  ∃ when updated, adds_job row id when updated t t' ∧ rJob record = job_row_of_input row id when updated
    ∧ rFiles record = files_of t' id.

(** Only rows and the queue change when a download is stored. *)
Lemma store_download_run start row s : in_order s →
  let (s', r) := store_download config start row s in
  in_order s' ∧ entries (w_fs (sv_world s')) = entries (w_fs (sv_world s)) ∧
  let t := tables (w_db (sv_world s)) in
  let t' := tables (w_db (sv_world s')) in
  match r with
  | Ok (status, record) =>
      status = StatusCreated ∧ job_stored row t t' record
      ∧ (start = true → cfg_Downloads config = true →
           let id := jID (rJob record) in id ∈ m_pending (w_mgr (sv_world s')) ∨ id ∈ m_active (w_mgr (sv_world s')))
  | Err e => he_code e ≠ "" ∧ (t' = t ∨ he_code e ∈ saved_codes ∧ ∃ record, job_stored row t t' record)
  end.
Proof.
  intros [[Hok Hg] Hd]. set (m1 := entries (w_fs (sv_world s))). unfold store_download.
  destruct (on_rows (InsertDownloadJob row) s) as [s1 r1] eqn:E1.
  apply on_rows_inv in E1 as E1'. destruct E1' as (d & Hins & ->).
  set (s1 := s <| sv_world := db_ran d (sv_world s) |>) in *.
  set (P := λ f, fs_ok f ∧ entries f = m1). set (I := λ t, tables_ok t ∧ t = tables d).
  assert (db_ok d) as Hd1. { pose proof (InsertDownloadJob_keeps row _ Hd) as Hk. by rewrite Hins in Hk. }
  assert (∀ s', P (w_fs (sv_world s')) ∧ I (tables (w_db (sv_world s'))) →
    in_order s' ∧ entries (w_fs (sv_world s')) = m1 ∧ tables (w_db (sv_world s')) = tables d) as HP.
  { intros s' [[Hok' He] [Hd' Ht]]. split; [|done]. split; [|done]. split; [done|]. by rewrite He. }
  assert (P (w_fs (sv_world s1)) ∧ I (tables (w_db (sv_world s1)))) as H1 by (by split).
  pose proof (InsertDownloadJob_outcome row _ Hd) as Hout. rewrite Hins in Hout.
  assert (tables d = tables (w_db (sv_world s)) ∧ is_ok r1 = false
    ∨ ∃ record, job_stored row (tables (w_db (sv_world s))) (tables d) record ∧ ∀ a, r1 = Ok a →
        job_stored row (tables (w_db (sv_world s))) (tables d) a) as Hcases.
  { destruct Hout as [Hout|(id & when & updated & Hadd & Hrec)]; [by left|right]. exists (mkRecord
      (job_row_of_input row id when updated) (files_of (tables d) id) 0 []). split; [by exists when, updated|].
    intros a Ha. destruct (Hrec a Ha) as [Hrow Hfs]. exists when, updated. by rewrite Hrow. }
  unfold mbind, cmd_bind. unfold or_write at 1. rewrite E1. destruct r1 as [record|e].
  2:{ destruct (HP s1 H1) as (? & ? & Ht). split_and!; [done|done|done|]. cbn [sv_world] in *. rewrite Ht.
      destruct Hcases as [[]|(record & Hst & _)]; [by left|right]. split; [set_solver|by exists record]. }
  destruct Hcases as [[_ ?]|(_ & _ & Hrec)]; [done|]. specialize (Hrec record eq_refl).
  destruct (start && cfg_Downloads config) eqn:Hst.
  - pose proof (StartJob_keeps P I (jID (rJob record)) ltac:(by intros f []) ltac:(intros f f' [_ Hf] Hf' He; by split; [|congruence])
      s1 H1) as H2.
    destruct (on_world (StartJob (jID (rJob record))) s1) as [s2 r2] eqn:E2. cbn [fst] in H2.
    unfold or_write. rewrite E2. destruct (HP s2 H2) as (Ho & He & Ht). destruct r2 as [[]|e].
    + cbn. split_and!; [done|done|done|by rewrite Ht|]. intros _ _. exact (StartJob_queued _ _ _ E2).
    + split_and!; [done|done|done|]. right. split; [set_solver|]. exists record. by rewrite Ht.
  - destruct (HP s1 H1) as (Ho & He & Ht). cbn. split_and!; [done|done|done|exact Hrec|].
    intros -> Hc. by rewrite Hc in Hst.
Qed.

(** The record of a stored row is the creation planned in it. *)
Lemma stored_created secrets input current destination link job m row inputs t record : same_downloads t →
  (∃ jobID ciphertext, SecretStore_Decrypt (gcm pf) secrets ciphertext = Ok (to_bytes (Key link)) ∧
    row = mkJobInput jobID (LinkKind_text (Kind link)) (Handle link) ciphertext (SelectedPath link)
      (SelectedNode link) (rj_DisplayName job) (rj_TotalBytes job) (crAccountID input) (crProxyID input)
      destination (CompleteRoot (sPaths current)) (IncompleteRoot (sPaths current))
      (if default (AutoStart (sDownloads current)) (crStartImmediately input) then "queued" else "ready") 0 0 inputs) →
  Forall2 (planned_file pf secrets current (root_path (CompleteRoot (sPaths current))) m) (rj_Files job) inputs →
  NoDup (fiFinalPath <$> inputs) → ∀ t', job_stored row t t' record →
  created secrets input current destination link job record m ∧ stored_whole t0 t' record.
Proof.
  intros [Hjobs Hfiles] (jobID & ciphertext & Hkey & ->) Hall Hnd t'
    (when & updated & (Hnew & Hadd & (rows & Hrows & Hperm) & Hothers) & Hrow & Hfs).
  assert (∀ id, files_of t id = files_of t0 id) as Hsame by (intros id; unfold files_of; by rewrite Hfiles).
  assert (jState (rJob record) = if default (AutoStart (sDownloads current)) (crStartImmediately input) then "queued" else "ready")
    as Hstate by (rewrite Hrow; cbn; by case_match).
  split.
  - split; try (rewrite Hrow; done); [done|]. exists inputs, rows. eexists _, _. rewrite Hfs.
    split_and!; [done|exact Hrows|done|]. rewrite Hperm, (inserted_final _ _ _ _ _ Hrows). done.
  - split_and!; [by rewrite <- Hjobs|by rewrite Hadd, <- Hrow, Hjobs|done|]. intros id Hid. rewrite <- Hsame. by apply Hothers.
Qed.

Lemma insert_download_run secrets input current destination link job ciphertext s :
  untouched s → SecretStore_Decrypt (gcm pf) secrets ciphertext = Ok (to_bytes (Key link)) →
  let (s', r) := insert_download pf config secrets input current destination link job ciphertext s in
  let t' := tables (w_db (sv_world s')) in
  let whole record := created secrets input current destination link job record (entries (w_fs (sv_world s')))
    ∧ stored_whole t0 t' record in
  in_order s' ∧
  match r with
  | Ok (status, record) =>
      status = StatusCreated ∧ whole record
      ∧ (jState (rJob record) = "queued" → cfg_Downloads config = true →
           let id := jID (rJob record) in id ∈ m_pending (w_mgr (sv_world s')) ∨ id ∈ m_active (w_mgr (sv_world s')))
  | Err e => he_code e ≠ "" ∧ (same_downloads t' ∨ he_code e ∈ saved_codes ∧ ∃ record, whole record)
  end.
Proof.
  intros Hs Hkey. unfold insert_download. destruct (randomID_run pf s) as [jobID Hid].
  rewrite (cmd_bind_ok _ _ s (s <| sv_draws := S (sv_draws s) |>) jobID) by (unfold or_write; by rewrite Hid).
  set (s0 := s <| sv_draws := S (sv_draws s) |>). assert (untouched s0) as Hs0 by done. clearbody s0. clear Hid Hs s.
  set (start := default _ (crStartImmediately input)). cbv zeta.
  destruct Hs0 as [[Hok Hg] Hd].
  pose proof (fsroot_New_run (CompleteRoot (sPaths current)) (w_fs (sv_world s0)) Hok) as Hnew.
  unfold mbind at 1, cmd_bind at 1, or_write at 1, on_files at 1, on_world at 1, on_fs at 1.
  destruct (fsroot_New (CompleteRoot (sPaths current)) (w_fs (sv_world s0))) as [f1 [root|e]];
    destruct Hnew as (Hok1 & He1 & Hroot); cbn [fst snd].
  2:{ split; [|split; [done|left; apply Hd]].
      split; [split; [done|change (grown m0 (entries f1)); by rewrite He1]|apply Hd]. }
  destruct (Hroot root eq_refl) as (_ & _ & Hat & _).
  set (s1 := s0 <| sv_world := sv_world s0 <| w_fs := f1 |> |>).
  assert (∀ s2, in_order s2 → let s3 := (on_files (Root_Close root) s2).1 in in_order s3 ∧
    entries (w_fs (sv_world s3)) = entries (w_fs (sv_world s2)) ∧ w_mgr (sv_world s3) = w_mgr (sv_world s2)
    ∧ w_db (sv_world s3) = w_db (sv_world s2)) as Hclose.
  { intros s2 [[Ho2 Hg2] H2]. pose proof (Root_Close_run root (w_fs (sv_world s2)) Ho2) as Hc.
    unfold on_files, on_world, on_fs. destruct (Root_Close root (w_fs (sv_world s2))) as [f r].
    destruct Hc as [Hf He]. split_and!; try done. split; [|done]. split; [done|]. cbn. by rewrite He. }
  unfold deferred.
  pose proof (plan_files_run pf secrets current rand_length gcm_ok destination root _ ∅ (rj_Files job) s1 Hok1 Hat) as Hplan.
  destruct (plan_files _ _ _ _ _ _ (rj_Files job) s1) as [s2 [inputs|e]] eqn:Eplan; destruct Hplan as [(Hok2 & _ & He2 & Hd2) Hplan].
  all: assert (in_order s2) as H2 by (split; [split; [done|rewrite He2; change (grown m0 (entries f1)); by rewrite He1]|rewrite Hd2; apply Hd]).
  all: assert (same_downloads (tables (w_db (sv_world s2)))) as Hsame by (rewrite Hd2; apply Hd).
  2:{ rewrite (cmd_bind_err _ _ _ _ _ Eplan). destruct (Hclose s2 H2) as (H3 & _ & _ & Hdb). split; [done|].
      split; [intros Hc; rewrite Hc in Hplan; set_solver|]. left. by rewrite Hdb. }
  rewrite (cmd_bind_ok _ _ _ _ _ Eplan).
  set (row := mkJobInput _ _ _ _ _ _ _ _ _ _ _ _ _ _ _ _ _).
  pose proof (store_download_run start row s2 H2) as Hst. destruct (store_download config start row s2) as [s3 r3].
  destruct Hst as (H3 & He3 & Hr3). destruct (Hclose s3 H3) as (H4 & He4 & Hm4 & Hdb4). split; [done|].
  rewrite Hdb4, Hm4, He4, He3. destruct Hplan as (Hall & Hnd & _).
  assert (∀ record, job_stored row (tables (w_db (sv_world s2))) (tables (w_db (sv_world s3))) record →
    created secrets input current destination link job record (entries (w_fs (sv_world s2)))
    ∧ stored_whole t0 (tables (w_db (sv_world s3))) record) as Hcreated.
  { intros record. eapply stored_created; [done| |done|done]. by exists jobID, ciphertext. }
  destruct r3 as [[status record]|e].
  - destruct Hr3 as (-> & Hst & Hq). destruct (Hcreated _ Hst) as [Hc Hw]. split_and!; try done.
    rewrite (cr_state _ _ _ _ _ _ _ _ Hc). fold start. intros Hqueued. apply Hq. by destruct start.
  - destruct Hr3 as (Hcode & [Heq|(Hcode' & record & Hst)]); (split; [done|]); [left; by rewrite Heq|right].
    split; [done|]. exists record. by apply Hcreated.
Qed.

(** One step of a handler, for a property of every outcome. *)
Lemma step_run {A B} (m : srv A) answer (k : A → handler B) (Q : Server * result HTTPError B → Prop) s :
  untouched s → preserves untouched m → (∀ e, he_code (answer e) ≠ "") →
  (∀ s1 e, untouched s1 → he_code e ≠ "" → Q (s1, Err e)) →
  (∀ a s1, untouched s1 → m s = (s1, Ok a) → Q (k a s1)) → Q ((or_write m answer ≫= k) s).
Proof.
  intros Hs Hm Hcode Herr Hk. specialize (Hm s Hs). unfold mbind, cmd_bind, or_write.
  destruct (m s) as [s1 [a|e]]; [by apply Hk|by apply Herr].
Qed.

Lemma errorCode_nonempty e : errorCode e ≠ "".
Proof. unfold errorCode. by repeat case_match. Qed.

Lemma account_known_run id (k : () → handler (Z * DownloadJobRecord)) Q s : untouched s →
  (∀ s1 e, untouched s1 → he_code e ≠ "" → Q (s1, Err e)) → (∀ s1, untouched s1 → Q (k () s1)) →
  Q ((account_known id ≫= k) s).
Proof.
  intros Hs Herr Hk. unfold account_known. case_bool_decide; [by apply Hk|].
  pose proof (order_rows (GetMegaAccount id) (GetMegaAccount_keeps _ id) s Hs) as Hr.
  unfold mbind, cmd_bind, or_write. destruct (on_rows (GetMegaAccount id) s) as [s1 [a|e]]; [by apply Hk|by apply Herr].
Qed.

Lemma proxy_usable_run id (k : () → handler (Z * DownloadJobRecord)) Q s : untouched s →
  (∀ s1 e, untouched s1 → he_code e ≠ "" → Q (s1, Err e)) → (∀ s1, untouched s1 → Q (k () s1)) →
  Q ((proxy_usable id ≫= k) s).
Proof.
  intros Hs Herr Hk. unfold proxy_usable. case_bool_decide; [by apply Hk|].
  pose proof (order_rows (GetProxyProfile id) (GetProxyProfile_keeps _ id) s Hs) as Hr.
  unfold mbind, cmd_bind, or_write. destruct (on_rows (GetProxyProfile id) s) as [s1 [a|e]]; [|by apply Herr].
  destruct (prEnabled a); [by apply Hk|by apply Herr].
Qed.
End handlers.
End frame.

(** The creation of [record] from the request: what the request named when it
    was answered, and what the tables have gained since [s]. *)
Definition download_created (pf : Platform) (config : Config) (body : Body createDownloadRequest) (s s' : Server)
    (record : DownloadJobRecord) : Prop :=
  let m := entries (w_fs (sv_world s)) in
  let t := tables (w_db (sv_world s)) in
  ∃ input secrets current destination link job response s1,
    body = OneValue input ∧ cfg_Secrets config = Some secrets ∧ Configured (sPaths current) = true
    ∧ (current_settings pf (wall (w_db (sv_world s))) (w_db (sv_world s))).2 = Ok current
    ∧ untouched m t s1
    ∧ (resolve pf config (mkResolveRequest (crURL input) (crAccountID input) (crProxyID input)) s1).2
      = Ok (link, job, response)
    ∧ created pf secrets input current destination link job record (entries (w_fs (sv_world s')))
    ∧ stored_whole t (tables (w_db (sv_world s'))) record.

(** C7: Creating a download from any state in order, whatever fails: the tree
    stays well formed and gains directories at most, the tables keep their
    integrity, and the answer is either 201 with the new record or an error with a
    code.  On 201 the request named a link that resolved and both roots were
    configured; the tables have gained exactly one job, with the link's key sealed
    so that it opens, the selected account and proxy and the configured roots; the
    job has one row per file of the link, with its size, its segments as the
    planner counts them, its keys sealed so that they open, and a destination that
    is free in the tree (or may be overwritten) and different from the others';
    and a job to start at once is waiting in the queue or running.  On an error no
    download has been stored, changed or removed, except that a job can have been
    saved, whole and as described, when the answer is that reading it back or
    queueing it failed. *)
Theorem create_download_sound pf config body s
    (Hrand : ∀ k n l, rand pf k n = Ok l → length l = n) (Hgcm : aead_ok (gcm pf))
    (Hfs : fs_ok (w_fs (sv_world s))) (Hdb : db_ok (w_db (sv_world s))) :
  let (s', r) := handleCreateDownload pf config body s in
  in_order (entries (w_fs (sv_world s))) s' ∧
  match r with
  | Ok (status, record) =>
      status = StatusCreated ∧ download_created pf config body s s' record
      ∧ (jState (rJob record) = "queued" → cfg_Downloads config = true →
           let id := jID (rJob record) in id ∈ m_pending (w_mgr (sv_world s')) ∨ id ∈ m_active (w_mgr (sv_world s')))
  | Err e =>
      he_code e ≠ ""
      ∧ (same_downloads (tables (w_db (sv_world s))) (tables (w_db (sv_world s')))
         ∨ he_code e ∈ saved_codes ∧ ∃ record, download_created pf config body s s' record)
  end.
Proof.
  set (m0 := entries (w_fs (sv_world s))). set (t0 := tables (w_db (sv_world s))).
  assert (untouched m0 t0 s) as Hs by (split; [split; [done|apply grown_refl]|done]).
  pattern (handleCreateDownload pf config body s). match goal with |- ?P _ => set (Q := P) end.
  assert (∀ s1 e, untouched m0 t0 s1 → he_code e ≠ "" → Q (s1, Err e)) as Herr.
  { intros s1 e H1 He. split; [by eapply untouched_order|]. split; [done|]. left. apply H1. }
  unfold handleCreateDownload, decodeJSON. destruct body as [| | |input]; try (by apply Herr).
  rewrite (cmd_bind_ok _ _ s s input) by done. destruct (cfg_Secrets config) as [secrets|] eqn:Hsec; [|by apply Herr].
  unfold require at 1. destruct (cfg_Settings config && cfg_DB config); [|by apply Herr].
  rewrite (cmd_bind_ok _ _ s s ()), (cmd_bind_ok _ _ s s (wall (w_db (sv_world s)))) by done.
  apply (step_run m0 t0); [done|apply order_rows, order_settings|done|done|]. intros current s1 H1 Hcur.
  apply on_rows_inv in Hcur as (d1 & Hcur & _).
  unfold require. destruct (Configured (sPaths current)) eqn:Hconf; [|by apply Herr].
  rewrite (cmd_bind_ok _ _ s1 s1 ()) by done.
  apply (step_run m0 t0); [done|apply order_files, tree_grown_roots|done|done|]. intros [] s2 H2 _.
  apply (account_known_run m0 t0); [done|done|]. clear dependent s2. intros s2 H2.
  apply (proxy_usable_run m0 t0); [done|done|]. clear dependent s2. intros s2 H2.
  apply (step_run m0 t0); [done|by intros ? ?|done|done|]. intros destination s3 H3 _.
  apply (step_run m0 t0); [done|apply order_resolve|intros; apply errorCode_nonempty|done|].
  intros [[link job] response] s4 H4 Hres.
  pose proof (Encrypt_run pf secrets Hrand Hgcm (to_bytes (Key link)) s4) as Henc.
  apply (step_run m0 t0); [done| |done|done|].
  { unfold Encrypt. apply preserves_bind; [by intros ? ?|intros; apply preserves_ret]. }
  intros ciphertext s5 H5 Hc. rewrite Hc in Henc. destruct Henc as [_ Henc].
  pose proof (insert_download_run m0 t0 pf config Hrand Hgcm secrets input current destination link job ciphertext s5 H5
    (Henc _ eq_refl)) as Hrun.
  unfold Q. destruct (insert_download _ _ _ _ _ _ _ _ _ s5) as [s' r]. cbv zeta in Hrun. destruct Hrun as [Hs' Hrun]. split; [done|].
  assert (∀ record, created pf secrets input current destination link job record (entries (w_fs (sv_world s')))
    ∧ stored_whole t0 (tables (w_db (sv_world s'))) record → download_created pf config (OneValue input) s s' record) as Hcreated.
  { intros record [Hcr Hw]. exists input, secrets, current, destination, link, job, response, s3.
    split_and!; try done; [by rewrite Hcur|by rewrite Hres]. }
  destruct r as [[status record]|e].
  - destruct Hrun as (Hst & Hcr & Hq). by auto.
  - destruct Hrun as (Hcode & [Hsame|(Hsaved & record & Hcr)]); (split; [done|]); [by left|right]. by eauto.
Qed.

(** ** Witnesses *)

(** Two files of the same name below a destination directory: the second is
    told apart in its destination but not in the path that names its partial
    file, because the names already taken are destinations. *)
Definition twin (node : string) : ResolvedFile :=
  mkResolvedFile node "a.bin" 10 [1; 2] ∅ zero_FileKey "https://payload" "".
Definition sample_current : Settings :=
  mkSettings (mkPathsSettings "/parts" "/dl") (sDownloads Default) (sNetwork Default) (sUI Default).

Example twin_remote_paths :
  match (plan_files sample_platform sample_secrets sample_current "d" 0 ∅ [twin "n1"; twin "n2"] sample_server).2 with
  | Ok inputs => (λ i, (fiRemotePath i, fiFinalPath i)) <$> inputs
  | Err _ => []
  end = [("a.bin", "d/a.bin"); ("a.bin", "d/a (1).bin")].
Proof. vm_compute. reflexivity. Qed.

(** The counter goes before the last dot of the whole path. *)
Example counter_in_directory : uniqueRelativePath "v1.0/file" {["v1.0/file"]} = "v1 (1).0/file".
Proof. vm_compute. reflexivity. Qed.

Definition sample_creation : Server * result HTTPError (Z * DownloadJobRecord) :=
  handleCreateDownload sample_platform sample_config (OneValue (mkCreateRequest sample_share "" "p1" "music" (Some true)))
    sample_server.

Definition summary (record : DownloadJobRecord) : string * string * list (string * string * Z) :=
  (jID (rJob record), jState (rJob record), (λ f, (fRemotePath f, fFinalPath f, fSegmentCount f)) <$> rFiles record).

Definition sample_record : DownloadJobRecord :=
  match sample_creation.2 with Ok (_, record) => record | Err _ => mkRecord StoreDownloads.sample_job [] 0 [] end.

Lemma sample_server_rows : db_ok (w_db (sv_world sample_server)).
Proof.
  destruct tables_ok_empty as []. split; try done.
  - by apply map_Forall_singleton.
  - intros i j x y. cbn. intros [<- <-]%lookup_singleton_Some [<- <-]%lookup_singleton_Some. done.
Qed.

Lemma create_download_sound_witness :
  sample_creation.2 = Ok (201, sample_record)
  ∧ summary sample_record = (hex_bytes (replicate 16 1), "queued", [("root/f1", "music/root/f1", 1); ("root/sub/f2", "music/root/sub/f2", 1)])
  ∧ NoDup (fFinalPath <$> rFiles sample_record)
  ∧ let id := jID (rJob sample_record) in
    id ∈ m_pending (w_mgr (sv_world sample_creation.1)) ∨ id ∈ m_active (w_mgr (sv_world sample_creation.1)).
Proof.
  pose proof (create_download_sound sample_platform sample_config
    (OneValue (mkCreateRequest sample_share "" "p1" "music" (Some true))) sample_server
    ltac:(intros k n l [= <-]; apply length_replicate) tag_aead_ok sample_fs_ok sample_server_rows) as H.
  fold sample_creation in H.
  assert (sample_creation.2 = Ok (201, sample_record)) as Hr by (vm_compute; reflexivity).
  assert (jState (rJob sample_record) = "queued") as Hq by (vm_compute; reflexivity).
  rewrite (surjective_pairing sample_creation), Hr in H.
  destruct H as (_ & _ & (input & secrets & current & destination & link & job & response & s1 & _ & _ & _ & _ & _ & _ & Hc & _) & Hw).
  split; [exact Hr|]. split; [vm_compute; reflexivity|].
  split; [|exact (Hw Hq eq_refl)].
  destruct (cr_files _ _ _ _ _ _ _ _ _ Hc) as (_ & _ & _ & _ & _ & _ & _ & Hnd). exact Hnd.
Defined.
