(* ===== verification/ApiAccounts.v ===== *)
(** * Accounts and proxies over the API (internal/api/api.go)

    The handlers that list, create, test, update and delete MEGA accounts and
    proxy profiles: logins, sealing of credentials, rows, and what is dropped
    from the caches of the manager and the transport pool. *)

From Stdlib Require Import ZArith Lia Ascii.
From stdpp Require Import base list gmap strings numbers pretty.
From S2P Require Import Prelude GoStrings GoErrors GoBase64 Crypto Paths Store StoreDownloads StoreAccounts FsRoot FsRootOps Secrets Queue Lifecycle MegaValues Links MegaClient Folder MegaAccounts Settings Network ApiServer.

Record accountRequest := mkAccountRequest {
  aqLabel : string;
  aqEmail : string;
  aqPassword : string;
  aqDefault : option bool;
  aqProxyID : string }.

Record proxyRequest := mkProxyRequest {
  pqName : string;
  pqType : string;
  pqHost : string;
  pqPort : Z;
  pqUsername : string;
  pqPassword : string;
  pqTimeoutSeconds : Z;
  pqEnabled : option bool;
  pqDefault : option bool;
  pqURL : string }.

#[export] Instance proxyRequest_eta : Eta proxyRequest := λ r,
  mkProxyRequest (pqName r) (pqType r) (pqHost r) (pqPort r) (pqUsername r) (pqPassword r) (pqTimeoutSeconds r)
    (pqEnabled r) (pqDefault r) (pqURL r).

Section accounts.
Context (pf : Platform) (config : Config).

(** [s.config.Secrets.Encrypt]; a nil store fails. *)
Definition encrypt (plaintext : list Z) : srv (list Z) :=
  match cfg_Secrets config with
  | Some secrets => Encrypt pf secrets plaintext
  | None => throw (New "secret store is nil")
  end.

Definition seal (plaintext : list Z) (what : string) : handler (list Z) :=
  or_write (encrypt plaintext) (λ _, mkHTTPError StatusInternalServerError "encryption_error" ("could not protect " +:+ what)).

Definition handler_now : handler Z := or_write server_now (λ _, mkHTTPError StatusInternalServerError "" "").
Definition invalidated (m : srv ()) : handler () :=
  if cfg_Downloads config then or_write m (λ _, mkHTTPError StatusInternalServerError "" "") else mret ().

(** A client for the proxy a request selects. *)
Definition selected_client (proxyID : string) : handler MegaClient :=
  or_write (clientForProxy pf config proxyID)
    (λ _, mkHTTPError StatusBadRequest "proxy_invalid" "selected proxy profile is unavailable").

(** How a failed login is answered. *)
Definition login_answer (reauth : bool) (e : error) : HTTPError :=
  if errors_is e ErrMFAUnsupported
  then mkHTTPError StatusBadRequest "account_mfa_unsupported" "MFA-enabled accounts are not supported in this version"
  else if reauth && errors_is e ErrReauthRequired
  then mkHTTPError StatusConflict "account_reauth_required" "MEGA account requires authentication"
  else mkHTTPError StatusBadRequest "account_login_failed" "MEGA account login failed".

Definition login (client : MegaClient) (email password : string) : srv AccountSession :=
  draw ← catch (read_random pf 16);
  on_mega client (LoginAndValidate (Base64ToBytes pf) (aes_E pf) (aes_D pf) (pbkdf2 pf) (ctx_Err pf) email password draw).

(** ** Accounts *)

Definition handleListAccounts : handler (Z * list MegaAccountRecord) :=
  accounts ← or_write (on_rows ListMegaAccounts)
               (λ _, mkHTTPError StatusInternalServerError "database_error" "could not list accounts");
  writeJSON StatusOK accounts.

Definition handleCreateAccount (body : Body accountRequest) : handler (Z * MegaAccountRecord) :=
  input ← decodeJSON body;
  _ ← require (negb (bool_decide (TrimSpace (aqLabel input) = "") || bool_decide (TrimSpace (aqEmail input) = "")
                     || bool_decide (aqPassword input = "")))
        StatusBadRequest "account_invalid" "label, email, and password are required";
  client ← selected_client (aqProxyID input);
  session ← or_write (login client (aqEmail input) (aqPassword input)) (login_answer true);
  credential ← seal (to_bytes (aqPassword input)) "account credential";
  sessionCipher ← seal (to_bytes (SessionID session)) "account session";
  now ← handler_now;
  record ← or_write (on_rows (InsertMegaAccount
              (mkAccountInput "" (aqLabel input) (aqEmail input) credential sessionCipher "active"
                 (default false (aqDefault input))) now))
             (λ _, mkHTTPError StatusInternalServerError "database_error" "could not save account");
  _ ← publish (AccountUpdated (arID record) false);
  writeJSON StatusCreated record.

Definition handleTestAccount (id proxyID : string) : handler (Z * AccountHealth) :=
  _ ← or_write (on_rows (GetMegaAccount id))
        (λ _, mkHTTPError StatusNotFound "account_not_found" "account was not found");
  client ← selected_client proxyID;
  draw ← attempt (read_random pf 16);
  nonce ← attempt (read_random pf (NonceSize (gcm pf)));
  now ← handler_now;
  health ← or_write
    (match cfg_Secrets config with
     | Some secrets =>
         on_lifecycle client (AccountTest (Base64ToBytes pf) (aes_E pf) (aes_D pf) (pbkdf2 pf) (ctx_Err pf) (gcm pf)
                                secrets id draw nonce now)
     | None => throw (New "account lifecycle is unavailable")
     end) (login_answer true);
  _ ← invalidated (InvalidateAccountSession id);
  writeJSON StatusOK health.

(** The new credential and session of an update; without a password there is
    none. *)
Definition new_credentials (email : string) (input : accountRequest) : handler (list Z * list Z) :=
  if bool_decide (aqPassword input = "") then mret ([], [])
  else
    client ← selected_client (aqProxyID input);
    session ← or_write (login client email (aqPassword input)) (login_answer false);
    credential ← seal (to_bytes (aqPassword input)) "account credential";
    sessionCipher ← seal (to_bytes (SessionID session)) "account session";
    mret (credential, sessionCipher).

Definition handleUpdateAccount (id : string) (body : Body accountRequest) : handler (Z * option MegaAccountRecord) :=
  account ← or_write (on_rows (GetMegaAccount id))
              (λ _, mkHTTPError StatusNotFound "account_not_found" "account was not found");
  input ← decodeJSON body;
  let label := if bool_decide (aqLabel input = "") then arLabel account else aqLabel input in
  let email := if bool_decide (aqEmail input = "") then arEmail account else aqEmail input in
  let def := default (arDefault account) (aqDefault input) in
  sealed ← new_credentials email input;
  now ← handler_now;
  _ ← or_write (on_rows (UpdateMegaAccount id label email sealed.1 sealed.2 (arStatus account) def now))
        (λ e, mkHTTPError StatusBadRequest "account_update_failed" (Error e));
  record ← attempt (on_rows (GetMegaAccount id));
  _ ← invalidated (InvalidateAccountSession id);
  _ ← publish (AccountUpdated id false);
  writeJSON StatusOK (match record with Ok record => Some record | Err _ => None end).

Definition delete_answer (kind : string) (e : error) : HTTPError :=
  if errors_is e ErrRecordInUse
  then mkHTTPError StatusConflict (kind +:+ "_in_use") (kind +:+ " is selected by a persisted download")
  else mkHTTPError StatusNotFound (kind +:+ "_not_found") (kind +:+ " was not found").

Definition handleDeleteAccount (id : string) : handler (Z * bool) :=
  _ ← or_write (on_rows (DeleteMegaAccount id)) (delete_answer "account");
  _ ← invalidated (InvalidateAccountSession id);
  _ ← publish (AccountUpdated id true);
  writeJSON StatusOK true.

(** ** Proxies *)

Definition proxyInput (r : proxyRequest) (password : list Z) : result error ProxyProfileInput :=
  let timeout := if pqTimeoutSeconds r =? 0 then 15 else pqTimeoutSeconds r in
  _ ← ProxyProfile_Validate (mkProfile "" "" (pqType r) (pqHost r) (pqPort r) "" "" (wrap64 (timeout * Second)) false);
  Ok (mkProxyInput "" (pqName r) (pqType r) (pqHost r) (pqPort r) (pqUsername r) password timeout
        (default true (pqEnabled r)) (default false (pqDefault r))).

Definition handleListProxies : handler (Z * list ProxyProfileRecord) :=
  items ← or_write (on_rows ListProxyProfiles)
            (λ _, mkHTTPError StatusInternalServerError "database_error" "could not list proxies");
  writeJSON StatusOK items.

Definition proxy_invalid (e : error) : HTTPError := mkHTTPError StatusBadRequest "proxy_invalid" (Error e).

Definition handleCreateProxy (body : Body proxyRequest) : handler (Z * ProxyProfileRecord) :=
  input ← decodeJSON body;
  password ← seal (to_bytes (pqPassword input)) "proxy password";
  value ← or_write (lift_result (proxyInput input password)) proxy_invalid;
  now ← handler_now;
  record ← or_write (on_rows (InsertProxyProfile value now))
             (λ e, mkHTTPError StatusBadRequest "proxy_create_failed" (Error e));
  _ ← publish (ProxyUpdated (prID record) false);
  writeJSON StatusCreated record.

(** The HTTP client of a profile, usable or not. *)
Definition proxyClient (id : string) : srv nat :=
  profile ← on_rows (GetProxyProfile id);
  ciphertext ← on_rows (ProxySecret id);
  let opened := match cfg_Secrets config with
                | Some secrets => SecretStore_Decrypt (gcm pf) secrets ciphertext
                | None => Err (New "secret store is nil")
                end in
  password ← (match opened with
              | Ok plain => mret (of_bytes plain)
              | Err e => if bool_decide (ciphertext = []) then mret "" else throw e
              end);
  on_pool (Pool_Client (url_Parse pf) (transport_profile profile password)).

(** What a GET of the target through the client answers: a status, or a
    request that could not be made or sent. *)
Definition handleTestProxy (Get : nat → string → result error Z) (id : string) (body : Body string) : handler (Z * Z) :=
  client ← or_write (proxyClient id) proxy_invalid;
  let url := match body with OneValue url | TrailingBody url => url | EmptyBody | BadBody => "" end in
  let target := if bool_decide (url = "") then "https://g.api.mega.co.nz/" else url in
  match Get client target with
  | Ok status =>
      if 400 <=? status
      then writeError StatusBadRequest "proxy_test_failed" ("proxy request returned HTTP " +:+ FormatInt status)
      else writeJSON StatusOK status
  | Err _ => writeError StatusBadRequest "proxy_test_failed" "proxy request failed"
  end.

(** The pool forgets the client of a changed proxy, and the manager its
    account clients that go through it. *)
Definition drop_proxy (id : string) : handler () :=
  _ ← or_write (on_pool (Pool_Remove id)) (λ _, mkHTTPError StatusInternalServerError "" "");
  invalidated (InvalidateProxySessions id).

Definition handleUpdateProxy (id : string) (body : Body proxyRequest) : handler (Z * option ProxyProfileRecord) :=
  _ ← or_write (on_rows (GetProxyProfile id)) (λ _, mkHTTPError StatusNotFound "proxy_not_found" "proxy was not found");
  input ← decodeJSON body;
  password ←
    (if bool_decide (pqPassword input = "") then mret []
     else r ← attempt (encrypt (to_bytes (pqPassword input))); mret (match r with Ok c => c | Err _ => [] end));
  value ← or_write (lift_result (proxyInput input password)) proxy_invalid;
  now ← handler_now;
  _ ← or_write (on_rows (UpdateProxyProfile id value now))
        (λ e, mkHTTPError StatusBadRequest "proxy_update_failed" (Error e));
  _ ← drop_proxy id;
  record ← attempt (on_rows (GetProxyProfile id));
  _ ← publish (ProxyUpdated id false);
  writeJSON StatusOK (match record with Ok record => Some record | Err _ => None end).

Definition handleDeleteProxy (id : string) : handler (Z * bool) :=
  _ ← or_write (on_rows (DeleteProxyProfile id)) (delete_answer "proxy");
  _ ← drop_proxy id;
  _ ← publish (ProxyUpdated id true);
  writeJSON StatusOK true.
End accounts.

(** ** The keys of cached clients *)

Lemma rev_app_app a b c : String.rev_app (a +:+ b) c = String.rev_app b (String.rev_app a c).
Proof. revert c. induction a as [|x a IH]; intros c; [done|]. apply IH. Qed.

Lemma rev_app_spec a b : String.rev_app a b = rev_str a +:+ b.
Proof.
  unfold rev_str, String.rev. revert b. induction a as [|x a IH]; intros b; [done|]. cbn.
  rewrite IH, (IH (String x "")), str_app_assoc. done.
Qed.

Lemma rev_str_app a b : rev_str (a +:+ b) = rev_str b +:+ rev_str a.
Proof. unfold rev_str at 1, String.rev. by rewrite rev_app_app, rev_app_spec. Qed.

Lemma rev_str_involutive a : rev_str (rev_str a) = a.
Proof.
  induction a as [|x a IH]; [done|]. change (String x a) with (String x "" +:+ a) at 1.
  rewrite rev_str_app, rev_str_app, IH. done.
Qed.

(** Two texts that agree up to their first NUL. *)
Lemma nul_cut a b x y : str_elem Nul a = false → str_elem Nul b = false → a +:+ String Nul x = b +:+ String Nul y → a = b.
Proof.
  assert (∀ z d b, String Nul z = String d b +:+ String Nul y → str_elem Nul (String d b) = false → False) as Hhead.
  { intros z d b' [= <- _]. cbn. by rewrite bool_decide_eq_true_2. }
  revert b. induction a as [|c a IH]; intros [|d b] Ha Hb H; [done| | |].
  - by destruct (Hhead _ _ _ H Hb).
  - change (String c a +:+ String Nul x) with (String c (a +:+ String Nul x)) in H. injection H as -> _.
    cbn in Ha. by rewrite bool_decide_eq_true_2 in Ha.
  - change (String c (a +:+ String Nul x) = String d (b +:+ String Nul y)) in H. injection H as -> H.
    cbn in Ha, Hb. apply orb_false_iff in Ha as [_ Ha]. apply orb_false_iff in Hb as [_ Hb]. f_equal. by apply IH.
Qed.

Lemma account_key_prefix acc proxy id : str_elem Nul acc = false → str_elem Nul id = false →
  HasPrefix (account_key acc proxy) (id +:+ NulString) = bool_decide (acc = id).
Proof.
  intros Ha Hi. unfold account_key. case_bool_decide as He.
  - subst acc. rewrite <-str_app_assoc. apply HasPrefix_app.
  - apply not_true_is_false. intros H. apply He. apply HasPrefix_true in H.
    rewrite str_app_assoc in H. exact (nul_cut _ _ _ _ Ha Hi H).
Qed.

Lemma account_key_suffix acc proxy id : str_elem Nul proxy = false → str_elem Nul id = false →
  HasSuffix (account_key acc proxy) (NulString +:+ id) = bool_decide (proxy = id).
Proof.
  intros Hp Hi. unfold account_key, HasSuffix. rewrite !rev_str_app, str_app_assoc. case_bool_decide as He.
  - subst proxy. rewrite <-str_app_assoc. apply HasPrefix_app.
  - apply not_true_is_false. intros H. apply He. apply HasPrefix_true in H. rewrite str_app_assoc in H.
    apply nul_cut in H; [|by rewrite str_elem_rev..]. by rewrite <-(rev_str_involutive proxy), H, rev_str_involutive.
Qed.

(** ** What leaves the caches *)

Lemma invalidate_account id s : id ≠ "" → str_elem Nul id = false →
  ∃ s', InvalidateAccountSession id s = (s', Ok ())
    ∧ s' = s <| sv_account_clients := sv_account_clients s' |>
    ∧ (∀ proxy, sv_account_clients s' !! account_key id proxy = None)
    ∧ ∀ acc proxy, acc ≠ id → str_elem Nul acc = false →
        sv_account_clients s' !! account_key acc proxy = sv_account_clients s !! account_key acc proxy.
Proof.
  intros Hne Hid. unfold InvalidateAccountSession. rewrite bool_decide_eq_false_2 by done.
  eexists. split; [done|]. split; [done|]. cbn. split.
  - intros proxy. apply map_lookup_filter_None. right. intros c _. cbn [fst].
    by rewrite account_key_prefix, bool_decide_eq_true_2.
  - intros acc proxy Hacc Hn. destruct (sv_account_clients s !! account_key acc proxy) as [c|] eqn:E.
    + apply map_lookup_filter_Some. split; [done|]. cbn [fst]. by rewrite account_key_prefix, bool_decide_eq_false_2.
    + apply map_lookup_filter_None. by left.
Qed.

Lemma invalidate_proxy id s : id ≠ "" → str_elem Nul id = false →
  ∃ s', InvalidateProxySessions id s = (s', Ok ())
    ∧ s' = s <| sv_account_clients := sv_account_clients s' |>
    ∧ (∀ acc, sv_account_clients s' !! account_key acc id = None)
    ∧ ∀ acc proxy, proxy ≠ id → str_elem Nul proxy = false →
        sv_account_clients s' !! account_key acc proxy = sv_account_clients s !! account_key acc proxy.
Proof.
  intros Hne Hid. unfold InvalidateProxySessions. rewrite bool_decide_eq_false_2 by done.
  eexists. split; [done|]. split; [done|]. cbn. split.
  - intros acc. apply map_lookup_filter_None. right. intros c _. cbn [fst].
    by rewrite account_key_suffix, bool_decide_eq_true_2.
  - intros acc proxy Hp Hn. destruct (sv_account_clients s !! account_key acc proxy) as [c|] eqn:E.
    + apply map_lookup_filter_Some. split; [done|]. cbn [fst]. by rewrite account_key_suffix, bool_decide_eq_false_2.
    + apply map_lookup_filter_None. by left.
Qed.

(** A field of the server that a command leaves alone. *)
Definition leaves {E A X} (f : Server → X) (m : cmd E Server A) : Prop := ∀ x, preserves (λ s, f s = x) m.

Lemma leaves_eq {E A X} (f : Server → X) (m : cmd E Server A) s s' r : leaves f m → m s = (s', r) → f s' = f s.
Proof. intros Hm H. specialize (Hm (f s) s eq_refl). by rewrite H in Hm. Qed.

Section dropped.
Context (pf : Platform) (config : Config).

Lemma attempt_preserves {A} I (m : srv A) : preserves I m → preserves I (attempt m).
Proof. intros Hm s Hs. specialize (Hm s Hs). unfold attempt. by destruct (m s). Qed.

Definition clients_pool (s : Server) : gmap string nat * TransportPool := (sv_account_clients s, sv_pool s).

Lemma leaves_lifecycle {A} c (run : cmd error AccountLifecycle A) : leaves clients_pool (on_lifecycle c run).
Proof. intros x s Hs. unfold on_lifecycle, run_client. destruct (run _) as [l r]. by destruct c. Qed.

Lemma leaves_rows {A} (m : store_cmd A) : leaves clients_pool (on_rows m).
Proof. intros x. by apply preserves_rows. Qed.

Lemma leaves_encrypt plaintext : leaves clients_pool (encrypt pf config plaintext).
Proof. intros x. unfold encrypt, Encrypt. repeat server_step. by intros ? ?. Qed.

Lemma leaves_client proxyID : leaves sv_account_clients (selected_client pf config proxyID).
Proof.
  intros x. unfold selected_client, clientForProxy, proxy_transport.
  repeat first [server_step|by apply preserves_rows|by apply preserves_pool].
Qed.

Lemma leaves_clients {E A} (m : cmd E Server A) : leaves clients_pool m → leaves sv_account_clients m.
Proof.
  intros Hm x s Hs. pose proof (Hm (clients_pool s) s eq_refl) as H. unfold clients_pool in H. injection H as H _. by rewrite H.
Qed.

Lemma leaves_write {A X} (f : Server → X) (m : srv A) answer : leaves f m → leaves f (or_write m answer).
Proof. intros Hm x. by apply preserves_or_write. Qed.

Lemma leaves_attempt {A X} (f : Server → X) (m : srv A) : leaves f m → leaves f (attempt m).
Proof. intros Hm x. by apply attempt_preserves. Qed.

Lemma leaves_bind {E A B X} (f : Server → X) (m : cmd E Server A) (k : A → cmd E Server B) :
  leaves f m → (∀ a, leaves f (k a)) → leaves f (m ≫= k).
Proof. intros Hm Hk x. apply preserves_bind; [apply Hm|intros a; apply Hk]. Qed.

Lemma leaves_ret {E A X} (f : Server → X) (a : A) : leaves f (mret a : cmd E Server A).
Proof. by intros x s. Qed.

Lemma leaves_throw {E A X} (f : Server → X) e : leaves f (throw e : cmd E Server A).
Proof. by intros x s. Qed.

Lemma leaves_answer {A X} (f : Server → X) e status (a : A) :
  (∀ s l, f (s <| sv_published := l |>) = f s) → leaves f (_ ← publish e; writeJSON status a).
Proof. intros Hf. apply leaves_bind; [|intros; apply leaves_ret]. intros x. apply preserves_modify. intros s <-. apply Hf. Qed.

Lemma leaves_login c email password : leaves clients_pool (login pf c email password).
Proof. unfold login. apply leaves_bind; [by intros x s ?|intros draw; apply leaves_lifecycle]. Qed.

Lemma leaves_seal plaintext what : leaves clients_pool (seal pf config plaintext what).
Proof. apply leaves_write, leaves_encrypt. Qed.

Lemma leaves_credentials email input : leaves sv_account_clients (new_credentials pf config email input).
Proof.
  unfold new_credentials. case_bool_decide; [apply leaves_ret|].
  apply leaves_bind; [apply leaves_client|intros client].
  repeat (apply leaves_bind; [apply leaves_clients; (apply leaves_write, leaves_login || apply leaves_seal)|intros ?]).
  apply leaves_ret.
Qed.

(** One step of a run that succeeded, with the field it leaves alone. *)
Ltac leaves_tac :=
  first [ apply leaves_write, leaves_rows | apply leaves_attempt, leaves_rows | apply leaves_write; by intros ? ? ?
        | apply leaves_attempt; by intros ? ? ? | apply leaves_client | apply leaves_credentials
        | apply leaves_clients; (apply leaves_write, leaves_rows || apply leaves_attempt, leaves_rows)
        | by intros ? ? ? ].
Ltac skip f H :=
  let E := fresh "Hkept" in let s1 := fresh "s" in
  apply cmd_bind_inv in H as (? & s1 & E & H);
  apply (leaves_eq f) in E; [|try leaves_tac].

(** What may change an account or a proxy profile. *)
Inductive account_change := TestAccount (proxyID : string) | UpdateAccount (body : Body accountRequest) | DeleteAccount.
Inductive proxy_change := UpdateProxy (body : Body proxyRequest) | DeleteProxy.

Definition change_account (id : string) (op : account_change) : handler () :=
  match op with
  | TestAccount proxyID => _ ← handleTestAccount pf config id proxyID; mret ()
  | UpdateAccount body => _ ← handleUpdateAccount pf config id body; mret ()
  | DeleteAccount => _ ← handleDeleteAccount config id; mret ()
  end.
Definition change_proxy (id : string) (op : proxy_change) : handler () :=
  match op with
  | UpdateProxy body => _ ← handleUpdateProxy pf config id body; mret ()
  | DeleteProxy => _ ← handleDeleteProxy config id; mret ()
  end.

Context (Hdownloads : cfg_Downloads config = true).

(** The last steps of every such handler. *)
Lemma invalidated_run {A} (m : srv ()) (k : () → handler A) s s1 s' a :
  m s = (s1, Ok ()) → (invalidated config m ≫= k) s = (s', Ok a) → k () s1 = (s', Ok a).
Proof. intros Hm. unfold invalidated. rewrite Hdownloads. unfold mbind, cmd_bind, or_write. by rewrite Hm. Qed.

Definition account_forgotten (id : string) (before after : gmap string nat) : Prop :=
  (∀ proxy, after !! account_key id proxy = None)
  ∧ ∀ acc proxy, acc ≠ id → str_elem Nul acc = false → after !! account_key acc proxy = before !! account_key acc proxy.

Lemma change_account_forgets id op s s' : id ≠ "" → str_elem Nul id = false →
  change_account id op s = (s', Ok ()) → account_forgotten id (sv_account_clients s) (sv_account_clients s').
Proof.
  intros Hne Hid H.
  assert (∀ (A : Type) (k : () → handler A) s0 s1 a, (invalidated config (InvalidateAccountSession id) ≫= k) s0 = (s1, Ok a) →
    leaves sv_account_clients (k ()) → account_forgotten id (sv_account_clients s0) (sv_account_clients s1)) as Hlast.
  { intros A k s0 s1 a Hr Hk. destruct (invalidate_account id s0 Hne Hid) as (s2 & Hi & _ & H1 & H2).
    apply (invalidated_run _ _ _ s2) in Hr; [|done]. apply (leaves_eq sv_account_clients) in Hr; [|done].
    rewrite Hr. by split. }
  destruct op as [proxyID|body|]; cbn in H; apply cmd_bind_inv in H as (a & s1 & H & Hret); injection Hret as <-.
  - unfold handleTestAccount in H. do 5 skip sv_account_clients H.
    skip sv_account_clients H.
    2:{ apply leaves_clients, leaves_write. destruct (cfg_Secrets config); [apply leaves_lifecycle|apply leaves_throw]. }
    replace (sv_account_clients s) with (sv_account_clients s6) by congruence. eapply Hlast; [exact H|]. apply leaves_ret.
  - unfold handleUpdateAccount, decodeJSON in H. skip sv_account_clients H.
    destruct body; try discriminate H. cbv zeta in H. do 5 skip sv_account_clients H.
    replace (sv_account_clients s) with (sv_account_clients s6) by congruence. eapply Hlast; [exact H|].
    by apply leaves_answer.
  - unfold handleDeleteAccount in H. skip sv_account_clients H.
    replace (sv_account_clients s) with (sv_account_clients s0) by congruence. eapply Hlast; [exact H|]. by apply leaves_answer.
Qed.

Definition proxy_forgotten (id : string) (s s' : Server) : Prop :=
  tp_clients (sv_pool s') !! id = None
  ∧ (∀ acc, sv_account_clients s' !! account_key acc id = None)
  ∧ (∀ other, other ≠ id → tp_clients (sv_pool s') !! other = tp_clients (sv_pool s) !! other)
  ∧ ∀ acc proxy, proxy ≠ id → str_elem Nul proxy = false →
      sv_account_clients s' !! account_key acc proxy = sv_account_clients s !! account_key acc proxy.

Lemma drop_proxy_forgets {A} id (k : () → handler A) s s' a : id ≠ "" → str_elem Nul id = false →
  (drop_proxy config id ≫= k) s = (s', Ok a) → leaves clients_pool (k ()) → pool_ok (url_Parse pf) (sv_pool s) →
  proxy_forgotten id s s' ∧ pool_ok (url_Parse pf) (sv_pool s').
Proof.
  intros Hne Hid H Hk Hpool. apply cmd_bind_inv in H as ([] & s2 & Hd & H). apply (leaves_eq clients_pool) in H; [|done].
  unfold clients_pool in H. injection H as Hc Hp.
  unfold drop_proxy in Hd. apply cmd_bind_inv in Hd as ([] & s1 & Hr & Hd). apply or_write_inv in Hr.
  unfold on_pool in Hr. pose proof (Pool_Remove_ok (url_Parse pf) id (sv_pool s) Hpool) as [Hok _].
  assert (tp_clients (Pool_Remove id (sv_pool s)).1 = delete id (tp_clients (sv_pool s))) as Hdel.
  { unfold Pool_Remove. by rewrite (cmd_bind_ok _ _ _ _ _ (close_current_run id (sv_pool s))). }
  destruct (Pool_Remove id (sv_pool s)) as [p r]. injection Hr as <- _. cbn in Hok, Hdel.
  destruct (invalidate_proxy id (s <| sv_pool := p |>) Hne Hid) as (s3 & Hi & Hs3 & H1 & H2).
  unfold invalidated in Hd. rewrite Hdownloads in Hd. apply or_write_inv in Hd. rewrite Hi in Hd. injection Hd as <-.
  assert (sv_pool s' = p) as Hsp by (rewrite Hp, Hs3; done).
  split; [|by rewrite Hsp]. unfold proxy_forgotten. rewrite Hsp, Hdel, Hc. split_and!.
  - by rewrite lookup_delete_eq.
  - done.
  - intros other Ho. by rewrite lookup_delete_ne.
  - intros acc proxy Hpr Hn. by rewrite H2.
Qed.

(** Testing a proxy may replace the pool's client for it, no other. *)
Lemma Pool_Client_others profile other p : other ≠ ppID profile →
  tp_clients (Pool_Client (url_Parse pf) profile p).1 !! other = tp_clients p !! other.
Proof.
  intros Hne. unfold Pool_Client. rewrite get_bind. case_bool_decide; [done|].
  assert (tp_clients (replace_client (url_Parse pf) profile p).1 !! other = tp_clients p !! other) as Hr.
  { rewrite replace_client_run. cbv zeta. destruct (NewClientForProxy _ _ _); cbn; [by rewrite lookup_insert_ne|done]. }
  repeat case_match; done.
Qed.

Definition proxy_tested (id : string) (s s' : Server) : Prop :=
  sv_account_clients s' = sv_account_clients s
  ∧ (∀ other, other ≠ id → tp_clients (sv_pool s') !! other = tp_clients (sv_pool s) !! other)
  ∧ pool_ok (url_Parse pf) (sv_pool s').

Lemma same_caches_tested id s s' : pool_ok (url_Parse pf) (sv_pool s) → clients_pool s' = clients_pool s → proxy_tested id s s'.
Proof. intros Hp [= Hc Hl]. unfold proxy_tested. by rewrite Hc, Hl. Qed.

Lemma proxyClient_tests id s s' r : pool_ok (url_Parse pf) (sv_pool s) → tables_ok (tables (w_db (sv_world s))) →
  proxyClient pf config id s = (s', r) → proxy_tested id s s'.
Proof.
  intros Hpool Ht H. unfold proxyClient in H.
  unfold mbind at 1, cmd_bind at 1 in H. destruct (on_rows (GetProxyProfile id) s) as [s1 [profile|e]] eqn:H1;
    pose proof (leaves_eq _ _ _ _ _ (leaves_rows _) H1) as E1; [|injection H as <- _; by apply same_caches_tested].
  assert (prID profile = id) as Hid.
  { apply on_rows_inv in H1 as (d & H1 & _). apply GetProxyProfile_ok in H1 as (row & Hrow & -> & _).
    exact (ok_proxies _ Ht _ _ Hrow). }
  unfold mbind at 1, cmd_bind at 1 in H. destruct (on_rows (ProxySecret id) s1) as [s2 [ciphertext|e]] eqn:H2;
    pose proof (leaves_eq _ _ _ _ _ (leaves_rows _) H2) as E2; [|injection H as <- _; apply same_caches_tested; [done|congruence]].
  assert (clients_pool s2 = clients_pool s) as E by congruence. clear E1 E2.
  assert (∀ password s' r, on_pool (Pool_Client (url_Parse pf) (transport_profile profile password)) s2 = (s', r) →
    proxy_tested id s s') as Hclient.
  { intros password s3 r3 H3. injection E as Ec Ep. unfold on_pool in H3.
    pose proof (Pool_Client_ok (url_Parse pf) (transport_profile profile password) (sv_pool s2)) as Hok.
    pose proof (λ other, Pool_Client_others (transport_profile profile password) other (sv_pool s2)) as Ho.
    rewrite Ep in Hok, Ho. cbv zeta in Hok. rewrite Ep in H3. destruct (Pool_Client _ _ _) as [p c]. injection H3 as <- <-.
    split; [done|]. split; [|by apply Hok]. intros other Hne. apply Ho. cbn. congruence. }
  cbv zeta in H. destruct (match cfg_Secrets config with Some _ => _ | None => _ end) as [plain|e].
  - exact (Hclient _ _ _ H).
  - case_bool_decide; [exact (Hclient _ _ _ H)|]. cbv in H. injection H as <- <-. by apply same_caches_tested.
Qed.

Lemma handleTestProxy_tests Get id body s s' r : pool_ok (url_Parse pf) (sv_pool s) → tables_ok (tables (w_db (sv_world s))) →
  handleTestProxy pf config Get id body s = (s', r) → proxy_tested id s s'.
Proof.
  intros Hpool Ht H. unfold handleTestProxy, mbind, cmd_bind, or_write in H.
  destruct (proxyClient pf config id s) as [s1 r1] eqn:H1. apply proxyClient_tests in H1; [|done..].
  cbv zeta in H. destruct r1 as [c|e]; [|by injection H as <- _].
  destruct (Get c _) as [status|]; [destruct (400 <=? status)|]; by injection H as <- _.
Qed.

(** C32: After a successful test, update or deletion of an account the manager
    has no cached client of it left, whatever proxy it went through, and after
    the update or deletion of a proxy profile neither the pool has a client for
    it nor the manager a cached client that goes through it; the clients of
    other accounts and proxies stay.  A test of a proxy, whatever comes of it,
    changes no profile and drops nothing: at most the pool's client for that
    profile is made or made anew.  This is the state when the handler has
    returned; a download that was logging in meanwhile may cache a client of the
    old kind afterwards (see [JobClient.proxy_update_raced]). *)
Theorem changed_clients_dropped id s
    (Hne : id ≠ "") (Hid : str_elem Nul id = false) (Hpool : pool_ok (url_Parse pf) (sv_pool s)) :
  (∀ op s', change_account id op s = (s', Ok ()) →
     account_forgotten id (sv_account_clients s) (sv_account_clients s'))
  ∧ (∀ op s', change_proxy id op s = (s', Ok ()) →
     proxy_forgotten id s s' ∧ pool_ok (url_Parse pf) (sv_pool s'))
  ∧ (∀ Get body s' r, tables_ok (tables (w_db (sv_world s))) →
     handleTestProxy pf config Get id body s = (s', r) → proxy_tested id s s').
Proof.
  split; [intros op s' H; by eapply change_account_forgets|].
  split; [|intros Get body s' r Ht H; by eapply handleTestProxy_tests]. intros op s' H.
  assert (∀ s0, clients_pool s0 = clients_pool s → proxy_forgotten id s0 s' ∧ pool_ok (url_Parse pf) (sv_pool s') →
    proxy_forgotten id s s' ∧ pool_ok (url_Parse pf) (sv_pool s')) as Hsame.
  { intros s0 Heq. unfold clients_pool in Heq. injection Heq as Hc Hp. unfold proxy_forgotten. by rewrite Hc, Hp. }
  destruct op as [body|]; cbn in H; apply cmd_bind_inv in H as (a & s1 & H & Hret); injection Hret as <-.
  - unfold handleUpdateProxy, decodeJSON in H. skip clients_pool H. destruct body as [| | |input]; try discriminate H.
    apply cmd_bind_inv in H as (? & ? & Hj & H). injection Hj as <- <-.
    skip clients_pool H.
    2:{ case_bool_decide; [apply leaves_ret|]. apply leaves_bind; [apply leaves_attempt, leaves_encrypt|intros; apply leaves_ret]. }
    do 3 skip clients_pool H. apply (Hsame s5); [congruence|].
    eapply drop_proxy_forgets in H; [exact H|done|done| |].
    + apply leaves_bind; [apply leaves_attempt, leaves_rows|intros]. by apply leaves_answer.
    + assert (clients_pool s5 = clients_pool s) as Heq by congruence. injection Heq as _ Heq. by rewrite Heq.
  - unfold handleDeleteProxy in H. skip clients_pool H. apply (Hsame s0); [congruence|].
    eapply drop_proxy_forgets in H; [exact H|done|done|by apply leaves_answer|].
    injection Hkept as _ Heq. by rewrite Heq.
Qed.
End dropped.

(** ** What is stored of a login *)

Section credentials.
Context (pf : Platform) (config : Config).
Context (Hrand : ∀ k n l, rand pf k n = Ok l → length l = n) (Hgcm : aead_ok (gcm pf)).

Lemma insert_account_ok row d d' : exec (insert_account_row row) d = (d', Ok ()) →
  accounts (tables d') !! aID row = Some row.
Proof.
  intros [H _]%exec_ok. unfold insert_account_row in H. destruct (bool_decide _); [done|]. injection H as <-.
  apply lookup_insert_eq.
Qed.

Lemma GetMegaAccount_ok id d d' r : GetMegaAccount id d = (d', Ok r) →
  ∃ row, accounts (tables d') !! id = Some row ∧ r = scanMegaAccount row.
Proof.
  unfold GetMegaAccount. intros (row & d1 & H & Hr)%cmd_bind_inv. apply wrapped_ok, query_ok in H as (-> & Ht & _).
  destruct (accounts (tables d) !! id) as [row|] eqn:E; [|done]. injection Hr as <- <-. exists row. by rewrite Ht.
Qed.

Lemma InsertMegaAccount_ok input now d d' r : InsertMegaAccount input now d = (d', Ok r) →
  ∃ row, accounts (tables d') !! arID r = Some row ∧ r = scanMegaAccount row
    ∧ aLabel row = aiLabel input ∧ aEmail row = aiEmail input ∧ aCredential row = aiCredential input
    ∧ aSession row = aiSession input ∧ aStatus row = (if bool_decide (aiStatus input = "") then "unknown" else aiStatus input).
Proof.
  unfold InsertMegaAccount. intros (id & d1 & _ & H)%cmd_bind_inv. apply cmd_bind_inv in H as ([] & d2 & _ & H).
  cbv zeta in H. apply cmd_bind_inv in H as (when & d3 & _ & H).
  set (row := mkAccountRow id _ _ _ _ _) in H.
  apply cmd_bind_inv in H as ([] & d4 & Hins & H). apply wrapped_ok in Hins.
  assert (∃ def, accounts (tables d4) !! id = Some (row def None when when)) as [def Hrow].
  { destruct (aiDefault input).
    - apply WithTx_ok in Hins as (d5 & d6 & Hfn & _ & _ & _ & Ht & _). apply cmd_bind_inv in Hfn as ([] & d7 & _ & Hfn).
      exists true. rewrite Ht. exact (insert_account_ok _ _ _ Hfn).
    - exists false. exact (insert_account_ok _ _ _ Hins). }
  apply GetMegaAccount_ok in H as Hget. destruct Hget as (row' & Hrow' & ->).
  assert (tables d' = tables d4) as Ht.
  { pose proof (GetMegaAccount_keeps (λ t, t = tables d4) id d4 eq_refl) as Hk. by rewrite H in Hk. }
  rewrite Ht, Hrow in Hrow'. injection Hrow' as <-. exists (row def None when when).
  cbn. rewrite Ht. by split_and!.
Qed.

Lemma selected_client_draws proxyID s s' c : selected_client pf config proxyID s = (s', Ok c) → sv_draws s' = sv_draws s.
Proof.
  apply leaves_eq. intros x. unfold selected_client, clientForProxy, proxy_transport.
  repeat first [server_step|by apply preserves_rows|by apply preserves_pool].
Qed.

Lemma login_draws c email password s s' r : login pf c email password s = (s', r) → sv_draws s' = S (sv_draws s).
Proof.
  unfold login, mbind, cmd_bind, catch, read_random. cbn. unfold on_mega, on_lifecycle, run_client.
  destruct (on_client _ _) as [l q]. destruct c; intros [= <- _]; done.
Qed.

(** The value under the next nonce drawn. *)
Definition sealed_next (secrets : SecretStore) (draw : nat) (plaintext sealed : list Z) : Prop :=
  ∃ nonce, rand pf draw (NonceSize (gcm pf)) = Ok nonce ∧ sealed = SecretStore_Encrypt (gcm pf) secrets nonce plaintext
    ∧ SecretStore_Decrypt (gcm pf) secrets sealed = Ok plaintext.

Lemma seal_inv plaintext what s s' c : seal pf config plaintext what s = (s', Ok c) →
  ∃ secrets, cfg_Secrets config = Some secrets ∧ sealed_next secrets (sv_draws s) plaintext c
    ∧ s' = s <| sv_draws := S (sv_draws s) |>.
Proof.
  intros H%or_write_inv. unfold encrypt in H. destruct (cfg_Secrets config) as [secrets|]; [|done].
  exists secrets. split; [done|]. unfold Encrypt in H. apply cmd_bind_inv in H as (nonce & s1 & Hn & H).
  injection H as <- <-. unfold read_random in Hn. injection Hn as <- Hn. split; [|done]. exists nonce. split; [done|]. split; [done|].
  apply Decrypt_Encrypt; [done|exact (Hrand _ _ _ Hn)].
Qed.

(** C18: An account is only stored once MEGA has accepted its password: a
    request answered 201 has logged in, over the client of the proxy it selects,
    with the email and password it gave, and the row stored under the returned
    identifier is active and has that password and the session MEGA opened, each
    sealed under the application's secret with a nonce of its own - the two draws
    that follow the login, never used before or again - so that they open to
    exactly these values. *)
Theorem account_credentials_sealed body s s' status record
    (H : handleCreateAccount pf config body s = (s', Ok (status, record))) :
  status = StatusCreated ∧ ∃ input secrets client session s1 s2 row,
    body = OneValue input ∧ aqPassword input ≠ "" ∧ cfg_Secrets config = Some secrets
    ∧ selected_client pf config (aqProxyID input) s = (s1, Ok client)
    ∧ login pf client (aqEmail input) (aqPassword input) s1 = (s2, Ok session)
    ∧ accounts (tables (w_db (sv_world s'))) !! arID record = Some row ∧ record = scanMegaAccount row
    ∧ aLabel row = aqLabel input ∧ aEmail row = aqEmail input ∧ aStatus row = "active"
    ∧ sealed_next secrets (sv_draws s2) (to_bytes (aqPassword input)) (aCredential row)
    ∧ sealed_next secrets (S (sv_draws s2)) (to_bytes (SessionID session)) (aSession row)
    ∧ (sv_draws s < sv_draws s2)%nat ∧ sv_draws s' = S (S (sv_draws s2)).
Proof.
  unfold handleCreateAccount, decodeJSON in H. destruct body as [| | |input]; try discriminate H.
  apply cmd_bind_inv in H as (input' & s0 & Hj & H). injection Hj as <- <-.
  apply cmd_bind_inv in H as ([] & s1 & Hreq & H). unfold require in Hreq.
  destruct (bool_decide (TrimSpace (aqLabel input) = "")), (bool_decide (TrimSpace (aqEmail input) = "")),
    (bool_decide_reflect (aqPassword input = "")) as [Hp|Hp]; try discriminate Hreq.
  unfold mret, cmd_ret in Hreq. injection Hreq as <-.
  apply cmd_bind_inv in H as (client & s2 & Hcl & H). apply cmd_bind_inv in H as (session & s3 & Hl & H).
  apply or_write_inv in Hl.
  apply cmd_bind_inv in H as (credential & s4 & Hc & H). apply seal_inv in Hc as (secrets & Hsec & Hc & ->).
  apply cmd_bind_inv in H as (sessionCipher & s5 & Hs & H). apply seal_inv in Hs as (secrets' & Hsec' & Hs & ->).
  assert (secrets' = secrets) as -> by congruence.
  apply cmd_bind_inv in H as (now & s6 & Hnow & H). apply (leaves_eq sv_draws) in Hnow; [|by intros ? ? ?].
  apply cmd_bind_inv in H as (record' & s7 & Hi & H).
  apply or_write_inv, on_rows_inv in Hi as (d & Hi & ->). apply InsertMegaAccount_ok in Hi as (row & Hrow & -> & H1 & H2 & H3 & H4 & H5).
  injection H as <- <- <-. split; [done|]. exists input, secrets, client, session, s2, s3, row.
  cbn in *. rewrite H3, H4. pose proof (selected_client_draws _ _ _ _ Hcl). pose proof (login_draws _ _ _ _ _ _ Hl).
  split_and!; try done. lia.
Qed.
End credentials.

(** ** Witnesses *)

(** A login over the identity cipher: the private key is 1, a 45-byte modulus
    and the exponent 1, so the session opens to the message itself. *)
Definition mpi (n : nat) (bits : Z) (l : list Z) : list Z := be_bytes 2 bits ++ l.
Definition sample_private : list Z :=
  mpi 1 1 [1] ++ mpi 45 353 (1 :: replicate 44 0) ++ mpi 1 1 [1] ++ replicate 11 0.
Definition url_text (l : list Z) : any := JString (EncodeToString RawURLEncoding l).
Definition ok_reply (fields : gmap string any) : Reply := Response 200 "" (Err (New "")) (Ok [JObject fields]) None.
Definition login_replies : list Reply :=
  [ok_reply {["v" := JInt 2; "s" := url_text [1; 2; 3]]};
   ok_reply {["k" := url_text (replicate 16 4); "privk" := url_text sample_private;
              "csid" := url_text (mpi 43 344 (replicate 43 200))]};
   ok_reply {["mstrg" := JInt 1000; "cstrg" := JInt 10]}].

Definition account_server : Server :=
  mkServer (sv_world sample_server <| w_db := mkDB empty_tables 0 0 [] ["a1"] 7 (New "constraint failed") |>)
    (NewTransportPool (mkTransportConfig 0 0 0)) (mkClient None 0 "" [] []) login_replies [] ∅ [] 0 [].

Definition sample_account_body : Body accountRequest := OneValue (mkAccountRequest "main" "a@b" "password" None "").
Definition sample_account : Server * result HTTPError (Z * MegaAccountRecord) :=
  handleCreateAccount sample_platform sample_config sample_account_body account_server.

Definition sample_account_record : MegaAccountRecord :=
  match sample_account.2 with Ok (_, r) => r | Err _ => mkAccountRecord "" "" "" "" false None 0 0 end.

Lemma account_credentials_sealed_witness :
  sample_account = (sample_account.1, Ok (201, sample_account_record))
  ∧ ∃ row, accounts (tables (w_db (sv_world sample_account.1))) !! arID sample_account_record = Some row
      ∧ SecretStore_Decrypt tag_aead sample_secrets (aCredential row) = Ok (to_bytes "password")
      ∧ aCredential row ≠ to_bytes "password".
Proof.
  assert (sample_account.2 = Ok (201, sample_account_record)) as Hr by (vm_compute; reflexivity).
  assert (sample_account = (sample_account.1, Ok (201, sample_account_record))) as Hs
    by (rewrite <-Hr; apply surjective_pairing).
  split; [exact Hs|].
  destruct (account_credentials_sealed sample_platform sample_config ltac:(intros k n l [= <-]; apply length_replicate)
    tag_aead_ok sample_account_body account_server _ _ _ Hs)
    as (_ & input & secrets & client & session & s1 & s2 & row & Hin & _ & Hsec & _ & _ & Hrow & _ & _ & _ & _ & (n & _ & _ & Hc) & _).
  unfold sample_account_body in Hin. injection Hin as <-. injection Hsec as <-.
  exists row. split; [exact Hrow|]. split; [exact Hc|]. intros He. rewrite He in Hc. vm_compute in Hc. discriminate Hc.
Defined.

(** Two accounts and a proxy with cached clients. *)
Definition cache_row (id : string) : AccountRow := mkAccountRow id "main" "a@b" [] [] "active" false None 0 0.
Definition cache_pool : TransportPool :=
  (Pool_Client sample_parse (transport_profile (scanProxy sample_proxy) "") (NewTransportPool (mkTransportConfig 0 0 0))).1.
Definition cache_server : Server :=
  mkServer (sv_world sample_server <| w_db := mkDB (empty_tables <| accounts := {["a1" := cache_row "a1"; "a2" := cache_row "a2"]} |>
                                                      <| proxies := {["p1" := sample_proxy]} |>)
                                            0 0 [] [] 7 (New "constraint failed") |>)
    cache_pool (mkClient None 0 "" [] []) [] []
    {[account_key "a1" "p1" := 0%nat; account_key "a2" "p1" := 1%nat; account_key "a2" "" := 2%nat]} [] 0 [].

Lemma cache_pool_ok : pool_ok sample_parse cache_pool.
Proof. apply Pool_Client_ok, new_pool_ok. Qed.

Lemma changed_clients_dropped_witness :
  let after_account := (change_account sample_platform sample_config "a1" DeleteAccount cache_server).1 in
  let after_proxy := (change_proxy sample_platform sample_config "p1" DeleteProxy cache_server).1 in
  tp_clients (sv_pool cache_server) !! "p1" = Some 0%nat
  ∧ sv_account_clients after_account !! account_key "a1" "p1" = None
  ∧ sv_account_clients after_account !! account_key "a2" "p1" = Some 1%nat
  ∧ tp_clients (sv_pool after_proxy) !! "p1" = None
  ∧ sv_account_clients after_proxy !! account_key "a2" "p1" = None
  ∧ sv_account_clients after_proxy !! account_key "a2" "" = Some 2%nat.
Proof.
  destruct (changed_clients_dropped sample_platform sample_config eq_refl "a1" cache_server ltac:(done) eq_refl cache_pool_ok)
    as [Ha _].
  destruct (changed_clients_dropped sample_platform sample_config eq_refl "p1" cache_server ltac:(done) eq_refl cache_pool_ok)
    as (_ & Hp & _).
  assert ((change_account sample_platform sample_config "a1" DeleteAccount cache_server).2 = Ok ()) as Hra
    by (vm_compute; reflexivity).
  assert ((change_proxy sample_platform sample_config "p1" DeleteProxy cache_server).2 = Ok ()) as Hrp
    by (vm_compute; reflexivity).
  specialize (Ha DeleteAccount (change_account sample_platform sample_config "a1" DeleteAccount cache_server).1).
  specialize (Hp DeleteProxy (change_proxy sample_platform sample_config "p1" DeleteProxy cache_server).1).
  rewrite <-Hra, <-surjective_pairing in Ha. rewrite <-Hrp, <-surjective_pairing in Hp.
  destruct (Ha eq_refl) as [Ha1 Ha2]. destruct (Hp eq_refl) as [(Hp1 & Hp2 & _ & Hp3) _].
  split; [vm_compute; reflexivity|]. split; [apply Ha1|].
  split; [rewrite (Ha2 "a2" "p1") by done; vm_compute; reflexivity|].
  split; [exact Hp1|]. split; [apply Hp2|]. rewrite (Hp3 "a2" "") by done. vm_compute. reflexivity.
Defined.
