(* ===== verification/ApiSession.v ===== *)
(** * Sessions over the API (internal/api/api.go, internal/auth/session.go)

    The authentication handlers with their cookies, and what a login over HTTP
    promises to every later request that carries its cookie. *)

From Stdlib Require Import ZArith Lia Ascii.
From stdpp Require Import base list gmap strings numbers pretty.
From S2P Require Import Prelude GoStrings GoErrors GoBase64 Store Lifecycle Auth Secrets MegaAccounts ApiServer Api.

(** ** Cookies *)

Record Cookie := mkCookie {
  ck_name : string;
  ck_value : string;
  ck_maxAge : Z;
  ck_secure : bool;
  ck_expires : option Z }.

Definition cookie_name (m : Manager) : string :=
  if bool_decide (CookieName m = "") then SessionCookieName else CookieName m.

(** [secureCookies] is the manager's setting. *)
Definition SetCookie (m : Manager) (secureCookies : bool) (request : HTTPRequest) (token : string) (now : Z) : Cookie :=
  mkCookie (cookie_name m) token (session_ttl m `quot` Second) (secureCookies || hr_tls request) (Some (now + session_ttl m)).

Definition ClearCookie (m : Manager) (secureCookies : bool) (request : HTTPRequest) : Cookie :=
  mkCookie (cookie_name m) "" (-1) (secureCookies || hr_tls request) None.

(** ** Handlers *)

Record credentialsRequest := mkCredentials { cqUsername : string; cqPassword : string }.

(** An answer with the cookie it sets. *)
Definition answer (A : Type) : Type := Z * A * option Cookie.

Section session.
Context (pf : Platform) (secureCookies : bool) (hasDB : bool) (auth : option Manager).
Context (Sum256 : list Z → list Z).
Context (IDKey : list Z → list Z → Z → Z → Z → nat → list Z).

Definition auth_unavailable {A} : handler A :=
  writeError StatusInternalServerError "auth_unavailable" "authentication is unavailable".
Definition auth_state {A} (m : srv A) : handler A :=
  or_write m (λ _, mkHTTPError StatusInternalServerError "database_error" "could not read authentication state").

Definition handleAuthStatus (request : HTTPRequest) : handler (answer (bool * option Principal)) :=
  setupRequired ← (if hasDB then users ← auth_state (on_rows HasUsers); mret (negb users) else mret true);
  now ← or_write server_now (λ _, mkHTTPError StatusInternalServerError "" "");
  principal ←
    match auth with
    | Some m => r ← attempt (on_rows (Manager_Principal Sum256 m (hr_cookies request) now));
                mret (match r with Ok p => p | Err _ => None end)
    | None => mret None
    end;
  mret (StatusOK, (setupRequired, principal), None).

(** [cancelled] is what the request's context reports when it is asked. *)
Definition handleSetup (request : HTTPRequest) (body : Body credentialsRequest) (cancelled : option error)
    : handler (answer Principal) :=
  match auth, hasDB with
  | Some m, true =>
      users ← auth_state (on_rows HasUsers);
      _ ← require (negb users) StatusConflict "setup_complete" "administrator setup has already been completed";
      input ← decodeJSON body;
      salt ← attempt (read_random pf passwordSaltLen);
      raw ← attempt (read_random pf 32);
      now ← or_write server_now (λ _, mkHTTPError StatusInternalServerError "" "");
      created ← or_write (on_rows (Setup Sum256 IDKey m (cqUsername input) (cqPassword input) cancelled salt raw now))
        (λ e, if errors_is e ErrAdminExists
              then mkHTTPError StatusConflict "setup_complete" "administrator setup has already been completed"
              else mkHTTPError StatusBadRequest "setup_invalid" (Error e));
      mret (StatusCreated, created.1, Some (SetCookie m secureCookies request created.2 now))
  | _, _ => auth_unavailable
  end.

Definition handleLogin (request : HTTPRequest) (body : Body credentialsRequest) (cancelled : option error)
    : handler (answer Principal) :=
  match auth with
  | Some m =>
      input ← decodeJSON body;
      raw ← attempt (read_random pf 32);
      now ← or_write server_now (λ _, mkHTTPError StatusInternalServerError "" "");
      found ← or_write (on_rows (Login Sum256 IDKey m (cqUsername input) (cqPassword input) cancelled raw now))
        (λ _, mkHTTPError StatusUnauthorized "invalid_credentials" "invalid username or password");
      mret (StatusOK, found.1, Some (SetCookie m secureCookies request found.2 now))
  | None => auth_unavailable
  end.

Definition handleLogout (request : HTTPRequest) : handler (answer bool) :=
  match auth with
  | Some m =>
      _ ← or_write (on_rows (Logout Sum256 m (hr_cookies request)))
            (λ _, mkHTTPError StatusInternalServerError "database_error" "could not end session");
      mret (StatusOK, true, Some (ClearCookie m secureCookies request))
  | None => mret (StatusOK, true, None)
  end.

Definition handleMe (request : HTTPRequest) : handler (answer Principal) :=
  match auth with
  | Some m =>
      now ← or_write server_now (λ _, mkHTTPError StatusInternalServerError "" "");
      r ← attempt (on_rows (Manager_Principal Sum256 m (hr_cookies request) now));
      match r with
      | Ok (Some principal) => mret (StatusOK, principal, None)
      | _ => writeError StatusUnauthorized "auth_required" "authentication is required"
      end
  | None => auth_unavailable
  end.

(** ** A login and the requests after it *)

Context (url_Parse : string → result error OriginURL).
Context (Sum256_length : ∀ l, length (Sum256 l) = 32%nat).

Lemma session_cookie_set m request token : ck_name token = cookie_name m → ck_value token ≠ "" →
  hr_cookies request (ck_name token) = Some (ck_value token) → session_cookie m (hr_cookies request) = Some (ck_value token).
Proof. intros Hn Hv Hc. unfold session_cookie. fold (cookie_name m). rewrite <-Hn, Hc. cbn. by rewrite bool_decide_eq_false_2. Qed.

(** What the server answers to a protected request, given who the session is. *)
Lemma ServeHTTP_protected config request m handler now d p :
  sc_auth config = Some m →
  origin_allowed url_Parse (allowed_hosts (sc_AllowedHosts config)) (sc_secureCookies config) request = true →
  route (hr_method request) (hr_path request) = Some (WithAuth, handler) →
  (Manager_Principal Sum256 m (hr_cookies request) now d).2 = Ok p →
  (ServeHTTP url_Parse Sum256 config request now d).2
  = Ok (match p with Some q => Reached handler (Some q) | None => Refused StatusUnauthorized "auth_required" end).
Proof.
  intros Hm Ho Hr Hp. unfold ServeHTTP. rewrite Ho, Hr. cbn [negb]. unfold withAuth. rewrite Hm. unfold mbind, cmd_bind.
  destruct (Manager_Principal Sum256 m (hr_cookies request) now d) as [d' r]. cbn in Hp. subst r. by destruct p.
Qed.

Lemma Login_draw m username password cancelled raw now d d' r :
  Login Sum256 IDKey m username password cancelled raw now d = (d', Ok r) → is_Some (match raw with Ok l => Some l | Err _ => None end).
Proof.
  destruct raw as [l|e]; [by eexists|]. unfold Login. intros H. exfalso.
  apply cmd_bind_inv in H as (found & d1 & _ & H). apply cmd_bind_inv in H as (user & d2 & _ & H).
  apply cmd_bind_inv in H as ([] & d3 & _ & H). cbv zeta in H. destruct user as [user|]; [|done].
  destruct (VerifyPassword _ _ _); [|done]. by apply cmd_bind_inv in H as (token & d4 & H & _).
Qed.

Lemma Login_token m username password cancelled raw now d d' p token : length raw = 32%nat → Forall byte_ok raw →
  Login Sum256 IDKey m username password cancelled (Ok raw) now d = (d', Ok (p, token)) → token ≠ "".
Proof.
  intros Hl Hb H. apply Login_ok in H as (u & d1 & _ & _ & _ & _ & H). apply createSession_ok in H as (-> & _).
  intros He. pose proof (DecodeString_EncodeToString RawURLEncoding raw) as Hd. rewrite He in Hd.
  assert (DecodeString RawURLEncoding "" = Some []) as Hn by done. rewrite Hn in Hd.
  assert (Some [] = Some raw) as [= <-] by (apply Hd; (apply _ || done)). done.
Qed.

(** A login that is answered 200 sets a cookie that lives as long as its
    session.  Every later request to a protected route that carries it, and
    passes the origin check, reaches its handler as the user who logged in while
    the session has not expired, and is answered 401 from then on; and after a
    logout with that cookie it is answered 401 at any time. *)
Theorem login_opens_session config m request body cancelled s s' status p cookie
    (Hauth : auth = Some m) (Hconfig : sc_auth config = Some m)
    (Hrand : ∀ k n l, rand pf k n = Ok l → length l = n ∧ Forall byte_ok l)
    (Hids : map_Forall (λ id u, uID u = id) (users (tables (w_db (sv_world s)))))
    (Hlogin : handleLogin request body cancelled s = (s', Ok (status, p, cookie)))
    (Hfaults : faults (w_db (sv_world s')) = []) :
  status = StatusOK ∧ ∃ c, cookie = Some c ∧ ck_name c = cookie_name m
    ∧ ck_expires c = Some (wall (w_db (sv_world s)) + session_ttl m)
    ∧ (hr_tls request = true → ck_secure c = true)
    ∧ ∀ later handler t, hr_cookies later (ck_name c) = Some (ck_value c) →
        route (hr_method later) (hr_path later) = Some (WithAuth, handler) →
        origin_allowed url_Parse (allowed_hosts (sc_AllowedHosts config)) (sc_secureCookies config) later = true →
        let serve := λ d, (ServeHTTP url_Parse Sum256 config later t d).2 in
        let expiry := wall (w_db (sv_world s)) + session_ttl m in
        (t + Second ≤ expiry → serve (w_db (sv_world s')) = Ok (Reached handler (Some p)))
        ∧ (expiry + Second ≤ t → serve (w_db (sv_world s')) = Ok (Refused StatusUnauthorized "auth_required"))
        ∧ serve (w_db (sv_world (handleLogout later s').1)) = Ok (Refused StatusUnauthorized "auth_required").
Proof.
  unfold handleLogin, decodeJSON in Hlogin. rewrite Hauth in Hlogin. destruct body as [| | |input]; try discriminate Hlogin.
  apply cmd_bind_inv in Hlogin as (input' & s0 & Hj & H). injection Hj as <- <-.
  apply cmd_bind_inv in H as (raw & s1 & Hraw & H). unfold attempt, read_random in Hraw. injection Hraw as <- <-.
  apply cmd_bind_inv in H as (now & s2 & Hnow & H). injection Hnow as <- <-.
  apply cmd_bind_inv in H as ([p' token] & s3 & Hl & H). apply or_write_inv, on_rows_inv in Hl as (d & Hl & ->).
  injection H as <- <- <- <-. cbn [fst snd sv_world update_field w_db] in *.
  set (now := wall (w_db (sv_world s))) in *.
  destruct (rand pf (sv_draws s) 32) as [raw|e] eqn:Er.
  2:{ by apply Login_draw in Hl as [? ?]. }
  destruct (Hrand _ _ _ Er) as [Hlen Hbytes]. split; [done|]. eexists. split; [done|]. cbn [ck_name ck_value ck_expires ck_secure SetCookie].
  split; [done|]. split; [done|]. split; [intros ->; apply orb_true_r|].
  intros later handler t Hcookie Hroute Horigin. cbv zeta.
  assert (token ≠ "") as Hne by (by eapply Login_token).
  assert (session_cookie m (hr_cookies later) = Some token) as Hsc
    by (exact (session_cookie_set m later (SetCookie m secureCookies request token now) eq_refl Hne Hcookie)).
  destruct (session_lifetime Sum256 IDKey Sum256_length m _ _ _ raw now _ d p' token (hr_cookies later) Hids Hbytes Hlen Hl Hfaults Hsc)
    as (_ & Hbefore & Hafter & Hout).
  split_and!.
  - intros Ht. exact (ServeHTTP_protected config later m handler t d _ Hconfig Horigin Hroute (Hbefore t Ht)).
  - intros Ht. exact (ServeHTTP_protected config later m handler t d _ Hconfig Horigin Hroute (Hafter t Ht)).
  - assert (w_db (sv_world (handleLogout later (s <| sv_draws := S (sv_draws s) |> <| sv_world := db_ran d (sv_world s) |>)).1)
      = (Logout Sum256 m (hr_cookies later) d).1) as ->.
    { unfold handleLogout. rewrite Hauth. unfold mbind, cmd_bind, or_write, on_rows, on_world, on_db. cbn.
      by destruct (Logout Sum256 m (hr_cookies later) d) as [d' [[]|e]]. }
    exact (ServeHTTP_protected config later m handler t _ _ Hconfig Horigin Hroute (Hout t)).
Qed.
End session.

(** ** Witness *)

Definition plain_request (method : string) (path : list string) (cookies : string → option string) : HTTPRequest :=
  mkHTTPRequest method path "nas:8080" "" false cookies.
Definition no_cookies : string → option string := λ _, None.
Definition session_server : Server :=
  sample_server <| sv_world := sv_world sample_server <| w_db := sample_db |> |>.
Definition session_config : ServerConfig := mkServerConfig (Some NewManager) ["NAS:8080."] false.
Definition sample_parse_origin (s : string) : result error OriginURL := Err (New "parse").

Definition login_run : Server * result HTTPError (answer Principal) :=
  handleLogin sample_platform false (Some NewManager) sample_sum sample_kdf (plain_request "POST" [] no_cookies)
    (OneValue (mkCredentials "ADMIN" "password")) None session_server.
Definition session_request : HTTPRequest :=
  plain_request "POST" ["api"; "v1"; "queue"; "pause"]
    (λ name, if bool_decide (name = SessionCookieName)
             then Some (EncodeToString RawURLEncoding (replicate 32 0)) else None).

Lemma login_opens_session_witness :
  login_run.2 = Ok (200, mkPrincipal "u1" "admin",
                    Some (mkCookie SessionCookieName (EncodeToString RawURLEncoding (replicate 32 0)) 86400 false (Some SessionTTL)))
  ∧ (ServeHTTP sample_parse_origin sample_sum session_config session_request 0 (w_db (sv_world login_run.1))).2
    = Ok (Reached handlePauseQueue (Some (mkPrincipal "u1" "admin"))).
Proof.
  assert (login_run.2 = Ok (200, mkPrincipal "u1" "admin",
    Some (mkCookie SessionCookieName (EncodeToString RawURLEncoding (replicate 32 0)) 86400 false (Some SessionTTL)))) as Hr
    by (vm_compute; reflexivity).
  split; [exact Hr|].
  assert (login_run = (login_run.1, Ok (200, mkPrincipal "u1" "admin",
    Some (mkCookie SessionCookieName (EncodeToString RawURLEncoding (replicate 32 0)) 86400 false (Some SessionTTL))))) as Hs
    by (rewrite <-Hr; apply surjective_pairing).
  assert (∀ k n l, rand sample_platform k n = Ok l → length l = n ∧ Forall byte_ok l) as Hrand.
  { intros k n l [= <-]. split; [apply length_replicate|]. apply Forall_replicate. unfold byte_ok.
    pose proof (Z.mod_pos_bound (Z.of_nat k) 256). lia. }
  assert (map_Forall (λ id u, uID u = id) (users (tables (w_db (sv_world session_server))))) as Hids
    by (by apply map_Forall_singleton).
  assert (faults (w_db (sv_world login_run.1)) = []) as Hfaults by (vm_compute; reflexivity).
  destruct (login_opens_session sample_platform false (Some NewManager) sample_sum sample_kdf sample_parse_origin
    sample_sum_length session_config NewManager _ _ _ _ _ _ _ _ eq_refl eq_refl Hrand Hids Hs Hfaults)
    as (_ & c & Hc & _ & _ & _ & Hlater). injection Hc as <-.
  destruct (Hlater session_request handlePauseQueue 0) as (Hnow & _); [vm_compute; reflexivity..|].
  apply Hnow. vm_compute. discriminate.
Defined.
