(* ===== verification/JobClient.v ===== *)
(** * The MEGA client of a download job (internal/download/manager.go)

    Which client a job's workers use: the manager's own, one over the job's
    proxy, or one bound to the job's account and kept for the next job of the
    same account and proxy; and how a worker asks it for a new payload URL.
    The manager shares the transport pool and the cached clients with the API
    handlers, so both run on the state of [ApiServer]. *)

From Stdlib Require Import ZArith Lia Ascii.
From stdpp Require Import base list gmap strings numbers.
From S2P Require Import Prelude GoStrings GoErrors GoBase64 Crypto Paths Store StoreDownloads StoreAccounts Secrets Lifecycle MegaValues Links MegaClient MegaAccounts Network ApiServer ApiDownloads ApiAccounts.

Definition maxCachedAccountClients : nat := 64.

(** A [*mega.Client] of the manager: the one it was given, or one it made. *)
Inductive JobClient := ManagerClient | Made (i : nat).

Definition job_client (j : JobClient) (s : Server) : option nat * Client :=
  match j with
  | ManagerClient => (None, sv_mega s)
  | Made i => default (None, sv_mega s) (sv_made s !! i)
  end.

Definition new_client (http : option nat) (c : Client) : srv nat := λ s,
  (s <| sv_made := sv_made s ++ [(http, c)] |>, Ok (length (sv_made s))).

(** Commands over a client; what they do to it is there at its next use. *)
Definition on_job_client {A} (j : JobClient) (run : cmd error AccountLifecycle A) : srv A := λ s,
  let (http, c) := job_client j s in
  let '(s', c, r) := run_client http c run s in
  (match j with
   | ManagerClient => s' <| sv_mega := c |>
   | Made i => s' <| sv_made := <[i := (http, c)]> (sv_made s') |>
   end, r).

Definition cached_client (key : string) : srv (option nat) := λ s, (s, Ok (sv_account_clients s !! key)).

(** ** Choosing the client *)

(** [transports]: whether the manager was given a transport pool. *)
Section manager.
Context (pf : Platform) (secrets : SecretStore) (transports : bool).

(** The part of [workerForJob] before the account. *)
Definition job_transport (proxyID : string) : srv JobClient :=
  if bool_decide (proxyID = "") then mret ManagerClient
  else
    _ ← guard_err (negb transports) (New "proxy transport pool is unavailable");
    profile ← on_rows (wrapped "load proxy profile" (GetProxyProfile proxyID));
    http ← proxy_transport pf secrets proxyID profile;
    s ← get;
    made ← new_client (Some http) (sv_mega s <| sequence := 0 |>);
    mret (Made made).

(** One of the kept clients is forgotten when there are too many; which one
    is up to the order in which Go visits the map. *)
Definition make_room (clients : gmap string nat) : gmap string nat :=
  if (maxCachedAccountClients <=? size clients)%nat then
    match range pf _ clients with
    | (cachedKey, _) :: _ => delete cachedKey clients
    | [] => clients
    end
  else clients.

Definition keep_client (key : string) (made : nat) : srv () :=
  modify (λ s, s <| sv_account_clients := <[key := made]> (make_room (sv_account_clients s)) |>).

(** The part of [workerForJob] under the account lock. *)
Definition account_client (accountID key : string) (client : JobClient) : srv JobClient :=
  cached ← cached_client key;
  match cached with
  | Some made => mret (Made made)
  | None =>
      draw ← catch (read_random pf 16);
      nonce ← catch (read_random pf (NonceSize (gcm pf)));
      now ← server_now;
      session ← on_job_client client (ClientFor (Base64ToBytes pf) (aes_E pf) (aes_D pf) (pbkdf2 pf) (ctx_Err pf)
                  (gcm pf) secrets accountID draw nonce now);
      s ← get;
      made ← (let (http, c) := job_client client s in new_client http (WithSession c session));
      _ ← keep_client key made;
      mret (Made made)
  end.

(** The range worker made here sends its requests over the same client.  The
    model runs it as one step: the code reads the profile, logs the account in and
    keeps the client in separate critical sections (manager.go 1795-1878), and an
    update of the proxy between them is the race of [proxy_update_raced]. *)
Definition workerForJob (job : JobRow) : srv JobClient :=
  let accountKey := account_key (jAccountID job) (jProxyID job) in
  cached ← (if bool_decide (jAccountID job = "") then mret None else cached_client accountKey);
  match cached with
  | Some made => mret (Made made)
  | None =>
      client ← job_transport (jProxyID job);
      if bool_decide (jAccountID job = "") then mret client
      else account_client (jAccountID job) accountKey client
  end.

(** [LinkKind(job.SourceKind)]: a text that is not "file" takes the other branch. *)
Definition source_kind (text : string) : LinkKind :=
  if bool_decide (text = LinkKind_text LinkKindFile) then LinkKindFile else LinkKindFolder.

Definition refreshPayloadURL (job : JobRow) (file : FileRow) (client : JobClient) : srv (string * FileRow) :=
  raw ← lift_result (SecretStore_Decrypt (gcm pf) secrets (jSourceKey job));
  let link := mkLink (source_kind (jSourceKind job)) (jSourceHandle job) (of_bytes raw) (jSelectedPath job) (jSelectedNode job) in
  url ← on_job_client client (on_client (RefreshPayloadURL link (fRemoteNodeID file)));
  ciphertext ← Encrypt pf secrets (to_bytes url);
  now ← server_now;
  _ ← on_rows (UpdateDownloadPayloadURL (fID file) ciphertext now);
  mret (url, file <| fPayloadURL := ciphertext |>).

Definition clearAccountClients : srv () := modify (λ s, s <| sv_account_clients := ∅ |>).
End manager.

(** ** Frames: what a command may change of the routes *)

(** The same transport would be built for both rows. *)
Definition same_transport (row row' : ProxyRow) : Prop :=
  (∀ password, transport_profile (scanProxy row) password = transport_profile (scanProxy row') password)
  ∧ pPassword row = pPassword row' ∧ pEnabled row = pEnabled row' ∧ pType row = pType row'.

(** Rows outside [U] stay, as far as the transport is concerned. *)
Definition rows_kept (U : string → Prop) (m m' : gmap string ProxyRow) : Prop :=
  ∀ id row, ¬ U id → m !! id = Some row → ∃ row', m' !! id = Some row' ∧ same_transport row row'.

Lemma same_transport_refl row : same_transport row row.
Proof. done. Qed.

Lemma rows_kept_refl U m : rows_kept U m m.
Proof. intros id row _ H. by exists row. Qed.

Lemma rows_kept_trans U m1 m2 m3 : rows_kept U m1 m2 → rows_kept U m2 m3 → rows_kept U m1 m3.
Proof.
  intros H1 H2 id row Hu Hr. destruct (H1 id row Hu Hr) as (row2 & Hr2 & Ha & Hb & Hc & Hd).
  destruct (H2 id row2 Hu Hr2) as (row3 & Hr3 & Ha' & Hb' & Hc' & Hd'). exists row3. split; [done|].
  split_and!; [intros p; by rewrite Ha|congruence..].
Qed.

Definition nowhere (id : string) : Prop := False.

Section frames.
Context (pf : Platform) (config : Config).

Record frame (U : string → Prop) (s s' : Server) : Prop := {
  fr_pool : pool_ok (url_Parse pf) (sv_pool s) → pool_ok (url_Parse pf) (sv_pool s');
  fr_config : tp_config (sv_pool s') = tp_config (sv_pool s);
  fr_clients : sv_account_clients s' ⊆ sv_account_clients s;
  fr_built : ∃ l, tp_made (sv_pool s') = tp_made (sv_pool s) ++ l;
  fr_made : ∀ i http c, sv_made s !! i = Some (http, c) → ∃ c', sv_made s' !! i = Some (http, c');
  fr_rows : rows_kept U (proxies (tables (w_db (sv_world s)))) (proxies (tables (w_db (sv_world s')))) }.

Lemma frame_refl U s : frame U s s.
Proof.
  split; [done|done|done|exists []; by rewrite app_nil_r| |apply rows_kept_refl].
  intros i http c H. by exists c.
Qed.

Lemma frame_trans U s1 s2 s3 : frame U s1 s2 → frame U s2 s3 → frame U s1 s3.
Proof.
  intros [] []. split; [auto|congruence|by etrans| | |by eapply rows_kept_trans].
  - destruct fr_built0 as [l1 H1], fr_built1 as [l2 H2]. exists (l1 ++ l2). by rewrite H2, H1, app_assoc.
  - intros i http c H. destruct (fr_made0 i http c H) as [c' H']. by apply (fr_made1 i http c').
Qed.

Lemma frame_weaken (U V : string → Prop) s s' : (∀ id, U id → V id) → frame U s s' → frame V s s'.
Proof. intros HUV []. split; try done. intros id row Hn. apply fr_rows0. by intros ?%HUV. Qed.

(** Every outcome of a command keeps the frame from any state before it. *)
Definition framed {E A} (U : string → Prop) (m : cmd E Server A) : Prop := ∀ s0, preserves (frame U s0) m.

Lemma framed_run {E A} U (m : cmd E Server A) s : framed U m → frame U s (m s).1.
Proof. intros Hm. apply Hm, frame_refl. Qed.

Lemma framed_local {E A} U (m : cmd E Server A) : (∀ s, frame U s (m s).1) → framed U m.
Proof. intros Hm s0 s H. eapply frame_trans; [exact H|apply Hm]. Qed.

Lemma framed_bind {E A B} U (m : cmd E Server A) (k : A → cmd E Server B) :
  framed U m → (∀ a, framed U (k a)) → framed U (m ≫= k).
Proof. intros Hm Hk s0. apply preserves_bind; [apply Hm|intros a; apply Hk]. Qed.

(** A command on the database that keeps the rows. *)
Definition rows_from (U : string → Prop) (m0 : gmap string ProxyRow) (t : Tables) : Prop := rows_kept U m0 (proxies t).
Definition keeps_proxies {A} (U : string → Prop) (m : store_cmd A) : Prop := ∀ m0, keeps (rows_from U m0) m.

Lemma framed_rows {A} U (m : store_cmd A) : keeps_proxies U m → framed U (on_rows m).
Proof.
  intros Hm. apply framed_local. intros s. specialize (Hm _ (w_db (sv_world s)) (rows_kept_refl U _)). unfold on_rows, on_world, on_db.
  destruct (m (w_db (sv_world s))) as [d r]. cbn in *. destruct (frame_refl U s). by split.
Qed.

(** Only the sides of the server that no route depends on. *)
Lemma framed_pure {E A} U (m : cmd E Server A) :
  (∀ s, sv_pool (m s).1 = sv_pool s ∧ sv_account_clients (m s).1 = sv_account_clients s ∧ sv_made (m s).1 = sv_made s
     ∧ tables (w_db (sv_world (m s).1)) = tables (w_db (sv_world s))) → framed U m.
Proof.
  intros Hm. apply framed_local. intros s. destruct (Hm s) as (H1 & H2 & H3 & H4).
  destruct (frame_refl U s). split; rewrite ?H1, ?H2, ?H3, ?H4; done.
Qed.

Lemma Pool_Client_made profile p : ∃ l, tp_made (Pool_Client (url_Parse pf) profile p).1 = tp_made p ++ l.
Proof.
  unfold Pool_Client. rewrite get_bind. case_bool_decide; [by eexists|].
  assert (∃ l, tp_made (replace_client (url_Parse pf) profile p).1 = tp_made p ++ l) as Hr.
  { rewrite replace_client_run. cbv zeta. destruct (NewClientForProxy _ _ _); cbn; [by eexists|exists []; by rewrite app_nil_r]. }
  destruct (tp_profiles p !! ppID profile) as [old|]; [|done]. destruct (tp_clients p !! ppID profile); [|done].
  case_bool_decide; [|done]. exists []. by rewrite app_nil_r.
Qed.

Lemma framed_client profile : framed nowhere (on_pool (Pool_Client (url_Parse pf) profile)).
Proof.
  apply framed_local. intros s. unfold on_pool. pose proof (Pool_Client_made profile (sv_pool s)) as Hl.
  pose proof (Pool_Client_ok (url_Parse pf) profile (sv_pool s)) as Hok. cbv zeta in Hok.
  assert (tp_config (Pool_Client (url_Parse pf) profile (sv_pool s)).1 = tp_config (sv_pool s)) as Hc.
  { unfold Pool_Client. rewrite get_bind. case_bool_decide; [done|].
    assert (tp_config (replace_client (url_Parse pf) profile (sv_pool s)).1 = tp_config (sv_pool s)) as Hr.
    { rewrite replace_client_run. cbv zeta. by destruct (NewClientForProxy _ _ _). }
    repeat case_match; done. }
  destruct (Pool_Client _ _ _) as [p r]. cbn in *.
  destruct (frame_refl nowhere s). split; cbn; try done. intros Hp. by apply Hok.
Qed.

(** Commands that go on over a client and the database. *)
Definition lifecycle_keeps {A} (run : cmd error AccountLifecycle A) : Prop :=
  ∀ m0, preserves (λ l, rows_from nowhere m0 (tables (al_db l))) run.

Lemma run_client_frame {A} http c (run : cmd error AccountLifecycle A) s : lifecycle_keeps run →
  frame nowhere s (run_client http c run s).1.1.
Proof.
  intros Hrun. specialize (Hrun _ (mkLifecycle (c <| replies := sv_replies s |> <| sent := [] |>) (w_db (sv_world s)))
    (rows_kept_refl nowhere _)). unfold run_client. destruct (run _) as [l r]. cbn in *.
  destruct (frame_refl nowhere s). by split.
Qed.

Lemma framed_lifecycle {A} m (run : cmd error AccountLifecycle A) : lifecycle_keeps run → framed nowhere (on_lifecycle m run).
Proof.
  intros Hrun. apply framed_local. intros s. unfold on_lifecycle.
  pose proof (run_client_frame (client_route m) (client_base m s) run s Hrun) as Hf.
  destruct (run_client _ _ run s) as [[s' c] r]. cbn in *. destruct m; [|done].
  eapply frame_trans; [exact Hf|]. destruct (frame_refl nowhere s'). by split.
Qed.

Lemma framed_job_client {A} j (run : cmd error AccountLifecycle A) : lifecycle_keeps run → framed nowhere (on_job_client j run).
Proof.
  intros Hrun. apply framed_local. intros s. unfold on_job_client. destruct (job_client j s) as [http c] eqn:Hj.
  pose proof (run_client_frame http c run s Hrun) as Hf.
  assert (sv_made (run_client http c run s).1.1 = sv_made s) as Hm.
  { unfold run_client. by destruct (run _). }
  destruct (run_client http c run s) as [[s' c'] r]. cbn in *.
  eapply frame_trans; [exact Hf|]. destruct (frame_refl nowhere s').
  destruct j as [|i]; [by split|]. split; cbn; try done. intros k h d Hk. destruct (decide (i = k)) as [<-|Hne].
  - rewrite list_lookup_insert_eq by (eapply lookup_lt_Some; exact Hk). cbn in Hj. rewrite <-Hm, Hk in Hj.
    injection Hj as <- <-. by exists c'.
  - rewrite list_lookup_insert_ne by done. by exists d.
Qed.

Lemma framed_new http c : framed nowhere (new_client http c).
Proof.
  apply framed_local. intros s. cbn. destruct (frame_refl nowhere s). split; cbn; try done.
  intros i h d Hi. exists d. by apply lookup_app_l_Some.
Qed.

Lemma framed_forget (f : gmap string nat → gmap string nat) :
  (∀ m, f m ⊆ m) → framed nowhere (modify (λ s, s <| sv_account_clients := f (sv_account_clients s) |>) : srv ()).
Proof. intros Hf. apply framed_local. intros s. cbn. destruct (frame_refl nowhere s). by split; cbn. Qed.

Lemma framed_account_session id : framed nowhere (InvalidateAccountSession id).
Proof.
  unfold InvalidateAccountSession. case_bool_decide; [by apply framed_pure|].
  apply (framed_forget (λ m, filter _ m)). intros m. apply map_filter_subseteq.
Qed.

Lemma framed_proxy_sessions id : framed nowhere (InvalidateProxySessions id).
Proof.
  unfold InvalidateProxySessions. case_bool_decide; [by apply framed_pure|].
  apply (framed_forget (λ m, filter _ m)). intros m. apply map_filter_subseteq.
Qed.

Lemma framed_remove id : framed nowhere (on_pool (Pool_Remove id)).
Proof.
  apply framed_local. intros s. unfold on_pool. pose proof (Pool_Remove_ok (url_Parse pf) id (sv_pool s)) as Hok.
  unfold Pool_Remove in *. rewrite (cmd_bind_ok _ _ _ _ _ (close_current_run id (sv_pool s))) in *. cbn in *.
  destruct (frame_refl nowhere s). split; cbn; try done. intros Hp. by apply Hok.
Qed.
End frames.

(** ** The statements of the database that touch proxies *)

Ltac keeps_other_rows :=
  repeat first [keeps_step | apply keeps_exec; intros ? ? ? Hrows Hstep; repeat case_match; simplify_eq/=; exact Hrows].

Lemma keeps_ReplaceMegaAccountSession id session status now : keeps_proxies nowhere (ReplaceMegaAccountSession id session status now).
Proof. intros m0. unfold ReplaceMegaAccountSession, one_or_not_found, update_account_row. keeps_other_rows. Qed.

Lemma keeps_MarkMegaAccountChecked id status now : keeps_proxies nowhere (MarkMegaAccountChecked id status now).
Proof. intros m0. unfold MarkMegaAccountChecked, one_or_not_found, update_account_row. keeps_other_rows. Qed.

Lemma keeps_UpdateMegaAccount id label email credential session status def now :
  keeps_proxies nowhere (UpdateMegaAccount id label email credential session status def now).
Proof. intros m0. unfold UpdateMegaAccount, one_or_not_found, update_account_row, clear_default_account. keeps_other_rows. Qed.

Lemma keeps_DeleteMegaAccount id : keeps_proxies nowhere (DeleteMegaAccount id).
Proof. intros m0. unfold DeleteMegaAccount, one_or_not_found, delete_account_row. keeps_other_rows. Qed.

Lemma keeps_InsertMegaAccount input now : keeps_proxies nowhere (InsertMegaAccount input now).
Proof.
  intros m0. unfold InsertMegaAccount, insert_account_row, clear_default_account, GetMegaAccount. keeps_other_rows.
Qed.

Lemma keeps_UpdateDownloadPayloadURL id c now : keeps_proxies nowhere (UpdateDownloadPayloadURL id c now).
Proof. intros m0. unfold UpdateDownloadPayloadURL, update_file_row. keeps_other_rows. Qed.

Lemma keeps_query_rows {A} U (f : Tables → A) : keeps_proxies U (query f).
Proof. intros m0. apply keeps_query. Qed.

Lemma keeps_GetMegaAccount id : keeps_proxies nowhere (GetMegaAccount id).
Proof. intros m0. apply GetMegaAccount_keeps. Qed.

Lemma keeps_GetProxyProfile U id : keeps_proxies U (GetProxyProfile id).
Proof. intros m0. apply GetProxyProfile_keeps. Qed.

Lemma keeps_ProxySecret U id : keeps_proxies U (ProxySecret id).
Proof. intros m0. unfold ProxySecret. by repeat keeps_step. Qed.

(** Clearing the default mark leaves the transports as they are. *)
Lemma rows_kept_default U m0 m : rows_kept U m0 m → rows_kept U m0 ((λ p, p <| pDefault := false |>) <$> m).
Proof.
  intros H. eapply rows_kept_trans; [exact H|]. intros id row _ Hr. exists (row <| pDefault := false |>).
  rewrite lookup_fmap, Hr. by repeat split.
Qed.

Lemma keeps_clear_default U : keeps_proxies U (exec clear_default_proxy).
Proof. intros m0. apply keeps_exec. intros t t' x Ht [= <- _]. by apply rows_kept_default. Qed.

Lemma keeps_insert_row U p : keeps_proxies U (exec (insert_proxy_row p)).
Proof.
  intros m0. apply keeps_exec. intros t t' x Ht H. unfold insert_proxy_row in H. case_bool_decide as Hn; [done|].
  injection H as <- _. unfold rows_from. cbn. eapply rows_kept_trans; [exact Ht|]. intros k row _ Hk. exists row.
  split; [|apply same_transport_refl]. rewrite lookup_insert_ne; [done|]. intros <-. apply Hn. by eexists.
Qed.

Lemma keeps_InsertProxyProfile input now : keeps_proxies nowhere (InsertProxyProfile input now).
Proof.
  intros m0. unfold InsertProxyProfile, GetProxyProfile.
  repeat first [apply keeps_clear_default|apply keeps_insert_row|keeps_step].
Qed.

(** Only the row updated or deleted changes. *)
Lemma keeps_UpdateProxyProfile id input now : keeps_proxies (λ x, x = id) (UpdateProxyProfile id input now).
Proof.
  intros m0. unfold UpdateProxyProfile, one_or_not_found. repeat first [apply keeps_clear_default|keeps_step].
  all: apply keeps_exec; intros t t' x Ht H; unfold update_proxy_row in H; destruct (proxies t !! id) as [p|]; injection H as <- _; [|done];
    unfold rows_from; cbn; eapply rows_kept_trans; [exact Ht|]; intros k row Hne Hk; exists row;
    (split; [by rewrite lookup_insert_ne by done|apply same_transport_refl]).
Qed.

Lemma keeps_DeleteProxyProfile id : keeps_proxies (λ x, x = id) (DeleteProxyProfile id).
Proof.
  intros m0. unfold DeleteProxyProfile, one_or_not_found. repeat keeps_step. apply keeps_exec. intros t t' x Ht H.
  unfold delete_proxy_row in H. destruct (proxies t !! id) as [p|]; injection H as <- _; [|done].
  unfold rows_from. cbn. eapply rows_kept_trans; [exact Ht|]. intros k row Hne Hk. exists row.
  split; [by rewrite lookup_delete_ne|apply same_transport_refl].
Qed.

(** ** Logging in touches no proxy *)

Lemma keeps_on_client {A} (m : api A) : lifecycle_keeps (on_client m).
Proof. intros m0 l Hl. unfold on_client. by destruct (m (al_client l)). Qed.

Lemma keeps_on_store {A} (m : store_cmd A) : keeps_proxies nowhere m → lifecycle_keeps (on_store m).
Proof. intros Hm m0 l Hl. specialize (Hm m0 _ Hl). unfold on_store. by destruct (m (al_db l)). Qed.

Lemma keeps_account_session b D E' k c g secrets mark id draw nonce now :
  lifecycle_keeps (account_session b D E' k c g secrets mark id draw nonce now).
Proof.
  intros m0. unfold account_session, MegaAccountSecrets.
  repeat first [server_step|apply keeps_on_client|apply keeps_on_store];
    auto using keeps_GetMegaAccount, keeps_ReplaceMegaAccountSession, keeps_MarkMegaAccountChecked.
  intros m1. by repeat keeps_step.
Qed.

(** ** The cached clients keep to their proxies *)

Section routes.
Context (pf : Platform) (config : Config) (secrets : SecretStore) (transports : bool).

(** The connection that the traffic of a job may use now: the manager's own,
    or the one built from the job's proxy profile as it is stored. *)
Definition routed (proxy : string) (s : Server) (http : option nat) : Prop :=
  if bool_decide (proxy = "") then http = None
  else ∃ h, http = Some h ∧ proxy_client pf config proxy s h s.

(** The proxies of [stale] have changed and their clients are not dropped yet. *)
Record routes_ok (stale : string → Prop) (s : Server) : Prop := {
  ro_pool : pool_ok (url_Parse pf) (sv_pool s);
  ro_bound : (size (sv_account_clients s) ≤ maxCachedAccountClients)%nat;
  ro_route : ∀ key i, sv_account_clients s !! key = Some i → ∃ acc proxy http c,
    key = account_key acc proxy ∧ str_elem Nul acc = false ∧ sv_made s !! i = Some (http, c)
    ∧ (proxy ≠ "" ∧ stale proxy ∨ routed proxy s http) }.

Lemma routed_frame U proxy s s' http : frame pf U s s' → (proxy ≠ "" → ¬ U proxy) → routed proxy s http → routed proxy s' http.
Proof.
  intros [] Hu. unfold routed. case_bool_decide as Hne; [done|]. specialize (Hu Hne). intros (h & -> & row & password & Hrow & Hen & Hpw & Hb).
  exists h. split; [done|]. destruct (fr_rows0 proxy row Hu Hrow) as (row' & Hrow' & Ht & Hp & He & Hty).
  exists row', password. unfold proxy_password in *. rewrite <-Hp, <-He, <-Hty. do 3 (split; [done|]).
  intros Hd. rewrite <-Ht. eapply built_for_extends; [exact fr_config0|exact fr_built0|by apply Hb].
Qed.

Lemma routes_frame stale U `{∀ x, Decision (U x)} s s' : routes_ok stale s → frame pf U s s' → routes_ok (λ x, stale x ∨ U x) s'.
Proof.
  intros [] Hf. pose proof Hf as []. split; [auto| |].
  - apply map_subseteq_size in fr_clients0. lia.
  - intros key i Hk. destruct (ro_route0 key i) as (acc & proxy & http & c & -> & Hacc & Hm & Hr).
    { by eapply lookup_weaken. }
    destruct (fr_made0 i http c Hm) as (c' & Hm'). exists acc, proxy, http, c'. do 3 (split; [done|]).
    destruct Hr as [[Hne Hr]|Hr]; [left; by auto|].
    destruct (decide (proxy ≠ "" ∧ U proxy)) as [[Hne Hu]|Hn]; [left; by auto|]. right.
    eapply routed_frame; [exact Hf| |exact Hr]. naive_solver.
Qed.

#[local] Instance nowhere_dec x : Decision (nowhere x) := right (λ H, H).

Lemma routes_framed {E A} stale (m : cmd E Server A) : framed pf nowhere m → preserves (routes_ok stale) m.
Proof.
  intros Hm s Hs. pose proof (routes_frame stale nowhere s (m s).1 Hs (framed_run pf _ m s Hm)) as [].
  split; [done|done|]. intros key i Hk. destruct (ro_route0 key i Hk) as (acc & proxy & http & c & ? & ? & ? & Hr).
  exists acc, proxy, http, c. naive_solver.
Qed.

(** Dropping the clients of the stale proxy. *)
Lemma account_key_has_suffix acc id : HasSuffix (account_key acc id) (NulString +:+ id) = true.
Proof. unfold account_key, HasSuffix. rewrite (rev_str_app acc). apply HasPrefix_app. Qed.

Lemma routes_dropped id s : routes_ok (λ x, x = id) s → routes_ok nowhere (InvalidateProxySessions id s).1.
Proof.
  intros []. unfold InvalidateProxySessions. case_bool_decide as He; cbn.
  { subst id. split; [done|done|]. intros key i Hk.
    destruct (ro_route0 key i Hk) as (acc & proxy & http & c & ? & ? & ? & Hr). exists acc, proxy, http, c. naive_solver. }
  split; cbn; [done| |].
  - etrans; [|exact ro_bound0]. apply map_subseteq_size, map_filter_subseteq.
  - intros key i [Hk Hs]%map_lookup_filter_Some. cbn [fst] in Hs.
    destruct (ro_route0 key i Hk) as (acc & proxy & http & c & -> & ? & ? & Hr). exists acc, proxy, http, c.
    do 3 (split; [done|]). right. destruct Hr as [[_ ->]|Hr]; [|exact Hr]. by rewrite account_key_has_suffix in Hs.
Qed.

(** ** A job's client *)

(** What was sent between the two states went over [http]. *)
Definition sent_over (http : option nat) (s s' : Server) : Prop :=
  ∃ reqs, sv_sent s' = sv_sent s ++ (pair http <$> reqs).

Lemma sent_over_same http s s' : sv_sent s' = sv_sent s → sent_over http s s'.
Proof. intros H. exists []. by rewrite app_nil_r. Qed.

Lemma sent_over_trans http s1 s2 s3 : sent_over http s1 s2 → sent_over http s2 s3 → sent_over http s1 s3.
Proof. intros [l1 H1] [l2 H2]. exists (l1 ++ l2). by rewrite H2, H1, fmap_app, app_assoc. Qed.

Lemma job_client_sends {A} j (run : cmd error AccountLifecycle A) s :
  let s' := (on_job_client j run s).1 in
  sent_over (job_client j s).1 s s' ∧ ((job_client j s').1 = (job_client j s).1)
  ∧ sv_account_clients s' = sv_account_clients s.
Proof.
  cbv zeta. unfold on_job_client. destruct (job_client j s) as [http c] eqn:Hj. unfold run_client.
  destruct (run _) as [l r]. cbn. split; [destruct j; by eexists|]. destruct j as [|i]; [by injection Hj as <- <-|]. cbn in *.
  split; [|done]. destruct (sv_made s !! i) as [x|] eqn:Hi.
  - cbn in Hj. subst x. rewrite list_lookup_insert_eq by (by eapply lookup_lt_Some). done.
  - cbn in Hj. rewrite list_insert_ge by (by apply lookup_ge_None). rewrite Hi. cbn. congruence.
Qed.

Lemma framed_transport secs proxyID profile : framed pf nowhere (proxy_transport pf secs proxyID profile).
Proof.
  unfold proxy_transport, guard_err.
  repeat first [apply framed_bind; [|intros ?]|apply framed_rows, keeps_ProxySecret|apply framed_client
    |by apply framed_pure|case_match].
Qed.

Lemma framed_job_transport proxyID : framed pf nowhere (job_transport pf secrets transports proxyID).
Proof.
  unfold job_transport, guard_err. case_bool_decide; [by apply framed_pure|].
  apply framed_bind; [destruct (negb transports); by apply framed_pure|intros []].
  apply framed_bind; [apply framed_rows; intros ?; apply keeps_wrapped, GetProxyProfile_keeps|intros profile].
  apply framed_bind; [apply framed_transport|intros http].
  apply framed_bind; [by apply framed_pure|intros s]. apply framed_bind; [apply framed_new|intros made; by apply framed_pure].
Qed.

Lemma job_transport_quiet proxyID s0 :
  preserves (λ s, sv_sent s = sv_sent s0 ∧ sv_account_clients s = sv_account_clients s0) (job_transport pf secrets transports proxyID).
Proof.
  unfold job_transport, proxy_transport. repeat server_step; by (apply preserves_rows || apply preserves_pool || intros ? ?).
Qed.

(** The transport of a job is the one of its proxy. *)
Lemma job_transport_routed proxyID s s' j : pool_ok (url_Parse pf) (sv_pool s) → cfg_Secrets config = Some secrets →
  job_transport pf secrets transports proxyID s = (s', Ok j) →
  routed proxyID s' (job_client j s').1 ∧ ∀ i, j = Made i → is_Some (sv_made s' !! i).
Proof.
  intros Hpool Hsec. unfold job_transport, routed. case_bool_decide as He; [by intros [= <- <-]|].
  intros ([] & s1 & Hg & H)%cmd_bind_inv. unfold guard_err in Hg. destruct (negb transports); [done|]. injection Hg as <-.
  apply cmd_bind_inv in H as (profile & s2 & Hp & H). apply on_rows_inv in Hp as (d & Hp & ->).
  apply wrapped_ok, GetProxyProfile_ok in Hp as (row & Hrow & -> & Ht).
  apply cmd_bind_inv in H as (http & s3 & Hh & H). injection H as <- <-.
  eapply proxy_transport_ok in Hh as [(row' & password & Hrow' & Hc) Hsame]; [|done|done|by cbn; rewrite Ht].
  cbn [job_client sv_made update_field]. cbn in Hsame |- *.
  rewrite lookup_app_r, Nat.sub_diag by lia. cbn. split; [|by intros i [= <-]; rewrite lookup_app_r, Nat.sub_diag by lia].
  exists http. split; [done|]. exists row', password. cbn. by rewrite Hsame.
Qed.

Lemma job_route_frame U j s s' : frame pf U s s' → (∀ i, j = Made i → is_Some (sv_made s !! i)) →
  (job_client j s').1 = (job_client j s).1 ∧ ∀ i, j = Made i → is_Some (sv_made s' !! i).
Proof.
  intros [] Hj. destruct j as [|i]; [done|]. destruct (Hj i eq_refl) as [[http c] Hi].
  destruct (fr_made0 i http c Hi) as [c' Hi']. cbn. rewrite Hi, Hi'. split; [done|]. intros k [= <-]. by eexists.
Qed.

(** Go visits every key of a map exactly once, in some order. *)
Definition range_lists : Prop := ∀ A (m : gmap string A), range pf A m ≡ₚ map_to_list m.

Lemma make_room_subseteq m : make_room pf m ⊆ m.
Proof. unfold make_room. repeat case_match; try done. apply delete_subseteq. Qed.

Lemma make_room_size m : range_lists → (size m ≤ maxCachedAccountClients)%nat → (size (make_room pf m) < maxCachedAccountClients)%nat.
Proof.
  intros Hr Hm. unfold make_room. destruct (Nat.leb_spec maxCachedAccountClients (size m)) as [Hle|]; [|done].
  pose proof (Hr _ m) as Hp. destruct (range pf nat m) as [|[k v] rest].
  - apply Permutation_length in Hp. rewrite length_map_to_list in Hp. cbn in Hp. unfold maxCachedAccountClients in *. lia.
  - assert (m !! k = Some v) as Hk by (apply elem_of_map_to_list; rewrite <-Hp; by left).
    rewrite map_size_delete_Some by (by eexists). unfold maxCachedAccountClients in *. lia.
Qed.

(** A client routed like its key may be kept under it. *)
Lemma keep_client_ok acc proxy i http c s : range_lists → routes_ok nowhere s → str_elem Nul acc = false →
  sv_made s !! i = Some (http, c) → routed proxy s http → routes_ok nowhere (keep_client pf (account_key acc proxy) i s).1.
Proof.
  intros Hrange [] Hacc Hi Hr. pose proof (make_room_size _ Hrange ro_bound0) as Hsize. cbn. split; cbn; [done| |].
  - destruct (make_room pf (sv_account_clients s) !! account_key acc proxy) as [k|] eqn:Hk;
      [rewrite map_size_insert_Some by (by eexists)|rewrite map_size_insert_None by done]; lia.
  - intros key k [[<- <-]|[_ Hk]]%lookup_insert_Some; [exists acc, proxy, http, c; by auto|].
    eapply ro_route0, lookup_weaken; [exact Hk|apply make_room_subseteq].
Qed.

Lemma cached_routed acc proxy i s : routes_ok nowhere s → str_elem Nul acc = false →
  sv_account_clients s !! account_key acc proxy = Some i →
  routed proxy s (job_client (Made i) s).1 ∧ is_Some (sv_made s !! i).
Proof.
  intros [] Hacc Hi. destruct (ro_route0 _ _ Hi) as (acc' & proxy' & http & c & Hkey & Hacc' & Hm & Hr).
  unfold account_key, NulString in Hkey. cbn [String.app] in Hkey.
  pose proof (nul_cut _ _ _ _ Hacc Hacc' Hkey) as <-. apply (inj (String.app acc)) in Hkey.
  change (String Nul proxy = String Nul proxy') in Hkey. injection Hkey as <-.
  cbn. rewrite Hm. split; [|by eexists]. destruct Hr as [[_ []]|Hr]; exact Hr.
Qed.

Lemma account_client_ok acc proxy j s : range_lists → routes_ok nowhere s → str_elem Nul acc = false →
  routed proxy s (job_client j s).1 → (∀ i, j = Made i → is_Some (sv_made s !! i)) →
  let key := account_key acc proxy in
  let '(s', r) := account_client pf secrets acc key j s in
  routes_ok nowhere s' ∧ sent_over (job_client j s).1 s s' ∧ routed proxy s' (job_client j s).1
  ∧ ∀ j', r = Ok j' → routed proxy s' (job_client j' s').1
      ∧ ∃ i, j' = Made i ∧ sv_account_clients s' !! key = Some i ∧ is_Some (sv_made s' !! i).
Proof.
  intros Hrange Hs Hacc Hr Hj key. unfold account_client, cached_client.
  rewrite (cmd_bind_ok _ _ s s (sv_account_clients s !! key)) by done.
  destruct (sv_account_clients s !! key) as [i|] eqn:Hi.
  { cbn. split; [done|]. split; [by apply sent_over_same|]. split; [done|]. intros j' [= <-].
    destruct (cached_routed acc proxy i s Hs Hacc Hi) as [Hc Hsome]. split; [exact Hc|by exists i]. }
  set (s1 := s <| sv_draws := S (sv_draws s) |>).
  rewrite (cmd_bind_ok _ _ s s1 (rand pf (sv_draws s) 16)) by done.
  set (s2 := s1 <| sv_draws := S (sv_draws s1) |>).
  rewrite (cmd_bind_ok _ _ s1 s2 (rand pf (sv_draws s1) (NonceSize (gcm pf)))) by done.
  rewrite (cmd_bind_ok _ _ s2 s2 (wall (w_db (sv_world s2)))) by done.
  assert (routes_ok nowhere s2) as Hs2 by (destruct Hs; by split).
  match goal with |- context [on_job_client j ?run] => set (login := run) end.
  assert (lifecycle_keeps login) as Hlogin.
  { intros m0. unfold login, ClientFor. apply preserves_bind; [apply keeps_account_session|intros; apply preserves_ret]. }
  pose proof (framed_run pf _ _ s2 (framed_job_client pf j login Hlogin)) as Hf.
  pose proof (routes_framed nowhere _ (framed_job_client pf j login Hlogin) s2 Hs2) as Hs3.
  pose proof (job_client_sends j login s2) as (Hsent & _ & Hc). cbv zeta in Hsent, Hc.
  assert ((job_client j s2).1 = (job_client j s).1) as Hsame by (by destruct j). rewrite Hsame in Hsent.
  destruct (on_job_client j login s2) as [s3 [session|e]] eqn:Hrun; cbn in Hf, Hs3, Hsent, Hc.
  2: { rewrite (cmd_bind_err _ _ _ _ _ Hrun). split; [exact Hs3|]. split; [exact Hsent|].
    split; [|done]. eapply routed_frame; [exact Hf|intros _ []|exact Hr]. }
  rewrite (cmd_bind_ok _ _ _ _ _ Hrun), get_bind.
  destruct (job_route_frame _ j s2 s3 Hf Hj) as [Hroute Hsome]. rewrite Hsame in Hroute.
  destruct (job_client j s3) as [http c] eqn:Hj3. cbn in Hroute. subst http.
  set (i := length (sv_made s3)). set (c' := WithSession c session).
  set (s4 := s3 <| sv_made := sv_made s3 ++ [((job_client j s).1, c')] |>).
  rewrite (cmd_bind_ok _ _ s3 s4 i) by done.
  assert (sv_made s4 !! i = Some ((job_client j s).1, c')) as Hi4.
  { cbn. unfold i. by rewrite lookup_app_r, Nat.sub_diag by lia. }
  assert (frame pf nowhere s2 s4) as Hf4.
  { eapply frame_trans; [exact Hf|]. exact (framed_run pf _ _ s3 (framed_new pf ((job_client j s).1) c')). }
  assert (routed proxy s4 (job_client j s).1) as Hr4 by (eapply routed_frame; [exact Hf4|intros _ []|exact Hr]).
  assert (routes_ok nowhere s4) as Hs4 by exact (routes_framed nowhere _ (framed_new pf ((job_client j s).1) c') s3 Hs3).
  pose proof (keep_client_ok acc proxy i _ c' s4 Hrange Hs4 Hacc Hi4 Hr4) as Hs5.
  cbn in Hs5 |- *. split; [exact Hs5|]. split; [exact Hsent|].
  split; [exact Hr4|]. intros j' [= <-]. split.
  - cbn. cbn in Hi4. rewrite Hi4. exact Hr4.
  - exists i. split; [done|]. cbn. rewrite lookup_insert_eq. cbn in Hi4. rewrite Hi4. split; [done|by eexists].
Qed.

(** What [workerForJob] promises from a state with sound caches. *)
Definition worker_promise (job : JobRow) (s s' : Server) (r : result error JobClient) : Prop :=
  (∃ http, sent_over http s s' ∧ (sv_sent s' = sv_sent s ∨ routed (jProxyID job) s' http))
  ∧ ∀ j, r = Ok j → routed (jProxyID job) s' (job_client j s').1
      ∧ (∀ i, j = Made i → is_Some (sv_made s' !! i))
      ∧ (jAccountID job ≠ "" → workerForJob pf secrets transports job s' = (s', Ok j)).

Lemma workerForJob_ok job s : range_lists → cfg_Secrets config = Some secrets → routes_ok nowhere s →
  str_elem Nul (jAccountID job) = false →
  let '(s', r) := workerForJob pf secrets transports job s in routes_ok nowhere s' ∧ worker_promise job s s' r.
Proof.
  intros Hrange Hsec Hs Hacc. unfold worker_promise.
  assert (∀ s' i, jAccountID job ≠ "" → sv_account_clients s' !! account_key (jAccountID job) (jProxyID job) = Some i →
    workerForJob pf secrets transports job s' = (s', Ok (Made i))) as Hcached.
  { intros s' i Hne Hi. unfold workerForJob. rewrite bool_decide_eq_false_2 by done. unfold cached_client.
    rewrite (cmd_bind_ok _ _ s' s' (Some i)) by (by rewrite Hi). done. }
  destruct (if bool_decide (jAccountID job = "") then None
            else sv_account_clients s !! account_key (jAccountID job) (jProxyID job)) as [i|] eqn:Hc.
  - case_bool_decide as He; [done|]. rewrite (Hcached s i He Hc).
    destruct (cached_routed _ _ i s Hs Hacc Hc) as [Hr Hi]. split; [done|]. split.
    { exists None. split; [by apply sent_over_same|by left]. }
    intros j [= <-]. split; [exact Hr|]. split; [by intros ? [= <-]|by auto].
  - unfold workerForJob at 1. rewrite (cmd_bind_ok _ _ s s None) by (unfold cached_client; case_bool_decide; by rewrite ?Hc).
    pose proof (job_transport_quiet (jProxyID job) s s (conj eq_refl eq_refl)) as [Hsent _].
    pose proof (routes_framed nowhere _ (framed_job_transport (jProxyID job)) s Hs) as Hs1.
    destruct (job_transport pf secrets transports (jProxyID job) s) as [s1 [j|e]] eqn:Hj; cbn in Hsent, Hs1.
    2: { rewrite (cmd_bind_err _ _ _ _ _ Hj). split; [exact Hs1|]. split; [|done]. exists None.
         split; [by apply sent_over_same|by left]. }
    rewrite (cmd_bind_ok _ _ _ _ _ Hj). pose proof (ro_pool _ _ Hs) as Hpool.
    destruct (job_transport_routed _ _ _ _ Hpool Hsec Hj) as [Hr Hsome].
    case_bool_decide as He.
    + cbn. split; [done|]. split; [exists None; split; [by apply sent_over_same|by left]|]. by intros ? [= <-].
    + pose proof (account_client_ok (jAccountID job) (jProxyID job) j s1 Hrange Hs1 Hacc Hr Hsome) as Ha. cbv zeta in Ha.
      destruct (account_client _ _ _ _ j s1) as [s2 r]. destruct Ha as (Hs2 & [reqs Hq] & Hr2 & Hok). split; [done|].
      split; [exists (job_client j s1).1; split; [exists reqs; by rewrite Hq, Hsent|by right]|].
      intros j' Hj'. destruct (Hok j' Hj') as (Hr' & i & -> & Hi & Hmade). split; [exact Hr'|].
      split; [by intros ? [= <-]|]. intros _. by apply Hcached.
Qed.

(** ** The handlers keep the routes *)

Lemma framed_or_write {A} U (m : srv A) answer : framed pf U m → framed pf U (or_write m answer).
Proof. intros Hm s0. by apply preserves_or_write. Qed.

Lemma framed_attempt {A} U (m : srv A) : framed pf U m → framed pf U (attempt m).
Proof. intros Hm s0. apply attempt_preserves, Hm. Qed.

Lemma framed_lift {A} U (r : result error A) : framed pf U (lift_result r : srv A).
Proof. by apply framed_pure. Qed.

Lemma framed_clientForProxy id : framed pf nowhere (clientForProxy pf config id).
Proof.
  unfold clientForProxy, guard_err.
  repeat first [apply framed_transport|case_match|apply framed_rows, keeps_GetProxyProfile|apply framed_bind; [|intros ?]|by apply framed_pure].
Qed.

Lemma framed_ClientFor secs m id draw nonce now : framed pf nowhere (on_lifecycle m
  (ClientFor (Base64ToBytes pf) (aes_E pf) (aes_D pf) (pbkdf2 pf) (ctx_Err pf) (gcm pf) secs id draw nonce now)).
Proof.
  apply framed_lifecycle. intros m0. unfold ClientFor. apply preserves_bind; [apply keeps_account_session|intros; apply preserves_ret].
Qed.

Lemma framed_AccountTest secs m id draw nonce now : framed pf nowhere (on_lifecycle m
  (AccountTest (Base64ToBytes pf) (aes_E pf) (aes_D pf) (pbkdf2 pf) (ctx_Err pf) (gcm pf) secs id draw nonce now)).
Proof.
  apply framed_lifecycle. intros m0. unfold AccountTest. apply preserves_bind; [apply keeps_account_session|intros; apply preserves_ret].
Qed.

(** One step of a handler. *)
Ltac framed_step :=
  lazymatch goal with
  | |- framed _ _ (mbind _ _) => apply framed_bind; [|intros ?]
  | |- framed _ _ (guard_err ?b _) => unfold guard_err; destruct b; by apply framed_pure
  | |- framed _ _ (or_write _ _) => apply framed_or_write
  | |- framed _ _ (attempt _) => apply framed_attempt
  | |- framed _ _ (clientForProxy _ _ _) => apply framed_clientForProxy
  | |- framed _ _ (InvalidateAccountSession _) => apply framed_account_session
  | |- framed _ _ (InvalidateProxySessions _) => apply framed_proxy_sessions
  | |- framed _ _ (on_pool (Pool_Remove _)) => apply framed_remove
  | |- framed _ _ (on_pool (Pool_Client _ _)) => apply framed_client
  | |- framed _ _ (on_rows (GetMegaAccount _)) => apply framed_rows, keeps_GetMegaAccount
  | |- framed _ _ (on_rows (GetProxyProfile _)) => apply framed_rows, keeps_GetProxyProfile
  | |- framed _ _ (on_rows (ProxySecret _)) => apply framed_rows, keeps_ProxySecret
  | |- framed _ _ (on_rows (InsertMegaAccount _ _)) => apply framed_rows, keeps_InsertMegaAccount
  | |- framed _ _ (on_rows (UpdateMegaAccount _ _ _ _ _ _ _ _)) => apply framed_rows, keeps_UpdateMegaAccount
  | |- framed _ _ (on_rows (DeleteMegaAccount _)) => apply framed_rows, keeps_DeleteMegaAccount
  | |- framed _ _ (on_rows (InsertProxyProfile _ _)) => apply framed_rows, keeps_InsertProxyProfile
  | |- framed _ _ (on_mega _ _) => apply framed_lifecycle, keeps_on_client
  | |- framed _ _ (on_lifecycle _ (on_client _)) => apply framed_lifecycle, keeps_on_client
  | |- framed _ _ (on_lifecycle _ (ClientFor _ _ _ _ _ _ _ _ _ _ _)) => apply framed_ClientFor
  | |- framed _ _ (on_lifecycle _ (AccountTest _ _ _ _ _ _ _ _ _ _ _)) => apply framed_AccountTest
  | |- framed _ _ (match ?x with _ => _ end) => destruct x
  | |- framed _ _ _ => by apply framed_pure
  end.

Lemma framed_change_account id op : framed pf nowhere (change_account pf config id op).
Proof.
  destruct op as [proxyID|body|]; cbn; unfold handleTestAccount, handleUpdateAccount, handleDeleteAccount, new_credentials,
    selected_client, invalidated, login, seal, encrypt, Encrypt, handler_now, decodeJSON; repeat framed_step.
Qed.

Lemma framed_create_account body : framed pf nowhere (handleCreateAccount pf config body).
Proof.
  unfold handleCreateAccount, selected_client, login, seal, encrypt, Encrypt, handler_now, decodeJSON, require.
  repeat framed_step.
Qed.

Lemma framed_create_proxy body : framed pf nowhere (handleCreateProxy pf config body).
Proof. unfold handleCreateProxy, seal, encrypt, Encrypt, handler_now, decodeJSON. repeat framed_step. Qed.

Lemma framed_test_proxy Get id body : framed pf nowhere (handleTestProxy pf config Get id body).
Proof. unfold handleTestProxy, proxyClient. repeat framed_step. Qed.

Lemma framed_resolve input : framed pf nowhere (resolve pf config input).
Proof. unfold resolve, clientForAccountWithProxy. repeat framed_step. Qed.

Lemma framed_refresh job file j : framed pf nowhere (refreshPayloadURL pf secrets job file j).
Proof.
  unfold refreshPayloadURL, Encrypt. repeat framed_step.
  - apply framed_job_client, keeps_on_client.
  - apply framed_rows, keeps_UpdateDownloadPayloadURL.
Qed.

(** A row changed and its clients dropped: sound again, also when the change
    failed. *)
Lemma routes_change_row {A} id (m : store_cmd ()) answer (k : () → handler A) : cfg_Downloads config = true →
  keeps_proxies (λ x, x = id) m → (∀ d d' e, m d = (d', Err e) → tables d' = tables d) → framed pf nowhere (k ()) →
  preserves (routes_ok nowhere) (_ ← or_write (on_rows m) answer; x ← drop_proxy config id; k x).
Proof.
  intros Hdl Hm Herr Hk s Hs. pose proof (framed_run pf _ _ s (framed_rows pf _ m Hm)) as Hf.
  assert (∀ s' e, on_rows m s = (s', Err e) → routes_ok nowhere s') as Hbad.
  { intros s' e (d & Hd & ->)%on_rows_inv. destruct Hs. split; [done|done|]. intros key i Hi.
    destruct (ro_route0 key i Hi) as (acc & proxy & http & c & Hr). exists acc, proxy, http, c.
    unfold routed, proxy_client in *. cbn. by rewrite (Herr _ _ _ Hd). }
  destruct (on_rows m s) as [s1 [[]|e]] eqn:Hrun; cbn in Hf.
  2: { rewrite (cmd_bind_err _ _ s s1 (answer e)) by (unfold or_write; by rewrite Hrun). by eapply Hbad. }
  rewrite (cmd_bind_ok _ _ s s1 ()) by (unfold or_write; by rewrite Hrun).
  assert (routes_ok (λ x, x = id) s1) as Hs1.
  { pose proof (routes_frame nowhere _ s s1 Hs Hf) as []. split; [done|done|]. intros key i Hi.
    destruct (ro_route0 key i Hi) as (acc & proxy & http & c & ? & ? & ? & Hr). exists acc, proxy, http, c. naive_solver. }
  pose proof (routes_framed _ _ (framed_remove pf id) s1 Hs1) as Hs2.
  unfold drop_proxy, invalidated. rewrite Hdl. unfold on_pool, Pool_Remove in Hs2.
  rewrite (cmd_bind_ok _ _ _ _ _ (close_current_run id (sv_pool s1))) in Hs2. cbn in Hs2.
  match type of Hs2 with routes_ok _ ?s => set (s2 := s) in * end.
  pose proof (routes_dropped id s2 Hs2) as Hs3.
  assert ((_ ← or_write (on_pool (Pool_Remove id)) (λ _, mkHTTPError StatusInternalServerError "" "");
    or_write (InvalidateProxySessions id) (λ _, mkHTTPError StatusInternalServerError "" "")) s1
    = ((InvalidateProxySessions id s2).1, Ok ())) as Hdrop.
  { rewrite (cmd_bind_ok _ _ s1 s2 ()).
    - unfold or_write, InvalidateProxySessions. by case_bool_decide.
    - unfold or_write, on_pool, Pool_Remove. by rewrite (cmd_bind_ok _ _ _ _ _ (close_current_run id (sv_pool s1))). }
  rewrite (cmd_bind_ok _ _ _ _ _ Hdrop). by apply routes_framed.
Qed.

Lemma routes_prefix {A B} (m : handler A) (k : A → handler B) :
  framed pf nowhere m → (∀ a, preserves (routes_ok nowhere) (k a)) → preserves (routes_ok nowhere) (m ≫= k).
Proof. intros Hm Hk. apply preserves_bind; [by apply routes_framed|exact Hk]. Qed.

Lemma routes_change_proxy id op : cfg_Downloads config = true → preserves (routes_ok nowhere) (change_proxy pf config id op).
Proof.
  intros Hdl. destruct op as [body|]; cbn; (apply preserves_bind; [|intros; apply preserves_ret]).
  - unfold handleUpdateProxy, decodeJSON, encrypt, Encrypt, handler_now.
    do 5 (apply routes_prefix; [repeat framed_step|intros ?]).
    apply routes_change_row; [done|apply keeps_UpdateProxyProfile| |repeat framed_step].
    intros d d' e. unfold UpdateProxyProfile. intros H.
    match type of H with (or_now ?now ≫= _) d = _ => assert (∃ w, or_now now d = (d, Ok w)) as [w Hw] by (by eexists) end.
    rewrite (cmd_bind_ok _ _ _ _ _ Hw) in H. by apply WithTx_err in H.
  - unfold handleDeleteProxy. apply routes_change_row; [done|apply keeps_DeleteProxyProfile| |repeat framed_step].
    intros d d' e. apply WithTx_err.
Qed.

Lemma refresh_sends job file j s : sent_over (job_client j s).1 s (refreshPayloadURL pf secrets job file j s).1.
Proof.
  unfold refreshPayloadURL, lift_result.
  destruct (SecretStore_Decrypt _ _ _) as [raw|e] eqn:Hd; [|by apply sent_over_same].
  rewrite (cmd_bind_ok _ _ s s raw) by done. cbv zeta.
  match goal with |- context [on_job_client j ?run] => set (ask := run) end.
  pose proof (job_client_sends j ask s) as (Hsent & _). cbv zeta in Hsent.
  destruct (on_job_client j ask s) as [s1 [url|e]] eqn:Hrun; cbn in Hsent.
  2: { by rewrite (cmd_bind_err _ _ _ _ _ Hrun). }
  rewrite (cmd_bind_ok _ _ _ _ _ Hrun). eapply sent_over_trans; [exact Hsent|]. apply sent_over_same.
  refine ((_ : preserves (λ x, sv_sent x = sv_sent s1) _) s1 eq_refl).
  unfold Encrypt. repeat server_step; by (apply preserves_rows || intros ? ?).
Qed.

(** What happens to the shared state while jobs run: workers choosing clients
    and asking for payload URLs, and the requests of the API. *)
Inductive manager_step (s : Server) : Server → Prop :=
| StepWorker job : str_elem Nul (jAccountID job) = false → manager_step s (workerForJob pf secrets transports job s).1
| StepRefresh job file j : manager_step s (refreshPayloadURL pf secrets job file j s).1
| StepChangeAccount id op : manager_step s (change_account pf config id op s).1
| StepCreateAccount body : manager_step s (handleCreateAccount pf config body s).1
| StepChangeProxy id op : manager_step s (change_proxy pf config id op s).1
| StepCreateProxy body : manager_step s (handleCreateProxy pf config body s).1
| StepTestProxy Get id body : manager_step s (handleTestProxy pf config Get id body s).1
| StepResolve body : manager_step s (handleResolve pf config body s).1
| StepClose : manager_step s (clearAccountClients s).1.

Lemma manager_step_routes s s' : range_lists → cfg_Secrets config = Some secrets → cfg_Downloads config = true →
  manager_step s s' → routes_ok nowhere s → routes_ok nowhere s'.
Proof.
  intros Hrange Hsec Hdl Hstep Hs. destruct Hstep as [job Hacc|job file j|id op|body|id op|body|Get id body|body|].
  - pose proof (workerForJob_ok job s Hrange Hsec Hs Hacc) as H. by destruct (workerForJob _ _ _ job s) as [s1 r], H.
  - by apply routes_framed; [apply framed_refresh|].
  - by apply routes_framed; [apply framed_change_account|].
  - by apply routes_framed; [apply framed_create_account|].
  - by apply routes_change_proxy.
  - by apply routes_framed; [apply framed_create_proxy|].
  - by apply routes_framed; [apply framed_test_proxy|].
  - apply routes_framed; [|exact Hs]. unfold handleResolve, decodeJSON. apply framed_bind; [repeat framed_step|intros input].
    apply framed_bind; [apply framed_or_write, framed_resolve|intros ?; repeat framed_step].
  - destruct Hs. split; cbn; [done|rewrite map_size_empty; unfold maxCachedAccountClients; lia|].
    intros key i. by rewrite lookup_empty.
Qed.

(** C14: Whatever jobs and API requests ran before, at most 64 account clients
    are kept, and a worker that takes a client for a job gets one whose every
    request, those of a login included, goes over the connection built from the
    job's proxy profile as it is stored then, enabled, with its password, or over
    the manager's own connection for a job without a proxy; when the proxy cannot
    be used nothing is sent at all.  A kept client is taken without another
    login, and a new payload URL is asked for over the same connection. *)
Theorem job_traffic_routed job s0 s
    (Hrange : range_lists) (Hsec : cfg_Secrets config = Some secrets) (Hdl : cfg_Downloads config = true)
    (Hempty : sv_account_clients s0 = ∅) (Hpool : pool_ok (url_Parse pf) (sv_pool s0))
    (Hrun : rtc manager_step s0 s) (Hacc : str_elem Nul (jAccountID job) = false) :
  (size (sv_account_clients s) ≤ maxCachedAccountClients)%nat ∧
  let '(s', r) := workerForJob pf secrets transports job s in
  (∃ http, sent_over http s s' ∧ (sv_sent s' = sv_sent s ∨ routed (jProxyID job) s' http))
  ∧ ∀ j, r = Ok j →
      routed (jProxyID job) s' (job_client j s').1
      ∧ (jAccountID job ≠ "" → workerForJob pf secrets transports job s' = (s', Ok j))
      ∧ ∀ file, sent_over (job_client j s').1 s' (refreshPayloadURL pf secrets job file j s').1.
Proof.
  assert (routes_ok nowhere s) as Hs.
  { eapply (rtc_invariant manager_step (routes_ok nowhere)); [|exact Hrun|].
    { intros s1 s2 Hstep Hs1. by eapply manager_step_routes. }
    split; [done|rewrite Hempty, map_size_empty; unfold maxCachedAccountClients; lia|].
    intros key i. by rewrite Hempty, lookup_empty. }
  split; [by destruct Hs|]. pose proof (workerForJob_ok job s Hrange Hsec Hs Hacc) as H.
  destruct (workerForJob _ _ _ job s) as [s' r]. destruct H as (_ & Hsent & Hok). split; [exact Hsent|].
  intros j Hj. destruct (Hok j Hj) as (Hr & _ & Hagain). split; [exact Hr|]. split; [exact Hagain|].
  intros file. by apply refresh_sends.
Qed.
End routes.

(** ** Samples *)

Definition sealed (text : string) : list Z := SecretStore_Encrypt tag_aead sample_secrets (replicate 12 1) (to_bytes text).
Definition quota_reply : Reply := ok_reply {["mstrg" := JInt 1000; "cstrg" := JInt 10]}.

Definition job_server : Server :=
  mkServer (sv_world sample_server <| w_db := mkDB (empty_tables <| accounts := {["a1" := cache_row "a1" <| aSession := sealed "session" |>]} |>
                                                      <| proxies := {["p1" := sample_proxy]} |>)
                                            0 0 [] [] 7 (New "constraint failed") |>)
    (NewTransportPool (mkTransportConfig 0 0 0)) (mkClient None 0 "" [] []) [quota_reply; quota_reply] [] ∅ [] 0 [].

Definition account_job : JobRow :=
  mkJobRow "j1" "file" "AbCd1234" (sealed "key") "" "" "movie" 10 "a1" "p1" "" "/dl" "/parts" "queued" 0 0 None 0 "" "".

Definition first_worker : Server * result error JobClient := workerForJob sample_platform sample_secrets true account_job job_server.

Lemma sample_range_lists : range_lists sample_platform.
Proof. by intros A m. Qed.

Lemma job_traffic_routed_witness :
  first_worker.2 = Ok (Made 1) ∧ length (sv_sent first_worker.1) = 1%nat
  ∧ routed sample_platform sample_config "p1" first_worker.1 (job_client (Made 1) first_worker.1).1
  ∧ workerForJob sample_platform sample_secrets true account_job first_worker.1 = (first_worker.1, Ok (Made 1)).
Proof.
  destruct (job_traffic_routed sample_platform sample_config sample_secrets true account_job job_server job_server
    sample_range_lists eq_refl eq_refl eq_refl (new_pool_ok _ _) (rtc_refl _ _) eq_refl) as [_ H].
  fold first_worker in H.
  assert (first_worker.2 = Ok (Made 1)) as Hr by (vm_compute; reflexivity).
  assert (length (sv_sent first_worker.1) = 1%nat) as Hl by (vm_compute; reflexivity).
  revert H Hr Hl. generalize first_worker. intros [s' r] [_ H] Hr Hl. cbn [fst snd] in *.
  destruct (H (Made 1) Hr) as (Hrouted & Hagain & _). split; [exact Hr|]. split; [exact Hl|].
  split; [exact Hrouted|]. apply Hagain. discriminate.
Defined.

(** A worker that read the profile before it was changed logs in and keeps its
    client after: the next job of the account still goes to the old address. *)
Definition moved_proxy : proxyRequest :=
  mkProxyRequest "relay" "socks5" "10.0.0.2" 1080 "" "" 15 None None "".
Definition raced : Server :=
  let (s1, j) := job_transport sample_platform sample_secrets true "p1" job_server in
  let s2 := (change_proxy sample_platform sample_config "p1" (UpdateProxy (OneValue moved_proxy)) s1).1 in
  match j with
  | Ok j => (account_client sample_platform sample_secrets "a1" (account_key "a1" "p1") j s2).1
  | Err _ => s2
  end.
Definition route_used (s : Server) (j : result error JobClient) : option (result error string) :=
  match j with
  | Ok j => http ← (job_client j s).1; hc ← tp_made (sv_pool s) !! http;
            Some (match hc_route hc with ViaSOCKS5 host _ _ _ => Ok host | _ => Ok "direct" end)
  | Err e => Some (Err e)
  end.

Example proxy_update_raced :
  pHost <$> proxies (tables (w_db (sv_world raced))) !! "p1" = Some "10.0.0.2"
  ∧ let (s', j) := workerForJob sample_platform sample_secrets true account_job raced in
    sv_sent s' = sv_sent raced ∧ route_used s' j = Some (Ok "10.0.0.1").
Proof. vm_compute. split; [reflexivity|split; reflexivity]. Qed.
