(* ===== verification/ManagerStart.v ===== *)
(** * Starting the manager (internal/download/manager.go)

    [Start] and [Recover]: the jobs that a crash or a shutdown interrupted are
    marked, the queued ones are queued again, and the ones that waited for
    quota get their timers back; over the job life cycles ([Lifecycle]), the
    queue ([Queue]) and the quota timers ([QuotaTimers]).  What the dispatcher
    does from then on is in [Queue] and [QueueSpec]. *)

From Stdlib Require Import ZArith Lia.
From stdpp Require Import base list gmap sets strings numbers pretty sorting.
From S2P Require Import Prelude GoStrings GoErrors Store StoreDownloads FsRoot FsRootOps Queue Lifecycle LifecycleStates QuotaTimers Settings.

(** The manager with its quota timers. *)
Record Process := mkProcess { pr_world : World; pr_timers : Timers }.
#[export] Instance Process_eta : Eta Process := λ s, mkProcess (pr_world s) (pr_timers s).

Abbreviation boot := (cmd error Process).

Definition on_life {A} (m : life A) : boot A := λ s,
  let (w, r) := m (pr_world s) in (s <| pr_world := w |>, r).
Definition on_timers (f : Timers → Timers) : boot () := modify (λ s, s <| pr_timers := f (pr_timers s) |>).

Definition Recover : life () := now ← m_now; on_db (MarkDownloadsForRecovery now).

(** [if err != nil { cancel(); m.started = false; return err }]. *)
Definition or_undo {A} (m : life A) : boot A :=
  r ← catch (on_life m);
  match r with
  | Ok a => mret a
  | Err e => _ ← on_life (on_mgr start_failed); _ ← on_timers (λ t, t <| ts_cancelled := true |>); throw e
  end.

(** Whether recovered jobs start by themselves; a settings service comes with
    what reading it returns. *)
Definition auto_start (settings : option (result error Settings)) : bool :=
  match settings with Some (Ok value) => AutoStart (sDownloads value) | _ => true end.

Definition startable (autoStart : bool) (state : string) : bool :=
  bool_decide (state = "queued") || (bool_decide (state = "paused_recovery") && autoStart).

(** One turn of the loop over the stored jobs. *)
Definition start_one (autoStart : bool) (record : DownloadJobRecord) : boot () :=
  let job := rJob record in
  let wait := if bool_decide (jState job = "waiting_quota")
              then now ← on_life m_now; on_timers (schedulePersistedQuotaRetry (jID job) (jQuotaNextRetryAt job) now)
              else mret () in
  if startable autoStart (jState job) then
    valid ← catch (on_life (validateTransferRoots job));
    match valid with
    | Err e => if errors_is e ErrTransferRootsNotConfigured then mret () else throw e
    | Ok _ =>
      _ ← (if bool_decide (jState job = "paused_recovery") then ignore (on_life (set_job_state (jID job) "queued")) else mret ());
      _ ← on_life (StartJob (jID job));
      wait
    end
  else wait.

(** [order] is the order in which Go happens to range over the pending jobs.
    The context of a manager that was not started is new, so that it is not
    cancelled. *)
Definition Start (settings : option (result error Settings)) (order : list string) : boot () :=
  s ← get;
  let manager := w_mgr (pr_world s) in
  if m_closed manager then throw (New "download manager is closed")
  else
    match start_locked manager with
    | None => mret ()
    | Some m =>
      _ ← on_life (on_mgr (λ _, m));
      _ ← on_timers (λ t, t <| ts_cancelled := false |>);
      _ ← or_undo Recover;
      jobs ← or_undo (on_db ListDownloadJobs);
      _ ← on_life (on_mgr (promotePendingLocked order));
      for_each jobs (start_one (auto_start settings))
    end.

(** ** The parts of a turn *)

Lemma on_life_inv {A} (m : life A) s s' r :
  on_life m s = (s', r) → m (pr_world s) = (pr_world s', r) ∧ pr_timers s' = pr_timers s.
Proof. unfold on_life. destruct (m (pr_world s)) as [w r0]. intros H. by simplify_eq/=. Qed.

Lemma or_undo_ok {A} (m : life A) s s' a : or_undo m s = (s', Ok a) → m (pr_world s) = (pr_world s', Ok a) ∧ pr_timers s' = pr_timers s.
Proof.
  unfold or_undo, catch. intros (r&s1&H1&H2)%cmd_bind_inv. destruct (on_life m s) as [s2 [x|e]] eqn:E; simplify_eq/=.
  unfold mret, cmd_ret in H2. simplify_eq. by apply on_life_inv.
Qed.

Lemma preserves_on_fs {A} (I : World → Prop) (m : fs_cmd A) :
  (∀ w f, I w → I (w <| w_fs := f |>)) → preserves I (on_fs m).
Proof. intros HI w Hw. unfold on_fs. destruct (m (w_fs w)) as [f r]. by apply HI. Qed.

(** ** Checking the roots of a job *)

(** No failure of the file system pretends that the roots are not configured:
    no errno is that sentinel. *)
Definition not_rootless (e : error) : Prop := errors_is e ErrTransferRootsNotConfigured = false.
Definition plain_faults (s : FS) : Prop := Forall (λ f, ∀ e, f = Some e → not_rootless e) (sys_faults s).

(** Keeps [I], and returns no such error. *)
Definition honest {S A} (I : S → Prop) (m : cmd error S A) : Prop :=
  ∀ s, I s → I (m s).1 ∧ ∀ e, (m s).2 = Err e → not_rootless e.

Section honest.
Context {S : Type} (I : S → Prop).

Lemma honest_ret {A} (a : A) : honest I (mret a).
Proof. by intros s Hs. Qed.
Lemma honest_throw {A} e : not_rootless e → honest (A:=A) I (throw e).
Proof. intros He s Hs. split; [done|]. by intros ? [= <-]. Qed.
Lemma honest_bind {A B} (m : cmd error S A) (k : A → cmd error S B) :
  honest I m → (∀ a, honest I (k a)) → honest I (x ← m; k x).
Proof.
  intros Hm Hk s Hs. destruct (Hm s Hs) as [Hs' He]. unfold mbind, cmd_bind.
  destruct (m s) as [s' [a|e]]; [by apply Hk|]. split; [done|]. intros e' [= <-]. by apply He.
Qed.
Lemma honest_catch {A B} (m : cmd error S A) (k : result error A → cmd error S B) :
  honest I m → (∀ a, honest I (k (Ok a))) → (∀ e, not_rootless e → honest I (k (Err e))) → honest I (x ← catch m; k x).
Proof.
  intros Hm Hk He s Hs. destruct (Hm s Hs) as [Hs' Hmsg]. unfold mbind, cmd_bind, catch.
  destruct (m s) as [s' [a|e]]; [by apply Hk|]. apply He; [by apply Hmsg|done].
Qed.
Lemma honest_keeps {A} (m : cmd error S A) : honest I m → preserves I m.
Proof. intros Hm s Hs. by apply Hm. Qed.
End honest.

Lemma honest_sys {A} (run : FS → FS * result error A) :
  (∀ s, sys_faults (run s).1 = sys_faults s ∧ ∀ e, (run s).2 = Err e → not_rootless e) → honest plain_faults (sys run).
Proof.
  intros Hrun s Hs. unfold sys. destruct (sys_faults s) as [|[e|] rest] eqn:Ef.
  - destruct (Hrun s) as [E He]. split; [|done]. unfold plain_faults. by rewrite E.
  - pose proof Hs as Hs'. unfold plain_faults in Hs'. rewrite Ef in Hs'. apply Forall_cons in Hs' as [He Hrest].
    split; [done|]. intros e' [= <-]. by apply He.
  - pose proof Hs as Hs'. unfold plain_faults in Hs'. rewrite Ef in Hs'. apply Forall_cons in Hs' as [_ Hrest].
    destruct (Hrun (s <| sys_faults := rest |>)) as [E He]. split; [|done]. unfold plain_faults. by rewrite E.
Qed.

Lemma honest_open_dir fd component : honest plain_faults (openDirectoryAt fd component).
Proof.
  unfold openDirectoryAt. apply honest_catch; [|intros; apply honest_ret|].
  - apply honest_sys. intros s. by destruct (entries s !! _) as [[]|]; (split; [done|]); intros e [= <-].
  - intros e He. destruct (errors_is e ENOTDIR); [|by apply honest_throw].
    apply honest_catch; [|intros st|intros e' _; by apply honest_throw].
    + apply honest_sys. intros s. by destruct (entries s !! _); (split; [done|]); intros e' [= <-].
    + destruct (IsSymlink st); by apply honest_throw.
Qed.

Lemma honest_walk wrap fd comps :
  (∀ op e, not_rootless e → not_rootless (wrap op e)) → honest plain_faults (walk false wrap fd comps).
Proof.
  intros Hw. revert fd. induction comps as [|c comps IH]; intros fd; cbn [walk]; [apply honest_ret|].
  apply honest_catch; [apply honest_open_dir|intros child; apply IH|]. intros e He. apply honest_bind; [|apply IH].
  rewrite andb_false_r. by apply honest_throw, Hw.
Qed.

Lemma not_rootless_path p e : not_rootless e → not_rootless (wrapPathError "open root" p e).
Proof. intros He. unfold wrapPathError. by repeat case_match. Qed.

Lemma honest_New p : honest plain_faults (fsroot_New p).
Proof.
  unfold fsroot_New. destruct (_ || _); [by apply honest_throw|]. cbv zeta. case_bool_decide; [by apply honest_throw|].
  apply honest_catch; [by apply honest_walk|by intros ? s Hs|]. intros e He. destruct (errors_is e ENOENT); [by intros s Hs|].
  apply honest_throw. exact (not_rootless_path _ _ He).
Qed.

Lemma honest_on_fs {A} (m : fs_cmd A) : honest plain_faults m → honest (λ w, plain_faults (w_fs w)) (on_fs m).
Proof. intros Hm w Hw. unfold on_fs. specialize (Hm (w_fs w) Hw). by destruct (m (w_fs w)). Qed.

(** The job has no roots: it was stored before they were configured. *)
Definition rootless (job : JobRow) : Prop := jCompleteRoot job = "" ∨ jIncompleteRoot job = "".

(** Only such a job is refused as having none. *)
Lemma honest_validate job : ¬ rootless job → honest (λ w, plain_faults (w_fs w)) (validateTransferRoots job).
Proof.
  intros Hr. unfold validateTransferRoots. cbv zeta. apply honest_bind.
  { intros w Hw. rewrite !bool_decide_eq_false_2 by (intros ?; apply Hr; unfold rootless; auto). done. }
  intros _. assert (∀ h, honest plain_faults (Root_Close h)) as Hclose by by intros h s Hs.
  assert (∀ head e, not_rootless e → honest (A:=()) (λ w, plain_faults (w_fs w)) (throw (Wrapf head e))) as Hthrow
    by (intros head e He; by apply honest_throw).
  apply honest_catch; [apply honest_on_fs, honest_New|intros c|by auto].
  apply honest_catch; [by apply honest_on_fs|intros _|by auto].
  apply honest_catch; [apply honest_on_fs, honest_New|intros i|by auto].
  apply honest_catch; [by apply honest_on_fs|intros _; apply honest_ret|by auto].
Qed.

Lemma validate_keeps_faults job : preserves (λ w, plain_faults (w_fs w)) (validateTransferRoots job).
Proof.
  destruct (decide (jCompleteRoot job = "")) as [E|E]; [|destruct (decide (jIncompleteRoot job = "")) as [E'|E']].
  - intros w Hw. unfold validateTransferRoots. cbv zeta. by rewrite (bool_decide_eq_true_2 _ E).
  - intros w Hw. unfold validateTransferRoots. cbv zeta. by rewrite (bool_decide_eq_true_2 _ E'), orb_true_r.
  - apply honest_keeps, honest_validate. by intros [?|?].
Qed.

(** Checking the roots of a job touches nothing but the file system. *)
Lemma validate_frame job w :
  w_db (validateTransferRoots job w).1 = w_db w ∧ w_mgr (validateTransferRoots job w).1 = w_mgr w.
Proof.
  assert (preserves (λ w', w_db w' = w_db w ∧ w_mgr w' = w_mgr w) (validateTransferRoots job)) as H; [|by apply H].
  unfold validateTransferRoots. cbv zeta. repeat first
    [ match goal with |- preserves _ (on_fs _) => by apply preserves_on_fs end
    | match goal with |- preserves _ (guard_err ?b _) => intros ??; by destruct b end
    | match goal with |- preserves _ (throw _) => apply preserves_throw end
    | match goal with |- preserves _ (mret _) => apply preserves_ret end
    | match goal with |- preserves _ (catch _) => apply preserves_catch end
    | match goal with |- preserves _ (mbind _ _) => apply preserves_bind; [|intros ?] end
    | match goal with |- preserves _ (match ?r with _ => _ end) => destruct r end ].
Qed.

(** A request that is accepted is waiting, or was there already. *)
Lemma start_job_accepted id m m' outcome :
  start_job_locked id 0 m = (m', outcome) → outcome = Enqueued ∨ outcome = AlreadyThere →
  id ∈ m_pending m' ∪ m_active m' ∧ m_active m' = m_active m ∧ m_started m' = m_started m
  ∧ (m_pending m' = m_pending m ∨ m_pending m' = {[id]} ∪ m_pending m ∧ (size (m_pending m) < maxQueuedJobs)%nat).
Proof.
  unfold start_job_locked. intros H Ho. destruct (m_closed m); [simplify_eq; by destruct Ho|].
  destruct (bool_decide (id ∈ m_pending m) || bool_decide (id ∈ m_active m)) eqn:Hin.
  { simplify_eq. split; [|by auto]. apply orb_true_iff in Hin as [Hin|Hin]; apply bool_decide_eq_true in Hin; set_solver. }
  destruct (maxQueuedJobs <=? size (m_pending m))%nat eqn:Hs; [simplify_eq; by destruct Ho|].
  apply Nat.leb_gt in Hs. cbn [m_started update_field] in H. destruct (m_started m) eqn:Est; simplify_eq/=;
    unfold signalLocked, compactQueueLocked; cbn; repeat case_match; cbn; (split; [set_solver|]); by auto.
Qed.

Lemma StartJob_ok id w w' :
  StartJob id w = (w', Ok ()) →
  tables (w_db w') = tables (w_db w) ∧ (plain_faults (w_fs w) → plain_faults (w_fs w'))
  ∧ ∃ outcome, start_job_locked id 0 (w_mgr w) = (w_mgr w', outcome) ∧ (outcome = Enqueued ∨ outcome = AlreadyThere).
Proof.
  unfold StartJob, StartJobWithPriority. intros ([]&w1&H1&H)%cmd_bind_inv.
  assert (w1 = w) as -> by (unfold guard_err, throw, mret, cmd_ret in H1; by case_match; simplify_eq).
  apply cmd_bind_inv in H as (job&w2&H2&H). unfold on_db in H2.
  destruct (GetDownloadJob id (w_db w)) as [d r] eqn:Eg. simplify_eq. apply GetDownloadJob_ok in Eg as (_&_&_&_&Ht&_).
  apply cmd_bind_inv in H as ([]&w3&H3&H). pose proof (validate_frame (rJob job) (db_ran d w)) as [Hd Hm].
  pose proof (validate_keeps_faults (rJob job) (db_ran d w)) as Hf. rewrite H3 in Hd, Hm, Hf. cbn in Hd, Hm, Hf. rewrite get_bind in H.
  destruct (start_job_locked id 0 (w_mgr w3)) as [m outcome] eqn:Es. unfold on_mgr in H. rewrite modify_bind in H.
  assert (w' = w3 <| w_mgr := m |> ∧ (outcome = Enqueued ∨ outcome = AlreadyThere)) as [-> Ho]
    by (destruct outcome; unfold mret, cmd_ret, throw in H; simplify_eq; by auto).
  cbn. rewrite Hd, <-Hm, <-Ht. split; [done|]. split; [done|]. by exists outcome.
Qed.

(** A stored job is listed as it is stored. *)
Lemma get_jobs_ok ids d d' l :
  get_jobs ids d = (d', Ok l) → tables d' = tables d ∧ Forall2 (λ id r, jobs (tables d) !! id = Some (rJob r)) ids l.
Proof.
  revert d d' l. induction ids as [|id ids IH]; intros d d' l; cbn [get_jobs]; intros H.
  { unfold mret, cmd_ret in H. by simplify_eq. }
  apply cmd_bind_inv in H as (r&d1&(Hj&_&_&_&Ht&_)%GetDownloadJob_ok&H).
  apply cmd_bind_inv in H as (rs&d2&[Ht' Hf]%IH&H). unfold mret, cmd_ret in H. simplify_eq.
  split; [congruence|]. constructor; [done|]. by rewrite <-Ht.
Qed.

Lemma ListDownloadJobs_ok d d' l :
  tables_ok (tables d) → ListDownloadJobs d = (d', Ok l) →
  tables d' = tables d ∧ (∀ id j, jobs (tables d) !! id = Some j → ∃ r, r ∈ l ∧ rJob r = j)
  ∧ ∀ r, r ∈ l → jobs (tables d) !! jID (rJob r) = Some (rJob r).
Proof.
  intros Hok H. unfold ListDownloadJobs in H. op_inv. match goal with H : get_jobs _ _ = _ |- _ => apply get_jobs_ok in H as [Ht Hf] end.
  assert (tables x4 = tables d) as E by congruence. rewrite E in Ht, Hf. split; [done|].
  rewrite Forall2_fmap_l in Hf. split.
  - intros id j Hj. assert (j ∈ merge_sort job_order (map_to_list (jobs (tables d))).*2) as Hin.
    { rewrite merge_sort_Permutation. apply list_elem_of_fmap. exists (id, j). by rewrite elem_of_map_to_list. }
    apply list_elem_of_lookup_1 in Hin as [i Hi]. destruct (Forall2_lookup_l _ _ _ _ _ Hf Hi) as (r & Hr & Hrow).
    destruct (ok_jobs _ Hok id j Hj) as [Hid _]. cbn in Hrow. rewrite Hid, Hj in Hrow.
    exists r. split; [by eapply list_elem_of_lookup_2|congruence].
  - intros r Hr. apply list_elem_of_lookup_1 in Hr as [i Hi]. destruct (Forall2_lookup_r _ _ _ _ _ Hf Hi) as (j & Hj & Hrow).
    cbn in Hrow. destruct (ok_jobs _ Hok _ _ Hrow) as [Hid _]. by rewrite Hid.
Qed.

(** ** The timers *)

Definition armed (jobID : string) (t : Timers) : Prop :=
  ∃ i q, ts_current t !! jobID = Some i ∧ ts_made t !! i = Some q ∧ qt_job q = jobID ∧ qt_phase q = Armed.

Lemma stop_other i t k q : k ≠ i → ts_made t !! k = Some q → ts_made (stop_timer i t) !! k = Some q.
Proof. intros Hne. unfold stop_timer. case_bool_decide; [|done]. unfold set_phase. cbn. by rewrite list_lookup_alter_ne. Qed.

(** Scheduling arms the job's timer and disarms no other. *)
Lemma schedule_armed jobID delay t :
  shut t = false → timers_ok t →
  let t' := scheduleQuotaRetry jobID delay t in
  timers_ok t' ∧ shut t' = false ∧ armed jobID t' ∧ ∀ k, armed k t → armed k t'.
Proof.
  intros Hs Hok. cbv zeta. split; [by apply ok_schedule|]. rewrite schedule_forget by done. cbv zeta.
  destruct (forget_kept jobID t) as (E1 & E2 & _). split; [|split].
  - unfold shut in *. cbn. by rewrite E1, E2.
  - eexists _, _. cbn. rewrite lookup_insert_eq. split; [done|]. rewrite list_lookup_middle by done. done.
  - intros k (i & q & Hc & Hm & Hj & Hq). destruct (decide (k = jobID)) as [->|Hne].
    { eexists _, _. cbn. rewrite lookup_insert_eq. split; [done|]. rewrite list_lookup_middle by done. done. }
    exists i, q. cbn. rewrite lookup_insert_ne by done.
    assert (ts_current (forget_timer jobID t) !! k = Some i ∧ ts_made (forget_timer jobID t) !! i = Some q) as [H1 H2].
    { unfold forget_timer. destruct (ts_current t !! jobID) as [old|] eqn:Ho; [|done]. cbn. rewrite lookup_delete_ne by done. split.
      - unfold stop_timer. by case_bool_decide.
      - apply stop_other; [|done]. intros ->. destruct (tk_current _ Hok _ _ Ho) as [_ Hj']. rewrite Hm in Hj'. by simplify_eq/=. }
    split; [done|]. split; [|done]. by apply lookup_app_l_Some.
Qed.

(** ** The loop over the jobs *)

Section loop.
Context (auto : bool) (g0 : Manager) (J0 : jobs_seen).

(** What holds after the records [done] have had their turn, when the manager
    was [g0] and the jobs were [J0] before. *)
Record turned (done : list DownloadJobRecord) (s : Process) : Prop := {
  tn_started : m_started (w_mgr (pr_world s)) = true;
  tn_live : live_items (w_mgr (pr_world s));
  tn_active : m_active (w_mgr (pr_world s)) = m_active g0;
  tn_size : (size (m_pending (w_mgr (pr_world s))) ≤ maxQueuedJobs)%nat;
  tn_kept : m_pending g0 ⊆ m_pending (w_mgr (pr_world s));
  tn_from id : id ∈ m_pending (w_mgr (pr_world s)) →
    id ∈ m_pending g0 ∨ ∃ r, r ∈ done ∧ jID (rJob r) = id ∧ startable auto (jState (rJob r)) = true;
  tn_queued r : r ∈ done → startable auto (jState (rJob r)) = true →
    jID (rJob r) ∈ m_pending (w_mgr (pr_world s)) ∪ m_active g0 ∨ rootless (rJob r);
  tn_timers : timers_ok (pr_timers s);
  tn_open : shut (pr_timers s) = false;
  tn_faults : plain_faults (w_fs (pr_world s));
  tn_wait r : r ∈ done → jState (rJob r) = "waiting_quota" → armed (jID (rJob r)) (pr_timers s);
  tn_states id : job_states (tables (w_db (pr_world s))) !! id = J0 !! id
    ∨ (∃ r, r ∈ done ∧ jID (rJob r) = id ∧ startable auto (jState (rJob r)) = true)
      ∧ job_states (tables (w_db (pr_world s))) !! id = (λ x, (x.1, "queued")) <$> J0 !! id }.

Lemma startable_idle state : startable auto state = true → state ≠ "waiting_quota".
Proof. intros H ->. unfold startable in H. by rewrite !bool_decide_eq_false_2 in H. Qed.

(** A turn that leaves the queue and the rows alone. *)
Lemma turned_skip done r s s' :
  turned done s → w_mgr (pr_world s') = w_mgr (pr_world s) →
  tables (w_db (pr_world s')) = tables (w_db (pr_world s)) → plain_faults (w_fs (pr_world s')) →
  timers_ok (pr_timers s') → shut (pr_timers s') = false → (∀ k, armed k (pr_timers s) → armed k (pr_timers s')) →
  (jState (rJob r) = "waiting_quota" → armed (jID (rJob r)) (pr_timers s')) →
  (startable auto (jState (rJob r)) = true → rootless (rJob r)) →
  turned (done ++ [r]) s'.
Proof.
  intros [] Hm Ht Hfl Hok Hopen Harm Hw Hs. split; rewrite ?Hm, ?Ht; try done.
  - intros id Hid. destruct (tn_from0 id Hid) as [?|(x & ? & ?)]; [by left|right]. exists x. split; [set_solver|done].
  - intros x [Hx| ->%list_elem_of_singleton]%elem_of_app Hst; [by apply tn_queued0|]. by right; apply Hs.
  - intros x [Hx| ->%list_elem_of_singleton]%elem_of_app Hst; auto.
  - intros id. destruct (tn_states0 id) as [?|((x & ? & ?) & ?)]; [by left|right]. split; [|done]. exists x. split; [set_solver|done].
Qed.

(** A turn that queues its job. *)
Lemma turned_queued done r s s' outcome :
  turned done s → startable auto (jState (rJob r)) = true →
  start_job_locked (jID (rJob r)) 0 (w_mgr (pr_world s)) = (w_mgr (pr_world s'), outcome) → outcome = Enqueued ∨ outcome = AlreadyThere →
  pr_timers s' = pr_timers s → plain_faults (w_fs (pr_world s')) →
  (job_states (tables (w_db (pr_world s'))) = job_states (tables (w_db (pr_world s)))
   ∨ job_states (tables (w_db (pr_world s'))) = job_to (jID (rJob r)) "queued" (job_states (tables (w_db (pr_world s))))) →
  turned (done ++ [r]) s'.
Proof.
  intros [] Hst Hq Ho Htm Hfl HJ. destruct (start_job_accepted _ _ _ _ Hq Ho) as (Hin & Ha & Hs & Hp).
  split; rewrite ?Htm; try done.
  - congruence.
  - by eapply start_job_live; [|exact tn_live0|exact Hq].
  - congruence.
  - destruct Hp as [->|[-> Hlt]]; [done|]. pose proof (size_union_alt (C:=gset string) {[jID (rJob r)]} (m_pending (w_mgr (pr_world s)))).
    rewrite size_singleton in *. pose proof (subseteq_size (m_pending (w_mgr (pr_world s)) ∖ {[jID (rJob r)]}) (m_pending (w_mgr (pr_world s))) ltac:(set_solver)). lia.
  - destruct Hp as [->|[-> _]]; set_solver.
  - intros id Hid. destruct (decide (id = jID (rJob r))) as [->|Hne].
    { right. exists r. split; [set_solver|done]. }
    destruct (tn_from0 id) as [?|(x & ? & ?)]; [destruct Hp as [Hp|[Hp _]]; rewrite Hp in Hid; set_solver|by left|right].
    exists x. split; [set_solver|done].
  - rewrite Ha, tn_active0 in Hin. intros x [Hx| ->%list_elem_of_singleton]%elem_of_app Hx'; [|by left].
    destruct (tn_queued0 x Hx Hx') as [?|?]; [left|by right]. destruct Hp as [->|[-> _]]; set_solver.
  - intros x [Hx| ->%list_elem_of_singleton]%elem_of_app Hx'; [by apply tn_wait0|]. by apply startable_idle in Hst.
  - intros id. assert (∀ P : Prop, P → (∃ x, x ∈ done ∧ jID (rJob x) = id ∧ startable auto (jState (rJob x)) = true) ∧ P →
      (∃ x, x ∈ done ++ [r] ∧ jID (rJob x) = id ∧ startable auto (jState (rJob x)) = true) ∧ P) as Hmore.
    { intros P _ [(x & ? & ?) ?]. split; [|done]. exists x. split; [set_solver|done]. }
    destruct HJ as [->|HJ].
    { destruct (tn_states0 id) as [?|Hr]; [by left|right]. apply Hmore; [by destruct Hr|done]. }
    rewrite HJ. unfold job_to. destruct (decide (id = jID (rJob r))) as [->|Hne].
    + right. split; [exists r; split; [set_solver|done]|]. rewrite lookup_alter_eq.
      destruct (tn_states0 (jID (rJob r))) as [->|[_ ->]]; [done|]. by destruct (J0 !! jID (rJob r)) as [[]|].
    + rewrite lookup_alter_ne by done. destruct (tn_states0 id) as [?|Hr]; [by left|right]. apply Hmore; [by destruct Hr|done].
Qed.

Lemma set_state_moves id state w :
  w_mgr (set_job_state id state w).1 = w_mgr w ∧ w_fs (set_job_state id state w).1 = w_fs w
  ∧ (job_states (tables (w_db (set_job_state id state w).1)) = job_states (tables (w_db w))
     ∨ job_states (tables (w_db (set_job_state id state w).1)) = job_to id state (job_states (tables (w_db w)))).
Proof.
  unfold set_job_state, m_now, mbind, cmd_bind, on_db. destruct (SetDownloadJobState_moves id state (wall (w_db w)) (w_db w)) as [_ H].
  destruct (SetDownloadJobState id state (wall (w_db w)) (w_db w)) as [d r]. cbn in *. split; [done|]. split; [done|]. destruct H as [[H _]|[H _]]; auto.
Qed.

Lemma start_one_turned done r s s' : turned done s → start_one auto r s = (s', Ok ()) → turned (done ++ [r]) s'.
Proof.
  intros Hinv H. unfold start_one in H. destruct (startable auto (jState (rJob r))) eqn:Hst.
  - rewrite bool_decide_eq_false_2 in H by (by apply startable_idle).
    unfold catch, mbind, cmd_bind in H. destruct (on_life (validateTransferRoots (rJob r)) s) as [s1 v] eqn:Ev. cbn in H.
    destruct (on_life_inv _ _ _ _ Ev) as [Hv Ht1]. pose proof (validate_frame (rJob r) (pr_world s)) as [Hd Hm]. 
    pose proof (validate_keeps_faults (rJob r) (pr_world s) (tn_faults _ _ Hinv)) as Hf. rewrite Hv in Hd, Hm, Hf. cbn in Hd, Hm, Hf.
    destruct v as [[]|e].
    + match type of H with (let (_, _) := ?m in _) = _ => destruct m as [s2 r2] eqn:E2 end.
      assert (r2 = Ok () ∧ pr_timers s2 = pr_timers s ∧ w_mgr (pr_world s2) = w_mgr (pr_world s)
        ∧ w_fs (pr_world s2) = w_fs (pr_world s1)
        ∧ (job_states (tables (w_db (pr_world s2))) = job_states (tables (w_db (pr_world s)))
           ∨ job_states (tables (w_db (pr_world s2))) = job_to (jID (rJob r)) "queued" (job_states (tables (w_db (pr_world s))))))
        as (-> & Ht2 & Hm2 & Hfs & HJ).
      { rewrite <-Ht1, <-Hm, <-Hd. case_bool_decide; [|unfold mret, cmd_ret in E2; simplify_eq; split_and!; auto]. unfold ignore in E2.
        destruct (on_life (set_job_state _ _) s1) as [s3 r3] eqn:E3. cbn in E2. simplify_eq.
        destruct (on_life_inv _ _ _ _ E3) as [E4 ->]. pose proof (set_state_moves (jID (rJob r)) "queued" (pr_world s1)) as Hs.
        by rewrite E4 in Hs. }
      destruct (on_life (StartJob (jID (rJob r))) s2) as [s3 [[]|e]] eqn:E3; [|done]. unfold mret, cmd_ret in H. simplify_eq.
      destruct (on_life_inv _ _ _ _ E3) as [(Ht3 & Hf3 & outcome & Hq & Ho)%StartJob_ok Htm]. rewrite Hm2 in Hq. rewrite Hfs in Hf3.
      eapply turned_queued; [done|done|exact Hq|done|congruence|by apply Hf3|by rewrite Ht3].
    + destruct (errors_is e ErrTransferRootsNotConfigured) eqn:He; [|done]. unfold mret, cmd_ret in H. simplify_eq.
      pose proof Hinv as []. apply (turned_skip done r s s'); rewrite ?Ht1, ?Hd; try done.
      * by intros Hw; apply startable_idle in Hst.
      * intros _. apply dec_stable. intros Hroots. destruct (honest_validate (rJob r) Hroots (pr_world s)) as [_ Hne]; [done|].
        rewrite Hv in Hne. specialize (Hne e eq_refl). unfold not_rootless in Hne. congruence.
  - pose proof Hinv as []. case_bool_decide as Hw.
    + unfold on_life, m_now, on_timers, modify, mbind, cmd_bind in H. cbn in H. simplify_eq.
      unfold schedulePersistedQuotaRetry. cbv zeta.
      match goal with |- context [scheduleQuotaRetry ?i ?d ?t] => destruct (schedule_armed i d t) as (? & ? & ? & ?); [done..|] end.
      apply (turned_skip done r s); try done. by rewrite Hst.
    + unfold mret, cmd_ret in H. simplify_eq. apply (turned_skip done r s' s'); try done. by rewrite Hst.
Qed.

Lemma start_all_turned records s s' :
  turned [] s → for_each records (start_one auto) s = (s', Ok ()) → turned records s'.
Proof.
  intros Hinv. change records with ([] ++ records) at 2. revert s Hinv. generalize (@nil DownloadJobRecord) as done.
  induction records as [|r records IH]; intros done s Hinv; cbn [for_each]; intros H.
  - unfold mret, cmd_ret in H. simplify_eq. by rewrite app_nil_r.
  - apply cmd_bind_inv in H as ([] & s1 & H1 & H2). replace (done ++ r :: records) with ((done ++ [r]) ++ records) by (by rewrite <-(assoc_L (++))).
    eapply IH; [|exact H2]. by eapply start_one_turned.
Qed.
End loop.

(** ** What a start leaves *)

Lemma promote_pending order m : m_pending (promotePendingLocked order m) = m_pending m.
Proof.
  unfold promotePendingLocked. cbv zeta.
  assert (∀ m0, m_pending (foldl (λ m jobID,
    push_item jobID (default 0 (m_pendingPrio m !! jobID)) (default 0 (m_pendingSeq m !! jobID)) m) m0 order) = m_pending m0) as H.
  { induction order as [|id order IH]; intros m0; cbn [foldl]; [done|]. by rewrite IH. }
  case_bool_decide; [apply H|]. unfold signalLocked. destruct (m_wake _); cbn; apply H.
Qed.

(** A process whose manager was not started: requests may be waiting. *)
Record unstarted (order : list string) (s : Process) : Prop := {
  us_rows : tables_ok (tables (w_db (pr_world s)));
  us_manager : mgr_inv (w_mgr (pr_world s));
  us_started : m_started (w_mgr (pr_world s)) = false;
  us_size : (size (m_pending (w_mgr (pr_world s))) ≤ maxQueuedJobs)%nat;
  us_order : order ≡ₚ elements (m_pending (w_mgr (pr_world s)));
  us_timers : timers_ok (pr_timers s);
  us_open : ts_closing (pr_timers s) = Open;
  us_faults : plain_faults (w_fs (pr_world s)) }.

(** The state recovery gives a job, and whether the job is started then. *)
Definition recovered_state (state : string) : string :=
  if bool_decide (state ∈ ["resolving"; "downloading"; "finalizing"]) then "paused_recovery" else state.
Definition resumes (auto : bool) (state : string) : bool := startable auto (recovered_state state).

Lemma recovered_row when j :
  jID (recover_job_row when j) = jID j ∧ jState (recover_job_row when j) = recovered_state (jState j)
  ∧ (rootless (recover_job_row when j) ↔ rootless j).
Proof. unfold recover_job_row, recovered_state. by case_bool_decide. Qed.

Lemma Start_turned settings order s s' :
  unstarted order s → Start settings order s = (s', Ok ()) →
  ∃ when records,
    turned (auto_start settings) (w_mgr (pr_world s)) (job_states (recovered when (tables (w_db (pr_world s))))) records s'
    ∧ (∀ id j, jobs (tables (w_db (pr_world s))) !! id = Some j → ∃ r, r ∈ records ∧ rJob r = recover_job_row when j)
    ∧ ∀ r, r ∈ records → ∃ j, jobs (tables (w_db (pr_world s))) !! jID (rJob r) = Some j ∧ rJob r = recover_job_row when j.
Proof.
  intros [Hrows Hinv Hnew Hsize Horder Htm Hopen Hfaults] H. unfold Start in H. rewrite get_bind in H.
  destruct (m_closed (w_mgr (pr_world s))) eqn:Hcl; [done|]. unfold start_locked in H. rewrite Hcl, Hnew in H. cbn [orb] in H.
  set (m := _ <| m_started := true |>) in H.
  apply cmd_bind_inv in H as ([] & s1 & [H1 T1]%on_life_inv & H). unfold on_mgr, modify in H1. injection H1 as H1.
  unfold on_timers at 1 in H. rewrite modify_bind in H.
  apply cmd_bind_inv in H as ([] & s2 & [H2 T2]%or_undo_ok & H). cbn [pr_world update_field] in H2.
  unfold Recover, m_now, mbind, cmd_bind, on_db in H2.
  destruct (MarkDownloadsForRecovery _ _) as [d2 [[]|]] eqn:Em; simplify_eq/=.
  assert (db_ok d2) as Hok2.
  { pose proof (MarkDownloadsForRecovery_keeps (wall (w_db (pr_world s1))) (w_db (pr_world s1))) as Hk. rewrite Em in Hk.
    apply Hk. unfold db_ok. by rewrite <-H1. }
  apply MarkDownloadsForRecovery_ok in Em. set (when := if _ =? 0 then _ else _) in Em.
  apply cmd_bind_inv in H as (records & s3 & [H3 T3]%or_undo_ok & H). unfold on_db in H3. rewrite <-H0 in H3. cbn in H3.
  destruct (ListDownloadJobs d2) as [d3 [l|]] eqn:El; simplify_eq/=.
  destruct (ListDownloadJobs_ok _ _ _ Hok2 El) as (Ht3 & Hall & Hrec).
  apply cmd_bind_inv in H as ([] & s4 & [H4 T4]%on_life_inv & H). unfold on_mgr, modify in H4. injection H4 as H4.
  rewrite <-H1 in Em. cbn in Em.
  exists when, records. split; [|split].
  - eapply start_all_turned; [|exact H].
    destruct (promote_spec m order) as (_ & Hl & Ha & _ & _ & Hst & _); [by destruct Hinv|exact Horder|].
    assert (w_mgr (pr_world s4) = promotePendingLocked order m) as Em4.
    { by repeat match goal with E : _ = pr_world ?x |- context [pr_world ?x] => rewrite <-E; cbn end. }
    split; rewrite ?Em4, ?promote_pending; try done.
    + intros id ?. by left.
    + by intros r ?%not_elem_of_nil.
    + rewrite T4, T3, T2, T1. destruct Htm as [Hc _ Hacc]. split; [exact Hc|intros Hne; by destruct Hne|exact Hacc].
    + rewrite T4, T3, T2, T1. unfold shut. cbn. by rewrite Hopen.
    + repeat match goal with E : _ = pr_world ?x |- context [pr_world ?x] => rewrite <-E; cbn end. exact Hfaults.
    + by intros r ?%not_elem_of_nil.
    + intros id. left. repeat match goal with E : _ = pr_world ?x |- context [pr_world ?x] => rewrite <-E; cbn end.
      by rewrite Ht3, Em.
  - intros id j Hj. apply (Hall id). rewrite Em. unfold recovered. cbn. by rewrite lookup_fmap, Hj.
  - intros r Hr. apply Hrec in Hr. rewrite Em in Hr. unfold recovered in Hr. cbn in Hr. rewrite lookup_fmap in Hr.
    destruct (jobs (tables (w_db (pr_world s))) !! jID (rJob r)) as [j|]; [|done]. exists j. cbn in Hr. by injection Hr.
Qed.

Lemma recovered_states when t id :
  job_states (recovered when t) !! id = (λ j, (jID j, recovered_state (jState j))) <$> jobs t !! id.
Proof.
  unfold job_states, recovered. cbn. rewrite !lookup_fmap. destruct (jobs t !! id) as [j|]; [|done]. cbn. f_equal.
  destruct (recovered_row when j) as (-> & -> & _). done.
Qed.

(** Every job that is to start waits in the queue or is there already. *)
Lemma start_queues settings order s s' :
  unstarted order s → Start settings order s = (s', Ok ()) →
  (size (m_pending (w_mgr (pr_world s'))) ≤ maxQueuedJobs)%nat
  ∧ ∀ id j, jobs (tables (w_db (pr_world s))) !! id = Some j → resumes (auto_start settings) (jState j) = true →
      id ∈ m_pending (w_mgr (pr_world s')) ∪ m_active (w_mgr (pr_world s)) ∨ rootless j.
Proof.
  intros Hu H. destruct (Start_turned _ _ _ _ Hu H) as (when & records & Ht & Hall & _). split; [apply Ht|].
  intros id j Hj Hres. destruct (Hall id j Hj) as (r & Hr & Hrow). destruct (recovered_row when j) as (E1 & E2 & E3).
  destruct (ok_jobs _ (us_rows _ _ Hu) id j Hj) as [<- _].
  destruct (tn_queued _ _ _ _ _ Ht r Hr) as [Hq|Hq]; rewrite ?Hrow, ?E1, ?E2, ?E3 in *; [done|by left|by right].
Qed.

(** More jobs to start than the queue holds: the manager does not start. *)
Lemma start_limit settings order s s' (X : gset string) :
  unstarted order s → m_active (w_mgr (pr_world s)) = ∅ →
  (∀ id, id ∈ X → ∃ j, jobs (tables (w_db (pr_world s))) !! id = Some j ∧ resumes (auto_start settings) (jState j) = true ∧ ¬ rootless j) →
  (maxQueuedJobs < size X)%nat → Start settings order s ≠ (s', Ok ()).
Proof.
  intros Hu Ha HX Hlt H. destruct (start_queues _ _ _ _ Hu H) as [Hsize Hq].
  assert (X ⊆ m_pending (w_mgr (pr_world s'))) as Hsub%subseteq_size; [|lia].
  intros id Hid. destruct (HX id Hid) as (j & Hj & Hr & Hroot). destruct (Hq id j Hj Hr) as [Hin|]; [|done].
  rewrite Ha in Hin. set_solver.
Qed.

(** C13: A manager that has started has forgotten no job: every job that was
    queued, or interrupted while automatic starting is on, waits in the queue
    with its entry in the heap, within the bound of the queue, unless its row
    names no complete or no incomplete root - such a job stays stored, to be
    started once it has roots.  Every job that waited for quota has an armed
    timer; no other job is put in the queue, so that what the user paused stays
    paused; and a job's stored state is the one recovery gives it, or queued for
    one that is to start. *)
Theorem start_forgets_nothing settings order s s' :
  unstarted order s → Start settings order s = (s', Ok ()) →
  let auto := auto_start settings in
  let before := jobs (tables (w_db (pr_world s))) in
  let m := w_mgr (pr_world s) in let m' := w_mgr (pr_world s') in
  (∀ id j, before !! id = Some j →
     (resumes auto (jState j) = true → id ∈ m_pending m' ∪ m_active m ∨ rootless j)
     ∧ (jState j = "waiting_quota" → armed id (pr_timers s'))
     ∧ ∃ j', jobs (tables (w_db (pr_world s'))) !! id = Some j'
         ∧ (jState j' = recovered_state (jState j) ∨ resumes auto (jState j) = true ∧ jState j' = "queued"))
  ∧ (∀ id, id ∈ m_pending m' → id ∈ m_pending m ∨ ∃ j, before !! id = Some j ∧ resumes auto (jState j) = true)
  ∧ m_started m' = true ∧ live_items m' ∧ (size (m_pending m') ≤ maxQueuedJobs)%nat.
Proof.
  intros Hu H auto before m m'. destruct (start_queues _ _ _ _ Hu H) as [Hsize Hq].
  destruct (Start_turned _ _ _ _ Hu H) as (when & records & Ht & Hall & Hrec).
  assert (∀ id, (∃ r, r ∈ records ∧ jID (rJob r) = id ∧ startable auto (jState (rJob r)) = true) →
    ∃ j, before !! id = Some j ∧ resumes auto (jState j) = true) as Hfrom.
  { intros id (r & Hr & <- & Hst). destruct (Hrec r Hr) as (j & Hj & Hrow). exists j. split; [done|].
    rewrite Hrow in Hst. by rewrite (proj1 (proj2 (recovered_row when j))) in Hst. }
  split_and!; [|intros id Hid|apply Ht|apply Ht|done].
  - intros id j Hj. destruct (recovered_row when j) as (E1 & E2 & E3). split; [by apply Hq|]. split.
    + intros Hw. destruct (Hall id j Hj) as (r & Hr & Hrow). destruct (ok_jobs _ (us_rows _ _ Hu) id j Hj) as [<- _].
      rewrite <-E1, <-Hrow. apply (tn_wait _ _ _ _ _ Ht r Hr). by rewrite Hrow, E2, Hw.
    + pose proof (tn_states _ _ _ _ _ Ht id) as Hs. rewrite recovered_states in Hs. fold before in Hs. rewrite Hj in Hs. cbn in Hs.
      unfold job_states in Hs. rewrite lookup_fmap in Hs. destruct (jobs (tables (w_db (pr_world s'))) !! id) as [j'|] eqn:Hj'.
      2: { destruct Hs as [?|[_ ?]]; done. }
      exists j'. split; [done|]. cbn in Hs. destruct Hs as [Hs|[Hr Hs]]; injection Hs as _ Hs; [by left|right].
      destruct (Hfrom id Hr) as (j2 & Hj2 & Hres). split; [|done]. rewrite Hj in Hj2. by injection Hj2 as ->.
  - destruct (tn_from _ _ _ _ _ Ht id Hid) as [?|Hr]; [by left|right; by apply Hfrom].
Qed.

(** A queued job, one interrupted while downloading, one that waits for quota
    and one that was paused. *)
Definition stored_job (id state : string) (next : option Z) : JobRow :=
  mkJobRow id "file" "h" [1] "" "" id 3 "" "" "" "/dl" "/parts" state 1 1 next 0 "" "".
Definition sample_process : Process :=
  mkProcess (mkWorld (mkDB (empty_tables <| jobs := {[ "a" := stored_job "a" "queued" None; "b" := stored_job "b" "downloading" None;
      "c" := stored_job "c" "waiting_quota" (Some 1500); "d" := stored_job "d" "paused" None ]} |>)
      0 0 [] [] 1000 (New "constraint failed")) (mkFS {[ [] := EDir ]} ∅ 0 [] []) (empty_manager 1) [] None []) no_timers.

Lemma sample_unstarted : unstarted [] sample_process.
Proof.
  split; try done; try apply ok_new; try (apply (si_mgr _ (sys_inv_idle 1))).
  2: { vm_compute. lia. }
  2: { apply Forall_nil_2. }
  apply tables_ok_update_jobs; [apply tables_ok_empty| |by intros ? [? ?]].
  do 3 (apply map_Forall_insert_2; [done|]). by apply map_Forall_singleton.
Qed.

Lemma start_forgets_nothing_witness : ∃ s',
  Start None [] sample_process = (s', Ok ())
  ∧ m_pending (w_mgr (pr_world s')) = {["a"; "b"]} ∧ armed "c" (pr_timers s')
  ∧ jState <$> jobs (tables (w_db (pr_world s'))) !! "b" = Some "queued".
Proof.
  destruct (Start None [] sample_process) as [s' r] eqn:E.
  assert (r = Ok ()) as -> by (pose proof (f_equal snd E) as E2; vm_compute in E2; by rewrite <-E2).
  exists s'. split; [done|].
  destruct (start_forgets_nothing None [] sample_process s' sample_unstarted E) as (H & _).
  destruct (H "c" (stored_job "c" "waiting_quota" (Some 1500)) ltac:(reflexivity)) as (_ & Hw & _).
  assert (s' = (Start None [] sample_process).1) as -> by (by rewrite E).
  split; [vm_compute; reflexivity|]. split; [by apply Hw|vm_compute; reflexivity].
Defined.

(** With 129 queued jobs, which storing without starting leaves, the manager
    does not start. *)
Definition crowded : Process :=
  let row (n : nat) := stored_job (pretty n) "queued" None in
  sample_process <| pr_world := pr_world sample_process
    <| w_db := (w_db (pr_world sample_process))
      <| tables := empty_tables <| jobs := list_to_map ((λ n, (pretty n, row n)) <$> seq 0 129) |> |> |> |>.

Example start_overflows : (Start None [] crowded).2 = Err (New "download queue is full").
Proof. vm_compute. reflexivity. Qed.
