(* ===== verification/EventStream.v ===== *)
(** * The event stream of the API (internal/api/api.go)

    [handleEvents]: a subscriber of the bus whose events are written as
    server-sent events, with a reader of that format as the reference.  The
    rest of the program acts on the bus between any two turns of the handler's
    loop, and every write may fail half way. *)

From Stdlib Require Import ZArith Lia Ascii.
From stdpp Require Import base list gmap sets strings numbers pretty.
From S2P Require Import Prelude GoStrings GoErrors Events ApiServer.

Definition newline : ascii := Ascii.Ascii false true false true false false false false.
Definition end_line : string := String newline "".

(** What a write meets: all goes well, also when deadlines or flushing are not
    supported; the deadline cannot be set; only [n] bytes go out; flushing
    fails. *)
Inductive peer := Takes | DeadlineFails | TakesPart (n : nat) | FlushFails.

(** What the select of a turn picks. *)
Inductive arrival {V} := RequestDone | SubscriptionDone | StreamClosed | KeepAlive | Received (event : Event V).
Arguments arrival : clear implicits.

Section event_stream.
Context {V : Type} (marshal : Event V → result error string).

Record Conn := mkConn { cn_bus : Bus V; cn_sent : string; cn_peer : list peer }.

#[local] Instance Conn_eta : Eta Conn := λ c, mkConn (cn_bus c) (cn_sent c) (cn_peer c).

Abbreviation conn := (cmd HTTPError Conn).

(** The closure [writeEvent]; it says whether it succeeded. *)
Definition writeEvent (payload : string) : conn bool := λ c,
  let c' := c <| cn_peer := tail (cn_peer c) |> in
  match head (cn_peer c) with
  | None | Some Takes => (c' <| cn_sent := cn_sent c +:+ payload |>, Ok true)
  | Some DeadlineFails => (c', Ok false)
  | Some (TakesPart n) => (c' <| cn_sent := cn_sent c +:+ String.substring 0 n payload |>, Ok false)
  | Some FlushFails => (c' <| cn_sent := cn_sent c +:+ payload |>, Ok false)
  end.

Definition connected_marker : string := ": connected" +:+ end_line +:+ end_line.
Definition keep_alive : string := ": keep-alive" +:+ end_line +:+ end_line.
Definition event_frame (name payload : string) : string :=
  "event: " +:+ name +:+ end_line +:+ "data: " +:+ payload +:+ end_line +:+ end_line.

(** What the others do to the bus between two steps of the handler. *)
Definition interleaved (others : Bus V → Bus V) : conn () := modify (λ c, c <| cn_bus := others (cn_bus c) |>).

(** The loop, with what the others did to the bus before each turn; [true] when
    the handler returns, [false] when it is still waiting. *)
Fixpoint serve (turns : list ((Bus V → Bus V) * arrival V)) : conn bool :=
  match turns with
  | [] => mret false
  | (others, picked) :: turns =>
      _ ← interleaved others;
      match picked with
      | RequestDone | SubscriptionDone | StreamClosed => mret true
      | Received event =>
          match marshal event with
          | Err _ => serve turns
          | Ok payload => written ← writeEvent (event_frame (Name event) payload);
                          if (written : bool) then serve turns else mret true
          end
      | KeepAlive => written ← writeEvent keep_alive;
                     if (written : bool) then serve turns else mret true
      end
  end.

Definition subscribe : conn nat := λ c,
  let (b, id) := Subscribe (cn_bus c) in (c <| cn_bus := b |>, Ok id).
Definition subscription_Close (id : nat) : conn () :=
  modify (λ c, c <| cn_bus := cn_bus c <| objects := alter subscriber_close id (objects (cn_bus c)) |> |>).

(** [flusher] says whether the writer can flush; [meanwhile] is what the others
    do while the marker is being written.  The subscription is closed when the
    handler returns. *)
Definition handleEvents (flusher : bool) (meanwhile : Bus V → Bus V) (turns : list ((Bus V → Bus V) * arrival V))
    : conn (nat * bool) :=
  _ ← guard_err (negb flusher) (mkHTTPError 500 "sse_unavailable" "the server does not support event streaming");
  id ← subscribe;
  _ ← interleaved meanwhile;
  written ← writeEvent connected_marker;
  returned ← (if (written : bool) then serve turns else mret true);
  _ ← (if (returned : bool) then subscription_Close id else mret ());
  mret (id, returned).

(** ** The reference reader *)

Record message := mkMessage { ms_event : string; ms_data : string }.

(** Fields of a line, up to the first colon and one space after it. *)
Definition field_of (line : string) : string * string :=
  let '(name, value, _) := Cut line ":" in (name, TrimPrefix value " ").

(** The event under construction: its name, and its data once there is some. *)
Definition building : Type := string * option string.

Definition read_line (b : building) (line : string) : building * list message :=
  if bool_decide (line = "") then
    (("", None), match b.2 with Some data => [mkMessage b.1 data] | None => [] end)
  else
    let '(name, value) := field_of line in
    if bool_decide (name = "event") then ((value, b.2), [])
    else if bool_decide (name = "data")
    then ((b.1, Some (match b.2 with Some data => data +:+ end_line +:+ value | None => value end)), [])
    else (b, []).

Fixpoint read_lines (b : building) (lines : list string) : list message :=
  match lines with
  | [] => []
  | line :: lines => let (b, out) := read_line b line in out ++ read_lines b lines
  end.

(** The lines of a text that are complete. *)
Definition complete_lines (text : string) : list string := removelast (Split text newline).
Definition read_stream (text : string) : list message := read_lines ("", None) (complete_lines text).

(** The messages a sequence of turns is about. *)
Definition message_of (picked : arrival V) : list message :=
  match picked with
  | Received event => match marshal event with Ok payload => [mkMessage (Name event) payload] | Err _ => [] end
  | _ => []
  end.
Definition ends (picked : arrival V) : bool :=
  match picked with RequestDone | SubscriptionDone | StreamClosed => true | _ => false end.
Fixpoint messages_of (turns : list ((Bus V → Bus V) * arrival V)) : list message :=
  match turns with
  | [] => []
  | (_, picked) :: turns => if ends picked then [] else message_of picked ++ messages_of turns
  end.

(** ** Reading what was written *)

Definition one_line (s : string) : Prop := str_elem newline s = false.

Lemma one_line_app a b : one_line a → one_line b → one_line (a +:+ b).
Proof.
  unfold one_line. induction a as [|c a IH]; [done|]. cbn [str_elem]. intros [Hc Ha]%orb_false_iff Hb.
  change (str_elem newline (String c (a +:+ b)) = false). cbn [str_elem]. by rewrite Hc, IH.
Qed.

Lemma complete_line line rest : one_line line →
  complete_lines (line +:+ end_line +:+ rest) = line :: complete_lines rest.
Proof.
  intros H. unfold complete_lines, end_line. change (String newline "" +:+ rest) with (String newline rest).
  rewrite Split_app_sep by done. pose proof (Split_nonempty rest newline). by destruct (Split rest newline).
Qed.

Lemma read_event b v : read_line b ("event: " +:+ v) = ((v, b.2), []).
Proof.
  unfold read_line. rewrite bool_decide_eq_false_2 by done. unfold field_of. simpl. by rewrite TrimPrefix_app.
Qed.

Lemma read_data name v : read_line (name, None) ("data: " +:+ v) = ((name, Some v), []).
Proof.
  unfold read_line. rewrite bool_decide_eq_false_2 by done. unfold field_of. simpl. by rewrite TrimPrefix_app.
Qed.

Lemma read_comment_line b comment : read_line b (String ":" comment) = (b, []).
Proof.
  unfold read_line. rewrite bool_decide_eq_false_2 by done. unfold field_of. simpl. by destruct comment.
Qed.

(** A text that ends between two messages. *)
Definition reads (text : string) (ms : list message) : Prop :=
  ∀ rest, read_stream (text +:+ rest) = ms ++ read_stream rest.

Lemma reads_app t1 m1 t2 m2 : reads t1 m1 → reads t2 m2 → reads (t1 +:+ t2) (m1 ++ m2).
Proof. intros H1 H2 rest. by rewrite str_app_assoc, H1, H2, <-app_assoc. Qed.

Lemma reads_all text ms : reads text ms → read_stream text = ms.
Proof. intros H. rewrite <-(str_app_nil_r text), H. by rewrite app_nil_r. Qed.

Lemma reads_frame name payload : one_line name → one_line payload → reads (event_frame name payload) [mkMessage name payload].
Proof.
  intros Hn Hp rest. unfold read_stream, event_frame. rewrite !str_app_assoc.
  rewrite <-(str_app_assoc "event: "), (complete_line ("event: " +:+ name)) by by apply one_line_app.
  rewrite <-(str_app_assoc "data: "), (complete_line ("data: " +:+ payload)) by by apply one_line_app.
  pose proof (complete_line "" rest eq_refl) as E. change ("" +:+ ?x) with x in E. rewrite E.
  cbn [read_lines]. by rewrite read_event, read_data.
Qed.

Lemma reads_comment comment : one_line (String ":" comment) → reads (String ":" comment +:+ end_line +:+ end_line) [].
Proof.
  intros Hc rest. unfold read_stream. rewrite !str_app_assoc, complete_line by done.
  pose proof (complete_line "" rest eq_refl) as E. change ("" +:+ ?x) with x in E. rewrite E.
  cbn [read_lines]. by rewrite read_comment_line.
Qed.

(** Reading part of a text gives part of its messages. *)
Lemma complete_lines_cons c a : complete_lines (String c a) =
  if bool_decide (c = newline) then "" :: complete_lines a
  else match Split a newline with [part] => [] | part :: rest => String c part :: removelast rest | [] => [] end.
Proof.
  unfold complete_lines. cbn [Split]. pose proof (Split_nonempty a newline). case_bool_decide; destruct (Split a newline) as [|x [|]]; done.
Qed.

Lemma complete_lines_prefix a b : complete_lines a `prefix_of` complete_lines (a +:+ b).
Proof.
  induction a as [|c a IH]; [by apply prefix_nil|]. change (String c a +:+ b) with (String c (a +:+ b)).
  rewrite !complete_lines_cons. case_bool_decide; [by apply prefix_cons|]. unfold complete_lines in IH.
  pose proof (Split_nonempty (a +:+ b) newline) as Hb.
  destruct (Split a newline) as [|x [|y l]]; [apply prefix_nil..|].
  destruct (Split (a +:+ b) newline) as [|x' [|y' l']]; [done| |].
  - apply prefix_nil_inv in IH. done.
  - change (removelast (x :: y :: l)) with (x :: removelast (y :: l)) in IH.
    change (removelast (x' :: y' :: l')) with (x' :: removelast (y' :: l')) in IH.
    pose proof (prefix_cons_inv_1 _ _ _ _ IH) as ->. apply prefix_cons. by apply prefix_cons_inv_2 in IH.
Qed.

Lemma read_lines_prefix b l k : read_lines b l `prefix_of` read_lines b (l ++ k).
Proof.
  revert b. induction l as [|line l IH]; intros b; cbn [app read_lines]; [apply prefix_nil|].
  destruct (read_line b line) as [b' out]. apply prefix_app, IH.
Qed.

Lemma read_stream_prefix a b : read_stream a `prefix_of` read_stream (a +:+ b).
Proof. unfold read_stream. destruct (complete_lines_prefix a b) as [k ->]. apply read_lines_prefix. Qed.

Lemma substring_rest n s : ∃ rest, s = String.substring 0 n s +:+ rest.
Proof.
  revert n. induction s as [|c s IH]; intros [|n]; try (eexists; reflexivity).
  destruct (IH n) as [rest E]. exists rest. cbn. change (String c s = String c (String.substring 0 n s +:+ rest)). by rewrite <-E.
Qed.

Lemma part_read text ms n payload ms' :
  reads text ms → reads payload ms' → read_stream (text +:+ String.substring 0 n payload) `prefix_of` ms ++ ms'.
Proof.
  intros H1 H2. destruct (substring_rest n payload) as [rest E]. rewrite <-(reads_all _ _ (reads_app _ _ _ _ H1 H2)).
  rewrite E at 2. rewrite <-str_app_assoc. apply read_stream_prefix.
Qed.

(** One write of a whole piece. *)
Lemma writeEvent_reads payload ms' c c' ok ms :
  reads (cn_sent c) ms → reads payload ms' → writeEvent payload c = (c', Ok ok) →
  cn_bus c' = cn_bus c ∧ read_stream (cn_sent c') `prefix_of` ms ++ ms'
  ∧ (ok = true → reads (cn_sent c') (ms ++ ms'))
  ∧ (Forall (eq Takes) (cn_peer c) → Forall (eq Takes) (cn_peer c') ∧ ok = true).
Proof.
  intros H1 H2 H. unfold writeEvent in H.
  assert (reads (cn_sent c +:+ payload) (ms ++ ms')) as H3 by by apply reads_app.
  destruct (cn_peer c) as [|[| |n|] rest] eqn:Ep; cbn in H; simplify_eq/=.
  all: (split; [done|]; split; [|split]).
  all: try done. all: try (by rewrite (reads_all _ _ H3)).
  all: try (intros Hf%Forall_cons; destruct Hf as [? ?]; done).
  - rewrite (reads_all _ _ H1). by apply prefix_app_r.
  - by apply part_read.
Qed.

(** ** The whole loop *)

Lemma messages_app ms ms' text : read_stream text `prefix_of` ms → read_stream text `prefix_of` ms ++ ms'.
Proof. apply prefix_app_r. Qed.

Lemma modify_run {A} (f : Conn → Conn) (k : () → conn A) c : (modify f ≫= k) c = k () (f c).
Proof. done. Qed.

(** The written pieces, and what is kept of the bus. *)
Definition piece_of (picked : arrival V) : option (string * list message) :=
  match picked with
  | Received event =>
      match marshal event with
      | Ok payload => Some (event_frame (Name event) payload, [mkMessage (Name event) payload])
      | Err _ => None
      end
  | KeepAlive => Some (keep_alive, [])
  | _ => None
  end.

Lemma serve_cons others picked turns c :
  serve ((others, picked) :: turns) c =
    let c := c <| cn_bus := others (cn_bus c) |> in
    if ends picked then (c, Ok true)
    else match piece_of picked with
         | None => serve turns c
         | Some (piece, _) => match writeEvent piece c with
                              | (c, Ok true) => serve turns c
                              | (c, Ok false) => (c, Ok true)
                              | (c, Err e) => (c, Err e)
                              end
         end.
Proof.
  cbn [serve]. unfold interleaved. rewrite modify_run. cbv zeta. destruct picked as [| | | |event]; cbn [ends piece_of]; try done.
  - unfold mbind, cmd_bind. by destruct (writeEvent keep_alive _) as [? [[]|]].
  - destruct (marshal event) as [payload|]; [|done]. unfold mbind, cmd_bind.
    by destruct (writeEvent (event_frame (Name event) payload) _) as [? [[]|]].
Qed.

Definition named (picked : arrival V) : Prop := match picked with Received event => one_line (Name event) | _ => True end.

Context (compact : ∀ event payload, marshal event = Ok payload → one_line payload).

Lemma piece_reads picked piece ms : named picked → piece_of picked = Some (piece, ms) → reads piece ms ∧ message_of picked = ms ∧ ends picked = false.
Proof.
  destruct picked as [| | | |event]; cbn; intros Hn H; try done.
  - simplify_eq. split; [|done]. by apply reads_comment.
  - destruct (marshal event) as [payload|] eqn:E; simplify_eq. split; [|done]. apply reads_frame; [done|by eapply compact].
Qed.

Lemma no_piece picked : piece_of picked = None → ends picked = false → message_of picked = [].
Proof. destruct picked as [| | | |event]; cbn; try done. by destruct (marshal event). Qed.

Lemma serve_spec (P : Bus V → Prop) turns c c' r ms :
  reads (cn_sent c) ms → Forall (λ t, named t.2) turns → P (cn_bus c) → Forall (λ t, ∀ b, P b → P (t.1 b)) turns →
  serve turns c = (c', r) →
  P (cn_bus c') ∧ ∃ returned, r = Ok returned
    ∧ read_stream (cn_sent c') `prefix_of` ms ++ messages_of turns
    ∧ (returned = false → read_stream (cn_sent c') = ms ++ messages_of turns)
    ∧ (Forall (eq Takes) (cn_peer c) → read_stream (cn_sent c') = ms ++ messages_of turns ∧ returned = existsb ends turns.*2).
Proof.
  revert c ms. induction turns as [|[others picked] turns IH]; intros c ms Hr Hn HP HPs H.
  { cbn in H. unfold mret, cmd_ret in H. simplify_eq. split; [done|]. exists false. cbn [messages_of]. rewrite app_nil_r, (reads_all _ _ Hr).
    by split_and!. }
  apply Forall_cons in Hn as [Hn1 Hn2]. apply Forall_cons in HPs as [HP1 HP2]. cbn in Hn1, HP1.
  rewrite serve_cons in H. cbv zeta in H. cbn [messages_of fmap list_fmap existsb]. cbn [snd].
  destruct (ends picked) eqn:Hend.
  { simplify_eq/=. split; [by apply HP1|]. exists true. rewrite app_nil_r, (reads_all _ _ Hr). by split_and!. }
  destruct (piece_of picked) as [[piece ms1]|] eqn:Hpc.
  - destruct (piece_reads _ _ _ Hn1 Hpc) as (Hp & -> & _).
    set (c0 := c <| cn_bus := others (cn_bus c) |>) in *. assert (reads (cn_sent c0) ms) as Hr0 by exact Hr.
    destruct (writeEvent piece c0) as [c1 r1] eqn:Ew.
    assert (∃ ok, r1 = Ok ok) as [ok ->] by (unfold writeEvent in Ew; repeat case_match; simplify_eq; by eexists).
    destruct (writeEvent_reads piece ms1 c0 c1 ok ms Hr0 Hp Ew) as (Eb & W1 & W2 & W3). subst c0. cbn in Eb, W3.
    rewrite app_assoc. destruct ok.
    + apply (IH c1 (ms ++ ms1)) in H as (HP' & returned & -> & H1 & H2 & H3); [|by apply W2|done|rewrite Eb; by apply HP1|done].
      split; [done|]. exists returned. split_and!; [done..|]. intros Hf. by apply H3, W3.
    + simplify_eq. split; [rewrite Eb; by apply HP1|]. exists true. split_and!; [done|by apply messages_app|done|].
      intros Hf. by destruct (W3 Hf).
  - rewrite (no_piece _ Hpc Hend). cbn [app]. by apply (IH (c <| cn_bus := others (cn_bus c) |>) ms) in H; [|done|done|by apply HP1|done].
Qed.

(** ** The subscription *)

Lemma publish_others event ids (p : Bus V * bool) id s :
  id ∉ ids → objects p.1 !! id = Some s → objects (foldl (λ p id, publish_to event p.1 p.2 id) p ids).1 !! id = Some s.
Proof.
  revert p. induction ids as [|i ids IH]; intros p Hi Hs; [done|]. cbn [foldl].
  apply not_elem_of_cons in Hi as [Hne Hi]. apply IH; [done|]. unfold publish_to.
  repeat case_match; cbn; try done; by rewrite lookup_insert_ne.
Qed.

Lemma publish_reaches event ids (p : Bus V * bool) id s :
  NoDup ids → id ∈ ids → objects p.1 !! id = Some s → (enqueue s event).2 = true →
  objects (foldl (λ p id, publish_to event p.1 p.2 id) p ids).1 !! id = Some (enqueue s event).1.
Proof.
  revert p. induction ids as [|i ids IH]; intros p Hnd Hi Hs Ho; [by apply elem_of_nil in Hi|]. cbn [foldl].
  apply NoDup_cons in Hnd as [Hni Hnd]. destruct (decide (i = id)) as [->|Hne].
  - apply publish_others; [done|]. unfold publish_to. rewrite Hs. destruct (enqueue s event) as [s' ok]. cbn in Ho. subst ok. apply lookup_insert_eq.
  - apply elem_of_cons in Hi as [?|Hi]; [done|]. apply IH; try done. unfold publish_to.
    repeat case_match; cbn; try done; by rewrite lookup_insert_ne.
Qed.

(** Events published one after the other, each to the subscribers of its
    moment in some order. *)
Inductive publishes : list (Event V) → Bus V → Bus V → Prop :=
| publishes_nil b : publishes [] b b
| publishes_cons event es now ids b b' : ids ≡ₚ elements (subs b) →
    publishes es (Publish now ids event b).1 b' → publishes (event :: es) b b'.

Lemma publish_to_subs (event : Event V) (b : Bus V) ids (ok : bool) :
  subs (foldl (λ p id, publish_to event p.1 p.2 id) (b, ok) ids).1 = subs b
  ∧ closed (foldl (λ p id, publish_to event p.1 p.2 id) (b, ok) ids).1 = closed b.
Proof.
  change b with (b, ok).1 at 2 4. generalize (b, ok) as p. induction ids as [|id ids IH]; intros p; [done|].
  cbn [foldl]. destruct (IH (publish_to event p.1 p.2 id)) as [-> ->]. unfold publish_to. by repeat case_match.
Qed.

(** An open bus with a subscriber that still takes events. *)
Definition listening (b : Bus V) (id : nat) (c : Coalescer (any := V)) : Prop :=
  closed b = false ∧ id ∈ subs b ∧ ∃ s, objects b !! id = Some s ∧ stopped s = false ∧ coalescer s = c.

(** What can be published: it has a name and a time. *)
Definition stamped (event : Event V) : Prop := Name event ≠ "" ∧ Timestamp event ≠ 0.

Lemma Publish_listening b id c now ids event : listening b id c → ids ≡ₚ elements (subs b) → stamped event →
  (Coalescer_Add c event).2 = true → listening (Publish now ids event b).1 id (Coalescer_Add c event).1.
Proof.
  intros (Hcl & Hid & s & Hs & Hst & Hc) Hids [Hn Ht] Hok. unfold Publish.
  rewrite bool_decide_eq_false_2, (proj2 (Z.eqb_neq _ _) Ht), Hcl by done.
  destruct (publish_to_subs event b ids true) as [E1 E2]. split; [by rewrite E2|]. split; [by rewrite E1|].
  assert (enqueue s event = (s <| coalescer := (Coalescer_Add c event).1 |>, true)) as He.
  { unfold enqueue. rewrite Hst, Hc. destruct (Coalescer_Add c event) as [c' ok]. cbn in *. by subst ok. }
  eexists. split.
  - apply publish_reaches; [rewrite Hids; apply NoDup_elements|rewrite Hids; by apply elem_of_elements|exact Hs|by rewrite He].
  - by rewrite He.
Qed.

Lemma publishes_listening es b b' id c : publishes es b b' → listening b id c → Forall stamped es →
  Forall (eq true) (add_all es c).2 → listening b' id (add_all es c).1.
Proof.
  intros H. revert c. induction H as [|event es now ids b b' Hids H IH]; intros c Hl Hes Hok; [done|].
  apply Forall_cons in Hes as [Hev Hes]. cbn in Hok |- *. destruct (Coalescer_Add c event) as [c1 ok] eqn:E1.
  destruct (add_all es c1) as [c2 oks] eqn:E2. cbn in Hok |- *. apply Forall_cons in Hok as [<- Hok].
  replace c2 with (add_all es c1).1 by by rewrite E2. apply IH; [|done|by rewrite E2].
  pose proof (Publish_listening b id c now ids event Hl Hids Hev) as Hp. rewrite E1 in Hp. by apply Hp.
Qed.

Lemma publishes_app es es' b b1 b2 : publishes es b b1 → publishes es' b1 b2 → publishes (es ++ es') b b2.
Proof. induction 1 as [|event es now ids b b' Hids H IH]; [done|]. intros H2. by apply (publishes_cons event _ now ids), IH. Qed.

Lemma Subscribe_listening (b b0 : Bus V) id : closed b = false → Subscribe b = (b0, id) →
  listening b0 id (NewCoalescer (bus_maxPending b)).
Proof.
  unfold Subscribe. intros Hcl. rewrite Hcl. intros [= <- <-]. split; [exact Hcl|]. split; [cbn; set_solver|].
  eexists. split; [cbn; apply lookup_insert_eq|done].
Qed.

(** What a flush of the subscriber delivers of the events published. *)
Definition flush_delivers (b : Bus V) (id : nat) (es : list (Event V)) : Prop :=
  ∃ s, objects b !! id = Some s ∧ stopped s = false
    ∧ Forall2 (λ key out, summary (with_key key es) out) (arrivals (eventKey <$> es)) (Coalescer_Flush (coalescer s)).2.

Lemma subscribed_delivers (b b0 b' : Bus V) id es : closed b = false → Subscribe b = (b0, id) → publishes es b0 b' →
  Forall stamped es → Z.of_nat (length (arrivals (eventKey <$> es))) ≤ maxPending (NewCoalescer (any := V) (bus_maxPending b)) →
  flush_delivers b' id es.
Proof.
  intros Hcl Hsub Hp Hes Hfit. pose proof (Subscribe_listening _ _ _ Hcl Hsub) as Hl.
  destruct (gathered_delivers (NewCoalescer (bus_maxPending b)) es) as [Hok Hd]; [apply represents_new| |done|].
  { eapply Forall_impl; [exact Hes|]. by intros e [? _]. }
  destruct (publishes_listening _ _ _ _ _ Hp Hl Hes Hok) as (_ & _ & s & Hs & Hst & Hc).
  exists s. by rewrite Hc.
Qed.

Definition keeps_subscribers (others : Bus V → Bus V) : Prop :=
  ∀ b id, is_Some (objects b !! id) → is_Some (objects (others b) !! id).

(** C20: What a client of the event stream reads is, message for message and in
    order, what the handler took from its subscription, up to the write that
    failed, and everything when none failed; when the handler returns its
    subscription is stopped.  The "connected" marker is written for a client
    that is subscribed already: the events others publish while it is being
    written and those published once it is out, as long as they have no more keys
    than a subscriber may hold, are all in the next flush for that client, one
    per key in the order of arrival. *)
Theorem event_stream_delivers meanwhile turns c c' r :
  cn_sent c = "" → Forall (λ t, named t.2) turns →
  keeps_subscribers meanwhile → Forall (λ t : (Bus V → Bus V) * arrival V, keeps_subscribers t.1) turns →
  handleEvents true meanwhile turns c = (c', r) →
  ∃ id returned, r = Ok (id, returned)
  ∧ read_stream (cn_sent c') `prefix_of` messages_of turns
  ∧ (returned = false → read_stream (cn_sent c') = messages_of turns)
  ∧ (Forall (eq Takes) (cn_peer c) → read_stream (cn_sent c') = messages_of turns ∧ returned = existsb ends turns.*2)
  ∧ (returned = true → ∃ s, objects (cn_bus c') !! id = Some s ∧ stopped s = true)
  ∧ (closed (cn_bus c) = false → ∀ during, (∀ b, publishes during b (meanwhile b)) →
       ∀ c1, handleEvents true meanwhile [] c = (c1, Ok (id, false)) →
       ∀ later b, publishes later (cn_bus c1) b → Forall stamped (during ++ later) →
       Z.of_nat (length (arrivals (eventKey <$> during ++ later))) ≤ maxPending (NewCoalescer (any := V) (bus_maxPending (cn_bus c))) →
       flush_delivers b id (during ++ later)).
Proof.
  intros Hsent Hn Hmean Hothers H. unfold handleEvents, interleaved, guard_err, mbind, cmd_bind, modify, mret, cmd_ret in H. cbn [negb] in H.
  destruct (subscribe c) as [c0 r0] eqn:E0. unfold subscribe in E0.
  destruct (Subscribe (cn_bus c)) as [b0 id] eqn:Esub. injection E0 as <- <-. cbn in H.
  assert (is_Some (objects b0 !! id)) as Hid.
  { unfold Subscribe in Esub. destruct (closed (cn_bus c)); injection Esub as <- <-; cbn; rewrite lookup_insert_eq; by eexists. }
  set (cm := c <| cn_bus := b0 |> <| cn_bus := meanwhile b0 |>) in H.
  destruct (writeEvent connected_marker cm) as [c1 r1] eqn:Ew.
  assert (∃ ok, r1 = Ok ok) as [ok ->] by (unfold writeEvent in Ew; repeat case_match; simplify_eq; by eexists).
  destruct (writeEvent_reads connected_marker [] cm c1 ok []) as (Eb & W1 & W2 & W3); [|by apply reads_comment|done|].
  { cbn. rewrite Hsent. by intros rest. }
  cbn in Eb, W1, W2, W3. assert (is_Some (objects (cn_bus c1) !! id)) as Hid1 by (rewrite Eb; by apply Hmean).
  assert (closed (cn_bus c) = false → ∀ during, (∀ b, publishes during b (meanwhile b)) →
       ∀ c1, handleEvents true meanwhile [] c = (c1, Ok (id, false)) →
       ∀ later b, publishes later (cn_bus c1) b → Forall stamped (during ++ later) →
       Z.of_nat (length (arrivals (eventKey <$> during ++ later))) ≤ maxPending (NewCoalescer (any := V) (bus_maxPending (cn_bus c))) →
       flush_delivers b id (during ++ later)) as Hpub.
  { intros Hcl during Hdur c2 H2 later b Hlater. unfold handleEvents, interleaved, guard_err, mbind, cmd_bind, modify, mret, cmd_ret in H2.
    cbn [negb] in H2. unfold subscribe in H2. rewrite Esub in H2. cbn in H2.
    fold cm in H2. rewrite Ew in H2.
    destruct ok; [|done]. cbn in H2. injection H2 as <-. rewrite Eb in Hlater.
    apply (subscribed_delivers (cn_bus c) b0); [done|done|]. by eapply publishes_app. }
  destruct ok.
  - destruct (serve turns c1) as [c2 r2] eqn:Es.
    apply (serve_spec (λ b, is_Some (objects b !! id)) _ _ _ _ []) in Es as (HP & returned & -> & H1 & H2 & H3); [|by apply W2|done|done|].
    2: { eapply Forall_impl; [exact Hothers|]. intros t Ht b. apply Ht. }
    destruct returned; cbn in H; simplify_eq/=; (eexists; eexists; split; [reflexivity|]); (split_and!; [done|done| |try done|done]).
    1,3: intros Hf; apply H3, W3, Hf.
    intros _. destruct HP as [s Hs]. exists (subscriber_close s). by rewrite lookup_alter_eq, Hs.
  - cbn in H. simplify_eq/=. eexists; eexists; split; [reflexivity|]. split_and!; [|done| | |done].
    + by eapply (messages_app []).
    + intros Hf. by destruct (W3 Hf).
    + intros _. destruct Hid1 as [s Hs]. exists (subscriber_close s). by rewrite lookup_alter_eq, Hs.
Qed.
End event_stream.

(** ** Witness *)

(** A codec that writes the identifier of the job when it is one line. *)
Definition sample_marshal (event : Event Z) : result error string :=
  if str_elem newline (JobID event) then Err (New "unsupported value") else Ok (JobID event).

Definition sample_turns : list ((Bus Z → Bus Z) * arrival Z) :=
  [(λ b, b, Received (sample_progress "a" 1 10)); (λ b, b, KeepAlive); (λ b, b, Received (sample_progress "b" 2 20));
   (Bus_Close, SubscriptionDone)].

(** One event is published while the marker goes out, and one after it. *)
Definition publish_now (event : Event Z) (b : Bus Z) : Bus Z := (Publish 1 (elements (subs b)) event b).1.
Definition connected_conn : Conn (V := Z) := (handleEvents sample_marshal true (publish_now (sample_progress "a" 1 10)) [] (mkConn NewBus "" [])).1.

Lemma publish_now_keeps event : keeps_subscribers (publish_now event).
Proof.
  intros b id Hid. unfold publish_now, Publish. case_bool_decide; [done|]. cbv zeta. destruct (closed b); [done|].
  generalize (if Timestamp event =? 0 then event <| Timestamp := 1 |> else event) as e. intros e.
  assert (∀ l (p : Bus Z * bool), is_Some (objects p.1 !! id) →
    is_Some (objects (foldl (λ p id, publish_to e p.1 p.2 id) p l).1 !! id)) as Hfold; [|by apply Hfold].
  intros l. induction l as [|i l IH]; [done|]. intros p Hp. cbn [foldl]. apply IH. unfold publish_to.
  destruct (objects p.1 !! i) as [x|]; [|done]. destruct (enqueue x e) as [x' []]; cbn; apply lookup_insert_is_Some';
    by right.
Qed.

Lemma publish_now_publishes event b : publishes [event] b (publish_now event b).
Proof. by apply (publishes_cons event [] 1 (elements (subs b))), publishes_nil. Qed.

Lemma event_stream_delivers_witness :
  let c' := (handleEvents sample_marshal true (publish_now (sample_progress "a" 1 10)) sample_turns (mkConn NewBus "" [])).1 in
  read_stream (cn_sent c') = [mkMessage "job.updated" "a"; mkMessage "job.updated" "b"]
  ∧ flush_delivers (publish_now (sample_progress "b" 2 20) (cn_bus connected_conn)) 0
      [sample_progress "a" 1 10; sample_progress "b" 2 20].
Proof.
  destruct (event_stream_delivers sample_marshal) with (meanwhile := publish_now (sample_progress "a" 1 10)) (turns := sample_turns)
    (c := mkConn (NewBus (any := Z)) "" [])
    (c' := (handleEvents sample_marshal true (publish_now (sample_progress "a" 1 10)) sample_turns (mkConn NewBus "" [])).1)
    (r := (handleEvents sample_marshal true (publish_now (sample_progress "a" 1 10)) sample_turns (mkConn NewBus "" [])).2)
    as (id & returned & Hr & _ & _ & H & _ & Hp).
  - intros event payload. unfold sample_marshal. destruct (str_elem newline (JobID event)) eqn:E; [done|]. intros [= <-]. exact E.
  - done.
  - repeat constructor.
  - apply publish_now_keeps.
  - assert (∀ (b : Bus Z) id, is_Some (objects b !! id) → is_Some (objects (Bus_Close b) !! id)) as Hclose.
    { intros b id' [s Hs]. unfold Bus_Close. destruct (closed b); [by eexists|]. cbn. rewrite map_lookup_imap, Hs. by eexists. }
    unfold sample_turns. apply Forall_cons. split; [by intros b id'|]. apply Forall_cons. split; [by intros b id'|]. apply Forall_cons. split; [by intros b id'|].
    apply Forall_cons. split; [exact Hclose|apply Forall_nil_2].
  - apply surjective_pairing.
  - destruct H as [H _]; [by constructor|]. split; [exact H|].
    assert (id = 0%nat) as -> by (vm_compute in Hr; by injection Hr).
    apply (Hp eq_refl [sample_progress "a" 1 10] (publish_now_publishes _) connected_conn) with (later := [sample_progress "b" 2 20]).
    + vm_compute. reflexivity.
    + apply publish_now_publishes.
    + repeat (apply Forall_cons; split; [split; vm_compute; discriminate|]); apply Forall_nil_2.
    + vm_compute. discriminate.
Defined.
