(* ===== verification/Progress.v ===== *)
(** * Progress on the event bus (internal/download/manager.go)

    The speed meters of the manager, one for each job and at most 512, what is
    published about jobs, files and the queue, and what becomes of it in the
    coalescer. *)

From Stdlib Require Import ZArith Lia SpecFloat.
From stdpp Require Import base list gmap sets strings numbers pretty.
From S2P Require Import Prelude Store StoreDownloads Lifecycle Float64 Speed Events.

(** ** The meters *)

Definition maxSpeedMeters : nat := 512.

(** [mt_objects] are the meters made, by address; a transfer keeps its own also
    when the manager has let go of it. *)
Record Meters := mkMeters { mt_objects : list SpeedMeter; mt_speeds : gmap string nat; mt_order : list string }.
#[export] Instance Meters_eta : Eta Meters := λ m, mkMeters (mt_objects m) (mt_speeds m) (mt_order m).

Definition no_meters : Meters := mkMeters [] ∅ [].

Definition getSpeedMeter (jobID : string) (m : Meters) : Meters * nat :=
  match mt_speeds m !! jobID with
  | Some meter => (m, meter)
  | None =>
      let m := match mt_order m with
               | oldest :: rest => if (maxSpeedMeters <=? size (mt_speeds m))%nat
                                   then m <| mt_order := rest |> <| mt_speeds := delete oldest (mt_speeds m) |> else m
               | [] => m
               end in
      let meter := length (mt_objects m) in
      (m <| mt_objects := mt_objects m ++ [NewSpeedMeter defaultSpeedWindow] |>
         <| mt_speeds := <[jobID := meter]> (mt_speeds m) |> <| mt_order := mt_order m ++ [jobID] |>, meter)
  end.

(** [meter.Add] of a transfer. *)
Definition meter_Add (meter : nat) (n now : Z) (m : Meters) : Meters :=
  m <| mt_objects := alter (SpeedMeter_Add n now) meter (mt_objects m) |>.

Definition Manager_Speed (jobID : string) (now : Z) (m : Meters) : Meters * SpeedSnapshot :=
  match mt_speeds m !! jobID with
  | Some meter =>
      match mt_objects m !! meter with
      | Some s => let (s', snapshot) := Snapshot now s in (m <| mt_objects := <[meter := s']> (mt_objects m) |>, snapshot)
      | None => (m, mkSnapshot 0 0 0)
      end
  | None => (m, mkSnapshot 0 0 0)
  end.

(** ** What is published *)

Inductive value := VString (s : string) | VInt (z : Z) | VFloat (x : float64) | VBool (b : bool) | VTime (t : option Z)
  | VFiles (files : list (gmap string value)).

(** Seconds to go at a speed. *)
Definition etaSeconds (remaining : Z) (speed : float64) : Z :=
  if (0 <? remaining) && SFltb (of_int 0) speed then to_int (fdiv (of_int remaining) speed) else 0.

Definition file_data (file : FileRow) : gmap string value :=
  {["id" := VString (fID file); "state" := VString (fState file); "bytesCommitted" := VInt (fBytesCommitted file);
    "sizeBytes" := VInt (fSizeBytes file); "updatedAt" := VTime (Some (fUpdatedAt file))]}.

Definition job_event (job : DownloadJobRecord) (speed : SpeedSnapshot) (now : Z) : Event value :=
  let j := rJob job in
  mkEvent JobUpdated (jID j) "" now
    {["id" := VString (jID j); "state" := VString (jState j); "totalBytes" := VInt (jTotalBytes j);
      "bytesCommitted" := VInt (rBytesCommitted job); "speedBytesPerSecond" := VFloat (BytesPerSecond speed);
      "etaSeconds" := VInt (etaSeconds (wrap64 (jTotalBytes j - rBytesCommitted job)) (BytesPerSecond speed));
      "updatedAt" := VTime (Some (jUpdatedAt j)); "quotaNextRetryAt" := VTime (jQuotaNextRetryAt j);
      "quotaRetryIndex" := VInt (jQuotaRetryIndex j); "lastErrorCode" := VString (jLastErrorCode j);
      "lastErrorMessage" := VString (jLastErrorMessage j); "files" := VFiles (file_data <$> rFiles job)]}.

Definition deleted_event (jobID : string) (now : Z) : Event value :=
  mkEvent JobUpdated jobID "" now {["id" := VString jobID; "deleted" := VBool true]}.

Definition published_event (p : Published) (speed : SpeedSnapshot) (now : Z) : Event value :=
  match p with JobSnapshot job => job_event job speed now | JobDeleted id => deleted_event id now end.

Definition progress_event (jobID fileID state : string) (committed size : Z) (speed : SpeedSnapshot) (now : Z) : Event value :=
  mkEvent SpeedUpdated jobID fileID now
    {["id" := VString jobID; "downloadId" := VString jobID; "fileId" := VString fileID; "state" := VString state;
      "bytesCommitted" := VInt committed; "sizeBytes" := VInt size;
      "speedBytesPerSecond" := VFloat (BytesPerSecond speed); "sessionBytes" := VInt (TotalBytes speed)]}.

Definition publishProgress (jobID fileID state : string) (committed size now : Z) (m : Meters) : Meters * option (Event value) :=
  if bool_decide (jobID = "") then (m, None)
  else let (m, speed) := Manager_Speed jobID now m in (m, Some (progress_event jobID fileID state committed size speed now)).

Definition publishQueueUpdate (paused : bool) (now : Z) : Event value :=
  mkEvent QueueUpdated "" "" now {["queuePaused" := VBool paused]}.

(** ** Bounds *)

Inductive meter_op := OpGet (jobID : string) | OpAdd (meter : nat) (n now : Z) | OpSpeed (jobID : string) (now : Z).
Definition run_meter_op (m : Meters) (op : meter_op) : Meters :=
  match op with
  | OpGet jobID => (getSpeedMeter jobID m).1
  | OpAdd meter n now => meter_Add meter n now m
  | OpSpeed jobID now => (Manager_Speed jobID now m).1
  end.

(** The order lists the jobs with a meter once each, and the meters are there. *)
Record meters_ok (m : Meters) : Prop := {
  mk_nodup : NoDup (mt_order m);
  mk_order : ∀ id, id ∈ mt_order m ↔ is_Some (mt_speeds m !! id);
  mk_size : (size (mt_speeds m) ≤ maxSpeedMeters)%nat;
  mk_there : ∀ id meter, mt_speeds m !! id = Some meter → (meter < length (mt_objects m))%nat;
  mk_own : ∀ id id' meter, mt_speeds m !! id = Some meter → mt_speeds m !! id' = Some meter → id = id' }.

Lemma meters_same m l : meters_ok m → length l = length (mt_objects m) → meters_ok (m <| mt_objects := l |>).
Proof. intros [H1 H2 H3 H4 H5] Hl. split; cbn; try done. rewrite Hl. done. Qed.

Lemma make_room m : meters_ok m →
  let m' := match mt_order m with
            | oldest :: rest => if (maxSpeedMeters <=? size (mt_speeds m))%nat
                                then m <| mt_order := rest |> <| mt_speeds := delete oldest (mt_speeds m) |> else m
            | [] => m
            end in
  meters_ok m' ∧ (size (mt_speeds m') < maxSpeedMeters)%nat ∧ mt_objects m' = mt_objects m ∧ mt_speeds m' ⊆ mt_speeds m.
Proof.
  intros Hm. pose proof Hm as [H1 H2 H3 H4 H5]. destruct (mt_order m) as [|oldest rest] eqn:Eo.
  { cbv zeta. split; [done|]. split; [|done]. assert (mt_speeds m = ∅) as ->; [|by vm_compute; lia].
    apply map_eq. intros id. rewrite lookup_empty. apply eq_None_not_Some. rewrite <-H2. apply not_elem_of_nil. }
  cbv zeta. destruct (maxSpeedMeters <=? size (mt_speeds m))%nat eqn:E; [apply Nat.leb_le in E|apply Nat.leb_gt in E; by split_and!].
  apply NoDup_cons in H1 as [Hno H1]. destruct (proj1 (H2 oldest)) as [meter Hold]; [by left|].
  assert (size (delete oldest (mt_speeds m)) = pred (size (mt_speeds m))) as Es by (apply map_size_delete_Some; by eexists).
  split; [|split; [cbn; rewrite Es; unfold maxSpeedMeters in *; lia|split; [done|cbn; apply delete_subseteq]]].
  split; cbn; [done| |lia| |].
  - intros id. destruct (decide (id = oldest)) as [->|Hne]; [rewrite lookup_delete_eq; split; [done|by intros [? ?]]|].
    rewrite lookup_delete_ne by done. rewrite <-H2, elem_of_cons. split; [by right|by intros [?|?]].
  - intros id k [_ Hk]%lookup_delete_Some. by eapply H4.
  - intros id id' k [_ Hk]%lookup_delete_Some [_ Hk']%lookup_delete_Some. by eapply H5.
Qed.

Lemma get_ok jobID m : meters_ok m → meters_ok (getSpeedMeter jobID m).1 ∧ mt_speeds (getSpeedMeter jobID m).1 !! jobID = Some (getSpeedMeter jobID m).2.
Proof.
  intros Hm. unfold getSpeedMeter. destruct (mt_speeds m !! jobID) as [meter|] eqn:E; [by split|].
  destruct (make_room m Hm) as (Hm' & Hs & _ & Hsub). cbv zeta in *.
  set (m1 := match mt_order m with [] => m | _ :: _ => _ end) in *.
  assert (mt_speeds m1 !! jobID = None) as E1.
  { destruct (mt_speeds m1 !! jobID) eqn:E1; [|done]. by rewrite (lookup_weaken _ _ _ _ E1 Hsub) in E. }
  destruct Hm' as [H1 H2 H3 H4 H5]. cbn [fst snd mt_speeds update_field]. split; [|cbn; apply lookup_insert_eq].
  split; cbn.
  - apply NoDup_app. split; [done|]. split; [|apply NoDup_singleton]. intros id Hid ->%list_elem_of_singleton.
    apply H2 in Hid as [? ?]. congruence.
  - intros id. rewrite elem_of_app, list_elem_of_singleton, H2. destruct (decide (id = jobID)) as [->|Hne].
    + rewrite lookup_insert_eq. split; [done|by right].
    + rewrite lookup_insert_ne by done. split; [by intros [?|?]|by left].
  - rewrite map_size_insert_None by done. unfold maxSpeedMeters in *. lia.
  - intros id k [[<- <-]|[_ Hk]]%lookup_insert_Some; rewrite length_app; cbn; [lia|]. specialize (H4 _ _ Hk). lia.
  - intros id id' k [[<- <-]|[_ Hk]]%lookup_insert_Some [[<- Ek]|[_ Hk']]%lookup_insert_Some; [done| | |by eapply H5].
    + specialize (H4 _ _ Hk'). lia.
    + subst. specialize (H4 _ _ Hk). lia.
Qed.

(** However meters are asked for, fed and read, there are at most 512, every job
    asked for gets one of its own, and the oldest is the one to go. *)
Theorem meters_bounded ops :
  let m := foldl run_meter_op no_meters ops in
  meters_ok m ∧ ∀ jobID, let (m', meter) := getSpeedMeter jobID m in
    meters_ok m' ∧ mt_speeds m' !! jobID = Some meter ∧ ∀ id, mt_speeds m' !! id = Some meter → id = jobID.
Proof.
  cbv zeta. assert (meters_ok (foldl run_meter_op no_meters ops)) as Hm.
  { assert (meters_ok no_meters) as H0 by (split; cbn; try done; [apply NoDup_nil_2|intros id; rewrite lookup_empty; split; [by intros ?%elem_of_nil|by intros [? ?]]|rewrite map_size_empty; apply Nat.le_0_l]).
    revert H0. generalize no_meters. induction ops as [|op ops IH]; intros m0 H0; cbn [foldl]; [done|]. apply IH.
    destruct op as [jobID|meter n now|jobID now]; cbn [run_meter_op].
    - by apply get_ok.
    - apply meters_same; [done|]. apply length_alter.
    - unfold Manager_Speed. destruct (mt_speeds m0 !! jobID) as [meter|]; [|done]. destruct (mt_objects m0 !! meter) as [s|]; [|done].
      destruct (Snapshot now s). apply meters_same; [done|]. apply length_insert. }
  split; [done|]. intros jobID. destruct (get_ok jobID _ Hm) as [H1 H2]. destruct (getSpeedMeter jobID _) as [m' meter].
  cbn [fst snd] in *. split; [done|]. split; [done|]. intros id Hid. by apply (mk_own m' H1 id jobID meter).
Qed.

(** Everything that is published is under a name the coalescer knows, so that
    [coalescer_keeps_durable] covers it. *)
Lemma published_known p speed now jobID fileID state committed size paused :
  published (published_event p speed now) ∧ published (progress_event jobID fileID state committed size speed now)
  ∧ published (publishQueueUpdate paused now).
Proof. unfold published. destruct p; cbn; set_solver. Qed.

(** A progress event and a later snapshot of the same job are merged: the event
    has the name of the snapshot and the file of the progress, so that the bytes
    of the whole job are under the identifier of one file; in the other order the
    new state of the job is lost. *)
Definition merged_with (first second : Event value) : list (Event value) :=
  (Coalescer_Flush (add_all [first; second] (NewCoalescer 128)).1).2.

Example merged_snapshot :
  let job := mkEvent JobUpdated "job-1" "" 2 {["state" := VString "paused"; "bytesCommitted" := VInt 700]} in
  let progress := progress_event "job-1" "file-1" "downloading" 100 500 (mkSnapshot 0 0 0) 1 in
  (λ e, (Name e, FileID e, Data e !! "state", Data e !! "bytesCommitted")) <$> merged_with progress job
    = [(JobUpdated, "file-1", Some (VString "paused"), Some (VInt 700))]
  ∧ (λ e, (Name e, FileID e, Data e !! "state", Data e !! "bytesCommitted")) <$> merged_with job progress
    = [(SpeedUpdated, "file-1", Some (VString "downloading"), Some (VInt 100))].
Proof. split; reflexivity. Qed.
