(* ===== verification/App.v ===== *)
(** * The application: opening, serving and shutting down (internal/app/app.go, cmd/megadw/main.go)

    [Open] puts the database, the secret key, the settings, the transports, the
    event bus and the download manager together, over the models of each;
    [CloseContext] takes them apart; [main] runs the one, the server and the
    other.  What listening, the server and the manager's goroutines answer is
    arbitrary. *)

From Stdlib Require Import ZArith Lia Ascii.
From stdpp Require Import base list gmap sets strings numbers pretty.
From S2P Require Import Prelude GoStrings GoErrors Store Paths Queue Lifecycle Secrets SecretKey Migrate QuotaTimers Settings Runtime Network ManagerStart.

Definition DefaultStateDir : string := "/var/lib/megadw".
Definition DefaultDatabase : string := "megadw.sqlite3".
Definition DefaultSecret : string := "secret.key".

Record AppConfig := mkAppConfig {
  StateDir : string;
  DatabasePath : string;
  SecretKeyPath : string;
  ac_HTTPClient : bool;
  DeferDownloadStart : bool }.
#[export] Instance AppConfig_eta : Eta AppConfig := λ c,
  mkAppConfig (StateDir c) (DatabasePath c) (SecretKeyPath c) (ac_HTTPClient c) (DeferDownloadStart c).

Definition with_paths (config : AppConfig) : AppConfig :=
  let dir := or_policy (StateDir config) DefaultStateDir in
  config <| StateDir := dir |> <| DatabasePath := or_policy (DatabasePath config) (filepath_Join [dir; DefaultDatabase]) |>
    <| SecretKeyPath := or_policy (SecretKeyPath config) (filepath_Join [dir; DefaultSecret]) |>.

(** What is done, in its order. *)
Inductive action := BusMade | Listening | Answered | TransfersStarted | ManagerClosed | ManagerUnfinished | BusClosed
  | IdleClosed | PoolClosed | DatabaseClosed | ServerClosed.
#[export] Instance action_eq_dec : EqDecision action.
Proof. solve_decision. Defined.

Record App := mkApp {
  ap_Secrets : option SecretStore;
  ap_HTTPClient : option HTTPClient;
  ap_Transports : TransportPool;
  ap_Limits : Limits }.

Section app.
Context {Schema : Type} (script : Z → Schema → option Schema).
Context (range : ∀ A, gmap string A → list (string * A)) (paths_json : Codec PathsSettings) (downloads_json : Codec DownloadSettings)
  (network_json : Codec NetworkSettings) (ui_json : Codec UISettings).

(** The machine: the database file, its rows and the manager, the key file, and
    what was done.  [ho_closed] is [closeOnce] with its [closeErr]. *)
Record Host := mkHost {
  ho_file : SQLite (Schema := Schema);
  ho_disk : Disk;
  ho_process : Process;
  ho_log : list action;
  ho_closed : option (list error) }.

#[local] Instance Host_eta : Eta Host := λ h, mkHost (ho_file h) (ho_disk h) (ho_process h) (ho_log h) (ho_closed h).

Abbreviation host := (cmd error Host).

Definition on_file {A} (m : cmd error SQLite A) : host A := λ h, let (d, r) := m (ho_file h) in (h <| ho_file := d |>, r).
Definition on_disk {A} (m : cmd error Disk A) : host A := λ h, let (d, r) := m (ho_disk h) in (h <| ho_disk := d |>, r).
Definition on_process {A} (m : boot A) : host A := λ h, let (p, r) := m (ho_process h) in (h <| ho_process := p |>, r).
Definition on_settings {A} (m : store_cmd A) : host A := on_process (on_life (on_db m)).
Definition noted (a : action) (h : Host) : Host := h <| ho_log := ho_log h ++ [a] |>.
Definition note (a : action) : host () := modify (noted a).

(** [fmt.Errorf("...: %w", err)], and what is closed before an error returns. *)
Definition explain {A} (head : string) (m : host A) : host A := λ h,
  match m h with (h, Err e) => (h, Err (Wrapf head e)) | x => x end.
Definition or_else {A} (undo : host ()) (m : host A) : host A := λ h,
  match m h with (h, Err e) => ((undo h).1, Err e) | x => x end.

Definition close_database : host () := λ h,
  note DatabaseClosed (h <| ho_file := ho_file h <| sq_open := false |> |>).

Definition Get_settings (now : Z) : store_cmd Settings := Service_Get range paths_json downloads_json network_json ui_json now.
Definition New_service (now : Z) : store_cmd () := Settings.NewService range paths_json downloads_json network_json ui_json now.

Definition transport_config (value : Settings) : TransportConfig :=
  mkTransportConfig (duration (ConnectTimeoutSeconds (sNetwork value)) Second) (duration (ResponseHeaderTimeoutSeconds (sNetwork value)) Second)
    (MaxGlobalWorkers (sDownloads value)).

(** [make_dir] and [connect] are what creating the database's directory and
    connecting answer; [reading] and [order] are the parameters of
    [ManagerStart.Start]. *)
Context (make_dir connect : result error ()) (reading : result error Settings) (order : list string) (now : Z).

Definition app_Open (config : AppConfig) : host App :=
  let config := with_paths config in
  _ ← on_file (store_Open script (DatabasePath config) make_dir connect);
  or_else close_database (
    secrets ← (λ h, on_disk (OpenSecretStore (S (length (dk_events (ho_disk h)))) (negb (bool_decide (SecretKeyPath config = "")))) h);
    _ ← explain "initialize settings" (on_settings (New_service now));
    current ← explain "read network settings" (on_settings (Get_settings now));
    let transport := transport_config current in
    _ ← note BusMade;
    or_else (note BusClosed) (
      value ← catch (on_settings (Get_settings now));
      limits ← explain "initialize download manager" (lift_result (Runtime.NewManager
                 (mkManagerConfig true true true (Some value) 0 0 "" 0 0 0 0 0 0 0 (NormalRetryLimit (sDownloads current)))));
      _ ← (if DeferDownloadStart config then mret ()
           else or_else (note ManagerClosed) (explain "start download manager" (on_process (Start (Some reading) order))));
      mret (mkApp secrets (if ac_HTTPClient config then None else Some (NewHTTPClient transport)) (NewTransportPool transport) limits))).

(** [finished] is what closing the manager answers: that its goroutines are done,
    or that the deadline came first. *)
Definition CloseContext (finished : result error ()) : host (list error) := λ h,
  match ho_closed h with
  | Some errs => (h, Ok errs)
  | None =>
      (errs ← (match finished with
               | Ok _ => _ ← note ManagerClosed; mret []
               | Err e => _ ← note ManagerUnfinished; mret [Wrapf "close download manager" e]
               end);
       _ ← note BusClosed;
       _ ← note IdleClosed;
       _ ← note PoolClosed;
       errs ← (match finished with
               | Ok _ => _ ← close_database; mret errs
               | Err _ => mret (errs ++ [New "database left open because download manager did not finish"])
               end);
       _ ← modify (λ h, h <| ho_closed := Some errs |>);
       mret errs) h
  end.

(** How the server ends: a signal, or by itself. *)
Inductive ending := Signalled (finished : result error ()) | ServerEnded.

(** [main] after its flags, up to the exit code.  The last arguments are what the
    embedded files, listening and the health check of the own address answer. *)
Definition main_run (config : AppConfig) (web listen health : result error ()) (ended : ending) : host Z :=
  let abandon := _ ← CloseContext (Ok ()); mret 1 in
  opened ← catch (app_Open (config <| DeferDownloadStart := true |>));
  match opened with
  | Err _ => mret 1
  | Ok _ =>
    match web, listen with
    | Err _, _ | _, Err _ => abandon
    | Ok _, Ok _ =>
      _ ← note Listening;
      match health with
      | Err _ => _ ← note ServerClosed; abandon
      | Ok _ =>
        _ ← note Answered;
        started ← catch (on_process (Start (Some reading) order));
        match started with
        | Err _ => _ ← note ServerClosed; abandon
        | Ok _ =>
          _ ← note TransfersStarted;
          match ended with
          | Signalled finished => _ ← CloseContext finished; _ ← note ServerClosed; mret 0
          | ServerEnded => _ ← CloseContext (Ok ()); mret 0
          end
        end
      end
    end
  end.

(** ** What opening leaves *)

Lemma on_process_inv {A} (m : boot A) h h' r : on_process m h = (h', r) →
  ho_file h' = ho_file h ∧ ho_disk h' = ho_disk h ∧ ho_log h' = ho_log h ∧ ho_closed h' = ho_closed h.
Proof. unfold on_process. destruct (m (ho_process h)). intros H. by simplify_eq. Qed.

Lemma explain_inv {A} head (m : host A) h h' r : explain head m h = (h', r) →
  ∃ r0, m h = (h', r0) ∧ match r with Ok a => r0 = Ok a | Err _ => ∃ e, r0 = Err e end.
Proof. unfold explain. destruct (m h) as [h1 [a|e]]; intros H; simplify_eq; eexists; split; eauto. Qed.

Lemma or_else_inv {A} (undo : host ()) (m : host A) h h' r : or_else undo m h = (h', r) →
  ∃ h1, m h = (h1, r) ∧ h' = match r with Ok _ => h1 | Err _ => (undo h1).1 end.
Proof. unfold or_else. destruct (m h) as [h1 [a|e]]; intros H; simplify_eq; by eexists. Qed.

(** Steps that touch neither the database file, the key file nor the log. *)
Definition inert {A} (m : host A) : Prop := ∀ h, let h' := (m h).1 in
  ho_file h' = ho_file h ∧ ho_disk h' = ho_disk h ∧ ho_log h' = ho_log h ∧ ho_closed h' = ho_closed h.

Lemma inert_process {A} (m : boot A) : inert (on_process m).
Proof. intros h. destruct (on_process m h) as [h' r] eqn:E. by apply on_process_inv in E. Qed.
Lemma inert_explain {A} head (m : host A) : inert m → inert (explain head m).
Proof. intros Hm h. specialize (Hm h). unfold explain. by destruct (m h) as [h' [a|e]]. Qed.

Definition same_host (h h' : Host) : Prop :=
  ho_file h' = ho_file h ∧ ho_disk h' = ho_disk h ∧ ho_log h' = ho_log h ∧ ho_closed h' = ho_closed h.

Lemma inert_run {A} (m : host A) h h' r : inert m → m h = (h', r) → same_host h h'.
Proof. intros Hm H. specialize (Hm h). by rewrite H in Hm. Qed.

Record ready (h : Host) : Prop := {
  rd_closed : sq_open (ho_file h) = false;
  rd_quiet : Forall event_quiet (dk_events (ho_disk h));
  rd_random : length (dk_random (ho_disk h)) = 32%nat;
  rd_log : ho_log h = [];
  rd_once : ho_closed h = None }.

(** How far an opening that fails has come. *)
Definition given_up (log : list action) : Prop :=
  log ∈ [[]; [DatabaseClosed]; [BusMade; BusClosed; DatabaseClosed]; [BusMade; ManagerClosed; BusClosed; DatabaseClosed]].

Record opened empty (h : Host) (app : App) : Prop := {
  op_open : sq_open (ho_file h) = true;
  op_pragmas : sq_pragmas (ho_file h) = pragmas;
  op_schema : reached script empty {[1; 2]} (ho_file h);
  op_key : ∃ key, length key = 32%nat ∧ ap_Secrets app = Some (mkSecretStore key) ∧ dk_node (ho_disk h) = Regular key;
  op_limits : limits_ok (ap_Limits app);
  op_log : ho_log h = [BusMade];
  op_once : ho_closed h = None }.

(** The part after the bus was made. *)
Lemma with_bus_spec (defer : bool) current secrets http pool h h' r :
  or_else (note BusClosed) (
      value ← catch (on_settings (Get_settings now));
      limits ← explain "initialize download manager" (lift_result (Runtime.NewManager
                 (mkManagerConfig true true true (Some value) 0 0 "" 0 0 0 0 0 0 0 (NormalRetryLimit (sDownloads current)))));
      _ ← (if defer then mret ()
           else or_else (note ManagerClosed) (explain "start download manager" (on_process (Start (Some reading) order))));
      mret (mkApp secrets http pool limits)) h = (h', r) →
  ho_file h' = ho_file h ∧ ho_disk h' = ho_disk h ∧ ho_closed h' = ho_closed h
  ∧ match r with
    | Ok app => ho_log h' = ho_log h ∧ ap_Secrets app = secrets ∧ limits_ok (ap_Limits app)
    | Err _ => ho_log h' = ho_log h ++ [BusClosed] ∨ ho_log h' = ho_log h ++ [ManagerClosed; BusClosed]
    end.
Proof.
  intros (h1 & H & ->)%or_else_inv. unfold mbind at 1, cmd_bind at 1, catch in H.
  destruct (on_settings (Get_settings now) h) as [h2 value] eqn:E2. cbn [fst snd] in H.
  apply inert_run in E2 as (F2 & D2 & L2 & C2); [|apply inert_process].
  unfold mbind at 1, cmd_bind at 1 in H. destruct (explain _ _ h2) as [h3 limits] eqn:E3.
  apply explain_inv in E3 as (r0 & E3 & E3'). unfold lift_result in E3. injection E3 as <- <-.
  destruct limits as [limits|e]; [|injection H as <- <-; cbn; rewrite F2, D2, L2, C2; by split_and!; auto].
  apply NewManager_limits in E3'. unfold mbind, cmd_bind in H.
  destruct defer; [injection H as <- <-; by rewrite F2, D2, L2, C2|].
  destruct (or_else (note ManagerClosed) _ h2) as [h4 started] eqn:E4. apply or_else_inv in E4 as (h5 & E4 & ->).
  apply inert_run in E4 as (F5 & D5 & L5 & C5); [|apply inert_explain, inert_process].
  destruct started as [[]|e]; injection H as <- <-; cbn; rewrite F5, D5, L5, C5, F2, D2, L2, C2; split_and!; try done.
  right. by rewrite <-(assoc_L (++)).
Qed.

Lemma key_path_named config : bool_decide (SecretKeyPath (with_paths config) = "") = false.
Proof.
  apply bool_decide_eq_false_2. cbn. unfold or_policy at 1. case_bool_decide as E; [|done]. cbn [filepath_Join].
  case_bool_decide; [case_bool_decide; [done|apply Clean_nonempty]|apply Clean_nonempty].
Qed.

(** Closing the database after a failed step of [app_Open]. *)
Lemma gives_up empty h :
  consistent script empty (ho_file h) → ho_closed h = None →
  ho_log h = [] ∨ ho_log h = [BusMade; BusClosed] ∨ ho_log h = [BusMade; ManagerClosed; BusClosed] →
  let h' := (close_database h).1 in
  consistent script empty (ho_file h') ∧ sq_open (ho_file h') = false ∧ given_up (ho_log h') ∧ ho_closed h' = None.
Proof.
  intros Hc Hcl Hl. unfold close_database, note, modify. cbn. split_and!; [exact Hc|done| |done].
  unfold given_up. destruct Hl as [-> |[-> | ->]]; cbn; set_solver.
Qed.

Lemma app_Open_spec empty config h h' r :
  ready h → consistent script empty (ho_file h) → app_Open config h = (h', r) →
  consistent script empty (ho_file h')
  ∧ match r with
    | Ok app => opened empty h' app
    | Err _ => sq_open (ho_file h') = false ∧ given_up (ho_log h') ∧ ho_closed h' = None
    end.
Proof.
  intros [Hcl Hq Hrnd Hlog Honce] Hc H. unfold app_Open in H. cbv zeta in H. rewrite key_path_named in H. cbn [negb] in H. set (c := with_paths config) in *.
  unfold mbind at 1, cmd_bind at 1, on_file in H.
  destruct (store_Open script (DatabasePath c) make_dir connect (ho_file h)) as [d r1] eqn:E1.
  destruct (store_Open_cases script empty _ _ _ _ _ _ Hc Hcl E1) as (Hc1 & Ho1 & Hok1 & _).
  destruct r1 as [[]|e].
  2: { injection H as <- <-. split; [exact Hc1|]. split; [|split; [|exact Honce]].
       - cbn. apply not_true_iff_false. intros Ht. by apply Ho1 in Ht.
       - unfold given_up. cbn. rewrite Hlog. by left. }
  apply or_else_inv in H as (h1 & H & ->). cbn [ho_disk update_field] in H.
  unfold mbind at 1, cmd_bind at 1, on_disk in H. cbn [ho_disk] in H.
  change (ho_disk (h <| ho_file := d |>)) with (ho_disk h) in H.
  match type of H with context [OpenSecretStore ?f ?n (ho_disk h)] => destruct (OpenSecretStore f n (ho_disk h)) as [k secrets] eqn:E2 end.
  destruct (Hok1 eq_refl) as [Hprag Hreach].
  destruct (OpenSecretStore_kept _ _ _ _ Hq Hrnd (le_n _) E2) as (Hne & _ & Hkey).
  destruct secrets as [secrets|e].
  2: { injection H as <- <-. by apply gives_up; [| |left]. }
  destruct secrets as [secrets|]; [|done].
  destruct (Hkey secrets eq_refl) as (key & Hk & -> & Hnode & _).
  set (h2 := h <| ho_file := d |> <| ho_disk := k |>) in H.
  unfold mbind at 1, cmd_bind at 1 in H. destruct (explain "initialize settings" _ h2) as [h3 r3] eqn:E3.
  apply inert_run in E3 as (F3 & D3 & L3 & C3); [|apply inert_explain, inert_process].
  assert (ho_file h3 = d ∧ ho_disk h3 = k ∧ ho_log h3 = [] ∧ ho_closed h3 = None) as (F3' & D3' & L3' & C3')
    by (rewrite F3, D3, L3, C3; by split_and!). clear F3 D3 L3 C3 h2.
  destruct r3 as [[]|e]; [|injection H as <- <-; apply gives_up; rewrite ?F3'; auto].
  unfold mbind at 1, cmd_bind at 1 in H. destruct (explain "read network settings" _ h3) as [h4 r4] eqn:E4.
  apply inert_run in E4 as (F4 & D4 & L4 & C4); [|apply inert_explain, inert_process].
  rewrite F3' in F4. rewrite D3' in D4. rewrite L3' in L4. rewrite C3' in C4.
  destruct r4 as [current|e]; [|injection H as <- <-; apply gives_up; rewrite ?F4; auto].
  unfold mbind at 1, cmd_bind at 1, note at 1, modify in H. apply with_bus_spec in H as (F5 & D5 & C5 & Hr).
  cbn [ho_file ho_disk ho_closed ho_log update_field] in F5, D5, C5, Hr.
  change (ho_file h1 = ho_file h4) in F5. change (ho_disk h1 = ho_disk h4) in D5. change (ho_closed h1 = ho_closed h4) in C5.
  rewrite F4 in F5. rewrite D4 in D5. rewrite C4 in C5. destruct r as [app|e].
  - destruct Hr as (Hl & Hs & Hlim). change (ho_log h1 = ho_log h4 ++ [BusMade]) in Hl. rewrite L4 in Hl. cbn in Hl.
    split; [by rewrite F5|]. split; rewrite ?F5, ?D5; try done; [by apply Ho1|]. by exists key.
  - assert (ho_log h1 = [BusMade; BusClosed] ∨ ho_log h1 = [BusMade; ManagerClosed; BusClosed]) as Hl2.
    { destruct Hr as [Hl|Hl]; [left; change (ho_log h1 = (ho_log h4 ++ [BusMade]) ++ [BusClosed]) in Hl
      |right; change (ho_log h1 = (ho_log h4 ++ [BusMade]) ++ [ManagerClosed; BusClosed]) in Hl]; by rewrite L4 in Hl. }
    apply gives_up; rewrite ?F5; auto.
Qed.

(** ** Closing *)

Lemma CloseContext_spec finished h : ho_closed h = None →
  ∃ h' errs, CloseContext finished h = (h', Ok errs) ∧ ho_closed h' = Some errs
  ∧ match finished with
    | Ok _ => errs = [] ∧ sq_open (ho_file h') = false
        ∧ ho_log h' = ho_log h ++ [ManagerClosed; BusClosed; IdleClosed; PoolClosed; DatabaseClosed]
    | Err _ => errs ≠ [] ∧ ho_file h' = ho_file h ∧ ho_log h' = ho_log h ++ [ManagerUnfinished; BusClosed; IdleClosed; PoolClosed]
    end.
Proof.
  intros Hc. unfold CloseContext. rewrite Hc. destruct finished as [[]|e];
    unfold close_database, note, modify, mbind, cmd_bind, mret, cmd_ret; cbn; do 2 eexists; (split; [reflexivity|]);
    cbn; (split; [done|]); rewrite <-!(assoc_L (++)); by split_and!.
Qed.

(** [a] is before every [b]. *)
Definition precedes (a b : action) (log : list action) : bool :=
  match list_find (eq b) log with Some (i, _) => bool_decide (a ∈ take i log) | None => true end.

(** The order in which things are started and stopped. *)
Definition orderly (log : list action) : bool :=
  precedes Listening Answered log && precedes Answered TransfersStarted log
  && (precedes ManagerClosed DatabaseClosed log || negb (bool_decide (TransfersStarted ∈ log)))
  && precedes BusMade BusClosed log && (precedes BusClosed DatabaseClosed log || negb (bool_decide (BusMade ∈ log)))
  && bool_decide (NoDup log).

(** Settles what is claimed of a log that is written out. *)
Ltac settle :=
  cbn [Datatypes.app]; split; [by vm_compute|]; split; [split; [first [done|intros _; set_solver]|first [done|intros ?; set_solver]]|];
  split; [first [by left|right; split; set_solver]|let Hin := fresh in intros Hin; first [by right|left; set_solver|exfalso; clear - Hin; set_solver]].

(** What is left when [main] closes the application [m] has prepared. *)
Lemma closes_after code (m : host ()) h h1 : ho_closed h1 = None → m h = (h1, Ok ()) →
  ∃ h', ((_ ← m; _ ← CloseContext (Ok ()); mret code) : host Z) h = (h', Ok code) ∧ sq_open (ho_file h') = false
    ∧ ho_log h' = ho_log h1 ++ [ManagerClosed; BusClosed; IdleClosed; PoolClosed; DatabaseClosed].
Proof.
  intros Hc Em. destruct (CloseContext_spec (Ok ()) h1 Hc) as (h' & errs & E & _ & _ & Ho & Hl).
  exists h'. unfold mbind, cmd_bind. by rewrite Em, E.
Qed.

Lemma main_run_spec empty config web listen health ended h :
  ready h → consistent script empty (ho_file h) →
  ∃ h' code, main_run config web listen health ended h = (h', Ok code)
    ∧ orderly (ho_log h') = true ∧ (code = 0 ↔ TransfersStarted ∈ ho_log h')
    ∧ (sq_open (ho_file h') = false ∨ ManagerUnfinished ∈ ho_log h' ∧ DatabaseClosed ∉ ho_log h')
    ∧ (TransfersStarted ∈ ho_log h' → ServerClosed ∈ ho_log h' ∨ ended = ServerEnded).
Proof.
  intros Hr Hc. unfold main_run. set (config' := config <| DeferDownloadStart := true |>).
  unfold mbind at 1, cmd_bind at 1, catch at 1. destruct (app_Open config' h) as [h1 r1] eqn:E1.
  destruct (app_Open_spec empty config' h h1 r1 Hr Hc E1) as [_ Hres]. cbn [fst snd].
  destruct r1 as [app|e].
  2: { destruct Hres as (Ho & Hg & _). exists h1, 1. split; [done|]. unfold given_up in Hg. rewrite !elem_of_cons, elem_of_nil in Hg.
       destruct Hg as [E|[E|[E|[E|[]]]]]; rewrite E; (split; [by vm_compute|]); (split; [split; [done|set_solver]|]); (split; [by left|set_solver]). }
  destruct Hres as [_ _ _ _ _ Hl Hcl].
  destruct web as [[]|e]; [destruct listen as [[]|e]|].
  2,3: destruct (closes_after 1 (mret ()) h1 h1 Hcl eq_refl) as (hz & Ez & Hz & Lz); exists hz, 1; (split; [exact Ez|]); rewrite Lz, Hl; settle.
  unfold mbind at 1, cmd_bind at 1, note at 1, modify at 1. set (h2 := noted Listening h1).
  assert (ho_log h2 = [BusMade; Listening] ∧ ho_closed h2 = None) as [Hl2 Hcl2] by (split; [cbn; by rewrite Hl|exact Hcl]). clearbody h2.
  destruct health as [[]|e].
  2: { destruct (closes_after 1 (note ServerClosed) h2 (noted ServerClosed h2) Hcl2 eq_refl) as (hz & Ez & Hz & Lz).
       exists hz, 1. split; [exact Ez|]. cbn in Lz. rewrite Lz, Hl2. settle. }
  unfold mbind at 1, cmd_bind at 1, note at 1, modify at 1. set (h3 := noted Answered h2).
  assert (ho_log h3 = [BusMade; Listening; Answered] ∧ ho_closed h3 = None) as [Hl3 Hcl3] by (split; [cbn; by rewrite Hl2|exact Hcl2]). clearbody h3.
  unfold mbind at 1, cmd_bind at 1, catch at 1. destruct (on_process _ h3) as [h4 r4] eqn:E4.
  apply inert_run in E4 as (_ & _ & Hl4 & Hcl4); [|apply inert_process]. rewrite Hl3 in Hl4. rewrite Hcl3 in Hcl4. cbn [fst snd].
  destruct r4 as [[]|e].
  2: { destruct (closes_after 1 (note ServerClosed) h4 (noted ServerClosed h4) Hcl4 eq_refl) as (hz & Ez & Hz & Lz).
       exists hz, 1. split; [exact Ez|]. cbn in Lz. rewrite Lz, Hl4. settle. }
  unfold mbind at 1, cmd_bind at 1, note at 1, modify at 1. set (h5 := noted TransfersStarted h4).
  assert (ho_log h5 = [BusMade; Listening; Answered; TransfersStarted] ∧ ho_closed h5 = None) as [Hl5 Hcl5]
    by (split; [cbn; by rewrite Hl4|exact Hcl4]). clearbody h5.
  destruct ended as [finished|].
  2: { destruct (closes_after 0 (mret ()) h5 h5 Hcl5 eq_refl) as (hz & Ez & Hz & Lz). exists hz, 0. split; [exact Ez|]. rewrite Lz, Hl5. settle. }
  destruct (CloseContext_spec finished h5 Hcl5) as (h6 & errs & E6 & _ & H6). unfold mbind, cmd_bind. rewrite E6.
  unfold note, modify, mret, cmd_ret. do 2 eexists. split; [reflexivity|]. cbn [ho_log ho_file update_field].
  destruct finished as [[]|e]; destruct H6 as (_ & Hf & Hl6);
    match goal with |- context [orderly ?l] => change l with (ho_log h6 ++ [ServerClosed]) end; rewrite Hl6, Hl5; settle.
Qed.

(** C21: However the parts fail, an application that cannot be opened has closed
    what it opened, and one that is open has a migrated database, a secret key
    and limits in the safe ranges.  The program starts transfers only once its
    own address answers; it closes everything once, the database after the
    manager; and when it ends the database is closed unless the manager did not
    finish in time.  Closing again does nothing and answers the same. *)
Theorem app_starts_and_stops empty config web listen health ended h :
  ready h → consistent script empty (ho_file h) →
  (∀ h' r, app_Open config h = (h', r) →
     consistent script empty (ho_file h')
     ∧ match r with
       | Ok app => opened empty h' app
       | Err _ => sq_open (ho_file h') = false ∧ orderly (ho_log h') = true ∧ (BusMade ∈ ho_log h' → BusClosed ∈ ho_log h')
       end)
  ∧ (∃ h' code, main_run config web listen health ended h = (h', Ok code)
     ∧ orderly (ho_log h') = true ∧ (code = 0 ↔ TransfersStarted ∈ ho_log h')
     ∧ (sq_open (ho_file h') = false ∨ ManagerUnfinished ∈ ho_log h' ∧ DatabaseClosed ∉ ho_log h')
     ∧ (TransfersStarted ∈ ho_log h' → ServerClosed ∈ ho_log h' ∨ ended = ServerEnded))
  ∧ (∀ finished finished' h1 errs, CloseContext finished h = (h1, Ok errs) → CloseContext finished' h1 = (h1, Ok errs)).
Proof.
  intros Hr Hc. split; [|split].
  - intros h' r H. destruct (app_Open_spec empty config h h' r Hr Hc H) as [Hc' Hres]. split; [done|].
    destruct r as [app|e]; [done|]. destruct Hres as (Ho & Hg & _). split; [done|].
    unfold given_up in Hg. rewrite !elem_of_cons, elem_of_nil in Hg.
    destruct Hg as [-> |[-> |[-> |[-> |[]]]]]; (split; [by vm_compute|set_solver]).
  - by eapply main_run_spec.
  - intros finished finished' h1 errs H. destruct (ho_closed h) as [errs0|] eqn:E; [by destruct (rd_once _ Hr); rewrite (rd_once _ Hr) in E|].
    destruct (CloseContext_spec finished h E) as (h2 & errs' & E2 & Hc2 & _). rewrite E2 in H. injection H as <- <-.
    unfold CloseContext. by rewrite Hc2.
Qed.
End app.

(** ** The hosts requests may name (cmd/megadw/main.go) *)

Section hosts.
(** [ParseIP] gives an address and it is a loopback one; the addresses of the
    interfaces, when they can be read. *)
Context (loopback : string → bool) (interfaces : option (list string)).

Definition host_key (host : string) : string := ToLower (TrimSpace host).
Definition add_host (seen : gset string) (host : string) : gset string :=
  if bool_decide (host_key host = "") then seen else {[host_key host]} ∪ seen.

Definition wildcard (host : string) : bool := bool_decide (host = "") || bool_decide (host = "0.0.0.0") || bool_decide (host = "::").

(** The addresses of the own listener. *)
Definition own_hosts (host port : string) : list string :=
  (if wildcard host then [] else [JoinHostPort host port])
  ++ (if wildcard host || loopback host
      then [JoinHostPort "localhost" port; JoinHostPort "127.0.0.1" port; JoinHostPort "::1" port] else [])
  ++ (if wildcard host then match interfaces with Some ips => (λ ip, JoinHostPort ip port) <$> ips | None => [] end else []).

Definition allowedHosts (listenAddress configured : string) : gset string :=
  let seen := foldl add_host ∅ (Split configured ","%char) in
  match SplitHostPort listenAddress with
  | Ok (host, port) => foldl add_host seen (own_hosts host port)
  | Err _ => seen
  end.

Lemma foldl_add_host l seen x : x ∈ foldl add_host seen l ↔ x ∈ seen ∨ x ≠ "" ∧ ∃ host, host ∈ l ∧ host_key host = x.
Proof.
  revert seen. induction l as [|host l IH]; intros seen; cbn [foldl].
  { split; [by left|]. intros [?|(_ & ? & ?%elem_of_nil & _)]; done. }
  rewrite IH. unfold add_host. setoid_rewrite elem_of_cons. case_bool_decide as E; [|rewrite elem_of_union, elem_of_singleton].
  - split; [naive_solver|]. intros [?|(Hx & h & [->|Hh] & <-)]; [by left|done|right; eauto].
  - split; [naive_solver|]. intros [?|(Hx & h & [->|Hh] & <-)]; [by auto|by auto|right; eauto].
Qed.

(** A request may name the configured hosts and, with the port listened on, the
    address listened on and, for a loopback or wildcard address, the loopback
    names and the interfaces, and no other. *)
Theorem allowedHosts_exact listenAddress configured x :
  x ∈ allowedHosts listenAddress configured ↔
  x ≠ "" ∧ ∃ host, host_key host = x
    ∧ (host ∈ Split configured ","%char ∨ ∃ own port, SplitHostPort listenAddress = Ok (own, port) ∧ host ∈ own_hosts own port).
Proof.
  unfold allowedHosts. destruct (SplitHostPort listenAddress) as [[own port]|e]; rewrite ?foldl_add_host.
  - split; [intros [[?%not_elem_of_empty|(? & h & ? & <-)]|(? & h & ? & <-)]; naive_solver|].
    intros (? & h & <- & [?|(o & p & [= <- <-] & ?)]); eauto 8.
  - split; [intros [?%not_elem_of_empty|(? & h & ? & <-)]; naive_solver|]. intros (? & h & <- & [?|(? & ? & ? & _)]); [eauto 6|done].
Qed.
End hosts.

Example default_hosts :
  allowedHosts (λ h, bool_decide (h = "127.0.0.1")) None "127.0.0.1:8080" " Box.local:80,"
  = {["box.local:80"; "localhost:8080"; "127.0.0.1:8080"; "[::1]:8080"]}.
Proof. vm_compute. reflexivity. Qed.

(** ** Witness *)

Definition sample_host : Host := mkHost (new_file []) (first_launch []) sample_process [] None.
Definition sample_app_config : AppConfig := mkAppConfig "" "" "" false false.

Lemma app_starts_and_stops_witness :
  let run := main_run append_version (λ A, @map_to_list _ _ _ _) sample_paths_json sample_downloads_json sample_network_json sample_ui_json
    (Ok ()) (Ok ()) (Ok Default) [] 5 sample_app_config (Ok ()) (Ok ()) (Ok ()) (Signalled (Ok ())) sample_host in
  ∃ h', run = (h', Ok 0) ∧ orderly (ho_log h') = true ∧ TransfersStarted ∈ ho_log h'.
Proof.
  cbv zeta.
  destruct (app_starts_and_stops append_version (λ A, @map_to_list _ _ _ _) sample_paths_json sample_downloads_json sample_network_json
    sample_ui_json (Ok ()) (Ok ()) (Ok Default) [] 5 [] sample_app_config (Ok ()) (Ok ()) (Ok ()) (Signalled (Ok ())) sample_host)
    as (_ & (h' & code & Hrun & Ho & Hc & _) & _).
  - split; [done|constructor|done|done|done].
  - done.
  - exists h'. assert (code = 0) as ->.
    { pose proof (f_equal snd Hrun) as E. vm_compute in E. by injection E. }
    split; [exact Hrun|]. split; [exact Ho|]. by apply Hc.
Defined.
