(* ===== verification/Redact.v ===== *)
(** * Log redaction (internal/logging/redact.go)

    What the logger replaces before an attribute is written.  Parsing and
    printing URLs is the standard library's net/url, given by its law. *)

From Stdlib Require Import ZArith Lia Ascii.
From stdpp Require Import base list gmap strings numbers pretty.
From S2P Require Import Prelude GoStrings GoErrors.

Definition redactedValue : string := "[REDACTED]".

(** [strings.Fields]; [current] is the field under way. *)
Fixpoint fields_go (fuel : nat) (current s : string) : list string :=
  let emit := if bool_decide (current = "") then [] else [current] in
  match fuel, s with
  | S fuel, String c s' =>
      match List.find (HasPrefix s) space_encodings with
      | Some e => emit ++ fields_go fuel "" (drop_str (String.length e) s)
      | None => fields_go fuel (current +:+ String c "") s'
      end
  | _, _ => emit
  end.
Definition Fields (s : string) : list string := fields_go (String.length s) "" s.

(** [strings.Trim] with a set of ASCII characters. *)
Fixpoint trim_chars (set s : string) : string :=
  match s with
  | String c s' => if str_elem c set then trim_chars set s' else s
  | EmptyString => ""
  end.
Definition Trim (s set : string) : string := rev_str (trim_chars set (rev_str (trim_chars set s))).

Definition sensitive_key (key : string) : bool :=
  let key := ToLower key in
  bool_decide (key ∈ ["password"; "secret"; "token"; "session"; "credential"; "link_key"; "key"]) || HasSuffix key "_ciphertext".

(** The value of an attribute: a string, an error, or something else. *)
Inductive attr_value {A} := AString (s : string) | AError (e : error) | AOther (a : A).
Arguments attr_value : clear implicits.

Section redact.
(** A [url.URL] by its scheme and its fragment, and [String]. *)
Context {U A : Type} (url_Parse : string → result error U) (url_Scheme url_Fragment : U → string)
  (set_fragment : string → U → U) (url_String : U → string).

Definition RedactMEGALink (raw : string) : string :=
  match url_Parse (TrimSpace raw) with
  | Ok parsed => if bool_decide (url_Fragment parsed = "") then raw else url_String (set_fragment redactedValue parsed)
  | Err _ => raw
  end.

Definition redact_field (field : string) : string :=
  match url_Parse (Trim field "()[]{}<>,;") with
  | Ok parsed => if bool_decide (url_Fragment parsed ≠ "") && bool_decide (url_Scheme parsed ≠ "") then RedactMEGALink field else field
  | Err _ => field
  end.

Definition RedactText (value : string) : string :=
  match Fields value with [] => value | fields => Join (redact_field <$> fields) " " end.

Definition replaceAttr (key : string) (value : attr_value A) : attr_value A :=
  if sensitive_key key then AString redactedValue
  else match value with
       | AString s => AString (RedactText s)
       | AError e => AString (RedactText (Error e))
       | AOther a => AOther a
       end.

(** A URL that was parsed and given the marker is printed with the marker. *)
Context (reparse : ∀ field u, url_Parse field = Ok u →
  ∃ u', url_Parse (url_String (set_fragment redactedValue u)) = Ok u' ∧ url_Fragment u' = redactedValue).

(** A field that is not surrounded by the trimmed characters or by space. *)
Definition bare (field : string) : Prop := Trim field "()[]{}<>,;" = field ∧ TrimSpace field = field.

(** A bare field of a text either is no link with a fragment, and stays, or it
    is replaced by a link whose fragment is the marker; a sensitive attribute
    keeps nothing of its value. *)
Theorem redacted_links field key value :
  bare field →
  (redact_field field = field ∧ (∀ u, url_Parse field = Ok u → url_Scheme u = "" ∨ url_Fragment u = "")
   ∨ ∃ u, url_Parse (redact_field field) = Ok u ∧ url_Fragment u = redactedValue)
  ∧ (sensitive_key key = true → replaceAttr key value = AString redactedValue).
Proof.
  intros [H1 H2]. split; [|unfold replaceAttr; by intros ->]. unfold redact_field, RedactMEGALink. rewrite H1, H2. destruct (url_Parse field) as [u|e] eqn:E; [|by left].
  destruct (bool_decide (url_Fragment u ≠ "")) eqn:Ef; [apply bool_decide_eq_true in Ef|apply bool_decide_eq_false in Ef];
    [destruct (bool_decide (url_Scheme u ≠ "")) eqn:Es; [apply bool_decide_eq_true in Es|apply bool_decide_eq_false in Es]|]; cbn [andb].
  - right. rewrite bool_decide_eq_false_2 by done. by eapply reparse.
  - left. split; [done|]. intros u' [= <-]. left. by apply dec_stable.
  - left. split; [done|]. intros u' [= <-]. right. by apply dec_stable.
Qed.
End redact.

(** A link in parentheses passes the test, which trims them, but not the
    replacement, which does not: [url.Parse] refuses "(https" as the first path
    segment, so that the field is kept with its key. *)
Definition sample_parse (s : string) : result error (string * string) :=
  let '(before, fragment, _) := Cut s "#" in
  if HasPrefix before "https://" then Ok ("https", fragment)
  else Err (New "first path segment in URL cannot contain colon").

Example link_in_parentheses :
  RedactText sample_parse fst snd (λ f u, (u.1, f)) (λ u, "https://mega.nz/file/a#" +:+ u.2) "see (https://mega.nz/file/a#key)"
    = "see (https://mega.nz/file/a#key)"
  ∧ RedactText sample_parse fst snd (λ f u, (u.1, f)) (λ u, "https://mega.nz/file/a#" +:+ u.2) "see https://mega.nz/file/a#key"
    = "see https://mega.nz/file/a#[REDACTED]".
Proof. vm_compute. by split. Qed.
