(* ===== verification/ApiControl.v ===== *)
(** * Settings, listings and control of downloads over the API (internal/api/api.go)

    The handlers that read and replace the settings, list and show downloads,
    and pause, resume, cancel and delete them.  A handler that meets a running
    job waits for it to stop; what the rest of the program does until then, or
    the request being given up, is the parameter [stopped]; [Downloads_Speed] is
    what the speed meters ([Progress]) answer. *)

From Stdlib Require Import ZArith Lia Ascii.
From stdpp Require Import base list gmap strings numbers pretty.
From S2P Require Import Prelude GoStrings GoErrors Store StoreDownloads StoreAccounts FsRoot FsRootOps Secrets Queue Lifecycle Folder MegaAccounts Settings Network Runtime ApiServer ApiDownloads ApiAccounts LifecycleRun Float64 Speed Progress.

(** The server with the limits of the download manager. *)
Record Daemon := mkDaemon { dm_server : Server; dm_limits : Limits }.
#[export] Instance Daemon_eta : Eta Daemon := λ d, mkDaemon (dm_server d) (dm_limits d).

Abbreviation control := (cmd HTTPError Daemon).

Definition on_server {A} (m : handler A) : control A := λ d,
  let (s, r) := m (dm_server d) in (d <| dm_server := s |>, r).

(** A download with what is shown beside it. *)
Record DownloadView := mkView {
  vw_record : DownloadJobRecord;
  vw_AccountLabel : string;
  vw_ProxyLabel : string;
  vw_SpeedBytesPerSecond : float64;
  vw_ETASeconds : Z }.

(** [strconv.ParseBool]. *)
Definition ParseBool (s : string) : option bool :=
  if bool_decide (s ∈ ["1"; "t"; "T"; "true"; "TRUE"; "True"]) then Some true
  else if bool_decide (s ∈ ["0"; "f"; "F"; "false"; "FALSE"; "False"]) then Some false
  else None.

Section control.
Context (pf : Platform) (config : Config) (stopped : string → life ()) (diskFreeBytes : string → Z)
  (Downloads_Speed : string → SpeedSnapshot).

(** ** Settings *)

Definition settings_there : handler () :=
  require (cfg_Settings config) StatusInternalServerError "settings_unavailable" "settings are unavailable".

Definition handleGetSettings : handler (Z * Settings) :=
  _ ← settings_there;
  now ← handler_now;
  value ← or_write (on_rows (current_settings pf now))
            (λ _, mkHTTPError StatusInternalServerError "settings_error" "could not read settings");
  writeJSON StatusOK value.

Definition settings_invalid (e : error) : HTTPError := mkHTTPError StatusBadRequest "settings_invalid" (Error e).

Definition Settings_Update (value : Settings) (now : Z) : store_cmd () :=
  Service_Update (range pf) (paths_json pf) (downloads_json pf) (network_json pf) (ui_json pf) value now.

(** The checks before anything is written, and the write. *)
Definition store_settings (value : Settings) : handler () :=
  _ ← or_write (lift_result (Settings_Validate value)) settings_invalid;
  _ ← (if Configured (sPaths value)
       then or_write (on_files (validateTransferRoots (device pf) (sPaths value))) settings_invalid
       else mret ());
  now ← handler_now;
  or_write (on_rows (Settings_Update value now)) settings_invalid.

Definition handlePutSettings (body : Body Settings) : control (Z * Settings) :=
  _ ← on_server settings_there;
  value ← on_server (decodeJSON body);
  _ ← on_server (store_settings value);
  _ ← modify (λ d, if cfg_Downloads config then d <| dm_limits := ApplySettings value (dm_limits d) |> else d);
  _ ← on_server (publish (SettingsUpdated value));
  on_server (writeJSON StatusOK value).

(** ** Reading downloads *)

Definition storage_there : handler () :=
  require (cfg_DB config) StatusInternalServerError "storage_unavailable" "download storage is unavailable".

(** A label that cannot be read is left out. *)
Definition label {A} (id : string) (read : store_cmd A) (text : A → string) : handler string :=
  if bool_decide (id = "") then mret ""
  else
    r ← attempt (on_rows read);
    mret (match r with Ok a => text a | Err _ => "" end).

Definition decorateDownload (record : DownloadJobRecord) : handler DownloadView :=
  account ← label (jAccountID (rJob record)) (GetMegaAccount (jAccountID (rJob record))) arLabel;
  proxy ← label (jProxyID (rJob record)) (GetProxyProfile (jProxyID (rJob record))) prName;
  let speed := if cfg_Downloads config then BytesPerSecond (Downloads_Speed (jID (rJob record))) else of_int 0 in
  mret (mkView record account proxy speed
    (if cfg_Downloads config then etaSeconds (wrap64 (jTotalBytes (rJob record) - rBytesCommitted record)) speed else 0)).

Fixpoint decorate_all (records : list DownloadJobRecord) : handler (list DownloadView) :=
  match records with
  | [] => mret []
  | r :: rest => v ← decorateDownload r; vs ← decorate_all rest; mret (v :: vs)
  end.

Definition handleListDownloads : handler (Z * list DownloadView) :=
  _ ← storage_there;
  records ← or_write (on_rows ListDownloadJobs)
              (λ _, mkHTTPError StatusInternalServerError "database_error" "could not list downloads");
  views ← decorate_all records;
  writeJSON StatusOK views.

Definition read_answer (e : error) : HTTPError :=
  if errors_is e ErrNotFound then mkHTTPError StatusNotFound "download_not_found" "download was not found"
  else mkHTTPError StatusInternalServerError "database_error" "could not read download".

Definition handleGetDownload (id : string) : handler (Z * DownloadView) :=
  _ ← storage_there;
  _ ← require (negb (bool_decide (id = ""))) StatusBadRequest "download_invalid" "download id is required";
  record ← or_write (on_rows (GetDownloadJobDetail id)) read_answer;
  view ← decorateDownload record;
  writeJSON StatusOK view.

Definition handleDownloadEvents (id : string) : handler (Z * list EventRow) :=
  _ ← storage_there;
  _ ← or_write (on_rows (GetDownloadJob id)) read_answer;
  items ← or_write (on_rows (ListDownloadEvents id 200))
            (λ _, mkHTTPError StatusInternalServerError "database_error" "could not read download events");
  writeJSON StatusOK items.

(** [version], [commit] and [buildTime] are the configured ones. *)
Definition handleVersion (version commit buildTime : string) : handler (Z * gmap string string) :=
  writeJSON StatusOK {["version" := version; "commit" := commit; "buildTime" := buildTime]}.

(** The counts of the dashboard. *)
Definition count_jobs (states : list string) (records : list DownloadJobRecord) : Z :=
  Z.of_nat (length (filter (λ r, jState (rJob r) ∈ states) records)).

Record Dashboard := mkDashboard { activeJobs : Z; queuedJobs : Z; waitingQuotaJobs : Z; diskFree : Z }.

Definition handleDashboard : handler (Z * Dashboard) :=
  _ ← storage_there;
  records ← or_write (on_rows ListDownloadJobs)
              (λ _, mkHTTPError StatusInternalServerError "database_error" "could not read dashboard state");
  _ ← decorate_all records;
  free ← (if cfg_Settings config
          then
            now ← handler_now;
            value ← attempt (on_rows (current_settings pf now));
            mret (match value with Ok value => diskFreeBytes (CompleteRoot (sPaths value)) | Err _ => 0 end)
          else mret 0);
  writeJSON StatusOK (mkDashboard (count_jobs ["resolving"; "downloading"; "finalizing"] records)
    (count_jobs ["ready"; "queued"] records) (count_jobs ["waiting_quota"] records) free).

(** [ping] is what the database's driver answers. *)
Definition handleHealth (ping : bool) : handler (Z * (string * string * bool)) :=
  let database := if cfg_DB config && ping then "ok" else "error" in
  let status := if bool_decide (database = "ok") then "ok" else "degraded" in
  configured ← (if cfg_Settings config
                then
                  now ← handler_now;
                  value ← attempt (on_rows (current_settings pf now));
                  mret (match value with Ok value => Configured (sPaths value) | Err _ => false end)
                else mret false);
  writeJSON (if bool_decide (status = "ok") then StatusOK else StatusServiceUnavailable) (status, database, configured).

(** ** Control *)

(** The manager's operations with their waiting. *)
Definition pause_wait (id : string) : life () :=
  r ← PauseJob id;
  match r with Some _ => mret () | None => stopped id end.

Definition cancel_wait (id : string) (deletePartialFiles : bool) : life () :=
  r ← CancelJob id deletePartialFiles;
  match r with Some _ => mret () | None => _ ← stopped id; cancel_waited id end.

Definition delete_wait (id : string) (deleteFiles : bool) : life () :=
  r ← DeleteJob id deleteFiles;
  match r with Some _ => mret () | None => _ ← stopped id; _ ← cancel_waited id; delete_stopped id deleteFiles end.

Definition manager_there : handler () :=
  require (cfg_Downloads config) StatusServiceUnavailable "download_manager_unavailable" "download manager is unavailable".

Definition refused (code : string) (e : error) : HTTPError := mkHTTPError StatusBadRequest code (Error e).

Definition writeDownloadActionResult (id : string) : handler (Z * DownloadView) :=
  _ ← storage_there;
  record ← or_write (on_rows (GetDownloadJobDetail id))
             (λ _, mkHTTPError StatusInternalServerError "database_error" "could not read download after action");
  view ← decorateDownload record;
  writeJSON StatusOK view.

Definition action (m : life ()) (code id : string) : handler (Z * DownloadView) :=
  _ ← or_write (on_world m) (refused code);
  writeDownloadActionResult id.

Definition handlePauseDownload (id : string) : handler (Z * DownloadView) :=
  _ ← manager_there; action (pause_wait id) "download_pause_failed" id.
Definition handleResumeDownload (id : string) : handler (Z * DownloadView) :=
  _ ← manager_there; action (ResumeJob id) "download_resume_failed" id.
Definition handleRetryDownload (id : string) : handler (Z * DownloadView) :=
  _ ← manager_there; action (ResumeJob id) "download_retry_failed" id.
Definition handleCancelDownload (id : string) (body : Body bool) : handler (Z * DownloadView) :=
  _ ← manager_there;
  deletePartialFiles ← decodeJSON body;
  action (cancel_wait id deletePartialFiles) "download_cancel_failed" id.

(** [raw] is the query's deleteFiles, empty when there is none. *)
Definition handleDeleteDownload (id raw : string) : handler (Z * bool) :=
  _ ← storage_there;
  deleteFiles ← (if bool_decide (raw = "") then mret false
                 else match ParseBool raw with
                      | Some value => mret value
                      | None => writeError StatusBadRequest "delete_invalid" "deleteFiles must be true or false"
                      end);
  _ ← manager_there;
  _ ← or_write (on_world (delete_wait id deleteFiles)) (λ e,
        if errors_is e ErrNotFound then mkHTTPError StatusNotFound "download_not_found" "download was not found"
        else refused "download_delete_failed" e);
  writeJSON StatusOK true.

(** [order] is the order in which Go happens to range over the paused jobs. *)
Definition handlePauseQueue : handler (Z * bool) :=
  _ ← manager_there; _ ← or_write (on_world (on_mgr PauseQueue)) (refused ""); writeJSON StatusOK true.
Definition handleResumeQueue (order : list string) : handler (Z * bool) :=
  _ ← manager_there; _ ← or_write (on_world (on_mgr (ResumeQueue order))) (refused ""); writeJSON StatusOK false.
End control.

(** ** Replacing the settings *)

(** The JSON codecs of the sections, and the order of a map. *)
Record settings_platform (pf : Platform) : Prop := {
  sp_range : ∀ A (m : gmap string A), range pf A m ≡ₚ map_to_list m;
  sp_paths : codec_ok (λ p, text_ok (IncompleteRoot p) ∧ text_ok (CompleteRoot p)) (paths_json pf);
  sp_downloads : codec_ok (λ d, text_ok (ConflictPolicy d)) (downloads_json pf);
  sp_network : codec_ok (λ _, True) (network_json pf);
  sp_ui : codec_ok (λ u, text_ok (Theme u) ∧ text_ok (Locale u)) (ui_json pf) }.

Abbreviation rows_of s := (tables (w_db (sv_world s))).

Lemma on_server_inv {A} (m : handler A) d d' r :
  on_server m d = (d', r) → m (dm_server d) = (dm_server d', r) ∧ dm_limits d' = dm_limits d.
Proof. unfold on_server. destruct (m (dm_server d)) as [s r0]. intros H. by simplify_eq/=. Qed.

(** What touches neither the rows nor what was published. *)
Definition calm {E A} (m : cmd E Server A) : Prop :=
  ∀ t p, preserves (λ s, rows_of s = t ∧ sv_published s = p) m.

Lemma calm_run {E A} (m : cmd E Server A) s s' r :
  calm m → m s = (s', r) → rows_of s' = rows_of s ∧ sv_published s' = sv_published s.
Proof. intros Hm H. specialize (Hm (rows_of s) (sv_published s) s). rewrite H in Hm. by apply Hm. Qed.

Lemma calm_files {A} (m : fs_cmd A) answer : calm (or_write (on_files m) answer).
Proof.
  intros t p s Hs. unfold or_write, on_files, on_world, on_fs. by destruct (m (w_fs (sv_world s))) as [f []].
Qed.

Section put.
Context (pf : Platform) (config : Config) (Hpf : settings_platform pf).

Lemma store_settings_spec value s s' r :
  settings_text value → store_settings pf value s = (s', r) →
  sv_published s' = sv_published s
  ∧ match r with
    | Ok _ => settings_ok value ∧ rows_of s' = rows_of s <| settings := settings (rows_of s') |>
        ∧ ∀ d2 now, faults d2 = [] → settings (tables d2) = settings (rows_of s') → current_settings pf now d2 = (d2, Ok value)
    | Err _ => rows_of s' = rows_of s
    end.
Proof.
  intros Htext H. destruct Hpf as [Hrange Hpaths Hdown Hnet Hui]. unfold store_settings in H.
  unfold or_write at 1, lift_result, mbind, cmd_bind in H. destruct (Settings_Validate value) as [[]|e] eqn:Hv; cbn in H; [|by simplify_eq].
  match type of H with (let (_, _) := ?m s in _) = _ => assert (calm m) as Hc end.
  { destruct (Configured _); [apply calm_files|]. intros t p. apply preserves_ret. }
  match type of H with (let (_, _) := ?m in _) = _ => destruct m as [s1 [[]|e]] eqn:H1 end; destruct (calm_run _ _ _ _ Hc H1) as [E1 E2];
    [|by simplify_eq].
  unfold handler_now, server_now, or_write, on_rows, on_world, on_db in H. cbn in H.
  destruct (Settings_Update pf value _ _) as [d2 [[]|e]] eqn:Hu; simplify_eq/=.
  - split; [done|]. split; [by apply Validate_ok|]. unfold Settings_Update in Hu.
    apply (Update_inv (range pf)) in Hu as (Hok & sec & Hsec & Ht); try done. rewrite E1 in Ht. split.
    + rewrite Ht. by rewrite put_rows_frame at 1.
    + intros d3 now Hd3 Hs3. unfold current_settings. rewrite Ht in Hs3. by eapply (Get_run (range pf)).
  - split; [done|]. rewrite <-E1. unfold Settings_Update, Service_Update, mbind, cmd_bind, lift_result in Hu. rewrite Hv in Hu.
    destruct (marshalSections _ _ _ _ value) as [sec|]; [|by simplify_eq]. by eapply WithTx_err.
Qed.

(** The manager runs with the settings, as far as they may change while it
    runs: the numbers of active files and of workers stay those of its start. *)
Record in_force (value : Settings) (before after : Limits) : Prop := {
  if_rate : globalRate after = GlobalSpeedLimitBytesPerSecond (sDownloads value);
  if_job : perJobLimit (runtime after) = PerJobDefaultLimitBytesPerSecond (sDownloads value);
  if_interval : checkpointInterval (runtime after) = CheckpointIntervalMs (sDownloads value) * Millisecond;
  if_bytes : checkpointBytes (runtime after) = CheckpointBytes (sDownloads value);
  if_policy : conflictPolicy (runtime after) = ConflictPolicy (sDownloads value);
  if_workers : workersPerFile (runtime after) = WorkersPerFile (sDownloads value);
  if_idle : readIdleTimeout (runtime after) = ReadIdleTimeoutSeconds (sNetwork value) * Second;
  if_retries : normalRetryLimit (runtime after) = NormalRetryLimit (sDownloads value);
  if_active : maxActiveFiles after = maxActiveFiles before;
  if_global : maxGlobalWorkers after = maxGlobalWorkers before }.

Lemma ApplySettings_in_force value l : settings_ok value → in_force value l (ApplySettings value l).
Proof. intros Hv. rewrite ApplySettings_valid by done. by split. Qed.

(** C15: A request that replaces the settings is all or nothing: it is answered
    200 only for valid settings, which from then on are what the settings read
    as and what is announced, once; the speed limits, checkpoint interval and
    size, conflict policy, workers per file, idle timeout and retry limit of the
    running manager are theirs, inside the safe limits, while its numbers of
    active files and of workers stay those it was started with.  After any other
    answer the rows are as before, the manager's limits are as before and nothing
    is announced.  Invalid settings are always refused, with nothing touched. *)
Theorem put_settings_sound body d d' r :
  (∀ value, body = OneValue value → settings_text value) →
  handlePutSettings pf config body d = (d', r) →
  match r with
  | Ok (status, value) =>
      body = OneValue value ∧ status = StatusOK ∧ settings_ok value
      ∧ rows_of (dm_server d') = rows_of (dm_server d) <| settings := settings (rows_of (dm_server d')) |>
      ∧ (∀ d2 now, faults d2 = [] → settings (tables d2) = settings (rows_of (dm_server d')) →
           current_settings pf now d2 = (d2, Ok value))
      ∧ (if cfg_Downloads config then in_force value (dm_limits d) (dm_limits d') else dm_limits d' = dm_limits d)
      ∧ (limits_ok (dm_limits d) → limits_ok (dm_limits d'))
      ∧ sv_published (dm_server d') = sv_published (dm_server d) ++ [SettingsUpdated value]
  | Err e =>
      rows_of (dm_server d') = rows_of (dm_server d) ∧ dm_limits d' = dm_limits d
      ∧ sv_published (dm_server d') = sv_published (dm_server d)
  end
  ∧ (∀ value, cfg_Settings config = true → body = OneValue value → ¬ settings_ok value →
       d' = d ∧ ∃ message, r = Err (mkHTTPError StatusBadRequest "settings_invalid" message)).
Proof.
  intros Htext H. split.
  - unfold handlePutSettings, mbind, cmd_bind in H.
    assert (on_server (settings_there config) d = (d, if cfg_Settings config then Ok () else
      Err (mkHTTPError StatusInternalServerError "settings_unavailable" "settings are unavailable"))) as E0
      by (unfold on_server, settings_there, require; destruct (cfg_Settings config), d; done).
    rewrite E0 in H. destruct (cfg_Settings config); [|by simplify_eq].
    assert (on_server (decodeJSON body) d = (d, (decodeJSON body (dm_server d)).2)) as E1 by (by destruct body, d).
    rewrite E1 in H. destruct body as [| |v|v]; cbn in H; try by simplify_eq.
    destruct (on_server (store_settings pf v) d) as [d1 r1] eqn:Es. destruct (on_server_inv _ _ _ _ Es) as [Hs El].
    destruct (store_settings_spec v _ _ _ (Htext v eq_refl) Hs) as [Ep Hr].
    destruct r1 as [[]|e]; [|by simplify_eq]. destruct Hr as (Hok & Hrows & Hread).
    unfold modify, on_server, publish in H. cbn in H.
    assert (dm_limits d' = (if cfg_Downloads config then ApplySettings v (dm_limits d) else dm_limits d)) as Elim
      by (destruct (cfg_Downloads config); simplify_eq/=; congruence).
    assert (r = Ok (StatusOK, v) ∧ rows_of (dm_server d') = rows_of (dm_server d1)
      ∧ sv_published (dm_server d') = sv_published (dm_server d1) ++ [SettingsUpdated v]) as (-> & Erows & Epub)
      by (destruct (cfg_Downloads config); by simplify_eq/=).
    split_and!; try done; rewrite ?Erows, ?Epub, ?Ep; try done.
    + rewrite Elim. destruct (cfg_Downloads config); [by apply ApplySettings_in_force|done].
    + rewrite Elim. destruct (cfg_Downloads config); [by apply ApplySettings_limits|done].
  - intros value Hc -> Hbad. unfold handlePutSettings, mbind, cmd_bind, on_server, settings_there, require, store_settings, or_write, lift_result in H.
    rewrite Hc in H. cbn in H. rewrite <-Validate_ok in Hbad. destruct (Settings_Validate value) as [[]|e]; [done|].
    cbn in H. destruct d. simplify_eq/=. split; [done|]. by eexists.
Qed.
End put.

(** ** Deleting a download *)

Lemma DeleteDownloadJob_ok id d d' :
  DeleteDownloadJob id d = (d', Ok ()) → delete_job_row id (tables d) = Some (tables d', 1).
Proof.
  unfold DeleteDownloadJob. intros H. op_inv. rewrite H0, H. by assert (x = 1) as -> by lia.
Qed.

Lemma on_db_inv {A} (m : store_cmd A) w w' r :
  on_db m w = (w', r) → m (w_db w) = (w_db w', r) ∧ w' = db_ran (w_db w') w.
Proof. unfold on_db. destruct (m (w_db w)) as [d r0]. intros H. by simplify_eq/=. Qed.

(** No row speaks of the job any more. *)
Definition job_gone (id : string) (t : Tables) : Prop :=
  jobs t !! id = None ∧ (∀ k f, files t !! k = Some f → fJobID f ≠ id) ∧ ∀ e, e ∈ events t → eJobID e ≠ id.

Lemma delete_job_row_gone id t t' : delete_job_row id t = Some (t', 1) →
  job_gone id t' ∧ (∀ k, k ≠ id → jobs t' !! k = jobs t !! k)
  ∧ ∀ k f, files t !! k = Some f → fJobID f ≠ id → files t' !! k = Some f.
Proof.
  unfold delete_job_row. destruct (jobs t !! id) eqn:Hj; [|by intros [=]]. intros [= <-]. unfold job_gone. cbn. split_and!.
  - by rewrite lookup_delete_eq.
  - by intros k f [_ Hf]%map_lookup_filter_Some.
  - intros e [[He _] _]%list_elem_of_filter. done.
  - intros k Hk. by rewrite lookup_delete_ne.
  - intros k f Hf Hne. by apply map_lookup_filter_Some.
Qed.

(** The second half of [DeleteJob]. *)
Lemma delete_stopped_gone id del w w' :
  delete_stopped id del w = (w', Ok ()) →
  job_gone id (tables (w_db w')) ∧ ∃ events, w_events w' = events ++ [JobDeleted id].
Proof.
  unfold delete_stopped. intros (job & w1 & _ & H)%cmd_bind_inv. apply cmd_bind_inv in H as ([] & w2 & _ & H).
  apply cmd_bind_inv in H as ([] & w3 & [Hd%DeleteDownloadJob_ok _]%on_db_inv & H). injection H as <-. cbn.
  split; [by apply delete_job_row_gone in Hd as [? _]|by eexists].
Qed.

Lemma DeleteJob_ends id del w w' :
  DeleteJob id del w = (w', Ok (Some ())) → ∃ w1, delete_stopped id del w1 = (w', Ok ()).
Proof.
  unfold DeleteJob. intros (job & w1 & _ & H)%cmd_bind_inv. apply cmd_bind_inv in H as ([] & w2 & _ & H). rewrite get_bind in H.
  case_bool_decide.
  - apply cmd_bind_inv in H as ([[]|] & w3 & _ & H); [|done]. apply cmd_bind_inv in H as ([] & w4 & H4 & H).
    unfold mret, cmd_ret in H. simplify_eq. by exists w3.
  - apply cmd_bind_inv in H as ([] & w3 & _ & H). apply cmd_bind_inv in H as ([] & w4 & H4 & H).
    unfold mret, cmd_ret in H. simplify_eq. by exists w3.
Qed.

(** Without its files only a finished job goes, and only its rows do. *)
Lemma DeleteJob_keeps_files id w w' r :
  id ∉ m_active (w_mgr w) → DeleteJob id false w = (w', Ok r) →
  r = Some () ∧ w_fs w' = w_fs w ∧ w_mgr w' = w_mgr w
  ∧ (∃ j, jobs (tables (w_db w)) !! id = Some j ∧ jState j = "completed")
  ∧ delete_job_row id (tables (w_db w)) = Some (tables (w_db w'), 1).
Proof.
  intros Ha. unfold DeleteJob. intros (job & w1 & [Hg Hw1]%on_db_inv & H)%cmd_bind_inv.
  apply GetDownloadJob_ok in Hg as (Hj & _ & _ & _ & Ht & _).
  apply cmd_bind_inv in H as ([] & w2 & Hguard & H). unfold guard_err, throw, mret, cmd_ret in Hguard. cbn in Hguard.
  destruct (bool_decide (jState (rJob job) = "completed")) eqn:Hc; [|by simplify_eq]. injection Hguard as <-.
  apply bool_decide_eq_true in Hc. rewrite get_bind in H.
  rewrite bool_decide_eq_false_2 in H by (by rewrite Hw1).
  apply cmd_bind_inv in H as ([] & w3 & H3 & H).
  assert (w3 = w1) as ->.
  { rewrite Hc in H3. cbn in H3. rewrite orb_false_r in H3. case_bool_decide; [|by injection H3].
    exfalso. apply cmd_bind_inv in H3 as ([] & w4 & H4 & H3). injection H4 as <-. unfold cancelPersistedJob in H3.
    apply cmd_bind_inv in H3 as (job2 & w5 & [Hg2 _]%on_db_inv & H3). apply GetDownloadJob_ok in Hg2 as (Hj2 & _).
    cbn in Hj2. rewrite Ht, Hj in Hj2. injection Hj2 as E. rewrite <-E, Hc in H3. done. }
  apply cmd_bind_inv in H as ([] & w4 & H4 & H). unfold mret, cmd_ret in H. simplify_eq.
  unfold delete_stopped in H4. apply cmd_bind_inv in H4 as (job2 & w5 & [Hg2 Hw5]%on_db_inv & H4).
  apply GetDownloadJob_ok in Hg2 as (_ & _ & _ & _ & Ht2 & _).
  apply cmd_bind_inv in H4 as ([] & w6 & H6 & H4). injection H6 as <-.
  apply cmd_bind_inv in H4 as ([] & w7 & [Hd%DeleteDownloadJob_ok Hw7]%on_db_inv & H4). injection H4 as <-. cbn.
  rewrite Ht2, Ht in Hd. rewrite Hw7, Hw5, Hw1. cbn. split_and!; try done. by exists (rJob job).
Qed.

(** What the query asks for. *)
Definition wants_files (raw : string) : option bool := if bool_decide (raw = "") then Some false else ParseBool raw.

Lemma require_ok b status code message s s' : require b status code message s = (s', Ok ()) → b = true ∧ s' = s.
Proof. unfold require, writeError, throw, mret, cmd_ret. destruct b; intros H; by simplify_eq. Qed.

Lemma on_world_inv {A} (m : life A) s s' r :
  on_world m s = (s', r) → m (sv_world s) = (sv_world s', r) ∧ s' = s <| sv_world := sv_world s' |>.
Proof. unfold on_world. destruct (m (sv_world s)) as [w r0]. intros H. by simplify_eq/=. Qed.

Section deleting.
Context (config : Config) (stopped : string → life ()).

Lemma handleDelete_inv id raw s s' a :
  handleDeleteDownload config stopped id raw s = (s', Ok a) →
  a = (StatusOK, true) ∧ s' = s <| sv_world := sv_world s' |>
  ∧ ∃ del, wants_files raw = Some del ∧ delete_wait stopped id del (sv_world s) = (sv_world s', Ok ()).
Proof.
  unfold handleDeleteDownload, storage_there, manager_there, wants_files. intros ([] & s1 & [_ ->]%require_ok & H)%cmd_bind_inv.
  apply cmd_bind_inv in H as (del & s2 & H2 & H). apply cmd_bind_inv in H as ([] & s3 & [_ ->]%require_ok & H).
  apply cmd_bind_inv in H as ([] & s4 & [H4 E4]%or_write_inv%on_world_inv & H). unfold writeJSON, mret, cmd_ret in H. simplify_eq.
  assert (s2 = s ∧ (if bool_decide (raw = "") then Some false else ParseBool raw) = Some del) as [-> ?]
    by (unfold mret, cmd_ret, writeError, throw in H2; repeat case_match; by simplify_eq).
  split; [done|]. split; [done|]. by exists del.
Qed.

Lemma delete_wait_ends id del w w' :
  delete_wait stopped id del w = (w', Ok ()) → ∃ w1, delete_stopped id del w1 = (w', Ok ()).
Proof.
  unfold delete_wait. intros ([[]|] & w1 & H1 & H)%cmd_bind_inv.
  - injection H as <-. by eapply DeleteJob_ends.
  - do 2 (apply cmd_bind_inv in H as ([] & ? & _ & H)). by eexists.
Qed.

(** C16: A deletion that is answered is complete, whether the job was running or
    not and whatever happened while the request waited for it: no row, file or
    event of the job is left, and it is announced as deleted.  Without its files
    only a finished job goes: if it is not running, the file tree and the queue
    are as they were, no other job's rows change, and the request is refused,
    with nothing changed, when the job is unfinished or the query is malformed. *)
Theorem delete_download_sound id raw s s' r :
  handleDeleteDownload config stopped id raw s = (s', r) →
  (∀ a, r = Ok a → a = (StatusOK, true) ∧ job_gone id (rows_of s')
     ∧ ∃ events, w_events (sv_world s') = events ++ [JobDeleted id])
  ∧ (wants_files raw = Some false → id ∉ m_active (w_mgr (sv_world s)) →
     (∀ a, r = Ok a → w_fs (sv_world s') = w_fs (sv_world s) ∧ w_mgr (sv_world s') = w_mgr (sv_world s)
        ∧ (∃ j, jobs (rows_of s) !! id = Some j ∧ jState j = "completed")
        ∧ (∀ k, k ≠ id → jobs (rows_of s') !! k = jobs (rows_of s) !! k)
        ∧ ∀ k f, files (rows_of s) !! k = Some f → fJobID f ≠ id → files (rows_of s') !! k = Some f)
     ∧ (∀ j, jobs (rows_of s) !! id = Some j → jState j ≠ "completed" → ∃ e, r = Err e))
  ∧ (wants_files raw = None → s' = s ∧ ∃ e, r = Err e).
Proof.
  intros H. split; [|split].
  - intros a ->. apply handleDelete_inv in H as (-> & _ & del & _ & H). split; [done|].
    apply delete_wait_ends in H as [w1 H]. by apply delete_stopped_gone in H.
  - intros Hw Ha. assert (∀ a, r = Ok a → DeleteJob id false (sv_world s) = (sv_world s', Ok (Some ()))) as Hok.
    { intros a ->. apply handleDelete_inv in H as (_ & _ & del & Hw' & H). rewrite Hw in Hw'. injection Hw' as <-.
      unfold delete_wait in H. apply cmd_bind_inv in H as (r & w1 & H1 & H).
      destruct (DeleteJob_keeps_files _ _ _ _ Ha H1) as (-> & _). by injection H as <-. }
    split.
    + intros a Hr. destruct (DeleteJob_keeps_files _ _ _ _ Ha (Hok a Hr)) as (_ & Hfs & Hm & Hj & Hrow).
      apply delete_job_row_gone in Hrow as (_ & Hjobs & Hfiles). by split_and!.
    + intros j Hj Hne. destruct r as [a|e]; [|by eexists]. exfalso.
      destruct (DeleteJob_keeps_files _ _ _ _ Ha (Hok a eq_refl)) as (_ & _ & _ & (j' & Hj' & Hc) & _). congruence.
  - intros Hw. unfold handleDeleteDownload, storage_there, require, mbind, cmd_bind, wants_files, writeError, throw, mret, cmd_ret in *.
    destruct (cfg_DB config); [|simplify_eq; split; [done|by eexists]]. case_bool_decide; [done|]. rewrite Hw in H. simplify_eq.
    split; [done|by eexists].
Qed.
End deleting.

(** ** Samples *)

Definition control_platform : Platform :=
  mkPlatform sample_parse sample_base64 (λ _ b, b) (λ _ b, b) (λ _ _ _ n, replicate n 0) (λ _, None)
    (λ _, Err (New "no attributes")) tag_aead (λ A, @map_to_list _ _ _ _)
    sample_paths_json sample_downloads_json sample_network_json sample_ui_json
    (λ k n, Ok (replicate n (Z.of_nat k `mod` 256))) (λ _, 7).

Lemma control_platform_ok : settings_platform control_platform.
Proof. split; cbn; try done; by apply number_codec_ok; intros []. Qed.

Definition new_settings : Settings :=
  sample_current <| sDownloads := mkDownloadSettings true settings_DefaultSegmentSize 8 2 8 0 0 "rename" 2000 (Z.shiftl 256 20) 5 |>.
Definition sample_daemon : Daemon := mkDaemon sample_server (from_settings Default).
Definition put_run : Daemon * result HTTPError (Z * Settings) :=
  handlePutSettings control_platform ApiServer.sample_config (OneValue new_settings) sample_daemon.

Lemma put_settings_sound_witness :
  put_run.2 = Ok (200, new_settings)
  ∧ workersPerFile (runtime (dm_limits sample_daemon)) = 4 ∧ workersPerFile (runtime (dm_limits put_run.1)) = 8
  ∧ limits_ok (dm_limits put_run.1).
Proof.
  assert (put_run.2 = Ok (200, new_settings)) as Hr by (vm_compute; reflexivity).
  destruct (put_settings_sound control_platform ApiServer.sample_config control_platform_ok (OneValue new_settings) sample_daemon
    put_run.1 put_run.2) as [H _].
  - intros value [= <-]. repeat split.
  - apply surjective_pairing.
  - rewrite Hr in H. destruct H as (_ & _ & _ & _ & _ & El & Hl & _). split; [done|]. split; [done|]. split; [apply El|].
    apply Hl. apply settings_limits, Validate_ok. vm_compute. reflexivity.
Defined.

Definition finished_server : Server := ApiServer.sample_server <| sv_world := sample_end |>.
Definition delete_run : Server * result HTTPError (Z * bool) :=
  handleDeleteDownload ApiServer.sample_config (λ _, mret ()) "job" "false" finished_server.

Lemma delete_download_sound_witness :
  delete_run.2 = Ok (200, true) ∧ is_Some (jobs (rows_of finished_server) !! "job")
  ∧ job_gone "job" (rows_of delete_run.1) ∧ w_fs (sv_world delete_run.1) = w_fs (sv_world finished_server).
Proof.
  assert (delete_run.2 = Ok (200, true)) as Hr by (vm_compute; reflexivity).
  destruct (delete_download_sound ApiServer.sample_config (λ _, mret ()) "job" "false" finished_server delete_run.1 delete_run.2)
    as (H1 & H2 & _); [apply surjective_pairing|].
  destruct (H1 _ Hr) as (_ & Hg & _). split; [done|]. split; [vm_compute; by eexists|]. split; [exact Hg|].
  apply H2 in Hr; [apply Hr|reflexivity|]. vm_compute. set_solver.
Defined.
